(* ===== verification/_CoqProject ===== *)
-Q . S2P
Prelude.v
Containers.v
Utility.v
FileHandles.v
OptionParser.v
UsagePrinter.v
Stats.v
Address.v
IPNet.v
NRadix.v
Process.v
Connection.v
ExternalIPs.v
ConnDelta.v
ConnTracker.v
RateLimit.v
Notifier.v
ProcNet.v
ProcScrape.v
Duplex.v
Events.v
NetSignals.v
Pipeline.v
ProcSignals.v
Service.v
ConfigParser.v
Inotify.v
ConfigLoader.v
Host.v
Config.v
Args.v
Logging.v
SelfChecks.v
Extractor.v
InspectorSetup.v
Metrics.v
Introspection.v
Lifecycle.v
Main.v
UdpMemory.v
UdpClient.v
UdpServer.v
UdpSession.v
TestPrograms.v
