(* ===== verification/Prelude.v ===== *)
(** * Verification of the StackRox collector

    The collector watches the containers of a host and reports to Sensor which
    processes they run and which network connections and listening endpoints they have.
    A service dispatches kernel events to handlers: process events become messages on
    a stream, network events and scrapes of /proc feed a connection tracker; a notifier thread takes normalized snapshots of
    it, computes differences, with or without an afterglow period, and streams them;
    control messages from Sensor bring the networks and addresses the normalization
    uses.  This library models these parts from the sources under [collector/lib], the
    program itself, [collector/collector.cpp], and the test programs in C, and
    proves what makes each of them, and their composition, correct.

    ** Files and the code they model

    - [Prelude] (this file): machine words with their wrap-around ([wrap], [wnot],
      [to_signed]), byte order ([HostEndian] is a type class: every theorem holds on
      hosts of both byte orders), the notations, tactics and hint databases.
    - [Containers]: [Containers.h], [Hash.h] and the members of the unordered
      containers.  A map is an association list in insertion order; the class [KeyEq]
      is the equality a container is instantiated with, [KeyEqLaws] states on which class
      of keys it is an equivalence, and [wf_umap] that no two entries have equal keys.  The
      class [HashKeys] adds that equal keys have equal hashes: on such keys a search of one
      bucket finds what the search of the list does ([bucket_find_Find]), and theorems
      about maps whose keys need not be such (networks are not) assume it.
    - [Utility]: the pure functions of [Utility.cpp] and the <cctype> and number
      functions the components call.
    - [FileHandles]: [FileSystem.h]; the handles over the set of open resources, with the
      results of system calls as inputs, and decompression over zlib.
    - [OptionParser], [UsagePrinter]: [optionparser.h]; arguments are pointers into the
      strings of the command line, the arrays have addresses, and an access outside them has no result.
    - [Stats]: the counters and timers of [CollectorStats.h].
    - [Address], [IPNet]: the classes of [NetworkConnection.h]; an address is two
      64-bit words in network order, [addr_val] its abstract value, [addr_path] its bits.
    - [NRadix]: [NRadix.cpp].  Nodes are an inductive type, [None] is a null pointer;
      [tree_ok] is the invariant, a linear scan of the stored networks the reference.
    - [Process]: [Process.h] and [Process.cpp]; the store is a heap of
      reference-counted objects with a step relation for accesses that do not overlap;
      the cache has no lock.
    - [Connection]: endpoints, connections, printers and parsers of
      [NetworkConnection.h] and [NetworkConnection.cpp].  [inet_ntop] and [getaddrinfo]
      are parameters with the laws [inet_laws].
    - [ExternalIPs]: [ExternalIPsConfig.cpp].
    - [ConnDelta]: the packed [ConnStatus] and the templates of [ConnTracker.h]
      that compute differences, over any key type.
    - [ConnTracker]: the tracker of [ConnTracker.cpp]; each public operation, which
      holds the mutex, is one function of the state [ConnectionTracker].
    - [RateLimit]: [RateLimit.cpp]; the readings of the clock are inputs.
    - [Notifier]: [NetworkStatusNotifier.cpp]; an iteration of [RunSingle] takes the
      scrape, the clock, the configuration and the result of the write as inputs and
      composes the tracker, the differences and the limiter as the code does; its two
      parts, the snapshot and the report, are separate functions.
    - [ProcNet], [ProcScrape]: [ProcfsScraper.cpp]; pointers into a line buffer are
      the bytes from there to its end, an out-of-bounds read is a value of its own, and
      the contents of /proc are inputs; a loop over lines that used up its fuel has no
      result, and the theorems show that there is one.
    - [Duplex]: [DuplexGRPC.h]; the flag word bit by bit, the outstanding operations
      of gRPC as part of the state, the results of the completion queue as inputs.
    - [Events]: [EventNames.cpp] and [EventMap.h]; the class [Driver] holds the tables
      of the driver, records what the inspector (libsinsp) says about an event.
    - [NetSignals]: [NetworkSignalHandler.cpp].
    - [Pipeline]: interleavings of kernel events, control messages and iterations of the notifier
      over the shared tracker: [NetSignals], [ConnTracker] and [Notifier] together.  A step is an
      operation on the tracker: an iteration updates, configures, takes its snapshot and reports
      in steps of their own.
    - [ProcSignals]: [ProcessSignalFormatter.cpp], [SignalServiceClient.cpp] and
      [ProcessSignalHandler.cpp]; the class [Inspector] with [InspectorLaws] is what they
      use of libsinsp, [Environment] the clock, identifiers and outcomes of writes.
    - [Service]: [system-inspector/Service.cpp] and [SelfCheckHandler.cpp]; an entry of
      the handler list is a record of functions over the state the handlers share.
    - [ConfigParser]: [ParserYaml] of [ConfigLoader.cpp] over YAML trees, descriptors and
      messages as data types; the class [Yaml] with [YamlLaws] is what it uses of yaml-cpp.
    - [Inotify]: [Inotify.cpp]; the buffer is the bytes of the kernel's structures, the
      class [Kernel] the system calls, and [KernelLaws] that reads that succeed give whole
      events; a read may fail.
    - [ConfigLoader]: [ConfigLoader] of [ConfigLoader.cpp]; the class [FileSystem] answers
      each question anew, so nothing is assumed about changes between two of them.
    - [Host]: [HostInfo.cpp], [HostHeuristics.cpp] and [CollectionMethod.cpp]; the class
      [Host] is what the machine answers.
    - [Config]: [EnvVar.h], [CollectorArgs.cpp], [CollectorConfig.cpp], the levels of
      [Logging.cpp] and the configuration part of [main]; floating-point settings are
      computed with the Standard Library's [SpecFloat] in the precision of the code.
    - [Args]: the table of options of [CollectorArgs.cpp] and its [parse], over the option
      parser, and the start of [main] from its arguments.
    - [Logging]: [Logging.h], [Logging.cpp] and [AbortHandler.cpp]; standard error and the
      termination log are part of the state.
    - [SelfChecks]: [self-checks.cpp], the program with its two processes, and
      [SelfChecks.cpp], which runs it.
    - [Extractor]: [EventExtractor.h] over the filter checks of libsinsp, a type class with the laws of
      the four fields.
    - [InspectorSetup]: the filter of the constructor of [Service.cpp], as a regular
      expression over ASCII with a matcher by derivatives, and [Service::Start].
    - [Metrics]: [CollectorStatsExporter.cpp], [CollectorConnectionStats.h] and
      [Service::GetStats]; the class [Registry] with [RegistryLaws] is what the exporter
      uses of Prometheus; a pass reads every atomic counter at a moment of its own.
    - [Introspection]: the HTTP handlers [NetworkStatusInspector], [ContainerInfoInspector],
      [CollectorConfigInspector], [GetStatus], [LogLevelHandler] and [ProfilerHandler], one
      module each, over [CivetWrapper.cpp]; a reply is the list of calls that send it, and
      the classes [Profiler] and [Gperftools] are the two builds of [Profiler.h] and the
      library below.
    - [Lifecycle]: [StoppableThread.cpp] with the descriptors of the process (whether a thread
      returns once it is told to stop is an input, and joining one that does not never ends),
      the threads of [CollectorService.cpp], the connection attempts of [GRPCUtil.cpp] and
      [collector.cpp], [NetworkStatusNotifier::Run] interleaved with [Stop] as a step
      relation, [KernelDriver.h], [Diagnostics.h] and the growth of [ProtoAllocator.h].
    - [Main]: [collector.cpp], [GRPC.cpp], [NetworkConnectionInfoServiceComm.cpp],
      [CollectorService.cpp] and [connscrape.cpp].  The service is written against the interface
      [SystemInspector], a type class of which [Service] gives an instance; the loop of
      [RunForever] and the handler of shutdown signals are interleaved as a step relation.
    - [UdpMemory], [UdpClient], [UdpServer], [UdpSession]: the UDP programs of the integration
      tests, the sockets' memory, each program and both together.
    - [TestPrograms]: the probes that measure the latency of system calls and the program that
      counts the events of a tracepoint.

    ** What the theorems show

    - Networks: containment is the prefix order on bits, [IsLocal] and [IsPublic]
      hold exactly on the documented blocks, the tree's lookups, insertions and subset
      tests equal scans of the stored networks; where two families share a tree they do not.
    - Tracker: an invariant over all sequences of operations; updates, normalization,
      snapshots, filters and the closing on configuration changes in terms of
      references without trees; reports commute when their times differ.
    - Differences and notifier: a receiver of all differences knows exactly the
      connections the snapshots prescribe, for [ComputeDelta], for
      [ComputeDeltaAfterglow] over any history, and for the loop of [RunSingle].
    - From events to Sensor ([Pipeline.Sensor_view]): for every interleaving of kernel
      events, control messages and the notifier's operations on the tracker, what Sensor knows of a
      connection is what the last event or scrape before the snapshot said, through filters,
      normalization and differences; times come in order, with afterglow the external-IPs
      setting does not change, and the keys satisfy [HashKeys].
    - Messages: network lists survive the wire format, control messages keep the
      tracker consistent, rate limiting drops only open connections over the limit.
    - Scraping: the parsers never read outside their buffers, read back what the
      kernel prints, and report only connections of live container processes that a line of
      the kernel's tables has as established.
    - Process store and duplex client: invariants by rule induction over their step
      relations; one object per process while lookups and destructors do not overlap, one outstanding operation of a kind, nothing
      started after closing, and termination of the drain loop.
    - Events: the tracker holds for every connection the status of its latest event;
      a new stream whose writes succeed receives every container process whose details are known
      and then the event that found it, less what is rate limited; the lineage of a process equals a reference and the
      text of its message is valid UTF-8; the client of the stream never uses a null
      writer; handlers that report are never unloaded.
    - Configuration: the parser returns, keeps messages well typed and accepts exactly the
      documents that fit; files with errors change nothing; over all sequences of inotify
      events the runtime configuration is absent or that of an accepted document, and a
      change the kernel announces takes effect; the buffer of events is a queue, up to the first
      read that fails, that is drained; collector starts exactly on hosts that support it, and every configuration
      it starts with is valid.  The option parser's two passes agree with a reference, stay
      inside their arrays and read settings back; printing the usage ends.
    - Introspection and metrics: the replies show every entry of a snapshot, filtered and
      merged, of the containers asked for exactly once and change nothing, query strings and printed
      networks are read back, profiles are sent as they were taken, and the registry shows
      the statistics of the last pass of the exporter.
    - Start-up and shutdown: threads that return give their descriptors back, the connection attempt
      makes at most 30 polls, and the notifier's thread ends within three steps of being
      told to stop, unless it is bound to a stream nobody will cancel; a shutdown signal ends the
      loop of [main] within three steps, and [main] returns 0 with the service's descriptors closed
      when the threads of the service return, and otherwise never.
      The channel uses TLS exactly if it is configured completely.
    - Inspector: the filter passes every event of a container, the extractor gives exactly the
      fields of an event, and a self check that cannot succeed goes unnoticed.
    - Utilities: container IDs from cgroup paths, UTF-8 repair, base64; file handles close
      what they own exactly once; throttled messages count what they leave out.
    - Test programs: every datagram of the UDP client is printed whole by the server; the
      probes pair every return with its entry.
    - Where the code does not do what it says, a theorem states what it does:
      mixed families in a tree, network equality across kinds, the endpoint counter, the
      reset of the limiter cache, control messages without networks, polling for
      events that have passed, a wake-up lost when the client stops, unsanitized
      lineage, arguments of processes found at a refresh, failed reads of inotify events,
      the Secure Boot variable, a notifier that cannot be stopped, a heap profile that
      could not be taken, averages that are documented but never set or not a number, options counted too low in one
      mode of the parser, descriptors leaked by conversions, the severity of inspector messages,
      differences between filter and extraction of container IDs, keep-alive settings
      that gRPC does not know, errors the UDP programs do not see.

    ** Bounds and fuel

    Loops over the bits of an address have fuel 129, one more than an address has
    bits, and the theorems show that they return.  Loops over strings and files have
    the length of their input, plus one, as fuel, and each iteration consumes a
    character.  Loops that wait for the completion queue recurse on the list of its
    results.  The watching thread's loop and calls in a row take the number of rounds as an
    argument, and the theorems hold for every number.  Loops of the option parser and the usage
    printer have as fuel the length of what they walk over, and theorems show that they return;
    a counting loop over an [int] has 2^31.  The UDP programs' loops have as fuel the number of
    times they test whether to go on, decompression the number of reads, the attempts of the self check
    the five it makes.  All other recursion is structural.  Times and counters are integers with
    the conversions of the code written out; theorems that need a value to fit say so.

    ** What is not modelled

    The falcosecurity libraries, gRPC, protobuf, civetweb, Prometheus, zlib and the other
    libraries the code calls: they are parameters with the laws the code relies on.  Of the code: the
    printed text of the configuration, the allocator that reuses messages, the macros that no field of the
    extractor uses, and [thread_exec.c], a thread that executes another program.  Locks appear
    as the atomicity of the operations they protect, atomic variables as sequentially consistent; where
    the code shares data without a lock, as the process store and the external-IPs setting of the
    tracker, executions with overlapping accesses are left out. *)

From Stdlib Require Export ZArith Lia Bool Ascii.
From stdpp Require Export prelude strings list.

Open Scope Z_scope.

(** ** Notations of the development

    [lit] writes a C string literal as the list of characters the models
    work on; a [std::string], a [string_view] and a [char*] with its length
    are all [str]. *)

Declare Scope collector_scope.
Delimit Scope collector_scope with col.

Definition str : Type := list ascii.

Definition lit (s : string) : str := String.list_ascii_of_string s.

#[export] Instance str_eq_dec : EqDecision str := _.

(** An early return on a null result: [let! x := c in k]. *)
Notation "'let!' x ':=' c1 'in' c2" :=
  (match c1 with Some x => c2 | None => None end)
  (at level 10, x pattern, c1 at level 200, c2 at level 200)
  : collector_scope.

(** ** Boolean reflection used throughout the proofs *)

Create HintDb collector discriminated.
Create Rewrite HintDb byteorder.

Ltac b2p :=
  repeat match goal with
  | H : _ && _ = true |- _ => apply andb_true_iff in H as [? ?]
  | H : _ || _ = false |- _ => apply orb_false_iff in H as [? ?]
  | H : _ || _ = true |- _ => apply orb_true_iff in H as [?|?]
  | H : _ && _ = false |- _ => apply andb_false_iff in H as [?|?]
  | H : negb _ = true |- _ => apply negb_true_iff in H
  | H : negb _ = false |- _ => apply negb_false_iff in H
  | H : (_ =? _) = true |- _ => apply Z.eqb_eq in H
  | H : (_ =? _) = false |- _ => apply Z.eqb_neq in H
  | H : (_ <? _) = true |- _ => apply Z.ltb_lt in H
  | H : (_ <? _) = false |- _ => apply Z.ltb_ge in H
  | H : (_ <=? _) = true |- _ => apply Z.leb_le in H
  | H : (_ <=? _) = false |- _ => apply Z.leb_gt in H
  | H : bool_decide _ = true |- _ => apply bool_decide_eq_true_1 in H
  | H : bool_decide _ = false |- _ => apply bool_decide_eq_false_1 in H
  end.

Ltac destr_if :=
  match goal with
  | |- context [if ?b then _ else _] => destruct b eqn:?
  | H : context [if ?b then _ else _] |- _ => destruct b eqn:?
  end.

(** ** Machine words

    A [w]-bit unsigned integer is a [Z] in [0, 2^w); the wrap-around of the
    C++ arithmetic is written out with [wrap]. *)

Definition wrap (w x : Z) : Z := x mod 2 ^ w.

Definition word (w x : Z) : Prop := 0 <= x < 2 ^ w.

(** The complement [~x] of a [w]-bit word. *)
Definition wnot (w x : Z) : Z := Z.ldiff (Z.ones w) x.

(** [static_cast<int64_t>] and its like on a [w]-bit word. *)
Definition to_signed (w x : Z) : Z :=
  let r := wrap w x in if r <? 2 ^ (w - 1) then r else r - 2 ^ w.

Definition ALL_ONES : Z := 0xFFFFFFFFFFFFFFFF.
Definition TOP_BIT : Z := 0x8000000000000000.

Lemma wrap_word w x : 0 <= w -> word w (wrap w x).
Proof. intros. unfold word, wrap. apply Z.mod_pos_bound. lia. Qed.

Lemma wrap_id w x : word w x -> wrap w x = x.
Proof. intros. by apply Z.mod_small. Qed.

Lemma word_testbit_high w x i : 0 <= w -> word w x -> w <= i -> Z.testbit x i = false.
Proof.
  intros Hw Hx Hi. rewrite <- (wrap_id w x Hx). unfold wrap.
  apply Z.mod_pow2_bits_high. lia.
Qed.

Lemma word_of_testbit w x :
  0 <= w -> 0 <= x -> (forall i, w <= i -> Z.testbit x i = false) -> word w x.
Proof.
  intros Hw Hx H. split; [done|].
  destruct (Z.eq_dec x 0) as [->|Hn]; [by apply Z.pow_pos_nonneg; lia|].
  apply Z.log2_lt_pow2; [lia|].
  destruct (Z.lt_ge_cases (Z.log2 x) w) as [|Hge]; [done|].
  specialize (H _ Hge). rewrite Z.bit_log2 in H by lia. discriminate.
Qed.

Lemma word_inj_testbit w x y :
  0 <= w -> word w x -> word w y ->
  (forall i, 0 <= i < w -> Z.testbit x i = Z.testbit y i) -> x = y.
Proof.
  intros Hw Hx Hy H. apply Z.bits_inj'. intros i Hi.
  destruct (Z.lt_ge_cases i w); [by apply H|].
  by rewrite (word_testbit_high w x), (word_testbit_high w y).
Qed.

Lemma wnot_testbit w x i :
  0 <= i < w -> Z.testbit (wnot w x) i = negb (Z.testbit x i).
Proof.
  intros. unfold wnot. rewrite Z.ldiff_spec, Z.ones_spec_low by lia. done.
Qed.

Lemma wnot_word w x : 0 <= w -> word w (wnot w x).
Proof.
  intros Hw. unfold wnot. apply word_of_testbit; [done| |].
  - apply Z.ldiff_nonneg. left. rewrite Z.ones_equiv.
    pose proof (Z.pow_pos_nonneg 2 w). lia.
  - intros i Hi. rewrite Z.ldiff_spec, Z.ones_spec_high by lia. done.
Qed.

Lemma shiftr_word w x n : 0 <= w -> 0 <= n -> word w x -> word w (Z.shiftr x n).
Proof.
  intros Hw Hn Hx. apply word_of_testbit; [done|apply Z.shiftr_nonneg; unfold word in *; lia|].
  intros i Hi. rewrite Z.shiftr_spec by lia. apply (word_testbit_high w); lia || done.
Qed.

Lemma land_word w x y : 0 <= w -> word w x -> word w (Z.land x y).
Proof.
  intros Hw Hx. apply word_of_testbit; [done|apply Z.land_nonneg; unfold word in *; lia|].
  intros i Hi. rewrite Z.land_spec, (word_testbit_high w x); done.
Qed.

(** A test against a single bit, [x & (1 << k)]. *)
Lemma land_pow2_test x k :
  0 <= k -> (Z.land x (2 ^ k) =? 0) = negb (Z.testbit x k).
Proof.
  intros Hk. destruct (Z.testbit x k) eqn:E; simpl.
  - apply Z.eqb_neq. intros H0.
    assert (Z.testbit (Z.land x (2 ^ k)) k = false) as H by (by rewrite H0, Z.bits_0).
    rewrite Z.land_spec, E, Z.pow2_bits_true in H by done. discriminate.
  - apply Z.eqb_eq. apply Z.bits_inj'. intros i Hi. rewrite Z.land_spec, Z.bits_0.
    destruct (Z.eq_dec i k) as [->|Hne]; [by rewrite E|].
    rewrite Z.pow2_bits_false by lia. apply andb_false_r.
Qed.

Lemma ones_testbit w i : 0 <= i < w -> Z.testbit (Z.ones w) i = true.
Proof. intros. by apply Z.ones_spec_low. Qed.

Lemma TOP_BIT_pow : TOP_BIT = 2 ^ 63.
Proof. reflexivity. Qed.

Lemma ALL_ONES_ones : ALL_ONES = Z.ones 64.
Proof. reflexivity. Qed.

(** The prefix mask [~(~0 >> n)]: its [n] most significant bits are set. *)
Lemma prefix_mask_testbit n i :
  0 <= n -> 0 <= i < 64 ->
  Z.testbit (wnot 64 (Z.shiftr ALL_ONES n)) i = (64 - n <=? i).
Proof.
  intros Hn Hi. rewrite wnot_testbit, Z.shiftr_spec, ALL_ONES_ones by lia.
  destruct (Z.leb_spec (64 - n) i).
  - by rewrite Z.ones_spec_high by lia.
  - by rewrite Z.ones_spec_low by lia.
Qed.

(** Comparing under a mask of leading ones is comparing the shifted values. *)
Lemma high_mask_eqb x v k :
  0 <= k <= 64 -> word 64 x ->
  (Z.land x (Z.shiftl (Z.ones (64 - k)) k) =? Z.shiftl v k) = (Z.shiftr x k =? v).
Proof.
  intros Hk Hx.
  replace (Z.land x (Z.shiftl (Z.ones (64 - k)) k)) with (Z.shiftl (Z.shiftr x k) k).
  - apply eq_bool_prop_intro. rewrite !Is_true_true, !Z.eqb_eq. split; [|by intros ->].
    rewrite !Z.shiftl_mul_pow2 by lia. apply Z.mul_reg_r.
    pose proof (Z.pow_pos_nonneg 2 k). lia.
  - apply Z.bits_inj'. intros i Hi. rewrite Z.land_spec, !Z.shiftl_spec by lia.
    destruct (Z.lt_ge_cases i k).
    + rewrite !(Z.testbit_neg_r _ (i - k)) by lia. by rewrite andb_false_r.
    + rewrite Z.shiftr_spec by lia. replace (i - k + k) with i by lia.
      destruct (Z.lt_ge_cases i 64).
      * rewrite Z.ones_spec_low by lia. by rewrite andb_true_r.
      * by rewrite (word_testbit_high 64 x).
Qed.

(** ** Bytes of a word and byte order *)

Fixpoint le_bytes (n : nat) (x : Z) : list Z :=
  match n with
  | O => []
  | S n => x mod 256 :: le_bytes n (x / 256)
  end.

Fixpoint le_word (bs : list Z) : Z :=
  match bs with
  | [] => 0
  | b :: bs => b + 256 * le_word bs
  end.

Definition bytes_ok (bs : list Z) : Prop := Forall (fun b => 0 <= b < 256) bs.

Lemma length_le_bytes n x : length (le_bytes n x) = n.
Proof. revert x. induction n; intros; simpl; auto. Qed.

Lemma le_bytes_ok n x : bytes_ok (le_bytes n x).
Proof.
  revert x. unfold bytes_ok. induction n; intros; simpl; constructor; auto.
  apply Z.mod_pos_bound. lia.
Qed.

Lemma le_word_bound bs : bytes_ok bs -> 0 <= le_word bs < 256 ^ Z.of_nat (length bs).
Proof.
  induction 1 as [|b bs Hb _ IH]; simpl le_word; simpl length; [lia|].
  rewrite Nat2Z.inj_succ, Z.pow_succ_r by lia. lia.
Qed.

Lemma le_word_bytes n x : le_word (le_bytes n x) = x mod 256 ^ Z.of_nat n.
Proof.
  revert x. induction n as [|n IH]; intros x; cbn [le_bytes le_word].
  - by rewrite Z.pow_0_r, Z.mod_1_r.
  - rewrite IH, Nat2Z.inj_succ, Z.pow_succ_r by lia.
    rewrite Z.rem_mul_r by lia. done.
Qed.

Lemma le_bytes_word bs : bytes_ok bs -> le_bytes (length bs) (le_word bs) = bs.
Proof.
  induction 1 as [|b bs Hb _ IH]; cbn [le_bytes le_word length]; [done|].
  replace (b + 256 * le_word bs) with (le_word bs * 256 + b) by lia.
  rewrite Z.div_add_l, Z.div_small, Z.add_0_r, IH by lia.
  rewrite Z.add_comm, Z.mod_add, Z.mod_small by lia. done.
Qed.

(** The 64-bit byte swap behind [htobe64]/[be64toh] on a little-endian host. *)
Definition bswap64 (x : Z) : Z := le_word (rev (le_bytes 8 x)).

Lemma bytes_ok_rev bs : bytes_ok bs -> bytes_ok (rev bs).
Proof. intros H. unfold bytes_ok in *. by apply List.Forall_rev. Qed.

Lemma bswap64_word x : word 64 (bswap64 x).
Proof.
  unfold bswap64, word.
  pose proof (le_word_bound (rev (le_bytes 8 x))) as H.
  rewrite length_rev, length_le_bytes in H. apply H.
  apply bytes_ok_rev, le_bytes_ok.
Qed.

Lemma bswap64_invol x : word 64 x -> bswap64 (bswap64 x) = x.
Proof.
  intros Hx. unfold bswap64.
  rewrite <- (length_le_bytes 8 x) at 1. rewrite <- (length_rev (le_bytes 8 x)).
  rewrite le_bytes_word by apply bytes_ok_rev, le_bytes_ok.
  rewrite rev_involutive, le_word_bytes. by apply Z.mod_small.
Qed.

(** Bit [i] of a word assembled from bytes lies in byte [i / 8]. *)
Lemma le_word_testbit bs i :
  bytes_ok bs -> 0 <= i ->
  Z.testbit (le_word bs) i = Z.testbit (nth (Z.to_nat (i / 8)) bs 0) (i mod 8).
Proof.
  intros Hb. revert i. induction Hb as [|b bs Hb Hbs IH]; intros i Hi; cbn [le_word].
  { destruct (Z.to_nat (i / 8)); by rewrite !Z.bits_0. }
  replace (b + 256 * le_word bs) with (Z.lor b (Z.shiftl (le_word bs) 8)).
  2: { rewrite Z.shiftl_mul_pow2 by lia. rewrite <- Z.lxor_lor.
       - rewrite <- Z.add_nocarry_lxor; [lia|].
         apply Z.bits_inj'. intros j Hj. rewrite Z.land_spec, Z.bits_0.
         destruct (Z.lt_ge_cases j 8).
         + rewrite Z.mul_pow2_bits_low by lia. apply andb_false_r.
         + by rewrite (word_testbit_high 8 b).
       - apply Z.bits_inj'. intros j Hj. rewrite Z.land_spec, Z.bits_0.
         destruct (Z.lt_ge_cases j 8).
         + rewrite Z.mul_pow2_bits_low by lia. apply andb_false_r.
         + by rewrite (word_testbit_high 8 b). }
  rewrite Z.lor_spec, Z.shiftl_spec by done.
  destruct (Z.lt_ge_cases i 8).
  - rewrite Z.div_small, Z.mod_small by lia. simpl.
    rewrite (Z.testbit_neg_r _ (i - 8)) by lia. apply orb_false_r.
  - rewrite (word_testbit_high 8 b) by (done || lia). simpl orb.
    rewrite IH by lia. replace (i / 8) with (1 + (i - 8) / 8).
    2: { replace i with (1 * 8 + (i - 8)) at 2 by lia. rewrite Z.div_add_l; lia. }
    rewrite Z2Nat.inj_add by (try apply Z.div_pos; lia). simpl.
    f_equal. replace i with ((i - 8) + 1 * 8) at 2 by lia. by rewrite Z.mod_add.
Qed.

Lemma nth_le_bytes n k x :
  (k < n)%nat -> nth k (le_bytes n x) 0 = (x / 256 ^ Z.of_nat k) mod 256.
Proof.
  revert k x. induction n as [|n IH]; intros k x Hk; [lia|].
  destruct k as [|k]; cbn [le_bytes nth]; [by rewrite Z.pow_0_r, Z.div_1_r|].
  rewrite IH by lia. rewrite Nat2Z.inj_succ, Z.pow_succ_r, Z.div_div by lia. done.
Qed.

Lemma bswap64_testbit x i :
  0 <= i < 64 -> Z.testbit (bswap64 x) i = Z.testbit x (8 * (7 - i / 8) + i mod 8).
Proof.
  intros Hi. unfold bswap64.
  rewrite le_word_testbit by (try apply bytes_ok_rev, le_bytes_ok; lia).
  assert (0 <= i / 8 < 8) by (split; [apply Z.div_pos; lia|apply Z.div_lt_upper_bound; lia]).
  pose proof (Z.mod_pos_bound i 8).
  rewrite rev_nth by (rewrite length_le_bytes; lia). rewrite length_le_bytes.
  rewrite nth_le_bytes by lia.
  change 256 with (2 ^ 8). rewrite <- Z.pow_mul_r by lia.
  rewrite Z.mod_pow2_bits_low, Z.div_pow2_bits by lia. f_equal. lia.
Qed.

Lemma bswap64_land x y : bswap64 (Z.land x y) = Z.land (bswap64 x) (bswap64 y).
Proof.
  apply (word_inj_testbit 64); [lia|apply bswap64_word|apply land_word, bswap64_word; lia|].
  intros i Hi. by rewrite Z.land_spec, !bswap64_testbit, Z.land_spec.
Qed.

(** The byte order of the host: collector runs on little-endian (x86_64,
    aarch64, ppc64le) and big-endian (s390x) machines, and every result of
    the development holds for both. *)
Class HostEndian := host_is_big_endian : bool.

Definition htonll `{HostEndian} (x : Z) : Z :=
  if host_is_big_endian then x else bswap64 x.

Definition ntohll `{HostEndian} (x : Z) : Z :=
  if host_is_big_endian then x else bswap64 x.

Section ByteOrder.
Context `{HostEndian}.

Lemma ntohll_word x : word 64 x -> word 64 (ntohll x).
Proof. unfold ntohll. destruct host_is_big_endian; [done|]. intros. apply bswap64_word. Qed.

Lemma htonll_word x : word 64 x -> word 64 (htonll x).
Proof. apply ntohll_word. Qed.

Lemma ntohll_htonll x : word 64 x -> ntohll (htonll x) = x.
Proof.
  unfold ntohll, htonll. destruct host_is_big_endian; [done|]. apply bswap64_invol.
Qed.

Lemma htonll_ntohll x : word 64 x -> htonll (ntohll x) = x.
Proof. apply ntohll_htonll. Qed.

Lemma ntohll_inj x y : word 64 x -> word 64 y -> ntohll x = ntohll y -> x = y.
Proof.
  intros Hx Hy E. rewrite <- (htonll_ntohll x), <- (htonll_ntohll y) by done. by rewrite E.
Qed.

Lemma ntohll_land x y : ntohll (Z.land x y) = Z.land (ntohll x) (ntohll y).
Proof. unfold ntohll. destruct host_is_big_endian; [done|]. apply bswap64_land. Qed.

(** Masking and comparing in network order is masking and comparing the
    host-order values, the idiom of the address predicates. *)
Lemma masked_eqb x m v :
  word 64 x -> word 64 m -> word 64 v ->
  (Z.land x (htonll m) =? htonll v) = (Z.land (ntohll x) m =? v).
Proof.
  intros Hx Hm Hv. apply eq_bool_prop_intro. rewrite !Is_true_true, !Z.eqb_eq.
  split; intros E.
  - apply (f_equal ntohll) in E. by rewrite ntohll_land, !ntohll_htonll in E.
  - apply ntohll_inj; [by apply land_word; [lia|]|by apply htonll_word|].
    by rewrite ntohll_land, !ntohll_htonll.
Qed.

Lemma htonll_eqb x v :
  word 64 x -> word 64 v -> (x =? htonll v) = (ntohll x =? v).
Proof.
  intros Hx Hv. apply eq_bool_prop_intro. rewrite !Is_true_true, !Z.eqb_eq.
  split; intros E; [by rewrite E, ntohll_htonll|by rewrite <- E, htonll_ntohll].
Qed.

Lemma ntohll_0 : ntohll 0 = 0.
Proof. unfold ntohll. destruct host_is_big_endian; reflexivity. Qed.
End ByteOrder.

(** A closed computation on either kind of host. *)
Ltac by_endianness :=
  match goal with H : HostEndian |- _ => revert H end;
  intros [|]; vm_compute; repeat split; congruence.

#[export] Hint Resolve ntohll_word htonll_word bswap64_word wnot_word : collector.
#[export] Hint Rewrite @ntohll_htonll @htonll_ntohll using (auto with collector) : byteorder.

(** ** Generic list lemmas *)

Section Lists.
Context {A : Type}.

Lemma existsb_Exists (f : A -> bool) (l : list A) :
  existsb f l = true <-> Exists (fun x => f x = true) l.
Proof. rewrite List.existsb_exists, List.Exists_exists. done. Qed.

Lemma find_Some_iff (f : A -> bool) (l : list A) x :
  List.find f l = Some x -> In x l /\ f x = true.
Proof. apply List.find_some. Qed.

Lemma prefix_length_eq (p q : list A) : p `prefix_of` q -> (length q <= length p)%nat -> p = q.
Proof.
  intros [r ->] Hl. rewrite length_app in Hl.
  assert (r = []) as -> by (apply nil_length_inv; lia). by rewrite app_nil_r.
Qed.
End Lists.
