(* ===== verification/Containers.v ===== *)
(** * Hash containers

    [collector/lib/Hash.h] and [collector/lib/Containers.h].  The source keeps
    its state in [UnorderedMap]/[UnorderedSet], that is [std::unordered_map]
    with the collector's [Hasher] and a key equality that is not always
    Leibniz equality (network connections, advertised endpoints, sockets by
    inode).  A container is modelled as the list of its entries in iteration
    order, searched with the key equality of its type: [Find] is the lookup
    primitive and every operation is the one the source calls ([emplace],
    [insert], [operator[]], [erase], a loop over the entries).

    [KeyEq] is the interface between a key type and its containers, and
    [KeyEqLaws] what [std::unordered_map] requires of the equality, relative to
    the set [P] of keys that occur.  [HashKeys] is what it requires of the hash besides: on such
    keys a search that looks at one bucket only finds what [Find] finds
    ([bucket_find_Find]); on others the code can miss an entry that [Find] finds.  The lemmas describe each operation by the
    lookups of its result; they do not depend on the iteration order, which the
    C++ standard leaves open. *)

From S2P Require Import Prelude.

(** ** Hash combination *)

(** [CombineHashes]: 64-bit arithmetic with wrap-around. *)
Definition CombineHashes (seed hash : Z) : Z :=
  Z.lxor seed (wrap 64 (hash + 0x9e3779b9 + wrap 64 (Z.shiftl seed 6) + Z.shiftr seed 2)).

(** [Hash(const std::array<T, N>&)] from the hashes of the elements. *)
Definition HashArray (h0 : Z) (hs : list Z) : Z := fold_left CombineHashes hs h0.

(** [HashAll(first, rest...)] from the hashes of the arguments. *)
Fixpoint HashAll (h0 : Z) (hs : list Z) : Z :=
  match hs with
  | [] => h0
  | h1 :: hs => CombineHashes h0 (HashAll h1 hs)
  end.

(** ** The interface of a key type *)

Class KeyEq (K : Type) := keqb : K -> K -> bool.

Class KeyEqLaws (K : Type) `{KeyEq K} (P : K -> Prop) : Prop := {
  keqb_refl : forall k, P k -> keqb k k = true;
  keqb_sym : forall a b, P a -> P b -> keqb a b = true -> keqb b a = true;
  keqb_trans : forall a b c, P a -> P b -> P c ->
    keqb a b = true -> keqb b c = true -> keqb a c = true
}.

(** Keys of a hash container: equal keys have equal hashes. *)
Class HashKeys (K : Type) `{KeyEq K} (hash : K -> Z) (P : K -> Prop) : Prop := {
  hash_laws : KeyEqLaws K P;
  hash_equal : forall a b, P a -> P b -> keqb a b = true -> hash a = hash b
}.

(** The keys whose equality is Leibniz equality. *)
Definition dec_keqb {K} `{EqDecision K} : KeyEq K := fun a b => bool_decide (a = b).

#[export] Instance KeyEq_str : KeyEq str := dec_keqb.
#[export] Instance KeyEq_Z : KeyEq Z := Z.eqb.

(** ** Operations *)

Section UMap.
Context {K V : Type} `{!KeyEq K}.

Definition umap : Type := list (K * V).

(** [Find]: the entry with the given key, if any. *)
Definition Find (m : umap) (k : K) : option (K * V) :=
  List.find (fun e => keqb k e.1) m.

(** The search of a table with [n] buckets: only the entries in the bucket of the key are compared. *)
Definition bucket_find (hash : K -> Z) (n : Z) (m : umap) (k : K) : option (K * V) :=
  List.find (fun e => (hash k mod n =? hash e.1 mod n) && keqb k e.1) m.

Definition Contains (m : umap) (k : K) : bool :=
  match Find m k with Some _ => true | None => false end.

Definition Lookup (m : umap) (k : K) : option V := snd <$> Find m k.

(** [emplace]/[insert]: the entry is added unless the key is present; the
    returned flag tells whether it was. *)
Definition emplace (m : umap) (k : K) (v : V) : umap * bool :=
  if Contains m k then (m, false) else (m ++ [(k, v)], true).

(** Assignment through the iterator of the entry with key [k]. *)
Fixpoint assign (m : umap) (k : K) (v : V) : umap :=
  match m with
  | [] => []
  | e :: m => if keqb k e.1 then (e.1, v) :: m else e :: assign m k v
  end.

(** [m[k] = v]. *)
Definition insert_or_assign (m : umap) (k : K) (v : V) : umap :=
  if Contains m k then assign m k v else m ++ [(k, v)].

(** [erase] of the entry with key [k]. *)
Fixpoint erase (m : umap) (k : K) : umap :=
  match m with
  | [] => []
  | e :: m => if keqb k e.1 then m else e :: erase m k
  end.

(** A loop that assigns a new value to every entry. *)
Definition map_values (g : K -> V -> V) (m : umap) : umap :=
  map (fun e => (e.1, g e.1 e.2)) m.
End UMap.
Arguments umap : clear implicits.

Lemma bucket_find_Find {K V} `{KeyEq K} (hash : K -> Z) (P : K -> Prop) `{!HashKeys K hash P} (n : Z) (m : umap K V) (k : K) :
  P k -> Forall (fun e => P e.1) m -> bucket_find hash n m k = Find m k.
Proof.
  intros Hk Hm. unfold bucket_find, Find. induction Hm as [|e m He Hm IH]; [done|]. cbn [List.find].
  destruct (keqb k e.1) eqn:E; [|by rewrite andb_false_r].
  by rewrite (hash_equal (P := P) k e.1 Hk He E), Z.eqb_refl.
Qed.

(** ** Invariant *)

Section Laws.
Context {K V : Type} `{HK : !KeyEq K} (P : K -> Prop) `{!KeyEqLaws K P}.
Implicit Types (m : umap K V) (k : K) (e : K * V).

Inductive uniq_keys : umap K V -> Prop :=
| uniq_nil : uniq_keys []
| uniq_cons e m : Forall (fun e' => keqb e.1 e'.1 = false) m -> uniq_keys m -> uniq_keys (e :: m).

Record wf_umap (m : umap K V) : Prop := {
  wf_keys : Forall (fun e => P e.1) m;
  wf_uniq : uniq_keys m
}.

Lemma wf_nil : wf_umap [].
Proof. split; constructor. Qed.

Lemma wf_cons_inv e m :
  wf_umap (e :: m) -> P e.1 /\ Forall (fun e' => keqb e.1 e'.1 = false) m /\ wf_umap m.
Proof. intros [Hk Hu]. inversion Hk; inversion Hu; subst. repeat split; done. Qed.

Lemma wf_cons e m :
  P e.1 -> Forall (fun e' => keqb e.1 e'.1 = false) m -> wf_umap m -> wf_umap (e :: m).
Proof. intros ? ? [? ?]. split; constructor; done. Qed.

Lemma keqb_comm a b : P a -> P b -> keqb a b = keqb b a.
Proof.
  intros Ha Hb. destruct (keqb a b) eqn:E.
  - symmetry. by apply (keqb_sym (P := P)).
  - destruct (keqb b a) eqn:E'; [|done].
    apply (keqb_sym (P := P)) in E'; [congruence|done..].
Qed.

Lemma keqb_congr_l a b c : P a -> P b -> P c -> keqb a b = true -> keqb a c = keqb b c.
Proof.
  intros Ha Hb Hc E. destruct (keqb b c) eqn:F.
  - by apply (keqb_trans (P := P) a b c).
  - destruct (keqb a c) eqn:G; [|done].
    rewrite (keqb_trans (P := P) b a c) in F; try done. by apply (keqb_sym (P := P)).
Qed.

Lemma keqb_congr_r a b c : P a -> P b -> P c -> keqb a b = true -> keqb c a = keqb c b.
Proof.
  intros Ha Hb Hc E. rewrite (keqb_comm c a), (keqb_comm c b) by done. by apply keqb_congr_l.
Qed.

(** *** Searching *)

Lemma Find_cons e m k : Find (e :: m) k = if keqb k e.1 then Some e else Find m k.
Proof. reflexivity. Qed.

Lemma Lookup_cons e m k : Lookup (e :: m) k = if keqb k e.1 then Some e.2 else Lookup m k.
Proof. unfold Lookup. rewrite Find_cons. by destruct (keqb k e.1). Qed.

Lemma Find_Some m k e : Find m k = Some e -> In e m /\ keqb k e.1 = true.
Proof. apply List.find_some. Qed.

Lemma Find_None m k : Find m k = None <-> Forall (fun e => keqb k e.1 = false) m.
Proof.
  rewrite List.Forall_forall. split; [apply List.find_none|].
  intros Hf. destruct (Find m k) as [e|] eqn:E; [|done].
  apply Find_Some in E as [Hin Hk]. rewrite Hf in Hk; done.
Qed.

Lemma wf_In m e : wf_umap m -> In e m -> P e.1.
Proof. intros [Hk _]. rewrite List.Forall_forall in Hk. apply Hk. Qed.

Lemma Find_P m k e : wf_umap m -> Find m k = Some e -> P e.1.
Proof. intros Hw Hf. apply Find_Some in Hf as [Hin _]. by eapply wf_In. Qed.

Lemma Find_congr m k k' :
  wf_umap m -> P k -> P k' -> keqb k k' = true -> Find m k = Find m k'.
Proof.
  intros Hw Hk Hk' E. induction m as [|e m IH]; [done|].
  apply wf_cons_inv in Hw as (He & _ & Hw). rewrite !Find_cons.
  rewrite (keqb_congr_l k k' e.1) by done. by rewrite IH.
Qed.

Lemma Lookup_congr m k k' :
  wf_umap m -> P k -> P k' -> keqb k k' = true -> Lookup m k = Lookup m k'.
Proof. intros. unfold Lookup. by rewrite (Find_congr m k k'). Qed.

Lemma Find_uniq m k e :
  wf_umap m -> P k -> In e m -> keqb k e.1 = true -> Find m k = Some e.
Proof.
  intros Hw Hk Hin E. induction m as [|e0 m IH]; [done|].
  pose proof (wf_In _ _ Hw Hin) as HPe.
  apply wf_cons_inv in Hw as (He & Hne & Hw). rewrite Find_cons.
  destruct Hin as [->|Hin]; [by rewrite E|].
  destruct (keqb k e0.1) eqn:E0; [|by apply IH].
  rewrite List.Forall_forall in Hne. specialize (Hne e Hin).
  rewrite (keqb_trans (P := P) e0.1 k e.1) in Hne; try done.
  by apply (keqb_sym (P := P)).
Qed.

Lemma Find_self m e : wf_umap m -> In e m -> Find m e.1 = Some e.
Proof.
  intros Hw Hin. pose proof (wf_In _ _ Hw Hin).
  apply Find_uniq; try done. by apply (keqb_refl (P := P)).
Qed.

Lemma Contains_Lookup m k : Contains m k = match Lookup m k with Some _ => true | None => false end.
Proof. unfold Contains, Lookup. by destruct (Find m k). Qed.

Lemma Contains_false m k : Contains m k = false <-> Find m k = None.
Proof. unfold Contains. by destruct (Find m k). Qed.

(** *** Lookups after an update *)

Lemma Lookup_app m1 m2 k :
  Lookup (m1 ++ m2) k = match Lookup m1 k with Some v => Some v | None => Lookup m2 k end.
Proof.
  unfold Lookup. induction m1 as [|e m1 IH]; [done|].
  simpl app. rewrite !Find_cons. by destruct (keqb k e.1).
Qed.

Lemma Lookup_emplace m k v k' :
  wf_umap m -> P k -> P k' ->
  Lookup (emplace m k v).1 k' =
    match Lookup m k' with
    | Some v' => Some v'
    | None => if keqb k' k then Some v else None
    end.
Proof.
  intros Hw Hk Hk'. unfold emplace. rewrite Contains_Lookup.
  destruct (Lookup m k) as [v0|] eqn:E; simpl.
  - destruct (Lookup m k') eqn:E'; [done|]. destruct (keqb k' k) eqn:Ek; [|done].
    rewrite (Lookup_congr m k' k) in E' by done. congruence.
  - rewrite Lookup_app. unfold Lookup at 2. rewrite Find_cons. simpl.
    by destruct (Lookup m k'), (keqb k' k).
Qed.

Lemma emplace_true m k v : (emplace m k v).2 = negb (Contains m k).
Proof. unfold emplace. by destruct (Contains m k). Qed.

Lemma Lookup_assign m k v k' :
  wf_umap m -> P k -> P k' ->
  Lookup (assign m k v) k' =
    if keqb k' k then (if Contains m k then Some v else None) else Lookup m k'.
Proof.
  intros Hw Hk Hk'. induction m as [|e m IH].
  { simpl. by destruct (keqb k' k). }
  apply wf_cons_inv in Hw as (He & Hne & Hw). specialize (IH Hw). simpl assign.
  unfold Lookup, Contains in *. rewrite !Find_cons.
  destruct (keqb k e.1) eqn:E; rewrite Find_cons; simpl fst.
  - destruct (keqb k' k) eqn:Ek.
    + by rewrite (keqb_congr_l k' k e.1), E by done.
    + destruct (keqb k' e.1) eqn:E'; [|done].
      rewrite (keqb_trans (P := P) k' e.1 k) in Ek; try done. by apply (keqb_sym (P := P)).
  - destruct (keqb k' e.1) eqn:E'; [|by rewrite IH].
    destruct (keqb k' k) eqn:Ek; [|done].
    rewrite (keqb_congr_l k' k e.1) in E' by done. congruence.
Qed.

Lemma Lookup_insert_or_assign m k v k' :
  wf_umap m -> P k -> P k' ->
  Lookup (insert_or_assign m k v) k' = if keqb k' k then Some v else Lookup m k'.
Proof.
  intros Hw Hk Hk'. unfold insert_or_assign. destruct (Contains m k) eqn:E.
  - by rewrite Lookup_assign, E.
  - rewrite Lookup_app. unfold Lookup at 2. rewrite Find_cons. simpl.
    destruct (keqb k' k) eqn:Ek; [|by destruct (Lookup m k')].
    unfold Lookup. rewrite (Find_congr m k' k) by done.
    apply Contains_false in E. by rewrite E.
Qed.

Lemma Lookup_erase m k k' :
  wf_umap m -> P k -> P k' ->
  Lookup (erase m k) k' = if keqb k' k then None else Lookup m k'.
Proof.
  intros Hw Hk Hk'. induction m as [|e m IH].
  { simpl. by destruct (keqb k' k). }
  apply wf_cons_inv in Hw as (He & Hne & Hw). specialize (IH Hw). simpl erase.
  destruct (keqb k e.1) eqn:E; unfold Lookup in *; rewrite ?Find_cons.
  - destruct (keqb k' k) eqn:Ek.
    + rewrite (Find_congr m k' e.1) by (done || by rewrite (keqb_congr_l k' k e.1)).
      apply Find_None in Hne. by rewrite Hne.
    + destruct (keqb k' e.1) eqn:E'; [|done].
      rewrite (keqb_trans (P := P) k' e.1 k) in Ek; try done. by apply (keqb_sym (P := P)).
  - destruct (keqb k' e.1) eqn:E'; [|by rewrite IH].
    destruct (keqb k' k) eqn:Ek; [|done].
    rewrite (keqb_congr_l k' k e.1) in E' by done. congruence.
Qed.

Lemma Find_filter (f : K * V -> bool) m k :
  wf_umap m -> P k ->
  Find (List.filter f m) k =
    match Find m k with Some e => if f e then Some e else None | None => None end.
Proof.
  intros Hw Hk. induction m as [|e m IH]; [done|].
  apply wf_cons_inv in Hw as (He & Hne & Hw). simpl List.filter. rewrite Find_cons.
  destruct (f e) eqn:Ef; rewrite ?Find_cons; destruct (keqb k e.1) eqn:E;
    rewrite ?Ef; try done; try by apply IH.
  rewrite IH by done.
  rewrite (Find_congr m k e.1) by done. apply Find_None in Hne. by rewrite Hne.
Qed.

Lemma Find_map_values (g : K -> V -> V) m k :
  Find (map_values g m) k = (fun e => (e.1, g e.1 e.2)) <$> Find m k.
Proof.
  induction m as [|e m IH]; [done|].
  simpl map_values. rewrite !Find_cons. simpl fst. by destruct (keqb k e.1).
Qed.

(** *** The updates preserve the invariant *)

Lemma uniq_app_single m k v :
  wf_umap m -> P k -> Find m k = None -> wf_umap (m ++ [(k, v)]).
Proof.
  intros Hw Hk Hf. induction m as [|e m IH].
  { simpl. apply wf_cons; [done|constructor|apply wf_nil]. }
  apply wf_cons_inv in Hw as (He & Hne & Hw). rewrite Find_cons in Hf.
  destruct (keqb k e.1) eqn:E; [done|]. simpl app. apply wf_cons; [done| |by apply IH].
  apply List.Forall_app. split; [done|]. constructor; [|constructor]. simpl.
  by rewrite keqb_comm.
Qed.

Lemma wf_emplace m k v : wf_umap m -> P k -> wf_umap (emplace m k v).1.
Proof.
  intros Hw Hk. unfold emplace. destruct (Contains m k) eqn:E; [done|].
  apply Contains_false in E. by apply uniq_app_single.
Qed.

Lemma wf_map_fst (g : K * V -> K * V) m :
  (forall e, (g e).1 = e.1) -> wf_umap m -> wf_umap (map g m).
Proof.
  intros Hg Hw. induction m as [|e m IH]; [apply wf_nil|].
  apply wf_cons_inv in Hw as (He & Hne & Hw). simpl. apply wf_cons; [by rewrite Hg| |by apply IH].
  apply List.Forall_map. revert Hne. apply List.Forall_impl. intros e' HH. by rewrite !Hg.
Qed.

Lemma wf_map_values g m : wf_umap m -> wf_umap (map_values g m).
Proof. by apply wf_map_fst. Qed.

Lemma wf_assign m k v : wf_umap m -> wf_umap (assign m k v).
Proof.
  intros Hw. induction m as [|e m IH]; [done|].
  apply wf_cons_inv in Hw as (He & Hne & Hw). simpl.
  destruct (keqb k e.1); [by apply wf_cons|].
  apply wf_cons; [done| |by apply IH].
  clear IH Hw. induction Hne as [|e' m' HH Hne IHm]; [constructor|].
  simpl. destruct (keqb k e'.1); constructor; done.
Qed.

Lemma wf_insert_or_assign m k v : wf_umap m -> P k -> wf_umap (insert_or_assign m k v).
Proof.
  intros Hw Hk. unfold insert_or_assign. destruct (Contains m k) eqn:E.
  - by apply wf_assign.
  - apply Contains_false in E. by apply uniq_app_single.
Qed.

Lemma wf_filter (f : K * V -> bool) m : wf_umap m -> wf_umap (List.filter f m).
Proof.
  intros Hw. induction m as [|e m IH]; [done|].
  apply wf_cons_inv in Hw as (He & Hne & Hw). simpl. destruct (f e); [|by apply IH].
  apply wf_cons; [done| |by apply IH].
  rewrite List.Forall_forall in *. intros e' Hin. apply List.filter_In in Hin as [Hin _]. by apply Hne.
Qed.

Lemma wf_erase m k : wf_umap m -> wf_umap (erase m k).
Proof.
  intros Hw. induction m as [|e m IH]; [done|].
  apply wf_cons_inv in Hw as (He & Hne & Hw). simpl.
  destruct (keqb k e.1); [done|]. apply wf_cons; [done| |by apply IH].
  clear IH Hw. induction Hne as [|e' m' HH Hne IHm]; [constructor|].
  simpl. destruct (keqb k e'.1); [done|constructor; done].
Qed.
End Laws.

(** ** Loops over containers *)

Section Loops.
Context {K V W : Type} `{HK : !KeyEq K} (P : K -> Prop) `{!KeyEqLaws K P}.

(** A loop that inserts, changes or erases, for each entry of one container,
    the entry of the same key in another: on each key it acts once. *)
Lemma Lookup_fold (f : umap K W -> K * V -> umap K W) (u : K -> V -> option W -> option W)
    (Hwf : forall m e, wf_umap P m -> P e.1 -> wf_umap P (f m e))
    (Hf : forall m e k, wf_umap P m -> P e.1 -> P k ->
            Lookup (f m e) k = if keqb k e.1 then u k e.2 (Lookup m k) else Lookup m k)
    (new : umap K V) (m : umap K W) :
  wf_umap P new -> wf_umap P m ->
  wf_umap P (fold_left f new m)
  /\ forall k, P k ->
       Lookup (fold_left f new m) k =
       match Lookup new k with Some v => u k v (Lookup m k) | None => Lookup m k end.
Proof.
  revert m. induction new as [|e new IH]; intros m Hn Hm; [done|].
  apply wf_cons_inv in Hn as (He & Hne & Hn). simpl.
  destruct (IH (f m e) Hn (Hwf m e Hm He)) as [Hw Hl]. split; [done|].
  intros k Hk. rewrite Hl, Hf, Lookup_cons by done.
  destruct (keqb k e.1) eqn:E; [|done].
  rewrite (Lookup_congr P new k e.1) by done. unfold Lookup at 1. apply Find_None in Hne. by rewrite Hne.
Qed.

(** A loop over the iterators of a container that changes or erases each entry. *)
Definition update_entries (g : K -> V -> option V) (m : umap K V) : umap K V :=
  omap (fun e => (fun v => (e.1, v)) <$> g e.1 e.2) m.

Lemma wf_update_entries g m : wf_umap P m -> wf_umap P (update_entries g m).
Proof.
  intros Hw. induction m as [|e m IH]; [apply wf_nil|].
  apply wf_cons_inv in Hw as (He & Hne & Hw). cbn [update_entries omap list_omap].
  destruct (g e.1 e.2) as [v|]; simpl; [|by apply IH].
  apply wf_cons; [done| |by apply IH]. simpl. rewrite List.Forall_forall in *.
  intros e' Hin. apply list_elem_of_In, list_elem_of_omap in Hin as (e0 & He0 & E0).
  destruct (g e0.1 e0.2); [|done]. simpl in E0. injection E0 as <-. simpl. apply Hne. by apply list_elem_of_In.
Qed.

Lemma Lookup_update_entries g m k :
  (forall a b v, P a -> P b -> keqb a b = true -> g a v = g b v) ->
  wf_umap P m -> P k -> Lookup (update_entries g m) k = v ← Lookup m k; g k v.
Proof.
  intros Hg Hw Hk. induction m as [|e m IH]; [done|].
  apply wf_cons_inv in Hw as (He & Hne & Hw). specialize (IH Hw).
  assert (update_entries g (e :: m) =
          match g e.1 e.2 with Some v => (e.1, v) :: update_entries g m | None => update_entries g m end) as ->.
  { cbn [update_entries omap list_omap]. by destruct (g e.1 e.2). }
  rewrite Lookup_cons. destruct (keqb k e.1) eqn:E; cbn [mbind option_bind].
  - rewrite (Hg k e.1 e.2) by done. destruct (g e.1 e.2) as [v|].
    + by rewrite Lookup_cons; cbn [fst snd]; rewrite E.
    + rewrite IH, (Lookup_congr P m k e.1) by done. unfold Lookup. apply Find_None in Hne. by rewrite Hne.
  - destruct (g e.1 e.2) as [v|]; [by rewrite Lookup_cons; cbn [fst]; rewrite E|done].
Qed.
End Loops.

(** ** Observational equality of containers

    Two containers with the same lookups; the operations respect it. *)

Definition umap_equiv {K V} `{KeyEq K} (P : K -> Prop) (m1 m2 : umap K V) : Prop :=
  forall k, P k -> Lookup m1 k = Lookup m2 k.

#[export] Instance umap_equiv_equivalence {K V} `{KeyEq K} P : Equivalence (@umap_equiv K V _ P).
Proof.
  split; unfold umap_equiv; [done| |].
  - intros ? ? E k Hk. symmetry. by apply E.
  - intros ? ? ? E1 E2 k Hk. rewrite E1 by done. by apply E2.
Qed.

Lemma Find_Permutation {K V} `{KeyEq K} (P : K -> Prop) `{!KeyEqLaws K P} (m1 m2 : umap K V) k :
  wf_umap P m1 -> P k -> Permutation m1 m2 -> wf_umap P m2 -> Find m1 k = Find m2 k.
Proof.
  intros Hw1 Hk Hp Hw2. destruct (Find m1 k) as [e|] eqn:E.
  - apply Find_Some in E as [Hin He]. symmetry. apply (Find_uniq P); try done.
    by eapply Permutation_in.
  - symmetry. apply Find_None. apply Find_None in E.
    rewrite List.Forall_forall in *. intros e Hin. apply E.
    eapply Permutation_in; [by symmetry|done].
Qed.

(** ** Instances for the key types with Leibniz equality *)

Lemma dec_KeyEqLaws {K} `{EqDecision K} (P : K -> Prop) : @KeyEqLaws K dec_keqb P.
Proof.
  split; unfold keqb, dec_keqb; intros *; rewrite ?bool_decide_eq_true; naive_solver.
Qed.

#[export] Instance KeyEqLaws_str P : KeyEqLaws str P := dec_KeyEqLaws P.

#[export] Instance KeyEqLaws_Z P : KeyEqLaws Z P.
Proof. split; unfold keqb, KeyEq_Z; intros *; rewrite ?Z.eqb_eq; lia. Qed.

#[export] Hint Resolve wf_nil wf_emplace wf_assign wf_insert_or_assign wf_filter wf_erase
  wf_map_values : collector.
