(* ===== verification/Utility.v ===== *)
(** * String utilities

    The pure functions of [collector/lib/Utility.cpp]: the extraction of
    container IDs from cgroup paths, the splitting of strings, base64 decoding and
    the repair of invalid UTF-8; with the [std::string] members and the [<cctype>]
    and [std::stol] functions they and the other components call. *)

From S2P Require Import Prelude Containers.

(** ** Characters and string members *)

Definition code (c : ascii) : Z := Z.of_N (N_of_ascii c).
Definition chr (z : Z) : ascii := ascii_of_N (Z.to_N (z mod 256)).

(** The terminator of a C string. *)
Definition NUL : ascii := "000"%char.
Definition is_nul (c : ascii) : bool := bool_decide (c = NUL).

Definition in_range (lo hi : ascii) (c : ascii) : bool := (code lo <=? code c) && (code c <=? code hi).

Definition isdigit (c : ascii) : bool := in_range "0" "9" c.
Definition isalpha (c : ascii) : bool := in_range "a" "z" c || in_range "A" "Z" c.
Definition isalnum (c : ascii) : bool := isdigit c || isalpha c.
Definition isxdigit (c : ascii) : bool := isdigit c || in_range "a" "f" c || in_range "A" "F" c.
Definition isspace (c : ascii) : bool := (code c =? 32) || ((9 <=? code c) && (code c <=? 13)).

(** [s.find(c)]. *)
Fixpoint find_char (c : ascii) (s : str) : option nat :=
  match s with
  | [] => None
  | x :: s => if bool_decide (x = c) then Some O else S <$> find_char c s
  end.

Definition starts_with (needle s : str) : bool := bool_decide (take (length needle) s = needle).

(** [s.find(needle)]. *)
Fixpoint find_str (needle s : str) : option nat :=
  if starts_with needle s then Some O
  else match s with
       | [] => None
       | _ :: s => S <$> find_str needle s
       end.

(** [s.find(needle, pos)]. *)
Definition find_from (needle s : str) (pos : nat) : option nat :=
  if (length s <? pos)%nat then None else Nat.add pos <$> find_str needle (drop pos s).

(** [s.rfind(needle)]. *)
Fixpoint rfind (needle s : str) : option nat :=
  match s with
  | [] => if starts_with needle [] then Some O else None
  | x :: s' =>
      match rfind needle s' with
      | Some i => Some (S i)
      | None => if starts_with needle s then Some O else None
      end
  end.

(** ** Numbers *)

Definition digit_val (c : ascii) : Z := code c - code "0".

(** The value of the leading decimal digits and how many there are. *)
Fixpoint read_digits (s : str) (acc : Z) (n : nat) : Z * nat * str :=
  match s with
  | c :: s' => if isdigit c then read_digits s' (acc * 10 + digit_val c) (S n) else (acc, n, s)
  | [] => (acc, n, [])
  end.

Fixpoint skip_spaces (s : str) : str :=
  match s with
  | c :: s' => if isspace c then skip_spaces s' else s
  | [] => []
  end.

(** The optional sign of [strtol]. *)
Definition read_sign (s : str) : Z * str :=
  match s with
  | c :: s' =>
      if bool_decide (c = "-"%char) then (-1, s')
      else if bool_decide (c = "+"%char) then (1, s') else (1, s)
  | [] => (1, [])
  end.

(** [std::stol]: [None] stands for the exceptions, on a string without digits
    and on a value that does not fit a [long]. *)
Definition stol (s : str) : option Z :=
  let '(sign, s) := read_sign (skip_spaces s) in
  let '(v, n, _) := read_digits s 0 0 in
  if (n =? 0)%nat then None
  else if (- 2 ^ 63 <=? sign * v) && (sign * v <? 2 ^ 63) then Some (sign * v) else None.

(** The decimal digits of a natural number, as streams print integers. *)
Fixpoint show_fuel (fuel : nat) (n : Z) (acc : str) : str :=
  match fuel with
  | O => acc
  | S fuel =>
      let acc := chr (code "0" + n mod 10) :: acc in
      if n <? 10 then acc else show_fuel fuel (n / 10) acc
  end.

Definition show_nat (n : Z) : str := show_fuel (S (Z.to_nat (Z.log2 n))) n [].

(** ** Container IDs *)

Definition CONTAINER_ID_LENGTH : nat := 64.
Definition SHORT_CONTAINER_ID_LENGTH : nat := 12.

Definition IsContainerID (s : str) : bool :=
  if negb (length s =? CONTAINER_ID_LENGTH)%nat then false else forallb isxdigit s.

(** [size() - n] of an unsigned size, as a position: the wrapped difference is
    past the end. *)
Definition pos_from_end (s : str) (n : nat) : nat :=
  if (n <=? length s)%nat then length s - n else S (length s).

Definition ExtractContainerIDFromCgroup (cgroup : str) : option str :=
  if (length cgroup <? CONTAINER_ID_LENGTH + 1)%nat then None
  else
    let cgroup := match rfind (lit ".scope") cgroup with
                  | Some scope => take scope cgroup
                  | None => cgroup
                  end in
    if (length cgroup <? CONTAINER_ID_LENGTH + 1)%nat then None
    else
      let container_id_part := drop (length cgroup - (CONTAINER_ID_LENGTH + 1)) cgroup in
      match container_id_part with
      | [] => None
      | sep :: id =>
          if negb (bool_decide (sep = "/"%char)) && negb (bool_decide (sep = "-"%char))
             && negb (bool_decide (sep = ":"%char))
          then None
          else
            let cgroup := take (length cgroup - (CONTAINER_ID_LENGTH + 1)) cgroup in
            match find_from (lit "-conmon") cgroup (pos_from_end cgroup 7) with
            | Some _ => None
            | None =>
                if negb (IsContainerID id) then None
                else Some (take SHORT_CONTAINER_ID_LENGTH id)
            end
      end.

(** [GetContainerID] over the (subsystem, path) pairs of the cgroups. *)
Fixpoint GetContainerID (cgroups : list (str * str)) : str :=
  match cgroups with
  | [] => []
  | (_, cgroup_path) :: cgroups =>
      match ExtractContainerIDFromCgroup cgroup_path with
      | Some id => id
      | None => GetContainerID cgroups
      end
  end.

(** ** Splitting *)

Fixpoint split_loop (fuel : nat) (sv : str) (delim : ascii) (parts : list str) : list str :=
  match fuel with
  | O => parts
  | S fuel =>
      match find_char delim sv with
      | Some n => split_loop fuel (drop (S n) sv) delim (parts ++ [take n sv])
      | None => parts ++ [sv]
      end
  end.

(** Each iteration drops at least the delimiter. *)
Definition SplitStringView (sv : str) (delim : ascii) : list str :=
  split_loop (S (length sv)) sv delim [].

(** ** Base64 *)

Definition base64_chars : str :=
  lit "ABCDEFGHIJKLMNOPQRSTUVWXYZabcdefghijklmnopqrstuvwxyz0123456789+/".

Definition is_base64 (c : ascii) : bool :=
  isalnum c || bool_decide (c = "+"%char) || bool_decide (c = "/"%char).

(** [char_array_4[i] = base64_chars.find(char_array_4[i])]: [npos] becomes 255. *)
Definition base64_index (c : ascii) : Z :=
  match find_char c base64_chars with Some i => Z.of_nat i | None => 255 end.

(** The three bytes of a group of four indices. *)
Definition char_array_3 (x0 x1 x2 x3 : Z) : list Z :=
  [wrap 8 (Z.shiftl x0 2 + Z.shiftr (Z.land x1 0x30) 4);
   wrap 8 (Z.shiftl (Z.land x1 0xf) 4 + Z.shiftr (Z.land x2 0x3c) 2);
   wrap 8 (Z.shiftl (Z.land x2 0x3) 6 + x3)].

Definition decode_group (g : list ascii) : list Z :=
  char_array_3 (base64_index (nth 0 g "000"%char)) (base64_index (nth 1 g "000"%char))
               (base64_index (nth 2 g "000"%char)) (base64_index (nth 3 g "000"%char)).

(** The loop with the characters of the current group in [group]. *)
Fixpoint base64_loop (s : str) (group : list ascii) (ret : list Z) : list Z :=
  match s with
  | c :: s' =>
      if negb (bool_decide (c = "="%char)) && is_base64 c then
        let group := group ++ [c] in
        if (length group =? 4)%nat then base64_loop s' [] (ret ++ decode_group group)
        else base64_loop s' group ret
      else ret ++ take (length group - 1) (decode_group group)
  | [] => ret ++ take (length group - 1) (decode_group group)
  end.

Definition Base64Decode (encoded_string : str) : list Z := base64_loop encoded_string [] [].

(** ** UTF-8 *)

Section UTF8.
(** [utf8_range::SpanStructurallyValid]: the length of the longest valid
    prefix. *)
Context (SpanStructurallyValid : str -> nat).

Fixpoint sanitize_loop (fuel : nat) (output s : list ascii) (i len : nat) : list ascii :=
  match fuel with
  | O => output
  | S fuel =>
      if (i <? length output)%nat then
        let output := <[i := "?"%char]> output in
        let s := drop (len + 1) s in
        let len := SpanStructurallyValid s in
        sanitize_loop fuel output s (i + (len + 1)) len
      else output
  end.

Definition SanitizedUTF8 (s : str) : option str :=
  let len := SpanStructurallyValid s in
  if (len =? length s)%nat then None
  else Some (sanitize_loop (S (length s)) s s len len).
End UTF8.

(** ** Environment *)

(** [GetSNIHostname] with the value of [SNI_HOSTNAME]. *)
Definition GetSNIHostname (hostname : option str) : str :=
  match hostname with
  | Some (c :: h) => c :: h
  | _ => lit "sensor.stackrox"
  end.

(** A [std::filesystem::path] in a stream is quoted. *)
Definition quoted (s : str) : str :=
  [chr 34] ++ flat_map (fun c => if (code c =? 34) || (code c =? 92) then [chr 92; c] else [c]) s ++ [chr 34].

Inductive signal : Set := SIGABRT | SIGSEGV | SIGTERM | SIGINT | SIG_other.

Definition SignalName (signum : signal) : str :=
  match signum with
  | SIGABRT => lit "SIGABRT"
  | SIGSEGV => lit "SIGSEGV"
  | SIGTERM => lit "SIGTERM"
  | SIGINT => lit "SIGINT"
  | SIG_other => lit "<unknown>"
  end.

(** ** Lemmas *)

(** *** Characters *)

Lemma code_bound c : 0 <= code c < 256.
Proof. unfold code. pose proof (N_ascii_bounded c). lia. Qed.

Lemma code_chr z : 0 <= z < 256 -> code (chr z) = z.
Proof.
  intros Hz. unfold code, chr. rewrite Z.mod_small by done. rewrite N_ascii_embedding by lia. lia.
Qed.

Lemma chr_code c : chr (code c) = c.
Proof.
  unfold chr, code. rewrite Z.mod_small by (pose proof (N_ascii_bounded c); lia).
  by rewrite N2Z.id, ascii_N_embedding.
Qed.

Lemma find_char_Some c s n :
  find_char c s = Some n <-> s !! n = Some c /\ ~ In c (take n s).
Proof.
  revert n. induction s as [|x s IH]; intros n; simpl; [split; [done|by intros [? _]]|].
  case_bool_decide as Hx.
  - subst. split; [intros [= <-]; split; [done|intros []]|].
    intros [E Hin]. destruct n as [|n]; [done|]. destruct Hin. by left.
  - rewrite fmap_Some. split.
    + intros (m & Hm & ->). apply IH in Hm as [E Hin]. split; [done|]. simpl. by intros [?|?].
    + intros [E Hin]. destruct n as [|n]; [simpl in E; congruence|].
      exists n. split; [|done]. apply IH. split; [done|]. intros ?. apply Hin. by right.
Qed.

Lemma find_char_None c s : find_char c s = None <-> ~ In c s.
Proof.
  induction s as [|x s IH]; simpl; [naive_solver|].
  case_bool_decide as Hx; [naive_solver|]. rewrite fmap_None, IH. naive_solver.
Qed.

(** The position of a separator between two parts. *)
Lemma find_char_app c l r : ~ In c l -> find_char c (l ++ c :: r) = Some (length l).
Proof.
  intros Hl. apply find_char_Some. split.
  - by apply list_lookup_middle.
  - by rewrite take_app_length.
Qed.

(** *** Decimal numbers *)

Definition dval (ds : str) (a : Z) : Z := fold_left (fun a c => a * 10 + digit_val c) ds a.

Lemma dval_app ds es a : dval (ds ++ es) a = dval es (dval ds a).
Proof. apply fold_left_app. Qed.

Lemma read_digits_app ds rest a n :
  forallb isdigit ds = true ->
  read_digits (ds ++ rest) a n = read_digits rest (dval ds a) (n + length ds).
Proof.
  revert a n. induction ds as [|c ds IH]; intros a n; simpl; [by rewrite Nat.add_0_r|].
  intros Hd. apply andb_true_iff in Hd as [-> Hd]. rewrite IH by done.
  by rewrite <- Nat.add_succ_comm.
Qed.

(** A numeral stops at the first character that is not a digit. *)
Definition no_digit (s : str) : bool :=
  match s with c :: _ => negb (isdigit c) | [] => true end.

Lemma read_digits_stop s a n : no_digit s = true -> read_digits s a n = (a, n, s).
Proof. destruct s as [|c s]; simpl; [done|]. intros E. apply negb_true_iff in E. by rewrite E. Qed.

Lemma digit_chr d : 0 <= d < 10 -> isdigit (chr (code "0" + d)) = true /\ digit_val (chr (code "0" + d)) = d.
Proof.
  intros Hd. unfold isdigit, in_range, digit_val. change (code "0") with 48. change (code "9") with 57.
  rewrite code_chr by lia. split; [|lia]. apply andb_true_iff. rewrite !Z.leb_le. lia.
Qed.

Lemma show_fuel_digits fuel n acc :
  0 <= n < 2 ^ Z.of_nat fuel -> (0 < fuel)%nat ->
  exists ds, show_fuel fuel n acc = ds ++ acc /\ forallb isdigit ds = true
             /\ dval ds 0 = n /\ ds <> [].
Proof.
  revert n acc. induction fuel as [|fuel IH]; intros n acc Hn Hf; [lia|]. cbn [show_fuel].
  destruct (digit_chr (n mod 10)) as [Hd Hv]; [apply Z.mod_pos_bound; lia|].
  destruct (Z.ltb_spec n 10) as [Hlt|Hge].
  - exists [chr (code "0" + n mod 10)]. split_and!; [done|by simpl; rewrite Hd| |done].
    cbn [dval fold_left]. rewrite Hv, Z.mod_small by lia. lia.
  - rewrite Nat2Z.inj_succ, Z.pow_succ_r in Hn by lia.
    destruct (IH (n / 10) (chr (code "0" + n mod 10) :: acc)) as (ds & -> & Hall & Hval & _).
    + split; [apply Z.div_pos; lia|]. apply Z.div_lt_upper_bound; lia.
    + destruct fuel; [simpl in Hn; lia|lia].
    + exists (ds ++ [chr (code "0" + n mod 10)]). split_and!.
      * by rewrite <- app_assoc.
      * rewrite forallb_app, Hall. simpl. by rewrite Hd.
      * rewrite dval_app, Hval. cbn [dval fold_left]. rewrite Hv.
        pose proof (Z.div_mod n 10). lia.
      * by destruct ds.
Qed.

Lemma show_nat_digits n :
  0 <= n -> exists ds, show_nat n = ds /\ forallb isdigit ds = true /\ dval ds 0 = n /\ ds <> [].
Proof.
  intros Hn. unfold show_nat.
  destruct (show_fuel_digits (S (Z.to_nat (Z.log2 n))) n []) as (ds & E & Hds).
  - rewrite Nat2Z.inj_succ, Z2Nat.id by apply Z.log2_nonneg. split; [done|].
    destruct (Z.eq_dec n 0) as [->|]; [done|]. apply Z.log2_spec. lia.
  - lia.
  - exists ds. by rewrite E, app_nil_r.
Qed.

Lemma read_digits_show n rest :
  0 <= n -> no_digit rest = true ->
  exists k, (0 < k)%nat /\ read_digits (show_nat n ++ rest) 0 0 = (n, k, rest).
Proof.
  intros Hn Hr. destruct (show_nat_digits n Hn) as (ds & -> & Hall & Hval & Hne).
  rewrite read_digits_app, Hval, read_digits_stop by done.
  eexists. split; [|done]. destruct ds; simpl; [done|lia].
Qed.

Lemma isdigit_not_space_sign c :
  isdigit c = true -> isspace c = false /\ c <> "-"%char /\ c <> "+"%char.
Proof.
  intros Hc. unfold isdigit, in_range in Hc. apply andb_true_iff in Hc as [H1 H2].
  apply Z.leb_le in H1, H2. change (code "0") with 48 in H1. change (code "9") with 57 in H2.
  split_and!.
  - unfold isspace. destruct (Z.eqb_spec (code c) 32), (Z.leb_spec 9 (code c)), (Z.leb_spec (code c) 13); done || lia.
  - intros ->. by vm_compute in H1.
  - intros ->. by vm_compute in H1.
Qed.

(** A digit is neither skipped nor taken for a sign. *)
Lemma read_sign_digits c s :
  isdigit c = true -> read_sign (skip_spaces (c :: s)) = (1, c :: s).
Proof.
  intros Hc. destruct (isdigit_not_space_sign c Hc) as (Hs & H1 & H2).
  cbn [skip_spaces]. rewrite Hs. unfold read_sign. by rewrite !bool_decide_eq_false_2.
Qed.

Lemma stol_show n rest :
  0 <= n < 2 ^ 63 -> no_digit rest = true -> stol (show_nat n ++ rest) = Some n.
Proof.
  intros Hn Hr. destruct (read_digits_show n rest ltac:(lia) Hr) as (k & Hk & Hread).
  destruct (show_nat_digits n ltac:(lia)) as (ds & E & Hall & _ & Hne). unfold stol. rewrite E in *.
  destruct ds as [|c ds]; [done|]. simpl in Hall. apply andb_true_iff in Hall as [Hc _].
  rewrite <- app_comm_cons, read_sign_digits by done. rewrite <- app_comm_cons in Hread. rewrite Hread.
  destruct (Nat.eqb_spec k 0); [lia|]. rewrite Z.mul_1_l.
  destruct (Z.leb_spec (- 2 ^ 63) n), (Z.ltb_spec n (2 ^ 63)); done || lia.
Qed.

(** *** Splitting *)

(** The parts joined with the delimiter. *)
Fixpoint join (delim : ascii) (parts : list str) : str :=
  match parts with
  | [] => []
  | [p] => p
  | p :: parts => p ++ delim :: join delim parts
  end.

Lemma join_cons delim p parts : parts <> [] -> join delim (p :: parts) = p ++ delim :: join delim parts.
Proof. by destruct parts. Qed.

Lemma split_loop_acc fuel sv delim parts :
  split_loop fuel sv delim parts = parts ++ split_loop fuel sv delim [].
Proof.
  revert sv parts. induction fuel as [|fuel IH]; intros sv parts; cbn [split_loop]; [by rewrite app_nil_r|].
  destruct (find_char delim sv) as [n|]; [|done].
  rewrite IH, (IH _ ([] ++ _)). by rewrite <- app_assoc.
Qed.

Lemma split_loop_join fuel sv delim :
  (length sv < fuel)%nat ->
  split_loop fuel sv delim [] <> []
  /\ join delim (split_loop fuel sv delim []) = sv
  /\ Forall (fun p => ~ In delim p) (split_loop fuel sv delim []).
Proof.
  revert sv. induction fuel as [|fuel IH]; intros sv Hf; [lia|]. cbn [split_loop].
  destruct (find_char delim sv) as [n|] eqn:E.
  - apply find_char_Some in E as [Hn Hin]. pose proof (lookup_lt_Some _ _ _ Hn).
    rewrite split_loop_acc. destruct (IH (drop (S n) sv)) as (Hne & Hj & Hall).
    { rewrite length_drop. lia. }
    split_and!; [done| |].
    + cbn [app]. rewrite join_cons, Hj by done. by apply take_drop_middle.
    + constructor; done.
  - apply find_char_None in E. split_and!; [done|done|]. by constructor.
Qed.

(** *** Base64 *)

Definition b64char (i : Z) : ascii := nth (Z.to_nat i) base64_chars "="%char.

(** The encoding of RFC 4648, the reference for [Base64Decode]. *)
Fixpoint Base64Encode (bs : list Z) : str :=
  match bs with
  | b0 :: b1 :: b2 :: bs =>
      b64char (b0 / 4) :: b64char (b0 mod 4 * 16 + b1 / 16)
        :: b64char (b1 mod 16 * 4 + b2 / 64) :: b64char (b2 mod 64) :: Base64Encode bs
  | [b0; b1] => [b64char (b0 / 4); b64char (b0 mod 4 * 16 + b1 / 16); b64char (b1 mod 16 * 4); "="%char]
  | [b0] => [b64char (b0 / 4); b64char (b0 mod 4 * 16); "="%char; "="%char]
  | [] => []
  end.

Lemma b64char_index i :
  0 <= i < 64 ->
  base64_index (b64char i) = i /\ is_base64 (b64char i) = true
  /\ bool_decide (b64char i = "="%char) = false.
Proof.
  intros Hi.
  assert (forallb (fun k => (base64_index (b64char (Z.of_nat k)) =? Z.of_nat k)
                            && is_base64 (b64char (Z.of_nat k))
                            && negb (bool_decide (b64char (Z.of_nat k) = "="%char))) (seq 0 64) = true) as Hall
    by (vm_compute; reflexivity).
  rewrite forallb_forall in Hall. specialize (Hall (Z.to_nat i)).
  rewrite Z2Nat.id in Hall by lia. rewrite !andb_true_iff, negb_true_iff, Z.eqb_eq in Hall.
  destruct Hall as [[? ?] ?]; [|done]. apply List.in_seq. lia.
Qed.

(** Masks and shifts of the groups as quotients. *)
Lemma char_array_3_div x0 x1 x2 x3 :
  char_array_3 x0 x1 x2 x3 =
  [(x0 * 4 + x1 / 16 mod 4) mod 256; (x1 mod 16 * 16 + x2 / 4 mod 16) mod 256; (x2 mod 4 * 64 + x3) mod 256].
Proof.
  unfold char_array_3, wrap.
  rewrite !Z.shiftr_land. change (Z.shiftr 0x30 4) with (Z.ones 2). change (Z.shiftr 0x3c 2) with (Z.ones 4).
  change 0xf with (Z.ones 4). change 0x3 with (Z.ones 2).
  rewrite !Z.land_ones, !Z.shiftr_div_pow2, !Z.shiftl_mul_pow2 by lia. reflexivity.
Qed.

Lemma decode_group_bytes b0 b1 b2 :
  0 <= b0 < 256 -> 0 <= b1 < 256 -> 0 <= b2 < 256 ->
  decode_group [b64char (b0 / 4); b64char (b0 mod 4 * 16 + b1 / 16);
                b64char (b1 mod 16 * 4 + b2 / 64); b64char (b2 mod 64)] = [b0; b1; b2].
Proof.
  intros H0 H1 H2. unfold decode_group. cbn [nth]. rewrite char_array_3_div.
  destruct (b64char_index (b0 / 4)) as [-> _]; [Z.to_euclidean_division_equations; lia|].
  destruct (b64char_index (b0 mod 4 * 16 + b1 / 16)) as [-> _]; [Z.to_euclidean_division_equations; lia|].
  destruct (b64char_index (b1 mod 16 * 4 + b2 / 64)) as [-> _]; [Z.to_euclidean_division_equations; lia|].
  destruct (b64char_index (b2 mod 64)) as [-> _]; [Z.to_euclidean_division_equations; lia|].
  repeat f_equal; Z.to_euclidean_division_equations; lia.
Qed.

Lemma base64_loop_step c s group ret :
  is_base64 c = true -> bool_decide (c = "="%char) = false ->
  base64_loop (c :: s) group ret =
  (if (length (group ++ [c]) =? 4)%nat
   then base64_loop s [] (ret ++ decode_group (group ++ [c]))
   else base64_loop s (group ++ [c]) ret).
Proof. intros H1 H2. cbn [base64_loop]. rewrite H1, H2. reflexivity. Qed.

Lemma b64_char_ok i :
  0 <= i < 64 -> is_base64 (b64char i) = true /\ bool_decide (b64char i = "="%char) = false.
Proof. intros Hi. by destruct (b64char_index i Hi) as (_ & ? & ?). Qed.

Ltac base64_char :=
  rewrite base64_loop_step;
    [cbn [app length Nat.eqb]
    |apply b64_char_ok; Z.to_euclidean_division_equations; lia
    |apply b64_char_ok; Z.to_euclidean_division_equations; lia].

(** The bytes of an unfinished group do not depend on the characters it lacks. *)
Lemma decode_group_2 b0 b1 :
  0 <= b0 < 256 -> 0 <= b1 < 256 ->
  take 2 (decode_group [b64char (b0 / 4); b64char (b0 mod 4 * 16 + b1 / 16); b64char (b1 mod 16 * 4)]) = [b0; b1].
Proof.
  intros H0 H1. unfold decode_group. cbn [nth]. rewrite char_array_3_div. cbn [take].
  destruct (b64char_index (b0 / 4)) as [-> _]; [Z.to_euclidean_division_equations; lia|].
  destruct (b64char_index (b0 mod 4 * 16 + b1 / 16)) as [-> _]; [Z.to_euclidean_division_equations; lia|].
  destruct (b64char_index (b1 mod 16 * 4)) as [-> _]; [Z.to_euclidean_division_equations; lia|].
  repeat f_equal; Z.to_euclidean_division_equations; lia.
Qed.

Lemma decode_group_1 b0 :
  0 <= b0 < 256 ->
  take 1 (decode_group [b64char (b0 / 4); b64char (b0 mod 4 * 16)]) = [b0].
Proof.
  intros H0. unfold decode_group. cbn [nth]. rewrite char_array_3_div. cbn [take].
  destruct (b64char_index (b0 / 4)) as [-> _]; [Z.to_euclidean_division_equations; lia|].
  destruct (b64char_index (b0 mod 4 * 16)) as [-> _]; [Z.to_euclidean_division_equations; lia|].
  repeat f_equal; Z.to_euclidean_division_equations; lia.
Qed.

Lemma base64_loop_encode bs ret : bytes_ok bs -> base64_loop (Base64Encode bs) [] ret = ret ++ bs.
Proof.
  remember (length bs) as n eqn:Hn. revert bs Hn ret.
  induction (lt_wf n) as [n _ IH]; intros bs Hn ret Hok.
  destruct bs as [|b0 [|b1 [|b2 bs]]]; cbn [Base64Encode].
  - reflexivity.
  - apply Forall_cons in Hok as [H0 _]. do 2 base64_char. cbn [base64_loop].
    by rewrite bool_decide_eq_true_2, decode_group_1 by done.
  - apply Forall_cons in Hok as [H0 Hok]. apply Forall_cons in Hok as [H1 _].
    do 3 base64_char. cbn [base64_loop].
    by rewrite bool_decide_eq_true_2, decode_group_2 by done.
  - apply Forall_cons in Hok as [H0 Hok]. apply Forall_cons in Hok as [H1 Hok].
    apply Forall_cons in Hok as [H2 Hok].
    do 4 base64_char. rewrite decode_group_bytes by done.
    rewrite (IH (length bs)) by (done || (subst n; simpl; lia)). by rewrite <- app_assoc.
Qed.

(** *** Container IDs *)

Lemma starts_with_app needle rest : starts_with needle (needle ++ rest) = true.
Proof. unfold starts_with. apply bool_decide_eq_true. by rewrite take_app_length. Qed.

Lemma rfind_char_none c s : ~ In c s -> rfind [c] s = None.
Proof.
  induction s as [|x s IH]; intros Hn; [done|]. simpl in Hn. cbn [rfind]. rewrite IH by naive_solver.
  unfold starts_with. cbn [length take]. rewrite bool_decide_eq_false_2; [done|]. cbn. destruct s; naive_solver.
Qed.

(** The last occurrence of a character. *)
Lemma rfind_char c p name : ~ In c name -> rfind [c] (p ++ c :: name) = Some (length p).
Proof.
  intros Hn. induction p as [|x p IH]; cbn [app rfind length].
  - rewrite rfind_char_none by done. by rewrite (starts_with_app [c] name : starts_with [c] (c :: name) = true).
  - by rewrite IH.
Qed.

Lemma starts_with_spec needle s : starts_with needle s = true <-> exists rest, s = needle ++ rest.
Proof.
  split; [|intros [rest ->]; apply starts_with_app].
  unfold starts_with. rewrite bool_decide_eq_true. intros E. exists (drop (length needle) s).
  by rewrite <- E at 1; rewrite take_drop.
Qed.

Lemma find_str_None needle s :
  find_str needle s = None <-> forall i, starts_with needle (drop i s) = false.
Proof.
  induction s as [|x s IH]; cbn [find_str].
  - destruct (starts_with needle []) eqn:E; split; try done.
    + intros Hall. specialize (Hall O). rewrite drop_0 in Hall. congruence.
    + intros _ i. by rewrite drop_nil.
  - destruct (starts_with needle (x :: s)) eqn:E; split; try done.
    + intros Hall. specialize (Hall O). rewrite drop_0 in Hall. congruence.
    + rewrite fmap_None, IH. intros Hall [|i]; [done|apply Hall].
    + intros Hall. rewrite fmap_None, IH. intros i. apply (Hall (S i)).
Qed.

(** The search for "-conmon" at the end is the test that the path ends so. *)
Lemma find_suffix needle s :
  needle <> [] ->
  find_from needle s (pos_from_end s (length needle)) <> None <-> exists pre, s = pre ++ needle.
Proof.
  intros Hne. unfold find_from, pos_from_end. destruct (Nat.leb_spec (length needle) (length s)) as [Hle|Hgt].
  - destruct (Nat.ltb_spec (length s) (length s - length needle)); [lia|].
    rewrite fmap_None, find_str_None. split.
    + intros Hnot. exists (take (length s - length needle) s).
      destruct (starts_with needle (drop (length s - length needle) s)) eqn:E.
      * apply starts_with_spec in E as [rest E].
        assert (length (needle ++ rest) = length needle) as Hl by (rewrite <- E, length_drop; lia).
        rewrite length_app in Hl. assert (rest = []) as -> by (apply nil_length_inv; lia).
        rewrite app_nil_r in E. set (k := (length s - length needle)%nat) in *.
        transitivity (take k s ++ drop k s); [by rewrite take_drop|by rewrite E].
      * destruct Hnot. intros i. rewrite drop_drop. destruct i as [|i]; [by rewrite Nat.add_0_r|].
        unfold starts_with. apply bool_decide_eq_false. intros El. apply (f_equal length) in El.
        rewrite length_take, length_drop in El.
        assert (0 < length needle)%nat by (destruct needle; [done|simpl; lia]). lia.
    + intros [pre ->] Hall. specialize (Hall O). rewrite drop_0, length_app in Hall.
      replace (length pre + length needle - length needle)%nat with (length pre) in Hall by lia.
      rewrite drop_app_length in Hall. pose proof (starts_with_app needle []) as E.
      rewrite app_nil_r in E. congruence.
  - destruct (Nat.ltb_spec (length s) (S (length s))); [|lia]. split; [done|].
    intros [pre ->]. rewrite length_app in Hgt. lia.
Qed.

Lemma IsContainerID_spec s :
  IsContainerID s = true <-> length s = CONTAINER_ID_LENGTH /\ Forall (fun c => isxdigit c = true) s.
Proof.
  unfold IsContainerID. destruct (Nat.eqb_spec (length s) CONTAINER_ID_LENGTH); simpl;
    rewrite ?forallb_forall, ?List.Forall_forall; naive_solver.
Qed.

(** The part of a path that is searched for an ID. *)
Definition cgroup_body (cgroup : str) : str :=
  match rfind (lit ".scope") cgroup with
  | Some scope => take scope cgroup
  | None => cgroup
  end.

Definition id_separator (c : ascii) : bool :=
  bool_decide (c = "/"%char) || bool_decide (c = "-"%char) || bool_decide (c = ":"%char).

(** The shape of a path that names a container. *)
Definition names_container (body pre : str) (sep : ascii) (id : str) : Prop :=
  body = pre ++ sep :: id /\ id_separator sep = true
  /\ length id = CONTAINER_ID_LENGTH /\ Forall (fun c => isxdigit c = true) id
  /\ ~ exists p, pre = p ++ lit "-conmon".

(** The checks on the last 65 characters of a path. *)
Definition check_body (body : str) : option str :=
  if (length body <? CONTAINER_ID_LENGTH + 1)%nat then None
  else
    match drop (length body - (CONTAINER_ID_LENGTH + 1)) body with
    | [] => None
    | sep :: id =>
        if negb (id_separator sep) then None
        else
          match find_from (lit "-conmon") (take (length body - (CONTAINER_ID_LENGTH + 1)) body)
                  (pos_from_end (take (length body - (CONTAINER_ID_LENGTH + 1)) body) 7) with
          | Some _ => None
          | None => if negb (IsContainerID id) then None else Some (take SHORT_CONTAINER_ID_LENGTH id)
          end
    end.

Lemma check_body_spec body r :
  check_body body = Some r <->
  exists pre sep id, names_container body pre sep id /\ r = take SHORT_CONTAINER_ID_LENGTH id.
Proof.
  unfold check_body, names_container. split.
  - destruct (Nat.ltb_spec (length body) (CONTAINER_ID_LENGTH + 1)); [done|].
    set (pre := take (length body - (CONTAINER_ID_LENGTH + 1)) body).
    destruct (drop (length body - (CONTAINER_ID_LENGTH + 1)) body) as [|sep id] eqn:Ed; [done|].
    destruct (id_separator sep) eqn:Es; [|done]. cbn [negb].
    destruct (find_from (lit "-conmon") pre (pos_from_end pre 7)) eqn:Ef; [done|].
    destruct (IsContainerID id) eqn:Ei; [|done]. cbn [negb]. intros [= <-].
    apply IsContainerID_spec in Ei as [Hl Hx]. exists pre, sep, id. split_and!; try done.
    + unfold pre. by rewrite <- Ed, take_drop.
    + intros Hc. by apply (find_suffix (lit "-conmon") pre) in Hc.
  - intros (pre & sep & id & (-> & Hs & Hl & Hx & Hc) & ->).
    rewrite length_app. cbn [length]. rewrite Hl.
    destruct (Nat.ltb_spec (length pre + S CONTAINER_ID_LENGTH) (CONTAINER_ID_LENGTH + 1)); [lia|].
    replace (length pre + S CONTAINER_ID_LENGTH - (CONTAINER_ID_LENGTH + 1))%nat with (length pre) by lia.
    rewrite drop_app_length, take_app_length, Hs. cbn [negb].
    destruct (find_from (lit "-conmon") pre (pos_from_end pre 7)) eqn:Ef.
    + destruct Hc. apply (find_suffix (lit "-conmon") pre); [done|]. change (length (lit "-conmon")) with 7%nat. congruence.
    + assert (IsContainerID id = true) as -> by by apply IsContainerID_spec. done.
Qed.

Lemma rfind_le needle s i : rfind needle s = Some i -> (i <= length s)%nat.
Proof.
  revert i. induction s as [|x s IH]; intros i; cbn [rfind length].
  - destruct (starts_with needle []); [|done]. intros [= <-]. lia.
  - destruct (rfind needle s) as [j|]; [intros [= <-]; specialize (IH j eq_refl); lia|].
    destruct (starts_with needle (x :: s)); [|done]. intros [= <-]. lia.
Qed.

Lemma Extract_check_body cgroup :
  ExtractContainerIDFromCgroup cgroup = check_body (cgroup_body cgroup).
Proof.
  unfold ExtractContainerIDFromCgroup, check_body. cbv zeta.
  change (match rfind (lit ".scope") cgroup with Some scope => take scope cgroup | None => cgroup end)
    with (cgroup_body cgroup).
  assert (length (cgroup_body cgroup) <= length cgroup)%nat as Hle.
  { unfold cgroup_body. destruct (rfind _ _) eqn:E; [|lia]. rewrite length_take. lia. }
  assert (forall sep, negb (bool_decide (sep = "/"%char)) && negb (bool_decide (sep = "-"%char))
            && negb (bool_decide (sep = ":"%char)) = negb (id_separator sep)) as Hsep.
  { intros sep. unfold id_separator. by rewrite !negb_orb. }
  destruct (Nat.ltb_spec (length cgroup) (CONTAINER_ID_LENGTH + 1)),
    (Nat.ltb_spec (length (cgroup_body cgroup)) (CONTAINER_ID_LENGTH + 1)); try done; try lia.
  destruct (drop (length (cgroup_body cgroup) - (CONTAINER_ID_LENGTH + 1)) (cgroup_body cgroup))
    as [|sep id]; [done|]. by rewrite Hsep.
Qed.

(** *** UTF-8 *)

Section UTF8Lemmas.
Context (span : str -> nat).
Definition valid (s : str) : Prop := span s = length s.

(** What the code relies on of [SpanStructurallyValid]: it returns a position in
    the string, the prefix up to it is valid, and validity is closed under
    concatenation and holds of ASCII characters. *)
Record span_laws : Prop := {
  span_le : forall s, (span s <= length s)%nat;
  span_valid : forall s, span (take (span s) s) = length (take (span s) s);
  span_app : forall a b, valid a -> valid b -> valid (a ++ b);
  span_ascii : forall c, code c < 128 -> span [c] = 1%nat
}.

(** A string in which some characters were replaced by question marks. *)
Definition repaired (s r : str) : Prop :=
  Forall2 (fun a b => b = a \/ b = "?"%char) s r.

Lemma repaired_refl s : repaired s s.
Proof. unfold repaired. induction s; constructor; auto. Qed.

Context (Hspan : span_laws).

Lemma sanitize_loop_spec fuel (pre s : list ascii) :
  (length s < fuel)%nat -> valid pre ->
  exists r, sanitize_loop span fuel (pre ++ s) s (length pre + span s) (span s) = pre ++ r
            /\ valid (pre ++ r) /\ repaired s r.
Proof.
  destruct Hspan as [Hle Hval Happ Hq].
  revert pre s. induction fuel as [|fuel IH]; intros pre s Hf Hpre; [lia|]. cbn [sanitize_loop].
  rewrite length_app. destruct (Nat.ltb_spec (length pre + span s) (length pre + length s)) as [Hlt|Hge].
  - destruct (drop (span s) s) as [|c rest] eqn:Ed.
    { apply (f_equal length) in Ed. rewrite length_drop in Ed. simpl in Ed. lia. }
    assert (s = take (span s) s ++ c :: rest) as Es by (by rewrite <- Ed, take_drop).
    assert (length (take (span s) s) = span s) as Hl by (rewrite length_take; lia).
    assert (drop (span s + 1) s = rest) as ->.
    { rewrite Es at 2. rewrite drop_app_ge, Hl by lia. replace (span s + 1 - span s)%nat with 1%nat by lia. done. }
    assert (<[(length pre + span s)%nat := "?"%char]> (pre ++ s)
            = (pre ++ take (span s) s ++ ["?"%char]) ++ rest) as ->.
    { rewrite insert_app_r. rewrite Es at 2. rewrite <- Hl at 1. rewrite <- (Nat.add_0_r (length (take _ _))).
      rewrite insert_app_r. cbn. by rewrite <- !app_assoc. }
    destruct (IH (pre ++ take (span s) s ++ ["?"%char]) rest) as (r & E & Hv & Hr).
    { rewrite Es, length_app in Hf. simpl in Hf. lia. }
    { apply Happ; [done|]. apply Happ; [apply Hval|by apply Hq]. }
    exists (take (span s) s ++ "?"%char :: r). split_and!.
    + rewrite <- !app_assoc in E. cbn [app] in E. rewrite <- E. rewrite <- !app_assoc. cbn [app]. f_equal.
      rewrite !length_app, Hl. simpl. lia.
    + by rewrite <- !app_assoc in Hv.
    + unfold repaired. rewrite Es at 1. apply Forall2_app; [apply repaired_refl|]. constructor; [by right|done].
  - exists s. split_and!; [done| |apply repaired_refl]. apply Happ; [done|].
    specialize (Hle s). unfold valid. lia.
Qed.
(** Both outcomes of the repair. *)
Lemma SanitizedUTF8_cases s :
  match SanitizedUTF8 span s with
  | None => valid s
  | Some r => ~ valid s /\ valid r /\ repaired s r
  end.
Proof.
  unfold SanitizedUTF8. destruct (Nat.eqb_spec (span s) (length s)) as [E|E]; [done|].
  destruct (sanitize_loop_spec (S (length s)) [] s) as (r & Er & Hv & Hr).
  - lia.
  - pose proof (span_valid Hspan []) as H0. by rewrite take_nil in H0.
  - cbn [app length Nat.add] in Er, Hv. rewrite Er. done.
Qed.
End UTF8Lemmas.

(** ** Theorems *)

(** Container IDs: a cgroup path, cut at its last ".scope", yields an ID
    exactly when it ends in a separator ('/', '-' or ':') and 64 hexadecimal
    digits and what precedes them does not end in "-conmon"; the result is the first
    12 of the digits.  Every other path yields none. *)
Theorem ExtractContainerID_spec (cgroup r : str) :
  ExtractContainerIDFromCgroup cgroup = Some r <->
  exists pre sep id,
    names_container (cgroup_body cgroup) pre sep id /\ r = take SHORT_CONTAINER_ID_LENGTH id.
Proof. rewrite Extract_check_body. apply check_body_spec. Qed.

(** Splitting: the parts of [SplitStringView] contain no delimiter and
    joined with it give back the string; there is always at least one part. *)
Theorem SplitStringView_join (sv : str) (delim : ascii) :
  SplitStringView sv delim <> []
  /\ join delim (SplitStringView sv delim) = sv
  /\ Forall (fun p => ~ In delim p) (SplitStringView sv delim).
Proof. apply split_loop_join. lia. Qed.

(** Base64: decoding the standard padded encoding of any byte string gives
    the bytes back. *)
Theorem Base64_roundtrip (bs : list Z) (Hbs : bytes_ok bs) : Base64Decode (Base64Encode bs) = bs.
Proof. by apply (base64_loop_encode bs []). Qed.

(** Repairing UTF-8: no result means the string was valid; a result means
    it was not, and the result is valid, as long as the input and equal to it except
    for characters replaced by '?'. *)
Theorem SanitizedUTF8_spec (span : str -> nat) (Hspan : span_laws span) (s : str) :
  match SanitizedUTF8 span s with
  | None => valid span s
  | Some r => ~ valid span s /\ valid span r /\ repaired s r
  end.
Proof.
  apply (SanitizedUTF8_cases span Hspan).
Qed.

(** ** Witnesses *)

Lemma Base64_roundtrip_witness : Base64Decode (Base64Encode [104; 105; 33; 0; 255]) = [104; 105; 33; 0; 255].
Proof. apply Base64_roundtrip. repeat constructor; lia. Defined.

(** A [SpanStructurallyValid] for the ASCII subset of UTF-8. *)
Fixpoint ascii_span (s : str) : nat :=
  match s with
  | c :: s => if code c <? 128 then S (ascii_span s) else O
  | [] => O
  end.

Lemma ascii_span_laws : span_laws ascii_span.
Proof.
  split; unfold valid.
  - induction s as [|c s IH]; simpl; [lia|]. destruct (code c <? 128); lia.
  - induction s as [|c s IH]; simpl; [done|]. destruct (code c <? 128) eqn:E; [|done].
    simpl. by rewrite E, IH.
  - induction a as [|c a IH]; intros b Ha Hb; simpl in *; [done|].
    destruct (code c <? 128); [|done]. rewrite IH by (done || lia). done.
  - intros c Hc. cbn. by rewrite (proj2 (Z.ltb_lt _ _) Hc).
Qed.

Lemma SanitizedUTF8_witness :
  match SanitizedUTF8 ascii_span [chr 97; chr 200; chr 98] with
  | None => valid ascii_span [chr 97; chr 200; chr 98]
  | Some r => ~ valid ascii_span [chr 97; chr 200; chr 98] /\ valid ascii_span r
              /\ repaired [chr 97; chr 200; chr 98] r
  end.
Proof. exact (SanitizedUTF8_spec ascii_span ascii_span_laws [chr 97; chr 200; chr 98]). Defined.
