(* ===== verification/FileHandles.v ===== *)
(** * File handles

    [FileSystem.h]: the wrapper [ResourceWrapper] of operating-system resources with its four
    instances, as operations on handle objects over the set of open resources, and the
    decompression of [GZFileHandle].  Closing a resource that is not open is undefined ([None]). *)

From stdpp Require Import gmap.
From S2P Require Import Prelude Utility.

Open Scope Z_scope.
Open Scope collector_scope.

(** ** Resources *)

(** The classes derived from [ResourceWrapper]: descriptors, and three kinds of pointers. *)
Inductive kind := FDHandle | FileHandle | DirHandle | GZFileHandle.

#[export] Instance kind_eq_dec : EqDecision kind.
Proof. solve_decision. Defined.

#[export] Instance kind_countable : Countable kind.
Proof.
  refine (inj_countable' (fun k => match k with FDHandle => 0 | FileHandle => 1 | DirHandle => 2 | GZFileHandle => 3 end)%nat
    (fun n => match n with 0 => FDHandle | 1 => FileHandle | 2 => DirHandle | _ => GZFileHandle end)%nat _).
  by intros [].
Defined.

Definition Invalid (k : kind) : Z := match k with FDHandle => -1 | _ => 0 end.

(** A resource is a value of its kind; the system knows which are open. *)
Abbreviation resource := (kind * Z)%type.

(** [close], [fclose], [closedir] and [gzclose]; whether it succeeds is an input. *)
Definition Close (k : kind) (v : Z) (success : bool) (open : gset resource) : option (bool * gset resource) :=
  if decide ((k, v) ∈ open) then Some (success, open ∖ {[(k, v)]}) else None.

(** ** [ResourceWrapper] *)

(** A handle object: its class and the member [resource_]. *)
Record handle := mkHandle { h_kind : kind; resource_ : Z }.

Definition ResourceWrapper_ctor (k : kind) : handle := mkHandle k (Invalid k).
Definition ResourceWrapper_of (k : kind) (resource : Z) : handle := mkHandle k resource.

Definition valid (h : handle) : bool := negb (resource_ h =? Invalid (h_kind h)).
Definition get (h : handle) : Z := resource_ h.

Definition release (h : handle) : Z * handle := (resource_ h, mkHandle (h_kind h) (Invalid (h_kind h))).

Definition close (h : handle) (success : bool) (open : gset resource) : option (bool * handle * gset resource) :=
  if resource_ h =? Invalid (h_kind h) then Some (true, h, open)
  else
    let! (ok, open) := Close (h_kind h) (resource_ h) success open in
    Some (ok, mkHandle (h_kind h) (Invalid (h_kind h)), open).

(** [operator=(T&&)]. *)
Definition assign_resource (h : handle) (value : Z) (success : bool) (open : gset resource) : option (handle * gset resource) :=
  let! (_, h, open) := close h success open in
  Some (mkHandle (h_kind h) value, open).

(** ** Programs with handles *)

(** The handle objects, the open resources, and those of them that no handle owns any more. *)
Record state := mkState { objects : gmap nat handle; open : gset resource; escaped : gset resource }.

(** What a program does with its handles.  Where a call opens a resource its result is given,
    where one is closed whether that succeeds. *)
Inductive op :=
| Default (x : nat) (k : kind)
| Open (x : nat) (k : kind) (v : Z)
| Move (x y : nat)
| Convert (x : nat) (k : kind) (y : nat) (v : Z)
| Assign (x : nat) (v : Z) (success : bool)
| MoveAssign (x y : nat) (success : bool)
| Release (x : nat)
| CloseHandle (x : nat) (success : bool)
| Destroy (x : nat) (success : bool).

(** The resource of a handle, if it has one. *)
Definition owns (h : handle) : gset resource := if valid h then {[(h_kind h, resource_ h)]} else ∅.

(** What a call has opened, if it succeeded. *)
Definition opened (k : kind) (v : Z) : gset resource := owns (mkHandle k v).

(** The move constructors. *)
Definition move_ctor (x y : nat) (s : state) : option state :=
  let! h := objects s !! y in
  let '(v, h') := release h in
  Some (mkState (<[x := ResourceWrapper_of (h_kind h) v]> (<[y := h']> (objects s))) (open s) (escaped s)).

(** The constructors from a descriptor: [v] is what [fdopen], [fdopendir] or [gzdopen] returns; if
    it succeeds the descriptor belongs to the new resource. *)
Definition convert_ctor (x : nat) (k : kind) (y : nat) (v : Z) (s : state) : option state :=
  let! h := objects s !! y in
  let '(fd, h') := release h in
  let objs := <[x := ResourceWrapper_of k v]> (<[y := h']> (objects s)) in
  if v =? Invalid k then Some (mkState objs (open s) (escaped s ∪ opened FDHandle fd))
  else Some (mkState objs ((open s ∖ opened FDHandle fd) ∪ opened k v) (escaped s)).

(** [operator=(Derived&&)]; the two objects may be the same. *)
Definition move_assign (x y : nat) (success : bool) (s : state) : option state :=
  let! h := objects s !! x in
  let! (_, h, o) := close h success (open s) in
  let objs := <[x := h]> (objects s) in
  let! other := objs !! y in
  let objs := <[x := mkHandle (h_kind h) (resource_ other)]> objs in
  let! other := objs !! y in
  Some (mkState (<[y := mkHandle (h_kind other) (Invalid (h_kind other))]> objs) o (escaped s)).

Definition destructor (x : nat) (success : bool) (s : state) : option state :=
  let! h := objects s !! x in
  let! (_, _, o) := close h success (open s) in
  Some (mkState (delete x (objects s)) o (escaped s)).

Definition step (o : op) (s : state) : option state :=
  match o with
  | Default x k => Some (mkState (<[x := ResourceWrapper_ctor k]> (objects s)) (open s) (escaped s))
  | Open x k v => Some (mkState (<[x := ResourceWrapper_of k v]> (objects s)) (open s ∪ opened k v) (escaped s))
  | Move x y => move_ctor x y s
  | Convert x k y v => convert_ctor x k y v s
  | Assign x v success =>
      let! h := objects s !! x in
      let! (h, o) := assign_resource h v success (open s) in
      Some (mkState (<[x := h]> (objects s)) (o ∪ opened (h_kind h) v) (escaped s))
  | MoveAssign x y success => move_assign x y success s
  | Release x =>
      let! h := objects s !! x in
      let '(v, h') := release h in
      Some (mkState (<[x := h']> (objects s)) (open s) (escaped s ∪ owns h))
  | CloseHandle x success =>
      let! h := objects s !! x in
      let! (_, h, o) := close h success (open s) in
      Some (mkState (<[x := h]> (objects s)) o (escaped s))
  | Destroy x success => destructor x success s
  end.

Fixpoint run (ops : list op) (s : state) : option state :=
  match ops with
  | [] => Some s
  | o :: ops => let! s := step o s in run ops s
  end.

(** What the language and the system guarantee: constructors make new objects, the others work on
    live ones of the same class, and a resource that is opened was not open.  A descriptor handle
    is converted to one of the others, which fails if there is no descriptor. *)
Definition live (x : nat) (s : state) (P : handle -> Prop) : Prop :=
  match objects s !! x with Some h => P h | None => False end.

Definition possible (o : op) (s : state) : Prop :=
  match o with
  | Default x k => objects s !! x = None
  | Open x k v => objects s !! x = None /\ opened k v ## open s
  | Move x y => objects s !! x = None /\ live y s (fun _ => True)
  | Convert x k y v =>
      objects s !! x = None /\ k <> FDHandle /\ opened k v ## open s /\
      live y s (fun h => h_kind h = FDHandle /\ (valid h = false -> v = Invalid k))
  | Assign x v _ => live x s (fun h => opened (h_kind h) v ## open s)
  | MoveAssign x y _ => live x s (fun h => live y s (fun h' => h_kind h = h_kind h'))
  | Release x | CloseHandle x _ | Destroy x _ => live x s (fun _ => True)
  end.

Fixpoint possible_run (ops : list op) (s : state) : Prop :=
  match ops with
  | [] => True
  | o :: ops => possible o s /\ match step o s with Some s' => possible_run ops s' | None => True end
  end.

#[export] Instance live_dec x s P `{!forall h, Decision (P h)} : Decision (live x s P).
Proof. unfold live. destruct (objects s !! x); apply _. Defined.

#[export] Instance possible_dec o s : Decision (possible o s).
Proof. destruct o; cbn [possible]; apply _. Defined.

#[export] Instance possible_run_dec ops : forall s, Decision (possible_run ops s).
Proof. induction ops as [|o ops IH]; intros s; cbn [possible_run]; [apply _|]. destruct (step o s); apply _. Defined.

Lemma live_inv x s P : live x s P -> exists h, objects s !! x = Some h /\ P h.
Proof. unfold live. destruct (objects s !! x) as [h|]; [|done]. by exists h. Qed.

(** ** The invariant *)

(** What the object [x] owns. *)
Definition owned_by (objs : gmap nat handle) (x : nat) : gset resource := from_option owns ∅ (objs !! x).

(** Every resource of a handle is open and belongs to no other handle; every open resource
    belongs to a handle or has left them. *)
Record owners (own : nat -> gset resource) (o e : gset resource) : Prop := {
  ow_open : forall x, own x ⊆ o;
  ow_kept : forall x, own x ## e;
  ow_unique : forall x y, x <> y -> own x ## own y;
  ow_some : forall r, r ∈ o -> r ∈ e \/ exists x, r ∈ own x;
  ow_escaped : e ⊆ o
}.

Definition wf (s : state) : Prop := owners (owned_by (objects s)) (open s) (escaped s).

(** ** Lemmas *)

Lemma owners_ext own own' o o' e e' : (forall x, own' x = own x) -> o' = o -> e' = e -> owners own o e -> owners own' o' e'.
Proof.
  intros Ho -> -> [H1 H2 H3 H4 H5]. split; [intros x; rewrite Ho; auto..|intros x y Hxy; rewrite !Ho; auto| |done].
  intros r Hr. destruct (H4 r Hr) as [?|[x Hx]]; [by left|right]. exists x. by rewrite Ho.
Qed.

(** One object gets other resources, which were not open. *)
Lemma owners_set own o e x R :
  owners own o e -> R ## o ∖ own x -> owners (fun z => if decide (z = x) then R else own z) ((o ∖ own x) ∪ R) e.
Proof.
  intros [H1 H2 H3 H4 H5] HR. split.
  - intros z. destruct (decide (z = x)) as [->|Hne]; [set_solver|]. specialize (H1 z). specialize (H3 z x Hne). set_solver.
  - intros z. destruct (decide (z = x)) as [->|Hne]; [|done]. specialize (H2 x). set_solver.
  - intros y z Hyz. pose proof (fun y (Hy : y <> x) => conj (H1 y) (H3 y x Hy)) as Hx.
    destruct (decide (y = x)) as [->|Hy], (decide (z = x)) as [->|Hz]; [done| | |by apply H3].
    + specialize (Hx z Hz). set_solver.
    + specialize (Hx y Hy). set_solver.
  - intros r Hr. apply elem_of_union in Hr as [[Hr Hrx]%elem_of_difference|Hr].
    + destruct (H4 r Hr) as [?|[y Hy]]; [by left|]. right. exists y. destruct (decide (y = x)) as [->|]; [done|exact Hy].
    + right. exists x. by rewrite decide_True.
  - specialize (H2 x). set_solver.
Qed.

(** The resources of an object leave the handles. *)
Lemma owners_escape own o e x :
  owners own o e -> owners (fun z => if decide (z = x) then ∅ else own z) o (e ∪ own x).
Proof.
  intros [H1 H2 H3 H4 H5]. split.
  - intros z. destruct (decide (z = x)); [set_solver|done].
  - intros z. destruct (decide (z = x)) as [|Hne]; [set_solver|]. specialize (H2 z). specialize (H3 z x Hne). set_solver.
  - intros y z Hyz. destruct (decide (y = x)), (decide (z = x)); [set_solver..|by apply H3].
  - intros r Hr. destruct (H4 r Hr) as [?|[y Hy]]; [left; set_solver|]. destruct (decide (y = x)) as [->|Hne]; [left; set_solver|].
    right. exists y. by rewrite decide_False.
  - specialize (H1 x). set_solver.
Qed.

(** The resources of [y] go to [x], which has none. *)
Lemma owners_move own o e x y :
  owners own o e -> x <> y -> own x = ∅ ->
  owners (fun z => if decide (z = x) then own y else if decide (z = y) then ∅ else own z) o e.
Proof.
  intros H Hne Hx. pose proof (ow_open _ _ _ H y) as Hsub.
  pose proof (owners_set _ _ _ y ∅ H ltac:(set_solver)) as H1.
  pose proof (owners_set _ _ _ x (own y) H1) as H2. cbn beta in H2. destruct (decide (x = y)) as [|_]; [done|]. rewrite Hx in H2.
  eapply owners_ext; [..|apply H2; set_solver]; [done| |done].
  apply set_eq. intros r. destruct (decide (r ∈ own y)); set_solver.
Qed.

Lemma owned_insert objs x h z : owned_by (<[x := h]> objs) z = if decide (z = x) then owns h else owned_by objs z.
Proof. unfold owned_by. destruct (decide (z = x)) as [->|Hne]; [by rewrite lookup_insert_eq|by rewrite lookup_insert_ne]. Qed.

Lemma owned_delete objs x z : owned_by (delete x objs) z = if decide (z = x) then ∅ else owned_by objs z.
Proof. unfold owned_by. destruct (decide (z = x)) as [->|Hne]; [by rewrite lookup_delete_eq|by rewrite lookup_delete_ne]. Qed.

Lemma owns_invalid k : owns (mkHandle k (Invalid k)) = ∅.
Proof. unfold owns, valid. cbn. by rewrite Z.eqb_refl. Qed.

Lemma owned_none objs x : objs !! x = None -> owned_by objs x = ∅.
Proof. intros E. unfold owned_by. by rewrite E. Qed.

Lemma owned_some objs x h : objs !! x = Some h -> owned_by objs x = owns h.
Proof. intros E. unfold owned_by. by rewrite E. Qed.

(** Closing a handle of a state: the resource is open, and no longer afterwards. *)
Lemma close_owned s x h success : wf s -> objects s !! x = Some h ->
  exists ok, close h success (open s) = Some (ok, mkHandle (h_kind h) (Invalid (h_kind h)), open s ∖ owned_by (objects s) x).
Proof.
  intros Hwf Hx. pose proof (ow_open _ _ _ Hwf x) as Hin. rewrite (owned_some _ _ _ Hx) in *. unfold close, owns, valid in *.
  destruct (Z.eqb_spec (resource_ h) (Invalid (h_kind h))) as [E|Hne]; cbn [negb] in *.
  - exists true. destruct h as [k v]. cbn in *. subst v. by rewrite difference_empty_L.
  - unfold Close. rewrite decide_True by (apply Hin; by apply elem_of_singleton). by exists success.
Qed.

(** Closing a handle and giving it the resources [R]. *)
Lemma wf_replace s x h h' R :
  wf s -> objects s !! x = Some h -> owns h' = R -> R ## open s ->
  owners (owned_by (<[x := h']> (objects s))) ((open s ∖ owned_by (objects s) x) ∪ R) (escaped s).
Proof.
  intros Hwf Hx HR Hd. eapply owners_ext; [| |reflexivity|apply (owners_set _ _ _ x R Hwf)]; [|done|set_solver].
  intros z. rewrite owned_insert, HR. done.
Qed.

(** A new object with resources that were not open. *)
Lemma wf_new s x h : wf s -> objects s !! x = None -> owns h ## open s ->
  owners (owned_by (<[x := h]> (objects s))) (open s ∪ owns h) (escaped s).
Proof.
  intros Hwf Hx Hd. eapply owners_ext; [| |reflexivity|apply (owners_set _ _ _ x (owns h) Hwf)].
  - intros z. by rewrite owned_insert.
  - rewrite (owned_none _ _ Hx). set_solver.
  - rewrite (owned_none _ _ Hx). set_solver.
Qed.

(** The resource of [y] goes to [x], an object that has none. *)
Lemma wf_transfer s x y h : wf s -> x <> y -> owned_by (objects s) x = ∅ -> objects s !! y = Some h ->
  owners (owned_by (<[x := mkHandle (h_kind h) (resource_ h)]> (<[y := mkHandle (h_kind h) (Invalid (h_kind h))]> (objects s))))
    (open s) (escaped s).
Proof.
  intros Hwf Hne Hx Hy. eapply owners_ext; [|reflexivity..|apply (owners_move _ _ _ x y Hwf Hne Hx)].
  intros z. rewrite !owned_insert, owns_invalid, (owned_some _ _ _ Hy). by destruct h.
Qed.

Lemma wf_released s x h : wf s -> objects s !! x = Some h ->
  owners (owned_by (<[x := mkHandle (h_kind h) (Invalid (h_kind h))]> (objects s))) (open s) (escaped s ∪ owns h).
Proof.
  intros Hwf Hx. eapply owners_ext; [|reflexivity..|].
  2: rewrite <- (owned_some _ _ _ Hx); apply (owners_escape _ _ _ x Hwf).
  intros z. by rewrite owned_insert, owns_invalid.
Qed.

(** ** Steps *)

(** The operations after which no resource is without an owner: a resource leaves the handles when
    [release] gives it to the caller, and when a conversion fails. *)
Definition keeps (o : op) : bool :=
  match o with Release _ => false | Convert _ k _ v => negb (v =? Invalid k) | _ => true end.

Definition step_ok (o : op) (s s' : state) : Prop :=
  wf s' /\ escaped s ⊆ escaped s' /\ (keeps o = true -> escaped s' = escaped s).

Lemma step_ok_intro o s objs op : owners (owned_by objs) op (escaped s) -> step_ok o s (mkState objs op (escaped s)).
Proof. done. Qed.

(** Closing the handle of [x]. *)
Lemma wf_closed s x h : wf s -> objects s !! x = Some h ->
  wf (mkState (<[x := mkHandle (h_kind h) (Invalid (h_kind h))]> (objects s)) (open s ∖ owned_by (objects s) x) (escaped s)).
Proof.
  intros Hwf Hx. unfold wf. cbn [objects open escaped]. rewrite <- (union_empty_r_L (open s ∖ _)).
  by apply (wf_replace _ _ _ _ _ Hwf Hx (owns_invalid _)), disjoint_empty_l.
Qed.

Lemma convert_ok s x k y v : wf s -> possible (Convert x k y v) s ->
  exists s', step (Convert x k y v) s = Some s' /\ step_ok (Convert x k y v) s s'.
Proof.
  intros Hwf (Hx & Hk & Hd & ([k' fd] & Hy & Hfd & _)%live_inv). cbn [h_kind] in Hfd. subst k'. unfold step, convert_ctor, move_assign. rewrite Hy. cbn [release resource_ h_kind].
  assert (x <> y) as Hxy by congruence.
  assert (<[y := mkHandle FDHandle (Invalid FDHandle)]> (objects s) !! x = None) as Hx' by (by rewrite lookup_insert_ne by done).
  destruct (Z.eqb_spec v (Invalid k)) as [->|Hv]; eexists; (split; [reflexivity|]).
  - split_and!; [|cbn; set_solver|cbn; by rewrite Z.eqb_refl]. unfold wf. cbn [objects open escaped].
    pose proof (wf_new (mkState _ (open s) _) x (mkHandle k (Invalid k)) (wf_released s y _ Hwf Hy) Hx') as H.
    cbn [objects open escaped] in H. rewrite owns_invalid, union_empty_r_L in H. apply H, disjoint_empty_l.
  - pose proof (wf_closed s y _ Hwf Hy) as Hc. rewrite (owned_some _ _ _ Hy) in Hc.
    apply step_ok_intro. apply (wf_new _ x (mkHandle k v) Hc Hx'). cbn [open]. unfold opened in Hd. set_solver.
Qed.

Lemma MoveAssign_ok s x y success : wf s -> possible (MoveAssign x y success) s ->
  exists s', step (MoveAssign x y success) s = Some s' /\ step_ok (MoveAssign x y success) s s'.
Proof.
  intros Hwf (h & Hx & (h' & Hy & Hk)%live_inv)%live_inv. unfold step, convert_ctor, move_assign. rewrite Hx. destruct (close_owned s x h success Hwf Hx) as [ok ->].
  pose proof (wf_closed s x h Hwf Hx) as Hc. cbn [h_kind].
  destruct (decide (x = y)) as [<-|Hne].
  - rewrite lookup_insert_eq. cbn [resource_]. rewrite lookup_insert_eq. eexists. split; [reflexivity|]. apply step_ok_intro.
    by rewrite !insert_insert_eq.
  - rewrite lookup_insert_ne, Hy by done. rewrite !lookup_insert_ne, Hy by done. eexists. split; [reflexivity|]. apply step_ok_intro.
    rewrite (insert_insert_ne _ _ _ _ _ (not_eq_sym Hne)). rewrite Hk in *. apply (wf_transfer _ x y h' Hc Hne); cbn [objects].
    + by rewrite owned_insert, decide_True, owns_invalid.
    + by rewrite lookup_insert_ne.
Qed.

Lemma step_spec o s : wf s -> possible o s -> exists s', step o s = Some s' /\ step_ok o s s'.
Proof.
  intros Hwf Hp. destruct o as [x k|x k v|x y|x k y v|x v su|x y su|x|x su|x su];
    [..|by apply convert_ok| |by apply MoveAssign_ok| | |]; cbn [step possible] in *; unfold move_ctor, destructor.
  - eexists. split; [reflexivity|]. apply step_ok_intro.
    pose proof (wf_new s x (ResourceWrapper_ctor k) Hwf Hp) as H. unfold ResourceWrapper_ctor in *.
    rewrite owns_invalid, union_empty_r_L in H. apply H, disjoint_empty_l.
  - destruct Hp as [Hx Hd]. eexists. split; [reflexivity|]. apply step_ok_intro, (wf_new s x _ Hwf Hx Hd).
  - destruct Hp as [Hx (h & Hy & _)%live_inv]. rewrite Hy. cbn [release]. eexists. split; [reflexivity|]. apply step_ok_intro.
    apply (wf_transfer s x y h Hwf); [congruence|by apply owned_none|done].
  - apply live_inv in Hp as (h & Hx & Hd). rewrite Hx. unfold assign_resource. destruct (close_owned s x h su Hwf Hx) as [ok ->].
    eexists. split; [reflexivity|]. apply step_ok_intro, (wf_replace _ _ _ _ _ Hwf Hx); [done|exact Hd].
  - apply live_inv in Hp as (h & Hx & _). rewrite Hx. cbn [release]. eexists. split; [reflexivity|].
    split_and!; [exact (wf_released s x h Hwf Hx)|cbn; set_solver|done].
  - apply live_inv in Hp as (h & Hx & _). rewrite Hx. destruct (close_owned s x h su Hwf Hx) as [ok ->]. eexists. split; [reflexivity|].
    apply step_ok_intro, (wf_closed s x h Hwf Hx).
  - apply live_inv in Hp as (h & Hx & _). rewrite Hx. destruct (close_owned s x h su Hwf Hx) as [ok ->]. eexists. split; [reflexivity|].
    apply step_ok_intro. eapply owners_ext; [|reflexivity..|exact (wf_closed s x h Hwf Hx)].
    intros z. cbn [objects]. by rewrite owned_delete, owned_insert, owns_invalid.
Qed.

Definition start : state := mkState ∅ ∅ ∅.

Lemma wf_start : wf start.
Proof.
  unfold wf, owned_by. cbn [objects open escaped start]. split; intros; rewrite ?lookup_empty in *; set_solver.
Qed.

Lemma run_wf ops : forall s, wf s -> possible_run ops s ->
  exists s', run ops s = Some s' /\ wf s' /\ escaped s ⊆ escaped s' /\ (forallb keeps ops = true -> escaped s' = escaped s).
Proof.
  induction ops as [|o ops IH]; intros s Hwf Hp; cbn [run possible_run forallb] in *; [by exists s|].
  destruct Hp as [Ho Hp]. destruct (step_spec o s Hwf Ho) as (s1 & E & Hwf1 & He1 & Hk1). rewrite E in Hp |- *.
  destruct (IH s1 Hwf1 Hp) as (s' & -> & Hwf' & He' & Hk'). exists s'. split_and!; [done|done|set_solver|].
  intros [H1 H2]%andb_true_iff. rewrite Hk', Hk1; done.
Qed.

(** C37. [ResourceWrapper]: whatever a program does with its handles, no resource is closed that is not
    open, so none twice; when all handles are gone exactly those resources are still open that were
    taken out by [release] or lost in a failed conversion, none if there was no such call. *)
Theorem handles_spec (ops : list op) :
  possible_run ops start ->
  exists s, run ops start = Some s /\ wf s /\
    (objects s = ∅ -> open s = escaped s) /\ (objects s = ∅ -> forallb keeps ops = true -> open s = ∅).
Proof.
  intros Hp. destruct (run_wf ops start wf_start Hp) as (s & Hr & Hwf & _ & Hk). exists s.
  assert (objects s = ∅ -> open s = escaped s) as Ho.
  { intros Hobj. apply set_eq. intros r. split; [|apply (ow_escaped _ _ _ Hwf)].
    intros [?|[x Hx]]%(ow_some _ _ _ Hwf); [done|]. unfold owned_by in Hx. rewrite Hobj, lookup_empty in Hx. by apply elem_of_empty in Hx. }
  split_and!; [done|done|done|]. intros Hobj Hkeep. rewrite (Ho Hobj). by apply Hk.
Qed.

(** Opening a descriptor, reading the directory through it, moving the handle and leaving the scope. *)
Definition scrape_ops : list op :=
  [Open 0 FDHandle 3; Convert 1 DirHandle 0 64; Move 2 1; Open 3 FDHandle 4; MoveAssign 0 3 true;
   Destroy 3 true; Destroy 2 true; Destroy 1 true; Destroy 0 false].

(** A conversion that fails: the descriptor was released and nobody closes it, whatever happens
    later. *)
Theorem failed_conversion_leaks (x y : nat) (k : kind) (fd : Z) (s : state) (ops : list op) :
  wf s -> objects s !! y = Some (mkHandle FDHandle fd) -> fd <> Invalid FDHandle ->
  possible_run (Convert x k y (Invalid k) :: ops) s ->
  exists s', run (Convert x k y (Invalid k) :: ops) s = Some s' /\ (FDHandle, fd) ∈ open s' /\
    forall z h, objects s' !! z = Some h -> h_kind h = FDHandle -> resource_ h <> fd.
Proof.
  intros Hwf Hy Hfd [Hp Hps]. cbn [run]. destruct (step_spec _ s Hwf Hp) as (s1 & E & Hwf1 & _ & _). rewrite E in Hps |- *.
  assert ((FDHandle, fd) ∈ escaped s1) as Hin.
  { unfold step, convert_ctor in E. rewrite Hy in E. cbn [release h_kind resource_] in E. rewrite Z.eqb_refl in E. injection E as <-. cbn [escaped].
    apply elem_of_union_r. unfold opened, owns, valid. cbn [resource_ h_kind].
    rewrite (proj2 (Z.eqb_neq _ _) Hfd). by apply elem_of_singleton. }
  destruct (run_wf ops s1 Hwf1 Hps) as (s' & -> & Hwf' & Hsub & _). exists s'. split_and!; [done| |].
  - by apply (ow_escaped _ _ _ Hwf'), Hsub.
  - intros z h Hz Hk Hr. pose proof (ow_kept _ _ _ Hwf' z) as Hd. rewrite (owned_some _ _ _ Hz) in Hd.
    unfold owns, valid in Hd. rewrite Hk, Hr, (proj2 (Z.eqb_neq _ _) Hfd) in Hd. cbn [negb] in Hd. set_solver.
Qed.

Lemma handles_spec_witness : possible_run scrape_ops start /\ exists s, run scrape_ops start = Some s /\ open s = ∅.
Proof.
  assert (possible_run scrape_ops start) as H by (refine (bool_decide_eq_true_1 (possible_run scrape_ops start) _); vm_compute; reflexivity).
  split; [exact H|]. destruct (handles_spec scrape_ops H) as (s & Hr & _ & _ & Ho). exists s. split; [exact Hr|].
  apply Ho; [|reflexivity]. vm_compute in Hr. injection Hr as <-. reflexivity.
Defined.

(** The descriptor 3, then a conversion of it that fails. *)
Definition opened_one : state := mkState {[0%nat := mkHandle FDHandle 3]} {[(FDHandle, 3)]} ∅.

Lemma failed_conversion_leaks_witness : exists s, run [Convert 1 DirHandle 0 0; Destroy 1 true; Destroy 0 true] opened_one = Some s /\ (FDHandle, 3) ∈ open s.
Proof.
  assert (wf opened_one) as Hwf by (exact (wf_new start 0 (mkHandle FDHandle 3) wf_start eq_refl (disjoint_empty_r _))).
  destruct (failed_conversion_leaks 1 0 DirHandle 3 opened_one [Destroy 1 true; Destroy 0 true] Hwf eq_refl)
    as (s & Hr & Hin & _).
  - discriminate.
  - refine (bool_decide_eq_true_1 (possible_run _ opened_one) _). vm_compute. reflexivity.
  - by exists s.
Defined.

(** ** Directories *)

(** What [DirHandle] uses of the system: [dirfd], [::openat] and [readdir] on a directory stream. *)
Class Directories := {
  dirfd : Z -> Z;
  sys_openat : Z -> str -> Z -> Z;
  entries : Type;
  readdir : Z -> entries -> option str * entries
}.

Section Directory.
Context `{Directories}.

Definition openat (h : handle) (path : str) (mode : Z) : handle :=
  if negb (valid h) then ResourceWrapper_of FDHandle (-1)
  else ResourceWrapper_of FDHandle (sys_openat (dirfd (get h)) path mode).

Definition fd (h : handle) : Z := dirfd (get h).

Definition read (h : handle) (e : entries) : option str * entries :=
  if negb (valid h) then (None, e) else readdir (get h) e.

(** A directory that could not be opened has no entries and no files. *)
Lemma invalid_directory h path mode e :
  valid h = false -> valid (openat h path mode) = false /\ read h e = (None, e).
Proof. intros E. unfold openat, read. by rewrite E. Qed.

End Directory.

(** ** Decompression *)

Definition Z_OK : Z := 0.
Definition Z_ERRNO : Z := -1.
Definition Z_BUF_ERROR : Z := -5.

(** What [GZFileHandle] uses of zlib and of the C++ streams.  A [gzFile] that is a null pointer is
    [None]; [gzread] gives the number of bytes, or a negative one, and the bytes. *)
Class Zlib := {
  gz : Type;
  gzopen : str -> option gz;
  gzread : option gz -> Z -> Z * str * option gz;
  gzeof : option gz -> bool;
  gzerror : option gz -> option str * Z
}.

Class Output := {
  ostream : Type;
  open_output : str -> option ostream;
  write : ostream -> str -> ostream
}.

(** The documented behaviour of zlib on data without errors: a read gives as many of the remaining
    bytes as asked for and there are, [gzeof] tells that the last one came up short, and where the
    file ended inside of a compressed stream only [gzerror] tells, with [Z_BUF_ERROR]. *)
Class ZlibLaws `{Zlib} (rest : gz -> str) (complete : gz -> bool) := {
  gzread_some g n : 0 < n -> exists g',
    gzread (Some g) n = (Z.min n (Z.of_nat (length (rest g))), take (Z.to_nat n) (rest g), Some g') /\
    rest g' = drop (Z.to_nat n) (rest g) /\ complete g' = complete g /\ gzeof (Some g') = (Z.of_nat (length (rest g)) <? n);
  gzerror_end g n g' r d : 0 < n -> gzread (Some g) n = (r, d, Some g') -> gzeof (Some g') = true ->
    (gzerror (Some g')).2 = if complete g' then Z_OK else Z_BUF_ERROR;
  gzread_null n : gzread None n = (-1, [], None);
  gzerror_null : gzerror None = (None, Z_OK)
}.

(** Writing twice is writing both; also where writing fails from some point on. *)
Class OutputLaws `{Output} := write_app o a b : write (write o a) b = write o (a ++ b).

Definition BUFFER_SIZE : Z := 8192.

Section Decompression.
Context `{Zlib} `{Output}.

(** [strerror(errno)] and [errno]. *)
Definition ErrorMessage (resource : option gz) (strerror : Z -> str) (errno : Z) : str :=
  let '(gz_error, errnum) := gzerror resource in
  match gz_error with
  | None => []
  | Some error_msg_ =>
      if errnum =? Z_ERRNO then error_msg_ ++ lit " - " ++ strerror errno ++ lit " (" ++ show_nat errno ++ lit ")" else error_msg_
  end.

(** The loop of [Decompress]; [fuel] bounds the reads. *)
Fixpoint Decompress_loop (fuel : nat) (resource : option gz) (output_stream : ostream) : option (Z * option gz * ostream) :=
  match fuel with
  | O => None
  | S fuel =>
      let '(bytes_read, buf, resource) := gzread resource BUFFER_SIZE in
      if bytes_read <=? 0 then Some (bytes_read, resource, output_stream)
      else
        let output_stream := write output_stream buf in
        if bytes_read =? BUFFER_SIZE then Decompress_loop fuel resource output_stream
        else Some (bytes_read, resource, output_stream)
  end.

Definition Decompress (fuel : nat) (resource : option gz) (output_stream : ostream) : option (bool * option gz * ostream) :=
  let! (bytes_read, resource, output_stream) := Decompress_loop fuel resource output_stream in
  Some (negb ((bytes_read <? 0) || negb (gzeof resource)), resource, output_stream).

(** The stream of the output file, if it was opened. *)
Definition DecompressFile (fuel : nat) (input_path output_path : str) : option (bool * option ostream) :=
  match gzopen input_path with
  | None => Some (false, None)
  | Some input =>
      match open_output output_path with
      | None => Some (false, None)
      | Some output =>
          let! (ok, _, output) := Decompress fuel (Some input) output in
          Some (ok, Some output)
      end
  end.

Context {rest : gz -> str} {complete : gz -> bool}.
Context `{!ZlibLaws rest complete} `{!OutputLaws}.

Definition write_all (o : ostream) (s : str) : ostream := match s with [] => o | _ => write o s end.

Lemma Decompress_loop_spec fuel : forall g o, (length (rest g) < fuel * Z.to_nat BUFFER_SIZE)%nat ->
  exists n g', Decompress_loop fuel (Some g) o = Some (n, Some g', write_all o (rest g)) /\
    0 <= n /\ gzeof (Some g') = true /\ (gzerror (Some g')).2 = if complete g then Z_OK else Z_BUF_ERROR.
Proof.
  induction fuel as [|fuel IH]; intros g o Hf; [lia|]. cbn [Decompress_loop].
  destruct (gzread_some g BUFFER_SIZE ltac:(done)) as (g' & E & Hr & Hc & Heof).
  pose proof (gzerror_end g BUFFER_SIZE g' _ _ ltac:(done) E) as Herr. rewrite E, Hc in *.
  assert (Z.of_nat (Z.to_nat BUFFER_SIZE) = BUFFER_SIZE /\ 0 < BUFFER_SIZE) as [Hk Hpos] by done.
  generalize dependent (Z.to_nat BUFFER_SIZE). intros k **.
  destruct (Z.leb_spec (Z.min BUFFER_SIZE (Z.of_nat (length (rest g)))) 0) as [Hz0|Hz0].
  - assert (rest g = []) as Hnil by (apply length_zero_iff_nil; lia). rewrite Hnil in *.
    eexists _, _. split; [reflexivity|]. cbn [write_all length] in *. rewrite Heof in *. split; [lia|]. split; [done|]. by apply Herr.
  - assert (rest g <> []) as Hne by (intros Hnil; rewrite Hnil in Hz0; cbn in Hz0; lia).
    destruct (Z.eqb_spec (Z.min BUFFER_SIZE (Z.of_nat (length (rest g)))) BUFFER_SIZE) as [Hfull|Hfull].
    + destruct (IH g' (write o (take k (rest g)))) as (n & g2 & -> & Hn & He & Hz); [rewrite Hr, length_drop; lia|].
      rewrite Hc in Hz. eexists _, _. split; [|done]. do 2 f_equal. rewrite Hr. unfold write_all.
      destruct (drop k (rest g)) as [|c d] eqn:Ed.
      * rewrite <- (take_drop k (rest g)), Ed, app_nil_r in Hne |- *. rewrite take_take, Nat.min_id. by destruct (take k (rest g)).
      * rewrite write_app, <- Ed, take_drop. by destruct (rest g).
    + eexists (Z.min _ _), _. assert (Z.of_nat (length (rest g)) < BUFFER_SIZE) as Hlt by lia.
      split; [rewrite take_ge by lia; do 2 f_equal; unfold write_all; by destruct (rest g)|].
      rewrite Heof in *. split; [lia|]. split; [by apply Z.ltb_lt|by apply Herr, Z.ltb_lt].
Qed.

(** [Decompress] writes exactly the bytes zlib gives, in pieces of at most 8192, and reports
    success; one read more than the pieces is enough.  That the file ends in the middle of its
    compressed data changes neither: only [gzerror], which is not asked, knows. *)
Theorem Decompress_spec (fuel : nat) (g : gz) (o : ostream) :
  (length (rest g) < fuel * Z.to_nat BUFFER_SIZE)%nat ->
  exists g', Decompress fuel (Some g) o = Some (true, Some g', write_all o (rest g)) /\
    (gzerror (Some g')).2 = (if complete g then Z_OK else Z_BUF_ERROR).
Proof.
  intros Hf. destruct (Decompress_loop_spec fuel g o Hf) as (n & g' & E & Hn & He & Hz). exists g'. split; [|done].
  unfold Decompress. rewrite E, He. by rewrite (proj2 (Z.ltb_ge n 0) Hn).
Qed.

(** Without a file nothing is written, and that is an error without a message. *)
Lemma Decompress_null fuel o strerror errno :
  Decompress (S fuel) None o = Some (false, None, o) /\ ErrorMessage None strerror errno = [].
Proof. unfold Decompress, ErrorMessage. cbn [Decompress_loop]. by rewrite gzread_null, gzerror_null. Qed.

Lemma DecompressFile_spec fuel input_path output_path :
  (forall g, gzopen input_path = Some g -> (length (rest g) < fuel * Z.to_nat BUFFER_SIZE)%nat) ->
  DecompressFile fuel input_path output_path = Some
    match gzopen input_path, open_output output_path with
    | Some g, Some o => (true, Some (write_all o (rest g)))
    | _, _ => (false, None)
    end.
Proof.
  intros Hf. unfold DecompressFile. destruct (gzopen input_path) as [g|]; [|done]. destruct (open_output output_path) as [o|]; [|done].
  destruct (Decompress_loop_spec fuel g o (Hf g eq_refl)) as (n & g' & E & Hn & He & _).
  unfold Decompress. rewrite E, He. by rewrite (proj2 (Z.ltb_ge n 0) Hn).
Qed.

End Decompression.

(** *** A file in memory *)

(** The remaining bytes, whether a read came up short, and whether the compressed data is whole. *)
Record memory_gz := mkGz { mg_rest : str; mg_eof : bool; mg_complete : bool }.

#[export] Instance memory_zlib (files : str -> option memory_gz) : Zlib := {|
  gz := memory_gz;
  gzopen := files;
  gzread g n :=
    match g with
    | None => (-1, [], None)
    | Some g => (Z.min n (Z.of_nat (length (mg_rest g))), take (Z.to_nat n) (mg_rest g),
                 Some (mkGz (drop (Z.to_nat n) (mg_rest g)) (Z.of_nat (length (mg_rest g)) <? n) (mg_complete g)))
    end;
  gzeof g := match g with Some g => mg_eof g | None => false end;
  gzerror g := match g with
    | None => (None, Z_OK)
    | Some g => if mg_eof g && negb (mg_complete g) then (Some (lit "unexpected end of file"), Z_BUF_ERROR) else (Some [], Z_OK)
    end
|}.

#[export] Instance memory_zlib_laws files : @ZlibLaws (memory_zlib files) mg_rest mg_complete.
Proof.
  split; [| |done..].
  - intros g n Hn. eexists. split; [reflexivity|]. by split_and!.
  - intros g n g' r d Hn E He. cbn in *. rewrite He. by destruct (mg_complete g').
Qed.

(** A disk with [room] bytes left: what does not fit is lost. *)
#[export] Instance disk (room : nat) : Output := {|
  ostream := str;
  open_output _ := Some [];
  write o s := take room (o ++ s)
|}.

#[export] Instance disk_laws room : @OutputLaws (disk room).
Proof.
  intros o a b. cbn. rewrite (assoc_L (++)). generalize (o ++ a). clear o a. intros s.
  destruct (decide (room <= length s)%nat).
  - rewrite !take_app_le; [by rewrite take_take, Nat.min_id|lia|rewrite length_take; lia].
  - by rewrite (take_ge s) by lia.
Qed.

Lemma Decompress_spec_witness :
  let g := mkGz (lit "hello") false false in
  exists g', @Decompress (memory_zlib (fun _ => None)) (disk 3) 1 (Some g) [] = Some (true, Some g', lit "hel") /\ mg_eof g' = true.
Proof.
  destruct (@Decompress_spec (memory_zlib (fun _ => None)) (disk 3) _ _ _ _ 1 (mkGz (lit "hello") false false) []) as (g' & E & _);
    [apply Nat.ltb_lt; vm_compute; reflexivity|].
  exists g'. split; [exact E|]. vm_compute in E. injection E as <-. reflexivity.
Defined.
