(* ===== verification/OptionParser.v ===== *)
(** * The option parser

    The classes of [collector/lib/optionparser.h] that read the command line:
    [option::Option], [option::Stats] and [option::Parser] with its [workhorse].

    A [const char*] is a pointer [cptr] into one of the strings of the command line: the
    object and the characters up to the terminator; reading past the terminator or
    past an array is undefined and makes the function return [None].  Options live in a
    heap of nodes at even addresses, whose links carry a tag in their lowest bit.  The
    argument vector is an array that the parser permutes in place.  [reference] is a
    parser over the list of arguments without pointers and permutations; the theorems
    show that the code implements it, that an array of the size [Stats] determines is
    large enough, and which lists the links of the nodes form. *)

From S2P Require Import Prelude Containers Utility.
From stdpp Require Import gmap.

Open Scope Z_scope.
Open Scope collector_scope.

(** ** C strings *)

(** A pointer into string [p_obj]; [p_str] is what it points at, without the terminator. *)
Record cptr := mkPtr { p_obj : nat; p_str : str }.

#[export] Instance cptr_eq_dec : EqDecision cptr.
Proof. solve_decision. Defined.

(** [p[k]]. *)
Definition rd (p : cptr) (k : nat) : option ascii :=
  if (k =? length (p_str p))%nat then Some NUL else p_str p !! k.

(** [p + k], which may point at the terminator and not behind it. *)
Definition adv (p : cptr) (k : nat) : option cptr :=
  if (k <=? length (p_str p))%nat then Some (mkPtr (p_obj p) (drop k (p_str p))) else None.

(** The pointer reached by [while ( *p != 0 && *p != '=') ++p]. *)
Fixpoint to_equals (s : str) : str :=
  match s with
  | [] => []
  | c :: s' => if bool_decide (c = "="%char) then s else to_equals s'
  end.

Module Parser.

(** [Parser::streq]: [st1] is a name of the table, [st2] what the user typed. *)
Fixpoint streq (st1 st2 : str) : bool :=
  match st1, st2 with
  | [], [] => true
  | [], c :: _ => bool_decide (c = "="%char)
  | _ :: _, [] => false
  | a :: st1, b :: st2 => if bool_decide (a = b) then streq st1 st2 else false
  end.

(** [Parser::streqabbr]; [n] is [st1 - st1start]. *)
Fixpoint streqabbr_loop (st1 st2 : str) (n min : Z) : bool :=
  match st1, st2 with
  | a :: st1', b :: st2' =>
      if bool_decide (a = b) then streqabbr_loop st1' st2' (n + 1) min
      else ((0 <? min) && (min <=? n)) && bool_decide (b = "="%char)
  | [], [] => true
  | [], b :: _ => bool_decide (b = "="%char)
  | _ :: _, [] => (0 <? min) && (min <=? n)
  end.

Definition streqabbr (st1 st2 : str) (min : Z) : bool := streqabbr_loop st1 st2 0 min.

(** [Parser::instr]: the terminator is found in every string. *)
Fixpoint instr (ch : ascii) (st : str) : bool :=
  match st with
  | [] => bool_decide (NUL = ch)
  | c :: st => if bool_decide (c = ch) then true else instr ch st
  end.

(** [Parser::shift]: moves element [i] in front of the [count] elements before it. *)
Fixpoint shift {A} (args : list A) (i count : nat) {struct count} : option (list A) :=
  match count with
  | O => Some args
  | S count =>
      match i with
      | O => None
      | S j =>
          let! a := args !! i in
          let! b := args !! j in
          shift (<[j := a]> (<[i := b]> args)) j count
      end
  end.

End Parser.

(** ** Options and their links *)

(** What a [CheckArg] function returns. *)
Inductive ArgStatus : Set := ARG_NONE | ARG_OK | ARG_IGNORE | ARG_ILLEGAL.

#[export] Instance ArgStatus_eq_dec : EqDecision ArgStatus.
Proof. solve_decision. Defined.

(** The struct [Option]; [o_desc] is the position of its descriptor in the table. *)
Record Option := mkOption {
  next_ : Z; prev_ : Z; o_desc : option nat; o_name : option cptr; o_arg : option cptr; o_namelen : Z }.

(** [Option::tag], [Option::untag] and [Option::isTagged]: bit 0 of an address. *)
Definition tag (ptr : Z) : Z := Z.lor ptr 1.
Definition untag (ptr : Z) : Z := Z.land ptr (wnot 64 1).
Definition isTagged (ptr : Z) : bool := negb (Z.land ptr 1 =? 0).

Definition namelen_of (name : option cptr) : Z :=
  match name with
  | None => 0
  | Some p =>
      match p_str p with
      | c :: s => if bool_decide (c = "-"%char) then 1 + Z.of_nat (length s - length (to_equals s)) else 1
      | [] => 1
      end
  end.

(** [Option::init] of the node at address [this]. *)
Definition init (this : Z) (desc : option nat) (name arg : option cptr) : Option :=
  mkOption (tag this) (tag this) desc name arg (namelen_of name).

(** The default constructor. *)
Definition Option_ctor (this : Z) : Option := mkOption (tag this) (tag this) None None None 0.

Abbreviation heap := (gmap Z Option).

Definition set_next (h : heap) (a v : Z) : option heap :=
  let! o := h !! a in
  Some (<[a := mkOption v (prev_ o) (o_desc o) (o_name o) (o_arg o) (o_namelen o)]> h).

Definition set_prev (h : heap) (a v : Z) : option heap :=
  let! o := h !! a in
  Some (<[a := mkOption (next_ o) v (o_desc o) (o_name o) (o_arg o) (o_namelen o)]> h).

(** [operator=]: the links of the copy are those of a list of its own. *)
Definition assign (h : heap) (a : Z) (orig : Option) : option heap :=
  let! _ := h !! a in Some (<[a := init a (o_desc orig) (o_name orig) (o_arg orig)]> h).

Definition isFirst (h : heap) (p : Z) : option bool := let! o := h !! p in Some (isTagged (prev_ o)).
Definition isLast (h : heap) (p : Z) : option bool := let! o := h !! p in Some (isTagged (next_ o)).

Fixpoint first_loop (fuel : nat) (h : heap) (p : Z) : option Z :=
  match fuel with
  | O => None
  | S fuel =>
      let! o := h !! p in
      if isTagged (prev_ o) then Some p else first_loop fuel h (prev_ o)
  end.

(** [Option::first]: a list has at most as many nodes as the heap. *)
Definition first (h : heap) (this : Z) : option Z := first_loop (S (size h)) h this.

Definition prevwrap (h : heap) (p : Z) : option Z := let! o := h !! p in Some (untag (prev_ o)).
Definition nextwrap (h : heap) (p : Z) : option Z := let! o := h !! p in Some (untag (next_ o)).
Definition last (h : heap) (this : Z) : option Z := let! f := first h this in prevwrap h f.

(** [Option::prev] and [Option::next]: the null pointer is 0. *)
Definition prev (h : heap) (p : Z) : option Z :=
  let! o := h !! p in Some (if isTagged (prev_ o) then 0 else prev_ o).
Definition next (h : heap) (p : Z) : option Z :=
  let! o := h !! p in Some (if isTagged (next_ o) then 0 else next_ o).

(** [Option::append]. *)
Definition append (h : heap) (this new_last : Z) : option heap :=
  let! p := last h this in
  let! f := first h this in
  let! h := set_next h p new_last in
  let! h := set_prev h new_last p in
  let! h := set_next h new_last (tag f) in
  set_prev h f (tag new_last).

Fixpoint count_loop (fuel : nat) (h : heap) (p c : Z) : option Z :=
  match fuel with
  | O => None
  | S fuel =>
      let! o := h !! p in
      if isTagged (next_ o) then Some c else count_loop fuel h (next_ o) (c + 1)
  end.

(** [Option::count]. *)
Definition count (h : heap) (this : Z) : option Z :=
  let! o := h !! this in
  let! p := first h this in
  count_loop (S (size h)) h p (match o_desc o with None => 0 | Some _ => 1 end).

(** [operator Option*]: whether an element of an array has been filled. *)
Definition filled (o : Option) : bool := match o_desc o with None => false | Some _ => true end.

(** The indices, from [i] on, of the elements that satisfy a test. *)
Fixpoint matches {X} (P : X -> bool) (es : list X) (i : nat) : list nat :=
  match es with
  | [] => []
  | e :: es => if P e then i :: matches P es (S i) else matches P es (S i)
  end.

(** ** Descriptors *)

Section parser.
Context {St : Type}.

(** A check works on the state [St] of the program (the collector's checks store what they
    accept); the flag says whether messages are wanted. *)
Definition CheckArg : Type := St -> Option -> bool -> option (ArgStatus * St).

(** The struct [Descriptor]; [None] in [shortopt] and [longopt] ends the table, [None] in
    [help] ends a table of the usage text. *)
Record Descriptor := mkDescriptor {
  d_index : Z; d_type : Z; shortopt : option str; longopt : option str; check_arg : CheckArg; help : option str }.

(** [Option::type] and [Option::index]. *)
Definition type_ (usage : list Descriptor) (o : Option) : option Z :=
  match o_desc o with None => Some 0 | Some d => let! d := usage !! d in Some (d_type d) end.
Definition index (usage : list Descriptor) (o : Option) : option Z :=
  match o_desc o with None => Some (-1) | Some d => let! d := usage !! d in Some (to_signed 32 (d_index d)) end.

(** [Arg::None] and [Arg::Optional]. *)
Definition Arg_None : CheckArg := fun s _ _ => Some (ARG_NONE, s).
Definition Arg_Optional : CheckArg := fun s o _ =>
  match o_arg o with
  | None => Some (ARG_IGNORE, s)
  | Some _ =>
      let! name := o_name o in
      let! c := rd name (Z.to_nat (o_namelen o)) in
      Some (if is_nul c then ARG_IGNORE else ARG_OK, s)
  end.

(** ** Actions *)

(** [Parser::Action]: what the parser does with an option, and with the non-options
    (their number and where they start in the argument vector). *)
Record Action (A : Type) := mkAction {
  perform : A -> Option -> option (bool * A);
  finished : A -> Z -> nat -> bool * A }.

Arguments perform {A}.
Arguments finished {A}.

(** The members of the base class. *)
Definition Action_perform {A} (a : A) (_ : Option) : option (bool * A) := Some (true, a).
Definition Action_finished {A} (a : A) (_ : Z) (_ : nat) : bool * A := (true, a).

(** [Stats::CountOptionsAction]; the state is [buffer_max]. *)
Definition CountOptionsAction : Action Z := mkAction Z
  (fun buffer_max _ => Some (if buffer_max =? 0x7fffffff then (false, buffer_max) else (true, buffer_max + 1)))
  Action_finished.

(** The members of [Parser]; [nonop_args] is a position in the argument vector. *)
Record ParserState := mkParser { op_count : Z; nonop_count : Z; nonop_args : option nat; err : bool }.

Definition Parser_ctor : ParserState := mkParser 0 0 None false.

(** [sizeof(Option)], and the address of an element of an array of options. *)
Definition sizeof_Option : Z := 48.
Definition elem (base : Z) (i : Z) : Z := base + sizeof_Option * i.

Fixpoint empty_slot (fuel : nat) (h : heap) (buffer bufmax bufidx : Z) : option Z :=
  match fuel with
  | O => None
  | S fuel =>
      if (bufmax <? 0) || (bufidx <? bufmax) then
        let! o := h !! elem buffer bufidx in
        if filled o then empty_slot fuel h buffer bufmax (bufidx + 1) else Some bufidx
      else Some bufidx
  end.

(** The constructor of [Parser::StoreOptionAction]. *)
Definition StoreOptionAction_ctor (h : heap) (p : ParserState) (buffer bufmax : Z) : option ParserState :=
  let! bufidx := empty_slot (S (size h)) h buffer bufmax 0 in
  Some (mkParser bufidx (nonop_count p) (nonop_args p) (err p)).

(** [StoreOptionAction::perform]. *)
Definition store_perform (usage : list Descriptor) (options buffer bufmax : Z) (a : heap * ParserState) (option : Option)
    : Datatypes.option (bool * (heap * ParserState)) :=
  let '(h, p) := a in
  if (bufmax <? 0) || (op_count p <? bufmax) then
    if op_count p =? 0x7fffffff then Some (false, (h, p)) else
    let slot := elem buffer (op_count p) in
    let! h := assign h slot option in
    let! o := h !! slot in
    let! idx := index usage o in
    let! head := h !! elem options idx in
    let! h := if filled head then append h (elem options idx) slot else assign h (elem options idx) o in
    Some (true, (h, mkParser (op_count p + 1) (nonop_count p) (nonop_args p) (err p)))
  else Some (true, (h, p)).

(** [StoreOptionAction::finished]: the old list is kept when there is nothing new. *)
Definition store_finished (a : heap * ParserState) (numargs : Z) (args : nat) : bool * (heap * ParserState) :=
  let '(h, p) := a in
  (true, if 0 <? numargs then (h, mkParser (op_count p) numargs (Some args) (err p)) else (h, p)).

Definition StoreOptionAction (usage : list Descriptor) (options buffer bufmax : Z) : Action (heap * ParserState) :=
  mkAction _ (store_perform usage options buffer bufmax) store_finished.

(** ** The workhorse *)

(** The index reached by [while (!stop(usage[idx])) ++idx]; a table without an end is read past it. *)
Fixpoint scan (stop : Descriptor -> option bool) (usage : list Descriptor) (idx : nat) : option nat :=
  match usage with
  | [] => None
  | d :: usage =>
      let! b := stop d in
      if b : bool then Some idx else scan stop usage (S idx)
  end.

(** [while (usage[i].longopt != 0 && !eq(usage[i].longopt)) ++i], from [i] on. *)
Definition scan_long (eq : str -> bool) (usage : list Descriptor) (i : nat) : option nat :=
  scan (fun d => Some (match longopt d with None => true | Some l => eq l end)) (drop i usage) i.

Definition is_long (usage : list Descriptor) (i : nat) : option bool :=
  let! d := usage !! i in Some (match longopt d with None => false | Some _ => true end).

(** Lines 1566-1584: the exact name, or else an unambiguous abbreviation. *)
Definition find_long (usage : list Descriptor) (min_abbr_len : Z) (name : str) : option nat :=
  let! idx := scan_long (fun l => Parser.streq l name) usage 0 in
  let! found := is_long usage idx in
  if negb found && (0 <? min_abbr_len) then
    let! i1 := scan_long (fun l => Parser.streqabbr l name min_abbr_len) usage 0 in
    let! hit := is_long usage i1 in
    if hit : bool then
      let! i2 := scan_long (fun l => Parser.streqabbr l name min_abbr_len) usage (S i1) in
      let! second := is_long usage i2 in
      Some (if second : bool then idx else i1)
    else Some idx
  else Some idx.

(** Lines 1608-1610. *)
Definition find_short (usage : list Descriptor) (c : ascii) : option nat :=
  scan (fun d => Some (match shortopt d with None => true | Some s => Parser.instr c s end)) usage 0.

(** Lines 1624-1626: the entry with empty names. *)
Definition find_unknown (usage : list Descriptor) : option nat :=
  scan (fun d =>
    match shortopt d with
    | None => Some true
    | Some (_ :: _) => Some false
    | Some [] => match longopt d with None => None | Some [] => Some true | Some (_ :: _) => Some false end
    end) usage 0.

(** Lines 1619-1628. *)
Definition descriptor_of (usage : list Descriptor) (idx : nat) : option (option nat) :=
  let! d := usage !! idx in
  match shortopt d with
  | Some _ => Some (Some idx)
  | None =>
      let! u := find_unknown usage in
      let! d := usage !! u in
      Some (match shortopt d with None => None | Some _ => Some u end)
  end.

(** The settings of a call. *)
Record config := mkConfig { gnu : bool; min_abbr_len : Z; single_minus_longopt : bool; print_errors : bool }.

(** The local variables: the argument vector, where [args] points into it, [numargs],
    [nonops], the state of the checks and that of the action. *)
Record wstate (A : Type) := mkW {
  w_argv : list (option cptr); w_args : nat; w_num : Z; w_nonops : nat; w_chk : St; w_act : A }.

Arguments mkW {A}.
Arguments w_argv {A}.
Arguments w_args {A}.
Arguments w_num {A}.
Arguments w_nonops {A}.
Arguments w_chk {A}.
Arguments w_act {A}.

Section workhorse.
Context {A : Type} (act : Action A) (cfg : config) (usage : list Descriptor).

(** [++args; if (numargs > 0) --numargs;] *)
Definition advance (w : wstate A) : wstate A :=
  mkW (w_argv w) (S (w_args w)) (if 0 <? w_num w then w_num w - 1 else w_num w) (w_nonops w) (w_chk w) (w_act w).

(** [shift(args, nonops)] and [advance]. *)
Definition shift_advance (w : wstate A) : option (wstate A) :=
  let! argv := Parser.shift (w_argv w) (w_args w) (w_nonops w) in
  Some (advance (mkW argv (w_args w) (w_num w) (w_nonops w) (w_chk w) (w_act w))).

(** [have_more_args ? args[1] : 0]. *)
Definition next_arg (w : wstate A) (have_more_args : bool) : option (option cptr) :=
  if have_more_args then w_argv w !! S (w_args w) else Some None.

(** Lines 1592-1599. *)
Definition long_arg (w : wstate A) (have_more_args : bool) (name : cptr) : option (option cptr) :=
  match to_equals (p_str name) with
  | [] => next_arg w have_more_args
  | _ :: s => Some (Some (mkPtr (p_obj name) s))
  end.

(** Lines 1619-1659: [inl] is [return false], [inr] goes on with the flag [handle_short_options]. *)
Definition handle (w : wstate A) (have_more_args : bool) (idx : nat) (param : cptr) (optarg : option cptr) (short : bool)
    : option (wstate A + wstate A * bool) :=
  let! descriptor := descriptor_of usage idx in
  match descriptor with
  | None => Some (inr (w, short))
  | Some d =>
      let! desc := usage !! d in
      let option := init 0 (Some d) (Some param) optarg in
      let! (status, s) := check_arg desc (w_chk w) option (print_errors cfg) in
      let w := mkW (w_argv w) (w_args w) (w_num w) (w_nonops w) s (w_act w) in
      let performed (w : wstate A) (option : Option) (short : bool) : Datatypes.option (wstate A + wstate A * bool) :=
        let! (ok, a) := perform act (w_act w) option in
        let w := mkW (w_argv w) (w_args w) (w_num w) (w_nonops w) (w_chk w) a in
        Some (if ok : bool then inr (w, short) else inl w) in
      match status with
      | ARG_ILLEGAL => Some (inl w)
      | ARG_OK =>
          let! separate :=
            (match optarg with
             | None => Some false
             | Some p => if have_more_args then let! n := w_argv w !! S (w_args w) in Some (bool_decide (n = Some p)) else Some false
             end : Datatypes.option bool) in
          let! w := if separate : bool then shift_advance w else Some w in
          performed w option false
      | ARG_IGNORE | ARG_NONE =>
          performed w (mkOption (next_ option) (prev_ option) (o_desc option) (o_name option) None (o_namelen option)) short
      end
  end.

(** Lines 1557-1661, the loop over a group of short options; a long option goes round once. *)
Fixpoint group (fuel : nat) (w : wstate A) (have_more_args : bool) (param name : cptr) (short try_long : bool)
    : option (wstate A + wstate A) :=
  match fuel with
  | O => None
  | S fuel =>
      let! (idx, optarg, short) :=
        if negb short || try_long then
          let! idx := find_long usage (min_abbr_len cfg) (p_str name) in
          let! found := is_long usage idx in
          let! optarg := long_arg w have_more_args name in
          Some (idx, optarg, if found : bool then false else short)
        else Some (O, None, short) in
      let! r :=
        if short : bool then
          let! param := adv param 1 in
          let! c := rd param 0 in
          if is_nul c then Some None else
          let! idx := find_short usage c in
          let! c1 := rd param 1 in
          let! optarg := if is_nul c1 then next_arg w have_more_args else let! p := adv param 1 in Some (Some p) in
          Some (Some (idx, param, optarg))
        else Some (Some (idx, param, optarg)) in
      match r with
      | None => Some (inr w)
      | Some (idx, param, optarg) =>
          let! res := handle w have_more_args idx param optarg short in
          match res with
          | inl w => Some (inl w)
          | inr (w, true) => group fuel w have_more_args param name true false
          | inr (w, false) => Some (inr w)
          end
      end
  end.

(** What an iteration of the outer loop does: it returns [false], ends the loop or goes on. *)
Inductive iteration := Fatal (w : wstate A) | Break (w : wstate A) | Continue (w : wstate A).

(** Lines 1513-1666. *)
Definition iterate (w : wstate A) (param : cptr) : option iteration :=
  let! c0 := rd param 0 in
  let! plain := if bool_decide (c0 = "-"%char) then let! c1 := rd param 1 in Some (is_nul c1) else Some true in
  if plain : bool then
    Some (if gnu cfg
          then Continue (advance (mkW (w_argv w) (w_args w) (w_num w) (S (w_nonops w)) (w_chk w) (w_act w)))
          else Break w)
  else
  let! c1 := rd param 1 in
  let dashes := bool_decide (c1 = "-"%char) in
  let! ends := if dashes then let! c2 := rd param 2 in Some (is_nul c2) else Some false in
  if ends : bool then let! w := shift_advance w in Some (Break w) else
  let! name := adv param (if dashes then 2%nat else 1%nat) in
  let have_more_args := (1 <? w_num w) || (w_num w <? 0) in
  let! r := group (S (length (p_str param))) w have_more_args param name (negb dashes) (single_minus_longopt cfg) in
  match r with
  | inl w => Some (Fatal w)
  | inr w => let! w := shift_advance w in Some (Continue w)
  end.

(** Lines 1511-1668; [inl] is [return false]. *)
Fixpoint loop (fuel : nat) (w : wstate A) : option (wstate A + wstate A) :=
  match fuel with
  | O => None
  | S fuel =>
      if w_num w =? 0 then Some (inr w) else
      let! a := w_argv w !! w_args w in
      match a with
      | None => Some (inr w)
      | Some param =>
          let! i := iterate w param in
          match i with
          | Fatal w => Some (inl w)
          | Break w => Some (inr w)
          | Continue w => loop fuel w
          end
      end
  end.

(** Lines 1675-1677: the distance to the null pointer. *)
Fixpoint count_args (args : list (option cptr)) (n : Z) : option Z :=
  match args with
  | [] => None
  | None :: _ => Some n
  | Some _ :: args => count_args args (n + 1)
  end.

(** Lines 1670-1680. *)
Definition finish (w : wstate A) : option (bool * wstate A) :=
  let! num :=
    if 0 <? w_num w then let! a := w_argv w !! w_args w in Some (match a with None => 0 | Some _ => w_num w end)
    else Some (w_num w) in
  let! num := if num <? 0 then count_args (drop (w_args w) (w_argv w)) 0 else Some num in
  let '(ok, a) := finished act (w_act w) (num + Z.of_nat (w_nonops w)) (w_args w - w_nonops w)%nat in
  Some (ok, mkW (w_argv w) (w_args w) num (w_nonops w) (w_chk w) a).

(** [Parser::workhorse]; a null [argv] is [None]. *)
Definition workhorse (numargs : Z) (argv : option (list (option cptr))) (s : St) (a : A) : option (bool * wstate A) :=
  let w := match argv with
           | None => mkW [] 0 0 0 s a
           | Some argv => mkW argv 0 numargs 0 s a
           end in
  let! r := loop (S (length (w_argv w))) w in
  match r with
  | inl w => Some (false, w)
  | inr w => finish w
  end.

End workhorse.

(** ** The parsers' entry points *)

(** [Stats] and its constructors; the constructors without [gnu] pass [false]. *)
Record Stats := mkStats { buffer_max : Z; options_max : Z }.

Definition Stats_ctor : Stats := mkStats 1 1.

(** The loop of [Stats::add] over the table; unsigned arithmetic. *)
Fixpoint max_index (usage : list Descriptor) (options_max : Z) : option Z :=
  match usage with
  | [] => None
  | d :: usage =>
      match shortopt d with
      | None => Some options_max
      | Some _ =>
          let n := wrap 32 (d_index d + 1) in
          max_index usage (if options_max <=? n then wrap 32 (n + 1) else options_max)
      end
  end.

(** [Stats::add]; the result of the parser is ignored. *)
Definition Stats_add (st : Stats) (gnu : bool) (usage : list Descriptor) (argc : Z) (argv : option (list (option cptr)))
    (min_abbr_len : Z) (single_minus_longopt : bool) (s : St) : option (Stats * wstate Z) :=
  let! om := max_index usage (options_max st) in
  let! (_, w) := workhorse CountOptionsAction (mkConfig gnu min_abbr_len single_minus_longopt false) usage argc argv s (buffer_max st) in
  Some (mkStats (w_act w) om, w).

Definition Stats_of (gnu : bool) (usage : list Descriptor) (argc : Z) (argv : option (list (option cptr)))
    (min_abbr_len : Z) (single_minus_longopt : bool) (s : St) : option (Stats * wstate Z) :=
  Stats_add Stats_ctor gnu usage argc argv min_abbr_len single_minus_longopt s.

(** [Parser::parse] on arrays of options that start at [options] and [buffer]. *)
Definition parse (p : ParserState) (gnu : bool) (usage : list Descriptor) (argc : Z) (argv : option (list (option cptr)))
    (h : heap) (options buffer : Z) (min_abbr_len : Z) (single_minus_longopt : bool) (bufmax : Z) (s : St)
    : option (ParserState * heap * wstate (heap * ParserState)) :=
  let! p := StoreOptionAction_ctor h p buffer bufmax in
  let! (ok, w) := workhorse (StoreOptionAction usage options buffer bufmax)
                    (mkConfig gnu min_abbr_len single_minus_longopt true) usage argc argv s (h, p) in
  let '(h, p) := w_act w in
  Some (mkParser (op_count p) (nonop_count p) (nonop_args p) (negb ok), h, w).

(** The constructors of [Parser] that parse. *)
Definition Parser_of (gnu : bool) (usage : list Descriptor) (argc : Z) (argv : option (list (option cptr)))
    (h : heap) (options buffer : Z) (min_abbr_len : Z) (single_minus_longopt : bool) (bufmax : Z) (s : St)
    : option (ParserState * heap * wstate (heap * ParserState)) :=
  parse Parser_ctor gnu usage argc argv h options buffer min_abbr_len single_minus_longopt bufmax s.

(** The accessors of [Parser]. *)
Definition optionsCount (p : ParserState) : Z := op_count p.
Definition nonOptionsCount (p : ParserState) : Z := nonop_count p.
Definition nonOptions (p : ParserState) : option nat := nonop_args p.
Definition nonOption (p : ParserState) (argv : list (option cptr)) (i : nat) : option (option cptr) :=
  let! start := nonop_args p in argv !! (start + i)%nat.
Definition error (p : ParserState) : bool := err p.

(** Arrays of default-constructed options. *)
Definition array (base n : Z) : heap :=
  list_to_map (map (fun i => let a := elem base (Z.of_nat i) in (a, Option_ctor a)) (seq 0 (Z.to_nat n))).

(** ** The reference parser *)

(** The entries of a table: both names are given, and an entry without names ends it. *)
Definition entry (d : Descriptor) : Prop := is_Some (shortopt d) /\ is_Some (longopt d).

Definition short_name (d : Descriptor) : str := default [] (shortopt d).
Definition long_name (d : Descriptor) : str := default [] (longopt d).

Definition usage_ok (es usage : list Descriptor) : Prop :=
  Forall entry es /\ exists d rest, usage = es ++ d :: rest /\ shortopt d = None /\ longopt d = None.

Section reference.
Context {A : Type} (act : Action A) (cfg : config) (usage es : list Descriptor).

(** A name that is spelled out wins, else an abbreviation that fits one name only. *)
Definition ref_long (name : str) : option nat :=
  match matches (fun d => Parser.streq (long_name d) name) es 0 with
  | d :: _ => Some d
  | [] =>
      if 0 <? min_abbr_len cfg then
        match matches (fun d => Parser.streqabbr (long_name d) name (min_abbr_len cfg)) es 0 with
        | [d] => Some d
        | _ => None
        end
      else None
  end.

Definition ref_short (c : ascii) : option nat := head (matches (fun d => Parser.instr c (short_name d)) es 0).

Definition ref_unknown : option nat :=
  head (matches (fun d => bool_decide (short_name d = []) && bool_decide (long_name d = [])) es 0).

(** The option's own descriptor, or that of unknown options. *)
Definition target (d : option nat) : option nat := match d with Some d => Some d | None => ref_unknown end.

(** An option is checked and handed to the action: [None] ends the parse with an error,
    otherwise the flag says whether its argument was accepted. *)
Definition visit (x : St * A) (d : nat) (name : cptr) (arg : option cptr) : option (option bool * (St * A)) :=
  let! desc := usage !! d in
  let! (status, s) := check_arg desc x.1 (init 0 (Some d) (Some name) arg) (print_errors cfg) in
  match status with
  | ARG_ILLEGAL => Some (None, (s, x.2))
  | ARG_OK =>
      let! (ok, a) := perform act x.2 (init 0 (Some d) (Some name) arg) in
      Some (if ok : bool then Some true else None, (s, a))
  | ARG_IGNORE | ARG_NONE =>
      let! (ok, a) := perform act x.2 (init 0 (Some d) (Some name) None) in
      Some (if ok : bool then Some false else None, (s, a))
  end.

(** A group of short options; the flag of the result says that [next] was its argument. *)
Fixpoint ref_group (obj : nat) (cs : str) (next : option cptr) (x : St * A) : option (option bool * (St * A)) :=
  match cs with
  | [] => Some (Some false, x)
  | c :: rest =>
      match target (ref_short c) with
      | None => ref_group obj rest next x
      | Some d =>
          let arg := match rest with [] => next | _ => Some (mkPtr obj rest) end in
          let! (v, x) := visit x d (mkPtr obj cs) arg in
          match v with
          | None => Some (None, x)
          | Some true => Some (Some (bool_decide (rest = []) && bool_decide (is_Some next)), x)
          | Some false => ref_group obj rest next x
          end
      end
  end.

(** A long option, whose argument follows an equals sign or is [next]. *)
Definition ref_option (p : cptr) (name : str) (d : option nat) (next : option cptr) (x : St * A) : option (option bool * (St * A)) :=
  match d with
  | None => Some (Some false, x)
  | Some d =>
      let arg := match to_equals name with [] => next | _ :: s => Some (mkPtr (p_obj p) s) end in
      let! (v, x) := visit x d p arg in
      Some (match v with
            | Some true => Some (bool_decide (to_equals name = []) && bool_decide (is_Some next))
            | v => v
            end, x)
  end.

Definition ref_token (p : cptr) (next : option cptr) (x : St * A) : option (option bool * (St * A)) :=
  match p_str p with
  | _ :: (c :: rest) as name =>
      if bool_decide (c = "-"%char) then ref_option p rest (target (ref_long rest)) next x
      else match (if single_minus_longopt cfg then ref_long name else None) with
           | Some d => ref_option p name (Some d) next x
           | None => ref_group (p_obj p) name next x
           end
  | _ => None
  end.

(** Arguments that are no options, a lone minus among them, and the end of the options. *)
Definition is_plain (s : str) : bool :=
  match s with c :: _ :: _ => negb (bool_decide (c = "-"%char)) | _ => true end.
Definition is_end (s : str) : bool := bool_decide (s = lit "--").

(** The outcome: success, the arguments that belong to options, the others, and the state. *)
Definition outcome : Type := bool * list cptr * list cptr * (St * A).

Definition consumed (ps : list cptr) (r : option outcome) : option outcome :=
  let! (r, x) := r in Some (let '(ok, opts, rest) := r in (ok, ps ++ opts, rest), x).

Definition skipped (p : cptr) (r : option outcome) : option outcome :=
  let! (r, x) := r in Some (let '(ok, opts, rest) := r in (ok, opts, p :: rest), x).

Fixpoint reference (toks : list cptr) (x : St * A) : option outcome :=
  match toks with
  | [] => Some (true, [], [], x)
  | p :: rest =>
      if is_plain (p_str p) then
        if gnu cfg then skipped p (reference rest x)
        else Some (true, [], p :: rest, x)
      else if is_end (p_str p) then Some (true, [p], rest, x)
      else
        let! (v, x) := ref_token p (head rest) x in
        match v, rest with
        | None, _ => Some (false, [], [], x)
        | Some true, q :: rest => consumed [p; q] (reference rest x)
        | Some _, _ => consumed [p] (reference rest x)
        end
  end.

End reference.

(** ** Lookups in the table *)

Lemma scan_matches P stop es d rest i :
  (forall e, e ∈ es -> stop e = Some (P e)) -> stop d = Some true ->
  scan stop (es ++ d :: rest) i = Some (default (i + length es)%nat (head (matches P es i))).
Proof.
  intros Hes Hd. revert i. induction es as [|e es IH]; intros i; cbn [app scan matches].
  - rewrite Hd. cbn. by rewrite Nat.add_0_r.
  - rewrite Hes by set_solver. destruct (P e) eqn:HP; [done|].
    rewrite IH by (intros; apply Hes; set_solver). cbn. f_equal. f_equal. lia.
Qed.

Lemma matches_cons {X} (P : X -> bool) es i d l :
  matches P es i = d :: l ->
  (i <= d < i + length es)%nat /\ l = matches P (drop (S (d - i)) es) (S d).
Proof.
  revert i. induction es as [|e es IH]; intros i; cbn [matches]; [done|].
  destruct (P e) eqn:HP.
  - intros [= <- <-]. rewrite Nat.sub_diag. cbn. split; [lia|done].
  - intros H. destruct (IH (S i) H) as [Hd ->]. cbn [length]. split; [lia|].
    replace (S (d - i)) with (S (S (d - S i))) by lia. done.
Qed.

Lemma matches_head {X} (P : X -> bool) es i d : head (matches P es i) = Some d -> (i <= d < i + length es)%nat.
Proof.
  destruct (matches P es i) eqn:E; [done|]. intros [= ->]. by apply matches_cons in E as [? _].
Qed.

Section table.
Context (es usage : list Descriptor) (Husage : usage_ok es usage).

Lemma usage_entry i : (i < length es)%nat -> exists d, usage !! i = Some d /\ entry d.
Proof.
  intros Hi. destruct Husage as [Hes (d & rest & -> & _)].
  destruct (lookup_lt_is_Some_2 es i Hi) as [e He].
  exists e. split; [by apply lookup_app_l_Some|]. by eapply Forall_lookup_1.
Qed.

Lemma usage_end : exists d, usage !! length es = Some d /\ shortopt d = None /\ longopt d = None.
Proof.
  destruct Husage as [Hes (d & rest & -> & Hs & Hl)]. exists d.
  rewrite lookup_app_r, Nat.sub_diag by lia. done.
Qed.

Lemma is_long_spec i : (i <= length es)%nat -> is_long usage i = Some (i <? length es)%nat.
Proof.
  intros Hi. unfold is_long. destruct (Nat.ltb_spec i (length es)).
  - destruct (usage_entry i) as (d & -> & [_ [l Hl]]); [done|]. by rewrite Hl.
  - replace i with (length es) by lia. destruct usage_end as (d & -> & _ & ->). done.
Qed.

Lemma scan_long_spec eq i :
  (i <= length es)%nat ->
  scan_long eq usage i = Some (default (length es) (head (matches (fun d => eq (long_name d)) (drop i es) i))).
Proof.
  intros Hi. destruct Husage as [Hes (d & rest & -> & Hs & Hl)]. unfold scan_long.
  rewrite drop_app_le by done.
  rewrite (scan_matches (fun d => eq (long_name d))).
  - rewrite length_drop. by replace (i + (length es - i))%nat with (length es) by lia.
  - intros e He. assert (entry e) as [_ [l El]].
    { rewrite Forall_forall in Hes. apply Hes. apply list_elem_of_lookup in He as [k Hk].
      rewrite lookup_drop in Hk. by eapply list_elem_of_lookup_2. }
    unfold long_name. by rewrite El.
  - by rewrite Hl.
Qed.

Lemma find_long_spec cfg name :
  find_long usage (min_abbr_len cfg) name = Some (default (length es) (ref_long cfg es name)) /\
  (forall d, ref_long cfg es name = Some d -> (d < length es)%nat).
Proof.
  unfold find_long, ref_long. rewrite scan_long_spec by lia. rewrite drop_0.
  destruct (matches _ es 0) as [|d l] eqn:E; cbn [head from_option id].
  2: { apply matches_cons in E as [Hd _]. rewrite is_long_spec by lia.
       replace (d <? length es)%nat with true by (symmetry; apply Nat.ltb_lt; lia).
       split; [done|]. intros ? [= <-]. lia. }
  clear E. rewrite is_long_spec, Nat.ltb_irrefl by lia. cbn [negb andb id].
  destruct (0 <? min_abbr_len cfg); [|done].
  rewrite scan_long_spec by lia. rewrite drop_0.
  destruct (matches _ es 0) as [|d l] eqn:E2; cbn [head from_option id].
  { rewrite is_long_spec, Nat.ltb_irrefl by lia. done. }
  apply matches_cons in E2 as [Hd ->]. rewrite is_long_spec by lia.
  replace (d <? length es)%nat with true by (symmetry; apply Nat.ltb_lt; lia).
  rewrite scan_long_spec by lia. rewrite Nat.sub_0_r.
  destruct (matches _ (drop (S d) es) (S d)) as [|d2 l2] eqn:E3; cbn [head from_option id].
  - rewrite is_long_spec, Nat.ltb_irrefl by lia. split; [done|]. intros ? [= <-]. lia.
  - apply matches_cons in E3 as [Hd2 _]. rewrite length_drop in Hd2.
    rewrite is_long_spec by lia.
    replace (d2 <? length es)%nat with true by (symmetry; apply Nat.ltb_lt; lia). done.
Qed.

Lemma find_short_spec c :
  find_short usage c = Some (default (length es) (ref_short es c)) /\
  (forall d, ref_short es c = Some d -> (d < length es)%nat).
Proof.
  unfold find_short, ref_short. split; [|intros d H%matches_head; lia].
  destruct Husage as [Hes (d & rest & -> & Hs & Hl)].
  rewrite (scan_matches (fun d => Parser.instr c (short_name d))); [done| |by rewrite Hs].
  intros e He. rewrite Forall_forall in Hes. destruct (Hes _ He) as [[l El] _].
  unfold short_name. by rewrite El.
Qed.

Lemma find_unknown_spec :
  find_unknown usage = Some (default (length es) (ref_unknown es)) /\
  (forall d, ref_unknown es = Some d -> (d < length es)%nat).
Proof.
  unfold find_unknown, ref_unknown. split; [|intros d H%matches_head; lia].
  destruct Husage as [Hes (d & rest & -> & Hs & Hl)].
  rewrite (scan_matches (fun d => bool_decide (short_name d = []) && bool_decide (long_name d = []))); [done| |by rewrite Hs].
  intros e He. rewrite Forall_forall in Hes. destruct (Hes _ He) as [[l El] [l' El']].
  unfold short_name, long_name. rewrite El, El'. destruct l, l'; done.
Qed.

Lemma target_lt d0 d :
  (forall d, d0 = Some d -> (d < length es)%nat) -> target es d0 = Some d -> (d < length es)%nat.
Proof. destruct d0; cbn; [by intros H [= <-]; apply H|]. intros _. apply find_unknown_spec. Qed.

Lemma descriptor_of_spec o :
  (forall d, o = Some d -> (d < length es)%nat) ->
  descriptor_of usage (default (length es) o) = Some (target es o).
Proof.
  intros Ho. unfold descriptor_of. destruct o as [d|]; cbn [from_option id target].
  - destruct (usage_entry d) as (e & -> & [[s Es] _]); [by apply Ho|]. by rewrite Es.
  - destruct usage_end as (e & -> & -> & _).
    destruct find_unknown_spec as [-> Hu]. destruct (ref_unknown es) as [u|]; cbn [from_option id].
    + destruct (usage_entry u) as (e' & He & [[s Es] _]); [by apply Hu|]. by rewrite He, Es.
    + destruct usage_end as (e' & -> & -> & _). done.
Qed.

End table.

(** ** The array in place *)

Lemma shift_spec {X} (l1 ns l2 : list X) x :
  Parser.shift (l1 ++ ns ++ x :: l2) (length l1 + length ns) (length ns) = Some (l1 ++ x :: ns ++ l2).
Proof.
  revert l2. induction ns as [|n ns IH] using rev_ind; intros l2; [done|].
  rewrite length_app. cbn [length]. rewrite Nat.add_1_r, Nat.add_succ_r.
  cbn [Parser.shift].
  replace (l1 ++ (ns ++ [n]) ++ x :: l2) with ((l1 ++ ns) ++ n :: x :: l2) by (by rewrite <- !app_assoc).
  rewrite <- length_app.
  rewrite !lookup_app_r, Nat.sub_diag by lia.
  replace (S (length (l1 ++ ns)) - length (l1 ++ ns))%nat with 1%nat by lia. cbn [lookup list_lookup].
  rewrite insert_app_r_alt by lia.
  replace (S (length (l1 ++ ns)) - length (l1 ++ ns))%nat with 1%nat by lia.
  rewrite insert_app_r_alt, Nat.sub_diag by lia. cbn [insert list_insert].
  rewrite length_app, <- app_assoc, IH. by rewrite <- app_assoc.
Qed.

(** The state of the loop: the options so far, the non-options in front of [args], the
    arguments to come and the end of the vector. *)
Definition at_ {A} (opts ns toks : list cptr) (tail : list (option cptr)) (num : Z) (x : St * A) : wstate A :=
  mkW (map Some (opts ++ ns ++ toks) ++ tail) (length opts + length ns) num (length ns) x.1 x.2.

(** What [numargs] may be: the number of arguments, or negative when a null pointer ends the vector. *)
Definition num_ok (num : Z) (toks : list cptr) (tail : list (option cptr)) : Prop :=
  num = Z.of_nat (length toks) \/
  (num < 0 /\ exists t, tail = None :: t).

Definition dec (num : Z) : Z := if 0 <? num then num - 1 else num.

Lemma num_ok_dec num p toks tail : num_ok num (p :: toks) tail -> num_ok (dec num) toks tail.
Proof.
  unfold num_ok, dec. cbn [length]. intros [H|[H Ht]]; destruct (Z.ltb_spec 0 num).
  - left. lia.
  - lia.
  - right. split; [lia|done].
  - right. split; [lia|done].
Qed.

Lemma num_ok_nz num p toks tail : num_ok num (p :: toks) tail -> (num =? 0) = false.
Proof. unfold num_ok. cbn [length]. intros H. apply Z.eqb_neq. lia. Qed.

Definition have_more (num : Z) : bool := (1 <? num) || (num <? 0).

Lemma at_lookup {A} opts ns toks tail num (x : St * A) k :
  w_argv (at_ opts ns toks tail num x) !! (length opts + length ns + k)%nat = (map Some toks ++ tail) !! k.
Proof.
  unfold at_. cbn [w_argv]. rewrite app_assoc, map_app, <- app_assoc.
  rewrite lookup_app_r by (rewrite length_map, length_app; lia).
  rewrite length_map, length_app. f_equal. lia.
Qed.

Lemma next_lookup {A} opts ns p toks tail num (x : St * A) :
  num_ok num (p :: toks) tail -> have_more num = true ->
  w_argv (at_ opts ns (p :: toks) tail num x) !! S (length opts + length ns) = Some (head toks).
Proof.
  intros Hn Hm. rewrite <- Nat.add_1_r, at_lookup. cbn [map app lookup list_lookup].
  destruct toks as [|q toks]; [|done]. cbn [map app head].
  unfold num_ok, have_more in *. cbn [length] in Hn. destruct Hn as [->|[_ [t ->]]]; [|done].
  done.
Qed.

Lemma next_arg_spec {A} opts ns p toks tail num (x : St * A) :
  num_ok num (p :: toks) tail ->
  next_arg (at_ opts ns (p :: toks) tail num x) (have_more num) = Some (head toks).
Proof.
  intros Hn. unfold next_arg. destruct (have_more num) eqn:Hm; [by apply next_lookup|].
  unfold num_ok, have_more in *. cbn [length] in Hn. b2p.
  destruct toks; [done|]. cbn [length] in Hn. lia.
Qed.

Lemma shift_advance_spec {A} opts ns p toks tail num (x : St * A) :
  shift_advance (at_ opts ns (p :: toks) tail num x) = Some (at_ (opts ++ [p]) ns toks tail (dec num) x).
Proof.
  unfold shift_advance, at_. cbn [w_argv w_args w_nonops w_num w_chk w_act].
  rewrite !map_app. cbn [map]. rewrite <- !app_assoc. cbn [app].
  rewrite <- (length_map Some opts), <- (length_map Some ns), shift_spec.
  unfold advance. cbn [w_argv w_args w_nonops w_num w_chk w_act]. rewrite !length_map, length_app. cbn [length].
  f_equal. f_equal. lia.
Qed.

Lemma skip_spec {A} opts ns p toks tail num (x : St * A) :
  advance (mkW (w_argv (at_ opts ns (p :: toks) tail num x)) (length opts + length ns) num (S (length ns)) x.1 x.2)
  = at_ opts (ns ++ [p]) toks tail (dec num) x.
Proof.
  unfold advance, at_. cbn. f_equal; [|rewrite !length_app; cbn; lia..].
  by rewrite <- !app_assoc.
Qed.

(** ** One option *)

Definition tok_ok (p : cptr) : Prop := Forall (fun c => c <> NUL) (p_str p).

(** No two arguments overlap. *)
Definition separate (toks : list cptr) : Prop := NoDup (map p_obj toks).

Lemma not_next p toks s : separate (p :: toks) -> head toks <> Some (mkPtr (p_obj p) s).
Proof.
  unfold separate. cbn. intros [Hn _]%NoDup_cons Hh. apply Hn.
  destruct toks as [|q toks]; [done|]. cbn in *. injection Hh as ->. set_solver.
Qed.

Section refinement.
Context {A : Type} (act : Action A) (cfg : config) (es usage : list Descriptor) (Husage : usage_ok es usage).

(** The state after an option: [took] says that the next argument went with it. *)
Definition after (opts ns : list cptr) (p : cptr) (toks : list cptr) (tail : list (option cptr)) (num : Z)
    (took : bool) (x : St * A) : wstate A :=
  match took, toks with
  | true, q :: toks => at_ (opts ++ [p]) ns (q :: toks) tail (dec num) x
  | _, _ => at_ opts ns (p :: toks) tail num x
  end.

(** A parse that failed has permuted the vector at most. *)
Definition failed {B} (argv : list (option cptr)) (x : St * A) (r : option (wstate A + B)) : Prop :=
  exists w, r = Some (inl w) /\ w_chk w = x.1 /\ w_act w = x.2 /\ w_argv w ≡ₚ argv.

Definition vector (opts ns toks : list cptr) (tail : list (option cptr)) : list (option cptr) :=
  map Some (opts ++ ns ++ toks) ++ tail.

Lemma vector_move opts ns p toks tail : vector (opts ++ [p]) ns toks tail ≡ₚ vector opts ns (p :: toks) tail.
Proof.
  unfold vector. apply Permutation_app_tail, Permutation_map. rewrite <- app_assoc.
  apply Permutation_app_head. cbn. by apply Permutation_middle.
Qed.

Lemma after_vector opts ns p toks tail num took x :
  w_argv (after opts ns p toks tail num took x) ≡ₚ vector opts ns (p :: toks) tail.
Proof. destruct took, toks; cbn; try done. apply vector_move. Qed.

(** [detached]: the argument is the next element of the vector, if there is one. *)
Lemma handle_spec opts ns p toks tail num x o param optarg short (detached : bool) :
  num_ok num (p :: toks) tail -> separate (p :: toks) ->
  (forall d, o = Some d -> (d < length es)%nat) ->
  (if detached then optarg = head toks else exists s, optarg = Some (mkPtr (p_obj p) s)) ->
  let r := handle act cfg usage (at_ opts ns (p :: toks) tail num x) (have_more num) (default (length es) o) param optarg short in
  match target es o with
  | None => r = Some (inr (at_ opts ns (p :: toks) tail num x, short))
  | Some d =>
      match visit act cfg usage x d param optarg with
      | None => r = None
      | Some (None, x) => failed (vector opts ns (p :: toks) tail) x r
      | Some (Some true, x) =>
          r = Some (inr (after opts ns p toks tail num (detached && bool_decide (is_Some (head toks))) x, false))
      | Some (Some false, x) => r = Some (inr (at_ opts ns (p :: toks) tail num x, short))
      end
  end.
Proof.
  intros Hn Hsep Ho Harg r. subst r. unfold handle. rewrite descriptor_of_spec by done.
  destruct (target es o) as [d|] eqn:Ed; [|done].
  unfold visit. destruct (usage !! d) as [desc|]; [|done].
  change (w_chk (at_ opts ns (p :: toks) tail num x)) with x.1.
  destruct (check_arg desc x.1 _ _) as [[status s]|]; [|done].
  set (w := mkW _ _ _ _ s _).
  assert (w = at_ opts ns (p :: toks) tail num (s, x.2)) as -> by done.
  destruct status.
  - change (w_act _) with x.2. unfold init. cbn [next_ prev_ o_desc o_name o_namelen].
    destruct (perform act x.2 _) as [[[] a]|]; [done| |done].
    eexists; split_and!; [done..|reflexivity].
  - assert ((match optarg with
      | None => Some false
      | Some q => if have_more num
          then let! n := w_argv (at_ opts ns (p :: toks) tail num (s, x.2)) !! S (length opts + length ns) in
               Some (bool_decide (n = Some q))
          else Some false
      end) = Some (detached && bool_decide (is_Some (head toks)))) as Hs.
    { pose proof (next_arg_spec opts ns p toks tail num (s, x.2) Hn) as Hna. unfold next_arg in Hna.
      cbn [w_args at_] in Hna.
      destruct detached.
      - subst optarg. destruct (head toks) as [q|] eqn:Eq; [|done].
        destruct (have_more num); [|done]. rewrite Hna. rewrite !bool_decide_true by (done || by eexists). done.
      - destruct Harg as [str ->]. destruct (have_more num); [|done]. rewrite Hna.
        rewrite bool_decide_false; [done|]. by apply not_next. }
    change (w_args (at_ opts ns (p :: toks) tail num (s, x.2))) with (length opts + length ns)%nat.
    rewrite Hs. clear Hs.
    set (took := detached && _).
    assert ((if took then shift_advance (at_ opts ns (p :: toks) tail num (s, x.2))
             else Some (at_ opts ns (p :: toks) tail num (s, x.2)))
            = Some (after opts ns p toks tail num took (s, x.2))) as ->.
    { destruct took eqn:Et; [|done]. rewrite shift_advance_spec. unfold took in Et. destruct toks; [|done].
      rewrite andb_comm in Et. done. }
    assert (w_act (after opts ns p toks tail num took (s, x.2)) = x.2) as -> by (by destruct took, toks).
    destruct (perform act x.2 _) as [[[] a]|]; [| |done].
    + f_equal. f_equal. f_equal. by destruct took, toks.
    + eexists; split_and!; [done|by destruct took, toks|done|]. rewrite <- (after_vector _ _ _ _ _ num took (s, x.2)). done.
  - change (w_act _) with x.2. unfold init. cbn [next_ prev_ o_desc o_name o_namelen].
    destruct (perform act x.2 _) as [[[] a]|]; [done| |done].
    eexists; split_and!; [done..|reflexivity].
  - eexists; split_and!; [done..|reflexivity].
Qed.

(** What a token's reference result says about the code's. *)
Definition agrees (opts ns : list cptr) (p : cptr) (toks : list cptr) (tail : list (option cptr)) (num : Z)
    (ref : option (option bool * (St * A))) (r : option (wstate A + wstate A)) : Prop :=
  match ref with
  | None => r = None
  | Some (None, x) => failed (vector opts ns (p :: toks) tail) x r
  | Some (Some took, x) => r = Some (inr (after opts ns p toks tail num took x))
  end.

Lemma is_nul_false c : c <> NUL -> is_nul c = false.
Proof. intros. by apply bool_decide_false. Qed.

(** A group of short options. *)
Lemma group_spec opts ns p toks tail num c0 cs name fuel x :
  num_ok num (p :: toks) tail -> separate (p :: toks) -> Forall (fun c => c <> NUL) cs -> (length cs < fuel)%nat ->
  agrees opts ns p toks tail num (ref_group act cfg usage es (p_obj p) cs (head toks) x)
    (group act cfg usage fuel (at_ opts ns (p :: toks) tail num x) (have_more num) (mkPtr (p_obj p) (c0 :: cs)) name true false).
Proof.
  intros Hn Hsep. revert c0 fuel x. induction cs as [|c cs IH]; intros c0 fuel x Hcs Hf;
    (destruct fuel as [|fuel]; [lia|]); cbn [group negb orb]; unfold adv at 1; cbn [length Nat.leb p_str p_obj drop].
  { done. }
  rewrite Forall_cons in Hcs. destruct Hcs as [Hc Hcs].
  change (rd (mkPtr (p_obj p) (c :: cs)) 0) with (Some c). cbv beta iota. rewrite is_nul_false by done.
  destruct (find_short_spec es usage Husage c) as [-> Hlt].
  assert (exists det : bool,
    (let! c1 := rd (mkPtr (p_obj p) (c :: cs)) 1 in
     if is_nul c1 then next_arg (at_ opts ns (p :: toks) tail num x) (have_more num)
     else let! q := adv (mkPtr (p_obj p) (c :: cs)) 1 in Some (Some q)) =
     Some (match cs with [] => head toks | _ => Some (mkPtr (p_obj p) cs) end) /\ det = bool_decide (cs = [])) as [det [Harg Hdet]].
  { eexists. split; [|done]. destruct cs as [|c1 cs].
    - change (rd (mkPtr (p_obj p) [c]) 1) with (Some NUL). by apply next_arg_spec.
    - change (rd (mkPtr (p_obj p) (c :: c1 :: cs)) 1) with (Some c1). rewrite Forall_cons in Hcs. by rewrite is_nul_false by apply Hcs. }
  destruct (rd (mkPtr (p_obj p) (c :: cs)) 1) as [c1|] eqn:E1; [|done]. rewrite Harg. cbn [ref_group].
  pose proof (handle_spec opts ns p toks tail num x (ref_short es c) (mkPtr (p_obj p) (c :: cs))
    (match cs with [] => head toks | _ => Some (mkPtr (p_obj p) cs) end) true det Hn Hsep Hlt) as H.
  cbn zeta in H. specialize (H ltac:(subst det; destruct cs; [done|by eexists])).
  cbn [length] in Hf.
  destruct (target es (ref_short es c)) as [d|].
  2: { rewrite H. apply IH; [done|lia]. }
  destruct (visit act cfg usage x d _ _) as [[[[]|] x']|].
  - rewrite H. by subst det.
  - rewrite H. apply IH; [done|lia].
  - destruct H as (w & -> & H). exists w. done.
  - by rewrite H.
Qed.

Lemma long_arg_spec opts ns p toks tail num (x : St * A) q :
  num_ok num (p :: toks) tail ->
  long_arg (at_ opts ns (p :: toks) tail num x) (have_more num) q =
  Some (match to_equals (p_str q) with [] => head toks | _ :: s => Some (mkPtr (p_obj q) s) end).
Proof.
  intros Hn. unfold long_arg. destruct (to_equals (p_str q)); [by apply next_arg_spec|done].
Qed.

(** An option that is found by its long name, [short] false from the start or switched off. *)
Lemma long_spec opts ns p toks tail num name fuel x (short try_long : bool) o :
  num_ok num (p :: toks) tail -> separate (p :: toks) -> p_obj name = p_obj p -> negb short || try_long = true ->
  o = ref_long cfg es (p_str name) -> (short = true -> is_Some o) ->
  agrees opts ns p toks tail num (ref_option act cfg usage p (p_str name) (target es o) (head toks) x)
    (group act cfg usage (S fuel) (at_ opts ns (p :: toks) tail num x) (have_more num) p name short try_long).
Proof.
  intros Hn Hsep Hobj Htry -> Hshort. cbn [group]. rewrite Htry.
  destruct (find_long_spec es usage Husage cfg (p_str name)) as [-> Hlt].
  rewrite (is_long_spec es), long_arg_spec by (done || (destruct (ref_long cfg es (p_str name)) as [d|]; cbn; [specialize (Hlt d eq_refl)|]; lia)).
  assert ((if (default (length es) (ref_long cfg es (p_str name)) <? length es)%nat then false else short) = false) as ->.
  { destruct (ref_long cfg es (p_str name)) as [d|]; cbn [from_option id].
    - specialize (Hlt d eq_refl). by replace (d <? length es)%nat with true by (symmetry; apply Nat.ltb_lt; lia).
    - rewrite Nat.ltb_irrefl. destruct short; [|done]. destruct (Hshort eq_refl). done. }
  rewrite Hobj. unfold ref_option.
  pose proof (handle_spec opts ns p toks tail num x (ref_long cfg es (p_str name)) p
    (match to_equals (p_str name) with [] => head toks | _ :: s => Some (mkPtr (p_obj p) s) end) false
    (bool_decide (to_equals (p_str name) = [])) Hn Hsep Hlt) as H.
  specialize (H ltac:(destruct (to_equals (p_str name)); [done|by eexists])). cbn zeta in H.
  destruct (target es _) as [d|]; [|by rewrite H].
  destruct (visit act cfg usage x d p _) as [[[[]|] x']|]; [by rewrite H..| |by rewrite H].
  destruct H as (w & -> & H). exists w. done.
Qed.


(** The long name is tried first; when it is unknown the group is read. *)
Lemma group_try w hm p name fuel :
  ref_long cfg es (p_str name) = None -> is_Some (long_arg w hm name) ->
  group act cfg usage (S fuel) w hm p name true true = group act cfg usage (S fuel) w hm p name true false.
Proof.
  intros Hr [o Ho]. cbn [group negb orb].
  destruct (find_long_spec es usage Husage cfg (p_str name)) as [-> _]. rewrite Hr, Ho. cbn [from_option].
  rewrite (is_long_spec es), Nat.ltb_irrefl by (done || lia). done.
Qed.

Lemma token_spec opts ns p toks tail num x c rest :
  num_ok num (p :: toks) tail -> separate (p :: toks) -> tok_ok p ->
  p_str p = "-"%char :: c :: rest ->
  let dashes := bool_decide (c = "-"%char) in
  agrees opts ns p toks tail num (ref_token act cfg usage es p (head toks) x)
    (group act cfg usage (S (length (p_str p))) (at_ opts ns (p :: toks) tail num x) (have_more num) p
       (mkPtr (p_obj p) (if dashes then rest else c :: rest)) (negb dashes) (single_minus_longopt cfg)).
Proof.
  intros Hn Hsep Hok Hp dashes. unfold ref_token. rewrite Hp. fold dashes.
  destruct dashes eqn:Ed.
  { eapply (long_spec _ _ _ _ _ _ (mkPtr (p_obj p) rest)); done. }
  assert (agrees opts ns p toks tail num (ref_group act cfg usage es (p_obj p) (c :: rest) (head toks) x)
    (group act cfg usage (S (length ("-"%char :: c :: rest))) (at_ opts ns (p :: toks) tail num x) (have_more num) p
       (mkPtr (p_obj p) (c :: rest)) true false)) as Hgroup.
  { assert (Forall (fun c => c <> NUL) (c :: rest)) as Hcs.
    { unfold tok_ok in Hok. rewrite Hp in Hok. by inversion Hok. }
    pose proof (group_spec opts ns p toks tail num "-"%char (c :: rest) (mkPtr (p_obj p) (c :: rest))
      (S (length ("-"%char :: c :: rest))) x Hn Hsep Hcs) as H.
    rewrite <- Hp in H at 3. replace (mkPtr (p_obj p) (p_str p)) with p in H by (by destruct p).
    apply H. cbn. lia. }
  destruct (single_minus_longopt cfg) eqn:Es; [|exact Hgroup].
  destruct (ref_long cfg es (c :: rest)) as [d|] eqn:Er.
  - eapply (long_spec _ _ _ _ _ _ (mkPtr (p_obj p) (c :: rest)) _ _ _ _ (Some d)); done.
  - rewrite group_try; [exact Hgroup|done|]. rewrite long_arg_spec by done. by eexists.
Qed.

(** ** The loop *)

(** The reference's outcome against the code's; [fin] is the state the loop ends in. *)
Definition loop_agrees (opts ns toks : list cptr) (tail : list (option cptr)) (ref : option (outcome (A := A)))
    (r : option (wstate A + wstate A)) : Prop :=
  match ref with
  | None => r = None
  | Some (false, _, _, x) => failed (vector opts ns toks tail) x r
  | Some (true, opts', rest, x) =>
      exists ns' toks' num', r = Some (inr (at_ (opts ++ opts') ns' toks' tail num' x)) /\
        ns' ++ toks' = ns ++ rest /\ num_ok num' toks' tail
  end.

Lemma failed_perm {B} argv argv' x (r : option (wstate A + B)) : argv ≡ₚ argv' -> failed argv x r -> failed argv' x r.
Proof. intros Hp (w & ? & ? & ? & Hw). exists w. split_and!; [done..|]. by rewrite Hw. Qed.

Lemma loop_agrees_consumed opts ns toks ps rest tail ref r :
  vector (opts ++ ps) ns rest tail ≡ₚ vector opts ns toks tail ->
  loop_agrees (opts ++ ps) ns rest tail ref r ->
  loop_agrees opts ns toks tail (consumed ps ref) r.
Proof.
  intros Hp. unfold loop_agrees, consumed. destruct ref as [[[[[] opts'] rest'] x]|]; [| |done].
  - intros (ns' & toks' & num' & H). exists ns', toks', num'. by rewrite app_assoc.
  - by apply failed_perm.
Qed.

Lemma separate_tail p toks : separate (p :: toks) -> separate toks.
Proof. unfold separate. cbn. by intros [_ ?]%NoDup_cons. Qed.

Lemma rd_0 p c rest : p_str p = c :: rest -> rd p 0 = Some c.
Proof. unfold rd. by intros ->. Qed.

Lemma iterate_spec opts ns p toks tail num x :
  num_ok num (p :: toks) tail -> separate (p :: toks) -> tok_ok p ->
  let r := iterate act cfg usage (at_ opts ns (p :: toks) tail num x) p in
  if is_plain (p_str p) then
    r = Some (if gnu cfg then Continue (at_ opts (ns ++ [p]) toks tail (dec num) x)
              else Break (at_ opts ns (p :: toks) tail num x))
  else if is_end (p_str p) then r = Some (Break (at_ (opts ++ [p]) ns toks tail (dec num) x))
  else match ref_token act cfg usage es p (head toks) x with
       | None => r = None
       | Some (None, x) => exists w, r = Some (Fatal w) /\ failed (B := unit) (vector opts ns (p :: toks) tail) x (Some (inl w))
       | Some (Some took, x) =>
           r = Some (Continue (match took, toks with
                               | true, q :: toks => at_ (opts ++ [p; q]) ns toks tail (dec (dec num)) x
                               | _, _ => at_ (opts ++ [p]) ns toks tail (dec num) x
                               end))
       end.
Proof.
  intros Hn Hsep Hok r. subst r. unfold iterate.
  assert (forall b : bool, b = is_plain (p_str p) ->
    (let! c0 := rd p 0 in if bool_decide (c0 = "-"%char) then let! c1 := rd p 1 in Some (is_nul c1) else Some true) = Some b) as Hplain.
  { intros b ->. unfold rd, tok_ok in *. destruct (p_str p) as [|c0 [|c1 s]]; cbn; [done| |].
    - by destruct (bool_decide (c0 = "-"%char)).
    - destruct (bool_decide (c0 = "-"%char)); [|done]. rewrite !Forall_cons in Hok. by rewrite is_nul_false by apply Hok. }
  specialize (Hplain _ eq_refl). destruct (rd p 0) as [c0|]; [|done]. rewrite Hplain. clear Hplain.
  destruct (is_plain (p_str p)) eqn:Epl.
  { destruct (gnu cfg); [|done]. cbn [w_args w_num w_nonops w_chk w_act at_]. by rewrite <- skip_spec. }
  destruct (p_str p) as [|? [|c rest]] eqn:Hp; [done..|]. cbn [is_plain] in Epl. b2p. subst.
  assert (rd p 1 = Some c) as -> by (unfold rd; by rewrite Hp).
  assert ((if bool_decide (c = "-"%char) then let! c2 := rd p 2 in Some (is_nul c2) else Some false)
          = Some (is_end ("-"%char :: c :: rest))) as ->.
  { unfold is_end, rd, tok_ok in *. rewrite Hp in *. case_bool_decide as Hc; [subst c|].
    - destruct rest as [|c2 rest]; [done|]. cbn. rewrite !Forall_cons in Hok. rewrite is_nul_false by apply Hok.
      by rewrite bool_decide_false.
    - rewrite bool_decide_false; [done|]. intros [= ->]. done. }
  destruct (is_end _) eqn:Een; [by rewrite shift_advance_spec|].
  assert (adv p (if bool_decide (c = "-"%char) then 2 else 1)%nat =
          Some (mkPtr (p_obj p) (if bool_decide (c = "-"%char) then rest else c :: rest))) as ->.
  { unfold adv. rewrite Hp. by case_bool_decide. }
  change (w_num (at_ opts ns (p :: toks) tail num x)) with num. fold (have_more num).
  pose proof (token_spec opts ns p toks tail num x c rest Hn Hsep Hok Hp) as H. cbn zeta in H. rewrite Hp in H.
  destruct (ref_token act cfg usage es p (head toks) x) as [[[took|] x']|]; cbn [agrees] in H.
  - rewrite H. destruct took, toks as [|q toks]; cbn [after]; rewrite shift_advance_spec; try done.
    by rewrite <- app_assoc.
  - destruct H as (w & -> & H). exists w. split; [done|]. exists w. done.
  - by rewrite H.
Qed.

Lemma loop_spec fuel opts ns toks tail num x :
  num_ok num toks tail -> separate toks -> Forall tok_ok toks -> (length toks < fuel)%nat ->
  loop_agrees opts ns toks tail (reference act cfg usage es toks x)
    (loop act cfg usage fuel (at_ opts ns toks tail num x)).
Proof.
  remember (length toks) as n eqn:Hlen. revert toks Hlen fuel opts ns num x.
  induction n as [n IH] using lt_wf_ind. intros toks -> fuel opts ns num x Hn Hsep Hok Hf.
  destruct fuel as [|fuel]; [lia|]. cbn [loop]. change (w_num (at_ opts ns toks tail num x)) with num.
  pose proof (at_lookup opts ns toks tail num x 0) as Hlook. rewrite Nat.add_0_r in Hlook.
  change (w_args (at_ opts ns toks tail num x)) with (length opts + length ns)%nat.
  destruct toks as [|p rest].
  { cbn [reference loop_agrees]. exists ns, [], num. rewrite !app_nil_r. split_and!; [|done..].
    destruct (num =? 0) eqn:E0; [done|]. rewrite Hlook. unfold num_ok in Hn. cbn [length] in Hn. b2p.
    destruct Hn as [|[_ [t ->]]]; [lia|]. done. }
  rewrite (num_ok_nz _ _ _ _ Hn), Hlook. cbn [map app lookup list_lookup]. clear Hlook.
  rewrite Forall_cons in Hok. destruct Hok as [Hp Hok].
  pose proof (num_ok_dec _ _ _ _ Hn) as Hn'. pose proof (separate_tail _ _ Hsep) as Hsep'.
  pose proof (iterate_spec opts ns p rest tail num x Hn Hsep Hp) as H. cbn zeta in H.
  cbn [reference length] in *.
  destruct (is_plain (p_str p)).
  { rewrite H. destruct (gnu cfg).
    - specialize (IH (length rest) ltac:(lia) rest eq_refl fuel opts (ns ++ [p]) (dec num) x Hn' Hsep' Hok ltac:(lia)).
      destruct (reference act cfg usage es rest x) as [[[[[] o'] r'] x']|]; cbn [loop_agrees] in *; [| |done].
      + destruct IH as (ns' & toks' & num' & -> & E & ?). exists ns', toks', num'. rewrite E, <- app_assoc. done.
      + eapply failed_perm; [|exact IH]. unfold vector. by rewrite <- app_assoc.
    - cbn [loop_agrees]. exists ns, (p :: rest), num. by rewrite app_nil_r. }
  destruct (is_end (p_str p)).
  { rewrite H. cbn [loop_agrees]. by exists ns, rest, (dec num). }
  destruct (ref_token act cfg usage es p (head rest) x) as [[[took|] x']|]; [| |by rewrite H].
  2: { destruct H as (w & -> & w' & [= <-] & H). exists w. done. }
  rewrite H. clear H.
  assert (loop_agrees opts ns (p :: rest) tail (consumed [p] (reference act cfg usage es rest x'))
    (loop act cfg usage fuel (at_ (opts ++ [p]) ns rest tail (dec num) x'))) as Hone.
  { eapply loop_agrees_consumed; [apply vector_move|]. apply (IH (length rest)); [lia|done..|lia]. }
  destruct took; [|done]. destruct rest as [|q rest]; [exact Hone|].
  eapply loop_agrees_consumed; [|apply (IH (length rest)); cbn [length] in *; [lia|done| | | |lia]].
  - change [p; q] with ([p] ++ [q]). rewrite app_assoc. by rewrite !vector_move.
  - by eapply num_ok_dec.
  - by eapply separate_tail.
  - by inversion Hok.
Qed.

Lemma count_args_spec toks t n :
  count_args (map Some toks ++ None :: t) n = Some (n + Z.of_nat (length toks)).
Proof.
  revert n. induction toks as [|p toks IH]; intros n; cbn [map app count_args length]; [by rewrite Z.add_0_r|].
  rewrite IH. f_equal. lia.
Qed.

Lemma finish_spec opts ns toks tail num x :
  num_ok num toks tail ->
  exists num', finish act (at_ opts ns toks tail num x) =
    let '(ok, a) := finished act x.2 (Z.of_nat (length (ns ++ toks))) (length opts) in
    Some (ok, at_ opts ns toks tail num' (x.1, a)).
Proof.
  intros Hn. exists (Z.of_nat (length toks)). unfold finish.
  pose proof (at_lookup opts ns toks tail num x 0) as Hlook. rewrite Nat.add_0_r in Hlook.
  change (w_num (at_ opts ns toks tail num x)) with num.
  change (w_args (at_ opts ns toks tail num x)) with (length opts + length ns)%nat.
  change (w_nonops (at_ opts ns toks tail num x)) with (length ns).
  replace (length opts + length ns - length ns)%nat with (length opts) by lia.
  rewrite length_app, Nat2Z.inj_add, Z.add_comm.
  destruct Hn as [->|[Hneg [t ->]]].
  - destruct toks as [|p toks]; [done|].
    replace (0 <? Z.of_nat (length (p :: toks))) with true by (symmetry; apply Z.ltb_lt; cbn; lia).
    rewrite Hlook. cbn [map app lookup list_lookup].
    by replace (Z.of_nat (length (p :: toks)) <? 0) with false by (symmetry; apply Z.ltb_ge; lia).
  - replace (0 <? num) with false by (symmetry; apply Z.ltb_ge; lia).
    replace (num <? 0) with true by (symmetry; apply Z.ltb_lt; lia).
    assert (drop (length opts + length ns) (w_argv (at_ opts ns toks (None :: t) num x)) = map Some toks ++ None :: t) as ->.
    { unfold at_. cbn [w_argv]. rewrite app_assoc, map_app, <- app_assoc.
      by rewrite drop_app_length' by (by rewrite length_map, length_app). }
    by rewrite count_args_spec, Z.add_0_l.
Qed.

(** The code's parser is the reference: on every vector of arguments that do not overlap it
    returns, reads nothing out of bounds, hands the same options to the action in the same
    order, and tells it how many non-options there are and where the vector, which it only
    permutes, now has them. *)
Lemma workhorse_refines toks tail num s a :
  num_ok num toks tail -> separate toks -> Forall tok_ok toks ->
  let argv := map Some toks ++ tail in
  let r := workhorse act cfg usage num (Some argv) s a in
  match reference act cfg usage es toks (s, a) with
  | None => r = None
  | Some (false, _, _, x) => exists w, r = Some (false, w) /\ w_chk w = x.1 /\ w_act w = x.2 /\ w_argv w ≡ₚ argv
  | Some (true, opts, rest, x) =>
      exists w, r = Some ((finished act x.2 (Z.of_nat (length rest)) (length opts)).1, w) /\
        w_chk w = x.1 /\ w_act w = (finished act x.2 (Z.of_nat (length rest)) (length opts)).2 /\
        w_argv w = map Some (opts ++ rest) ++ tail
  end.
Proof.
  intros Hn Hsep Hok argv r. subst r. unfold workhorse. cbn [w_argv].
  pose proof (loop_spec (S (length argv)) [] [] toks tail num (s, a) Hn Hsep Hok) as H.
  specialize (H ltac:(unfold argv; rewrite length_app, length_map; lia)).
  change (at_ [] [] toks tail num (s, a)) with (mkW argv 0 num 0 s a) in H.
  destruct (reference act cfg usage es toks (s, a)) as [[[[[] opts] rest] x]|]; cbn [loop_agrees] in H; [| |by rewrite H].
  - destruct H as (ns & toks' & num' & -> & E & Hn'). cbn [app] in *.
    destruct (finish_spec opts ns toks' tail num' x Hn') as [num'' ->]. rewrite E.
    destruct (finished act x.2 _ _) as [ok a']. eexists. split_and!; [done..|].
    cbn [w_argv at_]. by rewrite E.
  - destruct H as (w & -> & H). exists w. done.
Qed.

End refinement.

End parser.

Arguments Descriptor : clear implicits.
Arguments perform {A}.
Arguments finished {A}.
Arguments mkW {St A}.
Arguments w_argv {St A}.
Arguments w_args {St A}.
Arguments w_num {St A}.
Arguments w_nonops {St A}.
Arguments w_chk {St A}.
Arguments w_act {St A}.
Arguments wstate : clear implicits.

(** ** The lists of options *)

(** An address of a node: even, so that its lowest bit is free for the tag. *)
Definition is_addr (a : Z) : Prop := word 64 a /\ Z.testbit a 0 = false.

Lemma isTagged_testbit a : isTagged a = Z.testbit a 0.
Proof. unfold isTagged. change 1 with (2 ^ 0). rewrite land_pow2_test by lia. apply negb_involutive. Qed.

Lemma isTagged_tag a : isTagged (tag a) = true.
Proof. rewrite isTagged_testbit. unfold tag. rewrite Z.lor_spec. apply orb_true_r. Qed.

Lemma isTagged_addr a : is_addr a -> isTagged a = false.
Proof. rewrite isTagged_testbit. by intros [_ ?]. Qed.

Lemma untag_tag a : is_addr a -> untag (tag a) = a.
Proof.
  intros [Hw H0]. unfold untag, tag. apply (word_inj_testbit 64); [lia| |done|].
  - rewrite Z.land_comm. apply land_word; [lia|]. by apply wnot_word.
  - intros i Hi. rewrite Z.land_spec, Z.lor_spec, wnot_testbit by lia.
    destruct (Z.eq_dec i 0) as [->|Hne]; [by rewrite H0|].
    change 1 with (2 ^ 0). rewrite Z.pow2_bits_false by lia. cbn. by rewrite orb_false_r, andb_true_r.
Qed.

Lemma untag_addr a : is_addr a -> untag a = a.
Proof.
  intros [Hw H0]. unfold untag. apply (word_inj_testbit 64); [lia|by apply land_word|done|].
  intros i Hi. rewrite Z.land_spec, wnot_testbit by lia.
  destruct (Z.eq_dec i 0) as [->|Hne]; [by rewrite H0|].
  change 1 with (2 ^ 0). rewrite Z.pow2_bits_false by lia. by rewrite andb_true_r.
Qed.

(** The nodes at [l] form a list in this order: their links are the neighbours, and where
    there is none, the other end with a tag. *)
Record ring (h : heap) (l : list Z) : Prop := {
  ring_nodup : NoDup l;
  ring_addr : Forall is_addr l;
  ring_links : forall j a, l !! j = Some a -> exists o, h !! a = Some o /\
    next_ o = match l !! S j with Some b => b | None => tag (default 0 (head l)) end /\
    prev_ o = match j with O => tag (default 0 (list.last l)) | S i => default 0 (l !! i) end }.

Lemma ring_size h l : ring h l -> (length l <= size h)%nat.
Proof.
  intros [Hnd _ Hl]. rewrite <- size_dom, <- (size_list_to_set (C := gset Z) l Hnd).
  apply subseteq_size. intros a Ha. rewrite elem_of_list_to_set in Ha.
  apply list_elem_of_lookup in Ha as [j Hj]. destruct (Hl _ _ Hj) as (o & Ho & _). by eapply elem_of_dom_2.
Qed.

Lemma first_loop_spec h l j a fuel :
  ring h l -> l !! j = Some a -> (j < fuel)%nat -> first_loop fuel h a = head l.
Proof.
  intros Hr. revert a fuel. induction j as [|j IH]; intros a fuel Hj Hf; (destruct fuel as [|fuel]; [lia|]); cbn [first_loop].
  - destruct (ring_links h l Hr _ _ Hj) as (o & -> & _ & ->). rewrite isTagged_tag. destruct l; done.
  - destruct (ring_links h l Hr _ _ Hj) as (o & -> & _ & ->).
    destruct (lookup_lt_is_Some_2 l j) as [b Hb]; [apply lookup_lt_Some in Hj; lia|]. rewrite Hb. cbn [from_option id].
    pose proof (ring_addr h l Hr) as Ha. rewrite Forall_lookup in Ha. rewrite isTagged_addr by eauto.
    apply IH; [done|lia].
Qed.

Lemma first_spec h l a : ring h l -> a ∈ l -> first h a = head l.
Proof.
  intros Hr [j Hj]%list_elem_of_lookup. apply (first_loop_spec h l j); [done..|].
  apply ring_size in Hr. apply lookup_lt_Some in Hj. lia.
Qed.

Lemma ring_head h l a : ring h l -> a ∈ l -> exists f, head l = Some f /\ f ∈ l /\ l !! 0%nat = Some f.
Proof. destruct l as [|f l]; [set_solver|]. intros _ _. exists f. set_solver. Qed.

Lemma last_spec h l a : ring h l -> a ∈ l -> last h a = list.last l.
Proof.
  intros Hr Ha. unfold last. rewrite (first_spec h l) by done.
  destruct (ring_head h l a Hr Ha) as (f & Hf & _ & H0). rewrite Hf. unfold prevwrap.
  destruct (ring_links h l Hr 0 f H0) as (o & -> & _ & ->).
  destruct (list.last l) as [z|] eqn:Ez.
  - cbn [from_option id]. rewrite untag_tag; [done|]. pose proof (ring_addr h l Hr) as HF. rewrite Forall_forall in HF.
    apply HF. by apply last_Some_elem_of.
  - apply last_None in Ez. by subst.
Qed.

Lemma count_loop_spec h l j a c fuel :
  ring h l -> l !! j = Some a -> (length l <= fuel + j)%nat ->
  count_loop fuel h a c = Some (c + Z.of_nat (length l - S j)).
Proof.
  intros Hr. revert j a c. induction fuel as [|fuel IH]; intros j a c Hj Hf.
  { apply lookup_lt_Some in Hj. lia. }
  cbn [count_loop]. destruct (ring_links h l Hr _ _ Hj) as (o & -> & -> & _).
  destruct (l !! S j) as [b|] eqn:Hb.
  - pose proof (ring_addr h l Hr) as Ha. rewrite Forall_lookup in Ha. rewrite isTagged_addr by eauto.
    rewrite (IH (S j)) by (done || lia). apply lookup_lt_Some in Hb. f_equal. lia.
  - rewrite isTagged_tag. apply lookup_ge_None in Hb. f_equal. lia.
Qed.

Lemma count_spec h l a o :
  ring h l -> a ∈ l -> h !! a = Some o ->
  count h a = Some (Z.of_nat (length l) - (if filled o then 0 else 1)).
Proof.
  intros Hr Ha Ho. unfold count. rewrite Ho, (first_spec h l) by done.
  destruct (ring_head h l a Hr Ha) as (f & Hf & _ & H0). rewrite Hf.
  pose proof (ring_size h l Hr). rewrite (count_loop_spec h l 0) by (done || lia).
  apply lookup_lt_Some in H0. unfold filled. f_equal. destruct (o_desc o); lia.
Qed.

Definition with_next (v : Z) (o : Option) : Option := mkOption v (prev_ o) (o_desc o) (o_name o) (o_arg o) (o_namelen o).
Definition with_prev (v : Z) (o : Option) : Option := mkOption (next_ o) v (o_desc o) (o_name o) (o_arg o) (o_namelen o).

(** What an option says, apart from its links. *)
Definition content (o : Option) : option nat * option cptr * option cptr * Z := (o_desc o, o_name o, o_arg o, o_namelen o).

Lemma lookup_alter_if {V} (f : V -> V) (m : gmap Z V) i j :
  alter f i m !! j = (if decide (i = j) then f <$> m !! j else m !! j).
Proof. case_decide; [subst; apply lookup_alter_eq|by apply lookup_alter_ne]. Qed.

Lemma set_next_alter h a v : is_Some (h !! a) -> set_next h a v = Some (alter (with_next v) a h).
Proof.
  intros [o Ho]. unfold set_next. rewrite Ho. f_equal. apply map_eq. intros b.
  rewrite lookup_insert, lookup_alter_if. case_decide; [subst; by rewrite Ho|done].
Qed.

Lemma set_prev_alter h a v : is_Some (h !! a) -> set_prev h a v = Some (alter (with_prev v) a h).
Proof.
  intros [o Ho]. unfold set_prev. rewrite Ho. f_equal. apply map_eq. intros b.
  rewrite lookup_insert, lookup_alter_if. case_decide; [subst; by rewrite Ho|done].
Qed.

(** The heap after [append] to a list with ends [f] and [p]. *)
Definition appended (h : heap) (p f n : Z) : heap :=
  alter (with_prev (tag n)) f (alter (with_next (tag f)) n (alter (with_prev p) n (alter (with_next n) p h))).

Lemma append_eq h l a n f p :
  ring h l -> a ∈ l -> is_Some (h !! n) -> head l = Some f -> list.last l = Some p ->
  append h a n = Some (appended h p f n).
Proof.
  intros Hr Ha Hn Hf Hp. unfold append. rewrite (last_spec h l), (first_spec h l), Hf, Hp by done.
  assert (is_Some (h !! p)) as Hip.
  { apply last_Some_elem_of, list_elem_of_lookup in Hp as [j Hj]. destruct (ring_links h l Hr _ _ Hj) as (o & -> & _). eauto. }
  assert (is_Some (h !! f)) as Hif.
  { rewrite head_lookup in Hf. destruct (ring_links h l Hr _ _ Hf) as (o & -> & _). eauto. }
  rewrite set_next_alter by done.
  repeat (rewrite set_prev_alter || rewrite set_next_alter); [done|..];
    rewrite ?lookup_alter_if; repeat case_decide; subst; rewrite ?fmap_is_Some; done.
Qed.

Lemma appended_lookup h p f n b :
  f <> n -> p <> n ->
  appended h p f n !! b =
  (fun o => mkOption (if decide (b = n) then tag f else if decide (b = p) then n else next_ o)
                     (if decide (b = f) then tag n else if decide (b = n) then p else prev_ o)
                     (o_desc o) (o_name o) (o_arg o) (o_namelen o)) <$> h !! b.
Proof.
  intros Hf Hp. unfold appended. rewrite !lookup_alter_if.
  repeat (case_decide; subst; try done); destruct (h !! _) as [[]|]; done.
Qed.

(** Appending puts the new node at the end of the list and changes nothing else. *)
Lemma append_spec h l a n :
  ring h l -> a ∈ l -> n ∉ l -> is_addr n -> is_Some (h !! n) ->
  exists h', append h a n = Some h' /\ ring h' (l ++ [n]) /\
    (forall b, b ∉ l -> b <> n -> h' !! b = h !! b) /\ (forall b, content <$> h' !! b = content <$> h !! b).
Proof.
  intros Hr Ha Hnl Hn Hin.
  destruct (head l) as [f|] eqn:Hf; [|destruct l; [set_solver|done]].
  destruct (list.last l) as [p|] eqn:Hp; [|apply last_None in Hp; subst; done].
  exists (appended h p f n). split; [by eapply append_eq|].
  assert (f ∈ l) as Hfl by (rewrite head_lookup in Hf; by eapply list_elem_of_lookup_2).
  assert (p ∈ l) as Hpl by (by apply last_Some_elem_of).
  assert (f <> n) as Hfn by (intros ->; done). assert (p <> n) as Hpn by (intros ->; done).
  split_and!.
  - destruct Hr as [Hnd Haddr Hl]. constructor.
    + apply NoDup_app. split_and!; [done|set_solver|apply NoDup_singleton].
    + apply Forall_app. split; [done|]. by constructor.
    + intros j b Hj. rewrite appended_lookup by done. rewrite last_snoc, head_app, Hf. cbn [from_option id].
      destruct (decide (j < length l)%nat) as [Hlt|Hge].
      * rewrite lookup_app_l in Hj by done. destruct (Hl _ _ Hj) as (o & -> & Hnx & Hpv).
        eexists. split; [done|]. cbn [next_ prev_].
        assert (b <> n) as Hbn by (intros ->; apply Hnl; by eapply list_elem_of_lookup_2).
        rewrite decide_False by done. rewrite Hf in Hnx.
        split.
        -- case_decide as Hbp.
           ++ subst b. assert (j = pred (length l)) as ->.
              { eapply NoDup_lookup; [exact Hnd|done|]. by rewrite <- last_lookup. }
              rewrite lookup_app_r by lia. by replace (S (pred (length l)) - length l)%nat with 0%nat by lia.
           ++ destruct (decide (S j < length l)%nat) as [Hs|Hs].
              ** rewrite lookup_app_l by done. destruct (lookup_lt_is_Some_2 l (S j) Hs) as [c Hc].
                 rewrite Hc in *. done.
              ** destruct Hbp. rewrite last_lookup in Hp. replace (pred (length l)) with j in Hp by lia. congruence.
        -- destruct j as [|i].
           ++ rewrite decide_True; [done|]. rewrite head_lookup in Hf. congruence.
           ++ rewrite decide_False, (decide_False (P := b = n)); [|done|].
              ** rewrite lookup_app_l by lia. done.
              ** intros ->. rewrite head_lookup in Hf. by pose proof (NoDup_lookup _ _ _ _ Hnd Hf Hj).
      * rewrite lookup_app_r in Hj by lia. destruct (j - length l)%nat as [|k] eqn:Ek; [|done]. cbn in Hj. injection Hj as <-.
        destruct Hin as [o Ho]. rewrite Ho. eexists. split; [done|]. cbn [next_ prev_].
        rewrite decide_True, decide_False, decide_True by done.
        split; [by rewrite lookup_ge_None_2 by (rewrite length_app; cbn; lia)|].
        destruct j as [|i]; [destruct l; [done|cbn in *; lia]|].
        rewrite lookup_app_l by lia. rewrite last_lookup in Hp.
        replace i with (pred (length l)) by lia. by rewrite Hp.
  - intros b Hb Hbn. rewrite appended_lookup by done. destruct (h !! b) as [o|]; [|done]. cbn.
    rewrite !decide_False by (done || intros ->; done). by destruct o.
  - intros b. rewrite appended_lookup by done. by destruct (h !! b).
Qed.

(** ** Two runs over the same arguments *)

Section runs.
Context {St : Type}.

(** The action that notes the options it is given. *)
Definition RecordAction : Action (list Option) :=
  mkAction _ (fun l o => Some (true, l ++ [o])) Action_finished.

(** An action that accepts every option of a list, and its state afterwards. *)
Fixpoint perform_all {A} (act : Action A) (a : A) (l : list Option) : option A :=
  match l with
  | [] => Some a
  | o :: l => match perform act a o with Some (true, a) => perform_all act a l | _ => None end
  end.

Lemma perform_all_app {A} (act : Action A) a l1 l2 :
  perform_all act a (l1 ++ l2) = let! a := perform_all act a l1 in perform_all act a l2.
Proof.
  revert a. induction l1 as [|o l1 IH]; intros a; cbn [app perform_all]; [done|].
  destruct (perform act a o) as [[[] a']|]; done.
Qed.

(** The verdict of a check depends on the option only. *)
Definition stable (d : Descriptor St) : Prop :=
  forall s1 s2 o m1 m2, fst <$> check_arg d s1 o m1 = fst <$> check_arg d s2 o m2.

(** Checks that agree on states that are related, and keep them related. *)
Definition agree (RS : St -> St -> Prop) (m1 m2 : bool) (d : Descriptor St) : Prop :=
  forall s1 s2 o, RS s1 s2 ->
    match check_arg d s1 o m1, check_arg d s2 o m2 with
    | Some (st1, s1'), Some (st2, s2') => st1 = st2 /\ RS s1' s2'
    | None, None => True
    | _, _ => False
    end.

Definition any_states (s1 s2 : St) : Prop := True.

Lemma stable_agree m1 m2 d : stable d -> agree any_states m1 m2 d.
Proof.
  intros Hd s1 s2 o _. specialize (Hd s1 s2 o m1 m2).
  destruct (check_arg d s1 o m1) as [[]|], (check_arg d s2 o m2) as [[]|]; try done. cbn in Hd. by injection Hd.
Qed.

Lemma eq_agree m d : agree eq m m d.
Proof. intros s ? o <-. by destruct (check_arg d s o m) as [[]|]. Qed.

Definition same_settings (c1 c2 : config) : Prop :=
  gnu c1 = gnu c2 /\ min_abbr_len c1 = min_abbr_len c2 /\ single_minus_longopt c1 = single_minus_longopt c2.

Section simulation.
Context {A : Type} (act : Action A) (a0 : A) (cfg1 cfg2 : config) (es usage : list (Descriptor St)).
Context (RS : St -> St -> Prop) (Hrefl : forall s, RS s s) (Husage : usage_ok es usage) (Hcfg : same_settings cfg1 cfg2).
Context (Hagree : Forall (agree RS (print_errors cfg1) (print_errors cfg2)) es).

(** Options made from an entry of the table, and lists that grow by such options. *)
Definition from_table (o : Option) : Prop := exists d name arg, (d < length es)%nat /\ o = init 0 (Some d) (Some name) arg.
Definition extends (l l' : list Option) : Prop := exists k, l' = l ++ k /\ Forall from_table k.

Lemma extends_refl l : extends l l.
Proof. exists []. by rewrite app_nil_r. Qed.

Lemma extends_trans l1 l2 l3 : extends l1 l2 -> extends l2 l3 -> extends l1 l3.
Proof. intros (k & -> & ?) (k' & -> & ?). exists (k ++ k'). rewrite app_assoc. split; [done|]. by apply Forall_app. Qed.

(** The second run does what the first noted, if its action accepts that. *)
Definition sim {X} (l : list Option) (r1 : option (X * (St * list Option))) (r2 : A -> option (X * (St * A))) : Prop :=
  match r1 with
  | None => True
  | Some (v, (s1, l')) =>
      extends l l' /\
      forall a a', perform_all act a0 l = Some a -> perform_all act a0 l' = Some a' ->
      exists s2, r2 a = Some (v, (s2, a')) /\ RS s1 s2
  end.

Lemma sim_ret {X} l (v : X) s1 s2 : RS s1 s2 -> sim l (Some (v, (s1, l))) (fun a => Some (v, (s2, a))).
Proof. intros Hs. split; [apply extends_refl|]. intros a a' ->. intros [= <-]. by eexists. Qed.

(** A run in two parts. *)
Lemma sim_bind {X Y} l (r1 : option (X * (St * list Option))) r2
    (k1 : X -> St * list Option -> option (Y * (St * list Option))) (k2 : X -> St * A -> option (Y * (St * A))) :
  sim l r1 r2 ->
  (forall v s1 s2 l', RS s1 s2 -> sim l' (k1 v (s1, l')) (fun a => k2 v (s2, a))) ->
  sim l (let! (v, x) := r1 in k1 v x) (fun a => let! (v, x) := r2 a in k2 v x).
Proof.
  intros Hr Hk. unfold sim in *. destruct r1 as [[v [s1 l']]|]; [|done]. destruct Hr as [Hp Hr].
  destruct (k1 v (s1, l')) as [[w [s1' l'']]|] eqn:Ek; [|done].
  pose proof (Hk v s1 s1 l' (Hrefl s1)) as Hg. rewrite Ek in Hg. destruct Hg as [Hg _].
  split; [by eapply extends_trans|]. intros a a'' Ha Ha''.
  assert (exists a', perform_all act a0 l' = Some a') as [a' Ha'].
  { destruct Hg as (k & -> & _). rewrite perform_all_app in Ha''. destruct (perform_all act a0 l'); [by eexists|done]. }
  destruct (Hr a a' Ha Ha') as (s & -> & Hs). specialize (Hk v s1 s l' Hs). rewrite Ek in Hk. destruct Hk as [_ Hk]. by apply Hk.
Qed.

Lemma ref_long_same name : ref_long cfg1 es name = ref_long cfg2 es name.
Proof. unfold ref_long. by destruct Hcfg as (_ & -> & _). Qed.

Lemma ref_long_lt name d : ref_long cfg2 es name = Some d -> (d < length es)%nat.
Proof. apply (find_long_spec es usage Husage). Qed.

Lemma visit_sim d name arg s1 s2 l :
  (d < length es)%nat -> RS s1 s2 ->
  sim l (visit RecordAction cfg1 usage (s1, l) d name arg) (fun a => visit act cfg2 usage (s2, a) d name arg).
Proof.
  intros Hd Hs. unfold visit. destruct Husage as [Hes (e & rest & -> & _)].
  destruct (lookup_lt_is_Some_2 es d Hd) as [desc Hdesc]. rewrite (lookup_app_l_Some _ _ _ _ Hdesc). cbn [fst snd].
  rewrite Forall_lookup in Hagree. specialize (Hagree _ _ Hdesc s1 s2 (init 0 (Some d) (Some name) arg) Hs).
  destruct (check_arg desc s1 _ _) as [[st1 s1']|]; [|done].
  destruct (check_arg desc s2 _ _) as [[st2 s2']|]; [|done]. destruct Hagree as [<- Hs'].
  destruct st1; cbn [perform RecordAction]; [| | |by apply sim_ret]; (split; [eexists; split; [done|]; constructor; [by eexists _, _, _|done]|]);
    intros a a' Ha; rewrite perform_all_app, Ha; cbn [perform_all];
    (destruct (perform act a _) as [[[] a'']|]; [|done..]); intros [= <-]; by eexists.
Qed.

Lemma group_sim obj cs nx s1 s2 l :
  RS s1 s2 ->
  sim l (ref_group RecordAction cfg1 usage es obj cs nx (s1, l)) (fun a => ref_group act cfg2 usage es obj cs nx (s2, a)).
Proof.
  revert s1 s2 l. induction cs as [|c cs IH]; intros s1 s2 l Hs; cbn [ref_group]; [by apply sim_ret|].
  destruct (target es (ref_short es c)) as [d|] eqn:Et; [|by apply IH].
  eapply (sim_bind l _ _ (fun v x => match v with None => _ | Some true => _ | Some false => _ end)
    (fun v x => match v with None => _ | Some true => _ | Some false => _ end)).
  - apply visit_sim; [|done]. eapply (target_lt es usage); [done| |exact Et]. apply (find_short_spec es usage Husage).
  - intros [[]|] ? ? ? ?; [by apply sim_ret|by apply IH|by apply sim_ret].
Qed.

Lemma option_sim p name d nx s1 s2 l :
  (forall e, d = Some e -> (e < length es)%nat) -> RS s1 s2 ->
  sim l (ref_option RecordAction cfg1 usage p name d nx (s1, l)) (fun a => ref_option act cfg2 usage p name d nx (s2, a)).
Proof.
  intros Hd Hs. unfold ref_option. destruct d as [d|]; [|by apply sim_ret].
  eapply (sim_bind l _ _ (fun v x => Some (_, x)) (fun v x => Some (_, x))); [apply visit_sim; [by apply Hd|done]|].
  intros v ? ? ? ?. by apply sim_ret.
Qed.

Lemma token_sim p nx s1 s2 l :
  RS s1 s2 ->
  sim l (ref_token RecordAction cfg1 usage es p nx (s1, l)) (fun a => ref_token act cfg2 usage es p nx (s2, a)).
Proof.
  intros Hs. unfold ref_token. destruct (p_str p) as [|? [|c rest]]; [done..|]. rewrite !ref_long_same.
  destruct Hcfg as (_ & _ & ->).
  destruct (bool_decide (c = "-"%char)).
  - apply option_sim; [|done]. intros e He. eapply (target_lt es usage); [done| |exact He]. apply ref_long_lt.
  - destruct (single_minus_longopt cfg2); [|by apply group_sim].
    destruct (ref_long cfg2 es (c :: rest)) as [d|] eqn:Er; [|by apply group_sim].
    apply option_sim; [|done]. intros e [= <-]. by eapply ref_long_lt.
Qed.

Lemma reference_sim toks s1 s2 l :
  RS s1 s2 ->
  sim l (reference RecordAction cfg1 usage es toks (s1, l)) (fun a => reference act cfg2 usage es toks (s2, a)).
Proof.
  remember (length toks) as n eqn:Hlen. revert toks Hlen s1 s2 l.
  induction n as [n IH] using lt_wf_ind. intros [|p rest] -> s1 s2 l Hs; cbn [reference]; [by apply sim_ret|].
  cbn [length] in IH. destruct Hcfg as (-> & _).
  destruct (is_plain (p_str p)).
  { destruct (gnu cfg2); [|by apply sim_ret].
    eapply (sim_bind l _ _ (fun v x => Some (_, x)) (fun v x => Some (_, x))); [eapply IH; [|done|done]; lia|].
    intros v ? ? ? ?. by apply sim_ret. }
  destruct (is_end (p_str p)); [by apply sim_ret|].
  assert (forall ps r s1 s2 l, (length r < S (length rest))%nat -> RS s1 s2 ->
    sim l (consumed ps (reference RecordAction cfg1 usage es r (s1, l))) (fun a => consumed ps (reference act cfg2 usage es r (s2, a)))) as Hc.
  { intros ps r s1' s2' l' Hr Hs'. unfold consumed.
    eapply (sim_bind l' _ _ (fun v x => Some (_, x)) (fun v x => Some (_, x))); [eapply IH; [|done|done]; lia|].
    intros v ? ? ? ?. by apply sim_ret. }
  eapply (sim_bind l _ _
    (fun v x => match v, rest with None, _ => Some (false, [], [], x) | Some true, q :: r => consumed [p; q] (reference RecordAction cfg1 usage es r x)
                | Some _, _ => consumed [p] (reference RecordAction cfg1 usage es rest x) end)
    (fun v x => match v, rest with None, _ => Some (false, [], [], x) | Some true, q :: r => consumed [p; q] (reference act cfg2 usage es r x)
                | Some _, _ => consumed [p] (reference act cfg2 usage es rest x) end)); [by apply token_sim|].
  intros [[]|] ? ? ? ?; [destruct rest as [|q r]; apply Hc; (done || cbn; lia)|destruct rest; apply Hc; (done || cbn; lia)|].
  destruct rest; by apply sim_ret.
Qed.

End simulation.

(** ** POSIX mode leaves the argument vector alone *)

Section posix.
Context {A : Type} (act : Action A) (cfg : config) (usage : list (Descriptor St)) (Hposix : gnu cfg = false).

Definition untouched (w w' : wstate St A) : Prop :=
  w_argv w' = w_argv w /\ w_nonops w' = 0%nat.

Lemma shift_advance_posix w w' : w_nonops w = 0%nat -> shift_advance w = Some w' -> untouched w w'.
Proof. unfold shift_advance. intros H0. rewrite H0. cbn. by intros [= <-]. Qed.

Lemma handle_posix w hm idx param optarg short r :
  w_nonops w = 0%nat -> handle act cfg usage w hm idx param optarg short = Some r ->
  untouched w (match r with inl w' => w' | inr (w', _) => w' end).
Proof.
  intros H0. unfold handle. destruct (descriptor_of usage idx) as [[d|]|]; [| |done].
  2: { intros [= <-]. done. }
  destruct (usage !! d) as [desc|]; [|done]. destruct (check_arg desc _ _ _) as [[st s]|]; [|done].
  cbn [w_argv w_args w_act w_chk w_num w_nonops].
  destruct st.
  1, 3: destruct (perform act _ _) as [[[] a]|]; [..|done]; intros [= <-]; done.
  2: intros [= <-]; done.
  set (sep := match optarg with Some _ => _ | None => _ end). destruct sep as [[]|]; [| |done].
  - destruct (shift_advance _) as [w'|] eqn:Es; [|done].
    assert (w_nonops (mkW (w_argv w) (w_args w) (w_num w) (w_nonops w) s (w_act w)) = 0%nat) as H1 by done.
    apply (shift_advance_posix _ _ H1) in Es as [Ea Eo]. cbn in Ea.
    destruct (perform act _ _) as [[[] a]|]; [..|done]; intros [= <-]; done.
  - destruct (perform act _ _) as [[[] a]|]; [..|done]; intros [= <-]; done.
Qed.

Lemma group_posix fuel w hm param name short try_long r :
  w_nonops w = 0%nat -> group act cfg usage fuel w hm param name short try_long = Some r ->
  untouched w (match r with inl w' => w' | inr w' => w' end).
Proof.
  revert w param short try_long. induction fuel as [|fuel IH]; intros w param short try_long H0; [done|]. cbn [group].
  match goal with |- match ?e with _ => _ end = _ -> _ => destruct e as [[[idx optarg] short']|]; [|done] end.
  match goal with |- match ?e with _ => _ end = _ -> _ => destruct e as [[[[idx' param'] optarg']|]|]; [..|done] end.
  2: { intros [= <-]. done. }
  destruct (handle act cfg usage w hm idx' param' optarg' short') as [res|] eqn:Eh; [|done].
  apply (handle_posix _ _ _ _ _ _ _ H0) in Eh. destruct res as [w'|[w' []]].
  - intros [= <-]. done.
  - intros H. apply IH in H; [|apply Eh]. destruct Eh as [Ea _], H as [Ea' ?]. split; [congruence|done].
  - intros [= <-]. done.
Qed.

Lemma loop_posix fuel w r :
  w_nonops w = 0%nat -> loop act cfg usage fuel w = Some r -> untouched w (match r with inl w' => w' | inr w' => w' end).
Proof.
  revert w. induction fuel as [|fuel IH]; intros w H0; [done|]. cbn [loop].
  destruct (w_num w =? 0); [intros [= <-]; done|].
  destruct (w_argv w !! w_args w) as [[param|]|]; [|intros [= <-]; done|done].
  destruct (iterate act cfg usage w param) as [i|] eqn:Ei; [|done].
  assert (untouched w (match i with Fatal w' => w' | Break w' => w' | Continue w' => w' end)) as Hi.
  { revert Ei. unfold iterate. rewrite Hposix. destruct (rd param 0); [|done].
    match goal with |- match ?e with _ => _ end = _ -> _ => destruct e as [[]|]; [intros [= <-]; done| |done] end.
    destruct (rd param 1); [|done].
    match goal with |- match ?e with _ => _ end = _ -> _ => destruct e as [[]|]; [| |done] end.
    - destruct (shift_advance w) as [w'|] eqn:Es; [|done]. intros [= <-]. by apply shift_advance_posix.
    - destruct (adv param _) as [name|]; [|done].
      destruct (group act cfg usage _ w _ param name _ _) as [[w'|w']|] eqn:Eg; [..|done];
        apply (group_posix _ _ _ _ _ _ _ _ H0) in Eg; [intros [= <-]; done|].
      destruct (shift_advance w') as [w''|] eqn:Es; [|done]. intros [= <-].
      apply shift_advance_posix in Es; [|apply Eg]. destruct Es, Eg. split; [congruence|done]. }
  destruct i as [w'|w'|w']; [intros [= <-]; done..|].
  intros H. apply IH in H; [|apply Hi]. destruct H, Hi. split; [congruence|done].
Qed.

Lemma workhorse_posix num argv s a ok w :
  workhorse act cfg usage num (Some argv) s a = Some (ok, w) -> w_argv w = argv.
Proof.
  unfold workhorse. destruct (loop act cfg usage _ _) as [[w'|w']|] eqn:El; [..|done];
    (apply loop_posix in El; [|done]); destruct El as [Ea _]; cbn in Ea.
  - intros [= <- <-]. done.
  - unfold finish. destruct (if 0 <? w_num w' then _ else _) as [n|]; [|done].
    destruct (if n <? 0 then _ else _) as [n'|]; [|done].
    destruct (finished act _ _ _) as [ok' a']. intros [= <- <-]. done.
Qed.

End posix.

End runs.

(** ** The stored options *)

Lemma matches_app {X} (P : X -> bool) l1 l2 i : matches P (l1 ++ l2) i = matches P l1 i ++ matches P l2 (i + length l1).
Proof.
  revert i. induction l1 as [|e l1 IH]; intros i; cbn [app matches length]; [by rewrite Nat.add_0_r|].
  rewrite IH, Nat.add_succ_r. by destruct (P e).
Qed.

Lemma matches_lt {X} (P : X -> bool) l i j : j ∈ matches P l i -> (i <= j < i + length l)%nat.
Proof.
  revert i. induction l as [|e l IH]; intros i; cbn [matches length]; [set_solver|].
  destruct (P e); [intros [->|H]%elem_of_cons; [lia|]|intros H]; specialize (IH _ H); lia.
Qed.

Lemma matches_lookup {X} (P : X -> bool) l i j : j ∈ matches P l i -> exists e, l !! (j - i)%nat = Some e /\ P e = true.
Proof.
  revert i. induction l as [|e l IH]; intros i; cbn [matches]; [set_solver|].
  destruct (P e) eqn:HP; [intros [->|H]%elem_of_cons|intros H].
  - exists e. by rewrite Nat.sub_diag.
  - pose proof (matches_lt _ _ _ _ H). destruct (IH _ H) as (e' & He & ?). exists e'.
    replace (j - i)%nat with (S (j - S i)) by lia. done.
  - pose proof (matches_lt _ _ _ _ H). destruct (IH _ H) as (e' & He & ?). exists e'.
    replace (j - i)%nat with (S (j - S i)) by lia. done.
Qed.

Lemma ring_frame h h' l : ring h l -> (forall a, a ∈ l -> h' !! a = h !! a) -> ring h' l.
Proof.
  intros [Hnd Ha Hl] Hf. constructor; [done..|]. intros j a Hj. rewrite Hf by (by eapply list_elem_of_lookup_2). by apply Hl.
Qed.

Lemma ring_single h a o : h !! a = Some o -> is_addr a -> next_ o = tag a -> prev_ o = tag a -> ring h [a].
Proof.
  intros Ho Ha Hn Hp. constructor; [apply NoDup_singleton|by constructor|].
  intros [|j] b; [|done]. cbn. intros [= <-]. exists o. done.
Qed.

Section store.
Context {St : Type} (usage : list (Descriptor St)) (O B om bm : Z).

(** Two arrays of nodes that do not overlap. *)
Record layout : Prop := {
  lay_options : forall k, 0 <= k < om -> is_addr (elem O k);
  lay_buffer : forall i, 0 <= i < bm -> is_addr (elem B i);
  lay_disjoint : forall k i, 0 <= k < om -> 0 <= i < bm -> elem O k <> elem B i }.

Definition has_index (k : Z) (o : Option) : bool := bool_decide (index usage o = Some k).

(** The positions of the options with index [k]. *)
Definition occurrences (k : Z) (l : list Option) : list nat := matches (has_index k) l 0.

Definition slot (i : nat) : Z := elem B (Z.of_nat i).

(** The arrays after the options [l] were stored: the buffer has them in order, the rest of
    it is empty, and entry [k] of the options is a copy of the first with index [k], followed
    in its list by the others in the buffer. *)
Record stored (h : heap) (l : list Option) : Prop := {
  st_buffer : forall i o, l !! i = Some o -> content <$> h !! slot i = Some (content o);
  st_empty : forall i, (length l <= i)%nat -> Z.of_nat i < bm -> h !! slot i = Some (Option_ctor (slot i));
  st_none : forall k, 0 <= k < om -> occurrences k l = [] -> h !! elem O k = Some (Option_ctor (elem O k));
  st_some : forall k i js, 0 <= k < om -> occurrences k l = i :: js ->
    content <$> h !! elem O k = content <$> l !! i /\ ring h (elem O k :: map slot js) }.

(** What the parser stores: options with a descriptor, as [init] makes them. *)
Definition storable (o : Option) : Prop :=
  exists d name arg k, o = init 0 (Some d) name arg /\ index usage o = Some k /\ 0 <= k < om.

Lemma elem_inj b i j : elem b i = elem b j -> i = j.
Proof. unfold elem, sizeof_Option. lia. Qed.

Lemma slot_inj i j : slot i = slot j -> i = j.
Proof. unfold slot. intros H%elem_inj. lia. Qed.

Lemma content_init a b d n g : content (init a d n g) = content (init b d n g).
Proof. done. Qed.

Lemma occurrences_snoc k l o :
  occurrences k (l ++ [o]) = occurrences k l ++ (if has_index k o then [length l] else []).
Proof. unfold occurrences. rewrite matches_app. cbn. by destruct (has_index k o). Qed.

Context (Hlay : layout).

Lemma content_lookup h a c : content <$> h !! a = Some c -> is_Some ((h : heap) !! a).
Proof. destruct (h !! a); [by eexists|done]. Qed.

Lemma stored_options h l k : stored h l -> Forall storable l -> 0 <= k < om ->
  exists o, h !! elem O k = Some o /\ filled o = negb (bool_decide (occurrences k l = [])).
Proof.
  intros Hst Hl Hk. destruct (occurrences k l) as [|i js] eqn:Eo.
  - exists (Option_ctor (elem O k)). split; [by apply Hst|done].
  - destruct (st_some h l Hst k i js Hk Eo) as [Hc _].
    destruct (matches_lookup (has_index k) l 0 i) as (e & He & _).
    { fold (occurrences k l). rewrite Eo. set_solver. }
    rewrite Nat.sub_0_r in He. rewrite He in Hc. destruct (h !! elem O k) as [o|]; [|done].
    exists o. split; [done|]. cbn in Hc. injection Hc as Hd _ _ _.
    rewrite Forall_lookup in Hl. destruct (Hl _ _ He) as (d & n & g & k' & -> & _). unfold filled. by rewrite Hd.
Qed.

(** One more option [o] with index [k]: it is in its slot, it is at the end of the list of
    entry [k], and nothing but that list has changed. *)
Lemma stored_snoc h h' l o k :
  stored h l -> Z.of_nat (length l) < bm -> 0 <= k < om -> (forall k', has_index k' o = bool_decide (k = k')) ->
  content <$> h' !! slot (length l) = Some (content o) ->
  (forall b, b <> slot (length l) -> b <> elem O k -> content <$> h' !! b = content <$> h !! b) ->
  (forall b, b <> slot (length l) -> b <> elem O k -> b ∉ map slot (occurrences k l) -> h' !! b = h !! b) ->
  content <$> h' !! elem O k = (match occurrences k l with [] => Some (content o) | i :: _ => content <$> l !! i end) ->
  ring h' (elem O k :: map slot (tail (occurrences k l ++ [length l]))) ->
  stored h' (l ++ [o]).
Proof.
  intros Hst Hbm Hk Hidx Hn Hcont Hframe Hhead Hring.
  assert (forall i, (i < length l)%nat -> slot i <> elem O k) as HsO.
  { intros i Hi E. symmetry in E. revert E. unfold slot. apply lay_disjoint; done || lia. }
  constructor.
  - intros i e He. destruct (decide (i < length l)%nat) as [Hi|Hi].
    + rewrite lookup_app_l in He by done. rewrite Hcont; [by apply Hst|intros E%slot_inj; lia|by apply HsO].
    + rewrite lookup_app_r in He by lia. destruct (i - length l)%nat eqn:Ei; [|done]. cbn in He. injection He as <-.
      by replace i with (length l) by lia.
  - intros i Hi Hib. rewrite length_app in Hi. cbn in Hi. rewrite Hframe.
    + apply Hst; lia.
    + intros E%slot_inj. lia.
    + intros E. symmetry in E. revert E. unfold slot. apply lay_disjoint; done || lia.
    + intros (j & E%slot_inj & Hj%matches_lt)%list_elem_of_fmap. lia.
  - intros k' Hk'. rewrite occurrences_snoc, Hidx. case_bool_decide as Hkk; [by intros []%app_nil|].
    rewrite app_nil_r. intros Hnone. rewrite Hframe; [by apply Hst|..].
    + apply lay_disjoint; done || lia.
    + by intros E%elem_inj.
    + intros (j & E & Hj%matches_lt)%list_elem_of_fmap. revert E. apply lay_disjoint; done || lia.
  - intros k' i js Hk'. rewrite occurrences_snoc, Hidx. case_bool_decide as Hkk.
    + subst k'. intros E. rewrite E in Hring. split; [|exact Hring]. rewrite Hhead.
      destruct (occurrences k l) as [|i' js'] eqn:Eo; cbn in E; injection E as <- <-.
      * by rewrite lookup_app_r, Nat.sub_diag by lia.
      * rewrite lookup_app_l; [done|]. assert (i' ∈ occurrences k l) as Hi' by (rewrite Eo; set_solver).
        apply matches_lt in Hi'. lia.
    + rewrite app_nil_r. intros E. destruct (st_some h l Hst k' i js Hk' E) as [Hc Hr].
      assert (forall j, j ∈ occurrences k' l -> (j < length l)%nat /\ j ∉ occurrences k l) as Hocc.
      { intros j Hj. split; [apply matches_lt in Hj; lia|]. intros Hj'.
        apply matches_lookup in Hj as (e & He & H1), Hj' as (e' & He' & H2). rewrite He in He'. injection He' as <-.
        unfold has_index in H1, H2. b2p. congruence. }
      rewrite E in Hocc. split.
      * rewrite Hcont; [|apply lay_disjoint; done || lia|by intros ?%elem_inj].
        rewrite lookup_app_l; [done|]. apply Hocc. set_solver.
      * eapply ring_frame; [exact Hr|]. intros a [->|(j & -> & Hj)%list_elem_of_fmap]%elem_of_cons.
        -- apply Hframe; [apply lay_disjoint; done || lia|by intros ?%elem_inj|].
           intros (j & Ej & Hj%matches_lt)%list_elem_of_fmap. revert Ej. apply lay_disjoint; done || lia.
        -- destruct (Hocc j) as [Hlt Hno]; [set_solver|].
           apply Hframe; [intros ?%slot_inj; lia|by apply HsO|].
           intros (j' & ->%slot_inj & ?)%list_elem_of_fmap. done.
Qed.

Lemma perform_stored h l p o :
  stored h l -> Forall storable l -> storable o -> op_count p = Z.of_nat (length l) ->
  Z.of_nat (length l) < bm -> Z.of_nat (length l) < 0x7fffffff ->
  exists h', store_perform usage O B (-1) (h, p) o
    = Some (true, (h', mkParser (op_count p + 1) (nonop_count p) (nonop_args p) (err p))) /\ stored h' (l ++ [o]).
Proof.
  intros Hst Hl Ho Hp Hbm Hmax. unfold store_perform. rewrite Hp.
  change ((-1 <? 0) || (Z.of_nat (length l) <? -1)) with true. cbv iota.
  replace (Z.of_nat (length l) =? 0x7fffffff) with false by (symmetry; apply Z.eqb_neq; lia).
  fold (slot (length l)).
  destruct Ho as (d & name & arg & k & -> & Hk & Hkr).
  unfold assign at 1. rewrite (st_empty h l Hst (length l)) by lia. cbn [o_desc o_name o_arg init].
  set (h1 := <[slot (length l) := _]> h).
  assert (h1 !! slot (length l) = Some (init (slot (length l)) (Some d) name arg)) as H1n by (apply lookup_insert_eq).
  rewrite H1n. change (index usage (init (slot (length l)) (Some d) name arg)) with (index usage (init 0 (Some d) name arg)).
  rewrite Hk.
  assert (forall k', 0 <= k' < om -> elem O k' <> slot (length l)) as HOn by (intros; apply lay_disjoint; lia || done).
  assert (forall b, b <> slot (length l) -> h1 !! b = h !! b) as H1 by (intros; by apply lookup_insert_ne).
  assert (forall k', has_index k' (init 0 (Some d) name arg) = bool_decide (k = k')) as Hidx.
  { intros k'. unfold has_index. rewrite Hk. apply bool_decide_ext. split; [by intros [= ->]|by intros ->]. }
  rewrite H1 by by apply HOn.
  destruct (stored_options h l k Hst Hl Hkr) as (hd & Hhead & Hfill). rewrite Hhead, Hfill. clear Hfill.
  destruct (occurrences k l) as [|i js] eqn:Eo.
  - rewrite bool_decide_true by done. cbn [negb]. unfold assign. rewrite H1, Hhead by by apply HOn.
    cbn [o_desc o_name o_arg init].
    eexists. split; [done|]. eapply (stored_snoc h _ l _ k); [done..| | | | |].
    + rewrite lookup_insert_ne by by apply HOn. by rewrite H1n.
    + intros b Hb Hbk. rewrite lookup_insert_ne by done. by rewrite H1.
    + intros b Hb Hbk _. rewrite lookup_insert_ne by done. by rewrite H1.
    + rewrite lookup_insert_eq, Eo. done.
    + rewrite Eo. cbn. eapply ring_single; [apply lookup_insert_eq|by apply lay_options|done..].
  - rewrite bool_decide_false by done. cbn [negb].
    destruct (st_some h l Hst k i js Hkr Eo) as [Hc Hr].
    assert (forall j, j ∈ js -> (j < length l)%nat) as Hjs.
    { intros j Hj. assert (j ∈ occurrences k l) as Hj' by (rewrite Eo; set_solver). apply matches_lt in Hj'. lia. }
    assert (slot (length l) ∉ elem O k :: map slot js) as Hnew.
    { intros [E|(j & E%slot_inj & Hj%Hjs)%list_elem_of_fmap]%elem_of_cons; [by apply (HOn k)|lia]. }
    destruct (append_spec h1 (elem O k :: map slot js) (elem O k) (slot (length l))) as (h2 & -> & Hr2 & Hf2 & Hc2).
    + eapply ring_frame; [exact Hr|]. intros a Ha. apply H1. intros ->. done.
    + set_solver.
    + done.
    + unfold slot. apply lay_buffer; done || lia.
    + by rewrite H1n.
    + eexists. split; [done|]. eapply (stored_snoc h _ l _ k); [done..| | | | |].
      * by rewrite Hc2, H1n.
      * intros b Hb Hbk. by rewrite Hc2, H1.
      * intros b Hb Hbk. rewrite Eo. cbn. intros Hnin. rewrite Hf2, H1; [done..| |done].
        intros [->|?]%elem_of_cons; [done|]. set_solver.
      * rewrite Hc2, H1, Eo by by apply HOn. done.
      * rewrite Eo. cbn [app tail]. by rewrite map_app.
Qed.

End store.

(** ** [Stats] and [Parser] together *)

Lemma array_lookup base n i : 0 <= i < n -> array base n !! elem base i = Some (Option_ctor (elem base i)).
Proof.
  intros Hi. unfold array. apply elem_of_list_to_map_1.
  - rewrite <- list_fmap_compose. apply NoDup_fmap_2; [|apply NoDup_seq].
    intros j k. cbn. intros E%elem_inj. lia.
  - apply list_elem_of_fmap. exists (Z.to_nat i). rewrite Z2Nat.id by lia. split; [done|]. apply elem_of_seq. lia.
Qed.

Lemma array_lookup_other base n a : (forall i, 0 <= i < n -> a <> elem base i) -> array base n !! a = None.
Proof.
  intros H. unfold array. apply not_elem_of_list_to_map_1. rewrite <- list_fmap_compose.
  intros (i & -> & Hi%elem_of_seq)%list_elem_of_fmap. eapply H; [|done]. lia.
Qed.

Section composition.
Context {St : Type} (es usage : list (Descriptor St)) (Husage : usage_ok es usage).
Context (Hindex : Forall (fun d => 0 <= d_index d < 2 ^ 31 - 2) es).

Definition options_needed (m : Z) : Z := foldl (fun m d => Z.max m (d_index d + 2)) m es.

Lemma max_index_spec m : max_index usage m = Some (options_needed m).
Proof.
  unfold options_needed. destruct Husage as [Hes (e & rest & -> & He & _)]. clear Husage. revert m.
  induction es as [|d ds IH]; intros m; cbn [app max_index foldl]; [by rewrite He|].
  rewrite Forall_cons in Hes. destruct Hes as [[[sh Hsh] _] Hes]. rewrite Hsh.
  rewrite Forall_cons in Hindex. destruct Hindex as [Hd Hds].
  rewrite !(wrap_id 32) by (unfold word; lia).
  rewrite <- IH by done. destruct (Z.leb_spec m (d_index d + 1)); f_equal; lia.
Qed.

Lemma options_needed_ge m : m <= options_needed m /\ forall d, d ∈ es -> d_index d + 2 <= options_needed m.
Proof.
  unfold options_needed. clear. revert m. induction es as [|d ds IH]; intros m; cbn [foldl]; [split; [lia|set_solver]|].
  destruct (IH (Z.max m (d_index d + 2))) as [H1 H2]. split; [lia|].
  intros d' [->|H]%elem_of_cons; [lia|by apply H2].
Qed.

Lemma from_table_storable m o : from_table es o -> storable usage (options_needed m) o.
Proof.
  intros (d & name & arg & Hd & ->). destruct Husage as [Hes (e & rest & -> & _)].
  destruct (lookup_lt_is_Some_2 es d Hd) as [desc Hdesc]. exists d, (Some name), arg, (d_index desc).
  pose proof (proj2 (options_needed_ge m) desc ltac:(by eapply list_elem_of_lookup_2)) as Hle.
  rewrite Forall_lookup in Hindex. specialize (Hindex _ _ Hdesc). split; [done|]. split; [|lia].
  unfold index. cbn [o_desc init]. rewrite (lookup_app_l_Some _ _ _ _ Hdesc). unfold to_signed.
  rewrite wrap_id by (unfold word; lia). replace (d_index desc <? 2 ^ (32 - 1)) with true; [done|].
  symmetry. apply Z.ltb_lt. lia.
Qed.

Lemma count_all n l : n + Z.of_nat (length l) <= 0x7fffffff -> perform_all CountOptionsAction n l = Some (n + Z.of_nat (length l)).
Proof.
  revert n. induction l as [|o l IH]; intros n Hn; cbn [perform_all length]; [by rewrite Z.add_0_r|].
  cbn [length] in Hn. cbn [perform CountOptionsAction].
  replace (n =? 0x7fffffff) with false by (symmetry; apply Z.eqb_neq; lia).
  rewrite IH by lia. f_equal. lia.
Qed.

Section arrays.
Context (O B om bm : Z) (Hlay : layout O B om bm).

Lemma store_all h p l1 l2 :
  stored usage O B om bm h l1 -> Forall (storable usage om) (l1 ++ l2) -> op_count p = Z.of_nat (length l1) ->
  Z.of_nat (length (l1 ++ l2)) < bm -> Z.of_nat (length (l1 ++ l2)) <= 0x7fffffff ->
  exists h', perform_all (StoreOptionAction usage O B (-1)) (h, p) l2
    = Some (h', mkParser (Z.of_nat (length (l1 ++ l2))) (nonop_count p) (nonop_args p) (err p)) /\
    stored usage O B om bm h' (l1 ++ l2).
Proof.
  revert h p l1. induction l2 as [|o l2 IH]; intros h p l1 Hst Hall Hp Hbm Hmax; cbn [perform_all].
  - rewrite app_nil_r. exists h. split; [|done]. rewrite <- Hp. by destruct p.
  - replace (l1 ++ o :: l2) with ((l1 ++ [o]) ++ l2) in * by (by rewrite <- app_assoc).
    pose proof Hall as Hall'. rewrite !Forall_app in Hall'. destruct Hall' as [[Hl1 Ho] _]. inversion Ho; subst.
    rewrite !length_app in Hbm, Hmax. cbn [length] in Hbm, Hmax.
    destruct (perform_stored usage O B om bm Hlay h l1 p o) as (h' & E & Hst'); [done..|lia|lia|].
    cbn [perform StoreOptionAction]. rewrite E.
    destruct (IH h' (mkParser (op_count p + 1) (nonop_count p) (nonop_args p) (err p)) (l1 ++ [o])) as (h'' & E' & ?);
      [done|done|cbn [op_count]; rewrite Hp, length_app; cbn [length]; lia|rewrite !length_app; cbn [length]; lia..|].
    exists h''. split; [exact E'|done].
Qed.

Lemma stored_init : stored usage O B om bm (array O om ∪ array B bm) [].
Proof.
  assert (forall i, (0 <= i)%nat -> Z.of_nat i < bm ->
    (array O om ∪ array B bm) !! slot B i = Some (Option_ctor (slot B i))) as Hb.
  { intros i _ Hi. unfold slot. rewrite lookup_union_r; [by apply array_lookup; lia|].
    apply array_lookup_other. intros k Hk E. symmetry in E. revert E. apply (lay_disjoint O B om bm Hlay); lia. }
  constructor; [done| |intros k Hk _|done].
  - intros i _. apply Hb. lia.
  - by rewrite (lookup_union_Some_l _ _ _ (Option_ctor (elem O k))) by by apply array_lookup.
Qed.

End arrays.

Lemma record_all l0 l : perform_all RecordAction l0 l = Some (l0 ++ l).
Proof.
  revert l0. induction l as [|o l IH]; intros l0; cbn [perform_all]; [by rewrite app_nil_r|].
  cbn [perform RecordAction]. by rewrite IH, <- app_assoc.
Qed.

(** An action that accepts the options of a run, in the same run. *)
Lemma run_action {A} (act : Action A) cfg toks s s' v l a a' :
  reference RecordAction cfg usage es toks (s, []) = Some (v, (s', l)) -> perform_all act a l = Some a' ->
  reference act cfg usage es toks (s, a) = Some (v, (s', a')).
Proof.
  intros Href Ha.
  pose proof (reference_sim act a cfg cfg es usage eq (fun _ => eq_refl) Husage ltac:(done)
    (list.Forall_true _ es (eq_agree (print_errors cfg))) toks s s [] eq_refl) as H.
  rewrite Href in H. destruct H as [_ H]. by destruct (H _ _ eq_refl Ha) as (? & -> & <-).
Qed.

Context (Hstable : Forall stable es).

(** Runs from other states, with or without messages, find the same options. *)
Lemma run_again cfg1 cfg2 toks s s' v l s2 :
  same_settings cfg1 cfg2 ->
  reference RecordAction cfg1 usage es toks (s, []) = Some (v, (s', l)) ->
  Forall (from_table es) l /\ exists s2', reference RecordAction cfg2 usage es toks (s2, []) = Some (v, (s2', l)).
Proof.
  intros Hcfg Href.
  assert (Forall (agree any_states (print_errors cfg1) (print_errors cfg2)) es) as Hag.
  { eapply Forall_impl; [exact Hstable|]. intros d. apply stable_agree. }
  pose proof (reference_sim RecordAction [] cfg1 cfg2 es usage any_states ltac:(done) Husage Hcfg Hag toks s s2 [] I) as H.
  rewrite Href in H. destruct H as [(k & E & Hk) H]. cbn in E. subst k. split; [done|].
  destruct (H [] l eq_refl (record_all [] l)) as (s2' & E & _). by exists s2'.
Qed.

(** The number of options is counted and an array of that size takes them. *)
Lemma Stats_Parser toks tail num minlen single s s1 ok opts rest l :
  num_ok num toks tail -> separate toks -> Forall tok_ok toks ->
  reference RecordAction (mkConfig false minlen single false) usage es toks (s, []) = Some (ok, opts, rest, (s1, l)) ->
  Z.of_nat (length l) < 0x7fffffff ->
  let argv := map Some toks ++ tail in
  Forall (from_table es) l /\
  exists st w, Stats_of false usage num (Some argv) minlen single s = Some (st, w) /\ w_argv w = argv /\ w_chk w = s1 /\
    buffer_max st = Z.of_nat (length l) + 1 /\ options_max st = options_needed 1 /\
    forall O B, layout O B (options_max st) (buffer_max st) -> forall s2,
    exists s2' p h w', reference RecordAction (mkConfig false minlen single true) usage es toks (s2, []) = Some (ok, opts, rest, (s2', l)) /\
      Parser_of false usage num (Some (w_argv w)) (array O (options_max st) ∪ array B (buffer_max st)) O B
                     minlen single (-1) s2 = Some (p, h, w') /\
      w_argv w' = argv /\ w_chk w' = s2' /\ optionsCount p = Z.of_nat (length l) /\ error p = negb ok /\
      stored usage O B (options_max st) (buffer_max st) h l /\
      (ok = true -> nonOptionsCount p = Z.of_nat (length rest) /\ (rest <> [] -> nonOptions p = Some (length opts))).
Proof.
  intros Hn Hsep Htok Href Hl argv.
  destruct (run_again (mkConfig false minlen single false) (mkConfig false minlen single true) _ _ _ _ _ s ltac:(done) Href) as [Hft _]. split; [done|].
  assert (Forall (storable usage (options_needed 1)) l) as Hstor by (eapply Forall_impl; [exact Hft|]; apply from_table_storable).
  pose proof (run_action CountOptionsAction _ _ _ _ _ _ 1 _ Href (count_all 1 l ltac:(lia))) as Hrc.
  pose proof (workhorse_refines CountOptionsAction (mkConfig false minlen single false) es usage Husage toks tail num s 1 Hn Hsep Htok) as Hw.
  cbn zeta in Hw. rewrite Hrc in Hw. fold argv in Hw.
  assert (exists b w, workhorse CountOptionsAction (mkConfig false minlen single false) usage num (Some argv) s 1 = Some (b, w)
    /\ w_chk w = s1 /\ w_act w = 1 + Z.of_nat (length l)) as (b & w & Ew & Echk & Eact).
  { destruct ok; destruct Hw as (w & E & Hc & Ha & _); by eexists _, w. }
  clear Hw. exists (mkStats (w_act w) (options_needed 1)), w. unfold Stats_of, Stats_add. cbn [options_max buffer_max Stats_ctor].
  rewrite max_index_spec, Ew. split; [done|].
  assert (w_argv w = argv) as -> by (by eapply workhorse_posix in Ew). split; [done|]. split; [done|]. split; [lia|]. split; [done|].
  intros O B Hlay s2. rewrite Eact in *.
  destruct (run_again (mkConfig false minlen single false) (mkConfig false minlen single true) _ _ _ _ _ s2 ltac:(done) Href) as [_ [s2' Href2]].
  exists s2'.
  set (h0 := array O (options_needed 1) ∪ array B (1 + Z.of_nat (length l))) in *.
  pose proof (stored_init O B _ _ Hlay) as Hinit. fold h0 in Hinit.
  set (p0 := mkParser 0 0 None false).
  destruct (store_all O B _ _ Hlay h0 p0 [] l Hinit Hstor eq_refl) as (h & Eall & Hst); [cbn [app]; lia..|].
  pose proof (run_action (StoreOptionAction usage O B (-1)) _ _ _ _ _ _ _ _ Href2 Eall) as Hrp.
  pose proof (workhorse_refines (StoreOptionAction usage O B (-1)) (mkConfig false minlen single true) es usage Husage toks tail num s2
    (h0, p0) Hn Hsep Htok) as Hw. cbn zeta in Hw. rewrite Hrp in Hw. fold argv in Hw.
  unfold Parser_of, parse, StoreOptionAction_ctor. cbn [empty_slot].
  change ((-1 <? 0) || (0 <? -1)) with true. cbv iota.
  change (elem B 0) with (slot B 0). rewrite (st_empty usage O B _ _ _ _ Hinit 0) by (cbn [length]; lia).
  cbn [filled Option_ctor o_desc nonop_count nonop_args err Parser_ctor]. fold p0.
  destruct ok.
  - destruct Hw as (w' & Ew' & Hc & Ha & _). rewrite Ew'.
    cbn [finished StoreOptionAction store_finished snd fst app] in Ha. rewrite Ha.
    destruct (0 <? Z.of_nat (length rest)) eqn:Er;
      (eexists _, _, w'; split; [done|]; split; [done|]; split; [by eapply workhorse_posix in Ew'|]; split; [done|]; split; [done|]; split; [done|];
       split; [exact Hst|]; intros _; b2p; destruct rest; cbn [length] in *; (lia || done)).
  - destruct Hw as (w' & Ew' & Hc & Ha & _). rewrite Ew', Ha.
    eexists _, _, w'. split; [done|]. split; [done|]. split; [by eapply workhorse_posix in Ew'|]. done.
Qed.

End composition.

(** ** The parser returns *)

Section total.
Context {St : Type} (cfg : config) (es usage : list (Descriptor St)) (Husage : usage_ok es usage).

(** A check that returns and keeps an invariant of the state. *)
Definition keeps (P : St -> Prop) (d : Descriptor St) : Prop :=
  forall s o m, P s -> exists st s', check_arg d s o m = Some (st, s') /\ P s'.

Definition total : Descriptor St -> Prop := keeps (fun _ => True).

Context (P : St -> Prop) (Hkeeps : Forall (keeps P) es).

(** A run returns, with at most [n] more options, and the state has kept the invariant. *)
Definition yields {X} (n : nat) (l : list Option) (r : option (X * (St * list Option))) : Prop :=
  exists v s l', r = Some (v, (s, l')) /\ (length l' <= n + length l)%nat /\ P s.

Lemma yields_ret {X} n l (v : X) s : P s -> yields n l (Some (v, (s, l))).
Proof. exists v, s, l. split; [done|]. split; [lia|done]. Qed.

Lemma yields_bind {X Y} n m l (r : option (X * (St * list Option))) (k : X -> St * list Option -> option (Y * (St * list Option))) :
  yields n l r -> (forall v s l', P s -> yields m l' (k v (s, l'))) -> yields (n + m) l (let! (v, x) := r in k v x).
Proof.
  intros (v & s & l' & -> & Hl & Hs) Hk. destruct (Hk v s l' Hs) as (w & s' & l'' & E & Hl' & Hs'). exists w, s', l''.
  split; [exact E|]. split; [lia|done].
Qed.

Lemma visit_yields d name arg s l : (d < length es)%nat -> P s -> yields 1 l (visit RecordAction cfg usage (s, l) d name arg).
Proof.
  intros Hd Hs. unfold visit. destruct Husage as [Hes (e & rest & -> & _)].
  destruct (lookup_lt_is_Some_2 es d Hd) as [desc Hdesc]. rewrite (lookup_app_l_Some _ _ _ _ Hdesc).
  rewrite Forall_lookup in Hkeeps. destruct (Hkeeps _ _ Hdesc s (init 0 (Some d) (Some name) arg) (print_errors cfg) Hs) as (st & s' & E & Hs').
  cbn [fst snd]. rewrite E.
  destruct st; cbn [perform RecordAction]; [| | |by apply yields_ret]; (do 3 eexists; split; [done|]; rewrite length_app; cbn; split; [lia|done]).
Qed.

Lemma group_yields obj cs nx s l : P s -> yields (length cs) l (ref_group RecordAction cfg usage es obj cs nx (s, l)).
Proof.
  revert s l. induction cs as [|c cs IH]; intros s l Hs; cbn [ref_group]; [by apply yields_ret|].
  destruct (target es (ref_short es c)) as [d|] eqn:Et.
  - eapply (yields_bind 1 (length cs) l _ (fun v x => match v with None => _ | Some true => _ | Some false => _ end)).
    + apply visit_yields; [|done]. eapply (target_lt es usage); [done| |exact Et]. apply (find_short_spec es usage Husage).
    + intros [[]|] ? ? ?; [by apply yields_ret|by apply IH|by apply yields_ret].
  - destruct (IH s l Hs) as (v & s' & l' & E & Hl & Hs'). exists v, s', l'. split; [exact E|]. split; [cbn; lia|done].
Qed.

Lemma option_yields p name d nx s l n :
  (forall e, d = Some e -> (e < length es)%nat) -> (1 <= n)%nat -> P s -> yields n l (ref_option RecordAction cfg usage p name d nx (s, l)).
Proof.
  intros Hd Hn Hs. unfold ref_option. destruct d as [d|]; [|by apply yields_ret].
  replace n with (1 + (n - 1))%nat by lia.
  eapply (yields_bind 1 (n - 1) l _ (fun v x => Some (_, x))); [apply visit_yields; [by apply Hd|done]|].
  intros v ? ? ?. by apply yields_ret.
Qed.

Lemma token_yields p nx s l : is_plain (p_str p) = false -> P s -> yields (length (p_str p)) l (ref_token RecordAction cfg usage es p nx (s, l)).
Proof.
  intros Hp Hst. unfold ref_token. destruct (p_str p) as [|? [|c rest]]; [done..|].
  destruct (bool_decide (c = "-"%char)).
  - apply option_yields; [|cbn; lia|done]. intros e He. eapply (target_lt es usage); [done| |exact He]. apply (find_long_spec es usage Husage).
  - assert (yields (length (a :: c :: rest)) l (ref_group RecordAction cfg usage es (p_obj p) (c :: rest) nx (s, l))) as Hg.
    { destruct (group_yields (p_obj p) (c :: rest) nx s l Hst) as (v & s' & l' & E & Hl & Hs'). exists v, s', l'.
      split; [exact E|]. split; [cbn in *; lia|done]. }
    destruct (single_minus_longopt cfg); [|exact Hg].
    destruct (ref_long cfg es (c :: rest)) as [d|] eqn:Er; [|exact Hg].
    apply option_yields; [|cbn; lia|done]. intros e [= <-]. by apply (find_long_spec es usage Husage) in Er.
Qed.

Definition chars (toks : list cptr) : nat := sum_list (map (fun p => length (p_str p)) toks).

Lemma reference_yields toks s l : P s -> yields (chars toks) l (reference RecordAction cfg usage es toks (s, l)).
Proof.
  remember (length toks) as n eqn:Hlen. revert toks Hlen s l.
  induction n as [n IH] using lt_wf_ind. intros [|p rest] -> s l Hs; cbn [reference]; [by apply yields_ret|].
  cbn [length] in IH. change (chars (p :: rest)) with (length (p_str p) + chars rest)%nat.
  assert (forall ps r s l, (length r < S (length rest))%nat -> P s ->
    yields (chars r) l (consumed ps (reference RecordAction cfg usage es r (s, l)))) as Hc.
  { intros ps r s' l' Hr Hs'. rewrite <- (Nat.add_0_r (chars r)).
    eapply (yields_bind (chars r) 0 l' _ (fun v x => Some (_, x))); [eapply IH; [|done|done]; lia|]. intros v ? ? ?. by apply yields_ret. }
  destruct (is_plain (p_str p)) eqn:Epl.
  { destruct (gnu cfg); [|by apply yields_ret]. rewrite Nat.add_comm.
    eapply (yields_bind (chars rest) _ l _ (fun v x => Some (_, x))); [eapply IH; [|done|done]; lia|]. intros v ? ? ?. by apply yields_ret. }
  destruct (is_end (p_str p)); [by apply yields_ret|].
  eapply (yields_bind _ (chars rest) l _
    (fun v x => match v, rest with None, _ => Some (false, [], [], x) | Some true, q :: r => consumed [p; q] (reference RecordAction cfg usage es r x)
                | Some _, _ => consumed [p] (reference RecordAction cfg usage es rest x) end)); [by apply token_yields|].
  intros [[]|] s' l' Hs'; [|destruct rest; apply Hc; (done || cbn; lia)|destruct rest; by apply yields_ret].
  destruct rest as [|q r]; [apply Hc; (done || cbn; lia)|].
  destruct (Hc [p; q] r s' l') as (v & s'' & l'' & E & Hl & Hs''); [cbn; lia|done|]. exists v, s'', l''. split; [exact E|].
  change (chars (q :: r)) with (length (p_str q) + chars r)%nat. split; [lia|done].
Qed.

End total.

Lemma stored_count {St} (usage : list (Descriptor St)) O B om bm h l k :
  layout O B om bm -> stored usage O B om bm h l -> Forall (storable usage om) l -> 0 <= k < om ->
  count h (elem O k) = Some (Z.of_nat (length (occurrences usage k l))).
Proof.
  intros Hlay Hst Hl Hk. destruct (stored_options usage O B om bm Hlay h l k Hst Hl Hk) as (o & Ho & Hfill).
  destruct (occurrences usage k l) as [|i js] eqn:Eo.
  - pose proof (st_none usage O B om bm h l Hst k Hk Eo) as Hn. rewrite Ho in Hn. injection Hn as ->.
    rewrite (count_spec h [elem O k] (elem O k) (Option_ctor (elem O k))); [done| |set_solver|done].
    eapply ring_single; [exact Ho|by apply (lay_options O B om bm Hlay)|done..].
  - destruct (st_some usage O B om bm h l Hst k i js Hk Eo) as [_ Hr].
    rewrite (count_spec h _ (elem O k) o Hr) by (set_solver || done).
    rewrite Hfill, bool_decide_false by done. cbn [negb length]. rewrite length_map, Z.sub_0_r. done.
Qed.

(** ** Theorems *)

(** C18. The parser is the reference parser.  On every vector of arguments that do not
    overlap, whether it is given by its length or ends with a null pointer, [workhorse]
    reads nothing out of bounds and does what [reference] does on the list of the arguments:
    it hands the same options with the same arguments to the action in the same order,
    stops at the same option when one is refused, and otherwise leaves the vector as the
    arguments that belong to options followed by the others, both in their old order, and
    tells the action how many others there are and where they start. *)
Theorem workhorse_spec {St A} (act : Action A) (cfg : config) (es usage : list (Descriptor St)) toks tail num s a :
  usage_ok es usage -> num_ok num toks tail -> separate toks -> Forall tok_ok toks ->
  let argv := map Some toks ++ tail in
  let r := workhorse act cfg usage num (Some argv) s a in
  match reference act cfg usage es toks (s, a) with
  | None => r = None
  | Some (false, _, _, x) => exists w, r = Some (false, w) /\ w_chk w = x.1 /\ w_act w = x.2 /\ w_argv w ≡ₚ argv
  | Some (true, opts, rest, x) =>
      exists w, r = Some ((finished act x.2 (Z.of_nat (length rest)) (length opts)).1, w) /\
        w_chk w = x.1 /\ w_act w = (finished act x.2 (Z.of_nat (length rest)) (length opts)).2 /\
        w_argv w = map Some (opts ++ rest) ++ tail
  end.
Proof. intros. by apply workhorse_refines. Qed.

(** C19. [Stats] measures what [Parser] needs.  In POSIX mode, for checks that return and
    whose verdict depends on the option only, [Stats] returns and leaves the arguments alone,
    and on arrays of the sizes it gives, wherever they are, [Parser] stays inside them
    although it is told nothing about their size: the buffer holds the options in the order
    of the command line, each entry of the options array is the head of the list of the
    options with its index, [count] is their number, and the non-options are reported. *)
Theorem Stats_suffices {St} (es usage : list (Descriptor St)) toks tail num minlen single s :
  usage_ok es usage -> Forall (fun d => 0 <= d_index d < 2 ^ 31 - 2) es -> Forall stable es -> Forall total es ->
  num_ok num toks tail -> separate toks -> Forall tok_ok toks -> Z.of_nat (chars toks) < 0x7fffffff ->
  let argv := map Some toks ++ tail in
  exists ok opts rest s1 l st w,
    reference RecordAction (mkConfig false minlen single false) usage es toks (s, []) = Some (ok, opts, rest, (s1, l)) /\
    Stats_of false usage num (Some argv) minlen single s = Some (st, w) /\ w_argv w = argv /\
    buffer_max st = Z.of_nat (length l) + 1 /\
    forall O B, layout O B (options_max st) (buffer_max st) -> forall s2,
    exists p h w', Parser_of false usage num (Some argv) (array O (options_max st) ∪ array B (buffer_max st)) O B
                     minlen single (-1) s2 = Some (p, h, w') /\
      w_argv w' = argv /\ optionsCount p = Z.of_nat (length l) /\ error p = negb ok /\
      stored usage O B (options_max st) (buffer_max st) h l /\
      (forall k, 0 <= k < options_max st -> count h (elem O k) = Some (Z.of_nat (length (occurrences usage k l)))) /\
      (ok = true -> nonOptionsCount p = Z.of_nat (length rest) /\ (rest <> [] -> nonOptions p = Some (length opts))).
Proof.
  intros Hu Hi Hs Ht Hn Hsep Hok Hmax argv.
  destruct (reference_yields (mkConfig false minlen single false) es usage Hu (fun _ => True) Ht toks s [] I)
    as ([[ok opts] rest] & s1 & l & Href & Hlen & _).
  destruct (Stats_Parser es usage Hu Hi Hs toks tail num minlen single s s1 ok opts rest l)
    as (Hft & st & w & E & Ea & _ & Eb & Eo & H); [done..|cbn [length] in Hlen; lia|].
  exists ok, opts, rest, s1, l, st, w. split_and!; [done..|]. intros O B Hlay s2.
  destruct (H O B Hlay s2) as (s2' & p & h & w' & _ & Ep & ? & _ & ? & ? & Hst & ?). rewrite Ea in Ep. exists p, h, w'. split_and!; [done..| |done].
  intros k Hk. eapply stored_count; [done..| |done].
  eapply Forall_impl; [exact Hft|]. intros o Ho. rewrite Eo. by apply from_table_storable with (es := es).
Qed.

(** Appending to the list of an option.  From any of its nodes, [append] makes the new
    node the last of the list and changes no other list and no option; [first], [last] and
    [count] from any node are those of the list. *)
Theorem Option_list h l a n :
  ring h l -> a ∈ l -> n ∉ l -> is_addr n -> is_Some (h !! n) ->
  exists h', append h a n = Some h' /\ ring h' (l ++ [n]) /\
    (forall b, b ∉ l -> b <> n -> h' !! b = h !! b) /\ (forall b, content <$> h' !! b = content <$> h !! b) /\
    forall b o, b ∈ l ++ [n] -> h' !! b = Some o ->
      first h' b = head l /\ last h' b = Some n /\ (filled o = true -> count h' b = Some (Z.of_nat (length l) + 1)).
Proof.
  intros Hr Ha Hnl Hn Hin. destruct (append_spec h l a n Hr Ha Hnl Hn Hin) as (h' & E & Hr' & Hf & Hc).
  exists h'. split_and!; [done..|]. intros b o Hb Ho. split_and!.
  - rewrite (first_spec h' _ b Hr' Hb). destruct l; [set_solver|done].
  - by rewrite (last_spec h' _ b Hr' Hb), last_snoc.
  - intros Hfill. rewrite (count_spec h' _ b o Hr' Hb Ho), Hfill, length_app. f_equal. cbn. lia.
Qed.

(** ** Witnesses *)

Module OptionWitnesses.

Definition flag : CheckArg (St := unit) := Arg_None.
Definition required : CheckArg (St := unit) := fun s o _ =>
  Some (match o_arg o with None => ARG_ILLEGAL | Some _ => ARG_OK end, s).
(** An optional argument that begins with a minus, such as a negative number. *)
Definition negative : CheckArg (St := unit) := fun s o _ =>
  Some (match o_arg o with
        | Some p => if bool_decide (head (p_str p) = Some "-"%char) then ARG_OK else ARG_IGNORE
        | None => ARG_IGNORE
        end, s).

Definition entries : list (Descriptor unit) :=
  [mkDescriptor 0 0 (Some (lit "o")) (Some (lit "offset")) negative None;
   mkDescriptor 1 0 (Some (lit "p")) (Some (lit "pattern")) required None;
   mkDescriptor 2 0 (Some (lit "a")) (Some (lit "all")) flag None;
   mkDescriptor 2 0 (Some (lit "b")) (Some (lit "brief")) flag None;
   mkDescriptor 2 0 (Some (lit "c")) (Some (lit "count")) flag None].

Definition table : list (Descriptor unit) := entries ++ [mkDescriptor 0 0 None None flag None].

Definition cmdline (args : list string) : list cptr := imap (fun i s => mkPtr i (lit s)) args.

(** Three options, one with an argument, and a non-option. *)
Definition args : list cptr := cmdline ["-ab"%string; "--pattern"%string; "-abc"%string; "rest"%string].

Lemma table_ok : usage_ok entries table.
Proof. split; [repeat constructor; by eexists|]. by eexists _, []. Qed.

Lemma args_ok : num_ok 4 args [] /\ separate args /\ Forall tok_ok args.
Proof.
  split_and!; [by left| |].
  - unfold separate. apply (bool_decide_unpack _). by vm_compute.
  - unfold tok_ok. repeat constructor; done.
Qed.

Lemma entries_ok : Forall (fun d => 0 <= d_index d < 2 ^ 31 - 2) entries /\ Forall stable entries /\ Forall total entries.
Proof.
  split; [repeat constructor; cbn; lia|]. split; [by repeat constructor|].
  repeat (apply List.Forall_cons; [intros ????; by eexists _, _|]). apply List.Forall_nil.
Qed.

Lemma arrays_ok om bm : 0 <= om <= 100 -> 0 <= bm <= 100 -> layout 0x1000 0x10000 om bm.
Proof.
  intros Ho Hb. unfold elem, sizeof_Option. constructor; unfold is_addr, word, elem, sizeof_Option.
  - intros k Hk. split; [lia|]. rewrite Z.bit0_odd, Z.odd_add, Z.odd_mul. done.
  - intros k Hk. split; [lia|]. rewrite Z.bit0_odd, Z.odd_add, Z.odd_mul. done.
  - lia.
Qed.

Lemma workhorse_spec_witness :
  usage_ok entries table /\ num_ok 4 args [] /\
  exists w, workhorse RecordAction (mkConfig true 0 false true) table 4 (Some (map Some args ++ [])) tt [] = Some (true, w) /\
    w_argv w = map Some args.
Proof.
  destruct args_ok as (Hn & Hs & Ht). split; [apply table_ok|]. split; [exact Hn|].
  pose proof (workhorse_spec RecordAction (mkConfig true 0 false true) entries table args [] 4 tt [] table_ok Hn Hs Ht) as H.
  cbn zeta in H.
  assert (reference RecordAction (mkConfig true 0 false true) table entries args (tt, []) =
    Some (true, take 3 args, drop 3 args,
      (tt, [init 0 (Some 2%nat) (Some (mkPtr 0 (lit "ab"))) None; init 0 (Some 3%nat) (Some (mkPtr 0 (lit "b"))) None;
            init 0 (Some 1%nat) (Some (mkPtr 1 (lit "--pattern"))) (Some (mkPtr 2 (lit "-abc")))]))) as E by (by vm_compute).
  rewrite E in H. destruct H as (w & Hw & _ & _ & Ha). exists w. split; [exact Hw|]. rewrite Ha. by vm_compute.
Defined.

Lemma Stats_suffices_witness :
  exists st w, Stats_of false table 4 (Some (map Some args ++ [])) 0 false tt = Some (st, w) /\ buffer_max st = 4 /\
    exists p h w', Parser_of false table 4 (Some (map Some args ++ [])) (array 0x1000 (options_max st) ∪ array 0x10000 (buffer_max st))
                     0x1000 0x10000 0 false (-1) tt = Some (p, h, w') /\ optionsCount p = 3 /\ nonOptions p = Some 3%nat.
Proof.
  destruct args_ok as (Hn & Hs & Ht), entries_ok as (Hi & Hst & Htot).
  destruct (Stats_suffices entries table args [] 4 0 false tt table_ok Hi Hst Htot Hn Hs Ht ltac:(by vm_compute))
    as (ok & opts & rest & s' & l & st & w & Href & Est & Ew & Eb & H).
  assert (reference RecordAction (mkConfig false 0 false false) table entries args (tt, []) =
    Some (true, take 3 args, drop 3 args,
      (tt, [init 0 (Some 2%nat) (Some (mkPtr 0 (lit "ab"))) None; init 0 (Some 3%nat) (Some (mkPtr 0 (lit "b"))) None;
            init 0 (Some 1%nat) (Some (mkPtr 1 (lit "--pattern"))) (Some (mkPtr 2 (lit "-abc")))]))) as E by (by vm_compute).
  rewrite E in Href. injection Href as <- <- <- <- <-.
  assert (options_max st = 4) as Eo.
  { revert Est. vm_compute. by intros [= <- _]. }
  exists st, w. split; [exact Est|]. split; [exact Eb|].
  destruct (H 0x1000 0x10000 (arrays_ok (options_max st) (buffer_max st) ltac:(rewrite Eo; lia) ltac:(rewrite Eb; cbn; lia)) tt) as (p & h & w' & Ep & _ & Ec & _ & _ & _ & Hr).
  exists p, h, w'. split; [exact Ep|]. split; [exact Ec|]. by apply Hr.
Defined.

(** A list of two nodes and a third one. *)
Definition three : heap :=
  {[ 0x1000 := mkOption 0x2000 (tag 0x2000) (Some 0%nat) None None 0;
     0x2000 := mkOption (tag 0x1000) 0x1000 (Some 0%nat) None None 0;
     0x3000 := Option_ctor 0x3000 ]}.

Lemma Option_list_witness :
  exists h', append three 0x2000 0x3000 = Some h' /\ ring h' [0x1000; 0x2000; 0x3000] /\
    first h' 0x3000 = Some 0x1000 /\ last h' 0x1000 = Some 0x3000.
Proof.
  destruct (Option_list three [0x1000; 0x2000] 0x2000 0x3000) as (h' & E & Hr & _ & Hc & H).
  - constructor.
    + apply (bool_decide_unpack _). by vm_compute.
    + repeat constructor; cbn; done.
    + intros [|[|j]] a; [| |done]; intros [= <-]; eexists; (split; [by vm_compute|]); by vm_compute.
  - set_solver.
  - apply (bool_decide_unpack _). by vm_compute.
  - split; [cbn; done|done].
  - by eexists.
  - exists h'. split; [exact E|]. split; [exact Hr|].
    assert (is_Some (h' !! 0x3000)) as [o3 Ho3] by (destruct (ring_links h' _ Hr 2 0x3000 eq_refl) as (o & -> & _); by eexists).
    assert (is_Some (h' !! 0x1000)) as [o1 Ho1] by (destruct (ring_links h' _ Hr 0 0x1000 eq_refl) as (o & -> & _); by eexists).
    split; [by apply (H 0x3000 o3 ltac:(set_solver))|]. by apply (H 0x1000 o1 ltac:(set_solver)).
Defined.

End OptionWitnesses.

(** In GNU mode the size [Stats] gives can be too small.  The first pass moves the
    non-options behind the options; an option that did not take the non-option after it as its
    argument may then take the option that has moved up, and the argument of that one is
    read as a group of options: for [-o x -p -abc] the parser stores four options in a buffer
    that [Stats] made for two, past the end of the array. *)
Theorem Stats_gnu_too_small :
  exists st w, Stats_of true OptionWitnesses.table 4
      (Some (map Some (OptionWitnesses.cmdline ["-o"%string; "x"%string; "-p"%string; "-abc"%string]))) 0 false tt = Some (st, w) /\
    buffer_max st = 3 /\
    Parser_of true OptionWitnesses.table 4 (Some (w_argv w)) (array 0x1000 (options_max st) ∪ array 0x10000 (buffer_max st))
      0x1000 0x10000 0 false (-1) tt = None.
Proof. eexists _, _. split; [by vm_compute|]. split; by vm_compute. Qed.
