(* ===== verification/UsagePrinter.v ===== *)
(** * The usage text

    [PrintUsageImplementation] of [collector/lib/optionparser.h]: [LinePartIterator] cuts
    the help texts of a table of options into the cells of tables, [LineWrapper] breaks
    the text of a column into lines it keeps in a ring of 15, and [printUsage] lays the
    tables out.

    A pointer into a help text is the text from there on; the terminator is its end.
    The calls of the writer are the list [out] of the strings written.  [None] stands for
    undefined behaviour (an index out of bounds, [__builtin_clz(0)]) and for loops that
    have not ended; the theorems show that neither happens. *)

From S2P Require Import Prelude Containers Utility OptionParser.

Open Scope Z_scope.
Open Scope collector_scope.

(** ** Characters *)

Definition VT : ascii := "011"%char.
Definition TAB : ascii := "009"%char.
Definition LF : ascii := "010"%char.
Definition SP : ascii := " "%char.

(** [PrintUsageImplementation::upmax]. *)
Definition upmax (i1 i2 : Z) : Z := if i2 <=? i1 then i1 else i2.

(** [PrintUsageImplementation::isWideChar]. *)
Definition isWideChar (ch : Z) : bool :=
  if ch =? 0x303F then false else
  ((0x1100 <=? ch) && (ch <=? 0x115F)) || ((0x2329 <=? ch) && (ch <=? 0x232A)) || ((0x2E80 <=? ch) && (ch <=? 0xA4C6))
  || ((0xA960 <=? ch) && (ch <=? 0xA97C)) || ((0xAC00 <=? ch) && (ch <=? 0xD7FB)) || ((0xF900 <=? ch) && (ch <=? 0xFAFF))
  || ((0xFE10 <=? ch) && (ch <=? 0xFE6B)) || ((0xFF01 <=? ch) && (ch <=? 0xFF60)) || ((0xFFE0 <=? ch) && (ch <=? 0xFFE6))
  || (0x1B000 <=? ch).

(** [__builtin_clz], which is not defined on 0. *)
Definition clz (x : Z) : option Z := if x =? 0 then None else Some (31 - Z.log2 x).

(** The continuation bytes: the code point so far, and their number. *)
Fixpoint continuation (s : str) (ch : Z) (n : nat) : Z * nat :=
  match s with
  | [] => (ch, n)
  | c :: s =>
      if Z.lxor (code c) 0x80 <=? 0x3F
      then continuation s (Z.lxor (Z.lxor (wrap 32 (Z.shiftl ch 6)) (code c)) 0x80) (S n)
      else (ch, n)
  end.

(** The character at the start of a text: the bytes after its first, and whether it is wide. *)
Definition decode (c : ascii) (s : str) : option (nat * bool) :=
  let ch := code c in
  if 0xC1 <? ch then
    let! z := clz (Z.lxor ch 0xff) in
    let mask := Z.shiftr 0xFFFFFFFF z in
    let '(ch, n) := continuation s (Z.land ch mask) 0 in
    Some (n, (0x1100 <=? ch) && isWideChar ch)
  else Some (O, false).

(** ** Writers *)

(** [IStringWriter] and the writers that derive from it: the calls made. *)
Definition out : Type := list str.
Definition write (o : out) (s : str) : out := o ++ [s].

(** [ostream.write] and its like: what is in the stream in the end. *)
Definition text (o : out) : str := concat o.

(** [PrintUsageImplementation::indent]: the column after it. *)
Definition indent (o : out) (x want_x : Z) : out * Z :=
  let n := want_x - x in
  let '(o, n) := if n <? 0 then (write o [LF], want_x) else (o, n) in
  if 0 <? n then (o ++ replicate (Z.to_nat n) [SP], want_x) else (o, x).

(** ** The parts of the tables *)

Section iterator.
Context {St : Type} (usage : list (Descriptor St)).

(** The members of [LinePartIterator]; [rowdesc] is [None] before the first table. *)
Record LinePartIterator := mkIter {
  tablestart : nat; rowdesc : option nat; rowstart : option str; ptr : option str; col : Z; len : nat; screenlen : Z;
  max_line_in_block : Z; line_in_block : Z; target_line_in_block : Z; hit_target_line : bool }.

(** The constructor; [screenlen] is set before it is read. *)
Definition LinePartIterator_ctor : LinePartIterator := mkIter 0 None None None (-1) 0 0 0 0 0 true.

Definition ends_part (c : ascii) : bool := bool_decide (c = VT) || bool_decide (c = TAB) || bool_decide (c = LF).

(** The loop of [update_length]: bytes and columns up to the end of the part. *)
Fixpoint part_length (fuel : nat) (s : str) (len : nat) (screenlen : Z) : option (nat * Z) :=
  match fuel with
  | O => None
  | S fuel =>
      match s with
      | [] => Some (len, screenlen)
      | c :: s =>
          if ends_part c then Some (len, screenlen) else
          let! (n, wide) := decode c s in
          part_length fuel (drop n s) (len + n + 1) (if wide : bool then screenlen + 2 else screenlen + 1)
      end
  end.

Definition update_length (it : LinePartIterator) : option LinePartIterator :=
  let! p := ptr it in
  let! (len, screenlen) := part_length (S (length p)) p 0 0 in
  Some (mkIter (tablestart it) (rowdesc it) (rowstart it) (ptr it) (col it) len screenlen
          (max_line_in_block it) (line_in_block it) (target_line_in_block it) (hit_target_line it)).

(** [restartTable]. *)
Definition restartTable (it : LinePartIterator) : option LinePartIterator :=
  let! d := usage !! tablestart it in
  Some (mkIter (tablestart it) (Some (tablestart it)) (help d) None (col it) (len it) (screenlen it)
          (max_line_in_block it) (line_in_block it) (target_line_in_block it) (hit_target_line it)).

Definition has {A} (o : option A) : bool := match o with None => false | Some _ => true end.

(** [nextTable]. *)
Definition nextTable (it : LinePartIterator) : option (bool * LinePartIterator) :=
  let skip (stop : Descriptor St -> bool) (i : nat) := scan (fun d => Some (stop d)) (drop i usage) i in
  let! t := if has (rowdesc it) then skip (fun d => negb (has (help d) && has (shortopt d))) (tablestart it)
            else Some (tablestart it) in
  let! t := skip (fun d => negb (negb (has (help d)) && has (shortopt d))) t in
  let! it := restartTable (mkIter t (rowdesc it) (rowstart it) (ptr it) (col it) (len it) (screenlen it)
                             (max_line_in_block it) (line_in_block it) (target_line_in_block it) (hit_target_line it)) in
  Some (has (rowstart it), it).

(** [restartRow]. *)
Definition restartRow (it : LinePartIterator) : LinePartIterator :=
  mkIter (tablestart it) (rowdesc it) (rowstart it) (rowstart it) (-1) 0 0 0 0 0 true.

Definition with_row (it : LinePartIterator) (d : option nat) (start : option str) : LinePartIterator :=
  mkIter (tablestart it) d start (ptr it) (col it) (len it) (screenlen it)
    (max_line_in_block it) (line_in_block it) (target_line_in_block it) (hit_target_line it).

Definition with_ptr (it : LinePartIterator) (p : option str) : LinePartIterator :=
  mkIter (tablestart it) (rowdesc it) (rowstart it) p (col it) (len it) (screenlen it)
    (max_line_in_block it) (line_in_block it) (target_line_in_block it) (hit_target_line it).

(** The text from the first line break on. *)
Fixpoint to_newline (s : str) : str :=
  match s with [] => [] | c :: s' => if bool_decide (c = LF) then s else to_newline s' end.

(** [nextRow]. *)
Definition nextRow (it : LinePartIterator) : option (bool * LinePartIterator) :=
  match ptr it with
  | None => let it := restartRow it in Some (has (rowstart it), it)
  | Some p =>
      match to_newline p with
      | [] =>
          let! r := rowdesc it in
          let! d := usage !! S r in
          match help d with
          | None => Some (false, with_ptr it (Some []))
          | Some _ => Some (true, restartRow (with_row it (Some (S r)) (help d)))
          end
      | _ :: p => Some (true, restartRow (with_row it (rowdesc it) (Some p)))
      end
  end.

(** The state of the loop in [next]. *)
Definition scanning (it : LinePartIterator) (p : str) (col max line target : Z) (hit : bool) : LinePartIterator :=
  mkIter (tablestart it) (rowdesc it) (rowstart it) (Some p) col (len it) (screenlen it) max line target hit.

(** [update_length(); hit_target_line = true; return true;] *)
Definition part_found (it : LinePartIterator) : option (bool * LinePartIterator) :=
  let! it := update_length it in
  Some (true, mkIter (tablestart it) (rowdesc it) (rowstart it) (ptr it) (col it) (len it) (screenlen it)
                (max_line_in_block it) (line_in_block it) (target_line_in_block it) true).

(** The [while (true)] of [next]. *)
Fixpoint next_loop (fuel : nat) (it : LinePartIterator) (row p : str) (col max line target : Z) (hit : bool)
    : option (bool * LinePartIterator) :=
  match fuel with
  | O => None
  | S fuel =>
      let here := scanning it p col max line target hit in
      let line_end :=
        if negb hit then part_found here
        else if max <? target + 1 then
          let! it := update_length (scanning it p col max line (target + 1) hit) in Some (false, it)
        else next_loop fuel it row row 0 max 0 (target + 1) false in
      match p with
      | [] => line_end
      | c :: s =>
          if bool_decide (c = VT) then
            if line + 1 =? target then part_found (scanning it s col (upmax max (line + 1)) (line + 1) target hit)
            else next_loop fuel it row s col (upmax max (line + 1)) (line + 1) target hit
          else if bool_decide (c = TAB) then
            if negb hit then part_found here
            else if 0 =? target then part_found (scanning it s (col + 1) max 0 target false)
            else next_loop fuel it row s (col + 1) max 0 target false
          else if bool_decide (c = LF) then line_end
          else next_loop fuel it row s col max line target hit
      end
  end.

(** A bound for the loop: a pass over the row for each line, and one more. *)
Definition next_fuel (row : str) : nat := (length row + 2) * (length row + 2).

(** [next]. *)
Definition next (it : LinePartIterator) : option (bool * LinePartIterator) :=
  match ptr it with
  | None => Some (false, it)
  | Some p =>
      if col it =? -1 then
        let! it := update_length (mkIter (tablestart it) (rowdesc it) (rowstart it) (ptr it) 0 (len it) (screenlen it)
                                    (max_line_in_block it) (line_in_block it) (target_line_in_block it) (hit_target_line it)) in
        Some (true, it)
      else
        let! row := rowstart it in
        next_loop (next_fuel row) it row (drop (len it) p) (col it) (max_line_in_block it) (line_in_block it)
          (target_line_in_block it) (hit_target_line it)
  end.

(** The accessors. *)
Definition column (it : LinePartIterator) : Z := col it.
Definition line (it : LinePartIterator) : Z := target_line_in_block it.
Definition length_ (it : LinePartIterator) : nat := len it.
Definition screenLength (it : LinePartIterator) : Z := screenlen it.
Definition data (it : LinePartIterator) : str := default [] (ptr it).

End iterator.

(** ** Wrapping lines *)

(** [bufmask] of [LineWrapper]. *)
Definition bufmask : Z := 15.

(** The members of [LineWrapper]; an element of [datbuf] with its length in [lenbuf] is
    the piece of text it stands for, [None] before it is written. *)
Record LineWrapper := mkWrapper {
  lw_buf : list (option str); lw_x : Z; lw_width : Z; lw_head : Z; lw_tail : Z; wrote_something : bool }.

(** The constructor; [wrote_something] is set before it is read. *)
Definition LineWrapper_ctor (x1 x2 : Z) : LineWrapper :=
  mkWrapper (replicate 16 None) x1 (if x2 - x1 <? 2 then 2 else x2 - x1) 0 bufmask false.

Definition buf_empty (w : LineWrapper) : bool := Z.land (lw_tail w + 1) bufmask =? lw_head w.
Definition buf_full (w : LineWrapper) : bool := lw_tail w =? lw_head w.

Definition buf_store (w : LineWrapper) (piece : str) : LineWrapper :=
  mkWrapper (<[Z.to_nat (lw_head w) := Some piece]> (lw_buf w)) (lw_x w) (lw_width w)
    (Z.land (lw_head w + 1) bufmask) (lw_tail w) (wrote_something w).

Definition buf_next (w : LineWrapper) : LineWrapper :=
  mkWrapper (lw_buf w) (lw_x w) (lw_width w) (lw_head w) (Z.land (lw_tail w + 1) bufmask) (wrote_something w).

Definition set_wrote (w : LineWrapper) (b : bool) : LineWrapper :=
  mkWrapper (lw_buf w) (lw_x w) (lw_width w) (lw_head w) (lw_tail w) b.

(** [LineWrapper::write_one_line]. *)
Definition write_one_line (o : out) (w : LineWrapper) : option (out * LineWrapper) :=
  let o := if wrote_something w then fst (indent (write o [LF]) 0 (lw_x w)) else o in
  if buf_empty w then Some (o, set_wrote w true) else
  let w := buf_next w in
  let! piece := lw_buf w !! Z.to_nat (lw_tail w) in
  let! piece := piece in
  Some (write o piece, set_wrote w true).

(** [LineWrapper::output]. *)
Definition output (o : out) (w : LineWrapper) (piece : str) : option (out * LineWrapper) :=
  let! (o, w) := if buf_full w then write_one_line o w else Some (o, w) in
  Some (o, buf_store w piece).

Fixpoint flush_loop (fuel : nat) (o : out) (w : LineWrapper) : option (out * LineWrapper) :=
  match fuel with
  | O => None
  | S fuel =>
      if buf_empty w then Some (o, w)
      else let! (o, w) := write_one_line o w in flush_loop fuel o w
  end.

(** [LineWrapper::flush]. *)
Definition flush (o : out) (w : LineWrapper) : option (out * LineWrapper) :=
  if buf_empty w then Some (o, w) else
  let o := fst (indent o 0 (lw_x w)) in
  let! (o, w) := flush_loop 17 o (set_wrote w false) in
  Some (write o [LF], w).

(** The inner loop of [process]: the number of bytes whose characters fit [width] columns. *)
Fixpoint fitting (fuel : nat) (s : str) (maxi : nat) (utf8width width : Z) : option nat :=
  match fuel with
  | O => None
  | S fuel =>
      match s with
      | [] => Some maxi
      | c :: s =>
          if utf8width <? width then
            let! (n, wide) := decode c s in
            if wide && (width <? utf8width + 2) then Some maxi
            else fitting fuel (drop n s) (maxi + n + 1) (if wide : bool then utf8width + 2 else utf8width + 1) width
          else Some maxi
      end
  end.

(** [for (i = maxi; i >= 0; --i) if (data[i] == ' ') break;] *)
Fixpoint last_space (data : str) (i : nat) : option nat :=
  if bool_decide (data !! i = Some SP) then Some i
  else match i with O => None | S i => last_space data i end.

(** One iteration of [process]: the line, and what is left. *)
Definition cut (width : Z) (data : str) : option (str * str) :=
  if Z.of_nat (length data) <=? width then Some (data, []) else
  let! maxi := fitting (S (length data)) data 0 0 width in
  if (maxi =? length data)%nat then Some (data, []) else
  match last_space data maxi with
  | Some i => Some (take i data, drop (S i) data)
  | None => Some (take maxi data, drop maxi data)
  end.

Fixpoint process_loop (fuel : nat) (o : out) (w : LineWrapper) (data : str) : option (out * LineWrapper) :=
  match fuel with
  | O => None
  | S fuel =>
      match data with
      | [] => Some (o, w)
      | _ =>
          let! (piece, rest) := cut (lw_width w) data in
          let! (o, w) := output o w piece in
          process_loop fuel o w rest
      end
  end.

(** [LineWrapper::process] on the first [len] bytes of its data. *)
Definition process (o : out) (w : LineWrapper) (data : str) : option (out * LineWrapper) :=
  let! (o, w) := process_loop (S (length data)) o (set_wrote w false) data in
  if wrote_something w then Some (o, w) else write_one_line o w.

(** ** Printing *)

Section print.
Context {St : Type} (usage : list (Descriptor St)).

Definition maxcolumns : nat := 8.

(** [part.data()[part.length()]] is a separator of cells. *)
Definition before_separator (it : LinePartIterator) : bool :=
  match data it !! len it with None => false | Some c => bool_decide (c = TAB) || bool_decide (c = VT) end.

(** A cell of a table, and not a line of text between tables. *)
Definition is_cell (it : LinePartIterator) : bool :=
  (0 <? column it) || (0 <? line it) || before_separator it.

(** The parts of a row, and the iterator after them. *)
Fixpoint parts_of_row (fuel : nat) (it : LinePartIterator) (acc : list LinePartIterator)
    : option (list LinePartIterator * LinePartIterator) :=
  match fuel with
  | O => None
  | S fuel =>
      let! (more, it) := next it in
      if more : bool then parts_of_row fuel it (acc ++ [it]) else Some (acc, it)
  end.

(** A bound for the parts of a row: one for each column and line. *)
Definition row_fuel (it : LinePartIterator) : nat :=
  let n := length (default [] (rowstart it)) in (n + 2) * (n + 2).

Fixpoint rows_of_table (fuel : nat) (it : LinePartIterator) (acc : list (list LinePartIterator))
    : option (list (list LinePartIterator)) :=
  match fuel with
  | O => None
  | S fuel =>
      let! (more, it) := nextRow usage it in
      if more : bool then
        let! (parts, it) := parts_of_row (row_fuel it) it [] in
        rows_of_table fuel it (acc ++ [parts])
      else Some acc
  end.

(** The characters of the help texts bound the number of rows. *)
Definition help_size : nat := sum_list (map (fun d => S (length (default [] (help d)))) usage).
Definition rows_fuel : nat := help_size + 2.

(** The state of the measuring loop: the last column and the widths. *)
Definition measure_part (threshold : Z) (m : Z * list Z) (it : LinePartIterator) : Z * list Z :=
  let '(lastcolumn, col_width) := m in
  if column it <? Z.of_nat maxcolumns then
    (upmax lastcolumn (column it),
     if (screenLength it <? threshold) && is_cell it
     then alter (fun w => upmax w (screenLength it)) (Z.to_nat (column it)) col_width
     else col_width)
  else m.

Definition measure_rows (threshold : Z) (rows : list (list LinePartIterator)) : Z * list Z :=
  fold_left (fun m parts => fold_left (measure_part threshold) parts m) rows (0, replicate maxcolumns 0).

(** The [do ... while (leftwidth > width)] over the table that starts at [it]. *)
Fixpoint measure (fuel : nat) (it : LinePartIterator) (width threshold : Z) : option (Z * list Z) :=
  match fuel with
  | O => None
  | S fuel =>
      let! it := restartTable usage it in
      let! rows := rows_of_table rows_fuel it [] in
      let '(lastcolumn, col_width) := measure_rows threshold rows in
      let left := take (Z.to_nat lastcolumn) col_width in
      let leftwidth := fold_left Z.add left 0 in
      let threshold := fold_left upmax left 0 in
      if width <? leftwidth then measure fuel it width threshold else Some (lastcolumn, col_width)
  end.

(** [tabstop[i]]. *)
Definition tabstop (col_width : list Z) (i : nat) : Z := fold_left Z.add (take i col_width) 0.

(** The settings of a table, and the state while it is printed. *)
Record tableLayout := mkLayout { lastcolumn : Z; tabs : list Z; own_line : bool; rightwidth : Z; l_width : Z }.
Record printer := mkPrinter { p_out : out; lastColumnLineWrapper : LineWrapper; interjectionLineWrapper : LineWrapper }.

(** Lines 2488-2509. *)
Definition table_layout (width last_column_min_width last_column_own_line_max_width lastcolumn : Z) (col_width : list Z)
    : option tableLayout :=
  let tabs := map (tabstop col_width) (seq 0 maxcolumns) in
  let! last_tab := tabs !! Z.to_nat lastcolumn in
  let! last_width := col_width !! Z.to_nat lastcolumn in
  let right := width - last_tab in
  let narrow := (right <? last_column_min_width) && ((last_width =? 0) || (right <? last_width)) in
  Some (mkLayout lastcolumn tabs (if lastcolumn =? 0 then false else narrow)
          (if narrow then last_column_own_line_max_width else right) width).

(** Lines 2523-2552, one part; [x] is the column the output has reached. *)
Definition print_part (l : tableLayout) (it : LinePartIterator) (p : printer) (x : Z) : option (printer * Z) :=
  if lastcolumn l <? column it then Some (p, x) else
  let '(o, x) := if column it =? 0 then (if 0 <=? x then write (p_out p) [LF] else p_out p, 0) else (p_out p, x) in
  let! tab := tabs l !! Z.to_nat (column it) in
  let '(o, x) := indent o x tab in
  if (column it <? lastcolumn l) && is_cell it then
    Some (mkPrinter (write o (take (len it) (data it))) (lastColumnLineWrapper p) (interjectionLineWrapper p), x + screenLength it)
  else if own_line l && (column it =? lastcolumn l) then
    Some (mkPrinter o (lastColumnLineWrapper p) (interjectionLineWrapper p), x)
  else if column it =? 0 then
    let! (o, w) := process o (interjectionLineWrapper p) (take (len it) (data it)) in
    Some (mkPrinter o (lastColumnLineWrapper p) w, x)
  else
    let! (o, w) := process o (lastColumnLineWrapper p) (take (len it) (data it)) in
    Some (mkPrinter o w (interjectionLineWrapper p), x).

Fixpoint print_parts (l : tableLayout) (parts : list LinePartIterator) (p : printer) (x : Z) : option printer :=
  match parts with
  | [] => Some p
  | it :: parts => let! (p, x) := print_part l it p x in print_parts l parts p x
  end.

(** Lines 2557-2567: the last column below the others. *)
Fixpoint print_own_line (l : tableLayout) (parts : list LinePartIterator) (p : printer) : option printer :=
  match parts with
  | [] => Some p
  | it :: parts =>
      if column it =? lastcolumn l then
        let o := fst (indent (write (p_out p) [LF]) 0 (l_width l - rightwidth l)) in
        let! (o, w) := process o (lastColumnLineWrapper p) (take (len it) (data it)) in
        print_own_line l parts (mkPrinter o w (interjectionLineWrapper p))
      else print_own_line l parts p
  end.

(** Lines 2518-2573, a row; the second pass over it restarts the iterator. *)
Definition print_row (l : tableLayout) (parts : list LinePartIterator) (p : printer) : option printer :=
  let! p := print_parts l parts p (-1) in
  let! p := if own_line l then print_own_line l parts p else Some p in
  let o := write (p_out p) [LF] in
  let! (o, w1) := flush o (lastColumnLineWrapper p) in
  let! (o, w2) := flush o (interjectionLineWrapper p) in
  Some (mkPrinter o w1 w2).

Fixpoint print_rows (l : tableLayout) (rows : list (list LinePartIterator)) (p : printer) : option printer :=
  match rows with
  | [] => Some p
  | r :: rows => let! p := print_row l r p in print_rows l rows p
  end.

(** Lines 2427-2574, a table. *)
Definition print_table (o : out) (it : LinePartIterator) (width min_width own_width : Z) : option out :=
  let! (lastcolumn, col_width) := measure 10002 it width 10000 in
  let! l := table_layout width min_width own_width lastcolumn col_width in
  let! it := restartTable usage it in
  let! rows := rows_of_table rows_fuel it [] in
  let! p := print_rows l rows (mkPrinter o (LineWrapper_ctor (width - rightwidth l) width) (LineWrapper_ctor 0 width)) in
  Some (p_out p).

Fixpoint print_tables (fuel : nat) (o : out) (it : LinePartIterator) (width min_width own_width : Z) : option out :=
  match fuel with
  | O => None
  | S fuel =>
      let! (more, it) := nextTable usage it in
      if more : bool then
        let! o := print_table o it width min_width own_width in
        print_tables fuel o it width min_width own_width
      else Some o
  end.

(** [PrintUsageImplementation::printUsage]. *)
Definition printUsage_impl (o : out) (width last_column_min_percent last_column_own_line_max_percent : Z) : option out :=
  let width := if width <? 1 then 80 else width in
  let width := if 10000 <? width then 10000 else width in
  let min_width := Z.quot (width * last_column_min_percent + 50) 100 in
  let own_width := Z.quot (width * last_column_own_line_max_percent + 50) 100 in
  let own_width := if own_width =? 0 then 1 else own_width in
  print_tables (S (length usage)) o LinePartIterator_ctor width min_width own_width.

(** [printUsage(stream, usage)] with its default arguments: what the stream receives. *)
Definition printUsage : option str := let! o := printUsage_impl [] 80 50 75 in Some (text o).

End print.

(** ** The ring of lines is a queue *)

Lemma land_bufmask x : Z.land x bufmask = x mod 16.
Proof. change bufmask with (Z.ones 4). by rewrite Z.land_ones. Qed.

(** The ring holds the lines [q], the first to be written at [lw_tail + 1]. *)
Record holds (w : LineWrapper) (q : list str) : Prop := {
  ho_len : length (lw_buf w) = 16%nat;
  ho_cap : (length q <= 15)%nat;
  ho_tail : 0 <= lw_tail w < 16;
  ho_head : lw_head w = (lw_tail w + 1 + Z.of_nat (length q)) mod 16;
  ho_data : forall i p, q !! i = Some p -> lw_buf w !! Z.to_nat ((lw_tail w + 1 + Z.of_nat i) mod 16) = Some (Some p) }.

Lemma ctor_holds x1 x2 : holds (LineWrapper_ctor x1 x2) [].
Proof. constructor; cbn; [done|lia|unfold bufmask; lia|done|done]. Qed.

Lemma holds_wrote w q b : holds w q -> holds (set_wrote w b) q.
Proof. intros []. by constructor. Qed.

Lemma buf_empty_spec w q : holds w q -> buf_empty w = bool_decide (q = []).
Proof.
  intros [Hl Hc Ht Hh _]. unfold buf_empty. rewrite land_bufmask, Hh. destruct q as [|p q].
  - rewrite bool_decide_true by done. cbn [length Z.of_nat]. rewrite Z.add_0_r. apply Z.eqb_refl.
  - rewrite bool_decide_false by done. apply Z.eqb_neq. cbn [length] in *. intros E. pose proof (Z.div_mod (lw_tail w + 1) 16).
    Z.to_euclidean_division_equations. lia.
Qed.

Lemma buf_full_spec w q : holds w q -> buf_full w = (length q =? 15)%nat.
Proof.
  intros [Hl Hc Ht Hh _]. unfold buf_full. rewrite Hh. destruct (Nat.eqb_spec (length q) 15) as [E|E].
  - rewrite E. apply Z.eqb_eq. Z.to_euclidean_division_equations. lia.
  - apply Z.eqb_neq. Z.to_euclidean_division_equations. lia.
Qed.

Lemma buf_store_holds w q p : holds w q -> (length q < 15)%nat -> holds (buf_store w p) (q ++ [p]).
Proof.
  intros [Hl Hc Ht Hh Hd] Hq. unfold buf_store. constructor; cbn [lw_buf lw_head lw_tail].
  - by rewrite length_insert.
  - rewrite length_app. cbn. lia.
  - done.
  - rewrite land_bufmask, Hh, length_app. cbn [length]. rewrite Z.add_mod_idemp_l by lia. f_equal. lia.
  - intros i p' Hi. rewrite Hh. destruct (decide (i < length q)%nat) as [Hlt|Hge].
    + rewrite lookup_app_l in Hi by done. rewrite list_lookup_insert_ne; [by apply Hd|].
      intros E%Z2Nat.inj; [|Z.to_euclidean_division_equations; lia..]. Z.to_euclidean_division_equations. lia.
    + rewrite lookup_app_r in Hi by lia. destruct (i - length q)%nat as [|k] eqn:Ek; [|done]. cbn in Hi. injection Hi as <-.
      replace i with (length q) by lia. rewrite list_lookup_insert_eq; [done|].
      rewrite Hl. Z.to_euclidean_division_equations. lia.
Qed.

Lemma buf_next_holds w p q :
  holds w (p :: q) -> holds (buf_next w) q /\ lw_buf (buf_next w) !! Z.to_nat (lw_tail (buf_next w)) = Some (Some p).
Proof.
  intros [Hl Hc Ht Hh Hd]. unfold buf_next. cbn [lw_buf lw_tail]. rewrite land_bufmask. cbn [length] in *. split.
  - constructor; cbn [lw_buf lw_head lw_tail]; [done|lia|apply Z.mod_pos_bound; lia| |].
    + rewrite Hh. Z.to_euclidean_division_equations. lia.
    + intros i p' Hi. specialize (Hd (S i) p' Hi).
      replace (((lw_tail w + 1) mod 16 + 1 + Z.of_nat i) mod 16) with ((lw_tail w + 1 + Z.of_nat (S i)) mod 16); [done|].
      Z.to_euclidean_division_equations. lia.
  - specialize (Hd 0%nat p eq_refl). by rewrite Z.add_0_r in Hd.
Qed.

(** A line break with its indentation, and lines with breaks between them. *)
Definition brk (x : Z) : out := fst (indent [[LF]] 0 x).
Definition emit (x : Z) (ls : list str) : out :=
  match ls with [] => [] | l :: ls => l :: concat (map (fun l => brk x ++ [l]) ls) end.

Lemma indent_app o p x y : indent (o ++ p) x y = (o ++ fst (indent p x y), snd (indent p x y)).
Proof.
  unfold indent, write. destruct (y - x <? 0); cbn [fst snd].
  - destruct (0 <? y); cbn [fst snd]; by rewrite <- ?app_assoc.
  - destruct (0 <? y - x); cbn [fst snd]; by rewrite <- ?app_assoc.
Qed.

Lemma emit_snoc x ls l : emit x (ls ++ [l]) = emit x ls ++ (if bool_decide (ls = []) then [l] else brk x ++ [l]).
Proof.
  destruct ls as [|l0 ls]; [done|]. rewrite bool_decide_false by done. cbn [emit app].
  rewrite map_app, concat_app. cbn. by rewrite app_nil_r.
Qed.

Definition same_shape (w w' : LineWrapper) : Prop := lw_x w' = lw_x w /\ lw_width w' = lw_width w.

Lemma write_one_line_spec o w q :
  holds w q ->
  exists w', write_one_line o w =
    Some (o ++ (if wrote_something w then brk (lw_x w) else []) ++ match q with [] => [] | p :: _ => [p] end, w') /\
    holds w' (tail q) /\ wrote_something w' = true /\ same_shape w w'.
Proof.
  intros Hq. unfold write_one_line. rewrite (buf_empty_spec w q Hq).
  assert ((if wrote_something w then fst (indent (write o [LF]) 0 (lw_x w)) else o)
    = o ++ (if wrote_something w then brk (lw_x w) else [])) as ->.
  { destruct (wrote_something w); [|by rewrite app_nil_r]. unfold write. by rewrite indent_app. }
  destruct q as [|p q]; [rewrite bool_decide_true by done|rewrite bool_decide_false by done].
  - eexists. rewrite app_nil_r. split; [done|]. split; [by apply holds_wrote|done].
  - destruct (buf_next_holds w p q Hq) as [Hq' ->]. eexists. unfold write. rewrite <- app_assoc.
    split; [done|]. split; [by apply holds_wrote|done].
Qed.

(** A line goes to the end of the queue; when that is full its first line is written. *)
Lemma output_spec o w q p :
  holds w q ->
  let full := (length q =? 15)%nat in
  exists w', output o w p =
    Some (if full then o ++ (if wrote_something w then brk (lw_x w) else []) ++ match q with [] => [] | p :: _ => [p] end else o, w') /\
    holds w' ((if full then tail q else q) ++ [p]) /\ wrote_something w' = (full || wrote_something w) /\ same_shape w w'.
Proof.
  intros Hq full. unfold output. rewrite (buf_full_spec w q Hq). fold full.
  pose proof (ho_cap w q Hq) as Hcap. unfold full. destruct (Nat.eqb_spec (length q) 15) as [E|E].
  - destruct (write_one_line_spec o w q Hq) as (w' & -> & Hq' & Hw & Hs). eexists. split; [done|].
    split; [|done]. apply buf_store_holds; [done|]. destruct q; cbn in *; lia.
  - eexists. split; [done|]. split; [|done]. apply buf_store_holds; [done|lia].
Qed.

(** The lines of a text. *)
Fixpoint lines_of (fuel : nat) (width : Z) (data : str) : option (list str) :=
  match fuel with
  | O => None
  | S fuel =>
      match data with
      | [] => Some []
      | _ => let! (piece, rest) := cut width data in
             let! ls := lines_of fuel width rest in Some (piece :: ls)
      end
  end.

Definition wrap_text (width : Z) (data : str) : option (list str) := lines_of (S (length data)) width data.

(** [k] lines of [all] have been written since [o], the others are in the queue. *)
Definition spooled (o : out) (all : list str) (k : nat) (r : out * LineWrapper) (w0 : LineWrapper) : Prop :=
  r.1 = o ++ emit (lw_x w0) (take k all) /\ holds r.2 (drop k all) /\
  wrote_something r.2 = negb (k =? 0)%nat /\ same_shape w0 r.2.

Lemma spooled_output o all r w0 p :
  spooled o all (length all - 15) r w0 ->
  exists r', output r.1 r.2 p = Some r' /\ spooled o (all ++ [p]) (length (all ++ [p]) - 15) r' w0.
Proof.
  intros (Ho & Hq & Hw & Hx & Hwd). destruct (output_spec r.1 r.2 _ p Hq) as (w' & E & Hq' & Hw' & Hx' & Hwd').
  cbn zeta in *. rewrite length_drop in *. set (k := (length all - 15)%nat) in *.
  eexists. split; [exact E|]. unfold spooled. cbn [fst snd]. rewrite length_app. cbn [length].
  destruct (Nat.eqb_spec (length all - k) 15) as [Efull|Efull].
  - assert (k + 15 = length all)%nat as Hk by lia. replace (length all + 1 - 15)%nat with (S k) by lia.
    destruct (lookup_lt_is_Some_2 all k) as [q0 Hq0]; [lia|]. pose proof (drop_S _ _ _ Hq0) as Ed.
    rewrite Ed in *. cbn [tail] in Hq'. split_and!.
    + rewrite take_app_le by lia. rewrite (take_S_r _ _ _ Hq0), emit_snoc, Ho, Hw, Hx, <- app_assoc. do 2 f_equal.
      destruct (Nat.eqb_spec k 0) as [->|Hk0]; [done|]. rewrite bool_decide_false; [done|].
      intros E0. apply (f_equal length) in E0. rewrite length_take in E0. cbn in E0. lia.
    + by rewrite drop_app_le by lia.
    + by rewrite Hw'.
    + split; congruence.
  - pose proof (ho_cap _ _ Hq) as Hcap. rewrite length_drop in Hcap.
    assert (k = 0)%nat as Hk0 by lia. rewrite Hk0 in *.
    replace (length all + 1 - 15)%nat with 0%nat in * by lia. split_and!.
    + rewrite Ho. by rewrite !take_0.
    + by rewrite drop_0 in *.
    + by rewrite Hw', Hw.
    + split; congruence.
Qed.

Lemma process_loop_spec fuel o all r w0 data ls :
  spooled o all (length all - 15) r w0 -> lines_of fuel (lw_width w0) data = Some ls ->
  exists r', process_loop fuel r.1 r.2 data = Some r' /\ spooled o (all ++ ls) (length (all ++ ls) - 15) r' w0.
Proof.
  revert all r data ls. induction fuel as [|fuel IH]; intros all r data ls Hsp Hls; [done|].
  cbn [process_loop lines_of] in *. destruct data as [|c data].
  { injection Hls as <-. rewrite app_nil_r. exists r. by destruct r. }
  pose proof Hsp as (_ & _ & _ & _ & Hwd). rewrite Hwd.
  destruct (cut (lw_width w0) (c :: data)) as [[piece rest]|]; [|done].
  destruct (lines_of fuel (lw_width w0) rest) as [ls'|] eqn:El; [|done]. injection Hls as <-.
  destruct (spooled_output o all r w0 piece Hsp) as ([o' w'] & -> & Hsp').
  destruct (IH _ _ _ _ Hsp' El) as (r' & E & Hr). exists r'. split; [exact E|]. by rewrite <- app_assoc in Hr.
Qed.

(** [process] appends the lines of its text to the queue and writes its first line, or as
    many as no longer fit. *)
Lemma process_queue o w q data ls :
  holds w q -> wrap_text (lw_width w) data = Some ls ->
  let all := q ++ ls in
  let k := Nat.max 1 (length all - 15) in
  exists w', process o w data = Some (o ++ emit (lw_x w) (take k all), w') /\ holds w' (drop k all) /\ same_shape w w'.
Proof.
  intros Hq Hls all k. unfold process.
  assert (length q - 15 = 0)%nat as Hq0 by (pose proof (ho_cap w q Hq); lia).
  destruct (process_loop_spec (S (length data)) o q (o, set_wrote w false) w data ls) as (r & E & Ho & Hr & Hw & Hx).
  { rewrite Hq0. split_and!; [by rewrite take_0, app_nil_r|by apply holds_wrote|done|done]. }
  { exact Hls. }
  cbn [fst snd] in E. rewrite E. destruct r as [o' w']. cbn [fst snd] in *. fold all in Ho, Hr, Hw.
  rewrite Hw. destruct (Nat.eqb_spec (length all - 15) 0) as [E0|E0]; cbn [negb].
  - rewrite E0 in *. rewrite take_0, app_nil_r in Ho. rewrite drop_0 in Hr. subst o'.
    destruct (write_one_line_spec o w' all Hr) as (w'' & -> & Hr' & _ & Hs). exists w''.
    rewrite Hw. cbn [app negb Nat.eqb]. replace k with 1%nat by lia.
    destruct Hx as [Hx1 Hx2], Hs as [Hs1 Hs2]. unfold same_shape. rewrite Hs1, Hs2.
    destruct all as [|p all]; (split; [done|]; split; [done|done]).
  - exists w'. replace k with (length all - 15)%nat by lia. rewrite Ho. done.
Qed.

Lemma flush_loop_spec fuel o w q :
  holds w q -> (length q < fuel)%nat ->
  exists w', flush_loop fuel o w = Some (o ++ (if wrote_something w then concat (map (fun l => brk (lw_x w) ++ [l]) q) else emit (lw_x w) q), w') /\
    holds w' [] /\ same_shape w w'.
Proof.
  revert o w q. induction fuel as [|fuel IH]; intros o w q Hq Hf; [lia|]. cbn [flush_loop].
  rewrite (buf_empty_spec w q Hq). destruct q as [|p q].
  { rewrite bool_decide_true by done. exists w. split; [|done]. cbn. by destruct (wrote_something w); rewrite app_nil_r. }
  rewrite bool_decide_false by done. destruct (write_one_line_spec o w _ Hq) as (w' & -> & Hq' & Hw & [Hx Hwd]).
  cbn [tail length] in *. destruct (IH (o ++ (if wrote_something w then brk (lw_x w) else []) ++ [p]) w' q Hq') as (w'' & -> & Hq'' & Hs); [lia|].
  exists w''. unfold same_shape in *. rewrite Hw, Hx, Hwd in *. split; [|done]. rewrite <- app_assoc. do 2 f_equal.
  destruct (wrote_something w); cbn; by rewrite <- ?app_assoc.
Qed.

(** [flush] writes the queue on lines of its own. *)
Lemma flush_queue o w q :
  holds w q ->
  exists w', flush o w = Some (o ++ match q with [] => [] | _ => fst (indent [] 0 (lw_x w)) ++ emit (lw_x w) q ++ [[LF]] end, w') /\
    holds w' [] /\ same_shape w w'.
Proof.
  intros Hq. unfold flush. rewrite (buf_empty_spec w q Hq). destruct q as [|p q].
  { rewrite bool_decide_true by done. exists w. by rewrite app_nil_r. }
  rewrite bool_decide_false by done.
  destruct (flush_loop_spec 17 (fst (indent o 0 (lw_x w))) (set_wrote w false) (p :: q)) as (w' & E & Hq' & Hs).
  { by apply holds_wrote. }
  { pose proof (ho_cap w _ Hq). lia. }
  rewrite E. exists w'. split; [|done]. cbn [wrote_something set_wrote lw_x]. unfold write.
  rewrite <- (app_nil_r o) at 1. rewrite indent_app. cbn [fst]. by rewrite <- !app_assoc.
Qed.

(** ** Lines fit and lose nothing *)

(** Texts without the byte 255, on which [__builtin_clz] would be asked for a zero. *)
Definition printable (s : str) : Prop := Forall (fun c => code c <> 255) s.

Lemma code_range c : 0 <= code c < 256.
Proof. unfold code. pose proof (N_ascii_bounded c). lia. Qed.

Definition is_continuation (c : ascii) : bool := Z.lxor (code c) 0x80 <=? 0x3F.

Lemma continuation_spec s ch n :
  exists k, snd (continuation s ch n) = (n + k)%nat /\ (k <= length s)%nat /\
    (forall i c, (i < k)%nat -> s !! i = Some c -> is_continuation c = true) /\
    (k = 0%nat -> fst (continuation s ch n) = ch).
Proof.
  revert ch n. induction s as [|c s IH]; intros ch n; cbn [continuation].
  { exists 0%nat. cbn. split_and!; [lia|lia|lia|done]. }
  destruct (Z.leb_spec (Z.lxor (code c) 0x80) 0x3F) as [Hc|Hc].
  - destruct (IH (Z.lxor (Z.lxor (wrap 32 (Z.shiftl ch 6)) (code c)) 0x80) (S n)) as (k & -> & Hk & Hall & _).
    exists (S k). split_and!; [lia|cbn; lia| |done].
    intros [|i] c' Hi; [|cbn; intros; apply (Hall i); [lia|done]]. cbn. intros [= <-]. by apply Z.leb_le.
  - exists 0%nat. cbn. split_and!; [lia|lia|lia|done].
Qed.

Lemma decode_spec c s :
  code c <> 255 ->
  exists n w, decode c s = Some (n, w) /\ (n <= length s)%nat /\
    (forall i b, (i < n)%nat -> s !! i = Some b -> is_continuation b = true) /\ (w = true -> (1 <= n)%nat).
Proof.
  intros Hc. pose proof (code_range c) as Hr. unfold decode.
  destruct (Z.ltb_spec 0xC1 (code c)) as [Hg|Hg].
  2: { exists 0%nat, false. split_and!; [done|lia|lia|done]. }
  unfold clz. rewrite (proj2 (Z.eqb_neq (Z.lxor (code c) 255) 0)) by (intros E%Z.lxor_eq; done).
  set (m := Z.land (code c) _).
  pose proof (continuation_spec s m 0) as (k & Hk & Hle & Hall & H0).
  destruct (continuation s m 0) as [ch n]. cbn [fst snd] in *. subst n.
  exists k, ((0x1100 <=? ch) && isWideChar ch). split_and!; [done..|].
  intros Hw. destruct k as [|k]; [|lia]. rewrite H0 in Hw by done. b2p. exfalso.
  assert (m <= code c) as Hm.
  { unfold m. apply Z.ldiff_le; [lia|].
    apply Z.bits_inj'. intros i Hi. rewrite Z.ldiff_spec, Z.land_spec, Z.bits_0.
    by destruct (Z.testbit (code c) i), (Z.testbit _ i). }
  lia.
Qed.

(** The first [k] bytes of a text are whole characters that take [cols] columns. *)
Inductive spans : str -> nat -> Z -> Prop :=
  | spans_nil s : spans s 0 0
  | spans_char c s n w k cols :
      decode c s = Some (n, w) -> spans (drop n s) k cols ->
      spans (c :: s) (n + 1 + k) ((if w then 2 else 1) + cols).

Lemma printable_drop n s : printable s -> printable (drop n s).
Proof. apply Forall_drop. Qed.

Lemma spans_nonneg s k cols : spans s k cols -> 0 <= cols.
Proof. induction 1 as [|c s n [] k cols _ _ IH]; lia. Qed.

Lemma spans_all s : printable s -> exists cols, spans s (length s) cols /\ cols <= Z.of_nat (length s).
Proof.
  remember (length s) as m eqn:Hm. revert s Hm. induction m as [m IH] using lt_wf_ind. intros s -> Hp.
  destruct s as [|c s]; [exists 0; split; [constructor|done]|].
  pose proof Hp as Hp'. unfold printable in Hp'. rewrite Forall_cons in Hp'. destruct Hp' as [Hc Hs].
  destruct (decode_spec c s Hc) as (n & w & Ed & Hn & _ & Hw).
  destruct (IH (length (drop n s))) with (s := drop n s) as (cols & Hsp & Hle);
    [rewrite length_drop; cbn; lia|done|by apply printable_drop|].
  rewrite length_drop in *. exists ((if w then 2 else 1) + cols).
  replace (length (c :: s)) with (n + 1 + (length s - n))%nat by (cbn; lia).
  split; [by econstructor|]. destruct w; [specialize (Hw eq_refl)|]; lia.
Qed.

Lemma fitting_spec fuel s0 maxi cols s width :
  printable s -> s = drop maxi s0 -> (maxi <= length s0)%nat -> (length s < fuel)%nat ->
  (forall k c, spans s k c -> spans s0 (maxi + k) (cols + c)) -> cols <= width ->
  exists m c, fitting fuel s maxi cols width = Some m /\ (maxi <= m <= length s0)%nat /\ spans s0 m c /\ c <= width /\
    (cols + 2 <= width -> s <> [] -> (maxi < m)%nat).
Proof.
  revert maxi cols s. induction fuel as [|fuel IH]; intros maxi cols s Hp Hs Hmax Hf Hext Hle; [lia|]. cbn [fitting].
  assert (spans s0 maxi cols) as Hhere.
  { specialize (Hext 0%nat 0 (spans_nil s)). by rewrite Nat.add_0_r, Z.add_0_r in Hext. }
  destruct s as [|c s]; [exists maxi, cols; split_and!; done || lia|].
  destruct (Z.ltb_spec cols width) as [Hlt|Hge]; [|exists maxi, cols; split_and!; (done || lia)].
  unfold printable in Hp. rewrite Forall_cons in Hp. destruct Hp as [Hc Hp].
  destruct (decode_spec c s Hc) as (n & w & Ed & Hn & _ & _). rewrite Ed.
  destruct (w && (width <? cols + 2)) eqn:Ew.
  { exists maxi, cols. split_and!; [done|lia|lia|done|done|]. b2p. lia. }
  assert ((if w then cols + 2 else cols + 1) <= width) as Hle' by (destruct w; cbn in Ew; b2p; lia).
  assert (maxi + n + 1 <= length s0)%nat as Hmax'.
  { apply (f_equal length) in Hs. rewrite length_drop in Hs. cbn in Hs. lia. }
  destruct (IH (maxi + n + 1)%nat (if w then cols + 2 else cols + 1) (drop n s)) as (m & cc & E & Hm & Hsp & Hcc & _).
  - by apply printable_drop.
  - replace (maxi + n + 1)%nat with (maxi + (1 + n))%nat by lia. rewrite <- drop_drop, <- Hs. done.
  - done.
  - rewrite length_drop. cbn in Hf. lia.
  - intros k c' Hk. replace (maxi + n + 1 + k)%nat with (maxi + (n + 1 + k))%nat by lia.
    replace ((if w then cols + 2 else cols + 1) + c') with (cols + ((if w then 2 else 1) + c')) by (destruct w; lia).
    apply Hext. by econstructor.
  - done.
  - exists m, cc. split_and!; [done|lia|lia|done|done|]. intros _ _. lia.
Qed.

Lemma last_space_spec data i : match last_space data i with
  | Some j => (j <= i)%nat /\ data !! j = Some SP
  | None => True
  end.
Proof.
  induction i as [|i IH]; cbn [last_space]; case_bool_decide; [done|done|done|].
  destruct (last_space data i); [|done]. destruct IH. split; [lia|done].
Qed.

(** A space is never inside a character. *)
Lemma spans_space s k cols i : printable s -> spans s k cols -> (i <= k)%nat -> s !! i = Some SP -> exists c, spans s i c /\ c <= cols.
Proof.
  intros Hp Hsp. revert i. induction Hsp as [s|c s n w k cols Hd Hsp IH]; intros i Hi Hsi.
  { replace i with 0%nat by lia. exists 0. split; [constructor|done]. }
  destruct i as [|i].
  { exists 0. split; [constructor|]. apply spans_nonneg in Hsp. destruct w; lia. }
  unfold printable in Hp. rewrite Forall_cons in Hp. destruct Hp as [Hc Hp].
  destruct (decode_spec c s Hc) as (n' & w' & Ed & Hn & Hcont & _). rewrite Hd in Ed. injection Ed as <- <-.
  cbn in Hsi. destruct (decide (i < n)%nat) as [Hlt|Hge].
  { specialize (Hcont i SP Hlt Hsi). by vm_compute in Hcont. }
  destruct (IH (printable_drop n s Hp) (i - n)%nat) as (c' & Hc' & Hle); [lia| |].
  { etrans; [apply lookup_drop|]. by replace (n + (i - n))%nat with i by lia. }
  exists ((if w then 2 else 1) + c'). split; [|lia]. replace (S i) with (n + 1 + (i - n))%nat by lia. by econstructor.
Qed.

(** A text is cut at a space, which is dropped, or between two characters; the line fits. *)
Lemma cut_spec width data :
  2 <= width -> printable data -> data <> [] ->
  exists line rest cols, cut width data = Some (line, rest) /\ (length rest < length data)%nat /\
    (data = line ++ rest \/ data = line ++ SP :: rest) /\ spans data (length line) cols /\ cols <= width.
Proof.
  intros Hw Hp Hne. unfold cut.
  assert (0 < length data)%nat as Hlen by (destruct data; cbn; [done|lia]).
  destruct (spans_all data Hp) as (call & Hall & Hcall).
  destruct (Z.leb_spec (Z.of_nat (length data)) width) as [Hle|Hgt].
  { exists data, [], call. split_and!; [done|cbn; lia|left; by rewrite app_nil_r|done|lia]. }
  destruct (fitting_spec (S (length data)) data 0 0 data width) as (m & c & -> & Hm & Hsp & Hc & Hpos);
    [done|by rewrite drop_0|lia|lia|intros k c; by rewrite Z.add_0_l|lia|].
  specialize (Hpos ltac:(lia) Hne).
  destruct (Nat.eqb_spec m (length data)) as [->|Hneq].
  { exists data, [], c. split_and!; [done|cbn; lia|left; by rewrite app_nil_r|done|lia]. }
  pose proof (last_space_spec data m) as Hls. destruct (last_space data m) as [i|].
  - destruct Hls as [Hi Hsi]. destruct (spans_space data m c i Hp Hsp Hi Hsi) as (c' & Hc' & Hle').
    pose proof (lookup_lt_Some _ _ _ Hsi) as Hlt.
    exists (take i data), (drop (S i) data), c'. split_and!; [done|rewrite length_drop; lia| | |lia].
    + right. rewrite <- (drop_S _ _ _ Hsi). by rewrite take_drop.
    + by rewrite length_take, Nat.min_l by lia.
  - exists (take m data), (drop m data), c. split_and!; [done|rewrite length_drop; lia| | |lia].
    + left. by rewrite take_drop.
    + by rewrite length_take, Nat.min_l by lia.
Qed.

(** Lines that fit and together are the text, less the spaces at the breaks. *)
Inductive wrapped (width : Z) : str -> list str -> Prop :=
  | wrapped_nil : wrapped width [] []
  | wrapped_line data line rest ls cols :
      data = line ++ rest \/ data = line ++ SP :: rest ->
      spans data (length line) cols -> cols <= width ->
      wrapped width rest ls -> wrapped width data (line :: ls).

Lemma wrap_text_spec width data :
  2 <= width -> printable data -> exists ls, wrap_text width data = Some ls /\ wrapped width data ls.
Proof.
  intros Hw Hp. unfold wrap_text. assert (length data < S (length data))%nat as Hf by lia. revert Hf.
  generalize (S (length data)) as fuel. intros fuel. revert data Hp. induction fuel as [|fuel IH]; intros data Hp Hf; [lia|].
  cbn [lines_of]. destruct data as [|c data]; [by exists []; split; [|constructor]|].
  destruct (cut_spec width (c :: data) Hw Hp ltac:(done)) as (line & rest & cols & -> & Hlt & Hcat & Hsp & Hcols).
  destruct (IH rest) as (ls & -> & Hls); [|lia|].
  - destruct Hcat as [E|E]; rewrite E in Hp; unfold printable in *; rewrite Forall_app in Hp; [apply Hp|].
    destruct Hp as [_ Hp]. by inversion Hp.
  - exists (line :: ls). split; [done|]. by econstructor.
Qed.

(** ** The parts of a row *)

(** The text up to the next separator. *)
Fixpoint ordinary (s : str) : str :=
  match s with
  | [] => []
  | c :: s => if ends_part c then [] else c :: ordinary s
  end.

Lemma ends_part_code c : ends_part c = true -> is_continuation c = false.
Proof.
  unfold ends_part. intros H. apply orb_true_iff in H as [H|H]; [apply orb_true_iff in H as [H|H]|];
    apply bool_decide_eq_true in H; subst c; by vm_compute.
Qed.

Lemma ordinary_drop n s :
  (n <= length s)%nat -> (forall i b, (i < n)%nat -> s !! i = Some b -> is_continuation b = true) ->
  ordinary s = take n s ++ ordinary (drop n s).
Proof.
  revert s. induction n as [|n IH]; intros s Hn Hc; [by rewrite take_0, drop_0|].
  destruct s as [|c s]; [cbn in Hn; lia|]. cbn [ordinary take drop app].
  destruct (ends_part c) eqn:Ee.
  { apply ends_part_code in Ee. specialize (Hc 0%nat c ltac:(lia) eq_refl). congruence. }
  f_equal. apply IH; [cbn in Hn; lia|]. intros i b Hi Hb. apply (Hc (S i)); [lia|done].
Qed.

Lemma part_length_spec fuel s k cols :
  printable s -> (length s < fuel)%nat -> 0 <= cols ->
  exists sl, part_length fuel s k cols = Some (k + length (ordinary s), sl)%nat /\ 0 <= sl.
Proof.
  revert s k cols. induction fuel as [|fuel IH]; intros s k cols Hp Hf Hc; [lia|]. cbn [part_length].
  destruct s as [|c s]; [exists cols; cbn; by rewrite Nat.add_0_r|]. cbn [ordinary].
  destruct (ends_part c); [exists cols; cbn; by rewrite Nat.add_0_r|].
  unfold printable in Hp. rewrite Forall_cons in Hp. destruct Hp as [Hc' Hp].
  destruct (decode_spec c s Hc') as (n & w & Ed & Hn & Hcont & _). rewrite Ed.
  destruct (IH (drop n s) (k + n + 1)%nat (if w then cols + 2 else cols + 1)) as (sl & E & Hsl).
  - by apply printable_drop.
  - rewrite length_drop. cbn in Hf. lia.
  - destruct w; lia.
  - exists sl. split; [|done]. rewrite E. f_equal. f_equal. rewrite (ordinary_drop n s Hn Hcont).
    cbn [length]. rewrite length_app, length_take. lia.
Qed.

(** What one pass over a row finds for line [t]: columns, and where their parts start. *)
Fixpoint pass (t : Z) (p : str) (col line : Z) (hit : bool) : list (Z * str) :=
  match p with
  | [] => if hit then [] else [(col, p)]
  | c :: s =>
      if bool_decide (c = VT) then
        if line + 1 =? t then (col, s) :: pass t s col (line + 1) true else pass t s col (line + 1) hit
      else if bool_decide (c = TAB) then
        (if hit then [] else [(col, p)]) ++
        (if 0 =? t then (col + 1, s) :: pass t s (col + 1) 0 true else pass t s (col + 1) 0 false)
      else if bool_decide (c = LF) then (if hit then [] else [(col, p)])
      else pass t s col line hit
  end.

(** The greatest line the rest of the row reaches. *)
Fixpoint peak (p : str) (line : Z) : Z :=
  match p with
  | [] => line
  | c :: s =>
      if bool_decide (c = VT) then peak s (line + 1)
      else if bool_decide (c = TAB) then Z.max line (peak s 0)
      else if bool_decide (c = LF) then line
      else peak s line
  end.

Lemma peak_ge p line : line <= peak p line.
Proof. revert line. induction p as [|c p IH]; intros line; cbn [peak]; repeat case_bool_decide; try lia; [specialize (IH (line + 1)); lia|apply IH]. Qed.

Lemma ends_part_false c : ends_part c = false -> bool_decide (c = VT) = false /\ bool_decide (c = TAB) = false /\ bool_decide (c = LF) = false.
Proof. unfold ends_part. intros H. b2p. repeat split; by apply bool_decide_false. Qed.

Lemma pass_skip t s col line hit : pass t (drop (length (ordinary s)) s) col line hit = pass t s col line hit.
Proof.
  induction s as [|c s IH]; [done|]. cbn [ordinary]. destruct (ends_part c) eqn:Ee; [done|].
  apply ends_part_false in Ee as (H1 & H2 & H3). cbn [length drop pass]. by rewrite H1, H2, H3.
Qed.

Lemma peak_skip s line : peak (drop (length (ordinary s)) s) line = peak s line.
Proof.
  induction s as [|c s IH]; [done|]. cbn [ordinary]. destruct (ends_part c) eqn:Ee; [done|].
  apply ends_part_false in Ee as (H1 & H2 & H3). cbn [length drop peak]. by rewrite H1, H2, H3.
Qed.

Lemma newline_skip s : to_newline (drop (length (ordinary s)) s) = to_newline s.
Proof.
  induction s as [|c s IH]; [done|]. cbn [ordinary]. destruct (ends_part c) eqn:Ee; [done|].
  apply ends_part_false in Ee as (_ & _ & H3). cbn [length drop to_newline]. by rewrite H3.
Qed.

Lemma upmax_max a b : upmax a b = Z.max a b.
Proof. unfold upmax. destruct (Z.leb_spec b a); lia. Qed.

(** The iterator points at the part [s] of column [c] in line [t] of the row [row]; [M] is
    the last line of the row. *)
Record at_part (it it' : LinePartIterator) (row : str) (M t c : Z) (s : str) : Prop := {
  ap_table : tablestart it' = tablestart it;
  ap_desc : rowdesc it' = rowdesc it;
  ap_row : rowstart it' = rowstart it;
  ap_ptr : ptr it' = Some s;
  ap_col : col it' = c;
  ap_len : len it' = length (ordinary s);
  ap_cols : 0 <= screenlen it';
  ap_target : target_line_in_block it' = t;
  ap_hit : hit_target_line it' = true;
  ap_line : 0 <= line_in_block it' <= max_line_in_block it';
  ap_max : Z.max (max_line_in_block it') (peak s (line_in_block it')) = M;
  ap_text : printable s /\ (length s <= length row)%nat;
  ap_newline : to_newline s = to_newline row }.

Lemma update_length_spec it s :
  ptr it = Some s -> printable s ->
  exists sl, update_length it = Some (mkIter (tablestart it) (rowdesc it) (rowstart it) (ptr it) (col it) (length (ordinary s)) sl
     (max_line_in_block it) (line_in_block it) (target_line_in_block it) (hit_target_line it)) /\ 0 <= sl.
Proof.
  intros Hs Hp. unfold update_length. rewrite Hs.
  destruct (part_length_spec (S (length s)) s 0 0 Hp ltac:(lia) ltac:(lia)) as (sl & -> & Hsl). by exists sl.
Qed.

Lemma part_found_spec it row s c max line t hit M :
  printable s -> (length s <= length row)%nat -> to_newline s = to_newline row -> 0 <= line <= max -> Z.max max (peak s line) = M ->
  exists it', part_found (scanning it s c max line t hit) = Some (true, it') /\ at_part it it' row M t c s /\ line_in_block it' = line.
Proof.
  intros Hp Hl Hn Hli HM. unfold part_found.
  destruct (update_length_spec (scanning it s c max line t hit) s eq_refl Hp) as (sl & -> & Hsl).
  eexists. split; [done|]. split; [|done]. constructor; cbn; done || lia.
Qed.

(** The end of a pass. *)
Definition pass_end (it : LinePartIterator) (row p : str) (c max line t : Z) (fuel : nat) : option (bool * LinePartIterator) :=
  if max <? t + 1 then let! it := update_length (scanning it p c max line (t + 1) true) in Some (false, it)
  else next_loop fuel it row row 0 max 0 (t + 1) false.

Lemma next_loop_pass fuel it row p c max line t hit M :
  printable p -> (length p <= length row)%nat -> to_newline p = to_newline row ->
  0 <= line <= max -> Z.max max (peak p line) = M -> (length p < fuel)%nat ->
  match pass t p c line hit with
  | (c', s) :: q =>
      exists it', next_loop fuel it row p c max line t hit = Some (true, it') /\ at_part it it' row M t c' s /\
        pass t s c' (line_in_block it') true = q
  | [] =>
      exists p' c' line' fuel', next_loop fuel it row p c max line t hit = pass_end it row p' c' M line' t fuel' /\
        (fuel <= fuel' + length p + 1)%nat /\ printable p' /\ (length p' <= length p)%nat /\ to_newline p' = to_newline row
  end.
Proof.
  revert fuel c max line hit. induction p as [|ch s IH]; intros fuel c max line hit Hp Hl Hn Hli HM Hf;
    (destruct fuel as [|fuel]; [lia|]); cbn [next_loop pass].
  { destruct hit; cbn [negb].
    - exists [], c, line, fuel. cbn [peak] in HM. replace M with max by lia. split_and!; [done|cbn; lia|done|lia|done].
    - destruct (part_found_spec it row [] c max line t false M) as (it' & E & Ha & _); [done..|]. by exists it'. }
  pose proof Hp as Hp'. unfold printable in Hp'. rewrite Forall_cons in Hp'. destruct Hp' as [_ Hs].
  cbn [length] in *. cbn [peak to_newline] in HM, Hn.
  case_bool_decide as Hvt.
  { subst ch. change (bool_decide (VT = LF)) with false in Hn. cbv iota in Hn, HM.
    assert (Z.max (upmax max (line + 1)) (peak s (line + 1)) = M) as HM'.
    { rewrite upmax_max. pose proof (peak_ge s (line + 1)). lia. }
    assert (0 <= line + 1 <= upmax max (line + 1)) as Hli' by (rewrite upmax_max; lia).
    destruct (line + 1 =? t).
    - destruct (part_found_spec it row s c (upmax max (line + 1)) (line + 1) t hit M) as (it' & E & Ha & El); [done|lia|done..|].
      exists it'. rewrite El. done.
    - specialize (IH fuel c (upmax max (line + 1)) (line + 1) hit Hs ltac:(lia) Hn Hli' HM' ltac:(lia)).
      destruct (pass t s c (line + 1) hit) as [|[c' s'] q]; [|done].
      destruct IH as (p' & c' & line' & fuel' & E & H1 & H2 & H3 & H4). exists p', c', line', fuel'. split_and!; [done|lia|done|lia|done]. }
  case_bool_decide as Htab.
  { subst ch. change (bool_decide (TAB = LF)) with false in Hn. cbv iota in Hn, HM.
    destruct hit; cbn [negb app].
    - pose proof (peak_ge s 0). assert (Z.max max (peak s 0) = M) as HM' by lia.
      destruct (0 =? t).
      + destruct (part_found_spec it row s (c + 1) max 0 t false M) as (it' & E & Ha & El); [done|lia|done|lia|done|].
        exists it'. rewrite El. done.
      + specialize (IH fuel (c + 1) max 0 false Hs ltac:(lia) Hn ltac:(lia) HM' ltac:(lia)).
        destruct (pass t s (c + 1) 0 false) as [|[c' s'] q]; [|done].
        destruct IH as (p' & c' & line' & fuel' & E & H1 & H2 & H3 & H4). exists p', c', line', fuel'. split_and!; [done|lia|done|lia|done].
    - destruct (part_found_spec it row (TAB :: s) c max line t false M) as (it' & E & Ha & El); [done|cbn; lia|done|done| |].
      { cbn [peak]. exact HM. }
      exists it'. rewrite El. split; [done|]. split; [done|]. cbn [pass]. done. }
  case_bool_decide as Hlf.
  { subst ch. destruct hit; cbn [negb].
    - exists (LF :: s), c, line, fuel. replace M with max by lia. split_and!; [done|cbn; lia|done|done|done].
    - destruct (part_found_spec it row (LF :: s) c max line t false M) as (it' & E & Ha & El); [done|cbn; lia|done|done| |].
      { cbn [peak]. exact HM. }
      by exists it'. }
  specialize (IH fuel c max line hit Hs ltac:(lia) Hn Hli HM ltac:(lia)).
  destruct (pass t s c line hit) as [|[c' s'] q]; [|done].
  destruct IH as (p' & c' & line' & fuel' & E & H1 & H2 & H3 & H4). exists p', c', line', fuel'. split_and!; [done|lia|done|lia|done].
Qed.

Lemma pass_nonempty t p c line : pass t p c line false <> [].
Proof.
  revert c line. induction p as [|ch s IH]; intros c line; cbn [pass]; [done|].
  repeat case_bool_decide; [destruct (line + 1 =? t); [done|apply IH]|done|done|apply IH].
Qed.

Lemma pass_col t p c line hit c' s : (c', s) ∈ pass t p c line hit -> c <= c'.
Proof.
  revert c line hit. induction p as [|ch p IH]; intros c line hit; cbn [pass].
  { destruct hit; [set_solver|]. intros [[= -> ->]|?]%elem_of_cons; [lia|set_solver]. }
  repeat case_bool_decide.
  - destruct (line + 1 =? t); [intros [[= -> ->]|H']%elem_of_cons; [lia|]|]; by eapply IH.
  - intros [H'|H']%elem_of_app.
    + destruct hit; [set_solver|]. apply elem_of_cons in H' as [[= -> ->]|?]; [lia|set_solver].
    + destruct (0 =? t); [apply elem_of_cons in H' as [[= -> ->]|H']; [lia|]|]; apply IH in H'; lia.
  - destruct hit; [set_solver|]. intros [[= -> ->]|?]%elem_of_cons; [lia|set_solver].
  - by apply IH.
Qed.

(** The parts of the passes for the lines after [t]. *)
Definition tagged (t : Z) (q : list (Z * str)) : list (Z * Z * str) := map (fun e => (e.1, t, e.2)) q.

Fixpoint later (row : str) (t : Z) (n : nat) : list (Z * Z * str) :=
  match n with
  | O => []
  | S n => tagged (t + 1) (pass (t + 1) row 0 0 false) ++ later row (t + 1) n
  end.

(** The parts still to come. *)
Definition to_come (row : str) (M t : Z) (q : list (Z * str)) : list (Z * Z * str) :=
  tagged t q ++ later row t (Z.to_nat (M - t)).

(** The iterator at the end of a row. *)
Record row_done (it it' : LinePartIterator) (row : str) : Prop := {
  rd_table : tablestart it' = tablestart it;
  rd_desc : rowdesc it' = rowdesc it;
  rd_ptr : exists p, ptr it' = Some p /\ to_newline p = to_newline row /\ printable p }.

Lemma next_step it0 it row M t c s q :
  at_part it0 it row M t c s -> rowstart it0 = Some row -> printable row -> M = peak row 0 -> 0 <= t <= M -> 0 <= c ->
  pass t s c (line_in_block it) true = q ->
  match to_come row M t q with
  | (c', t', s') :: rem =>
      exists it', next it = Some (true, it') /\ at_part it0 it' row M t' c' s' /\ 0 <= c' /\ 0 <= t' <= M /\
        to_come row M t' (pass t' s' c' (line_in_block it') true) = rem
  | [] => exists it', next it = Some (false, it') /\ row_done it0 it' row
  end.
Proof.
  intros Hat Hrow Hpr HM Ht Hc Hq. unfold next.
  rewrite (ap_ptr _ _ _ _ _ _ _ Hat), (ap_col _ _ _ _ _ _ _ Hat), (ap_row _ _ _ _ _ _ _ Hat), Hrow.
  replace (c =? -1) with false by (symmetry; apply Z.eqb_neq; lia).
  rewrite (ap_len _ _ _ _ _ _ _ Hat), (ap_target _ _ _ _ _ _ _ Hat), (ap_hit _ _ _ _ _ _ _ Hat).
  destruct (ap_text _ _ _ _ _ _ _ Hat) as [Hps Hls].
  pose proof (next_loop_pass (next_fuel row) it row (drop (length (ordinary s)) s) c (max_line_in_block it) (line_in_block it) t true M) as H.
  rewrite pass_skip, peak_skip, newline_skip, Hq, length_drop in H.
  specialize (H ltac:(by apply printable_drop) ltac:(lia) (ap_newline _ _ _ _ _ _ _ Hat) (ap_line _ _ _ _ _ _ _ Hat) (ap_max _ _ _ _ _ _ _ Hat)
    ltac:(unfold next_fuel; nia)).
  destruct q as [|[c' s'] q].
  - destruct H as (p' & c' & line' & fuel' & -> & Hfuel & Hp' & Hl' & Hn'). unfold pass_end, to_come. cbn [tagged map app].
    destruct (Z.ltb_spec M (t + 1)) as [Hlast|Hmore].
    + replace (Z.to_nat (M - t)) with 0%nat by lia. cbn [later].
      destruct (update_length_spec (scanning it p' c' M line' (t + 1) true) p' eq_refl Hp') as (sl & -> & _).
      eexists. split; [done|]. constructor; cbn; [apply Hat|apply Hat|]. by exists p'.
    + replace (Z.to_nat (M - t)) with (S (Z.to_nat (M - (t + 1)))) by lia. cbn [later].
      pose proof (next_loop_pass fuel' it row row 0 M 0 (t + 1) false M Hpr ltac:(lia) eq_refl ltac:(lia) ltac:(lia)
        ltac:(unfold next_fuel in Hfuel; nia)) as H.
      pose proof (pass_nonempty (t + 1) row 0 0) as Hne.
      pose proof (pass_col (t + 1) row 0 0 false) as Hcol.
      destruct (pass (t + 1) row 0 0 false) as [|[c'' s''] q'']; [done|].
      destruct H as (it' & E & Ha & Hq'). cbn [tagged map app fst snd]. exists it'. split; [done|]. split_and!.
      * destruct Ha as [], Hat as []. constructor; done || congruence.
      * apply (Hcol c'' s''). set_solver.
      * lia.
      * lia.
      * unfold to_come. by rewrite Hq'.
  - destruct H as (it' & E & Ha & Hq'). unfold to_come. cbn [tagged map app fst snd]. exists it'. split; [done|]. split_and!.
    + destruct Ha as [], Hat as []. constructor; done || congruence.
    + pose proof (pass_col t s c (line_in_block it) true c' s') as Hcol. rewrite Hq in Hcol. specialize (Hcol ltac:(set_solver)). lia.
    + lia.
    + lia.
    + unfold to_come. by rewrite Hq'.
Qed.

(** Column, line and text of a part. *)
Definition view (it : LinePartIterator) : Z * Z * str := (column it, line it, take (len it) (data it)).

Definition view_of (e : Z * Z * str) : Z * Z * str := (e.1.1, e.1.2, ordinary e.2).

Lemma ordinary_prefix s : take (length (ordinary s)) s = ordinary s.
Proof. induction s as [|c s IH]; [done|]. cbn [ordinary]. destruct (ends_part c); [done|]. cbn. by rewrite IH. Qed.

Lemma at_part_view it0 it row M t c s : at_part it0 it row M t c s -> view it = (c, t, ordinary s).
Proof.
  intros []. unfold view, column, line, data. rewrite ap_ptr0, ap_len0, ap_col0, ap_target0. cbn [from_option id]. by rewrite ordinary_prefix.
Qed.

(** What printing needs to know of a part. *)
Definition good (it : LinePartIterator) : Prop := 0 <= screenLength it /\ 0 <= column it /\ printable (data it).

Lemma parts_of_row_step fuel it0 it row M t c s acc :
  at_part it0 it row M t c s -> rowstart it0 = Some row -> printable row -> M = peak row 0 -> 0 <= t <= M -> 0 <= c ->
  let todo := to_come row M t (pass t s c (line_in_block it) true) in
  (length todo < fuel)%nat ->
  exists parts it', parts_of_row fuel it acc = Some (acc ++ parts, it') /\ row_done it0 it' row /\
    map view parts = map view_of todo /\ Forall good parts.
Proof.
  revert it t c s acc. induction fuel as [|fuel IH]; intros it t c s acc Hat Hrow Hpr HM Ht Hc todo Hf; [lia|].
  cbn [parts_of_row].
  pose proof (next_step it0 it row M t c s _ Hat Hrow Hpr HM Ht Hc eq_refl) as H. fold todo in H.
  destruct todo as [|[[c' t'] s'] rem] eqn:Etodo.
  - destruct H as (it' & -> & Hd). exists [], it'. rewrite app_nil_r. done.
  - destruct H as (it' & -> & Hat' & Hc' & Ht' & Hrem). cbn [length] in Hf.
    destruct (IH it' t' c' s' (acc ++ [it']) Hat' Hrow Hpr HM Ht' Hc') as (parts & it'' & -> & Hd & Hv & Hsl); [rewrite Hrem; lia|].
    exists (it' :: parts), it''. rewrite <- app_assoc. split; [done|]. split; [done|]. rewrite Hrem in Hv.
    split; [|constructor; [|done]; destruct Hat'; unfold good, screenLength, column, data; rewrite ap_ptr0; cbn; split_and!; [done|lia|apply ap_text0]].
    cbn [map]. rewrite Hv, (at_part_view _ _ _ _ _ _ _ Hat'). done.
Qed.

(** ** Rows as tables *)

Fixpoint split_on (d : ascii) (s : str) : list str :=
  match s with
  | [] => [[]]
  | c :: s =>
      if bool_decide (c = d) then [] :: split_on d s
      else match split_on d s with [] => [[c]] | p :: ps => (c :: p) :: ps end
  end.

(** The row itself, without the rows after it. *)
Fixpoint row_body (s : str) : str :=
  match s with [] => [] | c :: s => if bool_decide (c = LF) then [] else c :: row_body s end.

Definition row_cells (row : str) : list str := split_on TAB (row_body row).

(** The lines of a cell, and the number of the last line of a row. *)
Definition cell_lines (cell : str) : list str := split_on VT cell.
Definition last_line (cell : str) : Z := Z.of_nat (length (cell_lines cell)) - 1.
Definition depth (cells : list str) : Z := foldr Z.max 0 (map last_line cells).

(** Line [t] of the cells, from column [c] on: cells with fewer lines have an empty part. *)
Fixpoint line_of (t c : Z) (cells : list str) : list (Z * Z * str) :=
  match cells with
  | [] => []
  | cell :: cells => (c, t, default [] (cell_lines cell !! Z.to_nat t)) :: line_of t (c + 1) cells
  end.

(** The parts of a row: line by line, and in a line column by column. *)
Definition row_table (row : str) : list (Z * Z * str) :=
  let cells := row_cells row in
  concat (map (fun t => line_of (Z.of_nat t) 0 cells) (seq 0 (S (Z.to_nat (depth cells))))).

Lemma split_on_cons d s : exists p ps, split_on d s = p :: ps.
Proof.
  destruct s as [|c s]; cbn [split_on]; [by eexists _, _|]. destruct (bool_decide (c = d)); [by eexists _, _|].
  destruct (split_on d s); by eexists _, _.
Qed.

(** The current cell, and the cells after it. *)
Definition this_cell (p : str) : str := default [] (head (row_cells p)).
Definition next_cells (p : str) : list str := tail (row_cells p).

Lemma cells_eq p : row_cells p = this_cell p :: next_cells p.
Proof. unfold this_cell, next_cells, row_cells. destruct (split_on_cons TAB (row_body p)) as (q & qs & ->). done. Qed.

Lemma cells_tab s : this_cell (TAB :: s) = [] /\ next_cells (TAB :: s) = row_cells s.
Proof. done. Qed.

Lemma cells_lf s : this_cell (LF :: s) = [] /\ next_cells (LF :: s) = [].
Proof. done. Qed.

Lemma cells_char c s : c <> TAB -> c <> LF -> this_cell (c :: s) = c :: this_cell s /\ next_cells (c :: s) = next_cells s.
Proof.
  intros Ht Hl. unfold this_cell, next_cells, row_cells. cbn [row_body]. rewrite bool_decide_false by done.
  cbn [split_on]. rewrite bool_decide_false by done. by destruct (split_on_cons TAB (row_body s)) as (q & qs & ->).
Qed.

Lemma lines_char c s : c <> VT -> exists p ps, cell_lines s = p :: ps /\ cell_lines (c :: s) = (c :: p) :: ps.
Proof.
  intros Hv. unfold cell_lines. destruct (split_on_cons VT s) as (p & ps & E). exists p, ps. split; [done|].
  cbn [split_on]. by rewrite bool_decide_false, E by done.
Qed.

Lemma ends_part_dec c : ends_part c = true <-> c = VT \/ c = TAB \/ c = LF.
Proof. unfold ends_part. rewrite !orb_true_iff, !bool_decide_eq_true. tauto. Qed.

Lemma ordinary_head s : head (cell_lines (this_cell s)) = Some (ordinary s).
Proof.
  induction s as [|c s IH]; [done|]. cbn [ordinary]. destruct (ends_part c) eqn:Ee.
  - apply ends_part_dec in Ee as [Ee|[Ee|Ee]]; subst c; [|done|done].
    destruct (cells_char VT s ltac:(done) ltac:(done)) as [-> _]. done.
  - assert (c <> VT /\ c <> TAB /\ c <> LF) as (Hv & Ht & Hl).
    { split_and!; intros ->; by vm_compute in Ee. }
    destruct (cells_char c s Ht Hl) as [-> _]. destruct (lines_char c (this_cell s) Hv) as (p & ps & E & ->).
    rewrite E in IH. cbn in *. congruence.
Qed.

Lemma ordinary_first s : default [] (cell_lines (this_cell s) !! 0%nat) = ordinary s.
Proof. rewrite <- head_lookup, ordinary_head. done. Qed.

Lemma tagged_cons t c s q : map view_of (tagged t ((c, s) :: q)) = (c, t, ordinary s) :: map view_of (tagged t q).
Proof. done. Qed.

Lemma tagged_app t q1 q2 : map view_of (tagged t (q1 ++ q2)) = map view_of (tagged t q1) ++ map view_of (tagged t q2).
Proof. unfold tagged. by rewrite !map_app. Qed.

(** A pass finds line [t] of every cell. *)
Lemma pass_line t p c line :
  0 <= t ->
  (t <= line -> map view_of (tagged t (pass t p c line true)) = line_of t (c + 1) (next_cells p)) /\
  (line < t -> map view_of (tagged t (pass t p c line false)) =
    (c, t, default [] (cell_lines (this_cell p) !! Z.to_nat (t - line))) :: line_of t (c + 1) (next_cells p)).
Proof.
  intros Ht. revert c line. induction p as [|ch s IH]; intros c line; cbn [pass].
  { split; [done|]. intros Hl. cbn. by replace (Z.to_nat (t - line)) with (S (Z.to_nat (t - line - 1))) by lia. }
  assert (map view_of (tagged t (if 0 =? t then (c + 1, s) :: pass t s (c + 1) 0 true else pass t s (c + 1) 0 false))
    = line_of t (c + 1) (row_cells s)) as Hnext.
  { rewrite cells_eq. destruct (Z.eqb_spec 0 t) as [E0|Hne]; [subst t|].
    - rewrite tagged_cons, (proj1 (IH (c + 1) 0)) by lia. cbn [line_of]. change (Z.to_nat 0) with 0%nat. by rewrite ordinary_first.
    - rewrite (proj2 (IH (c + 1) 0)) by lia. by rewrite Z.sub_0_r. }
  case_bool_decide as Hvt.
  { subst ch. destruct (cells_char VT s ltac:(done) ltac:(done)) as [-> ->]. split.
    - intros Hl. replace (line + 1 =? t) with false by (symmetry; apply Z.eqb_neq; lia). apply IH. lia.
    - intros Hl. destruct (Z.eqb_spec (line + 1) t) as [E0|Hne]; [subst t|].
      + rewrite tagged_cons, (proj1 (IH c (line + 1))) by lia.
        replace (Z.to_nat (line + 1 - line)) with 1%nat by lia. do 2 f_equal. cbn [cell_lines split_on]. by rewrite <- ordinary_first.
      + rewrite (proj2 (IH c (line + 1))) by lia.
        replace (Z.to_nat (t - line)) with (S (Z.to_nat (t - (line + 1)))) by lia. done. }
  case_bool_decide as Htab.
  { subst ch. destruct (cells_tab s) as [-> ->]. split; intros Hl.
    - exact Hnext.
    - rewrite tagged_app, Hnext, tagged_cons.
      replace (Z.to_nat (t - line)) with (S (Z.to_nat (t - line - 1))) by lia. done. }
  case_bool_decide as Hlf.
  { subst ch. destruct (cells_lf s) as [-> ->]. split; intros Hl; [done|].
    replace (Z.to_nat (t - line)) with (S (Z.to_nat (t - line - 1))) by lia. done. }
  destruct (cells_char ch s Htab Hlf) as [-> ->]. destruct (lines_char ch (this_cell s) Hvt) as (q & qs & E & ->).
  split; intros Hl; [by apply IH|]. rewrite (proj2 (IH c line)) by lia. rewrite E.
  by replace (Z.to_nat (t - line)) with (S (Z.to_nat (t - line - 1))) by lia.
Qed.

Lemma depth_nonneg cells : 0 <= depth cells.
Proof. unfold depth. induction cells; cbn; lia. Qed.

Lemma last_line_nonneg cell : 0 <= last_line cell.
Proof. unfold last_line, cell_lines. destruct (split_on_cons VT cell) as (p & ps & ->). cbn [length]. lia. Qed.

Lemma peak_depth p line : 0 <= line -> peak p line = Z.max (line + last_line (this_cell p)) (depth (next_cells p)).
Proof.
  revert line. induction p as [|ch s IH]; intros line Hl; cbn [peak]. 
  { cbn. change (last_line []) with 0. lia. }
  case_bool_decide as Hvt.
  { subst ch. destruct (cells_char VT s ltac:(done) ltac:(done)) as [-> ->]. rewrite IH by lia. unfold last_line.
    change (cell_lines (VT :: this_cell s)) with ([] :: cell_lines (this_cell s)). cbn [length]. lia. }
  case_bool_decide as Htab.
  { subst ch. destruct (cells_tab s) as [-> ->]. rewrite IH, cells_eq by lia. unfold depth at 2. cbn [map foldr].
    fold (depth (next_cells s)). change (last_line []) with 0. pose proof (last_line_nonneg (this_cell s)). lia. }
  case_bool_decide as Hlf.
  { subst ch. destruct (cells_lf s) as [-> ->]. change (last_line []) with 0. change (depth []) with 0. lia. }
  destruct (cells_char ch s Htab Hlf) as [-> ->]. destruct (lines_char ch (this_cell s) Hvt) as (q & qs & E & E').
  rewrite IH by done. unfold last_line. rewrite E, E'. done.
Qed.

Lemma peak_row row : peak row 0 = depth (row_cells row).
Proof.
  rewrite peak_depth by lia. rewrite cells_eq. unfold depth at 2. cbn [map foldr]. fold (depth (next_cells row)).
  pose proof (last_line_nonneg (this_cell row)). lia.
Qed.

Lemma later_lines row t n :
  0 <= t -> map view_of (later row t n) = concat (map (fun k => line_of (t + Z.of_nat k) 0 (row_cells row)) (seq 1 n)).
Proof.
  revert t. induction n as [|n IH]; intros t Ht; [done|]. cbn [later]. rewrite map_app, IH by lia.
  cbn [seq map concat]. f_equal.
  - rewrite (proj2 (pass_line (t + 1) row 0 0 ltac:(lia))) by lia. rewrite Z.sub_0_r. change (Z.of_nat 1) with 1.
    by rewrite cells_eq.
  - rewrite <- (seq_shift n 1), map_map. f_equal. apply map_ext. intros k. f_equal. lia.
Qed.

Lemma row_table_spec row :
  map view_of ((0, 0, row) :: to_come row (peak row 0) 0 (pass 0 row 0 0 true)) = row_table row.
Proof.
  unfold row_table, to_come. rewrite peak_row. cbn [map]. rewrite map_app, (proj1 (pass_line 0 row 0 0 ltac:(lia))) by lia.
  rewrite later_lines, Z.sub_0_r by lia. cbn [seq map concat]. change (Z.of_nat 0) with 0.
  change (view_of (0, 0, row)) with (0, 0, ordinary row). rewrite <- (ordinary_first row).
  change ((0, 0, default [] (cell_lines (this_cell row) !! 0%nat)) :: line_of 0 (0 + 1) (next_cells row) ++ ?r)
    with (line_of 0 0 (this_cell row :: next_cells row) ++ r).
  by rewrite <- cells_eq.
Qed.

Lemma pass_length t p c line hit : (length (pass t p c line hit) <= length p + (if hit then 0 else 1))%nat.
Proof.
  revert c line hit. induction p as [|ch p IH]; intros c line hit; cbn [pass length]; [destruct hit; cbn; lia|].
  repeat case_bool_decide.
  - destruct (line + 1 =? t); cbn [length]; [specialize (IH c (line + 1) true)|specialize (IH c (line + 1) hit)]; destruct hit; cbn in *; lia.
  - rewrite length_app. destruct (0 =? t); cbn [length]; [specialize (IH (c + 1) 0 true)|specialize (IH (c + 1) 0 false)]; destruct hit; cbn in *; lia.
  - destruct hit; cbn; lia.
  - specialize (IH c line hit). destruct hit; cbn in *; lia.
Qed.

Lemma later_length row t n : (length (later row t n) <= n * (length row + 1))%nat.
Proof.
  revert t. induction n as [|n IH]; intros t; cbn [later]; [done|]. rewrite length_app. unfold tagged. rewrite length_map.
  pose proof (pass_length (t + 1) row 0 0 false). specialize (IH (t + 1)). cbn in *. lia.
Qed.

Lemma peak_length p line : 0 <= line -> peak p line <= line + Z.of_nat (length p).
Proof.
  revert line. induction p as [|ch p IH]; intros line Hl; cbn [peak length]; [lia|].
  repeat case_bool_decide; [specialize (IH (line + 1))|specialize (IH 0)| |specialize (IH line)]; lia.
Qed.

(** The parts of a row are its table. *)
Lemma row_spec it row :
  rowstart it = Some row -> printable row ->
  exists parts it', parts_of_row (row_fuel it) (restartRow it) [] = Some (parts, it') /\ row_done it it' row /\
    map view parts = row_table row /\ Forall good parts.
Proof.
  intros Hrow Hpr. unfold row_fuel. rewrite Hrow. cbn [from_option id]. set (n := length row).
  assert (exists f, (n + 2) * (n + 2) = S f)%nat as [f Ef] by (exists (n * n + 4 * n + 3)%nat; lia). rewrite Ef.
  cbn [parts_of_row next]. unfold next at 1. cbn [restartRow ptr col]. rewrite Hrow. change (-1 =? -1) with true. cbv iota.
  match goal with |- context [update_length ?i] => destruct (update_length_spec i row eq_refl Hpr) as (sl & -> & Hsl) end.
  cbn [tablestart rowdesc rowstart ptr col max_line_in_block line_in_block target_line_in_block hit_target_line restartRow].
  match goal with |- context [parts_of_row f ?i _] => set (it1 := i) end. cbn [app].
  assert (at_part it it1 row (peak row 0) 0 0 row) as Hat.
  { constructor; cbn; try done; try lia. pose proof (peak_ge row 0). lia. }
  pose proof (peak_ge row 0) as Hp0. pose proof (peak_length row 0 ltac:(lia)) as Hpl.
  destruct (parts_of_row_step f it it1 row (peak row 0) 0 0 row [it1] Hat Hrow Hpr eq_refl) as (parts & it' & -> & Hd & Hv & Hg); [lia|lia| |].
  { unfold to_come, tagged. rewrite length_app, length_map. change (line_in_block it1) with 0.
    pose proof (pass_length 0 row 0 0 true). pose proof (later_length row 0 (Z.to_nat (peak row 0 - 0))).
    assert (Z.to_nat (peak row 0 - 0) <= length row)%nat by lia. unfold n in Ef.
    assert (Z.to_nat (peak row 0 - 0) * (length row + 1) <= length row * (length row + 1))%nat by (apply Nat.mul_le_mono_r; lia).
    cbv iota in *. lia. }
  exists (it1 :: parts), it'. split; [done|]. split; [done|]. split.
  - cbn [map]. rewrite Hv, (at_part_view _ _ _ _ _ _ _ Hat), <- row_table_spec. done.
  - constructor; [|done]. split_and!; [exact Hsl|cbn; lia|exact Hpr].
Qed.

(** ** The rows of a table *)

Lemma split_lf s : split_on LF s = row_body s :: match to_newline s with [] => [] | _ :: s' => split_on LF s' end.
Proof.
  induction s as [|c s IH]; [done|]. cbn [split_on row_body to_newline]. case_bool_decide; [done|]. by rewrite IH.
Qed.

Lemma row_body_idem s : row_body (row_body s) = row_body s.
Proof. induction s as [|c s IH]; [done|]. cbn [row_body]. destruct (bool_decide (c = LF)) eqn:E; [done|]. cbn [row_body]. by rewrite E, IH. Qed.

Lemma row_table_body s : row_table (row_body s) = row_table s.
Proof. unfold row_table, row_cells. by rewrite row_body_idem. Qed.

Lemma printable_newline s c s' : printable s -> to_newline s = c :: s' -> printable s'.
Proof.
  intros Hp. induction s as [|b s IH]; [done|]. unfold printable in Hp. rewrite Forall_cons in Hp. destruct Hp as [_ Hp].
  cbn [to_newline]. case_bool_decide; [by intros [= <- <-]|by apply IH].
Qed.

Section rows.
Context {St : Type} (es usage : list (Descriptor St)).

(** A table of options as [Parser] wants it, whose last entry has no help text either. *)
Definition printable_usage : Prop :=
  usage_ok es usage /\ (exists d, usage !! length es = Some d /\ help d = None) /\
  forall i d h, usage !! i = Some d -> help d = Some h -> printable h.

Context (Hok : printable_usage).

(** The rows of the help texts up to the next entry without one. *)
Fixpoint help_rows (ds : list (Descriptor St)) : list str :=
  match ds with
  | [] => []
  | d :: ds => match help d with None => [] | Some h => split_on LF h ++ help_rows ds end
  end.

Definition rest_rows (p : str) (r : nat) : list str :=
  match to_newline p with [] => [] | _ :: s => split_on LF s end ++ help_rows (drop (S r) usage).

Lemma usage_lookup r : (r < length es)%nat -> exists d, usage !! S r = Some d.
Proof.
  intros Hr. destruct Hok as ((Hes & d & rest & E & _) & _). apply lookup_lt_is_Some_2. rewrite E, length_app. cbn. lia.
Qed.

(** A row, read from its start, with what is left. *)
Lemma start_row it r row rows acc fuel :
  rowstart it = Some row -> rowdesc it = Some r -> printable row ->
  (forall it' parts, row_done it it' row -> exists out,
     rows_of_table usage fuel it' (acc ++ [parts]) = Some ((acc ++ [parts]) ++ out) /\
     map (map view) out = map row_table rows /\ Forall (Forall good) out) ->
  exists out, (let! (parts, it') := parts_of_row (row_fuel (restartRow it)) (restartRow it) [] in rows_of_table usage fuel it' (acc ++ [parts]))
    = Some (acc ++ out) /\ map (map view) out = map row_table (row :: rows) /\ Forall (Forall good) out.
Proof.
  intros Hrow Hr Hpr Hk. change (row_fuel (restartRow it)) with (row_fuel it).
  destruct (row_spec it row Hrow Hpr) as (parts & it' & -> & Hd & Hv & Hg).
  destruct (Hk it' parts Hd) as (out & -> & Hv' & Hg'). exists (parts :: out). rewrite <- app_assoc. split; [done|].
  split; [|by constructor]. cbn [map]. by rewrite Hv, Hv'.
Qed.

Lemma rows_spec fuel it p r acc :
  ptr it = Some p -> rowdesc it = Some r -> printable p -> (r < length es)%nat -> (length (rest_rows p r) < fuel)%nat ->
  exists out, rows_of_table usage fuel it acc = Some (acc ++ out) /\
    map (map view) out = map row_table (rest_rows p r) /\ Forall (Forall good) out.
Proof.
  revert it p r acc. induction fuel as [|fuel IH]; intros it p r acc Hp Hr Hpr Hlt Hf; [lia|].
  cbn [rows_of_table]. unfold nextRow. rewrite Hp, Hr. unfold rest_rows in *.
  destruct (to_newline p) as [|c s] eqn:En.
  - destruct (usage_lookup r Hlt) as (d & Ed). rewrite Ed. cbn [app] in *.
    rewrite (drop_S _ _ _ Ed) in *. cbn [help_rows] in *. destruct (help d) as [h|] eqn:Eh.
    2: { exists []. rewrite app_nil_r. done. }
    assert (printable h) as Hph by (destruct Hok as (_ & _ & H); by eapply H).
    assert (S r < length es)%nat as Hlt'.
    { destruct Hok as (_ & (e & He & Hn) & _). destruct (decide (S r = length es)) as [E|]; [|lia]. rewrite E in Ed. congruence. }
    rewrite split_lf in *. cbn [app map length] in *. rewrite row_table_body.
    eapply (start_row (with_row it (Some (S r)) (Some h)) (S r)); [done..|].
    intros it' parts [Ht Hd (p' & Hp' & Hn' & Hpp')]. rewrite <- Hn' in *. apply IH; [done..|].
    unfold rest_rows. rewrite Hn'. rewrite Hn' in Hf. lia.
  - rewrite split_lf in *. cbn [app map length] in *. rewrite row_table_body.
    eapply (start_row (with_row it (Some r) (Some s)) r); [done|done|by eapply printable_newline|].
    intros it' parts [Ht Hd (p' & Hp' & Hn' & Hpp')]. rewrite <- Hn' in *. apply IH; [done..|].
    unfold rest_rows. rewrite Hn'. rewrite Hn' in Hf. lia.
Qed.


Lemma split_length d s : (length (split_on d s) <= S (length s))%nat.
Proof.
  induction s as [|c s IH]; cbn [split_on length]; [lia|]. destruct (bool_decide (c = d)); cbn [length]; [lia|].
  destruct (split_on d s); cbn [length] in *; lia.
Qed.

Lemma help_rows_length ds : (length (help_rows ds) <= sum_list (map (fun d => S (length (default [] (help d)))) ds))%nat.
Proof.
  induction ds as [|d ds IH]; [done|]. cbn [help_rows map sum_list]. destruct (help d) as [h|]; cbn [from_option id length]; [|lia].
  rewrite length_app. pose proof (split_length LF h). lia.
Qed.

Lemma sum_drop (ds : list nat) n : (sum_list (drop n ds) <= sum_list ds)%nat.
Proof. revert n. induction ds as [|d ds IH]; intros [|n]; cbn; [lia..|]. specialize (IH n). lia. Qed.

(** The iterator at the start of table [t]. *)
Definition at_table (it : LinePartIterator) (t : nat) : Prop :=
  tablestart it = t /\ (t < length es)%nat /\ exists d h, usage !! t = Some d /\ help d = Some h.

Lemma restart_rows it t :
  at_table it t ->
  exists it' out, restartTable usage it = Some it' /\ at_table it' t /\ rowdesc it' = Some t /\
    rows_of_table usage (rows_fuel usage) it' [] = Some out /\
    map (map view) out = map row_table (help_rows (drop t usage)) /\ Forall (Forall good) out.
Proof.
  intros (Ht & Hlt & d & h & Ed & Eh). unfold restartTable. rewrite Ht, Ed. eexists. rewrite Eh.
  assert (printable h) as Hph by (destruct Hok as (_ & _ & H); by eapply H).
  unfold rows_fuel. rewrite Nat.add_comm. cbn [Nat.add rows_of_table nextRow ptr]. cbn [restartRow rowstart has].
  match goal with |- context [mkIter t (Some t) (Some h) None ?a ?b ?c ?d ?e ?f ?g] => set (it1 := mkIter t (Some t) (Some h) None a b c d e f g) end.
  change (mkIter (tablestart it1) (rowdesc it1) (rowstart it1) (rowstart it1) (-1) 0 0 0 0 0 true) with (restartRow it1) || idtac.
  assert (Hlen : (length (help_rows (drop t usage)) <= help_size usage)%nat).
  { etrans; [apply help_rows_length|]. unfold help_size. change (map (λ d, S (length (default [] (help d)))) (drop t usage)) with ((λ d, S (length (default [] (help d)))) <$> drop t usage).
    rewrite fmap_drop. apply sum_drop. }
  rewrite (drop_S _ _ _ Ed) in *. cbn [help_rows] in *. rewrite Eh in *. rewrite split_lf in *. cbn [app map length] in *.
  destruct (start_row it1 t h (match to_newline h with [] => [] | _ :: s' => split_on LF s' end ++ help_rows (drop (S t) usage)) []
    (S (help_size usage))) as (out & E & Hv & Hg); [done..| |].
  { intros it' parts [Ht' Hd (p' & Hp' & Hn' & Hpp')]. rewrite <- Hn' in *. apply rows_spec; [done..|]. unfold rest_rows. lia. }
  exists out. split; [done|]. split; [split; [done|]; split; [done|]; by exists d, h|]. split; [done|]. split; [exact E|]. split; [|done].
  rewrite row_table_body. exact Hv.
Qed.

(** ** Column widths *)

Definition widths_ok (threshold : Z) (m : Z * list Z) : Prop :=
  0 <= m.1 < 8 /\ length m.2 = 8%nat /\ Forall (fun w => 0 <= w /\ (w = 0 \/ w < threshold)) m.2.

Lemma measure_part_ok threshold m it : good it -> widths_ok threshold m -> widths_ok threshold (measure_part threshold m it).
Proof.
  intros (Hs & Hc & _) (Hl & Hlen & Hw). unfold measure_part. destruct m as [lastcolumn cw]. cbn [fst snd] in *.
  destruct (Z.ltb_spec (column it) (Z.of_nat maxcolumns)) as [Hlt|]; [|done]. unfold maxcolumns in Hlt.
  split; [cbn [fst]; rewrite upmax_max; lia|]. cbn [snd].
  destruct (Z.ltb_spec (screenLength it) threshold) as [Hth|]; [|done]. cbn [andb]. destruct (is_cell it); [|done].
  split; [by rewrite length_alter|]. rewrite Forall_lookup in *. intros i w.
  destruct (decide (i = Z.to_nat (column it))) as [->|Hne].
  - rewrite list_lookup_alter_eq. intros (w0 & Hw0 & ->)%fmap_Some. specialize (Hw _ _ Hw0). cbn beta in Hw. rewrite upmax_max. lia.
  - rewrite list_lookup_alter_ne by done. apply Hw.
Qed.

Lemma measure_rows_ok threshold rows : Forall (Forall good) rows -> widths_ok threshold (measure_rows threshold rows).
Proof.
  unfold measure_rows. assert (widths_ok threshold (0, replicate maxcolumns 0)) as H0.
  { split; [cbn; lia|]. split; [done|]. cbn [snd]. unfold maxcolumns. repeat constructor; lia. }
  revert H0. generalize (0, replicate maxcolumns 0). intros m Hm Hr. revert m Hm. induction Hr as [|parts rows Hp _ IH]; intros m Hm; [done|].
  cbn [fold_left]. apply IH. clear IH. revert m Hm. induction Hp as [|it parts Hit _ IH]; intros m Hm; [done|].
  cbn [fold_left]. apply IH. by apply measure_part_ok.
Qed.

Lemma fold_upmax l z : fold_left upmax l z = fold_left Z.max l z.
Proof. revert z. induction l as [|w l IH]; intros z; [done|]. cbn. by rewrite upmax_max, IH. Qed.

Lemma left_widths threshold l :
  Forall (fun w => 0 <= w /\ (w = 0 \/ w < threshold)) l ->
  let s := fold_left Z.add l 0 in let m := fold_left upmax l 0 in
  0 <= s /\ 0 <= m /\ (m = 0 -> s = 0) /\ (m = 0 \/ m < threshold).
Proof.
  intros H s m. unfold s, m. rewrite fold_upmax.
  assert (forall s0 m0, 0 <= s0 -> 0 <= m0 -> (m0 = 0 -> s0 = 0) -> (m0 = 0 \/ m0 < threshold) ->
    0 <= fold_left Z.add l s0 /\ 0 <= fold_left Z.max l m0 /\ (fold_left Z.max l m0 = 0 -> fold_left Z.add l s0 = 0) /\
    (fold_left Z.max l m0 = 0 \/ fold_left Z.max l m0 < threshold)) as Hgen.
  { clear s m. induction H as [|w l Hw _ IH]; intros s0 m0 H1 H2 H3 H4; [done|]. cbn [fold_left]. apply IH; lia. }
  apply Hgen; lia.
Qed.

(** The loop over ever smaller thresholds ends. *)
Lemma measure_returns fuel it t width threshold :
  at_table it t -> 0 <= threshold -> (Z.to_nat threshold < fuel)%nat -> 0 <= width ->
  exists lastcolumn col_width, measure usage fuel it width threshold = Some (lastcolumn, col_width) /\
    0 <= lastcolumn < 8 /\ length col_width = 8%nat /\ fold_left Z.add (take (Z.to_nat lastcolumn) col_width) 0 <= width.
Proof.
  revert it threshold. induction fuel as [|fuel IH]; intros it threshold Hat Hth Hf Hw; [lia|]. cbn [measure].
  destruct (restart_rows it t Hat) as (it' & rows & -> & Hat' & _ & -> & _ & Hg).
  pose proof (measure_rows_ok threshold rows Hg) as Hm. destruct (measure_rows threshold rows) as [lastcolumn cw].
  destruct Hm as (Hl & Hlen & Hws). cbn [fst snd] in *.
  pose proof (left_widths threshold (take (Z.to_nat lastcolumn) cw) (Forall_take _ _ _ Hws)) as (H1 & H2 & H3 & H4). cbn zeta in *.
  destruct (Z.ltb_spec width (fold_left Z.add (take (Z.to_nat lastcolumn) cw) 0)) as [Hgt|Hle].
  - apply IH; [done|done| |done]. lia.
  - exists lastcolumn, cw. done.
Qed.


(** ** Printing returns *)

Definition ready_wrapper (w : LineWrapper) : Prop := (exists q, holds w q) /\ 2 <= lw_width w.
Definition ready (p : printer) : Prop := ready_wrapper (lastColumnLineWrapper p) /\ ready_wrapper (interjectionLineWrapper p).

Lemma ctor_ready x1 x2 : ready_wrapper (LineWrapper_ctor x1 x2).
Proof. split; [exists []; apply ctor_holds|]. cbn. destruct (Z.ltb_spec (x2 - x1) 2); lia. Qed.

Lemma process_ready o w data : ready_wrapper w -> printable data -> exists o' w', process o w data = Some (o', w') /\ ready_wrapper w'.
Proof.
  intros [[q Hq] Hw] Hp. destruct (wrap_text_spec (lw_width w) data Hw Hp) as (ls & Hls & _).
  destruct (process_queue o w q data ls Hq Hls) as (w' & E & Hq' & _ & Hwd). eexists _, w'. split; [exact E|].
  split; [by eexists|lia].
Qed.

Lemma flush_ready o w : ready_wrapper w -> exists o' w', flush o w = Some (o', w') /\ ready_wrapper w'.
Proof.
  intros [[q Hq] Hw]. destruct (flush_queue o w q Hq) as (w' & E & Hq' & _ & Hwd). eexists _, w'. split; [exact E|].
  split; [by eexists|lia].
Qed.

Definition layout_ok (l : tableLayout) : Prop := 0 <= lastcolumn l < 8 /\ length (tabs l) = 8%nat.

Lemma printable_take n s : printable s -> printable (take n s).
Proof. apply Forall_take. Qed.

Lemma print_part_ready l it p x : layout_ok l -> good it -> ready p -> exists p' x', print_part l it p x = Some (p', x') /\ ready p'.
Proof.
  intros [Hl Ht] (Hs & Hc & Hd) [H1 H2]. unfold print_part. destruct (Z.ltb_spec (lastcolumn l) (column it)) as [|Hle]; [by eexists p, x|].
  destruct (if column it =? 0 then _ else _) as [o x0].
  destruct (lookup_lt_is_Some_2 (tabs l) (Z.to_nat (column it))) as [tab ->]; [lia|].
  destruct (indent o x0 tab) as [o1 x1].
  destruct ((column it <? lastcolumn l) && is_cell it); [by eexists _, _|].
  destruct (own_line l && (column it =? lastcolumn l)); [by eexists _, _|].
  destruct (column it =? 0).
  - destruct (process_ready o1 (interjectionLineWrapper p) (take (len it) (data it)) H2) as (o' & w' & -> & Hw'); [by apply printable_take|].
    by eexists _, _.
  - destruct (process_ready o1 (lastColumnLineWrapper p) (take (len it) (data it)) H1) as (o' & w' & -> & Hw'); [by apply printable_take|].
    by eexists _, _.
Qed.

Lemma print_parts_ready l parts p x : layout_ok l -> Forall good parts -> ready p -> exists p', print_parts l parts p x = Some p' /\ ready p'.
Proof.
  intros Hl Hg. revert p x. induction Hg as [|it parts Hit _ IH]; intros p x Hp; cbn [print_parts]; [by exists p|].
  destruct (print_part_ready l it p x Hl Hit Hp) as (p' & x' & -> & Hp'). by apply IH.
Qed.

Lemma print_own_line_ready l parts p : Forall good parts -> ready p -> exists p', print_own_line l parts p = Some p' /\ ready p'.
Proof.
  intros Hg. revert p. induction Hg as [|it parts (_ & _ & Hd) _ IH]; intros p [H1 H2]; cbn [print_own_line]; [by exists p|].
  destruct (column it =? lastcolumn l); [|by apply IH].
  destruct (process_ready (fst (indent (write (p_out p) [LF]) 0 (l_width l - rightwidth l))) (lastColumnLineWrapper p)
    (take (len it) (data it)) H1) as (o' & w' & -> & Hw'); [by apply printable_take|]. by apply IH.
Qed.

Lemma print_rows_ready l rows p : layout_ok l -> Forall (Forall good) rows -> ready p -> exists p', print_rows l rows p = Some p' /\ ready p'.
Proof.
  intros Hl Hg. revert p. induction Hg as [|parts rows Hp _ IH]; intros p Hr; cbn [print_rows]; [by exists p|].
  unfold print_row. destruct (print_parts_ready l parts p (-1) Hl Hp Hr) as (p1 & -> & Hr1).
  assert (exists p2, (if own_line l then print_own_line l parts p1 else Some p1) = Some p2 /\ ready p2) as (p2 & -> & [H1 H2]).
  { destruct (own_line l); [by apply print_own_line_ready|by exists p1]. }
  destruct (flush_ready (write (p_out p2) [LF]) _ H1) as (o1 & w1 & -> & Hw1).
  destruct (flush_ready o1 _ H2) as (o2 & w2 & -> & Hw2). by apply IH.
Qed.

Lemma print_table_returns o it t width min_width own_width :
  at_table it t -> 0 <= width -> exists o', print_table usage o it width min_width own_width = Some o'.
Proof.
  intros Hat Hw. unfold print_table.
  destruct (measure_returns 10002 it t width 10000 Hat ltac:(lia) ltac:(apply Nat.ltb_lt; by vm_compute) Hw) as (lc & cw & -> & Hlc & Hcw & _).
  assert (exists l, table_layout width min_width own_width lc cw = Some l /\ layout_ok l) as (l & -> & Hl).
  { unfold table_layout. destruct (lookup_lt_is_Some_2 (map (tabstop cw) (seq 0 maxcolumns)) (Z.to_nat lc)) as [tab ->].
    { rewrite length_map, length_seq. unfold maxcolumns. lia. }
    destruct (lookup_lt_is_Some_2 cw (Z.to_nat lc)) as [lw ->]; [lia|]. eexists. split; [done|]. split; [done|]. cbn [tabs].
    by rewrite length_map, length_seq. }
  destruct (restart_rows it t Hat) as (it' & rows & -> & _ & _ & -> & _ & Hg).
  destruct (print_rows_ready l rows (mkPrinter o (LineWrapper_ctor (width - rightwidth l) width) (LineWrapper_ctor 0 width)) Hl Hg)
    as (p & -> & _); [split; apply ctor_ready|]. by eexists.
Qed.

Lemma scan_stop (stop : Descriptor St -> bool) i k d :
  (i <= k)%nat -> usage !! k = Some d -> stop d = true ->
  exists j e, scan (fun d => Some (stop d)) (drop i usage) i = Some j /\ (i <= j <= k)%nat /\ usage !! j = Some e /\ stop e = true.
Proof.
  intros Hik Hk Hs. remember (k - i)%nat as n eqn:Hn. revert i Hik Hn. induction n as [|n IH]; intros i Hik Hn.
  - replace i with k by lia. rewrite (drop_S _ _ _ Hk). cbn [scan]. rewrite Hs. exists k, d. split_and!; [done|lia|lia|done|done].
  - destruct (lookup_lt_is_Some_2 usage i) as [e He]; [apply lookup_lt_Some in Hk; lia|].
    rewrite (drop_S _ _ _ He). cbn [scan]. destruct (stop e) eqn:Es; [exists i, e; split_and!; (done || lia)|].
    destruct (IH (S i)) as (j & e' & -> & ? & ? & ?); [lia|lia|]. exists j, e'. split_and!; (done || lia).
Qed.

(** [nextTable] ends, or stands at a table behind the one before. *)
Lemma nextTable_spec it :
  (tablestart it <= length es)%nat ->
  (has (rowdesc it) = true -> exists d h, usage !! tablestart it = Some d /\ help d = Some h /\ (tablestart it < length es)%nat) ->
  exists it', nextTable usage it = Some (false, it') \/
    (nextTable usage it = Some (true, it') /\ at_table it' (tablestart it') /\ rowdesc it' = Some (tablestart it') /\ (tablestart it <= tablestart it')%nat /\
     (has (rowdesc it) = true -> (tablestart it < tablestart it')%nat)).
Proof.
  intros Hle Hrow. destruct Hok as [Hu [(e & He & Hhe) _]].
  destruct (usage_end es usage Hu) as (e' & He' & Hshort & _). rewrite He in He'. injection He' as <-.
  unfold nextTable.
  assert (exists t1, (if has (rowdesc it) then scan (fun d => Some (negb (has (help d) && has (shortopt d)))) (drop (tablestart it) usage) (tablestart it)
     else Some (tablestart it)) = Some t1 /\ (tablestart it <= t1 <= length es)%nat /\ (has (rowdesc it) = true -> (tablestart it < t1)%nat))
    as (t1 & -> & Ht1 & Hgt).
  { destruct (has (rowdesc it)) eqn:Er; [|exists (tablestart it); split_and!; (done || lia)].
    destruct (scan_stop (fun d => negb (has (help d) && has (shortopt d))) (tablestart it) (length es) e Hle He) as (j & d & -> & Hj & Hd & Hst).
    { by rewrite Hhe. }
    exists j. split; [done|]. split; [lia|]. intros _. destruct (decide (j = tablestart it)) as [->|]; [|lia].
    destruct (Hrow eq_refl) as (d' & h & Hd' & Hh & Hlt). rewrite Hd in Hd'. injection Hd' as <-. rewrite Hh in Hst.
    destruct (usage_entry es usage Hu (tablestart it) Hlt) as (d'' & Hd'' & [s Hs] & _). rewrite Hd in Hd''. injection Hd'' as <-.
    by rewrite Hs in Hst. }
  destruct (scan_stop (fun d => negb (negb (has (help d)) && has (shortopt d))) t1 (length es) e ltac:(lia) He) as (t2 & d & -> & Ht2 & Hd & Hst).
  { by rewrite Hhe, Hshort. }
  unfold restartTable. cbn [tablestart]. rewrite Hd. destruct (help d) as [h|] eqn:Eh; eexists.
  - right. split; [done|]. cbn [tablestart rowdesc]. split; [|split; [done|split; [lia|intros Hr; specialize (Hgt Hr); lia]]].
    split; [done|]. split; [|by eexists d, h]. destruct (decide (t2 = length es)) as [->|]; [|lia]. rewrite He in Hd. congruence.
  - left. done.
Qed.

Lemma print_tables_returns fuel o it width min_width own_width :
  (tablestart it <= length es)%nat ->
  (has (rowdesc it) = true -> exists d h, usage !! tablestart it = Some d /\ help d = Some h /\ (tablestart it < length es)%nat) ->
  (length es - tablestart it + (if has (rowdesc it) then 0 else 1) < fuel)%nat -> 0 <= width ->
  exists o', print_tables usage fuel o it width min_width own_width = Some o'.
Proof.
  revert o it. induction fuel as [|fuel IH]; intros o it Hle Hrow Hf Hw; [lia|]. cbn [print_tables].
  destruct (nextTable_spec it Hle Hrow) as (it' & [->|(-> & Hat & Hrd & Hge & Hgt)]); [by eexists|].
  destruct (print_table_returns o it' _ width min_width own_width Hat Hw) as (o' & ->).
  destruct Hat as (_ & Hlt & d & h & Hd & Hh). apply IH; [lia|intros _; by exists d, h| |done].
  rewrite Hrd. cbn [has]. destruct (has (rowdesc it)); cbv iota in Hf |- *; [specialize (Hgt eq_refl)|]; lia.
Qed.

End rows.

Lemma printUsage_always {St} (es usage : list (Descriptor St)) width min_percent own_percent :
  printable_usage es usage ->
  exists o, printUsage_impl usage [] width min_percent own_percent = Some o.
Proof.
  intros Hok. unfold printUsage_impl. pose proof Hok as ((_ & d & rest & E & _) & _).
  apply (print_tables_returns es usage Hok); cbn [tablestart rowdesc has LinePartIterator_ctor]; [lia|done| |].
  - rewrite E, length_app. cbn. lia.
  - destruct (Z.ltb_spec width 1); [by destruct (10000 <? 80)|]. destruct (Z.ltb_spec 10000 width); lia.
Qed.

(** ** Theorems *)

(** The wrapper of lines is a queue.  Whatever was printed before, [process] appends the
    lines of its text to the lines that wait and writes the first of them, or as many as no
    longer fit the ring of 15, with breaks and the indentation of the column between
    them; [flush] then writes all that wait.  The lines fit the width of the column, are cut at
    spaces or between two characters and never inside one, and together are the text
    without the spaces at the breaks. *)
Theorem LineWrapper_spec o w q data :
  holds w q -> 2 <= lw_width w -> printable data ->
  exists ls w' w'' o', wrapped (lw_width w) data ls /\
    (let all := q ++ ls in let k := Nat.max 1 (length all - 15) in
     process o w data = Some (o ++ emit (lw_x w) (take k all), w') /\ holds w' (drop k all) /\
     flush (o ++ emit (lw_x w) (take k all)) w' = Some (o', w'') /\ holds w'' [] /\
     o' = (o ++ emit (lw_x w) (take k all)) ++
          match drop k all with [] => [] | _ => fst (indent [] 0 (lw_x w)) ++ emit (lw_x w) (drop k all) ++ [[LF]] end).
Proof.
  intros Hq Hw Hp. destruct (wrap_text_spec (lw_width w) data Hw Hp) as (ls & Hls & Hwr).
  destruct (process_queue o w q data ls Hq Hls) as (w' & E & Hq' & Hx & Hwd).
  destruct (flush_queue (o ++ emit (lw_x w) (take (Nat.max 1 (length (q ++ ls) - 15)) (q ++ ls))) w' _ Hq') as (w'' & E' & Hq'' & _).
  eexists ls, w', w'', _. rewrite Hx in E'. cbn zeta. split_and!; [exact Hwr|exact E|exact Hq'|exact E'|exact Hq''|done].
Qed.

(** The iterator enumerates the cells.  On a row of a help text, whose columns are
    separated by tabs and whose lines within a column by vertical tabs, the calls of [next] return
    the parts of the row line by line and in each line column by column, an empty part for a
    column with fewer lines, and then [false]; no call reads outside the text. *)
Theorem LinePartIterator_spec it row :
  rowstart it = Some row -> printable row ->
  exists parts it', parts_of_row (row_fuel it) (restartRow it) [] = Some (parts, it') /\
    map view parts = row_table row /\ row_done it it' row.
Proof. intros Hr Hp. destruct (row_spec it row Hr Hp) as (parts & it' & E & Hd & Hv & _). by exists parts, it'. Qed.

(** Printing the usage returns.  For every table whose help texts do not contain the byte
    255, every width and all percentages, the loops of [printUsage] end, the search for column
    widths among them, no array is indexed out of bounds and the output is produced. *)
Theorem printUsage_returns {St} (es usage : list (Descriptor St)) width min_percent own_percent :
  printable_usage es usage ->
  exists o, printUsage_impl usage [] width min_percent own_percent = Some o.
Proof. apply printUsage_always. Qed.

(** ** Witnesses *)

Module UsageWitnesses.

Definition line_wrapper : LineWrapper := LineWrapper_ctor 4 14.
Definition sample : str := lit "words that are wrapped".

Lemma printable_dec s : forallb (fun c => negb (code c =? 255)) s = true -> printable s.
Proof.
  intros H. apply Forall_forall. intros c Hc. apply forallb_forall with (x := c) in H; [|by apply list_elem_of_In].
  b2p. done.
Qed.

Definition first_out : out := [lit "words that"].
Definition last_out : out :=
  first_out ++ [[SP]; [SP]; [SP]; [SP]; lit "are"; [LF]; [SP]; [SP]; [SP]; [SP]; lit "wrapped"; [LF]].
Definition wrapper_at (tail : Z) : LineWrapper :=
  mkWrapper (Some (lit "words that") :: Some (lit "are") :: Some (lit "wrapped") :: replicate 13 None) 4 10 3 tail true.

Lemma LineWrapper_spec_witness :
  exists ls w' w'' o', wrapped 10 sample ls /\ process [] line_wrapper sample = Some (first_out, w') /\
    flush first_out w' = Some (o', w'') /\ text o' = lit "words that    are" ++ LF :: lit "    wrapped" ++ [LF].
Proof.
  destruct (LineWrapper_spec [] line_wrapper [] sample (ctor_holds 4 14) ltac:(by vm_compute) ltac:(by apply printable_dec; vm_compute))
    as (ls & w' & w'' & o' & Hw & E & Hq & Ef & _ & Eo).
  assert (process [] line_wrapper sample = Some (first_out, wrapper_at 0)) as E1 by (by vm_compute).
  assert (flush first_out (wrapper_at 0) = Some (last_out, wrapper_at 2)) as E2 by (by vm_compute).
  exists ls, (wrapper_at 0), (wrapper_at 2), last_out. split; [exact Hw|]. split; [exact E1|]. split; [exact E2|]. by vm_compute.
Defined.

(** Two columns, the first with two lines. *)
Definition row : str := lit "-h" ++ VT :: lit "--help" ++ TAB :: lit "Print usage.".
Definition row_iterator : LinePartIterator := mkIter 0 (Some 0%nat) (Some row) None (-1) 0 0 0 0 0 true.

Lemma LinePartIterator_spec_witness :
  exists parts it', parts_of_row (row_fuel row_iterator) (restartRow row_iterator) [] = Some (parts, it') /\
    map view parts = [(0, 0, lit "-h"); (1, 0, lit "Print usage."); (0, 1, lit "--help"); (1, 1, [])].
Proof.
  destruct (LinePartIterator_spec row_iterator row eq_refl ltac:(by apply printable_dec; vm_compute)) as (parts & it' & E & Hv & _).
  exists parts, it'. split; [exact E|]. rewrite Hv. by vm_compute.
Defined.

Definition entries : list (Descriptor unit) :=
  [mkDescriptor 0 0 (Some []) (Some []) Arg_None (Some (lit "USAGE: program [options]"));
   mkDescriptor 1 0 (Some (lit "h")) (Some (lit "help")) Arg_None (Some row)].

Lemma usage_printable : printable_usage entries (entries ++ [mkDescriptor 0 0 None None Arg_None None]).
Proof.
  split; [split; [repeat constructor; by eexists|by eexists _, []]|]. split; [by eexists|].
  intros [|[|[|i]]] d h; [..|done]; intros [= <-]; cbn; intros [= <-]; by apply printable_dec; vm_compute.
Qed.

Lemma printUsage_returns_witness :
  exists o, printUsage_impl (entries ++ [mkDescriptor 0 0 None None Arg_None None]) [] 80 50 75 = Some o /\
    text o = lit "USAGE: program [options]" ++ LF :: lit "-h    Print usage." ++ LF :: lit "--help" ++ [LF].
Proof.
  destruct (printUsage_returns entries (entries ++ [mkDescriptor 0 0 None None Arg_None None]) 80 50 75 usage_printable) as [o E].
  exists o. split; [exact E|]. revert E. vm_compute. by intros [= <-].
Defined.

End UsageWitnesses.
