(* ===== verification/Stats.v ===== *)
(** * The metrics registry

    [collector/lib/CollectorStats.h]: the singleton with a pair of counters per
    timer and one 64-bit counter per metric.  The components that count thread a
    value of [CollectorStats] through their operations. *)

From S2P Require Import Prelude.

Inductive TimerType : Set :=
| net_scrape_read | net_scrape_update | net_fetch_state | net_create_message
| net_write_message | process_info_wait.

Inductive CounterType : Set :=
| net_conn_updates | net_conn_deltas | net_conn_inactive | net_conn_rate_limited
| net_cep_updates | net_cep_deltas | net_cep_inactive
| net_known_ip_networks | net_known_public_ips
| process_lineage_counts | process_lineage_total | process_lineage_sqr_total
| process_lineage_string_total
| process_info_hit | process_info_miss
| rate_limit_flushing_counts
| procfs_could_not_open_fd_dir | procfs_could_not_open_proc_dir | procfs_could_not_open_pid_dir
| procfs_could_not_get_network_namespace | procfs_could_not_get_socket_inodes
| procfs_could_not_read_exe | procfs_could_not_read_cmdline | procfs_zombie_process
| event_timestamp_distant_past | event_timestamp_future.

#[export] Instance TimerType_eq_dec : EqDecision TimerType.
Proof. solve_decision. Defined.

#[export] Instance CounterType_eq_dec : EqDecision CounterType.
Proof. solve_decision. Defined.

Record CollectorStats := mkCollectorStats {
  timer_count_ : TimerType -> Z;
  timer_total_us_ : TimerType -> Z;
  counter_ : CounterType -> Z
}.

Definition CollectorStats_new : CollectorStats :=
  mkCollectorStats (fun _ => 0) (fun _ => 0) (fun _ => 0).

Definition upd {A} `{EqDecision A} (f : A -> Z) (a : A) (v : Z) : A -> Z :=
  fun i => if decide (i = a) then v else f i.

Definition GetTimerCount (s : CollectorStats) (index : TimerType) : Z := timer_count_ s index.
Definition GetTimerDurationMicros (s : CollectorStats) (index : TimerType) : Z := timer_total_us_ s index.
Definition GetCounter (s : CollectorStats) (index : CounterType) : Z := counter_ s index.

(** The atomics are 64-bit and wrap around. *)
Definition EndTimerAt (index : TimerType) (duration_us : Z) (s : CollectorStats) : CollectorStats :=
  mkCollectorStats (upd (timer_count_ s) index (to_signed 64 (timer_count_ s index + 1)))
                   (upd (timer_total_us_ s) index (to_signed 64 (timer_total_us_ s index + duration_us)))
                   (counter_ s).

(** [COUNTER_SET] and [COUNTER_ADD] cast their value to [int64_t]. *)
Definition CounterSet (index : CounterType) (val : Z) (s : CollectorStats) : CollectorStats :=
  mkCollectorStats (timer_count_ s) (timer_total_us_ s) (upd (counter_ s) index (to_signed 64 val)).

Definition CounterAdd (index : CounterType) (val : Z) (s : CollectorStats) : CollectorStats :=
  mkCollectorStats (timer_count_ s) (timer_total_us_ s)
                   (upd (counter_ s) index (to_signed 64 (counter_ s index + to_signed 64 val))).

Definition CounterInc (index : CounterType) : CollectorStats -> CollectorStats := CounterAdd index 1.
Definition CounterZero (index : CounterType) : CollectorStats -> CollectorStats := CounterSet index 0.

Lemma upd_eq {A} `{EqDecision A} (f : A -> Z) a v : upd f a v a = v.
Proof. unfold upd. by rewrite decide_True. Qed.

Lemma upd_ne {A} `{EqDecision A} (f : A -> Z) a b v : b <> a -> upd f a v b = f b.
Proof. intros. unfold upd. by rewrite decide_False. Qed.

Lemma to_signed_small w x : 0 < w -> - 2 ^ (w - 1) <= x < 2 ^ (w - 1) -> to_signed w x = x.
Proof.
  intros Hw Hx. unfold to_signed, wrap.
  assert (2 ^ w = 2 * 2 ^ (w - 1)) as E.
  { replace w with (Z.succ (w - 1)) at 1 by lia. rewrite Z.pow_succ_r by lia. lia. }
  destruct (Z.lt_ge_cases x 0).
  - assert (x mod 2 ^ w = x + 2 ^ w) as ->.
    { symmetry. apply (Z.mod_unique x (2 ^ w) (-1)); lia. }
    destruct (Z.ltb_spec (x + 2 ^ w) (2 ^ (w - 1))); lia.
  - rewrite Z.mod_small by lia. destruct (Z.ltb_spec x (2 ^ (w - 1))); lia.
Qed.
