(* ===== verification/Address.v ===== *)
(** * IP addresses

    The class [Address] of [collector/lib/NetworkConnection.h]: an address is
    two 64-bit words in network byte order and a family.  The constructors,
    the comparison operators and the classification predicates are translated
    one by one; [addr_val] is the abstract value of an address, the 128-bit
    number whose most significant bit is the first bit on the wire, and the
    lemmas relate each operation to it. *)

From S2P Require Import Prelude.

(** ** Data *)

Module Family.
Inductive t : Set := UNKNOWN | IPV4 | IPV6.

#[export] Instance eq_dec : EqDecision t.
Proof. solve_decision. Defined.

Definition to_Z (f : t) : Z :=
  match f with UNKNOWN => 0 | IPV4 => 1 | IPV6 => 2 end.

Definition eqb (f g : t) : bool := bool_decide (f = g).
End Family.

Export (hints) Family.

Definition kMaxLen : Z := 16.
Definition kU64MaxLen : Z := kMaxLen / 8.

Record Address := mkAddress {
  data_ : Z * Z;
  family_ : Family.t
}.

#[export] Instance Address_eq_dec : EqDecision Address.
Proof. solve_decision. Defined.

(** Both words of a well-formed address are 64-bit values. *)
Definition wf_addr (a : Address) : Prop := word 64 (data_ a).1 /\ word 64 (data_ a).2.

(** ** Memory layout of the words *)

Section Layout.
Context `{HostEndian}.

(** The 8 bytes of a [uint64_t] in memory, and the [uint64_t] read from them. *)
Definition store64 (x : Z) : list Z :=
  if host_is_big_endian then rev (le_bytes 8 x) else le_bytes 8 x.

Definition load64 (bs : list Z) : Z :=
  if host_is_big_endian then le_word (rev bs) else le_word bs.

Definition bswap32 (x : Z) : Z := le_word (rev (le_bytes 4 x)).

Definition htonl (x : Z) : Z := if host_is_big_endian then x else bswap32 x.

Definition ntohl (x : Z) : Z := if host_is_big_endian then x else bswap32 x.

(** The 4 bytes of a [uint32_t] in memory. *)
Definition store32 (x : Z) : list Z :=
  if host_is_big_endian then rev (le_bytes 4 x) else le_bytes 4 x.
End Layout.

(** ** Constructors *)

Section Operations.
Context `{HostEndian}.

Definition Length (f : Family.t) : Z :=
  match f with
  | Family.IPV4 => 4
  | Family.IPV6 => 16
  | Family.UNKNOWN => 0
  end.

Definition Address_family (f : Family.t) : Address := mkAddress (0, 0) f.

Definition Address_default : Address := Address_family Family.UNKNOWN.

Definition Any (f : Family.t) : Address := Address_family f.

(** [explicit Address(uint32_t ipv4)], [ipv4] in network byte order. *)
Definition Address_ipv4 (ipv4 : Z) : Address :=
  mkAddress (htonll (wrap 64 (Z.shiftl (ntohl ipv4) 32)), 0) Family.IPV4.

(** [Address(unsigned char a, b, c, d)]. *)
Definition Address_octets (a b c d : Z) : Address :=
  Address_ipv4 (htonl (Z.lor (Z.lor (Z.lor (Z.shiftl a 24) (Z.shiftl b 16)) (Z.shiftl c 8)) d)).

(** [Address(Family, const std::array<uint8_t, kMaxLen>&)]: a [memcpy] of the
    family's length over zeroed words. *)
Definition Address_bytes (f : Family.t) (bytes : list Z) : Address :=
  let mem := take (Z.to_nat (Length f)) bytes
             ++ drop (Z.to_nat (Length f)) (replicate 16 0) in
  mkAddress (load64 (take 8 mem), load64 (take 8 (drop 8 mem))) f.

(** [Address(Family, const std::array<uint64_t, kU64MaxLen>&)]. *)
Definition Address_u64 (f : Family.t) (d : Z * Z) : Address := mkAddress d f.

(** [explicit Address(const uint32_t (&ipv6)[4])]. *)
Definition Address_ipv6 (w0 w1 w2 w3 : Z) : Address :=
  mkAddress (load64 (store32 w0 ++ store32 w1), load64 (store32 w2 ++ store32 w3)) Family.IPV6.

(** [Address(uint64_t ipv6_high, uint64_t ipv6_low)]. *)
Definition Address_high_low (high low : Z) : Address := mkAddress (high, low) Family.IPV6.

(** ** Accessors and operators *)

Definition family (a : Address) : Family.t := family_ a.
Definition length_of (a : Address) : Z := Length (family_ a).
Definition array (a : Address) : Z * Z := data_ a.

(** The memory behind [data()]. *)
Definition data_bytes (a : Address) : list Z := store64 (data_ a).1 ++ store64 (data_ a).2.

Definition addr_eqb (a b : Address) : bool :=
  Family.eqb (family_ a) (family_ b) &&
  (((data_ a).1 =? (data_ b).1) && ((data_ a).2 =? (data_ b).2)).

(** [memcmp] on equally long byte sequences. *)
Fixpoint memcmp (xs ys : list Z) : Z :=
  match xs, ys with
  | x :: xs, y :: ys => if x =? y then memcmp xs ys else x - y
  | _, _ => 0
  end.

Definition addr_gtb (a b : Address) : bool :=
  if negb (Family.eqb (family_ a) (family_ b))
  then Family.to_Z (family_ b) <? Family.to_Z (family_ a)
  else
    let n := Z.to_nat (length_of a) in
    0 <? memcmp (take n (data_bytes a)) (take n (data_bytes b)).

Definition IsNull (a : Address) : bool := ((data_ a).1 =? 0) && ((data_ a).2 =? 0).

Definition ToV6 (a : Address) : Address :=
  match family_ a with
  | Family.IPV6 => a
  | Family.IPV4 =>
      let low := htonll (Z.lor 0x0000ffff00000000 (Z.shiftr (ntohll (data_ a).1) 32)) in
      Address_high_low 0 low
  | Family.UNKNOWN => Address_default
  end.

Definition IsLocal (a : Address) : bool :=
  match family_ a with
  | Family.IPV4 =>
      Z.land (data_ a).1 (htonll 0xff00000000000000) =? htonll 0x7f00000000000000
  | Family.IPV6 =>
      if negb ((data_ a).1 =? 0) then false
      else ((data_ a).2 =? htonll 1)
           || (Z.land (data_ a).2 (htonll 0xffffffffff000000) =? htonll 0x0000ffff7f000000)
  | Family.UNKNOWN => false
  end.

Definition IsCanonicalExternalIp (a : Address) : bool :=
  match family_ a with
  | Family.IPV4 =>
      Z.land (data_ a).1 (htonll 0xffffffff00000000) =? htonll 0xffffffff00000000
  | Family.IPV6 => ((data_ a).1 =? 0xffffffffffffffff) && ((data_ a).2 =? 0xffffffffffffffff)
  | Family.UNKNOWN => false
  end.

(** ** Abstract value *)

(** The words of an address in host order, most significant first. *)
Definition hi (a : Address) : Z := ntohll (data_ a).1.
Definition lo (a : Address) : Z := ntohll (data_ a).2.

Definition addr_val (a : Address) : Z := hi a * 2 ^ 64 + lo a.

(** The [k]-th bit of an address on the wire, from 0. *)
Definition addr_bit (a : Address) (k : Z) : bool := Z.testbit (addr_val a) (127 - k).
End Operations.

(** ** Lemmas *)

Lemma eqb_true f g : Family.eqb f g = true <-> f = g.
Proof. unfold Family.eqb. by rewrite bool_decide_eq_true. Qed.

Lemma eqb_false f g : Family.eqb f g = false <-> f <> g.
Proof. unfold Family.eqb. by rewrite bool_decide_eq_false. Qed.

Lemma Family_eqb_refl f : Family.eqb f f = true.
Proof. by apply eqb_true. Qed.

Lemma addr_eqb_eq a b : addr_eqb a b = true <-> a = b.
Proof.
  unfold addr_eqb. destruct a as [[x y] f], b as [[x' y'] g]; simpl.
  rewrite !andb_true_iff, !Z.eqb_eq, eqb_true. naive_solver.
Qed.

Lemma addr_eqb_refl a : addr_eqb a a = true.
Proof. by apply addr_eqb_eq. Qed.

Section AddressLemmas.
Context `{HostEndian}.

Lemma hi_word a : wf_addr a -> word 64 (hi a).
Proof. intros [? _]. by apply ntohll_word. Qed.

Lemma lo_word a : wf_addr a -> word 64 (lo a).
Proof. intros [_ ?]. by apply ntohll_word. Qed.

Lemma addr_val_word a : wf_addr a -> word 128 (addr_val a).
Proof.
  intros Hw. pose proof (hi_word a Hw). pose proof (lo_word a Hw).
  unfold word, addr_val in *. lia.
Qed.

Lemma hi_val a : wf_addr a -> hi a = Z.shiftr (addr_val a) 64.
Proof.
  intros Hw. pose proof (lo_word a Hw). unfold word, addr_val in *.
  rewrite Z.shiftr_div_pow2, Z.div_add_l, Z.div_small; lia.
Qed.

Lemma lo_val a : wf_addr a -> lo a = addr_val a mod 2 ^ 64.
Proof.
  intros Hw. pose proof (lo_word a Hw). unfold word, addr_val in *.
  rewrite Z.add_comm, Z.mod_add, Z.mod_small; lia.
Qed.

(** The bit of the wire position [k] in the word that holds it. *)
Lemma addr_bit_hi a k : wf_addr a -> 0 <= k < 64 -> addr_bit a k = Z.testbit (hi a) (63 - k).
Proof.
  intros Hw Hk. unfold addr_bit. rewrite hi_val, Z.shiftr_spec by (done || lia). f_equal. lia.
Qed.

Lemma addr_bit_lo a k : wf_addr a -> 64 <= k < 128 -> addr_bit a k = Z.testbit (lo a) (127 - k).
Proof.
  intros Hw Hk. unfold addr_bit. rewrite lo_val, Z.mod_pow2_bits_low by (done || lia). done.
Qed.

Lemma addr_val_inj a b :
  wf_addr a -> wf_addr b -> family_ a = family_ b -> addr_val a = addr_val b -> a = b.
Proof.
  intros Ha Hb Hf Hv.
  pose proof (hi_val a Ha) as Ea. pose proof (hi_val b Hb) as Eb.
  pose proof (lo_val a Ha) as Fa. pose proof (lo_val b Hb) as Fb.
  rewrite Hv in Ea, Fa. rewrite <- Eb in Ea. rewrite <- Fb in Fa. unfold hi, lo in *.
  destruct Ha, Hb, a as [[? ?] ?], b as [[? ?] ?]; simpl in *.
  apply ntohll_inj in Ea, Fa; [|done..]. by subst.
Qed.

Lemma addr_val_0 a : wf_addr a -> addr_val a = 0 <-> data_ a = (0, 0).
Proof.
  intros Hw. split; intros E.
  - pose proof (addr_val_inj a (mkAddress (0, 0) (family_ a)) Hw) as I.
    rewrite I; [done|by split|done|]. rewrite E. unfold addr_val, hi, lo. simpl.
    by rewrite ntohll_0.
  - unfold addr_val, hi, lo. rewrite E. simpl. by rewrite ntohll_0.
Qed.

Lemma IsNull_val a : wf_addr a -> IsNull a = (addr_val a =? 0).
Proof.
  intros Hw. apply eq_bool_prop_intro. unfold IsNull.
  rewrite !Is_true_true, andb_true_iff, !Z.eqb_eq, addr_val_0 by done.
  destruct (data_ a); simpl. naive_solver.
Qed.

(** *** Memory and values *)

Lemma store64_be x : word 64 x -> store64 x = rev (le_bytes 8 (ntohll x)).
Proof.
  intros Hx. unfold store64, ntohll. destruct host_is_big_endian; [done|].
  unfold bswap64. rewrite <- (length_le_bytes 8 x) at 2. rewrite <- (length_rev (le_bytes 8 x)).
  rewrite le_bytes_word by apply bytes_ok_rev, le_bytes_ok. by rewrite rev_involutive.
Qed.

Lemma load64_store64 x : word 64 x -> load64 (store64 x) = x.
Proof.
  intros Hx. unfold load64, store64.
  destruct host_is_big_endian; rewrite ?rev_involutive, le_word_bytes; by apply Z.mod_small.
Qed.

Lemma load64_word bs : bytes_ok bs -> length bs = 8%nat -> word 64 (load64 bs).
Proof.
  intros Hb Hl. unfold load64, word. destruct host_is_big_endian.
  - pose proof (le_word_bound (rev bs) (bytes_ok_rev bs Hb)) as B.
    by rewrite length_rev, Hl in B.
  - pose proof (le_word_bound bs Hb) as B. by rewrite Hl in B.
Qed.

Lemma length_store64 x : length (store64 x) = 8%nat.
Proof. unfold store64. destruct host_is_big_endian; by rewrite ?length_rev, length_le_bytes. Qed.

(** *** Well-formedness of the constructed addresses *)

Lemma wf_Address_family f : wf_addr (Address_family f).
Proof. split; simpl; unfold word; lia. Qed.

Lemma wf_Address_ipv4 x : wf_addr (Address_ipv4 x).
Proof.
  split; cbn [data_ fst snd Address_ipv4]; [|unfold word; lia].
  apply htonll_word, wrap_word. lia.
Qed.

Lemma wf_Address_octets a b c d : wf_addr (Address_octets a b c d).
Proof. apply wf_Address_ipv4. Qed.

Lemma wf_Address_ipv6 w0 w1 w2 w3 : wf_addr (Address_ipv6 w0 w1 w2 w3).
Proof.
  assert (forall a, bytes_ok (store32 a) /\ length (store32 a) = 4%nat) as H32.
  { intros a. unfold store32. destruct host_is_big_endian; rewrite ?length_rev, length_le_bytes;
      auto using bytes_ok_rev, le_bytes_ok. }
  assert (forall a b, word 64 (load64 (store32 a ++ store32 b))) as Hw.
  { intros a b. destruct (H32 a), (H32 b). apply load64_word; [by apply Forall_app|rewrite length_app; lia]. }
  split; apply Hw.
Qed.

Lemma lor_word w x y : 0 <= w -> word w x -> word w y -> word w (Z.lor x y).
Proof.
  intros Hw Hx Hy. apply word_of_testbit; [done|apply Z.lor_nonneg; unfold word in *; lia|].
  intros i Hi. by rewrite Z.lor_spec, (word_testbit_high w x), (word_testbit_high w y).
Qed.

Lemma wf_ToV6 a : wf_addr a -> wf_addr (ToV6 a).
Proof.
  intros Hw. unfold ToV6. destruct (family_ a); [apply wf_Address_family| |done].
  split; cbn [data_ fst snd Address_high_low]; [unfold word; lia|].
  apply htonll_word, lor_word; [lia|unfold word; lia|].
  apply shiftr_word; [lia..|by apply hi_word].
Qed.

(** *** Memory order is numeric order *)

Definition be_word (bs : list Z) : Z := le_word (rev bs).

Lemma le_word_app xs ys :
  le_word (xs ++ ys) = le_word xs + 256 ^ Z.of_nat (length xs) * le_word ys.
Proof.
  induction xs as [|x xs IH]; [cbn [app le_word length]; lia|].
  cbn [app le_word length]. rewrite IH, Nat2Z.inj_succ, Z.pow_succ_r by lia. lia.
Qed.

Lemma be_word_cons x xs :
  be_word (x :: xs) = x * 256 ^ Z.of_nat (length xs) + be_word xs.
Proof.
  unfold be_word. simpl rev. rewrite le_word_app, length_rev. simpl. lia.
Qed.

Lemma be_word_bound bs : bytes_ok bs -> 0 <= be_word bs < 256 ^ Z.of_nat (length bs).
Proof.
  intros Hb. pose proof (le_word_bound (rev bs) (bytes_ok_rev bs Hb)) as B.
  by rewrite length_rev in B.
Qed.

Lemma be_word_app xs ys :
  be_word (xs ++ ys) = be_word xs * 256 ^ Z.of_nat (length ys) + be_word ys.
Proof. unfold be_word. rewrite rev_app_distr, le_word_app, length_rev. lia. Qed.

Lemma memcmp_be_word xs ys :
  bytes_ok xs -> bytes_ok ys -> length xs = length ys ->
  (0 <? memcmp xs ys) = (be_word ys <? be_word xs).
Proof.
  intros Hx. revert ys. induction Hx as [|x xs Hx0 Hxs IH]; intros ys Hy Hl.
  { destruct ys; [done|simpl in Hl; lia]. }
  destruct Hy as [|y ys Hy0 Hys]; [simpl in Hl; lia|]. injection Hl as Hl.
  cbn [memcmp]. rewrite !be_word_cons. rewrite Hl.
  pose proof (be_word_bound xs Hxs) as B1. pose proof (be_word_bound ys Hys) as B2.
  rewrite Hl in B1. set (P := 256 ^ Z.of_nat (length ys)) in *.
  destruct (Z.eqb_spec x y) as [->|Hne].
  - rewrite (IH ys) by done. destruct (Z.ltb_spec (be_word ys) (be_word xs)); symmetry;
      [apply Z.ltb_lt|apply Z.ltb_ge]; lia.
  - destruct (Z.lt_ge_cases y x); [rewrite !(proj2 (Z.ltb_lt _ _))|rewrite !(proj2 (Z.ltb_ge _ _))];
      done || nia.
Qed.

Lemma be_word_store64 x : word 64 x -> be_word (store64 x) = ntohll x.
Proof.
  intros Hx. rewrite store64_be by done. unfold be_word.
  rewrite rev_involutive, le_word_bytes. apply Z.mod_small, (ntohll_word _ Hx).
Qed.

Lemma data_bytes_ok a : wf_addr a -> bytes_ok (data_bytes a).
Proof.
  intros [? ?]. unfold data_bytes. rewrite !store64_be by done.
  apply Forall_app_2; apply bytes_ok_rev, le_bytes_ok.
Qed.

Lemma length_data_bytes a : length (data_bytes a) = 16%nat.
Proof. unfold data_bytes. by rewrite length_app, !length_store64. Qed.

Lemma be_word_data a : wf_addr a -> be_word (data_bytes a) = addr_val a.
Proof.
  intros [? ?]. unfold data_bytes.
  by rewrite be_word_app, length_store64, !be_word_store64.
Qed.

Lemma be_word_take n bs :
  bytes_ok bs -> (n <= length bs)%nat ->
  be_word (take n bs) = be_word bs / 256 ^ Z.of_nat (length bs - n).
Proof.
  intros Hb Hn. rewrite <- (take_drop n bs) at 2. rewrite be_word_app, length_drop.
  assert (bytes_ok (drop n bs)) as Hd by by apply Forall_drop.
  pose proof (be_word_bound _ Hd) as B. rewrite length_drop in B.
  rewrite Z.div_add_l, (Z.div_small (be_word _)) by lia. lia.
Qed.

Lemma Length_bound f : 0 <= Length f <= 16.
Proof. destruct f; simpl; lia. Qed.

Lemma addr_gtb_val a b :
  wf_addr a -> wf_addr b -> family_ a = family_ b ->
  addr_gtb a b = (Z.shiftr (addr_val b) (128 - 8 * length_of a)
                  <? Z.shiftr (addr_val a) (128 - 8 * length_of a)).
Proof.
  intros Ha Hb Hf. unfold addr_gtb, length_of. rewrite Hf, Family_eqb_refl. simpl negb. cbv iota.
  pose proof (Length_bound (family_ b)) as HL.
  pose proof (data_bytes_ok a Ha). pose proof (data_bytes_ok b Hb).
  pose proof (length_data_bytes a). pose proof (length_data_bytes b).
  rewrite memcmp_be_word by first [by apply Forall_take | rewrite !length_take; lia].
  rewrite !be_word_take, !be_word_data, !length_data_bytes by (done || lia).
  rewrite !Z.shiftr_div_pow2 by lia. change 256 with (2 ^ 8). rewrite <- !Z.pow_mul_r by lia.
  replace (8 * Z.of_nat (16 - Z.to_nat (Length (family_ b)))) with (128 - 8 * Length (family_ b)) by lia.
  done.
Qed.

(** *** Classification predicates on the abstract value *)

Lemma IsLocal_v4 a :
  wf_addr a -> family_ a = Family.IPV4 -> IsLocal a = (Z.shiftr (hi a) 56 =? 127).
Proof.
  intros Hw Hf. unfold IsLocal. rewrite Hf. rewrite masked_eqb by (apply Hw || (unfold word; lia)).
  apply (high_mask_eqb (hi a) 127 56); [lia|by apply hi_word].
Qed.

Lemma val_of_lo a : wf_addr a -> hi a = 0 -> addr_val a = lo a.
Proof. intros _ E. unfold addr_val. rewrite E. lia. Qed.

Lemma hi_0 a : wf_addr a -> ((data_ a).1 =? 0) = (hi a =? 0).
Proof.
  intros [Hw _]. unfold hi. rewrite <- (htonll_eqb _ 0) by (done || unfold word; lia).
  unfold htonll. destruct host_is_big_endian; reflexivity.
Qed.

Lemma IsLocal_v6 a :
  wf_addr a -> family_ a = Family.IPV6 ->
  IsLocal a = (addr_val a =? 1) || (Z.shiftr (addr_val a) 24 =? 0xffff7f).
Proof.
  intros Hw Hf. unfold IsLocal. rewrite Hf, hi_0 by done.
  pose proof (hi_word a Hw) as Bh. pose proof (lo_word a Hw) as Bl.
  destruct (Z.eqb_spec (hi a) 0) as [E|E]; simpl negb; cbv iota.
  - rewrite htonll_eqb, masked_eqb by (apply Hw || (unfold word; lia)).
    fold (lo a). rewrite (val_of_lo a) by done. f_equal.
    apply (high_mask_eqb (lo a) 0xffff7f 24); [lia|done].
  - symmetry. apply orb_false_iff. unfold word, addr_val in *.
    rewrite Z.shiftr_div_pow2 by lia. split; apply Z.eqb_neq; [lia|].
    intros HH. assert (0xffff80 <= (hi a * 2 ^ 64 + lo a) / 2 ^ 24); [|lia].
    apply Z.div_le_lower_bound; lia.
Qed.

Lemma ToV6_val a :
  wf_addr a -> family_ a = Family.IPV4 ->
  addr_val (ToV6 a) = 0xffff * 2 ^ 32 + Z.shiftr (hi a) 32.
Proof.
  intros Hw Hf. unfold ToV6. rewrite Hf.
  pose proof (hi_word a Hw) as Bh.
  set (s := Z.shiftr (ntohll (data_ a).1) 32).
  assert (0 <= s < 2 ^ 32) as Bs.
  { unfold s, hi, word in *. rewrite Z.shiftr_div_pow2 by lia.
    split; [apply Z.div_pos|apply Z.div_lt_upper_bound]; lia. }
  assert (Z.lor 0xffff00000000 s = 0xffff * 2 ^ 32 + s) as E.
  { rewrite <- Z.lxor_lor, <- Z.add_nocarry_lxor; [done|..];
      (apply Z.bits_inj'; intros i Hi; rewrite Z.land_spec, Z.bits_0;
       destruct (Z.lt_ge_cases i 32) as [Hlt|Hge];
       [change 0xffff00000000 with (0xffff * 2 ^ 32); by rewrite Z.mul_pow2_bits_low by lia
       |rewrite (word_testbit_high 32 s) by (done || lia); apply andb_false_r]). }
  unfold addr_val, hi, lo, Address_high_low. cbn [data_ fst snd].
  rewrite ntohll_0, ntohll_htonll.
  - fold s. rewrite E. unfold s, hi. lia.
  - fold s. rewrite E. unfold word. lia.
Qed.
End AddressLemmas.

(** ** Theorems *)

Section Theorems.
Context `{HostEndian}.

(** Loopback detection: [Address::IsLocal] holds of an IPv4 address exactly
    when its first octet is 127, of an IPv6 address exactly when it is [::1] or
    lies in [::ffff:127.0.0.0/104], and of no address of unknown family; hence
    an IPv4 address and its IPv4-mapped form agree. *)
Theorem IsLocal_spec (a : Address) (Hw : wf_addr a) :
  (IsLocal a = match family_ a with
               | Family.IPV4 => Z.shiftr (addr_val a) 120 =? 127
               | Family.IPV6 => (addr_val a =? 1) || (Z.shiftr (addr_val a) 24 =? 0xffff7f)
               | Family.UNKNOWN => false
               end)
  /\ (family_ a = Family.IPV4 -> IsLocal (ToV6 a) = IsLocal a).
Proof.
  assert (forall b, wf_addr b -> Z.shiftr (hi b) 56 = Z.shiftr (addr_val b) 120) as Hhi.
  { intros b Hb. by rewrite hi_val, Z.shiftr_shiftr. }
  split.
  - destruct (family_ a) eqn:Hf.
    + unfold IsLocal. by rewrite Hf.
    + by rewrite IsLocal_v4, Hhi.
    + by apply IsLocal_v6.
  - intros Hf. assert (family_ (ToV6 a) = Family.IPV6) as Hf6 by (unfold ToV6; by rewrite Hf).
    rewrite IsLocal_v6, IsLocal_v4 by (done || by apply wf_ToV6).
    rewrite ToV6_val by done. pose proof (hi_word a Hw) as B. unfold word in B.
    assert (0 <= Z.shiftr (hi a) 32 < 2 ^ 32) as Bs.
    { rewrite Z.shiftr_div_pow2 by lia.
      split; [apply Z.div_pos|apply Z.div_lt_upper_bound]; lia. }
    rewrite (proj2 (Z.eqb_neq _ 1)) by lia. rewrite orb_false_l.
    replace (Z.shiftr (hi a) 56) with (Z.shiftr (Z.shiftr (hi a) 32) 24)
      by (by rewrite Z.shiftr_shiftr by lia).
    set (s := Z.shiftr (hi a) 32) in *. rewrite !Z.shiftr_div_pow2 by lia.
    replace (0xffff * 2 ^ 32 + s) with (0xffff00 * 2 ^ 24 + s) by lia.
    rewrite Z.div_add_l by lia.
    apply eq_bool_prop_intro. rewrite !Is_true_true, !Z.eqb_eq. lia.
Qed.

(** Address order: [Address::operator>] compares families first and, within a
    family, orders addresses by the number their [Length] bytes spell in
    network order, although it is implemented by [memcmp] over the raw words. *)
Theorem addr_gtb_spec (a b : Address) (Ha : wf_addr a) (Hb : wf_addr b) :
  addr_gtb a b =
    if Family.eqb (family_ a) (family_ b)
    then Z.shiftr (addr_val b) (128 - 8 * Length (family_ a))
         <? Z.shiftr (addr_val a) (128 - 8 * Length (family_ a))
    else Family.to_Z (family_ b) <? Family.to_Z (family_ a).
Proof.
  destruct (Family.eqb (family_ a) (family_ b)) eqn:E.
  - by apply addr_gtb_val, eqb_true.
  - unfold addr_gtb. by rewrite E.
Qed.
End Theorems.


#[export] Hint Resolve wf_Address_family wf_Address_ipv6 wf_Address_ipv4 wf_Address_octets wf_ToV6 : collector.

(** ** Witnesses *)

Lemma IsLocal_witness :
  @IsLocal false (@Address_octets false 127 0 0 1) = true.
Proof.
  rewrite (proj1 (@IsLocal_spec false (@Address_octets false 127 0 0 1) (@wf_Address_octets false 127 0 0 1))).
  vm_compute. reflexivity.
Defined.

Lemma addr_gtb_witness :
  @addr_gtb false (@Address_octets false 10 0 1 0) (@Address_octets false 10 0 0 255) = true.
Proof.
  rewrite (@addr_gtb_spec false (@Address_octets false 10 0 1 0) (@Address_octets false 10 0 0 255)
             (@wf_Address_octets false 10 0 1 0) (@wf_Address_octets false 10 0 0 255)).
  vm_compute. reflexivity.
Defined.
