(* ===== verification/IPNet.v ===== *)
(** * IP networks

    The class [IPNet] of [collector/lib/NetworkConnection.h], the lists of
    private networks of the same file and [Address::IsPublic] of
    [NetworkConnection.cpp].  A network keeps its address, the masked words and
    the prefix length; [addr_path] is the abstract view of a prefix, the list of
    its bits, and [Contains] is shown to compare exactly these. *)

From S2P Require Import Prelude Containers Address.

(** ** Data *)

Record IPNet := mkIPNet {
  address_ : Address;
  mask_ : Z * Z;
  bits_ : Z;
  is_addr_ : bool
}.

#[export] Instance IPNet_eq_dec : EqDecision IPNet.
Proof. solve_decision. Defined.

Section Operations.
Context `{HostEndian}.

(** [~(~static_cast<uint64_t>(0) >> n)]. *)
Definition last_mask (n : Z) : Z := wnot 64 (Z.shiftr (wnot 64 0) n).

(** The mask computation of the constructor over the words still to be read;
    words past the prefix keep their initial 0. *)
Fixpoint mask_words (in_mask : list Z) (bits_left : Z) : list Z :=
  match in_mask with
  | [] => []
  | x :: rest =>
      if 64 <=? bits_left then x :: mask_words rest (bits_left - 64)
      else if 0 <? bits_left
           then Z.land (ntohll x) (last_mask bits_left) :: map (fun _ => 0) rest
           else map (fun _ => 0) in_mask
  end.

Definition words (d : Z * Z) : list Z := [d.1; d.2].

Definition of_words (ws : list Z) : Z * Z := (nth 0 ws 0, nth 1 ws 0).

(** [IPNet(const Address& address, size_t bits, bool is_addr)]. *)
Definition IPNet_make (address : Address) (bits : Z) (is_addr : bool) : IPNet :=
  let bits := if Length (family address) * 8 <? bits then Length (family address) * 8 else bits in
  mkIPNet address (of_words (mask_words (words (array address)) bits)) bits is_addr.

Definition IPNet_default : IPNet := IPNet_make Address_default 0 false.

(** [explicit IPNet(const Address& address)]. *)
Definition IPNet_of_address (address : Address) : IPNet :=
  IPNet_make address (8 * length_of address) true.

Definition net_family (n : IPNet) : Family.t := family (address_ n).
Definition mask_array (n : IPNet) : Z * Z := mask_ n.
Definition bits (n : IPNet) : Z := bits_ n.
Definition IsAddress (n : IPNet) : bool := is_addr_ n.

Definition net_mask_array (n : IPNet) : Z * Z :=
  if bits_ n <? 64 then (wnot 64 (Z.shiftr ALL_ONES (bits_ n)), 0)
  else if bits_ n =? 128 then (ALL_ONES, ALL_ONES)
  else (ALL_ONES, wnot 64 (Z.shiftr ALL_ONES (bits_ n mod 64))).

(** The comparison loop of [IPNet::Contains]. *)
Fixpoint contains_words (addr mask : list Z) (bits_left : Z) : bool :=
  match addr, mask with
  | a :: addr, m :: mask =>
      if 64 <=? bits_left then
        if negb (a =? m) then false else contains_words addr mask (bits_left - 64)
      else if 0 <? bits_left then Z.land (ntohll a) (last_mask bits_left) =? m
      else true
  | _, _ => true
  end.

Definition net_contains (n : IPNet) (a : Address) : bool :=
  if negb (Family.eqb (family a) (family (address_ n))) then false
  else contains_words (words (array a)) (words (mask_ n)) (bits_ n).

Definition net_IsNull (n : IPNet) : bool := (bits_ n =? 0) && IsNull (address_ n).

Definition ipnet_eqb (n m : IPNet) : bool :=
  if negb (bits_ n =? bits_ m) then false
  else if is_addr_ n then addr_eqb (address_ n) (address_ m)
  else ((mask_ n).1 =? (mask_ m).1) && ((mask_ n).2 =? (mask_ m).2).

Definition ipnet_gtb (n m : IPNet) : bool :=
  if negb (bits_ n =? bits_ m) then bits_ m <? bits_ n
  else addr_gtb (address_ n) (address_ m).

(** [std::hash] of an integer is the identity. *)
Definition hash_words (d : Z * Z) : Z := HashArray d.1 [d.2].

Definition addr_hash (a : Address) : Z := HashAll (hash_words (data_ a)) [Family.to_Z (family_ a)].

Definition ipnet_hash (n : IPNet) : Z :=
  if is_addr_ n
  then HashAll (hash_words (array (address_ n))) [hash_words (mask_ n); bits_ n]
  else HashAll (hash_words (mask_ n)) [bits_ n].

(** ** Private networks *)

Definition PrivateIPv4Networks : list IPNet :=
  [IPNet_make (Address_octets 10 0 0 0) 8 false;
   IPNet_make (Address_octets 100 64 0 0) 10 false;
   IPNet_make (Address_octets 169 254 0 0) 16 false;
   IPNet_make (Address_octets 172 16 0 0) 12 false;
   IPNet_make (Address_octets 192 168 0 0) 16 false].

Definition PrivateIPv6Networks : list IPNet :=
  IPNet_make (Address_high_low (htonll 0xfd00000000000000) 0) 8 false
  :: map (fun ipv4_net => IPNet_make (ToV6 (address_ ipv4_net)) (bits ipv4_net + 96) false)
         PrivateIPv4Networks.

Definition PrivateNetworks (f : Family.t) : list IPNet :=
  match f with
  | Family.IPV4 => PrivateIPv4Networks
  | Family.IPV6 => PrivateIPv6Networks
  | Family.UNKNOWN => []
  end.

(** [PrivateNetworks()] on its first call; the function keeps one vector and
    appends to it on every call. *)
Definition PrivateNetworks_all : list IPNet := PrivateIPv4Networks ++ PrivateIPv6Networks.

Definition IsPublic (a : Address) : bool :=
  forallb (fun net => negb (net_contains net a)) (PrivateNetworks (family_ a)).

(** ** The abstract prefix *)

(** The first [n] bits of an address, in the order they are on the wire. *)
Definition addr_path (a : Address) (n : nat) : list bool :=
  map (fun k => addr_bit a (Z.of_nat k)) (seq 0 n).

Definition net_path (n : IPNet) : list bool := addr_path (address_ n) (Z.to_nat (bits_ n)).

(** A network as the constructors build it: its prefix fits its family and its
    words are the masked words of its address. *)
Record wf_net (n : IPNet) : Prop := {
  wf_net_addr : wf_addr (address_ n);
  wf_net_bits : 0 <= bits_ n <= 8 * Length (family_ (address_ n));
  wf_net_mask : mask_ n = of_words (mask_words (words (array (address_ n))) (bits_ n))
}.
End Operations.

(** ** Lemmas *)

Section IPNetLemmas.
Context `{HostEndian}.

Lemma wf_IPNet_make a n b : wf_addr a -> 0 <= n -> wf_net (IPNet_make a n b).
Proof.
  intros Ha Hn. pose proof (Length_bound (family_ a)).
  split; unfold IPNet_make, family; simpl; [done| |done].
  destruct (Z.ltb_spec (Length (family_ a) * 8) n); lia.
Qed.

Lemma wf_IPNet_default : wf_net IPNet_default.
Proof. apply wf_IPNet_make; [apply wf_Address_family|lia]. Qed.

Lemma wf_IPNet_of_address a : wf_addr a -> wf_net (IPNet_of_address a).
Proof.
  intros Ha. apply wf_IPNet_make; [done|]. pose proof (Length_bound (family_ a)).
  unfold length_of. lia.
Qed.

Lemma wf_net_128 n : wf_net n -> 0 <= bits_ n <= 128.
Proof. intros Hn. pose proof (wf_net_bits n Hn). pose proof (Length_bound (family_ (address_ n))). lia. Qed.

Lemma last_mask_word n : word 64 (last_mask n).
Proof. apply wnot_word. lia. Qed.

Lemma last_mask_shiftl n : 0 <= n <= 64 -> last_mask n = Z.shiftl (Z.ones n) (64 - n).
Proof.
  intros Hn. apply Z.bits_inj'. intros i Hi.
  rewrite Z.shiftl_spec by done. destruct (Z.lt_ge_cases i 64).
  - change (last_mask n) with (wnot 64 (Z.shiftr ALL_ONES n)).
    rewrite prefix_mask_testbit by lia. destruct (Z.leb_spec (64 - n) i).
    + by rewrite Z.ones_spec_low by lia.
    + by rewrite Z.testbit_neg_r by lia.
  - rewrite (word_testbit_high 64 (last_mask n)) by (apply last_mask_word || lia).
    by rewrite Z.ones_spec_high by lia.
Qed.

Lemma land_last_mask_eqb x y n :
  0 <= n <= 64 -> word 64 x -> word 64 y ->
  (Z.land x (last_mask n) =? Z.land y (last_mask n)) =
  (Z.shiftr x (64 - n) =? Z.shiftr y (64 - n)).
Proof.
  intros Hn Hx Hy. rewrite last_mask_shiftl by done.
  replace (Z.ones n) with (Z.ones (64 - (64 - n))) by (f_equal; lia).
  assert (Z.land y (Z.shiftl (Z.ones (64 - (64 - n))) (64 - n))
          = Z.shiftl (Z.shiftr y (64 - n)) (64 - n)) as ->.
  { apply Z.eqb_eq. rewrite high_mask_eqb by (done || lia). apply Z.eqb_refl. }
  apply high_mask_eqb; [lia|done].
Qed.

(** *** Paths *)

Lemma length_addr_path a n : length (addr_path a n) = n.
Proof. unfold addr_path. by rewrite length_map, length_seq. Qed.

Lemma addr_path_S a n : addr_path a (S n) = addr_path a n ++ [addr_bit a (Z.of_nat n)].
Proof. unfold addr_path. by rewrite seq_S, map_app. Qed.

Lemma addr_path_lookup a n k :
  (k < n)%nat -> addr_path a n !! k = Some (addr_bit a (Z.of_nat k)).
Proof.
  intros Hk. unfold addr_path. rewrite list_lookup_fmap, lookup_seq_lt by done. done.
Qed.

Lemma addr_path_eq a b n :
  addr_path a n = addr_path b n <->
  forall k, 0 <= k < Z.of_nat n -> addr_bit a k = addr_bit b k.
Proof.
  split.
  - intros E k Hk.
    assert (addr_path a n !! Z.to_nat k = addr_path b n !! Z.to_nat k) as Ek by by rewrite E.
    rewrite !addr_path_lookup in Ek by lia. injection Ek. by rewrite Z2Nat.id by lia.
  - intros E. unfold addr_path. apply map_ext_in. intros k Hk.
    apply List.in_seq in Hk. apply E. lia.
Qed.

Lemma addr_path_prefix a n m : (n <= m)%nat -> addr_path a n `prefix_of` addr_path a m.
Proof.
  intros Hm. exists (map (fun k => addr_bit a (Z.of_nat k)) (seq n (m - n))).
  unfold addr_path. rewrite <- map_app, <- seq_app. by replace (n + (m - n))%nat with m by lia.
Qed.

(** Equal prefixes are equal values above the prefix. *)
Lemma addr_path_shiftr a b n :
  wf_addr a -> wf_addr b -> 0 <= n <= 128 ->
  addr_path a (Z.to_nat n) = addr_path b (Z.to_nat n) <->
  Z.shiftr (addr_val a) (128 - n) = Z.shiftr (addr_val b) (128 - n).
Proof.
  intros Ha Hb Hn. rewrite addr_path_eq, Z2Nat.id by lia. unfold addr_bit. split.
  - intros E. apply Z.bits_inj'. intros i Hi. rewrite !Z.shiftr_spec by done.
    destruct (Z.lt_ge_cases (i + (128 - n)) 128).
    + specialize (E (n - 1 - i)). replace (127 - (n - 1 - i)) with (i + (128 - n)) in E by lia.
      apply E. lia.
    + pose proof (addr_val_word a Ha). pose proof (addr_val_word b Hb).
      by rewrite (word_testbit_high 128 (addr_val a)), (word_testbit_high 128 (addr_val b)).
  - intros E k Hk.
    assert (Z.testbit (Z.shiftr (addr_val a) (128 - n)) (n - 1 - k)
            = Z.testbit (Z.shiftr (addr_val b) (128 - n)) (n - 1 - k)) as Ek by by rewrite E.
    rewrite !Z.shiftr_spec in Ek by lia. by replace (n - 1 - k + (128 - n)) with (127 - k) in Ek by lia.
Qed.

Lemma shiftr_val_hi a n : wf_addr a -> 0 <= n <= 64 ->
  Z.shiftr (addr_val a) (128 - n) = Z.shiftr (hi a) (64 - n).
Proof. intros Ha Hn. rewrite hi_val, Z.shiftr_shiftr by (done || lia). f_equal. lia. Qed.

Lemma shiftr_val_eq_lo a b n :
  wf_addr a -> wf_addr b -> 64 <= n <= 128 ->
  Z.shiftr (addr_val a) (128 - n) = Z.shiftr (addr_val b) (128 - n) <->
  hi a = hi b /\ Z.shiftr (lo a) (128 - n) = Z.shiftr (lo b) (128 - n).
Proof.
  intros Ha Hb Hn.
  assert (forall c, wf_addr c ->
    Z.shiftr (addr_val c) (128 - n) = hi c * 2 ^ (n - 64) + Z.shiftr (lo c) (128 - n)
    /\ 0 <= Z.shiftr (lo c) (128 - n) < 2 ^ (n - 64)) as Hc.
  { intros c Hw. pose proof (lo_word c Hw) as Hl. unfold word in Hl. unfold addr_val.
    rewrite !Z.shiftr_div_pow2 by lia.
    replace (2 ^ 64) with (2 ^ (n - 64) * 2 ^ (128 - n)) in *
      by (rewrite <- Z.pow_add_r by lia; f_equal; lia).
    assert (0 < 2 ^ (128 - n)) by (apply Z.pow_pos_nonneg; lia).
    rewrite Z.mul_assoc, Z.div_add_l by lia. split; [done|].
    split; [apply Z.div_pos; lia|apply Z.div_lt_upper_bound; lia]. }
  destruct (Hc a Ha) as [-> Ba], (Hc b Hb) as [-> Bb].
  assert (0 < 2 ^ (n - 64)) by (apply Z.pow_pos_nonneg; lia).
  split; [|by intros [-> ->]]. intros E. assert (hi a = hi b) by nia. split; [done|]. nia.
Qed.

(** *** [Contains] compares prefixes *)

(** Above the first word both words take part in the comparison. *)
Lemma contains_words_lo a A b :
  wf_addr a -> wf_addr A -> 64 <= b <= 128 ->
  contains_words (words (array a)) (mask_words (words (array A)) b) b =
  bool_decide (hi a = hi A /\ Z.shiftr (lo a) (128 - b) = Z.shiftr (lo A) (128 - b)).
Proof.
  intros Ha Hw Hb. unfold words, array. cbn [mask_words].
  assert ((64 <=? b) = true) as Hle by (apply Z.leb_le; lia).
  rewrite Hle. cbn [contains_words]. rewrite Hle.
  assert ((data_ a).1 = (data_ A).1 <-> hi a = hi A) as H1.
  { split; [unfold hi; by intros ->|]. apply ntohll_inj; [apply Ha|apply Hw]. }
  destruct (Z.eqb_spec (data_ a).1 (data_ A).1) as [E|E]; simpl negb; cbv iota.
  2: { symmetry. apply bool_decide_eq_false. intros [? _]. by apply E, H1. }
  apply H1 in E.
  destruct (Z.leb_spec 64 (b - 64)).
  - assert (b = 128) as -> by lia. cbn [contains_words]. rewrite Z.sub_diag, !Z.shiftr_0_r.
    assert ((data_ a).2 = (data_ A).2 <-> lo a = lo A) as H2.
    { split; [unfold lo; by intros ->|]. apply ntohll_inj; [apply Ha|apply Hw]. }
    destruct (Z.eqb_spec (data_ a).2 (data_ A).2) as [F|F]; simpl; symmetry.
    + apply bool_decide_eq_true. by rewrite <- H2.
    + apply bool_decide_eq_false. by rewrite <- H2; intros [_ ?].
  - destruct (Z.ltb_spec 0 (b - 64)).
    + cbn [contains_words map]. destruct (Z.leb_spec 64 (b - 64)), (Z.ltb_spec 0 (b - 64)); try lia.
      fold (lo a). fold (lo A). rewrite land_last_mask_eqb by (lia || by apply lo_word).
      replace (64 - (b - 64)) with (128 - b) by lia.
      apply eq_bool_prop_intro. rewrite !Is_true_true, Z.eqb_eq, bool_decide_eq_true. tauto.
    + assert (b = 64) as -> by lia. symmetry. cbn. apply bool_decide_eq_true. split; [done|].
      assert (forall c, wf_addr c -> Z.shiftr (lo c) (128 - 64) = 0) as Hz; [|by rewrite !Hz].
      intros c Hc. pose proof (lo_word c Hc) as B. unfold word in B.
      rewrite Z.shiftr_div_pow2 by lia. apply Z.div_small. lia.
Qed.

(** Within the first word only that word does. *)
Lemma contains_words_hi a A b :
  wf_addr a -> wf_addr A -> 0 <= b < 64 ->
  contains_words (words (array a)) (mask_words (words (array A)) b) b =
  bool_decide (Z.shiftr (hi a) (64 - b) = Z.shiftr (hi A) (64 - b)).
Proof.
  intros Ha Hw Hb. unfold words, array. cbn [mask_words].
  destruct (Z.leb_spec 64 b); [lia|].
  destruct (Z.ltb_spec 0 b) as [Hp|Hz]; cbn [contains_words map];
    destruct (Z.leb_spec 64 b), (Z.ltb_spec 0 b); try lia.
  - fold (hi a). fold (hi A). rewrite land_last_mask_eqb by (lia || by apply hi_word).
    apply eq_bool_prop_intro. by rewrite !Is_true_true, Z.eqb_eq, bool_decide_eq_true.
  - assert (b = 0) as -> by lia. symmetry. apply bool_decide_eq_true.
    assert (forall c, wf_addr c -> Z.shiftr (hi c) (64 - 0) = 0) as Hz0; [|by rewrite !Hz0].
    intros c Hc. pose proof (hi_word c Hc) as B. unfold word in B.
    rewrite Z.shiftr_div_pow2 by lia. apply Z.div_small. lia.
Qed.

Lemma length_mask_words ws b : length (mask_words ws b) = length ws.
Proof.
  revert b. induction ws as [|w ws IH]; intros b; [done|]. cbn [mask_words].
  destruct (64 <=? b); [by simpl; rewrite IH|]. destruct (0 <? b); simpl; by rewrite length_map.
Qed.

Lemma words_of_words ws : length ws = 2%nat -> words (of_words ws) = ws.
Proof. destruct ws as [|? [|? [|? ?]]]; done. Qed.

Lemma contains_words_path n a :
  wf_net n -> wf_addr a ->
  contains_words (words (array a)) (words (mask_ n)) (bits_ n) =
  bool_decide (addr_path a (Z.to_nat (bits_ n)) = net_path n).
Proof.
  intros Hn Ha. pose proof (wf_net_128 n Hn) as Hb. pose proof (wf_net_addr n Hn) as Hw.
  rewrite (wf_net_mask n Hn), words_of_words by (by rewrite length_mask_words). unfold net_path.
  destruct (Z.lt_ge_cases (bits_ n) 64).
  - rewrite contains_words_hi by (done || lia). apply bool_decide_ext.
    by rewrite addr_path_shiftr, !shiftr_val_hi by (done || lia).
  - rewrite contains_words_lo by (done || lia). apply bool_decide_ext.
    by rewrite addr_path_shiftr, shiftr_val_eq_lo by (done || lia).
Qed.

Lemma net_path_length n : wf_net n -> Z.of_nat (length (net_path n)) = bits_ n.
Proof. intros Hn. pose proof (wf_net_128 n Hn). unfold net_path. rewrite length_addr_path. lia. Qed.

(** The whole address as a path, and what containment says of it. *)
Definition full_path (a : Address) : list bool := addr_path a 128.

Lemma net_path_prefix_full n a :
  wf_net n ->
  addr_path a (Z.to_nat (bits_ n)) = net_path n <-> net_path n `prefix_of` full_path a.
Proof.
  intros Hn. pose proof (wf_net_128 n Hn). split.
  - intros <-. apply addr_path_prefix. lia.
  - intros [r Hr].
    destruct (addr_path_prefix a (Z.to_nat (bits_ n)) 128) as [r' Hr']; [lia|].
    unfold full_path in Hr. rewrite Hr' in Hr.
    apply app_inj_1 in Hr as [-> _]; [done|].
    unfold net_path. by rewrite !length_addr_path.
Qed.

Lemma net_contains_path n a :
  wf_net n -> wf_addr a ->
  net_contains n a = true <->
  family_ a = family_ (address_ n) /\ net_path n `prefix_of` full_path a.
Proof.
  intros Hn Ha. unfold net_contains, family.
  destruct (Family.eqb (family_ a) (family_ (address_ n))) eqn:E; simpl negb; cbv iota.
  - apply eqb_true in E. rewrite contains_words_path, bool_decide_eq_true, net_path_prefix_full by done.
    tauto.
  - apply eqb_false in E. split; [done|]. by intros [? _].
Qed.

(** *** Private ranges *)

Lemma net_contains_shiftr n a :
  wf_net n -> wf_addr a ->
  net_contains n a =
  Family.eqb (family_ a) (family_ (address_ n)) &&
  (Z.shiftr (addr_val a) (128 - bits_ n) =? Z.shiftr (addr_val (address_ n)) (128 - bits_ n)).
Proof.
  intros Hn Ha. unfold net_contains, family. pose proof (wf_net_128 n Hn).
  destruct (Family.eqb _ _); simpl negb; cbv iota; [|done]. rewrite andb_true_l.
  rewrite contains_words_path by done. unfold net_path.
  apply eq_bool_prop_intro. rewrite !Is_true_true, bool_decide_eq_true, Z.eqb_eq.
  apply addr_path_shiftr; [done|apply Hn|done].
Qed.

(** The 32-bit number of an IPv4 address. *)
Definition ipv4_val (a : Address) : Z := Z.shiftr (addr_val a) 96.

Definition private_v4 (v : Z) : bool :=
  (Z.shiftr v 24 =? 10) || (Z.shiftr v 22 =? 401) || (Z.shiftr v 16 =? 0xa9fe)
  || (Z.shiftr v 20 =? 0xac1) || (Z.shiftr v 16 =? 0xc0a8).

Lemma ntohl_htonl x : word 32 x -> ntohl (htonl x) = x.
Proof.
  intros Hx. unfold ntohl, htonl. destruct host_is_big_endian; [done|]. unfold bswap32.
  rewrite <- (length_le_bytes 4 x) at 1. rewrite <- (length_rev (le_bytes 4 x)).
  rewrite le_bytes_word by apply bytes_ok_rev, le_bytes_ok.
  rewrite rev_involutive, le_word_bytes. by apply Z.mod_small.
Qed.

Lemma addr_val_ipv4 x : word 32 x -> addr_val (Address_ipv4 (htonl x)) = x * 2 ^ 96.
Proof.
  intros Hx. unfold addr_val, hi, lo, Address_ipv4. cbn [data_ fst snd].
  rewrite ntohl_htonl, ntohll_0, ntohll_htonll by (done || (apply wrap_word; lia)).
  rewrite wrap_id, Z.shiftl_mul_pow2 by (rewrite ?Z.shiftl_mul_pow2 by lia; unfold word in *; lia).
  lia.
Qed.

Lemma IsPublic_v4 a :
  wf_addr a -> family_ a = Family.IPV4 -> IsPublic a = negb (private_v4 (ipv4_val a)).
Proof.
  intros Ha Hf. unfold IsPublic, private_v4, ipv4_val. rewrite Hf.
  cbn [PrivateNetworks PrivateIPv4Networks forallb].
  rewrite !net_contains_shiftr by first [done | apply wf_IPNet_make; [auto with collector|lia]].
  cbn [address_ bits_ IPNet_make]. unfold family. rewrite Hf.
  change (family_ (Address_octets _ _ _ _)) with Family.IPV4.
  cbn [Length]. unfold Address_octets.
  rewrite Family_eqb_refl, !andb_true_l, !Z.shiftr_shiftr by lia.
  rewrite !addr_val_ipv4 by (vm_compute; split; congruence).
  rewrite !negb_orb, andb_true_r, !andb_assoc. reflexivity.
Qed.

(** An IPv6 address is private in [fd00::/8] or when it maps a private IPv4
    address. *)
Definition private_v6 (v : Z) : bool :=
  (Z.shiftr v 120 =? 0xfd) || ((Z.shiftr v 32 =? 0xffff) && private_v4 (v mod 2 ^ 32)).

Lemma mapped_shiftr_eqb v k c d :
  0 <= k <= 32 -> 0 <= d < 2 ^ (32 - k) ->
  (Z.shiftr v k =? c * 2 ^ (32 - k) + d) =
  (Z.shiftr v 32 =? c) && (Z.shiftr (v mod 2 ^ 32) k =? d).
Proof.
  intros Hk Hd. rewrite !Z.shiftr_div_pow2 by lia.
  assert (v / 2 ^ k = v / 2 ^ 32 * 2 ^ (32 - k) + (v mod 2 ^ 32) / 2 ^ k
          /\ 0 <= (v mod 2 ^ 32) / 2 ^ k < 2 ^ (32 - k)) as [E B].
  { assert (0 < 2 ^ k) by (apply Z.pow_pos_nonneg; lia).
    assert (2 ^ 32 = 2 ^ (32 - k) * 2 ^ k) as E32 by (rewrite <- Z.pow_add_r by lia; f_equal; lia).
    pose proof (Z.mod_pos_bound v (2 ^ 32)). split.
    - rewrite (Z.div_mod v (2 ^ 32)) at 1 by lia.
      replace (2 ^ 32 * (v / 2 ^ 32)) with ((v / 2 ^ 32 * 2 ^ (32 - k)) * 2 ^ k) by (rewrite E32; ring).
      by rewrite Z.div_add_l by lia.
    - split; [apply Z.div_pos; lia|apply Z.div_lt_upper_bound; lia]. }
  rewrite E. set (q := v / 2 ^ 32) in *. set (r := (v mod 2 ^ 32) / 2 ^ k) in *.
  apply eq_bool_prop_intro. rewrite !Is_true_true, andb_true_iff, !Z.eqb_eq.
  split; [|by intros [-> ->]]. intros EE. assert (q = c) by nia. subst q. split; [done|nia].
Qed.

Lemma net_contains_mapped x n a :
  word 32 x -> 0 <= n <= 32 -> wf_addr a -> family_ a = Family.IPV6 ->
  net_contains (IPNet_make (ToV6 (Address_ipv4 (htonl x)))
                           (bits (IPNet_make (Address_ipv4 (htonl x)) n false) + 96) false) a =
  (Z.shiftr (addr_val a) 32 =? 0xffff)
  && (Z.shiftr (addr_val a mod 2 ^ 32) (32 - n) =? Z.shiftr x (32 - n)).
Proof.
  intros Hx Hn Ha Hf.
  assert (bits (IPNet_make (Address_ipv4 (htonl x)) n false) = n) as ->.
  { unfold bits. cbn [bits_ IPNet_make]. change (Length _ * 8) with 32.
    destruct (Z.ltb_spec 32 n); lia. }
  rewrite net_contains_shiftr by first [done | apply wf_IPNet_make; [auto with collector|lia]].
  cbn [address_ bits_ IPNet_make]. change (family (ToV6 (Address_ipv4 (htonl x)))) with Family.IPV6.
  change (family_ (ToV6 (Address_ipv4 (htonl x)))) with Family.IPV6.
  cbn [Length]. destruct (Z.ltb_spec (16 * 8) (n + 96)); [lia|].
  rewrite Hf, Family_eqb_refl, andb_true_l, ToV6_val by (done || auto with collector).
  rewrite hi_val, addr_val_ipv4, Z.shiftr_shiftr by (done || auto with collector).
  replace (Z.shiftr (x * 2 ^ 96) (64 + 32)) with x
    by (rewrite Z.shiftr_div_pow2, Z.div_mul by lia; done).
  replace (128 - (n + 96)) with (32 - n) by lia. unfold word in Hx.
  rewrite <- mapped_shiftr_eqb.
  - f_equal. replace (32 - (32 - n)) with n by lia. rewrite !Z.shiftr_div_pow2 by lia.
    replace (2 ^ 32) with (2 ^ n * 2 ^ (32 - n)) by (rewrite <- Z.pow_add_r by lia; f_equal; lia).
    rewrite Z.mul_assoc, Z.div_add_l; [done|]. apply Z.pow_nonzero; lia.
  - lia.
  - replace (32 - (32 - n)) with n by lia. rewrite Z.shiftr_div_pow2 by lia.
    assert (0 < 2 ^ (32 - n)) by (apply Z.pow_pos_nonneg; lia).
    split; [apply Z.div_pos; lia|]. apply Z.div_lt_upper_bound; [lia|].
    rewrite <- Z.pow_add_r by lia. replace (32 - n + n) with 32 by lia. lia.
Qed.

Lemma IsPublic_v6 a :
  wf_addr a -> family_ a = Family.IPV6 -> IsPublic a = negb (private_v6 (addr_val a)).
Proof.
  intros Ha Hf. unfold IsPublic, private_v6, private_v4. rewrite Hf.
  unfold PrivateNetworks, PrivateIPv6Networks, PrivateIPv4Networks.
  cbn [map forallb address_ IPNet_make]. unfold Address_octets.
  rewrite !net_contains_mapped by first [done | lia | (vm_compute; split; congruence)].
  rewrite net_contains_shiftr; [|apply wf_IPNet_make; [|lia]|done].
  2: { split; cbn [Address_high_low data_ fst snd]; [apply htonll_word|]; unfold word; lia. }
  cbn [address_ bits_ IPNet_make Address_high_low family family_ Length].
  rewrite Hf, Family_eqb_refl, andb_true_l.
  change (if 16 * 8 <? 8 then 16 * 8 else 8) with 8.
  assert (addr_val (Address_high_low (htonll 0xfd00000000000000) 0) = 0xfd * 2 ^ 120) as ->.
  { unfold addr_val, hi, lo. cbn [data_ fst snd Address_high_low].
    rewrite ntohll_htonll, ntohll_0 by (unfold word; lia). reflexivity. }
  change (Z.shiftr (0xfd * 2 ^ 120) (128 - 8)) with 0xfd. change (128 - 8) with 120.
  rewrite negb_orb. f_equal. rewrite andb_true_r.
  destruct (Z.shiftr (addr_val a) 32 =? 0xffff); [|reflexivity].
  rewrite !andb_true_l, !negb_orb, !andb_assoc. reflexivity.
Qed.
End IPNetLemmas.

(** ** Equality, hashing and the containers keyed by networks

    [operator==] compares addresses when the left operand is a single address
    and masked words otherwise.  It is an equivalence on the networks of one
    kind. *)

#[export] Instance KeyEq_Address : KeyEq Address := addr_eqb.

#[export] Instance KeyEqLaws_Address P : KeyEqLaws Address P.
Proof. split; unfold keqb, KeyEq_Address; intros *; rewrite ?addr_eqb_eq; naive_solver. Qed.

#[export] Instance KeyEq_Family : KeyEq Family.t := dec_keqb.
#[export] Instance KeyEqLaws_Family P : KeyEqLaws Family.t P := dec_KeyEqLaws P.

#[export] Instance KeyEq_IPNet : KeyEq IPNet := ipnet_eqb.

Section Kinds.
Context `{HostEndian}.

(** The networks that stand for an address, and those that stand for a
    proper network. *)
Definition addr_net (n : IPNet) : Prop := wf_net n /\ is_addr_ n = true.
Definition pure_net (n : IPNet) : Prop := wf_net n /\ is_addr_ n = false.

Lemma ipnet_eqb_addr n m :
  is_addr_ n = true -> ipnet_eqb n m = true <-> bits_ n = bits_ m /\ address_ n = address_ m.
Proof.
  intros Hn. unfold ipnet_eqb. rewrite Hn.
  destruct (Z.eqb_spec (bits_ n) (bits_ m)); simpl; rewrite ?addr_eqb_eq; naive_solver.
Qed.

Lemma ipnet_eqb_pure n m :
  is_addr_ n = false -> ipnet_eqb n m = true <-> bits_ n = bits_ m /\ mask_ n = mask_ m.
Proof.
  intros Hn. unfold ipnet_eqb. rewrite Hn.
  destruct (Z.eqb_spec (bits_ n) (bits_ m)); simpl; [|naive_solver].
  rewrite andb_true_iff, !Z.eqb_eq. destruct (mask_ n), (mask_ m). naive_solver.
Qed.

Lemma addr_net_eq n m : addr_net n -> addr_net m -> ipnet_eqb n m = true <-> n = m.
Proof.
  intros [Hn En] [Hm Em]. rewrite ipnet_eqb_addr by done. split; [|by intros ->].
  intros [Hb Ha]. pose proof (wf_net_mask n Hn) as Mn. pose proof (wf_net_mask m Hm) as Mm.
  destruct n, m; simpl in *. by subst.
Qed.

#[export] Instance KeyEqLaws_addr_net : KeyEqLaws IPNet addr_net.
Proof.
  split; unfold keqb, KeyEq_IPNet.
  - intros k Hk. by apply addr_net_eq.
  - intros a b Ha Hb. rewrite !addr_net_eq by done. done.
  - intros a b c Ha Hb Hc. rewrite !addr_net_eq by done. congruence.
Qed.

#[export] Instance KeyEqLaws_pure_net : KeyEqLaws IPNet pure_net.
Proof.
  split; unfold keqb, KeyEq_IPNet.
  - intros k [_ Hk]. by apply ipnet_eqb_pure.
  - intros a b [_ Ha] [_ Hb]. rewrite !ipnet_eqb_pure by done. intros [-> ->]. done.
  - intros a b c [_ Ha] [_ Hb] [_ Hc]. rewrite !ipnet_eqb_pure by done. intros [-> ->] [-> ->]. done.
Qed.
End Kinds.

(** ** Theorems *)

Section Theorems.
Context `{HostEndian}.

(** Network membership: [IPNet::Contains] answers true exactly when the
    address has the network's family and the network's prefix is a prefix of
    the bits of the address, for every prefix length from 0 to 128, whatever the
    byte order of the host. *)
Theorem net_contains_spec (n : IPNet) (a : Address) (Hn : wf_net n) (Ha : wf_addr a) :
  net_contains n a = true <->
  family_ a = family_ (address_ n) /\ net_path n `prefix_of` full_path a.
Proof. by apply net_contains_path. Qed.

(** Public addresses: [Address::IsPublic] is false exactly for the IPv4
    addresses in 10/8, 100.64/10, 169.254/16, 172.16/12 and 192.168/16 and for the
    IPv6 addresses in fd00::/8 or mapping one of those; an IPv4 address and its
    IPv4-mapped form are classified alike. *)
Theorem IsPublic_spec (a : Address) (Ha : wf_addr a) :
  (IsPublic a = match family_ a with
                | Family.IPV4 => negb (private_v4 (ipv4_val a))
                | Family.IPV6 => negb (private_v6 (addr_val a))
                | Family.UNKNOWN => true
                end)
  /\ (family_ a = Family.IPV4 -> IsPublic (ToV6 a) = IsPublic a).
Proof.
  split.
  - destruct (family_ a) eqn:Hf; [|by apply IsPublic_v4|by apply IsPublic_v6].
    unfold IsPublic. by rewrite Hf.
  - intros Hf. assert (family_ (ToV6 a) = Family.IPV6) as Hf6 by (unfold ToV6; by rewrite Hf).
    rewrite IsPublic_v6, IsPublic_v4 by (done || by apply wf_ToV6). f_equal.
    unfold private_v6, ipv4_val. rewrite ToV6_val, hi_val, Z.shiftr_shiftr by done.
    pose proof (addr_val_word a Ha) as B. unfold word in B.
    set (s := Z.shiftr (addr_val a) (64 + 32)).
    assert (0 <= s < 2 ^ 32) as Bs.
    { unfold s. rewrite Z.shiftr_div_pow2 by lia. split; [apply Z.div_pos|apply Z.div_lt_upper_bound]; lia. }
    rewrite !(Z.shiftr_div_pow2 (_ + _)) by lia.
    rewrite (Z.div_small (_ + _) (2 ^ 120)) by lia.
    rewrite Z.div_add_l, (Z.div_small s), Z.add_0_r by lia.
    rewrite (Z.add_comm _ s), Z.mod_add, Z.mod_small by lia. reflexivity.
Qed.

(** Networks as container keys: on the networks that stand for addresses
    [operator==] is the equality of the whole object, on proper networks it is the
    equality of prefix length and masked words, and on both kinds equal networks
    have equal hashes, so they are legitimate keys of the hash containers. *)
Theorem ipnet_key_laws :
  (forall n m, addr_net n -> addr_net m -> ipnet_eqb n m = true <-> n = m)
  /\ (forall n m, pure_net n -> pure_net m ->
        ipnet_eqb n m = true <-> bits_ n = bits_ m /\ mask_ n = mask_ m)
  /\ (forall n m, (addr_net n /\ addr_net m) \/ (pure_net n /\ pure_net m) ->
        ipnet_eqb n m = true -> ipnet_hash n = ipnet_hash m).
Proof.
  split; [|split].
  - apply addr_net_eq.
  - intros n m [_ Hn] _. by apply ipnet_eqb_pure.
  - intros n m [[Hn Hm]|[[_ Hn] [_ Hm]]] E.
    + apply addr_net_eq in E; [by subst|done..].
    + apply ipnet_eqb_pure in E as [Eb Em]; [|done].
      unfold ipnet_hash. rewrite Hn, Hm, Eb, Em. done.
Qed.

(** The networks whose kind is decided by their number of bits: where addresses have 32 or 128 bits and proper networks
    have others, both may occur as keys together. *)
Definition kind_by_bits (is_address : Z -> bool) (n : IPNet) : Prop := wf_net n /\ is_addr_ n = is_address (bits_ n).

#[export] Instance HashKeys_IPNet is_address : HashKeys IPNet ipnet_hash (kind_by_bits is_address).
Proof.
  assert (forall n m, kind_by_bits is_address n -> kind_by_bits is_address m -> ipnet_eqb n m = true <->
    (addr_net n /\ n = m) \/ (is_addr_ n = false /\ is_addr_ m = false /\ bits_ n = bits_ m /\ mask_ n = mask_ m)) as Heq.
  { intros n m [Hn Kn] [Hm Km]. destruct (is_addr_ n) eqn:En.
    - split.
      + intros E. left. split; [by split|]. pose proof E as [Eb _]%ipnet_eqb_addr; [|done]. apply (addr_net_eq n m); [by split| |done].
        split; [done|]. congruence.
      + intros [[_ ->]|[[=] _]]. by apply addr_net_eq; split.
    - rewrite ipnet_eqb_pure by done. split.
      + intros [Eb Em]. right. split_and!; [done|congruence|done|done].
      + intros [[[_ ?] _]|(_ & _ & ? & ?)]; [congruence|done]. }
  split; [split|]; unfold keqb, KeyEq_IPNet; intros *.
  - intros Ha. apply Heq; [done..|]. destruct (is_addr_ k) eqn:E; [left|by right]. split; [by split; [apply Ha|]|done].
  - intros Ha Hb E. apply Heq in E as [[Hn ->]|(? & ? & ? & ?)]; [| |done|done]; apply Heq; auto.
  - intros Ha Hb Hc E F. apply Heq in E as [[Hn ->]|(? & ? & E1 & E2)]; [done| |done|done].
    apply Heq in F as [[[_ Hn] _]|(? & ? & F1 & F2)]; [congruence| |done|done]. apply Heq; [done..|]. right. split_and!; congruence.
  - intros Ha Hb E. apply Heq in E as [[_ ->]|(En & Em & E1 & E2)]; [done| |done|done]. unfold ipnet_hash. by rewrite En, Em, E1, E2.
Qed.

(** Mixed kinds: across the two kinds [IPNet::operator==] is not
    symmetric and is not respected by [Hash], and it ignores the family of
    proper networks: 10.1.2.3 taken as a /24 address and the network 10.1.2.0/24
    are equal in one direction only, and 10.0.0.0/8 equals a00::/8. *)
Theorem ipnet_eqb_mixed_kinds :
  let addr := IPNet_make (Address_octets 10 1 2 3) 24 true in
  let net := IPNet_make (Address_octets 10 1 2 0) 24 false in
  let v4 := IPNet_make (Address_octets 10 0 0 0) 8 false in
  let v6 := IPNet_make (Address_high_low (htonll 0x0a00000000000000) 0) 8 false in
  ipnet_eqb net addr = true /\ ipnet_eqb addr net = false
  /\ ipnet_hash net <> ipnet_hash addr
  /\ ipnet_eqb v4 v6 = true /\ net_family v4 <> net_family v6.
Proof.
  by_endianness.
Qed.
End Theorems.

(** ** Witnesses *)

Definition little_endian : HostEndian := false.

Lemma net_contains_witness :
  let n := @IPNet_make little_endian (@Address_octets little_endian 10 0 0 0) 8 false in
  let a := @Address_octets little_endian 10 10 10 10 in
  @net_contains little_endian n a = true.
Proof.
  apply (@net_contains_spec little_endian).
  - apply wf_IPNet_make; [apply wf_Address_octets|lia].
  - apply wf_Address_octets.
  - split; [reflexivity|].
    exists (drop 8 (@full_path little_endian (@Address_octets little_endian 10 10 10 10))).
    vm_compute. reflexivity.
Defined.

Lemma IsPublic_witness :
  @IsPublic little_endian (@Address_octets little_endian 8 8 8 8) = true.
Proof.
  rewrite (proj1 (@IsPublic_spec little_endian (@Address_octets little_endian 8 8 8 8)
                    (@wf_Address_octets little_endian 8 8 8 8))).
  vm_compute. reflexivity.
Defined.
