(* ===== verification/NRadix.v ===== *)
(** * The network radix tree

    [collector/lib/NRadix.h] and [collector/lib/NRadix.cpp]: the tree that maps
    an address to the smallest known network around it.  The nodes, the two
    loops of [Insert], the loop of [Find] and the recursive helpers are
    translated with their cursors (the current bit, the word index and the
    pointers into the address and the mask words).  The abstract view of a tree
    is the partial function [tget] from bit paths to networks; every operation
    is shown to act on it, and [Find] to be the longest-prefix match. *)

From S2P Require Import Prelude Containers Address IPNet.

(** ** Nodes *)

Inductive nRadixNode : Type :=
| nullptr
| Node (value_ : option IPNet) (left_ right_ : nRadixNode).

(** [nRadixNode()]. *)
Definition nRadixNode_new : nRadixNode := Node None nullptr nullptr.

Section Operations.
Context `{HostEndian}.

(** The copy constructor of a node copies the value and both subtrees. *)
Fixpoint nRadixNode_copy (other : nRadixNode) : nRadixNode :=
  match other with
  | nullptr => nullptr
  | Node v l r =>
      Node (match v with Some n => Some n | None => None end)
           (nRadixNode_copy l) (nRadixNode_copy r)
  end.

(** ** Cursors *)

(** The loop variables of [Insert] and [Find]: [bit], [i] and the common offset
    of [addr_p] and [net_mask_p]. *)
Record cursor := mkCursor { c_bit : Z; c_i : Z; c_p : Z }.

Definition cursor_start : cursor := mkCursor TOP_BIT 0 0.

Definition deref (d : Z * Z) (p : Z) : Z := if p =? 0 then d.1 else d.2.

(** [bit & *net_mask_p]. *)
Definition mask_test (n : IPNet) (c : cursor) : bool :=
  negb (Z.land (c_bit c) (deref (net_mask_array n) (c_p c)) =? 0).

(** [ntohll( *addr_p) & bit]. *)
Definition addr_test (n : IPNet) (c : cursor) : bool :=
  negb (Z.land (ntohll (deref (array (address_ n)) (c_p c))) (c_bit c) =? 0).

(** The end of an iteration: the next bit, or [None] after 128 bits. *)
Definition advance (n : IPNet) (c : cursor) : option cursor :=
  let bit := Z.shiftr (c_bit c) 1 in
  if bit =? 0 then
    let i := c_i c + 1 in
    if kU64MaxLen <=? i then None
    else Some (mkCursor TOP_BIT i (if 64 <=? bits n then c_p c + 1 else c_p c))
  else Some (mkCursor bit (c_i c) (c_p c)).

(** ** Insert *)

(** [node->right_ = child] or [node->left_ = child]. *)
Definition link (node : nRadixNode) (go_right : bool) (child : nRadixNode) : nRadixNode :=
  match node with
  | nullptr => nullptr
  | Node v l r => if go_right then Node v l child else Node v child r
  end.

(** [node->value_ = new IPNet(network)]. *)
Definition set_value (node : nRadixNode) (n : IPNet) : nRadixNode :=
  match node with
  | nullptr => nullptr
  | Node _ l r => Node (Some n) l r
  end.

(** The node exists: fill it unless it has a value. *)
Definition fill (node : nRadixNode) (n : IPNet) : nRadixNode * bool :=
  match node with
  | Node (Some _) _ _ => (node, false)
  | _ => (set_value node n, true)
  end.

(** The second loop of [Insert] adds the missing nodes below [node]; [None] when
    [fuel] runs out. *)
Fixpoint extend (fuel : nat) (n : IPNet) (c : cursor) (node : nRadixNode) : option nRadixNode :=
  match fuel with
  | O => None
  | S fuel =>
      if mask_test n c then
        let next := nRadixNode_new in
        match advance n c with
        | None => Some (link node (addr_test n c) (set_value next n))
        | Some c' =>
            match extend fuel n c' next with
            | Some next' => Some (link node (addr_test n c) next')
            | None => None
            end
        end
      else Some (set_value node n)
  end.

(** One iteration per bit of the mask and the final test of the condition. *)
Definition insert_fuel : nat := 129.

(** The first loop of [Insert] follows the nodes that exist. *)
Fixpoint walk (node : nRadixNode) (n : IPNet) (c : cursor) : option (nRadixNode * bool) :=
  match node with
  | nullptr => None
  | Node v l r =>
      if mask_test n c then
        let go_right := addr_test n c in
        match (if go_right then r else l) with
        | nullptr =>
            match extend insert_fuel n c node with
            | Some node' => Some (node', true)
            | None => None
            end
        | Node _ _ _ as next =>
            match advance n c with
            | None =>
                let '(next', inserted) := fill next n in
                Some (link node go_right next', inserted)
            | Some c' =>
                match (if go_right then walk r n c' else walk l n c') with
                | Some (next', inserted) => Some (link node go_right next', inserted)
                | None => None
                end
            end
        end
      else Some (fill node n)
  end.

Definition Insert (root : nRadixNode) (network : IPNet) : option (nRadixNode * bool) :=
  if net_IsNull network then Some (root, false)
  else if (bits network <? 1) || (128 <? bits network) then Some (root, false)
  else walk root network cursor_start.

(** [NRadixTree()] and [NRadixTree(const std::vector<IPNet>&)]. *)
Definition NRadixTree_empty : nRadixNode := nRadixNode_new.

Fixpoint insert_all (root : nRadixNode) (networks : list IPNet) : option nRadixNode :=
  match networks with
  | [] => Some root
  | network :: networks =>
      match Insert root network with
      | Some (root', _) => insert_all root' networks
      | None => None
      end
  end.

Definition NRadixTree (networks : list IPNet) : option nRadixNode :=
  insert_all NRadixTree_empty networks.

(** ** Find *)

Fixpoint find_loop (node : nRadixNode) (n : IPNet) (c : cursor) (ret : IPNet) : IPNet :=
  match node with
  | nullptr => ret
  | Node v l r =>
      let ret := match v with Some x => x | None => ret end in
      let go_right := addr_test n c in
      if negb (mask_test n c) then ret
      else
        match advance n c with
        | None =>
            match (if go_right then r else l) with
            | Node (Some x) _ _ => x
            | _ => ret
            end
        | Some c' => if go_right then find_loop r n c' ret else find_loop l n c' ret
        end
  end.

Definition Find_net (root : nRadixNode) (network : IPNet) : IPNet :=
  if net_IsNull network then IPNet_default
  else if bits network =? 0 then IPNet_default
  else
    let ret := find_loop root network cursor_start IPNet_default in
    if Family.eqb (net_family network) (net_family ret) then ret else IPNet_default.

Definition Find_addr (root : nRadixNode) (addr : Address) : IPNet :=
  Find_net root (IPNet_of_address addr).

(** ** Traversals *)

Fixpoint getAll (node : nRadixNode) : list IPNet :=
  match node with
  | nullptr => []
  | Node v l r => (match v with Some n => [n] | None => [] end) ++ getAll l ++ getAll r
  end.

Definition GetAll (root : nRadixNode) : list IPNet := getAll root.

Definition value_of (node : nRadixNode) : option IPNet :=
  match node with nullptr => None | Node v _ _ => v end.
Definition left_of (node : nRadixNode) : nRadixNode :=
  match node with nullptr => nullptr | Node _ l _ => l end.
Definition right_of (node : nRadixNode) : nRadixNode :=
  match node with nullptr => nullptr | Node _ _ r => r end.

(** The answer is known once networks of both trees with the right family are. *)
Definition nets_match (fam : Family.t) (containing contained : option IPNet) : bool :=
  match containing, contained with
  | Some a, Some b =>
      match fam with
      | Family.UNKNOWN => Family.eqb (net_family a) (net_family b)
      | _ => Family.eqb (net_family a) fam && Family.eqb (net_family b) fam
      end
  | _, _ => false
  end.

Definition some_or (v old : option IPNet) : option IPNet :=
  match v with Some n => Some n | None => old end.

Fixpoint isAnyIPNetSubsetUtil (fam : Family.t) (n1 n2 : nRadixNode)
    (containing_net contained_net : option IPNet) : bool :=
  if nets_match fam containing_net contained_net then true
  else
    match n2 with
    | nullptr => false
    | Node v2 l2 r2 =>
        let containing_net := some_or (value_of n1) containing_net in
        let contained_net := some_or v2 contained_net in
        isAnyIPNetSubsetUtil fam (left_of n1) l2 containing_net contained_net
        || isAnyIPNetSubsetUtil fam (right_of n1) r2 containing_net contained_net
    end.

Definition IsEmpty (root : nRadixNode) : bool :=
  match root with
  | Node None nullptr nullptr => true
  | _ => false
  end.

Definition IsAnyIPNetSubset_family (fam : Family.t) (root other : nRadixNode) : bool :=
  isAnyIPNetSubsetUtil fam root other None None.

Definition IsAnyIPNetSubset (root other : nRadixNode) : bool :=
  IsAnyIPNetSubset_family Family.UNKNOWN root other.
End Operations.

(** ** The abstract tree *)

(** The network stored at a path. *)
Fixpoint tget (t : nRadixNode) (p : list bool) : option IPNet :=
  match t with
  | nullptr => None
  | Node v l r =>
      match p with
      | [] => v
      | b :: p => tget (if b then r else l) p
      end
  end.

(** Storing a network at a path, with the nodes it takes. *)
Fixpoint tset (p : list bool) (n : IPNet) (t : nRadixNode) : nRadixNode :=
  match p with
  | [] => Node (Some n) (left_of t) (right_of t)
  | b :: p =>
      if b then Node (value_of t) (left_of t) (tset p n (right_of t))
      else Node (value_of t) (tset p n (left_of t)) (right_of t)
  end.

(** The value at the longest prefix of a path that has one. *)
Fixpoint tlpm (t : nRadixNode) (p : list bool) (ret : IPNet) : IPNet :=
  match t with
  | nullptr => ret
  | Node v l r =>
      let ret := match v with Some x => x | None => ret end in
      match p with
      | [] => ret
      | b :: p => tlpm (if b then r else l) p ret
      end
  end.

Lemma tget_node t b p : tget t (b :: p) = tget (if b then right_of t else left_of t) p.
Proof. destruct t, b; simpl; try done; by destruct p. Qed.

Lemma tget_root t : tget t [] = value_of t.
Proof. by destruct t. Qed.

Lemma tget_tset p n t q : tget (tset p n t) q = if decide (q = p) then Some n else tget t q.
Proof.
  revert t q. induction p as [|b p IH]; intros t [|b' q]; cbn [tset].
  - by rewrite decide_True.
  - rewrite decide_False by done. by rewrite !tget_node.
  - rewrite decide_False, !tget_root by done. by destruct b.
  - rewrite (tget_node t). destruct (decide (b' = b)) as [->|Hne].
    + transitivity (tget (tset p n (if b then right_of t else left_of t)) q); [by destruct b|].
      rewrite IH. destruct (decide (q = p)) as [->|Hq]; [by rewrite decide_True|].
      rewrite decide_False by congruence. done.
    + rewrite decide_False by congruence. by destruct b, b'.
Qed.

Lemma In_getAll t x : In x (getAll t) <-> exists p, tget t p = Some x.
Proof.
  induction t as [|v l IHl r IHr]; simpl; [split; [done|by intros [? ?]]|].
  rewrite !in_app_iff, IHl, IHr. split.
  - intros [Hv|[[p Hp]|[p Hp]]].
    + exists []. destruct v as [n|]; simpl in *; [destruct Hv as [->|[]]|]; done.
    + by exists (false :: p).
    + by exists (true :: p).
  - intros [[|b p] Hp]; [left; subst; by left|].
    right. destruct b; [right|left]; by exists p.
Qed.

(** ** The cursors follow the path *)

Section Cursors.
Context `{HostEndian}.

(** The cursor after [d] iterations. *)
Definition cur (d : Z) : cursor := mkCursor (2 ^ (63 - d mod 64)) (d / 64) (d / 64).

Lemma deref_0 d : deref d 0 = d.1.
Proof. reflexivity. Qed.

Lemma deref_1 d : deref d 1 = d.2.
Proof. reflexivity. Qed.

Lemma cur_start : cursor_start = cur 0.
Proof. reflexivity. Qed.

Lemma cur_lo d : 0 <= d < 64 -> cur d = mkCursor (2 ^ (63 - d)) 0 0.
Proof. intros Hd. unfold cur. by rewrite Z.mod_small, Z.div_small by lia. Qed.

Lemma cur_hi d : 64 <= d < 128 -> cur d = mkCursor (2 ^ (127 - d)) 1 1.
Proof.
  intros Hd. unfold cur. assert (d / 64 = 1) as E by (symmetry; apply (Z.div_unique d 64 1 (d - 64)); lia).
  rewrite Z.mod_eq, E by lia. do 2 f_equal. lia.
Qed.

(** The mask bit tells whether the prefix goes on. *)
Lemma mask_test_cur n d : wf_net n -> 0 <= d < 128 -> mask_test n (cur d) = (d <? bits_ n).
Proof.
  intros Hn Hd. pose proof (wf_net_128 n Hn) as Hb. unfold mask_test.
  rewrite Z.land_comm. unfold net_mask_array. destruct (Z.lt_ge_cases d 64).
  - rewrite cur_lo by lia. cbn [c_bit c_p]. rewrite deref_0, land_pow2_test by lia.
    rewrite negb_involutive. destruct (Z.ltb_spec (bits_ n) 64); cbn [fst].
    + rewrite prefix_mask_testbit by lia. b2p. lia.
    + transitivity true; [|b2p; lia]. destruct (bits_ n =? 128); cbn [fst];
        rewrite ALL_ONES_ones; apply ones_testbit; lia.
  - rewrite cur_hi by lia. cbn [c_bit c_p].
    rewrite deref_1, land_pow2_test by lia. rewrite negb_involutive.
    destruct (Z.ltb_spec (bits_ n) 64); cbn [snd]; [rewrite Z.testbit_0_l; b2p; lia|].
    destruct (Z.eqb_spec (bits_ n) 128) as [E|E]; cbn [snd].
    + rewrite ALL_ONES_ones, ones_testbit by lia. b2p; lia.
    + assert (bits_ n mod 64 = bits_ n - 64) as ->.
      { symmetry. apply (Z.mod_unique _ _ 1); lia. }
      rewrite prefix_mask_testbit by lia. b2p. lia.
Qed.

Lemma addr_test_cur n d :
  wf_addr (address_ n) -> 0 <= d < 128 -> addr_test n (cur d) = addr_bit (address_ n) d.
Proof.
  intros Hn Hd. unfold addr_test, array. destruct (Z.lt_ge_cases d 64).
  - rewrite cur_lo by lia. cbn [c_bit c_p]. rewrite deref_0, land_pow2_test by lia.
    by rewrite negb_involutive, addr_bit_hi by (done || lia).
  - rewrite cur_hi by lia. cbn [c_bit c_p].
    rewrite deref_1, land_pow2_test by lia. by rewrite negb_involutive, addr_bit_lo by (done || lia).
Qed.

(** Within the prefix an iteration moves to the next bit, and stops after 128. *)
Lemma advance_cur n d :
  0 <= d < 128 -> d < bits_ n ->
  advance n (cur d) = if d + 1 <? 128 then Some (cur (d + 1)) else None.
Proof.
  intros Hd Hb. unfold advance. rewrite Z.shiftr_div_pow2 by lia.
  change (2 ^ 1) with 2. change kU64MaxLen with 2.
  assert (forall k, 0 < k -> 2 ^ k / 2 = 2 ^ (k - 1)) as Hh.
  { intros k Hk. replace (2 ^ k) with (2 ^ (k - 1) * 2)
      by (rewrite Z.mul_comm, <- Z.pow_succ_r by lia; f_equal; lia). by apply Z.div_mul. }
  assert (forall k, 0 <= k -> (2 ^ k =? 0) = false) as Hz.
  { intros k Hk. apply Z.eqb_neq, Z.pow_nonzero; lia. }
  destruct (decide (d = 63)) as [->|]; [|destruct (decide (d = 127)) as [->|]].
  - change (63 + 1 <? 128) with true. rewrite cur_lo, cur_hi by lia. cbn [c_bit c_i c_p].
    change (2 ^ (63 - 63) / 2 =? 0) with true. cbv iota. change (2 <=? 0 + 1) with false. cbv iota.
    unfold bits. destruct (Z.leb_spec 64 (bits_ n)); [|lia]. reflexivity.
  - rewrite cur_hi by lia. reflexivity.
  - destruct (Z.ltb_spec (d + 1) 128); [|lia]. destruct (Z.lt_ge_cases d 63).
    + rewrite !cur_lo by lia. cbn [c_bit c_i c_p]. rewrite Hh, Hz by lia.
      do 2 f_equal. f_equal. lia.
    + rewrite !cur_hi by lia. cbn [c_bit c_i c_p]. rewrite Hh, Hz by lia.
      do 2 f_equal. f_equal. lia.
Qed.
End Cursors.

(** ** The loops act on the abstract tree *)

Section Loops.
Context `{HostEndian}.
Context (n : IPNet) (Hn : wf_net n).

(** What is left of the network's path at depth [d]. *)
Definition rest (d : Z) : list bool := drop (Z.to_nat d) (net_path n).

Lemma rest_cons d : 0 <= d < bits_ n -> rest d = addr_bit (address_ n) d :: rest (d + 1).
Proof.
  intros Hd. unfold rest, net_path. rewrite Z2Nat.inj_add by lia. rewrite Nat.add_1_r.
  replace d with (Z.of_nat (Z.to_nat d)) at 2 by lia.
  apply drop_S, addr_path_lookup. lia.
Qed.

Lemma rest_nil d : bits_ n <= d -> rest d = [].
Proof.
  intros Hd. pose proof (net_path_length n Hn). unfold rest. apply drop_ge. lia.
Qed.

Lemma tset_new p : tset p n nRadixNode_new = tset p n nullptr.
Proof. by destruct p as [|[] p]. Qed.

Lemma link_tset node b p :
  node <> nullptr ->
  link node b (tset p n (if b then right_of node else left_of node)) = tset (b :: p) n node.
Proof. by destruct node, b. Qed.

Lemma set_value_tset node : node <> nullptr -> set_value node n = tset [] n node.
Proof. by destruct node. Qed.

Lemma fill_spec node :
  node <> nullptr ->
  fill node n = match tget node [] with
                | Some _ => (node, false)
                | None => (tset [] n node, true)
                end.
Proof. by destruct node as [|[]]. Qed.

Lemma new_not_null : nRadixNode_new <> nullptr.
Proof. done. Qed.

(** The second loop stores the network at the rest of its path. *)
Lemma extend_spec fuel d node :
  0 <= d < 128 -> d <= bits_ n -> (Z.to_nat (bits_ n - d) < fuel)%nat -> node <> nullptr ->
  (d < bits_ n -> (if addr_bit (address_ n) d then right_of node else left_of node) = nullptr) ->
  extend fuel n (cur d) node = Some (tset (rest d) n node).
Proof.
  pose proof (wf_net_addr n Hn) as Ha. pose proof (wf_net_128 n Hn) as Hb.
  revert d node. induction fuel as [|fuel IH]; intros d node Hd Hle Hf Hnode Hnew; [lia|].
  cbn [extend]. rewrite mask_test_cur by done. destruct (Z.ltb_spec d (bits_ n)) as [Hlt|Hge].
  2: { by rewrite rest_nil, set_value_tset by (done || lia). }
  rewrite advance_cur, addr_test_cur, rest_cons, <- link_tset, Hnew by (done || lia).
  destruct (Z.ltb_spec (d + 1) 128).
  - rewrite IH by first [lia | done | intros _; by destruct (addr_bit (address_ n) (d + 1))].
    by rewrite tset_new.
  - rewrite rest_nil by lia. by rewrite set_value_tset, tset_new by apply new_not_null.
Qed.

(** The first loop finds the node of the path or the place to add it. *)
Lemma walk_spec node d :
  0 <= d < 128 -> d <= bits_ n -> node <> nullptr ->
  walk node n (cur d) =
  Some (match tget node (rest d) with
        | Some _ => (node, false)
        | None => (tset (rest d) n node, true)
        end).
Proof.
  pose proof (wf_net_addr n Hn) as Ha. pose proof (wf_net_128 n Hn) as Hb.
  revert d. induction node as [|v l IHl r IHr]; intros d Hd Hle Hnode; [done|].
  cbn [walk]. rewrite mask_test_cur by done. destruct (Z.ltb_spec d (bits_ n)) as [Hlt|Hge].
  2: { by rewrite rest_nil, fill_spec by (done || lia). }
  rewrite addr_test_cur, advance_cur by (done || lia).
  set (b := addr_bit (address_ n) d).
  set (next := if b then r else l).
  assert (rest d = b :: rest (d + 1)) as Hrest by (apply rest_cons; lia).
  assert (tget (Node v l r) (rest d) = tget next (rest (d + 1))) as Hget by by rewrite Hrest.
  assert (forall p, link (Node v l r) b (tset p n next) = tset (b :: p) n (Node v l r)) as Hlink.
  { intros p. subst next. by rewrite <- link_tset by done. }
  assert (link (Node v l r) b next = Node v l r) as Hsame by (subst next; by destruct b).
  assert (d + 1 < 128 -> next <> nullptr ->
          (if b then walk r n (cur (d + 1)) else walk l n (cur (d + 1))) =
          Some (match tget next (rest (d + 1)) with
                | Some _ => (next, false)
                | None => (tset (rest (d + 1)) n next, true)
                end)) as Hwalk.
  { intros Hd1 Hnn. subst next. destruct b; [apply IHr|apply IHl]; done || lia. }
  assert (next = nullptr -> extend insert_fuel n (cur d) (Node v l r) =
          Some (tset (rest d) n (Node v l r))) as Hext.
  { intros Hnull. apply extend_spec; first [done | lia | unfold insert_fuel; lia]. }
  rewrite Hget. clearbody next. destruct next as [|v' l' r'].
  - by rewrite Hext.
  - destruct (Z.ltb_spec (d + 1) 128).
    + rewrite Hwalk by done. destruct (tget (Node v' l' r') (rest (d + 1))); cbv beta iota; [by rewrite Hsame|]. by rewrite Hlink, Hrest.
    + rewrite fill_spec, (rest_nil (d + 1)) by (done || lia).
      destruct (tget (Node v' l' r') []); cbv beta iota; [by rewrite Hsame|]. by rewrite Hlink, Hrest, (rest_nil (d + 1)) by lia.
Qed.

(** The loop of [Find] computes the longest-prefix match. *)
Lemma find_loop_spec node d ret :
  0 <= d < 128 -> d <= bits_ n -> find_loop node n (cur d) ret = tlpm node (rest d) ret.
Proof.
  pose proof (wf_net_addr n Hn) as Ha. pose proof (wf_net_128 n Hn) as Hb.
  revert d ret. induction node as [|v l IHl r IHr]; intros d ret Hd Hle; [done|].
  cbn [find_loop]. rewrite mask_test_cur, addr_test_cur by done.
  destruct (Z.ltb_spec d (bits_ n)) as [Hlt|Hge]; simpl negb; cbv iota.
  2: { by rewrite rest_nil by lia. }
  rewrite advance_cur, rest_cons by lia. cbn [tlpm].
  destruct (Z.ltb_spec (d + 1) 128).
  - destruct (addr_bit (address_ n) d); [apply IHr|apply IHl]; lia.
  - rewrite rest_nil by lia. by destruct (addr_bit _ d), r as [|[]], l as [|[]].
Qed.

Lemma Insert_walk root :
  root <> nullptr -> 0 < bits_ n ->
  Insert root n =
  Some (match tget root (net_path n) with
        | Some _ => (root, false)
        | None => (tset (net_path n) n root, true)
        end).
Proof.
  intros Hr Hb. pose proof (wf_net_128 n Hn). unfold Insert, net_IsNull, bits.
  destruct (Z.eqb_spec (bits_ n) 0); [lia|].
  destruct (Z.ltb_spec (bits_ n) 1), (Z.ltb_spec 128 (bits_ n)); try lia. simpl.
  rewrite cur_start, walk_spec by (done || lia). done.
Qed.

Lemma Find_tlpm root :
  0 < bits_ n ->
  Find_net root n =
  let ret := tlpm root (net_path n) IPNet_default in
  if Family.eqb (net_family n) (net_family ret) then ret else IPNet_default.
Proof.
  intros Hb. pose proof (wf_net_128 n Hn). unfold Find_net, net_IsNull, bits.
  destruct (Z.eqb_spec (bits_ n) 0); [lia|]. simpl.
  by rewrite cur_start, find_loop_spec by lia.
Qed.
End Loops.

(** ** The tree invariant *)

(** Some network is stored in a tree. *)
Definition has (t : nRadixNode) : Prop := exists q x, tget t q = Some x.

(** Every node below the root leads to a network: no branch is dead. *)
Fixpoint pruned (t : nRadixNode) : Prop :=
  match t with
  | nullptr => True
  | Node _ l r => pruned l /\ pruned r /\ (l <> nullptr -> has l) /\ (r <> nullptr -> has r)
  end.

Section Invariant.
Context `{HostEndian}.

(** A tree as the public operations leave it: it has a root node, each network
    sits at the node of its own prefix, no network is /0 and no branch is dead. *)
Record tree_ok (t : nRadixNode) : Prop := {
  tree_root : t <> nullptr;
  tree_nets : forall q x, tget t q = Some x -> wf_net x /\ net_path x = q /\ 0 < bits_ x;
  tree_pruned : pruned t
}.

Lemma tree_ok_empty : tree_ok NRadixTree_empty.
Proof. by split; [|intros [|[] q]|]. Qed.

Lemma has_tset p n t : has (tset p n t).
Proof. exists p, n. by rewrite tget_tset, decide_True. Qed.

Lemma tset_not_null p n t : tset p n t <> nullptr.
Proof. by destruct p as [|[] p]. Qed.

Lemma pruned_children t :
  pruned t -> pruned (left_of t) /\ pruned (right_of t)
              /\ (left_of t <> nullptr -> has (left_of t)) /\ (right_of t <> nullptr -> has (right_of t)).
Proof. destruct t; simpl; naive_solver. Qed.

Lemma pruned_tset p n t : pruned t -> pruned (tset p n t).
Proof.
  revert t. induction p as [|[] p IH]; intros t Ht; apply pruned_children in Ht as (Hl & Hr & Hl' & Hr');
    simpl; eauto using has_tset.
Qed.

Lemma tree_ok_tset n t :
  tree_ok t -> wf_net n -> 0 < bits_ n -> tree_ok (tset (net_path n) n t).
Proof.
  intros [Hr Hnets Hp] Hn Hb. split; [apply tset_not_null| |by apply pruned_tset].
  intros q x. rewrite tget_tset. destruct (decide _) as [->|]; [by intros [= <-]|auto].
Qed.

(** In a well-formed tree the stored networks are the values at their paths. *)
Lemma In_GetAll t x : tree_ok t -> In x (GetAll t) <-> tget t (net_path x) = Some x.
Proof.
  intros Ht. unfold GetAll. rewrite In_getAll. split; [|by exists (net_path x)].
  intros [p Hp]. by destruct (tree_nets t Ht p x Hp) as (_ & -> & _).
Qed.

Lemma In_GetAll_wf t x : tree_ok t -> In x (GetAll t) -> wf_net x /\ 0 < bits_ x.
Proof.
  intros Ht Hx. apply In_GetAll in Hx; [|done]. by destruct (tree_nets t Ht _ x Hx) as (? & _ & ?).
Qed.

Lemma GetAll_path_inj t x y :
  tree_ok t -> In x (GetAll t) -> In y (GetAll t) -> net_path x = net_path y -> x = y.
Proof.
  intros Ht Hx Hy E. apply In_GetAll in Hx, Hy; [|done..]. rewrite E in Hx. congruence.
Qed.

(** *** Insert *)

Lemma Insert_small root n : bits_ n < 1 -> Insert root n = Some (root, false).
Proof.
  intros Hb. unfold Insert, bits. destruct (net_IsNull n); [done|].
  by destruct (Z.ltb_spec (bits_ n) 1); [|lia].
Qed.

(** Whether [Insert] accepts a network. *)
Definition accepts (root : nRadixNode) (n : IPNet) : bool :=
  (0 <? bits_ n) && bool_decide (tget root (net_path n) = None).

Lemma Insert_accepts root n :
  tree_ok root -> wf_net n ->
  Insert root n =
  Some (if accepts root n then (tset (net_path n) n root, true) else (root, false)).
Proof.
  intros Hr Hn. unfold accepts. destruct (Z.ltb_spec 0 (bits_ n)); simpl.
  - rewrite Insert_walk by (done || apply Hr). by destruct (tget root (net_path n)).
  - by rewrite Insert_small by lia.
Qed.

Lemma Insert_ok root n root' b :
  tree_ok root -> wf_net n -> Insert root n = Some (root', b) -> tree_ok root'.
Proof.
  intros Hr Hn. rewrite Insert_accepts by done. unfold accepts.
  destruct (Z.ltb_spec 0 (bits_ n)); simpl; [|by intros [= <- <-]].
  case_bool_decide; intros [= <- <-]; [by apply tree_ok_tset|done].
Qed.

Lemma In_GetAll_tset root n x :
  tree_ok root -> wf_net n -> 0 < bits_ n -> tget root (net_path n) = None ->
  In x (GetAll (tset (net_path n) n root)) <-> In x (GetAll root) \/ x = n.
Proof.
  intros Hr Hn Hb Hnone. rewrite !In_GetAll by (done || by apply tree_ok_tset).
  rewrite tget_tset. destruct (decide (net_path x = net_path n)) as [E|E].
  - rewrite E, Hnone. naive_solver.
  - naive_solver.
Qed.

Lemma not_stored root n :
  tree_ok root ->
  tget root (net_path n) = None <-> forall x, In x (GetAll root) -> net_path x <> net_path n.
Proof.
  intros Hr. split.
  - intros Hnone x Hx E. apply In_GetAll in Hx; [|done]. congruence.
  - intros Hall. destruct (tget root (net_path n)) as [x|] eqn:E; [|done].
    destruct (tree_nets root Hr _ x E) as (_ & Ep & _). exfalso. apply (Hall x); [|done].
    apply In_GetAll; [done|]. by rewrite Ep.
Qed.
End Invariant.

(** ** Longest-prefix match *)

(** [res] is the value at the longest prefix of [p], or [ret] without one. *)
Definition is_lpm (t : nRadixNode) (p : list bool) (ret res : IPNet) : Prop :=
  (exists q x, q `prefix_of` p /\ tget t q = Some x /\ res = x
     /\ forall q' x', q' `prefix_of` p -> tget t q' = Some x' -> (length q' <= length q)%nat)
  \/ (res = ret /\ forall q, q `prefix_of` p -> tget t q = None).

Lemma tlpm_spec t p ret : is_lpm t p ret (tlpm t p ret).
Proof.
  revert p ret. induction t as [|v l IHl r IHr]; intros p ret; [by right|].
  destruct p as [|b p]; cbn [tlpm].
  - destruct v as [x|].
    + left. exists [], x. split_and!; [done..|]. intros q' x' Hq. apply prefix_nil_inv in Hq as ->. done.
    + right. split; [done|]. intros q Hq. by apply prefix_nil_inv in Hq as ->.
  - set (child := if b then r else l). set (ret' := match v with Some x => x | None => ret end).
    assert (forall q, tget (Node v l r) (b :: q) = tget child q) as Hc by done.
    assert (forall q, q `prefix_of` (b :: p) -> q = [] \/ exists q0, q = b :: q0 /\ q0 `prefix_of` p) as Hq.
    { intros [|b' q] Hpre; [by left|right]. exists q. split.
      - f_equal. by apply (prefix_cons_inv_1 b' b q p).
      - by apply (prefix_cons_inv_2 b' b q p). }
    assert (is_lpm child p ret' (tlpm child p ret')) as IH by (destruct b; [apply IHr|apply IHl]).
    destruct IH as [(q & x & Hpre & Hget & Heq & Hmax)|[Heq Hnone]]; clear IHl IHr.
    + left. exists (b :: q), x. split_and!; [by apply prefix_cons|done..|].
      intros q' x' Hpre' Hget'. destruct (Hq q' Hpre') as [->|(q0 & -> & Hpre0)]; simpl; [lia|].
      rewrite Hc in Hget'. apply le_n_S. eauto.
    + assert (forall q, q `prefix_of` (b :: p) -> tget (Node v l r) q = if decide (q = []) then v else None) as Hall.
      { intros q Hpre. destruct (Hq q Hpre) as [->|(q0 & -> & Hpre0)]; [done|].
        rewrite decide_False, Hc by done. auto. }
      fold child. rewrite Heq. subst ret'. destruct v as [x|].
      * left. exists [], x. split_and!; [apply prefix_nil|done..|].
        intros q' x' Hpre' Hget'. rewrite Hall in Hget' by done. by destruct (decide (q' = [])) as [->|].
      * right. split; [done|]. intros q Hpre. rewrite Hall by done. by destruct (decide _).
Qed.

Section FindSpec.
Context `{HostEndian}.

(** The reference search: a linear scan of the networks with
    [IPNet::Contains], keeping the longest prefix no longer than the query. *)
Definition covers (x n : IPNet) : bool := (bits_ x <=? bits_ n) && net_contains x (address_ n).

Definition better (n : IPNet) (best : option IPNet) (x : IPNet) : option IPNet :=
  if covers x n then
    match best with
    | Some y => if bits_ y <? bits_ x then Some x else best
    | None => Some x
    end
  else best.

Definition longest_prefix (nets : list IPNet) (n : IPNet) : option IPNet :=
  fold_left (better n) nets None.

Lemma covers_spec x n :
  wf_net x -> wf_net n ->
  covers x n = true <-> net_family x = net_family n /\ net_path x `prefix_of` net_path n.
Proof.
  intros Hx Hn. pose proof (wf_net_128 x Hx). pose proof (wf_net_128 n Hn).
  unfold covers, net_family, family.
  rewrite andb_true_iff, net_contains_path, Z.leb_le by (done || apply Hn). split.
  - intros (Hb & Hf & Hp). split; [done|]. apply (net_path_prefix_full x (address_ n) Hx) in Hp.
    rewrite <- Hp. apply addr_path_prefix. lia.
  - intros (Hf & Hp). split_and!; [|done|].
    + apply prefix_length in Hp. pose proof (net_path_length x Hx). pose proof (net_path_length n Hn). lia.
    + etransitivity; [done|]. apply addr_path_prefix. lia.
Qed.

Lemma fold_better n nets best :
  match fold_left (better n) nets best with
  | Some x => (In x nets /\ covers x n = true \/ best = Some x)
              /\ (forall y, In y nets -> covers y n = true -> bits_ y <= bits_ x)
              /\ (forall y, best = Some y -> bits_ y <= bits_ x)
  | None => best = None /\ forall y, In y nets -> covers y n = false
  end.
Proof.
  revert best. induction nets as [|x nets IH]; intros best; simpl.
  { destruct best as [y|]; [|done]. split_and!; [by right|done|]. intros ? [= ->]. lia. }
  specialize (IH (better n best x)). destruct (fold_left _ _ _) as [z|].
  - destruct IH as (Hz & Hnets & Hbest). unfold better in *. destruct (covers x n) eqn:Ec.
    + destruct best as [y|]; [destruct (Z.ltb_spec (bits_ y) (bits_ x))|].
      * split_and!; [naive_solver| |].
        -- intros y' [->|Hy'] Hc; [|auto]. by apply Hbest.
        -- intros ? [= <-]. specialize (Hbest x eq_refl). lia.
      * split_and!; [naive_solver| |auto].
        intros y' [<-|Hy'] Hc; [|auto]. specialize (Hbest y eq_refl). lia.
      * split_and!; [naive_solver| |done]. intros y' [<-|Hy'] Hc; auto.
    + split_and!; [naive_solver| |auto]. intros y' [<-|Hy'] Hc; [congruence|auto].
  - destruct IH as [Hb Hnets]. unfold better in Hb. destruct (covers x n) eqn:Ec.
    + destruct best as [y|]; [destruct (bits_ y <? bits_ x)|]; done.
    + split; [done|]. intros y' [<-|Hy']; auto.
Qed.

Lemma net_family_default : net_family IPNet_default = Family.UNKNOWN.
Proof. reflexivity. Qed.

(** Where the stored prefixes of the query share its family, [Find] is the scan. *)
Lemma Find_longest root n :
  tree_ok root -> wf_net n -> 0 < bits_ n ->
  (forall x, In x (GetAll root) -> net_path x `prefix_of` net_path n -> net_family x = net_family n) ->
  Find_net root n = default IPNet_default (longest_prefix (GetAll root) n).
Proof.
  intros Hr Hn Hb Hfam. rewrite Find_tlpm by done. cbv zeta. unfold longest_prefix.
  pose proof (fold_better n (GetAll root) None) as Hfold.
  destruct (tlpm_spec root (net_path n) IPNet_default) as [(q & x & Hpre & Hget & -> & Hmax)|[-> Hnone]].
  - destruct (tree_nets root Hr q x Hget) as (Hx & <- & Hbx).
    assert (In x (GetAll root)) as Hin by (by apply In_GetAll).
    rewrite (Hfam x Hin Hpre), Family_eqb_refl.
    assert (covers x n = true) as Hcx by (apply covers_spec; auto).
    destruct (fold_left _ _ _) as [z|]; simpl.
    2: { destruct Hfold as [_ Hf]. specialize (Hf x Hin). congruence. }
    destruct Hfold as ([[Hz Hcz]|?] & Hzmax & _); [|done].
    destruct (In_GetAll_wf root z Hr Hz) as [Hwz Hbz].
    apply covers_spec in Hcz as [_ Hpz]; [|done..].
    apply (GetAll_path_inj root); [done..|].
    apply In_GetAll in Hz; [|done]. specialize (Hmax _ z Hpz Hz). specialize (Hzmax x Hin Hcx).
    pose proof (net_path_length x Hx). pose proof (net_path_length z Hwz).
    destruct (prefix_weak_total (net_path x) (net_path z) (net_path n)) as [P|P]; [done..| |].
    + apply prefix_length_eq; [done|lia].
    + symmetry. apply prefix_length_eq; [done|lia].
  - rewrite net_family_default. replace (if Family.eqb _ _ then _ else _) with IPNet_default by by destruct (Family.eqb _ _).
    destruct (fold_left _ _ _) as [z|]; [|done]. destruct Hfold as ([[Hz Hcz]|?] & _); [|done].
    destruct (In_GetAll_wf root z Hr Hz) as [Hwz Hbz]. apply In_GetAll in Hz; [|done].
    apply covers_spec in Hcz as [_ Hpz]; [|done..]. specialize (Hnone _ Hpz). congruence.
Qed.
End FindSpec.

(** ** Subset tests *)

(** Some network of [t2] sits at or below one of [t1]. *)
Definition nested (t1 t2 : nRadixNode) : Prop :=
  exists q q' x y, tget t1 q = Some x /\ tget t2 (q ++ q') = Some y.

Lemma has_node v l r : has (Node v l r) <-> is_Some v \/ has l \/ has r.
Proof.
  split.
  - intros ([|[] q] & x & E); simpl in E; [left; by exists x|right; right|right; left]; by exists q, x.
  - intros [[x ->]|[(q & x & E)|(q & x & E)]];
      [by exists [], x|by exists (false :: q), x|by exists (true :: q), x].
Qed.

Lemma has_null : ~ has nullptr.
Proof. by intros (q & x & E). Qed.

Lemma nested_null t : ~ nested t nullptr.
Proof. by intros (q & q' & x & y & _ & E). Qed.

Lemma nested_node t v l r :
  nested t (Node v l r) <->
  (is_Some (value_of t) /\ has (Node v l r)) \/ nested (left_of t) l \/ nested (right_of t) r.
Proof.
  split.
  - intros ([|[] q] & q' & x & y & E1 & E2).
    + left. rewrite tget_root in E1. split; [by exists x|by exists q', y].
    + right; right. rewrite tget_node in E1. by exists q, q', x, y.
    + right; left. rewrite tget_node in E1. by exists q, q', x, y.
  - intros [[[x E1] (q & y & E2)]|[(q & q' & x & y & E1 & E2)|(q & q' & x & y & E1 & E2)]].
    + exists [], q, x, y. by rewrite tget_root.
    + exists (false :: q), q', x, y. by rewrite tget_node.
    + exists (true :: q), q', x, y. by rewrite tget_node.
Qed.

Lemma is_Some_some_or v w : is_Some (some_or v w) <-> is_Some v \/ is_Some w.
Proof. destruct v; simpl; split; try naive_solver; intros [[? ?]|?]; done. Qed.

Section Subset.
Context (fam : Family.t) (A B : IPNet -> Prop).
Context (Hmatch : forall a b, A a -> B b -> nets_match fam (Some a) (Some b) = true).

Definition values (P : IPNet -> Prop) (t : nRadixNode) : Prop :=
  forall q x, tget t q = Some x -> P x.

Definition opt (P : IPNet -> Prop) (v : option IPNet) : Prop := forall x, v = Some x -> P x.

Lemma values_children P t :
  values P t -> opt P (value_of t) /\ values P (left_of t) /\ values P (right_of t).
Proof.
  intros Ht. split_and!.
  - intros x E. apply (Ht []). by rewrite tget_root.
  - intros q x E. apply (Ht (false :: q)). by rewrite tget_node.
  - intros q x E. apply (Ht (true :: q)). by rewrite tget_node.
Qed.

Lemma opt_some_or P v w : opt P v -> opt P w -> opt P (some_or v w).
Proof. destruct v; simpl; auto. Qed.

Lemma nets_match_opt cg cd :
  opt A cg -> opt B cd -> nets_match fam cg cd = true <-> is_Some cg /\ is_Some cd.
Proof.
  intros Ha Hb. destruct cg as [a|], cd as [b|]; simpl; try (split; [done|by intros [[] []]]).
  split; [eauto|]. intros _. apply Hmatch; eauto.
Qed.

(** On trees whose networks all match, the recursion finds a nested pair, or a
    network of the second tree under a containing network already met. *)
Lemma isAnyIPNetSubsetUtil_spec n2 n1 cg cd :
  values A n1 -> values B n2 -> opt A cg -> opt B cd ->
  pruned n2 -> (n2 <> nullptr -> has n2) ->
  isAnyIPNetSubsetUtil fam n1 n2 cg cd = true <->
  (is_Some cg /\ (is_Some cd \/ has n2)) \/ nested n1 n2.
Proof.
  revert n1 cg cd. induction n2 as [|v2 l2 IHl r2 IHr]; intros n1 cg cd H1 H2 Hg Hd Hp Hne.
  - cbn [isAnyIPNetSubsetUtil]. pose proof (nets_match_opt cg cd Hg Hd) as E.
    pose proof has_null. pose proof (nested_null n1).
    destruct (nets_match fam cg cd); split; try done; naive_solver.
  - destruct (values_children A n1 H1) as (Hv1 & Hl1 & Hr1).
    destruct (values_children B (Node v2 l2 r2) H2) as (Hv2 & Hl2 & Hr2).
    destruct Hp as (Hpl & Hpr & Hhl & Hhr). specialize (Hne ltac:(done)).
    assert (opt A (some_or (value_of n1) cg)) as Hg' by by apply opt_some_or.
    assert (opt B (some_or v2 cd)) as Hd' by by apply opt_some_or.
    cbn [isAnyIPNetSubsetUtil]. pose proof (nets_match_opt cg cd Hg Hd) as E.
    destruct (nets_match fam cg cd); [naive_solver|].
    rewrite orb_true_iff, IHl, IHr by auto. clear IHl IHr.
    rewrite nested_node, !is_Some_some_or, has_node. apply has_node in Hne.
    clear - E Hne. destruct E as [E _]. clear E.
    naive_solver.
Qed.
End Subset.

Lemma pruned_empty_or_has t : pruned t -> has t \/ t = nullptr \/ t = nRadixNode_new.
Proof.
  destruct t as [|[x|] l r]; [tauto| |].
  - left. by exists [], x.
  - intros (_ & _ & Hl & Hr). rewrite has_node.
    destruct l; [destruct r; [by right; right|]|]; left; right; [right; apply Hr|left; apply Hl]; done.
Qed.

Section SubsetTrees.
Context `{HostEndian}.

(** The reference test: some network of the second list lies within one of the
    first. *)
Definition any_subset (nets1 nets2 : list IPNet) : bool :=
  existsb (fun x => existsb (fun y => covers x y) nets2) nets1.

Lemma any_subset_nested t1 t2 f :
  tree_ok t1 -> tree_ok t2 ->
  (forall x, In x (GetAll t1) -> net_family x = f) ->
  (forall x, In x (GetAll t2) -> net_family x = f) ->
  nested t1 t2 <-> any_subset (GetAll t1) (GetAll t2) = true.
Proof.
  intros H1 H2 F1 F2. unfold any_subset. rewrite existsb_exists. setoid_rewrite existsb_exists. split.
  - intros (q & q' & x & y & E1 & E2).
    destruct (tree_nets t1 H1 q x E1) as (Wx & <- & _), (tree_nets t2 H2 _ y E2) as (Wy & Py & _).
    rewrite <- Py in E2. apply In_GetAll in E1, E2; [|done..].
    exists x. split; [done|]. exists y. split; [done|]. apply covers_spec; [done..|].
    rewrite F1, F2, Py by done. split; [done|by apply prefix_app_r].
  - intros (x & Hx & y & Hy & Hc).
    destruct (In_GetAll_wf t1 x H1 Hx) as [Wx _], (In_GetAll_wf t2 y H2 Hy) as [Wy _].
    apply covers_spec in Hc as [_ [q' Hq]]; [|done..]. apply In_GetAll in Hx, Hy; [|done..].
    exists (net_path x), q', x, y. by rewrite <- Hq.
Qed.

Lemma IsAnyIPNetSubset_nested t1 t2 f fam :
  tree_ok t1 -> tree_ok t2 -> fam = Family.UNKNOWN \/ fam = f ->
  (forall x, In x (GetAll t1) -> net_family x = f) ->
  (forall x, In x (GetAll t2) -> net_family x = f) ->
  IsAnyIPNetSubset_family fam t1 t2 = true <-> nested t1 t2.
Proof.
  intros H1 H2 Hfam F1 F2. unfold IsAnyIPNetSubset_family.
  assert (forall a b, net_family a = f -> net_family b = f -> nets_match fam (Some a) (Some b) = true) as Hm.
  { intros a b Ea Eb. destruct Hfam as [->| ->]; simpl; rewrite Ea, Eb, ?Family_eqb_refl; [done|by destruct f]. }
  assert (forall t, tree_ok t -> (forall x, In x (GetAll t) -> net_family x = f) ->
            values (fun x => net_family x = f) t) as Hvals.
  { intros t Ht F q x E. apply F. unfold GetAll. apply In_getAll. by exists q. }
  destruct (pruned_empty_or_has t2 (tree_pruned t2 H2)) as [Hhas|[-> | ->]].
  - rewrite (isAnyIPNetSubsetUtil_spec fam _ _ Hm) by (done || auto || apply H2).
    split; [|tauto]. by intros [[[? ?] _]|?].
  - by destruct (tree_root _ H2).
  - split.
    + destruct t1 as [|v l r]; [by destruct (tree_root _ H1)|]. cbn.
      unfold nRadixNode_new. cbn. destruct v; done.
    + intros (q & q' & x & y & _ & E2). destruct (q ++ q') as [|[] ?]; done.
Qed.
End SubsetTrees.

(** ** Building a tree *)

Section Build.
Context `{HostEndian}.

(** The networks a list leaves in a tree: the first of each prefix, except /0. *)
Definition first_of_path (nets : list IPNet) (x : IPNet) : Prop :=
  exists l1 l2, nets = l1 ++ x :: l2 /\ 0 < bits_ x
                /\ forall y, In y l1 -> net_path y <> net_path x.

Lemma first_of_path_cons n nets x :
  first_of_path (n :: nets) x <->
  (x = n /\ 0 < bits_ n) \/ (first_of_path nets x /\ net_path n <> net_path x).
Proof.
  split.
  - intros ([|y l1] & l2 & E & Hb & Hl); injection E as -> ->; [by left|right].
    split; [|apply Hl; by left]. exists l1, l2. split_and!; [done..|]. intros z Hz. apply Hl. by right.
  - intros [[-> Hb]|[(l1 & l2 & -> & Hb & Hl) Hne]].
    + exists [], nets. done.
    + exists (n :: l1), l2. split_and!; [done..|]. intros y [->|Hy]; auto.
Qed.

Lemma net_path_bits n m : wf_net n -> wf_net m -> net_path n = net_path m -> bits_ n = bits_ m.
Proof.
  intros Hn Hm E. pose proof (net_path_length n Hn). pose proof (net_path_length m Hm).
  rewrite E in *. lia.
Qed.

Lemma insert_all_spec nets root :
  tree_ok root -> Forall wf_net nets ->
  exists t, insert_all root nets = Some t /\ tree_ok t
    /\ forall x, In x (GetAll t) <->
         In x (GetAll root)
         \/ (first_of_path nets x /\ tget root (net_path x) = None).
Proof.
  revert root. induction nets as [|n nets IH]; intros root Hr Hnets; simpl.
  { exists root. split_and!; [done..|]. intros x. split; [by left|].
    intros [?|[([|? ?] & l2 & E & _) _]]; done. }
  apply Forall_cons in Hnets as [Hn Hnets].
  assert (forall x, In x nets -> wf_net x) as Hwf by (by apply List.Forall_forall).
  rewrite Insert_accepts by done. unfold accepts.
  destruct (Z.ltb_spec 0 (bits_ n)) as [Hb|Hb]; simpl.
  - case_bool_decide as Hnone.
    + destruct (IH (tset (net_path n) n root)) as (t & -> & Ht & Hin); [by apply tree_ok_tset|done|].
      exists t. split_and!; [done..|]. intros x.
      rewrite Hin, In_GetAll_tset, first_of_path_cons, tget_tset by done.
      destruct (decide (net_path x = net_path n)) as [E|E]; [|naive_solver].
      rewrite <- E in Hnone. naive_solver.
    + destruct (IH root) as (t & -> & Ht & Hin); [done..|].
      exists t. split_and!; [done..|]. intros x. rewrite Hin, first_of_path_cons. split.
      * intros [?|[Hx Hxn]]; [by left|right]. split; [right; split; [done|]|done]. congruence.
      * intros [?|[[[-> _]|[? _]] Hxn]]; naive_solver.
  - destruct (IH root) as (t & -> & Ht & Hin); [done..|].
    exists t. split_and!; [done..|]. intros x. rewrite Hin, first_of_path_cons. split.
    + intros [?|[Hx Hxn]]; [by left|right]. split; [right; split; [done|]|done].
      intros E. destruct Hx as (l1 & l2 & -> & Hbx & _).
      apply net_path_bits in E; [lia|done|]. apply Hwf, in_elt.
    + intros [?|[[[-> ?]|[? _]] Hxn]]; [by left|lia|naive_solver].
Qed.

Lemma nRadixNode_copy_id t : nRadixNode_copy t = t.
Proof. induction t as [|[n|] l IHl r IHr]; simpl; congruence. Qed.
End Build.

(** ** Theorems *)

Section Theorems.
Context `{HostEndian}.

(** C4. Insertion: on a well-formed tree [Insert] always returns; it
    answers true exactly when the prefix is not /0 and no stored network has the
    same prefix, and then the stored networks are the old ones and the new one;
    otherwise the tree is unchanged.  The tree stays well formed. *)
Theorem Insert_spec (root : nRadixNode) (n : IPNet) (Hr : tree_ok root) (Hn : wf_net n) :
  exists root' inserted,
    Insert root n = Some (root', inserted) /\ tree_ok root'
    /\ (inserted = true <->
          0 < bits n /\ forall x, In x (GetAll root) -> net_path x <> net_path n)
    /\ (forall x, In x (GetAll root') <-> In x (GetAll root) \/ (inserted = true /\ x = n))
    /\ (inserted = false -> root' = root).
Proof.
  pose proof (Insert_accepts root n Hr Hn) as E. pose proof (not_stored root n Hr) as Hns.
  unfold accepts, bits in *. destruct (Z.ltb_spec 0 (bits_ n)); simpl in E.
  - case_bool_decide as Hnone; eexists _, _; (split; [exact E|]).
    + split; [by apply tree_ok_tset|]. split; [tauto|]. split; [|done].
      intros x. rewrite In_GetAll_tset by done. naive_solver.
    + split; [done|]. split; [split; [done|tauto]|]. split; [naive_solver|done].
  - exists root, false. split; [exact E|]. split; [done|]. split; [split; [done|lia]|].
    split; [naive_solver|done].
Qed.

(** Construction: the tree built from any list of networks
    exists, is well formed, and holds exactly the first network of each prefix of
    the list, /0 excepted. *)
Theorem NRadixTree_spec (nets : list IPNet) (Hnets : Forall wf_net nets) :
  exists t, NRadixTree nets = Some t /\ tree_ok t
    /\ forall x, In x (GetAll t) <-> first_of_path nets x.
Proof.
  destruct (insert_all_spec nets NRadixTree_empty tree_ok_empty Hnets) as (t & E & Ht & Hin).
  exists t. split_and!; [done..|]. intros x. rewrite Hin. simpl.
  destruct (net_path x) as [|[] p]; naive_solver.
Qed.

(** C2. Lookup: when the stored prefixes of the query have its family,
    [Find] returns what a linear scan of all stored networks with
    [IPNet::Contains] returns, the network of the longest prefix containing the
    query, and the null network when there is none. *)
Theorem Find_spec (root : nRadixNode) (n : IPNet) (Hr : tree_ok root) (Hn : wf_net n)
    (Hfam : forall x, In x (GetAll root) -> net_path x `prefix_of` net_path n ->
                      net_family x = net_family n) :
  Find_net root n =
  if bits n =? 0 then IPNet_default
  else default IPNet_default (longest_prefix (GetAll root) n).
Proof.
  pose proof (wf_net_128 n Hn). unfold bits. destruct (Z.eqb_spec (bits_ n) 0) as [E|E].
  - unfold Find_net, bits. rewrite E. by destruct (net_IsNull n).
  - apply Find_longest; done || lia.
Qed.

(** Mixed families: one tree keeps IPv4 and IPv6 networks by their
    bits alone, so a more specific network of the other family hides the right
    answer: with 32.0.0.0/8 and 2001::/16 stored, looking up 32.1.2.3 gives the
    null network although 32.0.0.0/8 contains it, and 32.1.0.0/16 is refused as
    already present. *)
Theorem Find_mixed_families :
  let v4 := IPNet_make (Address_octets 32 0 0 0) 8 false in
  let v6 := IPNet_make (Address_high_low (htonll 0x2001000000000000) 0) 16 false in
  let query := Address_octets 32 1 2 3 in
  match NRadixTree [v4; v6] with
  | Some t =>
      net_contains v4 query = true
      /\ Find_addr t query = IPNet_default
      /\ longest_prefix (GetAll t) (IPNet_of_address query) = Some v4
      /\ Insert t (IPNet_make (Address_octets 32 1 0 0) 16 false) = Some (t, false)
  | None => False
  end.
Proof. by_endianness. Qed.

(** Subset test: on well-formed trees of one family
    [IsAnyIPNetSubset] answers whether some network of the other tree lies
    within some network of this one, as the scan of all pairs does. *)
Theorem IsAnyIPNetSubset_spec (t1 t2 : nRadixNode) (f fam : Family.t)
    (H1 : tree_ok t1) (H2 : tree_ok t2) (Hfam : fam = Family.UNKNOWN \/ fam = f)
    (F1 : forall x, In x (GetAll t1) -> net_family x = f)
    (F2 : forall x, In x (GetAll t2) -> net_family x = f) :
  IsAnyIPNetSubset_family fam t1 t2 = any_subset (GetAll t1) (GetAll t2).
Proof.
  apply eq_bool_prop_intro. rewrite !Is_true_true.
  rewrite (IsAnyIPNetSubset_nested t1 t2 f fam) by done. by apply any_subset_nested with f.
Qed.
End Theorems.

(** ** Witnesses *)

Module Witnesses.
#[local] Existing Instance little_endian.

Definition net8 : IPNet := IPNet_make (Address_octets 10 0 0 0) 8 false.
Definition net16 : IPNet := IPNet_make (Address_octets 10 1 0 0) 16 false.

Lemma net_wf a b c d n : 0 <= n -> wf_net (IPNet_make (Address_octets a b c d) n false).
Proof. intros. apply wf_IPNet_make; [apply wf_Address_octets|done]. Qed.

Definition tree1 : nRadixNode := default nRadixNode_new (NRadixTree [net8]).
Definition tree2 : nRadixNode := default nRadixNode_new (NRadixTree [net8; net16]).

Lemma tree_ok_of nets :
  Forall wf_net nets -> tree_ok (default nRadixNode_new (NRadixTree nets)).
Proof.
  intros Hn. unfold NRadixTree.
  by destruct (insert_all_spec nets NRadixTree_empty tree_ok_empty Hn) as (t & -> & Ht & _).
Qed.

Lemma nets_wf : Forall wf_net [net8; net16].
Proof. apply Forall_cons_2; [|apply Forall_cons_2; [|constructor]]; apply net_wf; lia. Qed.

Lemma tree1_ok : tree_ok tree1.
Proof. apply tree_ok_of. apply Forall_cons_2; [apply net_wf; lia|constructor]. Qed.

Lemma tree2_ok : tree_ok tree2.
Proof. apply tree_ok_of, nets_wf. Qed.

Lemma Insert_witness :
  exists root' inserted, Insert tree1 net16 = Some (root', inserted) /\ tree_ok root'.
Proof.
  destruct (Insert_spec tree1 net16 tree1_ok (net_wf 10 1 0 0 16 ltac:(lia)))
    as (root' & inserted & E & Ht & _).
  exists root', inserted. exact (conj E Ht).
Defined.

Lemma NRadixTree_witness :
  exists t, NRadixTree [net8; net16] = Some t /\ tree_ok t.
Proof.
  destruct (NRadixTree_spec [net8; net16] nets_wf) as (t & E & Ht & _).
  exists t. exact (conj E Ht).
Defined.

Lemma Find_witness :
  Find_net tree2 (IPNet_of_address (Address_octets 10 1 2 3)) = net16.
Proof.
  rewrite (Find_spec tree2 (IPNet_of_address (Address_octets 10 1 2 3)) tree2_ok).
  - vm_compute. reflexivity.
  - apply wf_IPNet_of_address, wf_Address_octets.
  - intros x Hx _. vm_compute in Hx. destruct Hx as [<-|[<-|[]]]; reflexivity.
Defined.

Lemma IsAnyIPNetSubset_witness :
  IsAnyIPNetSubset_family Family.IPV4 tree1 tree2 = true.
Proof.
  rewrite (IsAnyIPNetSubset_spec tree1 tree2 Family.IPV4 Family.IPV4 tree1_ok tree2_ok).
  - vm_compute. reflexivity.
  - by right.
  - intros x Hx. vm_compute in Hx. destruct Hx as [<-|[]]; reflexivity.
  - intros x Hx. vm_compute in Hx. destruct Hx as [<-|[<-|[]]]; reflexivity.
Defined.
End Witnesses.
