(* ===== verification/Process.v ===== *)
(** * Processes and the process store

    [collector/lib/Process.h] and [Process.cpp]: the process objects whose
    attributes arrive asynchronously, and the store that keeps at most one object
    per process.  The store is a shared heap of reference-counted objects and a
    cache of weak pointers; threads take, copy and drop references, and the last
    drop and the destructor are separate steps, so that a lookup may fall between
    them.  The cache has no lock: lookups and destructors are steps here, which is
    right for executions in which they do not overlap; where a destructor runs in
    one thread during a lookup in another, the code has a data race and nothing is
    claimed.  The comparison of originators by pointer in [ContainerEndpoint] relies
    on the uniqueness proved here. *)

From stdpp Require Import gmap.
From S2P Require Import Prelude Containers Utility Stats.

(** ** Process information *)

(** The thread information the inspector resolves: what its members and
    accessors hold. *)
Record sinsp_threadinfo := mkThreadinfo {
  ti_pid : Z;
  ti_cgroups : list (str * str);
  ti_comm : str;
  ti_exe : str;
  ti_exepath : str;
  ti_args : list str;
  ti_uid : Z;
  ti_gid : Z;
  ti_vpid : Z;
  ti_clone_ts : Z;
  is_main_thread : bool
}.

Record Process := mkProcess {
  pid_ : Z;
  process_info_pending_resolution_ : bool;
  system_inspector_threadinfo_ : option sinsp_threadinfo
}.

Definition NOT_AVAILABLE : str := lit "N/A".

(** The constructor requests the information when there is an inspector. *)
Definition Process_new (pid : Z) (instance : bool) : Process := mkProcess pid instance None.

Definition ProcessInfoResolved (process_info : option sinsp_threadinfo) (p : Process) : Process :=
  mkProcess (pid_ p) false process_info.

(** [WaitForProcessInfo]; [arrival] is the resolution that comes before the
    timeout, if one does. *)
Definition WaitForProcessInfo (arrival : option (option sinsp_threadinfo)) (p : Process)
    (stats : CollectorStats) : Process * CollectorStats :=
  let stats := CounterAdd (if process_info_pending_resolution_ p then process_info_miss else process_info_hit)
                          1 stats in
  if process_info_pending_resolution_ p then
    match arrival with
    | Some info => (ProcessInfoResolved info p, stats)
    | None => (p, stats)
    end
  else (p, stats).

(** The accessors, each after a wait. *)
Definition container_id (p : Process) : str :=
  match system_inspector_threadinfo_ p with
  | Some ti => match GetContainerID (ti_cgroups ti) with [] => NOT_AVAILABLE | id => id end
  | None => NOT_AVAILABLE
  end.

Definition comm (p : Process) : str :=
  match system_inspector_threadinfo_ p with Some ti => ti_comm ti | None => NOT_AVAILABLE end.

Definition exe (p : Process) : str :=
  match system_inspector_threadinfo_ p with Some ti => ti_exe ti | None => NOT_AVAILABLE end.

Definition exe_path (p : Process) : str :=
  match system_inspector_threadinfo_ p with Some ti => ti_exepath ti | None => NOT_AVAILABLE end.

(** The stream loop of [args]: a space after every argument but the last. *)
Fixpoint args_loop (it : list str) : str :=
  match it with
  | [] => []
  | a :: it => a ++ (match it with [] => [] | _ => [" "%char] end) ++ args_loop it
  end.

Definition args (p : Process) : str :=
  match system_inspector_threadinfo_ p with
  | Some ti => match ti_args ti with [] => [] | l => args_loop l end
  | None => NOT_AVAILABLE
  end.

(** [operator<<]. *)
Definition process_print (p : Process) : str :=
  lit "ContainerID: " ++ container_id p ++ lit " Exe: " ++ exe p ++ lit " ExePath: "
  ++ exe_path p ++ lit " Args: " ++ args p ++ lit " PID: " ++ show_nat (pid_ p).

Lemma args_loop_join l : args_loop l = join " " l.
Proof. induction l as [|a [|b l] IH]; [done|by apply app_nil_r|]. cbn [args_loop join] in *. by rewrite IH. Qed.

(** ** The store *)

(** A heap object and its number of strong references; at 0 its destructor is
    about to run. *)
Record object := mkObject { obj : Process; strong : nat }.

Record ProcessStore := mkProcessStore {
  cache_ : umap Z positive;
  heap : gmap positive object;
  instance_ : bool
}.

Definition ProcessStore_new (instance : bool) : ProcessStore := mkProcessStore [] ∅ instance.

Definition set_heap (s : ProcessStore) (h : gmap positive object) : ProcessStore :=
  mkProcessStore (cache_ s) h (instance_ s).

(** [weak_ptr::lock]: a new strong reference unless the last one is gone. *)
Definition lock (s : ProcessStore) (p : positive) : option positive * ProcessStore :=
  match heap s !! p with
  | Some (mkObject o (S n)) => (Some p, set_heap s (<[p := mkObject o (S (S n))]> (heap s)))
  | _ => (None, s)
  end.

(** A lookup that no other access to the cache overlaps. *)
Definition Fetch (s : ProcessStore) (pid : Z) : option positive * ProcessStore :=
  match Lookup (cache_ s) pid with
  | Some p => lock s p
  | None =>
      let p := fresh (dom (heap s)) in
      (Some p, mkProcessStore (emplace (cache_ s) pid p).1
                 (<[p := mkObject (Process_new pid (instance_ s)) 1]> (heap s)) (instance_ s))
  end.

(** [~Process]. *)
Definition destroy (s : ProcessStore) (p : positive) (o : Process) : ProcessStore :=
  mkProcessStore (erase (cache_ s) (pid_ o)) (delete p (heap s)) (instance_ s).

(** What threads do with the store and its objects. *)
Inductive store_step : ProcessStore -> ProcessStore -> Prop :=
| step_fetch s pid : store_step s (Fetch s pid).2
| step_copy s p o n :
    heap s !! p = Some (mkObject o (S n)) ->
    store_step s (set_heap s (<[p := mkObject o (S (S n))]> (heap s)))
| step_release s p o n :
    heap s !! p = Some (mkObject o (S n)) ->
    store_step s (set_heap s (<[p := mkObject o n]> (heap s)))
| step_resolve s p o n info :
    heap s !! p = Some (mkObject o n) ->
    store_step s (set_heap s (<[p := mkObject (ProcessInfoResolved info o) n]> (heap s)))
| step_destroy s p o :
    heap s !! p = Some (mkObject o 0) ->
    store_step s (destroy s p o).

Definition reachable (instance : bool) : ProcessStore -> Prop := rtc store_step (ProcessStore_new instance).

Definition any (_ : Z) : Prop := True.

(** The cache and the heap describe the same objects. *)
Record store_inv (s : ProcessStore) : Prop := {
  inv_cache : wf_umap any (cache_ s);
  inv_heap : forall p o, heap s !! p = Some o -> Lookup (cache_ s) (pid_ (obj o)) = Some p;
  inv_entry : forall pid p, Lookup (cache_ s) pid = Some p ->
                exists o, heap s !! p = Some o /\ pid_ (obj o) = pid
}.

Lemma store_inv_new instance : store_inv (ProcessStore_new instance).
Proof. split; simpl; [apply wf_nil|by intros p o|done]. Qed.

(** Changing the counts or the information of an object keeps the invariant. *)
Lemma store_inv_update s p o o' :
  store_inv s -> heap s !! p = Some o -> pid_ (obj o') = pid_ (obj o) ->
  store_inv (set_heap s (<[p := o']> (heap s))).
Proof.
  intros [Hc Hh He] Hp Hpid. split; simpl; [done| |].
  - intros q oq. rewrite lookup_insert. case_decide as E; [|by apply Hh].
    intros [= <-]. subst. rewrite Hpid. by apply Hh.
  - intros pid q Hq. destruct (He pid q Hq) as (oq & Ho & Hoq). rewrite lookup_insert.
    case_decide as E; [|by exists oq]. subst q. rewrite Hp in Ho. injection Ho as <-.
    exists o'. split; [done|congruence].
Qed.

Lemma store_inv_fetch s pid : store_inv s -> store_inv (Fetch s pid).2.
Proof.
  intros Hs. pose proof Hs as [Hc Hh He]. unfold Fetch.
  destruct (Lookup (cache_ s) pid) as [p|] eqn:Hl.
  - unfold lock. destruct (heap s !! p) as [[o [|n]]|] eqn:Ho; simpl; [done| |done].
    by apply (store_inv_update s p (mkObject o (S n))).
  - set (p := fresh (dom (heap s))).
    assert (heap s !! p = None) as Hp by (apply not_elem_of_dom, is_fresh).
    split; simpl; [by apply (wf_emplace any)| |].
    + intros q oq. rewrite lookup_insert, (Lookup_emplace any) by done. case_decide as E.
      * intros [= <-]. simpl. rewrite Hl. unfold keqb, KeyEq_Z. rewrite Z.eqb_refl. by subst q.
      * intros Hq. by rewrite (Hh q oq Hq).
    + intros pid' q. rewrite (Lookup_emplace any) by done. rewrite lookup_insert.
      destruct (Lookup (cache_ s) pid') as [q'|] eqn:Hl'.
      * intros [= <-]. destruct (He pid' q' Hl') as (o & Ho & Hpid).
        case_decide as E; [subst q'; congruence|by exists o].
      * unfold keqb, KeyEq_Z. destruct (Z.eqb_spec pid' pid) as [->|]; [|done].
        intros [= <-]. rewrite decide_True by done. by eexists.
Qed.

Lemma store_inv_destroy s p o n :
  store_inv s -> heap s !! p = Some (mkObject o n) -> store_inv (destroy s p o).
Proof.
  intros [Hc Hh He] Hp. split; simpl; [by apply (wf_erase any)| |].
  - intros q oq. rewrite lookup_delete. case_decide as E; [done|]. intros Hq.
    rewrite (Lookup_erase any) by done. unfold keqb, KeyEq_Z.
    destruct (Z.eqb_spec (pid_ (obj oq)) (pid_ o)) as [Epid|]; [|by apply Hh].
    apply Hh in Hq, Hp. simpl in Hp. rewrite Epid in Hq. congruence.
  - intros pid q. rewrite (Lookup_erase any) by done. unfold keqb, KeyEq_Z.
    destruct (Z.eqb_spec pid (pid_ o)) as [|Hne]; [done|]. intros Hq.
    destruct (He pid q Hq) as (oq & Ho & Hpid). exists oq. split; [|done].
    rewrite lookup_delete. case_decide as E; [|done]. subst q. rewrite Hp in Ho. injection Ho as <-. done.
Qed.

Lemma store_inv_step s s' : store_step s s' -> store_inv s -> store_inv s'.
Proof.
  intros Hstep Hs. destruct Hstep as [s pid|s p o n Hp|s p o n Hp|s p o n info Hp|s p o Hp].
  - by apply store_inv_fetch.
  - by apply (store_inv_update s p (mkObject o (S n))).
  - by apply (store_inv_update s p (mkObject o (S n))).
  - by apply (store_inv_update s p (mkObject o n)).
  - by apply (store_inv_destroy s p o 0).
Qed.

Lemma store_inv_reachable instance s : reachable instance s -> store_inv s.
Proof.
  intros Hr. assert (store_inv (ProcessStore_new instance)) as H0 by apply store_inv_new.
  induction Hr as [|x y z Hxy Hyz IH]; [done|]. apply IH. by apply (store_inv_step x).
Qed.

(** C31. One object per process, as long as the accesses to the cache, which has no
    lock, do not overlap: after any sequence of lookups, copies, drops, resolutions and
    destructors, made one at a time by whatever threads, two live objects with the same
    PID are the same object; and a lookup returns a pointer to an object with the
    requested PID, and null only between the drop of the last reference to that process
    and its destructor. *)
Theorem ProcessStore_unique (instance : bool) (s : ProcessStore) (Hs : reachable instance s) :
  (forall p q op oq, heap s !! p = Some op -> heap s !! q = Some oq ->
     pid_ (obj op) = pid_ (obj oq) -> p = q)
  /\ (forall pid, match (Fetch s pid).1 with
                  | Some p => exists o, heap (Fetch s pid).2 !! p = Some o
                                /\ pid_ (obj o) = pid /\ (0 < strong o)%nat
                  | None => exists p o, heap s !! p = Some (mkObject o 0) /\ pid_ o = pid
                  end).
Proof.
  pose proof (store_inv_reachable instance s Hs) as [Hc Hh He]. split.
  - intros p q op oq Hp Hq E. apply Hh in Hp, Hq. rewrite E in Hp. congruence.
  - intros pid. unfold Fetch. destruct (Lookup (cache_ s) pid) as [p|] eqn:Hl.
    + destruct (He pid p Hl) as ([o n] & Ho & Hpid). unfold lock. rewrite Ho. destruct n as [|n]; simpl.
      * by exists p, o.
      * exists (mkObject o (S (S n))). rewrite lookup_insert, decide_True by done. split_and!; [done..|simpl; lia].
    + simpl. rewrite lookup_insert, decide_True by done. eexists. split_and!; [done..|simpl; lia].
Qed.

Lemma ProcessStore_unique_witness :
  let s := (Fetch (Fetch (ProcessStore_new true) 7).2 9).2 in
  exists o, heap (Fetch s 7).2 !! 1%positive = Some o /\ pid_ (obj o) = 7.
Proof.
  assert (reachable true (Fetch (Fetch (ProcessStore_new true) 7).2 9).2) as Hr.
  { apply (rtc_l _ _ _ _ (step_fetch _ 7)), (rtc_l _ _ _ _ (step_fetch _ 9)), rtc_refl. }
  destruct (ProcessStore_unique true _ Hr) as [_ H7]. specialize (H7 7).
  vm_compute in H7. destruct H7 as (o & Ho & Hpid & _). exists o. split; [|exact Hpid].
  vm_compute. exact Ho.
Defined.
