(* ===== verification/Connection.v ===== *)
(** * Endpoints and connections

    The classes [Endpoint], [ContainerEndpoint] and [Connection] of
    [collector/lib/NetworkConnection.h] with their printers, and the parsers
    [Address::parse] and [IPNet::parse] of [NetworkConnection.cpp].  [getaddrinfo]
    and [inet_ntop] are parameters of the operations that call them. *)

From S2P Require Import Prelude Containers Utility Address IPNet Process.

(** ** Data *)

(** The underlying type of the enumeration is [uint8_t]. *)
Module L4Proto.
Definition t : Type := Z.
Definition UNKNOWN : t := 0.
Definition TCP : t := 1.
Definition UDP : t := 2.
Definition ICMP : t := 3.
End L4Proto.

Definition L4ProtoPortPair : Type := L4Proto.t * Z.

Record Endpoint := mkEndpoint {
  network_ : IPNet;
  port_ : Z
}.

(** A shared pointer to a process: its identity and the object it points to. *)
Record IProcess := mkIProcess {
  ip_ptr : positive;
  ip_obj : Process
}.

Record ContainerEndpoint := mkContainerEndpoint {
  cep_container : str;
  cep_endpoint : Endpoint;
  cep_l4proto : L4Proto.t;
  cep_originator : option IProcess
}.

Record Connection := mkConnection {
  container_ : str;
  local_ : Endpoint;
  remote_ : Endpoint;
  flags_ : Z
}.

#[export] Instance Endpoint_eq_dec : EqDecision Endpoint.
Proof. solve_decision. Defined.

#[export] Instance Connection_eq_dec : EqDecision Connection.
Proof. solve_decision. Defined.

(** ** Operations *)

Section Operations.
Context `{HostEndian}.

Definition Endpoint_default : Endpoint := mkEndpoint IPNet_default 0.
Definition Endpoint_addr (address : Address) (port : Z) : Endpoint :=
  mkEndpoint (IPNet_of_address address) port.
Definition Endpoint_net (network : IPNet) (port : Z) : Endpoint := mkEndpoint network port.

Definition ep_network (e : Endpoint) : IPNet := network_ e.
Definition ep_address (e : Endpoint) : Address := address_ (network_ e).
Definition ep_port (e : Endpoint) : Z := port_ e.
Definition ep_IsNull (e : Endpoint) : bool := (port_ e =? 0) && net_IsNull (network_ e).

Definition ep_eqb (e f : Endpoint) : bool :=
  (port_ e =? port_ f) && ipnet_eqb (network_ e) (network_ f).

Definition ep_hash (e : Endpoint) : Z := HashAll (ipnet_hash (network_ e)) [port_ e].

(** [Connection(container, local, remote, l4proto, is_server)]. *)
Definition Connection_make (container : str) (local remote : Endpoint) (l4proto : L4Proto.t)
    (is_server : bool) : Connection :=
  mkConnection container local remote
    (wrap 8 (Z.lor (Z.shiftl l4proto 1) (if is_server then 1 else 0))).

Definition Connection_default : Connection := mkConnection [] Endpoint_default Endpoint_default 0.

Definition is_server (c : Connection) : bool := negb (Z.land (flags_ c) 0x1 =? 0).
Definition l4proto (c : Connection) : L4Proto.t := Z.shiftr (flags_ c) 1.

Definition conn_eqb (c d : Connection) : bool :=
  bool_decide (container_ c = container_ d) && ep_eqb (local_ c) (local_ d)
  && ep_eqb (remote_ c) (remote_ d) && (flags_ c =? flags_ d).

(** Originators are compared by pointer. *)
Definition originator_eqb (p q : option IProcess) : bool :=
  match p, q with
  | Some p, Some q => bool_decide (ip_ptr p = ip_ptr q)
  | None, None => true
  | _, _ => false
  end.

Definition cep_eqb (c d : ContainerEndpoint) : bool :=
  bool_decide (cep_container c = cep_container d) && ep_eqb (cep_endpoint c) (cep_endpoint d)
  && (cep_l4proto c =? cep_l4proto d) && originator_eqb (cep_originator c) (cep_originator d).

(** [AdvertisedEndpointEquality]: only the advertised attributes of the
    originators are compared. *)
Definition AdvertisedEndpointEquality (lhs rhs : ContainerEndpoint) : bool :=
  match cep_originator lhs, cep_originator rhs with
  | Some p, Some q =>
      if negb (bool_decide (comm (ip_obj p) = comm (ip_obj q)))
         || negb (bool_decide (exe_path (ip_obj p) = exe_path (ip_obj q)))
         || negb (bool_decide (args (ip_obj p) = args (ip_obj q)))
      then false
      else bool_decide (cep_container lhs = cep_container rhs)
           && ep_eqb (cep_endpoint lhs) (cep_endpoint rhs) && (cep_l4proto lhs =? cep_l4proto rhs)
  | None, None =>
      bool_decide (cep_container lhs = cep_container rhs)
      && ep_eqb (cep_endpoint lhs) (cep_endpoint rhs) && (cep_l4proto lhs =? cep_l4proto rhs)
  | _, _ => false
  end.

Section Hashes.
(** [std::hash<std::string>]. *)
Context (hash_string : str -> Z).

Definition conn_hash (c : Connection) : Z :=
  HashAll (hash_string (container_ c)) [ep_hash (local_ c); ep_hash (remote_ c); flags_ c].
Definition cep_hash (c : ContainerEndpoint) : Z :=
  HashAll (hash_string (cep_container c)) [ep_hash (cep_endpoint c); cep_l4proto c].
Definition L4ProtoPortPair_hash (pp : L4ProtoPortPair) : Z := HashAll pp.1 [pp.2].
End Hashes.

Definition IsRelevantConnection (conn : Connection) : bool := negb (IsLocal (ep_address (remote_ conn))).
Definition IsRelevantEndpoint (ep : Endpoint) : bool := negb (IsLocal (ep_address ep)).

Definition IsEphemeralPort (port : Z) : Z :=
  if 49152 <=? port then 4
  else if 32768 <=? port then 3
  else if (1025 <=? port) && (port <=? 5000) then 2
  else if port =? 1024 then 1
  else 0.

(** ** Printing *)

Section Printing.
(** [inet_ntop(af, data)]. *)
Context (inet_ntop : Z -> list Z -> option str).

Definition AF_INET : Z := 2.
Definition AF_INET6 : Z := 10.

Definition addr_print (a : Address) : str :=
  let af := if Family.eqb (family_ a) Family.IPV4 then AF_INET else AF_INET6 in
  match inet_ntop af (data_bytes a) with
  | None => lit "<invalid address>"
  | Some s => s
  end.

Definition net_print (n : IPNet) : str := addr_print (address_ n) ++ lit "/" ++ show_nat (bits_ n).

Definition ep_print (e : Endpoint) : str :=
  let n := network_ e in
  let v6 := Family.eqb (net_family n) Family.IPV6 in
  (if bits n =? 8 * length_of (address_ n) then
     if v6 then lit "[" ++ addr_print (address_ n) ++ lit "]" else addr_print (address_ n)
   else
     if v6 then lit "[" ++ net_print n ++ lit "]" else net_print n)
  ++ lit ":" ++ show_nat (port_ e).

(** A [uint8_t] prints as a character. *)
Definition l4proto_print (p : L4Proto.t) : str :=
  if p =? L4Proto.TCP then lit "tcp"
  else if p =? L4Proto.UDP then lit "udp"
  else if p =? L4Proto.ICMP then lit "icmp"
  else lit "unknown(" ++ [chr p] ++ lit ")".

Definition cep_print (c : ContainerEndpoint) : str :=
  match cep_originator c with
  | Some p => cep_container c ++ lit ": " ++ ep_print (cep_endpoint c) ++ lit ": " ++ process_print (ip_obj p)
  | None => cep_container c ++ lit ": " ++ ep_print (cep_endpoint c)
  end.

Definition conn_print (c : Connection) : str :=
  container_ c ++ lit ": " ++ ep_print (local_ c)
  ++ (if is_server c then lit " <- " else lit " -> ")
  ++ ep_print (remote_ c) ++ lit " [" ++ l4proto_print (l4proto c)
  ++ (if Family.eqb (family (ep_address (local_ c))) Family.IPV6 then lit "6" else [])
  ++ lit "]".
End Printing.

(** ** Parsing *)

Record sockaddr_storage := mkSockaddr { ss_family : Z; ss_addr : list Z }.

Section Parsing.
(** [getaddrinfo(address, NULL, AI_NUMERICHOST)]: the first address of the
    result, if there is one. *)
Context (getaddrinfo : str -> option sockaddr_storage).

(** A C string ends at its first NUL. *)
Definition c_str (s : str) : str :=
  match find_char "000"%char s with Some n => take n s | None => s end.

Definition parse_address (address : str) : option sockaddr_storage := getaddrinfo address.

Definition get_family (sa : sockaddr_storage) : Family.t :=
  if ss_family sa =? AF_INET then Family.IPV4
  else if ss_family sa =? AF_INET6 then Family.IPV6
  else Family.UNKNOWN.

Definition get_raw_address (sa : sockaddr_storage) : option (list Z) :=
  if ss_family sa =? AF_INET then Some (ss_addr sa)
  else if ss_family sa =? AF_INET6 then Some (ss_addr sa)
  else None.

Definition Address_parse (address_string : str) : option Address :=
  match parse_address (c_str address_string) with
  | Some sockaddr =>
      match get_raw_address sockaddr with
      | None => None
      | Some raw_address => Some (Address_bytes (get_family sockaddr) raw_address)
      end
  | None => None
  end.

Definition IPNet_parse (ipnet_string : str) : option IPNet :=
  let parts :=
    match find_char "/"%char ipnet_string with
    | Some slash =>
        match stol (drop (slash + 1) ipnet_string) with
        | Some v => Some (take slash ipnet_string, wrap 32 v)
        | None => None
        end
    | None => Some (ipnet_string, 0)
    end in
  match parts with
  | None => None
  | Some (address_string, prefix_length) =>
      match Address_parse address_string with
      | None => None
      | Some address => Some (IPNet_make address prefix_length (negb (prefix_length =? 0)))
      end
  end.
End Parsing.
End Operations.

(** ** Lemmas *)

(** *** Endpoints and connections as container keys

    A class [P] of networks on which [operator==] is an equivalence lifts to
    the endpoints and connections over [P]. *)

#[export] Instance KeyEq_Endpoint : KeyEq Endpoint := ep_eqb.
#[export] Instance KeyEq_Connection : KeyEq Connection := conn_eqb.
#[export] Instance KeyEq_ContainerEndpoint : KeyEq ContainerEndpoint := cep_eqb.
#[export] Instance KeyEq_L4ProtoPortPair : KeyEq L4ProtoPortPair := dec_keqb.
#[export] Instance KeyEqLaws_L4ProtoPortPair P : KeyEqLaws L4ProtoPortPair P := dec_KeyEqLaws P.

(** The equality of the advertised endpoints, for [AdvertisedEndpointMap]. *)
Definition KeyEq_Advertised : KeyEq ContainerEndpoint := AdvertisedEndpointEquality.

Definition ep_class (P : IPNet -> Prop) (e : Endpoint) : Prop := P (network_ e).
Definition conn_class (P : IPNet -> Prop) (c : Connection) : Prop :=
  ep_class P (local_ c) /\ ep_class P (remote_ c).
Definition cep_class (P : IPNet -> Prop) (c : ContainerEndpoint) : Prop := ep_class P (cep_endpoint c).

Lemma ep_eqb_true e f : ep_eqb e f = true <-> port_ e = port_ f /\ ipnet_eqb (network_ e) (network_ f) = true.
Proof. unfold ep_eqb. by rewrite andb_true_iff, Z.eqb_eq. Qed.

Lemma conn_eqb_true c d :
  conn_eqb c d = true <->
  container_ c = container_ d /\ ep_eqb (local_ c) (local_ d) = true
  /\ ep_eqb (remote_ c) (remote_ d) = true /\ flags_ c = flags_ d.
Proof. unfold conn_eqb. rewrite !andb_true_iff, bool_decide_eq_true, Z.eqb_eq. tauto. Qed.

Section KeyLaws.
Context (P : IPNet -> Prop) `{!KeyEqLaws IPNet P}.

#[export] Instance KeyEqLaws_Endpoint : KeyEqLaws Endpoint (ep_class P).
Proof.
  split; unfold keqb, KeyEq_Endpoint, ep_class; intros *; rewrite ?ep_eqb_true.
  - intros Hk. split; [done|]. by apply (keqb_refl (P := P)).
  - intros Ha Hb [-> E]. split; [done|]. by apply (keqb_sym (P := P)).
  - intros Ha Hb Hc [-> E] [-> F]. split; [done|]. by apply (keqb_trans (P := P) _ (network_ b)).
Qed.

#[export] Instance KeyEqLaws_Connection : KeyEqLaws Connection (conn_class P).
Proof.
  split; unfold keqb, KeyEq_Connection, conn_class; intros *; rewrite ?conn_eqb_true.
  - intros [Hl Hr]. split_and!; try done; by apply (keqb_refl (P := ep_class P)).
  - intros [? ?] [? ?] (-> & El & Er & ->). split_and!; try done; by apply (keqb_sym (P := ep_class P)).
  - intros [? ?] [? ?] [? ?] (-> & El & Er & ->) (-> & Fl & Fr & ->).
    split_and!; try done; [by apply (keqb_trans (P := ep_class P) _ (local_ b))
                          |by apply (keqb_trans (P := ep_class P) _ (remote_ b))].
Qed.

Lemma ep_hash_equal (Hh : HashKeys IPNet ipnet_hash P) e f :
  ep_class P e -> ep_class P f -> ep_eqb e f = true -> ep_hash e = ep_hash f.
Proof.
  intros He Hf [Ep En]%ep_eqb_true. unfold ep_hash. rewrite Ep. by rewrite (hash_equal (P := P) (network_ e) (network_ f)).
Qed.

Lemma conn_hash_equal (Hh : HashKeys IPNet ipnet_hash P) hash_string c d :
  conn_class P c -> conn_class P d -> conn_eqb c d = true -> conn_hash hash_string c = conn_hash hash_string d.
Proof.
  intros [Hl Hr] [Hl' Hr'] (Ec & El & Er & Ef)%conn_eqb_true. unfold conn_hash. rewrite Ec, Ef.
  by rewrite (ep_hash_equal Hh (local_ c) (local_ d)), (ep_hash_equal Hh (remote_ c) (remote_ d)).
Qed.

Lemma originator_eqb_equiv :
  (forall p, originator_eqb p p = true)
  /\ (forall p q, originator_eqb p q = true -> originator_eqb q p = true)
  /\ (forall p q r, originator_eqb p q = true -> originator_eqb q r = true -> originator_eqb p r = true).
Proof.
  split_and!; intros *; unfold originator_eqb; repeat case_match; try done;
    rewrite ?bool_decide_eq_true; congruence.
Qed.

#[export] Instance KeyEqLaws_ContainerEndpoint : KeyEqLaws ContainerEndpoint (cep_class P).
Proof.
  destruct originator_eqb_equiv as (Or & Os & Ot).
  split; unfold keqb, KeyEq_ContainerEndpoint, cep_class, cep_eqb; intros *;
    rewrite ?andb_true_iff, ?bool_decide_eq_true, ?Z.eqb_eq.
  - intros Hk. split_and!; try done. by apply (keqb_refl (P := ep_class P)).
  - intros ? ? [[[-> E] ->] O]. split_and!; try done; [by apply (keqb_sym (P := ep_class P))|auto].
  - intros ? ? ? [[[-> E] ->] O] [[[-> F] ->] O'].
    split_and!; try done; [by apply (keqb_trans (P := ep_class P) _ (cep_endpoint b))|eauto].
Qed.

(** The attributes of an originator that are advertised. *)
Definition advertised (p : option IProcess) : option (str * str * str) :=
  (fun p => (comm (ip_obj p), exe_path (ip_obj p), args (ip_obj p))) <$> p.

Lemma AdvertisedEndpointEquality_true c d :
  AdvertisedEndpointEquality c d = true <->
  advertised (cep_originator c) = advertised (cep_originator d) /\ cep_container c = cep_container d
  /\ ep_eqb (cep_endpoint c) (cep_endpoint d) = true /\ cep_l4proto c = cep_l4proto d.
Proof.
  unfold AdvertisedEndpointEquality, advertised.
  destruct (cep_originator c) as [p|], (cep_originator d) as [q|]; simpl; try (split; [done|by intros [? _]]).
  - rewrite <- !negb_andb. destruct (_ && _ && _) eqn:E; simpl;
      rewrite ?andb_true_iff, ?andb_false_iff, ?bool_decide_eq_true, ?bool_decide_eq_false in E;
      rewrite ?andb_true_iff, ?bool_decide_eq_true, ?Z.eqb_eq.
    + destruct E as [[-> ->] ->]. tauto.
    + split; [done|]. intros (E' & _). injection E' as ? ? ?. tauto.
  - rewrite !andb_true_iff, bool_decide_eq_true, Z.eqb_eq. tauto.
Qed.

Lemma KeyEqLaws_Advertised : @KeyEqLaws ContainerEndpoint KeyEq_Advertised (cep_class P).
Proof.
  split; unfold keqb, KeyEq_Advertised, cep_class; intros *; rewrite ?AdvertisedEndpointEquality_true.
  - intros Hk. split_and!; try done. by apply (keqb_refl (P := ep_class P)).
  - intros ? ? (-> & -> & E & ->). split_and!; try done. by apply (keqb_sym (P := ep_class P)).
  - intros ? ? ? (-> & -> & E & ->) (-> & -> & F & ->).
    split_and!; try done. by apply (keqb_trans (P := ep_class P) _ (cep_endpoint b)).
Qed.
End KeyLaws.

(** Connections over legitimate keys are legitimate keys. *)
#[export] Instance HashKeys_Connection `{HostEndian} (hash_string : str -> Z) P `{!HashKeys IPNet ipnet_hash P} :
  HashKeys Connection (conn_hash hash_string) (conn_class P).
Proof. pose proof (hash_laws (K := IPNet) (P := P)). split; [apply _|]. intros a b. by apply conn_hash_equal. Qed.

(** *** Flags *)

Lemma lor_shiftl_1 p (b : bool) : 0 <= p -> Z.lor (Z.shiftl p 1) (if b then 1 else 0) = 2 * p + (if b then 1 else 0).
Proof.
  intros Hp. rewrite Z.shiftl_mul_pow2 by lia. change (2 ^ 1) with 2.
  pose proof (Z.add_lor_land (p * 2) (if b then 1 else 0)) as E.
  assert (Z.land (p * 2) (if b then 1 else 0) = 0) as E0; [|lia]. clear E.
  destruct b; [|apply Z.land_0_r].
  change 1 with (Z.ones 1). rewrite Z.land_ones by lia. change (2 ^ 1) with 2.
  apply Z.mod_mul. lia.
Qed.

Lemma flags_value container local remote p s :
  0 <= p < 128 -> flags_ (Connection_make container local remote p s) = 2 * p + (if s then 1 else 0).
Proof.
  intros Hp. cbn [flags_ Connection_make]. rewrite lor_shiftl_1 by lia. unfold wrap.
  apply Z.mod_small. destruct s; lia.
Qed.

Lemma is_server_make container local remote p s :
  0 <= p < 128 -> is_server (Connection_make container local remote p s) = s.
Proof.
  intros Hp. unfold is_server. rewrite flags_value by done.
  assert (forall x, Z.land x 1 = x mod 2) as -> by (intros x; apply (Z.land_ones x 1); lia).
  replace (2 * p + (if s then 1 else 0)) with ((if s then 1 else 0) + p * 2) by lia.
  rewrite Z.mod_add by lia. by destruct s.
Qed.

Lemma l4proto_make container local remote p s :
  0 <= p < 128 -> l4proto (Connection_make container local remote p s) = p.
Proof.
  intros Hp. unfold l4proto. rewrite flags_value by done. rewrite Z.shiftr_div_pow2 by lia.
  change (2 ^ 1) with 2. symmetry. apply (Z.div_unique _ _ _ (if s then 1 else 0)); destruct s; lia.
Qed.


(** *** Parsing what was printed *)

Section RoundTrip.
Context `{HostEndian}.
Context (inet_ntop : Z -> list Z -> option str) (getaddrinfo : str -> option sockaddr_storage).

Definition af_of (f : Family.t) : Z := if Family.eqb f Family.IPV4 then AF_INET else AF_INET6.

(** What is relied on of the C library: the text [inet_ntop] prints for the
    bytes of an address is numeric host text, in which [getaddrinfo] finds the
    same family and bytes. *)
Record inet_laws : Prop := {
  ntop_text : forall f bs, f <> Family.UNKNOWN -> bytes_ok bs -> length bs = 16%nat ->
    exists s, inet_ntop (af_of f) bs = Some s /\ ~ In "/"%char s /\ ~ In "000"%char s
              /\ exists sa, getaddrinfo s = Some sa /\ ss_family sa = af_of f
                   /\ take (Z.to_nat (Length f)) (ss_addr sa) = take (Z.to_nat (Length f)) bs
}.

(** The bytes past the length of the family are zero. *)
Definition canonical (a : Address) : Prop :=
  drop (Z.to_nat (Length (family_ a))) (data_bytes a)
  = drop (Z.to_nat (Length (family_ a))) (replicate 16 0).

Lemma Address_bytes_data a bs :
  wf_addr a -> canonical a ->
  take (Z.to_nat (Length (family_ a))) bs = take (Z.to_nat (Length (family_ a))) (data_bytes a) ->
  Address_bytes (family_ a) bs = a.
Proof.
  intros [H1 H2] Hc E. unfold Address_bytes. rewrite E, <- Hc, take_drop. unfold data_bytes.
  rewrite take_app_le, drop_app_ge by (rewrite length_store64; lia).
  rewrite length_store64, Nat.sub_diag, drop_0.
  rewrite !take_ge by (rewrite length_store64; lia). rewrite !load64_store64 by done.
  by destruct a as [[? ?] ?].
Qed.

Lemma get_family_af f sa :
  f <> Family.UNKNOWN -> ss_family sa = af_of f ->
  get_family sa = f /\ get_raw_address sa = Some (ss_addr sa).
Proof. intros Hf E. unfold get_family, get_raw_address. rewrite E. by destruct f. Qed.

Context (Hinet : inet_laws).

Lemma addr_print_parse a :
  wf_addr a -> canonical a -> family_ a <> Family.UNKNOWN ->
  Address_parse getaddrinfo (addr_print inet_ntop a) = Some a /\ ~ In "/"%char (addr_print inet_ntop a).
Proof.
  intros Hw Hc Hf.
  destruct (ntop_text Hinet (family_ a) (data_bytes a) Hf (data_bytes_ok a Hw) (length_data_bytes a))
    as (s & Es & Hs & Hz & sa & Esa & Hfam & Hbytes).
  unfold addr_print. fold (af_of (family_ a)). rewrite Es. split; [|done].
  unfold Address_parse, c_str, parse_address. apply find_char_None in Hz. rewrite Hz, Esa.
  destruct (get_family_af (family_ a) sa Hf Hfam) as [-> ->].
  by rewrite Address_bytes_data.
Qed.

(** Parsing networks: [IPNet::parse] reads back what the printer
    wrote, the same address, prefix length and masked words, for every network
    whose prefix fits its family; the parsed network is marked as a single address
    exactly when the prefix length is not 0, and a plain address is read as a
    network with the empty prefix, which contains every address of its family. *)
Theorem IPNet_parse_print (n : IPNet) (Hn : wf_net n) (Hc : canonical (address_ n))
    (Hf : family_ (address_ n) <> Family.UNKNOWN) :
  IPNet_parse getaddrinfo (net_print inet_ntop n)
  = Some (mkIPNet (address_ n) (mask_ n) (bits_ n) (negb (bits_ n =? 0)))
  /\ IPNet_parse getaddrinfo (addr_print inet_ntop (address_ n))
     = Some (mkIPNet (address_ n) (0, 0) 0 false)
  /\ (forall b, family_ b = family_ (address_ n) ->
        net_contains (mkIPNet (address_ n) (0, 0) 0 false) b = true).
Proof.
  destruct (addr_print_parse (address_ n) (wf_net_addr n Hn) Hc Hf) as [Ep Hs].
  pose proof (wf_net_128 n Hn). pose proof (wf_net_bits n Hn). split_and!.
  - unfold IPNet_parse, net_print. change (lit "/") with ["/"%char]. cbn [app].
    rewrite find_char_app by done.
    rewrite take_app_length, drop_app_ge by lia.
    replace (length (addr_print inet_ntop (address_ n)) + 1 - length (addr_print inet_ntop (address_ n)))%nat
      with 1%nat by lia. cbn [drop]. rewrite drop_0.
    rewrite <- (app_nil_r (show_nat (bits_ n))), stol_show by (done || lia). cbv iota.
    unfold wrap. rewrite Z.mod_small by lia. rewrite Ep. unfold IPNet_make, family.
    destruct (Z.ltb_spec (Length (family_ (address_ n)) * 8) (bits_ n)); [lia|].
    by rewrite <- (wf_net_mask n Hn).
  - unfold IPNet_parse. apply find_char_None in Hs. rewrite Hs, Ep. unfold IPNet_make, family.
    pose proof (Length_bound (family_ (address_ n))).
    destruct (Z.ltb_spec (Length (family_ (address_ n)) * 8) 0); [lia|]. reflexivity.
  - intros b Hb. unfold net_contains, family. cbn [address_ bits_ mask_]. rewrite Hb, Family_eqb_refl. reflexivity.
Qed.
End RoundTrip.

Section KeyTheorem.
Context `{HostEndian}.

Lemma ep_eqb_addr e f :
  ep_class addr_net e -> ep_class addr_net f -> ep_eqb e f = true <-> e = f.
Proof.
  intros He Hf. rewrite ep_eqb_true. split; [|intros ->; split; [done|by apply addr_net_eq]].
  intros [Ep En]. apply addr_net_eq in En; [|done..]. destruct e, f; simpl in *. congruence.
Qed.

Lemma ep_class_addr a p : wf_addr a -> ep_class addr_net (Endpoint_addr a p).
Proof. intros. split; [by apply wf_IPNet_of_address|done]. Qed.

Lemma conn_eqb_addr c d :
  conn_class addr_net c -> conn_class addr_net d -> conn_eqb c d = true <-> c = d.
Proof.
  intros [Hl Hr] [Hl' Hr']. rewrite conn_eqb_true, !ep_eqb_addr by done.
  destruct c, d; simpl. naive_solver.
Qed.

(** Connections: the packed flags give back the protocol and role
    a connection was built with, for every protocol of the enumeration; between
    connections of single addresses [operator==] is the equality of the objects, and
    equal connections have equal hashes. *)
Theorem Connection_key_spec (hash_string : str -> Z) :
  (forall container local remote p s, 0 <= p <= L4Proto.ICMP ->
     is_server (Connection_make container local remote p s) = s
     /\ l4proto (Connection_make container local remote p s) = p)
  /\ (forall c d, conn_class addr_net c -> conn_class addr_net d ->
        (conn_eqb c d = true <-> c = d)
        /\ (conn_eqb c d = true -> conn_hash hash_string c = conn_hash hash_string d)).
Proof.
  split.
  - unfold L4Proto.ICMP. intros. split; [apply is_server_make|apply l4proto_make]; lia.
  - intros c d Hc Hd. rewrite conn_eqb_addr by done. split; [done|by intros ->].
Qed.
End KeyTheorem.

(** ** Witnesses *)

Module Witnesses.
(** A text form of addresses: a family letter and two letters per byte. *)
Definition letter (n : Z) : ascii := chr (65 + n).
Definition encode_byte (b : Z) : str := [letter (b / 16); letter (b mod 16)].

Fixpoint decode_bytes (s : str) : list Z :=
  match s with
  | a :: b :: s => (code a - 65) * 16 + (code b - 65) :: decode_bytes s
  | _ => []
  end.

Definition ntop (af : Z) (bs : list Z) : option str :=
  Some ((if af =? AF_INET then "4"%char else "6"%char) :: flat_map encode_byte bs).

Definition gai (s : str) : option sockaddr_storage :=
  match s with
  | c :: s => Some (mkSockaddr (if bool_decide (c = "4"%char) then AF_INET else AF_INET6) (decode_bytes s))
  | [] => None
  end.

Lemma code_letter n : 0 <= n < 16 -> code (letter n) = 65 + n.
Proof. intros. apply code_chr. lia. Qed.

Lemma decode_encode bs : bytes_ok bs -> decode_bytes (flat_map encode_byte bs) = bs.
Proof.
  induction 1 as [|b bs Hb _ IH]; [done|]. cbn [flat_map encode_byte app decode_bytes].
  rewrite IH, !code_letter by (Z.to_euclidean_division_equations; lia).
  f_equal. Z.to_euclidean_division_equations; lia.
Qed.

Lemma encode_letters c bs : bytes_ok bs -> code c < 65 -> ~ In c (flat_map encode_byte bs).
Proof.
  intros Hb Hc Hin. apply in_flat_map in Hin as (b & Hbin & Hin).
  unfold bytes_ok in Hb. rewrite List.Forall_forall in Hb. specialize (Hb b Hbin).
  destruct Hin as [<-|[<-|[]]]; rewrite code_letter in Hc; Z.to_euclidean_division_equations; lia.
Qed.

Lemma inet_laws_letters : inet_laws ntop gai.
Proof.
  split. intros f bs Hf Hb Hl. eexists. split; [reflexivity|].
  split; [|split].
  - intros [E|Hin]; [by destruct f|]. by apply (encode_letters "/"%char bs) in Hin.
  - intros [E|Hin]; [by destruct f|]. by apply (encode_letters "000"%char bs) in Hin.
  - eexists. split; [reflexivity|]. cbn [ss_family ss_addr]. rewrite decode_encode by done.
    split; [by destruct f|done].
Qed.

#[local] Existing Instance little_endian.

Lemma IPNet_parse_print_witness :
  IPNet_parse gai (net_print ntop (IPNet_make (Address_octets 10 1 0 0) 16 false))
  = Some (IPNet_make (Address_octets 10 1 0 0) 16 true).
Proof.
  refine (proj1 (IPNet_parse_print ntop gai inet_laws_letters
                   (IPNet_make (Address_octets 10 1 0 0) 16 false) _ _ _)).
  - apply wf_IPNet_make; [apply wf_Address_octets|lia].
  - vm_compute. reflexivity.
  - discriminate.
Defined.
End Witnesses.
