(* ===== verification/ExternalIPs.v ===== *)
(** * Configuration of external IPs

    [collector/lib/ExternalIPsConfig.h] and [ExternalIPsConfig.cpp], with the part
    of the runtime configuration message they and the notifier read. *)

From S2P Require Import Prelude.

(** [sensor::ExternalIpsDirection]: the values the code distinguishes. *)
Inductive ExternalIpsDirection : Set := PROTO_INGRESS | PROTO_EGRESS | PROTO_OTHER.

(** The fields of [sensor::CollectorConfig] that are read. *)
Record RuntimeConfig := mkRuntimeConfig {
  rc_external_ips_enabled : bool;       (* enabled() == ENABLED *)
  rc_external_ips_direction : ExternalIpsDirection;
  rc_max_connections_per_minute : Z
}.

(** [ExternalIPsConfig::Direction] is a bit set. *)
Definition NONE : Z := 0.
Definition INGRESS : Z := Z.shiftl 1 0.
Definition EGRESS : Z := Z.shiftl 1 1.
Definition BOTH : Z := Z.lor INGRESS EGRESS.

Record ExternalIPsConfig := mkExternalIPsConfig { direction_enabled_ : Z }.

Definition IsEnabled (c : ExternalIPsConfig) (direction : Z) : bool :=
  Z.land direction (direction_enabled_ c) =? direction.

Definition GetDirection (c : ExternalIPsConfig) : Z := direction_enabled_ c.

Definition ExternalIPsConfig_none : ExternalIPsConfig := mkExternalIPsConfig NONE.

Definition ExternalIPsConfig_make (runtime_config : option RuntimeConfig) (default_enabled : bool)
  : ExternalIPsConfig :=
  match runtime_config with
  | None => mkExternalIPsConfig (if default_enabled then BOTH else NONE)
  | Some rc =>
      if negb (rc_external_ips_enabled rc) then mkExternalIPsConfig NONE
      else
        mkExternalIPsConfig
          (match rc_external_ips_direction rc with
           | PROTO_INGRESS => INGRESS
           | PROTO_EGRESS => EGRESS
           | PROTO_OTHER => BOTH
           end)
  end.

Definition ExternalIPsConfig_print (c : ExternalIPsConfig) : str :=
  lit "direction("
  ++ (if GetDirection c =? NONE then lit "NONE"
      else if GetDirection c =? INGRESS then lit "INGRESS"
      else if GetDirection c =? EGRESS then lit "EGRESS"
      else if GetDirection c =? BOTH then lit "BOTH"
      else lit "invalid")
  ++ lit ")".

(** External IPs: a direction is enabled exactly when the runtime
    configuration enables the feature for it, or, without one, when the default does;
    both directions are enabled together exactly when each is. *)
Theorem ExternalIPs_spec (rc : option RuntimeConfig) (default_enabled : bool) :
  let c := ExternalIPsConfig_make rc default_enabled in
  let on d := match rc with
              | None => default_enabled
              | Some rc => rc_external_ips_enabled rc
                           && match rc_external_ips_direction rc with
                              | PROTO_INGRESS => d =? INGRESS
                              | PROTO_EGRESS => d =? EGRESS
                              | PROTO_OTHER => true
                              end
              end in
  IsEnabled c INGRESS = on INGRESS /\ IsEnabled c EGRESS = on EGRESS
  /\ IsEnabled c BOTH = IsEnabled c INGRESS && IsEnabled c EGRESS.
Proof. destruct rc as [[[] [] m]|], default_enabled; vm_compute; done. Qed.
