(* ===== verification/ConnDelta.v ===== *)
(** * Connection status and state differences

    The class [ConnStatus] and the templates of [collector/lib/ConnTracker.h]
    that compare a new snapshot of the tracked objects with the one reported before:
    [UpdateOldState], [ComputeDelta], [ComputeDeltaAfterglow] and its helpers, and
    [CloseConnections] of [ConnTracker.cpp].  The templates are instantiated for
    connections and for endpoints; here they are generic in the key type. *)

From S2P Require Import Prelude Containers Stats.

(** ** Status *)

Record ConnStatus := mkConnStatus { status_data : Z }.

#[export] Instance ConnStatus_eq_dec : EqDecision ConnStatus.
Proof. solve_decision. Defined.

Definition kActiveFlag : Z := 0x8000000000000000.

Definition MakeActive (data : Z) (active : bool) : Z :=
  if active then Z.lor data kActiveFlag else Z.land data (wnot 64 kActiveFlag).

Definition ConnStatus_default : ConnStatus := mkConnStatus 0.

Definition ConnStatus_make (microtimestamp : Z) (active : bool) : ConnStatus :=
  mkConnStatus (MakeActive (wrap 64 microtimestamp) active).

Definition LastActiveTime (s : ConnStatus) : Z :=
  to_signed 64 (Z.land (status_data s) (wnot 64 kActiveFlag)).

Definition IsActive (s : ConnStatus) : bool := negb (Z.land (status_data s) kActiveFlag =? 0).

Definition SetActive (active : bool) (s : ConnStatus) : ConnStatus :=
  mkConnStatus (MakeActive (status_data s) active).

Definition MergeFrom (s other : ConnStatus) : ConnStatus :=
  mkConnStatus (Z.max (status_data s) (status_data other)).

Definition WithStatus (s : ConnStatus) (active : bool) : ConnStatus :=
  mkConnStatus (MakeActive (status_data s) active).

Definition IsInAfterglowPeriod (s : ConnStatus) (time_micros afterglow_period_micros : Z) : bool :=
  time_micros - LastActiveTime s <? afterglow_period_micros.

Definition WasRecentlyActive (s : ConnStatus) (time_micros afterglow_period_micros : Z) : bool :=
  IsActive s || IsInAfterglowPeriod s time_micros afterglow_period_micros.

(** ** Differences *)

Section Delta.
Context {T : Type} `{!KeyEq T}.
Abbreviation state := (umap T ConnStatus).

(** The second loop of [UpdateOldState]. *)
Definition insert_new (old_state : state) (conn : T * ConnStatus) : state :=
  let '(m, inserted) := emplace old_state conn.1 conn.2 in
  if inserted then m else assign m conn.1 conn.2.

Definition UpdateOldState (old_state new_state : state) (time_micros afterglow_period_micros : Z) : state :=
  let old_state := update_entries
    (fun _ s => if IsInAfterglowPeriod s time_micros afterglow_period_micros then Some s else None)
    old_state in
  fold_left insert_new new_state old_state.

(** The first loop of [ComputeDelta]. *)
Definition delta_insert (old_state : state) (conn : T * ConnStatus) : state :=
  match Lookup old_state conn.1 with
  | None => (emplace old_state conn.1 conn.2).1
  | Some old_conn =>
      if negb (eqb (IsActive conn.2) (IsActive old_conn)) then assign old_state conn.1 conn.2
      else if IsActive conn.2 then erase old_state conn.1
      else if LastActiveTime old_conn <? LastActiveTime conn.2
           then assign old_state conn.1 conn.2
           else erase old_state conn.1
  end.

Definition ComputeDelta (new_state old_state : state) : state :=
  let old_state := fold_left delta_insert new_state old_state in
  update_entries
    (fun k s => if Contains new_state k then Some s
                else if IsActive s then Some (SetActive false s) else None)
    old_state.

Definition ChangeConnToActiveIfNeeded (new_conn : T * ConnStatus) (conn_key : T)
    (conn_status : ConnStatus) (new_recently_active : bool) : T * ConnStatus :=
  if new_recently_active && negb (IsActive conn_status)
  then (conn_key, ConnStatus_make (LastActiveTime conn_status) true)
  else new_conn.

Definition map_insert (delta : state) (e : T * ConnStatus) : state := (emplace delta e.1 e.2).1.

Definition ComputeDeltaForAConnectionInOldAndNewStates (new_conn : T * ConnStatus)
    (old_conn_status : ConnStatus) (delta : state)
    (time_micros time_at_last_scrape afterglow_period_micros : Z) : state :=
  let '(conn_key, conn_status) := new_conn in
  let new_recently_active := WasRecentlyActive conn_status time_micros afterglow_period_micros in
  let old_recently_active := WasRecentlyActive old_conn_status time_at_last_scrape afterglow_period_micros in
  if negb (eqb new_recently_active old_recently_active) then
    map_insert delta (ChangeConnToActiveIfNeeded new_conn conn_key conn_status new_recently_active)
  else if negb new_recently_active then
    if LastActiveTime old_conn_status <? LastActiveTime conn_status then map_insert delta new_conn else delta
  else delta.

Definition ComputeDeltaForAConnectionInNewState (new_conn : T * ConnStatus) (delta : state)
    (time_micros afterglow_period_micros : Z) : state :=
  let '(conn_key, conn_status) := new_conn in
  let new_recently_active := WasRecentlyActive conn_status time_micros afterglow_period_micros in
  map_insert delta (ChangeConnToActiveIfNeeded new_conn conn_key conn_status new_recently_active).

Definition CheckIfOldConnShouldBeInactiveInDelta (conn_key : T) (conn_status : ConnStatus)
    (new_state : state) (time_micros time_at_last_scrape afterglow_period_micros : Z) : bool :=
  if Contains new_state conn_key then false
  else if negb (WasRecentlyActive conn_status time_at_last_scrape afterglow_period_micros) then false
  else if IsInAfterglowPeriod conn_status time_micros afterglow_period_micros then false
  else true.

Definition ComputeDeltaAfterglow (new_state old_state delta : state)
    (time_micros time_at_last_scrape afterglow_period_micros : Z) : state :=
  let delta := fold_left
    (fun delta new_conn =>
       match Lookup old_state new_conn.1 with
       | Some old_conn =>
           ComputeDeltaForAConnectionInOldAndNewStates new_conn old_conn delta
             time_micros time_at_last_scrape afterglow_period_micros
       | None => ComputeDeltaForAConnectionInNewState new_conn delta time_micros afterglow_period_micros
       end) new_state delta in
  fold_left
    (fun delta old_conn =>
       if CheckIfOldConnShouldBeInactiveInDelta old_conn.1 old_conn.2 new_state
            time_micros time_at_last_scrape afterglow_period_micros
       then map_insert delta (old_conn.1, ConnStatus_make (LastActiveTime old_conn.2) false)
       else delta) old_state delta.

(** [CloseConnections]: the matching entries move from the old state to the
    delta, closed. *)
Definition close_one (s : ConnStatus) : ConnStatus := if IsActive s then SetActive false s else s.

Definition CloseConnections (old_conn_state delta_conn : state) (predicate : T -> bool) : state * state :=
  fold_left
    (fun '(kept, delta) old_conn =>
       if predicate old_conn.1
       then (kept, map_insert delta (old_conn.1, close_one old_conn.2))
       else (kept ++ [old_conn], delta))
    old_conn_state ([], delta_conn).
End Delta.

(** ** The abstract status

    A status is a pair of a 63-bit time and a flag. *)

Definition wf_status (s : ConnStatus) : Prop := word 64 (status_data s).

Definition pack (last : Z) (active : bool) : Z := last + (if active then 2 ^ 63 else 0).

Lemma wnot_flag : wnot 64 kActiveFlag = Z.ones 63.
Proof. reflexivity. Qed.

Lemma land_flag data : Z.land data (wnot 64 kActiveFlag) = data mod 2 ^ 63.
Proof. rewrite wnot_flag. apply Z.land_ones. lia. Qed.

Lemma lor_flag data : word 64 data -> Z.lor data kActiveFlag = data mod 2 ^ 63 + 2 ^ 63.
Proof.
  intros Hd. change kActiveFlag with (2 ^ 63).
  assert (Z.land (data mod 2 ^ 63) (2 ^ 63) = 0) as E0.
  { apply Z.eqb_eq. rewrite land_pow2_test by lia. rewrite Z.mod_pow2_bits_high by lia. done. }
  pose proof (Z.add_lor_land (data mod 2 ^ 63) (2 ^ 63)) as E.
  assert (Z.lor data (2 ^ 63) = Z.lor (data mod 2 ^ 63) (2 ^ 63)); [|lia].
  apply Z.bits_inj'. intros i Hi. rewrite !Z.lor_spec, Z.pow2_bits_eqb by lia.
  destruct (Z.eqb_spec 63 i); [by rewrite !orb_true_r|]. f_equal.
  destruct (Z.lt_ge_cases i 63).
  - by rewrite Z.mod_pow2_bits_low.
  - rewrite Z.mod_pow2_bits_high by lia. apply (word_testbit_high 64); done || lia.
Qed.

Lemma last_active_mod s : LastActiveTime s = status_data s mod 2 ^ 63.
Proof.
  unfold LastActiveTime. rewrite land_flag.
  pose proof (Z.mod_pos_bound (status_data s) (2 ^ 63) ltac:(lia)).
  apply to_signed_small; [lia|]. change (64 - 1) with 63. lia.
Qed.

Lemma last_active_bound s : 0 <= LastActiveTime s < 2 ^ 63.
Proof. rewrite last_active_mod. apply Z.mod_pos_bound. lia. Qed.

Lemma MakeActive_pack data active : word 64 data -> MakeActive data active = pack (data mod 2 ^ 63) active.
Proof.
  intros Hd. unfold MakeActive, pack. destruct active; [by apply lor_flag|]. rewrite land_flag. lia.
Qed.

Lemma IsActive_spec s : wf_status s -> IsActive s = (2 ^ 63 <=? status_data s).
Proof.
  intros Hs. unfold IsActive. change kActiveFlag with (2 ^ 63).
  rewrite land_pow2_test, negb_involutive by lia. unfold wf_status, word in Hs.
  rewrite Z.testbit_eqb by lia. destruct (Z.leb_spec (2 ^ 63) (status_data s)).
  - assert (status_data s / 2 ^ 63 = 1) as ->; [|done].
    symmetry. apply (Z.div_unique _ _ _ (status_data s - 2 ^ 63)); lia.
  - by rewrite Z.div_small by lia.
Qed.

(** The data is the pair. *)
Lemma status_pack s : wf_status s -> status_data s = pack (LastActiveTime s) (IsActive s).
Proof.
  intros Hs. rewrite last_active_mod, IsActive_spec by done. unfold pack.
  unfold wf_status, word in Hs. destruct (Z.leb_spec (2 ^ 63) (status_data s)).
  - assert (status_data s mod 2 ^ 63 = status_data s - 2 ^ 63) as ->; [|lia].
    symmetry. apply (Z.mod_unique _ _ 1); lia.
  - rewrite Z.mod_small; lia.
Qed.

Lemma pack_word last active : 0 <= last < 2 ^ 63 -> word 64 (pack last active).
Proof. intros Hl. unfold word, pack. destruct active; lia. Qed.

Lemma pack_last last active : 0 <= last < 2 ^ 63 -> LastActiveTime (mkConnStatus (pack last active)) = last.
Proof.
  intros Hl. rewrite last_active_mod. simpl. unfold pack. destruct active.
  - symmetry. apply (Z.mod_unique _ _ 1); lia.
  - rewrite Z.mod_small; lia.
Qed.

Lemma pack_active last active : 0 <= last < 2 ^ 63 -> IsActive (mkConnStatus (pack last active)) = active.
Proof.
  intros Hl. rewrite IsActive_spec by (by apply pack_word). simpl. unfold pack.
  destruct active; b2p; destruct (Z.leb_spec (2 ^ 63) (last + 2 ^ 63)), (Z.leb_spec (2 ^ 63) (last + 0)); done || lia.
Qed.

Lemma status_ext s t :
  wf_status s -> wf_status t ->
  LastActiveTime s = LastActiveTime t -> IsActive s = IsActive t -> s = t.
Proof.
  intros Hs Ht El Ea. pose proof (status_pack s Hs) as Es. pose proof (status_pack t Ht) as Et.
  rewrite El, Ea in Es. destruct s, t; simpl in *. congruence.
Qed.

Lemma wf_mod s : 0 <= status_data s mod 2 ^ 63 < 2 ^ 63.
Proof. apply Z.mod_pos_bound. lia. Qed.

Lemma SetActive_pack b s : wf_status s -> SetActive b s = mkConnStatus (pack (LastActiveTime s) b).
Proof. intros Hs. unfold SetActive. by rewrite MakeActive_pack, last_active_mod. Qed.

Lemma wf_SetActive b s : wf_status s -> wf_status (SetActive b s).
Proof. intros Hs. rewrite SetActive_pack by done. apply pack_word, last_active_bound. Qed.

Lemma SetActive_last b s : wf_status s -> LastActiveTime (SetActive b s) = LastActiveTime s.
Proof. intros Hs. rewrite SetActive_pack by done. apply pack_last, last_active_bound. Qed.

Lemma SetActive_active b s : wf_status s -> IsActive (SetActive b s) = b.
Proof. intros Hs. rewrite SetActive_pack by done. apply pack_active, last_active_bound. Qed.

Lemma make_pack ts b : ConnStatus_make ts b = mkConnStatus (pack (ts mod 2 ^ 63) b).
Proof.
  unfold ConnStatus_make. rewrite MakeActive_pack by (apply wrap_word; lia). unfold wrap.
  do 2 f_equal. rewrite <- (Z.mod_mod_divide ts (2 ^ 64) (2 ^ 63)); [done|]. exists 2. lia.
Qed.

Lemma wf_make ts b : wf_status (ConnStatus_make ts b).
Proof. rewrite make_pack. apply pack_word. apply Z.mod_pos_bound. lia. Qed.

Lemma make_active ts b : IsActive (ConnStatus_make ts b) = b.
Proof. rewrite make_pack. apply pack_active, Z.mod_pos_bound. lia. Qed.

Lemma make_last ts b : 0 <= ts < 2 ^ 63 -> LastActiveTime (ConnStatus_make ts b) = ts.
Proof. intros Ht. rewrite make_pack, Z.mod_small by done. by apply pack_last. Qed.

Lemma make_last_self s b : LastActiveTime (ConnStatus_make (LastActiveTime s) b) = LastActiveTime s.
Proof. apply make_last, last_active_bound. Qed.

#[export] Hint Resolve wf_make wf_SetActive last_active_bound : collector.

(** ** What the loops do to each key *)

(** The difference of one key between two snapshots. *)
Definition delta_of (new old : option ConnStatus) : option ConnStatus :=
  match new, old with
  | Some n, None => Some n
  | Some n, Some o =>
      if negb (eqb (IsActive n) (IsActive o)) then Some n
      else if IsActive n then None
      else if LastActiveTime o <? LastActiveTime n then Some n else None
  | None, Some o => if IsActive o then Some (SetActive false o) else None
  | None, None => None
  end.

(** The same with an afterglow period. *)
Definition activate (n : ConnStatus) (recent : bool) : ConnStatus :=
  if recent && negb (IsActive n) then ConnStatus_make (LastActiveTime n) true else n.

Definition glow_of (new old : option ConnStatus) (t tl p : Z) : option ConnStatus :=
  match new, old with
  | Some n, None => Some (activate n (WasRecentlyActive n t p))
  | Some n, Some o =>
      if negb (eqb (WasRecentlyActive n t p) (WasRecentlyActive o tl p))
      then Some (activate n (WasRecentlyActive n t p))
      else if negb (WasRecentlyActive n t p)
           then if LastActiveTime o <? LastActiveTime n then Some n else None
           else None
  | None, Some o =>
      if WasRecentlyActive o tl p && negb (IsInAfterglowPeriod o t p)
      then Some (ConnStatus_make (LastActiveTime o) false) else None
  | None, None => None
  end.

Section DeltaLemmas.
Context {T : Type} `{HT : !KeyEq T} (P : T -> Prop) `{!KeyEqLaws T P}.
Abbreviation state := (umap T ConnStatus).
Implicit Types (m new old delta : state) (k : T).

Lemma Contains_congr m a b : wf_umap P m -> P a -> P b -> keqb a b = true -> Contains m a = Contains m b.
Proof. intros Hw Ha Hb E. rewrite !Contains_Lookup. by rewrite (Lookup_congr P m a b). Qed.

Lemma Lookup_insert_new m (e : T * ConnStatus) k :
  wf_umap P m -> P e.1 -> P k ->
  wf_umap P (insert_new m e)
  /\ Lookup (insert_new m e) k = if keqb k e.1 then Some e.2 else Lookup m k.
Proof.
  intros Hw He Hk. assert (insert_new m e = insert_or_assign m e.1 e.2) as ->.
  { unfold insert_new, insert_or_assign, emplace. by destruct (Contains m e.1). }
  split; [by apply wf_insert_or_assign|by apply (Lookup_insert_or_assign P)].
Qed.

Lemma UpdateOldState_wf_lookup old new t p :
  wf_umap P old -> wf_umap P new ->
  wf_umap P (UpdateOldState old new t p)
  /\ forall k, P k ->
       Lookup (UpdateOldState old new t p) k =
       match Lookup new k with
       | Some n => Some n
       | None => match Lookup old k with
                 | Some o => if IsInAfterglowPeriod o t p then Some o else None
                 | None => None
                 end
       end.
Proof.
  intros Ho Hn. unfold UpdateOldState.
  set (old' := update_entries _ old).
  assert (wf_umap P old') as Ho' by by apply wf_update_entries.
  destruct (Lookup_fold P insert_new (fun _ n _ => Some n)
              (fun m e Hm He => proj1 (Lookup_insert_new m e e.1 Hm He He))
              (fun m e k Hm He Hk => proj2 (Lookup_insert_new m e k Hm He Hk)) new old' Hn Ho') as [Hw Hl].
  split; [done|]. intros k Hk. rewrite Hl by done. destruct (Lookup new k); [done|].
  unfold old'. rewrite (Lookup_update_entries P) by done. by destruct (Lookup old k).
Qed.

Lemma Lookup_delta_insert m (e : T * ConnStatus) k :
  wf_umap P m -> P e.1 -> P k ->
  wf_umap P (delta_insert m e)
  /\ Lookup (delta_insert m e) k =
     if keqb k e.1 then delta_of (Some e.2) (Lookup m k) else Lookup m k.
Proof.
  intros Hw He Hk. unfold delta_insert.
  destruct (Lookup m e.1) as [o|] eqn:El.
  - assert (Contains m e.1 = true) as Hc by (by rewrite Contains_Lookup, El).
    assert (keqb k e.1 = true -> Lookup m k = Some o) as Hko
      by (intros E; by rewrite (Lookup_congr P m k e.1)).
    destruct (keqb k e.1) eqn:E; [rewrite Hko by done|]; cbn [delta_of];
      repeat destr_if; split; auto using wf_assign, wf_erase;
      rewrite ?(Lookup_assign P), ?(Lookup_erase P), ?E, ?Hc by done; done.
  - split; [by apply wf_emplace|]. rewrite (Lookup_emplace P) by done.
    destruct (keqb k e.1) eqn:E; [|by destruct (Lookup m k)].
    by rewrite (Lookup_congr P m k e.1), El by done.
Qed.

Lemma ComputeDelta_wf_lookup new old :
  wf_umap P new -> wf_umap P old ->
  wf_umap P (ComputeDelta new old)
  /\ forall k, P k -> Lookup (ComputeDelta new old) k = delta_of (Lookup new k) (Lookup old k).
Proof.
  intros Hn Ho. unfold ComputeDelta.
  destruct (Lookup_fold P delta_insert (fun _ n o => delta_of (Some n) o)
              (fun m e Hm He => proj1 (Lookup_delta_insert m e e.1 Hm He He))
              (fun m e k Hm He Hk => proj2 (Lookup_delta_insert m e k Hm He Hk)) new old Hn Ho) as [Hw Hl].
  split; [by apply wf_update_entries|]. intros k Hk.
  rewrite (Lookup_update_entries P), Hl by (done || (intros a b v Ha Hb E; by rewrite (Contains_congr new a b))).
  rewrite Contains_Lookup. destruct (Lookup new k); cbn [mbind option_bind].
  - by destruct (delta_of _ _).
  - by destruct (Lookup old k).
Qed.

(** [insert] keeps an entry that is there. *)
Lemma Lookup_map_insert delta (e : T * ConnStatus) k :
  wf_umap P delta -> P e.1 -> P k ->
  wf_umap P (map_insert delta e)
  /\ Lookup (map_insert delta e) k =
     if keqb k e.1 then match Lookup delta k with Some d => Some d | None => Some e.2 end else Lookup delta k.
Proof.
  intros Hw He Hk. unfold map_insert. split; [by apply wf_emplace|].
  rewrite (Lookup_emplace P) by done. by destruct (keqb k e.1), (Lookup delta k).
Qed.

(** A loop body that inserts a computed status, or nothing. *)
Definition insert_opt (delta : state) (k : T) (o : option ConnStatus) : state :=
  match o with Some s => map_insert delta (k, s) | None => delta end.

Lemma Lookup_insert_opt delta a o k :
  wf_umap P delta -> P a -> P k ->
  wf_umap P (insert_opt delta a o)
  /\ Lookup (insert_opt delta a o) k =
     if keqb k a then match Lookup delta k with Some d => Some d | None => o end else Lookup delta k.
Proof.
  intros Hw Ha Hk. destruct o as [s|]; simpl; [by apply (Lookup_map_insert delta (a, s))|].
  split; [done|]. by destruct (keqb k a), (Lookup delta k).
Qed.

Lemma ChangeConn_activate (e : T * ConnStatus) recent :
  ChangeConnToActiveIfNeeded e e.1 e.2 recent = (e.1, activate e.2 recent).
Proof. unfold ChangeConnToActiveIfNeeded, activate. destr_if; [done|]. by destruct e. Qed.

(** The bodies of the two loops of [ComputeDeltaAfterglow]. *)
Lemma afterglow_new_body old delta (e : T * ConnStatus) t tl p :
  (match Lookup old e.1 with
   | Some old_conn => ComputeDeltaForAConnectionInOldAndNewStates e old_conn delta t tl p
   | None => ComputeDeltaForAConnectionInNewState e delta t p
   end) = insert_opt delta e.1 (glow_of (Some e.2) (Lookup old e.1) t tl p).
Proof.
  destruct e as [k n]. cbn [fst snd]. destruct (Lookup old k) as [o|]; cbn [glow_of].
  - unfold ComputeDeltaForAConnectionInOldAndNewStates.
    rewrite (ChangeConn_activate (k, n)). cbn [fst snd]. by repeat destr_if.
  - unfold ComputeDeltaForAConnectionInNewState. by rewrite (ChangeConn_activate (k, n)).
Qed.

Lemma afterglow_old_body new delta (e : T * ConnStatus) t tl p :
  (if CheckIfOldConnShouldBeInactiveInDelta e.1 e.2 new t tl p
   then map_insert delta (e.1, ConnStatus_make (LastActiveTime e.2) false) else delta)
  = insert_opt delta e.1 (if Contains new e.1 then None else glow_of None (Some e.2) t tl p).
Proof.
  unfold CheckIfOldConnShouldBeInactiveInDelta. cbn [glow_of].
  destruct (Contains new e.1), (WasRecentlyActive e.2 tl p), (IsInAfterglowPeriod e.2 t p); done.
Qed.

Lemma ComputeDeltaAfterglow_wf_lookup new old delta t tl p :
  wf_umap P new -> wf_umap P old -> wf_umap P delta ->
  wf_umap P (ComputeDeltaAfterglow new old delta t tl p)
  /\ forall k, P k ->
       Lookup (ComputeDeltaAfterglow new old delta t tl p) k =
       match Lookup delta k with
       | Some d => Some d
       | None => glow_of (Lookup new k) (Lookup old k) t tl p
       end.
Proof.
  intros Hn Ho Hd. unfold ComputeDeltaAfterglow.
  destruct (Lookup_fold P
    (fun delta e => match Lookup old e.1 with
                    | Some old_conn => ComputeDeltaForAConnectionInOldAndNewStates e old_conn delta t tl p
                    | None => ComputeDeltaForAConnectionInNewState e delta t p end)
    (fun k n d => match d with Some d => Some d | None => glow_of (Some n) (Lookup old k) t tl p end)) with new delta
    as [Hw1 Hl1]; try done.
  { intros m e Hm He. rewrite afterglow_new_body. by apply (Lookup_insert_opt m e.1 _ e.1). }
  { intros m e k Hm He Hk. rewrite afterglow_new_body, (proj2 (Lookup_insert_opt m e.1 _ k Hm He Hk)).
    destruct (keqb k e.1) eqn:E; [|done]. by rewrite (Lookup_congr P old k e.1). }
  destruct (Lookup_fold P
    (fun delta e => if CheckIfOldConnShouldBeInactiveInDelta e.1 e.2 new t tl p
                    then map_insert delta (e.1, ConnStatus_make (LastActiveTime e.2) false) else delta)
    (fun k o d => match d with
                  | Some d => Some d
                  | None => if Contains new k then None else glow_of None (Some o) t tl p end))
    with old (fold_left (fun delta e => match Lookup old e.1 with
                    | Some old_conn => ComputeDeltaForAConnectionInOldAndNewStates e old_conn delta t tl p
                    | None => ComputeDeltaForAConnectionInNewState e delta t p end) new delta)
    as [Hw2 Hl2]; try done.
  { intros m e Hm He. rewrite afterglow_old_body. by apply (Lookup_insert_opt m e.1 _ e.1). }
  { intros m e k Hm He Hk. rewrite afterglow_old_body, (proj2 (Lookup_insert_opt m e.1 _ k Hm He Hk)).
    destruct (keqb k e.1) eqn:E; [|done]. by rewrite (Contains_congr new k e.1). }
  split; [done|]. intros k Hk. rewrite Hl2, Hl1, Contains_Lookup by done. clear.
  destruct (Lookup new k) as [n|], (Lookup old k) as [o|], (Lookup delta k) as [d|]; try done.
  by destruct (glow_of (Some n) (Some o) t tl p).
Qed.

(** The closing of connections partitions the old state. *)
Lemma CloseConnections_fold (pred : T -> bool) old kept delta :
  fold_left (fun '(kept, delta) old_conn =>
               if pred old_conn.1 then (kept, map_insert delta (old_conn.1, close_one old_conn.2))
               else (kept ++ [old_conn], delta)) old (kept, delta)
  = (kept ++ List.filter (fun e => negb (pred e.1)) old,
     fold_left (fun d e => insert_opt d e.1 (if pred e.1 then Some (close_one e.2) else None)) old delta).
Proof.
  revert kept delta. induction old as [|e old IH]; intros kept delta; simpl; [by rewrite app_nil_r|].
  destruct (pred e.1); simpl; rewrite IH; [done|]. by rewrite <- app_assoc.
Qed.

Lemma CloseConnections_wf_lookup pred old delta :
  (forall a b, P a -> P b -> keqb a b = true -> pred a = pred b) ->
  wf_umap P old -> wf_umap P delta ->
  let '(old', delta') := CloseConnections old delta pred in
  wf_umap P old' /\ wf_umap P delta'
  /\ forall k, P k ->
       Lookup old' k = (if pred k then None else Lookup old k)
       /\ Lookup delta' k =
          match Lookup delta k with
          | Some d => Some d
          | None => if pred k then close_one <$> Lookup old k else None
          end.
Proof.
  intros Hpred Ho Hd. unfold CloseConnections. rewrite CloseConnections_fold. cbn [app].
  destruct (Lookup_fold P (fun d e => insert_opt d e.1 (if pred e.1 then Some (close_one e.2) else None))
    (fun k o d => match d with Some d => Some d | None => if pred k then Some (close_one o) else None end))
    with old delta as [Hw Hl]; try done.
  { intros m e Hm He. by apply (Lookup_insert_opt m e.1 _ e.1). }
  { intros m e k Hm He Hk. rewrite (proj2 (Lookup_insert_opt m e.1 _ k Hm He Hk)).
    destruct (keqb k e.1) eqn:E; [|done]. by rewrite (Hpred k e.1). }
  split_and!; [by apply wf_filter|done|]. intros k Hk. split.
  - unfold Lookup. rewrite (Find_filter P) by done. destruct (Find old k) as [e|] eqn:E; [|by destruct (pred k)].
    pose proof (Find_P P old k e Ho E). apply Find_Some in E as [_ E].
    rewrite (Hpred k e.1) by done. by destruct (pred e.1).
  - rewrite Hl by done. destruct (Lookup old k), (Lookup delta k), (pred k); done.
Qed.
End DeltaLemmas.

(** ** The receiver of the differences *)

Lemma SetActive_false s : IsActive (SetActive false s) = false.
Proof.
  unfold IsActive, SetActive, MakeActive. simpl status_data. rewrite land_flag.
  change kActiveFlag with (2 ^ 63). rewrite land_pow2_test, Z.mod_pow2_bits_high by lia. done.
Qed.

Lemma close_one_inactive s : IsActive (close_one s) = false.
Proof. unfold close_one. destruct (IsActive s) eqn:E; [apply SetActive_false|done]. Qed.

Lemma activate_active n t p :
  IsActive (activate n (WasRecentlyActive n t p)) = WasRecentlyActive n t p.
Proof.
  unfold activate, WasRecentlyActive. destruct (IsActive n) eqn:Ea; simpl; [done|].
  destruct (IsInAfterglowPeriod n t p); [apply make_active|done].
Qed.

(** Later observations are outside more afterglow periods. *)
Lemma afterglow_mono s t t' p : t <= t' -> IsInAfterglowPeriod s t' p = true -> IsInAfterglowPeriod s t p = true.
Proof. unfold IsInAfterglowPeriod. intros Ht. rewrite !Z.ltb_lt. lia. Qed.

Section Receiver.
Context {T : Type} `{HT : !KeyEq T} (P : T -> Prop) `{!KeyEqLaws T P}.
Abbreviation state := (umap T ConnStatus).

(** Whether a snapshot has an active entry for a key. *)
Definition active_in (m : state) (k : T) : bool :=
  match Lookup m k with Some s => IsActive s | None => false end.

(** The receiver's record of a key after a message. *)
Definition receive (delta : state) (k : T) (view : bool) : bool :=
  match Lookup delta k with Some d => IsActive d | None => view end.

(** A history of scrapes, the latest first: each a snapshot and its time. *)
Abbreviation history := (list (state * Z)).

Fixpoint last_seen (h : history) (k : T) : option ConnStatus :=
  match h with
  | [] => None
  | (new, _) :: h => match Lookup new k with Some s => Some s | None => last_seen h k end
  end.

Definition time_of (t0 : Z) (h : history) : Z := match h with [] => t0 | (_, t) :: _ => t end.

(** Snapshots are well formed and times do not decrease. *)
Fixpoint history_ok (t0 : Z) (h : history) : Prop :=
  match h with
  | [] => True
  | (new, t) :: h => wf_umap P new /\ time_of t0 h <= t /\ history_ok t0 h
  end.

(** The state kept between scrapes with an afterglow period [p], and what a
    receiver of the differences has recorded. *)
Fixpoint run_old (p : Z) (h : history) : state :=
  match h with
  | [] => []
  | (new, t) :: h => UpdateOldState (run_old p h) new t p
  end.

Fixpoint run_view (t0 p : Z) (h : history) (k : T) : bool :=
  match h with
  | [] => false
  | (new, t) :: h =>
      receive (ComputeDeltaAfterglow new (run_old p h) [] t (time_of t0 h) p) k (run_view t0 p h k)
  end.

(** Without an afterglow period the kept state is the last snapshot. *)
Fixpoint run_view_plain (h : history) (k : T) : bool :=
  match h with
  | [] => false
  | (new, _) :: h =>
      receive (ComputeDelta new (match h with [] => [] | (old, _) :: _ => old end)) k (run_view_plain h k)
  end.

Lemma run_old_wf t0 p h : history_ok t0 h -> wf_umap P (run_old p h).
Proof.
  induction h as [|[new t] h IH]; simpl; [intros; apply wf_nil|].
  intros (Hn & _ & Hh). apply (UpdateOldState_wf_lookup P); auto.
Qed.

(** The entries the kept state has for a key that is not in the latest
    snapshot: the last one seen, while its afterglow lasts. *)
Lemma run_old_lookup t0 p h k :
  history_ok t0 h -> P k ->
  Lookup (run_old p h) k =
  match h with
  | [] => None
  | (new, t) :: h =>
      match Lookup new k with
      | Some s => Some s
      | None => s ← last_seen h k; if IsInAfterglowPeriod s t p then Some s else None
      end
  end.
Proof.
  induction h as [|[new t] h IH]; [done|]. simpl. intros (Hn & Ht & Hh) Hk.
  rewrite (proj2 (UpdateOldState_wf_lookup P (run_old p h) new t p (run_old_wf t0 p h Hh) Hn)) by done.
  destruct (Lookup new k); [done|]. rewrite IH by done. clear IH.
  destruct h as [|[new' t'] h]; [done|]. simpl in *. destruct (Lookup new' k) as [s|]; [done|].
  destruct (last_seen h k) as [s|]; simpl; [|done].
  destruct (IsInAfterglowPeriod s t p) eqn:E; [by rewrite (afterglow_mono s t' t p), E|].
  by destruct (IsInAfterglowPeriod s t' p); simpl; rewrite ?E.
Qed.

(** What was recorded of a key, in terms of the kept state. *)
Definition recently_in (m : state) (k : T) (t p : Z) : bool :=
  match Lookup m k with Some s => WasRecentlyActive s t p | None => false end.

Lemma run_view_plain_active t0 new t h k :
  history_ok t0 ((new, t) :: h) -> P k -> run_view_plain ((new, t) :: h) k = active_in new k.
Proof.
  intros Hh Hk. revert new t Hh. induction h as [|[old t'] h IH]; intros new t Hh.
  - destruct Hh as (Hn & _). cbn [run_view_plain]. unfold receive, active_in.
    rewrite (proj2 (ComputeDelta_wf_lookup P new [] Hn (wf_nil P))) by done.
    simpl. by destruct (Lookup new k).
  - destruct Hh as (Hn & _ & Hh). specialize (IH old t' Hh). destruct Hh as (Ho & _).
    change (run_view_plain ((new, t) :: (old, t') :: h) k) with
      (receive (ComputeDelta new old) k (run_view_plain ((old, t') :: h) k)).
    rewrite IH. unfold receive, active_in. rewrite (proj2 (ComputeDelta_wf_lookup P new old Hn Ho)) by done.
    destruct (Lookup new k) as [n|], (Lookup old k) as [o|]; simpl; try done.
    + destruct (IsActive n) eqn:En, (IsActive o) eqn:Eo; simpl; try done; try by rewrite En.
      destruct (_ <? _); [by rewrite En|done].
    + destruct (IsActive o) eqn:Eo; [apply SetActive_false|done].
Qed.

Lemma glow_receive new old t tl p (v : bool) :
  tl <= t ->
  v = match old with Some o => WasRecentlyActive o tl p | None => false end ->
  match glow_of new old t tl p with Some d => IsActive d | None => v end =
  match new with
  | Some n => WasRecentlyActive n t p
  | None => match old with Some o => IsInAfterglowPeriod o t p | None => false end
  end.
Proof.
  intros Ht ->. destruct new as [n|], old as [o|]; cbn [glow_of]; try done.
  - destruct (eqb _ _) eqn:E; simpl; [|apply activate_active]. apply eqb_prop in E.
    destruct (WasRecentlyActive n t p) eqn:En; simpl; [done|].
    destruct (_ <? _); [|done]. unfold WasRecentlyActive in En. by apply orb_false_iff in En as [-> _].
  - apply activate_active.
  - destruct (IsInAfterglowPeriod o t p) eqn:E; simpl; rewrite ?andb_false_r, ?andb_true_r.
    + unfold WasRecentlyActive. by rewrite (afterglow_mono o tl t p), orb_true_r.
    + destruct (WasRecentlyActive o tl p); [apply make_active|done].
Qed.

Lemma run_view_recent t0 p h k :
  history_ok t0 h -> P k -> run_view t0 p h k = recently_in (run_old p h) k (time_of t0 h) p.
Proof.
  intros Hh Hk. induction h as [|[new t] h IH]; [done|]. simpl in Hh. destruct Hh as (Hn & Ht & Hh).
  cbn [run_view time_of]. unfold receive.
  rewrite (proj2 (ComputeDeltaAfterglow_wf_lookup P new (run_old p h) [] t (time_of t0 h) p
                    Hn (run_old_wf t0 p h Hh) (wf_nil P))) by done. cbn [Lookup Find List.find fmap option_fmap option_map].
  rewrite glow_receive by (done || by rewrite IH).
  unfold recently_in. cbn [run_old].
  rewrite (proj2 (UpdateOldState_wf_lookup P (run_old p h) new t p (run_old_wf t0 p h Hh) Hn)) by done.
  destruct (Lookup new k); [done|]. destruct (Lookup (run_old p h) k) as [o|]; [|done].
  destruct (IsInAfterglowPeriod o t p) eqn:E; [|done]. unfold WasRecentlyActive. by rewrite E, orb_true_r.
Qed.
Lemma run_view_last t0 p new t h k :
  history_ok t0 ((new, t) :: h) -> P k ->
  run_view t0 p ((new, t) :: h) k =
  match Lookup new k with
  | Some s => WasRecentlyActive s t p
  | None => match last_seen h k with Some s => IsInAfterglowPeriod s t p | None => false end
  end.
Proof.
  intros Hh Hk. rewrite run_view_recent by done. unfold recently_in.
  rewrite (run_old_lookup t0) by done. cbn [time_of].
  destruct (Lookup new k); [done|]. destruct (last_seen h k) as [s|]; simpl; [|done].
  destruct (IsInAfterglowPeriod s t p) eqn:E; [|done]. unfold WasRecentlyActive. by rewrite E, orb_true_r.
Qed.
End Receiver.

(** ** Theorems *)

(** Status packing: a status built from a non-negative time and a flag
    gives both back; setting the flag keeps the time; and merging two statuses
    keeps activity over inactivity and, between equals, the later time. *)
Theorem ConnStatus_spec (ts : Z) (b b' : bool) (s o : ConnStatus)
    (Hts : 0 <= ts < 2 ^ 63) (Hs : wf_status s) (Ho : wf_status o) :
  LastActiveTime (ConnStatus_make ts b) = ts /\ IsActive (ConnStatus_make ts b) = b
  /\ LastActiveTime (SetActive b' s) = LastActiveTime s /\ IsActive (SetActive b' s) = b'
  /\ IsActive (MergeFrom s o) = IsActive s || IsActive o
  /\ LastActiveTime (MergeFrom s o) =
     (if eqb (IsActive s) (IsActive o) then Z.max (LastActiveTime s) (LastActiveTime o)
      else if IsActive s then LastActiveTime s else LastActiveTime o).
Proof.
  split_and!; auto using make_last, make_active, SetActive_last, SetActive_active.
  - assert (wf_status (MergeFrom s o)) as Hm by (unfold wf_status, word, MergeFrom in *; simpl; lia).
    rewrite !IsActive_spec by done. simpl.
    destruct (Z.leb_spec (2 ^ 63) (status_data s)), (Z.leb_spec (2 ^ 63) (status_data o)),
      (Z.leb_spec (2 ^ 63) (Z.max (status_data s) (status_data o))); done || lia.
  - pose proof (status_pack s Hs) as Es. pose proof (status_pack o Ho) as Eo.
    pose proof (last_active_bound s). pose proof (last_active_bound o).
    assert (status_data (MergeFrom s o)
            = pack (if eqb (IsActive s) (IsActive o) then Z.max (LastActiveTime s) (LastActiveTime o)
                    else if IsActive s then LastActiveTime s else LastActiveTime o)
                   (IsActive s || IsActive o)) as Em.
    { simpl. rewrite Es, Eo. unfold pack. destruct (IsActive s), (IsActive o); simpl; lia. }
    destruct (MergeFrom s o) as [d]. simpl in Em. subst d.
    apply pack_last. destruct (eqb _ _), (IsActive s); lia.
Qed.

Section Theorems.
Context {T : Type} `{HT : !KeyEq T} (P : T -> Prop) `{!KeyEqLaws T P}.
Abbreviation state := (umap T ConnStatus).

(** C7. Differences without afterglow: for every key [ComputeDelta] yields the
    new status when the key appeared, changed activity or, inactive in both, was
    seen later; a closed status when an active key disappeared; and nothing
    otherwise.  A receiver that applies every difference knows exactly the keys
    active in the latest snapshot. *)
Theorem ComputeDelta_spec (t0 : Z) (new old : state) (t : Z) (h : list (state * Z)) (k : T)
    (Hn : wf_umap P new) (Ho : wf_umap P old) (Hh : history_ok P t0 ((new, t) :: h)) (Hk : P k) :
  Lookup (ComputeDelta new old) k = delta_of (Lookup new k) (Lookup old k)
  /\ run_view_plain ((new, t) :: h) k = active_in new k.
Proof.
  split; [by apply (ComputeDelta_wf_lookup P)|by apply (run_view_plain_active P t0)].
Qed.

(** C5. Differences with afterglow: after any sequence of scrapes at
    non-decreasing times, a receiver that applies every difference of
    [ComputeDeltaAfterglow] holds a key as active exactly when the latest snapshot
    has it active or active within the afterglow period, or, the latest snapshot not
    having it, its last sighting is still within the period.  The state kept by
    [UpdateOldState] is enough to compute the differences. *)
Theorem afterglow_run (t0 p : Z) (new : state) (t : Z) (h : list (state * Z)) (k : T)
    (Hh : history_ok P t0 ((new, t) :: h)) (Hk : P k) :
  run_view t0 p ((new, t) :: h) k =
  match Lookup new k with
  | Some s => WasRecentlyActive s t p
  | None => match last_seen h k with
            | Some s => IsInAfterglowPeriod s t p
            | None => false
            end
  end.
Proof. by apply (run_view_last P). Qed.

(** Closing: the connections that match the predicate leave the old
    state and enter the difference closed, with their last activity; entries
    already in the difference and all other connections are untouched. *)
Theorem CloseConnections_spec (pred : T -> bool) (old delta : state)
    (Hpred : forall a b, P a -> P b -> keqb a b = true -> pred a = pred b)
    (Ho : wf_umap P old) (Hd : wf_umap P delta) :
  let '(old', delta') := CloseConnections old delta pred in
  forall k, P k ->
    Lookup old' k = (if pred k then None else Lookup old k)
    /\ (Lookup delta k = None ->
        Lookup delta' k = if pred k then close_one <$> Lookup old k else None)
    /\ (forall d, Lookup delta k = Some d -> Lookup delta' k = Some d)
    /\ (forall s, Lookup old k = Some s -> wf_status s ->
        IsActive (close_one s) = false /\ LastActiveTime (close_one s) = LastActiveTime s).
Proof.
  pose proof (CloseConnections_wf_lookup P pred old delta Hpred Ho Hd) as Hc.
  destruct (CloseConnections old delta pred) as [old' delta']. destruct Hc as (_ & _ & Hc).
  intros k Hk. destruct (Hc k Hk) as [El Ed]. split_and!; [done| | |].
  - intros E. by rewrite Ed, E.
  - intros d E. by rewrite Ed, E.
  - intros s _ Hs. split; [apply close_one_inactive|]. unfold close_one.
    destruct (IsActive s); [by apply SetActive_last|done].
Qed.
End Theorems.

(** ** Witnesses *)

Module Witnesses.
Definition any (_ : Z) : Prop := True.
Definition s_old : ConnStatus := ConnStatus_make 100 true.
Definition s_new : ConnStatus := ConnStatus_make 150 false.
Definition snap1 : umap Z ConnStatus := [(1, s_old); (2, s_old)].
Definition snap2 : umap Z ConnStatus := [(1, s_new)].

Lemma snap1_wf : wf_umap any snap1.
Proof. split; repeat constructor. Qed.

Lemma snap2_wf : wf_umap any snap2.
Proof. split; repeat constructor. Qed.

Lemma history_wf : history_ok any 0 [(snap2, 200); (snap1, 120)].
Proof.
  split; [apply snap2_wf|]. split; [simpl; lia|]. split; [apply snap1_wf|]. split; [simpl; lia|exact I].
Qed.

Lemma ConnStatus_witness :
  LastActiveTime (ConnStatus_make 1000000 true) = 1000000 /\ IsActive (ConnStatus_make 1000000 true) = true.
Proof.
  destruct (ConnStatus_spec 1000000 true false s_old s_new) as (H1 & H2 & _).
  - lia.
  - apply wf_make.
  - apply wf_make.
  - exact (conj H1 H2).
Defined.

Lemma ComputeDelta_witness :
  Lookup (ComputeDelta snap2 snap1) 2 = delta_of (Lookup snap2 2) (Lookup snap1 2)
  /\ run_view_plain [(snap2, 200); (snap1, 120)] 2 = active_in snap2 2.
Proof.
  exact (ComputeDelta_spec any 0 snap2 snap1 200 [(snap1, 120)] 2 snap2_wf snap1_wf history_wf I).
Defined.

Lemma afterglow_run_witness : run_view 0 60 [(snap2, 200); (snap1, 120)] 1 = true.
Proof. rewrite (afterglow_run any 0 60 snap2 200 [(snap1, 120)] 1 history_wf I). vm_compute. reflexivity. Defined.

Lemma CloseConnections_witness :
  let '(old', delta') := CloseConnections snap1 [] (Z.eqb 1) in
  forall k, any k ->
    Lookup old' k = (if 1 =? k then None else Lookup snap1 k)
    /\ (Lookup (@nil (Z * ConnStatus)) k = None ->
        Lookup delta' k = if 1 =? k then close_one <$> Lookup snap1 k else None)
    /\ (forall d, Lookup (@nil (Z * ConnStatus)) k = Some d -> Lookup delta' k = Some d)
    /\ (forall s, Lookup snap1 k = Some s -> wf_status s ->
        IsActive (close_one s) = false /\ LastActiveTime (close_one s) = LastActiveTime s).
Proof.
  apply (CloseConnections_spec any (Z.eqb 1) snap1 []).
  - intros a b _ _ E. apply Z.eqb_eq in E. by subst.
  - apply snap1_wf.
  - apply wf_nil.
Defined.
End Witnesses.
