(* ===== verification/ConnTracker.v ===== *)
(** * The connection tracker

    The class [ConnectionTracker] of [collector/lib/ConnTracker.h] and
    [ConnTracker.cpp]: the tracked connections and endpoints, the configuration that
    decides how they are filtered and normalized, and the snapshots handed to the
    notifier.  Every public operation runs under the mutex of the tracker, so that
    each is one transition of the state below. *)

From S2P Require Import Prelude Containers Stats Address IPNet NRadix Process Connection.
From S2P Require Import ExternalIPs ConnDelta.

(** ** Data *)

Record DirectionStats := mkDirectionStats { public_ : Z; private_ : Z }.
Record ConnStats := mkConnStats { inbound : DirectionStats; outbound : DirectionStats }.

Definition ConnStats_zero : ConnStats := mkConnStats (mkDirectionStats 0 0) (mkDirectionStats 0 0).

Definition ConnMap : Type := umap Connection ConnStatus.
Definition ContainerEndpointMap : Type := umap ContainerEndpoint ConnStatus.

Record ConnectionTracker := mkConnectionTracker {
  conn_state_ : umap Connection ConnStatus;
  endpoint_state_ : umap ContainerEndpoint ConnStatus;
  known_public_ips_ : umap Address unit;
  known_ip_networks_ : nRadixNode;
  external_ips_config_ : ExternalIPsConfig;
  known_private_networks_exists_ : umap Family.t bool;
  ignored_l4proto_port_pairs_ : umap L4ProtoPortPair unit;
  ignored_networks_ : nRadixNode;
  non_aggregated_networks_ : nRadixNode;
  inserted_connections_counters_ : ConnStats;
  collector_stats : CollectorStats
}.

Definition ConnectionTracker_new : ConnectionTracker :=
  mkConnectionTracker [] [] [] NRadixTree_empty ExternalIPsConfig_none [] [] NRadixTree_empty
    NRadixTree_empty ConnStats_zero CollectorStats_new.

(** Assignments to the members. *)
Definition set_conn_state (m : umap Connection ConnStatus) (t : ConnectionTracker) : ConnectionTracker :=
  mkConnectionTracker m (endpoint_state_ t) (known_public_ips_ t) (known_ip_networks_ t)
    (external_ips_config_ t) (known_private_networks_exists_ t) (ignored_l4proto_port_pairs_ t)
    (ignored_networks_ t) (non_aggregated_networks_ t) (inserted_connections_counters_ t) (collector_stats t).
Definition set_endpoint_state (m : umap ContainerEndpoint ConnStatus) (t : ConnectionTracker) : ConnectionTracker :=
  mkConnectionTracker (conn_state_ t) m (known_public_ips_ t) (known_ip_networks_ t)
    (external_ips_config_ t) (known_private_networks_exists_ t) (ignored_l4proto_port_pairs_ t)
    (ignored_networks_ t) (non_aggregated_networks_ t) (inserted_connections_counters_ t) (collector_stats t).
Definition set_inserted (s : ConnStats) (t : ConnectionTracker) : ConnectionTracker :=
  mkConnectionTracker (conn_state_ t) (endpoint_state_ t) (known_public_ips_ t) (known_ip_networks_ t)
    (external_ips_config_ t) (known_private_networks_exists_ t) (ignored_l4proto_port_pairs_ t)
    (ignored_networks_ t) (non_aggregated_networks_ t) s (collector_stats t).
Definition set_stats (s : CollectorStats) (t : ConnectionTracker) : ConnectionTracker :=
  mkConnectionTracker (conn_state_ t) (endpoint_state_ t) (known_public_ips_ t) (known_ip_networks_ t)
    (external_ips_config_ t) (known_private_networks_exists_ t) (ignored_l4proto_port_pairs_ t)
    (ignored_networks_ t) (non_aggregated_networks_ t) (inserted_connections_counters_ t) s.

Section Operations.
Context `{HostEndian}.

(** ** Filters *)

Definition HasConnectionFilters (t : ConnectionTracker) : bool :=
  negb (match ignored_l4proto_port_pairs_ t with [] => true | _ => false end)
  || negb (IsEmpty (ignored_networks_ t)).

Definition IsIgnoredL4ProtoPortPair (t : ConnectionTracker) (p : L4ProtoPortPair) : bool :=
  Contains (ignored_l4proto_port_pairs_ t) p.

Definition ShouldFetchConnection (t : ConnectionTracker) (conn : Connection) : bool :=
  negb (IsIgnoredL4ProtoPortPair t (l4proto conn, ep_port (local_ conn)))
  && negb (IsIgnoredL4ProtoPortPair t (l4proto conn, ep_port (remote_ conn)))
  && net_IsNull (Find_addr (ignored_networks_ t) (ep_address (remote_ conn))).

Definition ShouldFetchContainerEndpoint (t : ConnectionTracker) (cep : ContainerEndpoint) : bool :=
  negb (IsIgnoredL4ProtoPortPair t (cep_l4proto cep, ep_port (cep_endpoint cep))).

(** ** Normalization *)

Definition canonical_external_ipv4_addr : Address := Address_octets 255 255 255 255.
Definition canonical_external_ipv6_addr : Address := Address_high_low ALL_ONES ALL_ONES.

Definition private_networks_tree : nRadixNode := default nRadixNode_new (NRadixTree PrivateNetworks_all).

Definition ContainsPrivateNetwork (fam : Family.t) (tree : nRadixNode) : bool :=
  IsAnyIPNetSubset_family fam tree private_networks_tree
  || IsAnyIPNetSubset_family fam private_networks_tree tree.

Definition NormalizeAddressNoLock (t : ConnectionTracker) (address : Address)
    (enable_external_ips : bool) : IPNet :=
  if IsNull address then IPNet_default
  else
    let private_addr := negb (IsPublic address) in
    let do_not_aggregate_addr := negb (net_IsNull (Find_addr (non_aggregated_networks_ t) address)) in
    let keep_addr := private_addr || do_not_aggregate_addr in
    let known_private_networks_exists := Lookup (known_private_networks_exists_ t) (family address) in
    if keep_addr && match known_private_networks_exists with Some b => negb b | None => false end
    then IPNet_make address 0 true
    else
      let network := Find_addr (known_ip_networks_ t) address in
      if keep_addr || Contains (known_public_ips_ t) address
      then IPNet_make address (bits network) true
      else if negb (net_IsNull network) then network
      else if enable_external_ips then IPNet_make address (length_of address * 8) false
      else match family address with
           | Family.IPV4 => IPNet_make canonical_external_ipv4_addr 0 true
           | Family.IPV6 => IPNet_make canonical_external_ipv6_addr 0 true
           | Family.UNKNOWN => IPNet_default
           end.

Definition ShouldNormalizeConnection (t : ConnectionTracker) (conn : Connection) : bool :=
  IsCanonicalExternalIp (address_ (NormalizeAddressNoLock t (ep_address (remote_ conn)) false)).

Definition NormalizeConnectionNoLock (t : ConnectionTracker) (conn : Connection) : Connection :=
  let server :=
    if l4proto conn =? L4Proto.UDP
    then IsEphemeralPort (ep_port (local_ conn)) <? IsEphemeralPort (ep_port (remote_ conn))
    else is_server conn in
  let extIPs_ingress := IsEnabled (external_ips_config_ t) INGRESS in
  let extIPs_egress := IsEnabled (external_ips_config_ t) EGRESS in
  let '(local, remote) :=
    if server then
      (Endpoint_net (IPNet_of_address Address_default) (ep_port (local_ conn)),
       Endpoint_net (NormalizeAddressNoLock t (ep_address (remote_ conn)) extIPs_ingress) 0)
    else
      (Endpoint_default,
       Endpoint_net (NormalizeAddressNoLock t (ep_address (remote_ conn)) extIPs_egress)
                    (ep_port (remote_ conn))) in
  Connection_make (container_ conn) local remote (l4proto conn) server.

Definition NormalizeContainerEndpoint (cep : ContainerEndpoint) : ContainerEndpoint :=
  let ep := cep_endpoint cep in
  mkContainerEndpoint (cep_container cep)
    (Endpoint_addr (Address_family (family (ep_address ep))) (ep_port ep))
    (cep_l4proto cep) (cep_originator cep).

(** The closing of the connections whose representation a change of the
    external-IPs configuration affects. *)
Definition should_close (t : ConnectionTracker) (conn : Connection) (enabling_extIPs : bool) : bool :=
  if enabling_extIPs then IsCanonicalExternalIp (ep_address (remote_ conn))
  else negb (IsCanonicalExternalIp (ep_address (remote_ conn))) && ShouldNormalizeConnection t conn.

Definition CloseConnectionsOnExternalIPsConfigChange (t : ConnectionTracker)
    (prev_config : ExternalIPsConfig) (old_conn_state delta_conn : umap Connection ConnStatus)
  : umap Connection ConnStatus * umap Connection ConnStatus :=
  let ingress := IsEnabled (external_ips_config_ t) INGRESS in
  let egress := IsEnabled (external_ips_config_ t) EGRESS in
  let '(old_conn_state, delta_conn) :=
    if negb (eqb egress (IsEnabled prev_config EGRESS))
    then CloseConnections old_conn_state delta_conn
           (fun conn => negb (is_server conn) && should_close t conn egress)
    else (old_conn_state, delta_conn) in
  if negb (eqb ingress (IsEnabled prev_config INGRESS))
  then CloseConnections old_conn_state delta_conn
         (fun conn => is_server conn && should_close t conn ingress)
  else (old_conn_state, delta_conn).

(** ** Updates *)

(** [EmplaceOrUpdate]; the flag tells whether the element was added. *)
Definition EmplaceOrUpdate {T} `{!KeyEq T} (m : umap T ConnStatus) (obj : T) (status : ConnStatus)
  : umap T ConnStatus * bool :=
  let '(m', inserted) := emplace m obj status in
  if negb inserted
     && match Lookup m obj with Some s => LastActiveTime s <? LastActiveTime status | None => false end
  then (assign m' obj status, inserted)
  else (m', inserted).

Definition incr_public (d : DirectionStats) : DirectionStats :=
  mkDirectionStats (wrap 32 (public_ d + 1)) (private_ d).
Definition incr_private (d : DirectionStats) : DirectionStats :=
  mkDirectionStats (public_ d) (wrap 32 (private_ d + 1)).

Definition IncrementConnectionStats (t : ConnectionTracker) (conn : Connection) (stats : ConnStats) : ConnStats :=
  if negb (ShouldFetchConnection t conn) then stats
  else
    let incr := if IsPublic (ep_address (remote_ conn)) then incr_public else incr_private in
    if is_server conn then mkConnStats (incr (inbound stats)) (outbound stats)
    else mkConnStats (inbound stats) (incr (outbound stats)).

Definition EmplaceOrUpdateNoLock (t : ConnectionTracker) (conn : Connection) (status : ConnStatus)
  : ConnectionTracker :=
  let t := set_stats (CounterInc net_conn_updates (collector_stats t)) t in
  let '(m, added) := EmplaceOrUpdate (conn_state_ t) conn status in
  let t := set_conn_state m t in
  if added then set_inserted (IncrementConnectionStats t conn (inserted_connections_counters_ t)) t else t.

Definition EmplaceOrUpdateNoLock_cep (t : ConnectionTracker) (ep : ContainerEndpoint) (status : ConnStatus)
  : ConnectionTracker :=
  let t := set_stats (CounterInc net_cep_updates (collector_stats t)) t in
  set_endpoint_state (EmplaceOrUpdate (endpoint_state_ t) ep status).1 t.

Definition UpdateConnection (t : ConnectionTracker) (conn : Connection) (timestamp : Z) (added : bool)
  : ConnectionTracker :=
  EmplaceOrUpdateNoLock t conn (ConnStatus_make timestamp added).

Definition AddConnection (t : ConnectionTracker) (conn : Connection) (timestamp : Z) : ConnectionTracker :=
  UpdateConnection t conn timestamp true.
Definition RemoveConnection (t : ConnectionTracker) (conn : Connection) (timestamp : Z) : ConnectionTracker :=
  UpdateConnection t conn timestamp false.

Definition Update (t : ConnectionTracker) (all_conns : list Connection)
    (all_listen_endpoints : list ContainerEndpoint) (timestamp : Z) : ConnectionTracker :=
  let t := set_conn_state (map_values (fun _ s => SetActive false s) (conn_state_ t)) t in
  let t := set_endpoint_state (map_values (fun _ s => SetActive false s) (endpoint_state_ t)) t in
  let new_status := ConnStatus_make timestamp true in
  let t := fold_left (fun t curr_conn => EmplaceOrUpdateNoLock t curr_conn new_status) all_conns t in
  fold_left (fun t curr_endpoint => EmplaceOrUpdateNoLock_cep t curr_endpoint new_status)
    all_listen_endpoints t.

(** ** Snapshots *)

(** The template [FetchState]: [process_fn] is [None] for [dont_normalize] and
    [filter_fn] is [None] for [dont_filter]; [E] is the equality of the result. *)
Definition fetch_one {T} (E : KeyEq T) (process_fn : option (T -> T)) (filter_fn : option (T -> bool))
    (fetched : umap T ConnStatus) (entry : T * ConnStatus) : umap T ConnStatus :=
  if match filter_fn with Some f => f entry.1 | None => true end then
    match process_fn with
    | Some process =>
        let k := process entry.1 in
        let '(m, inserted) := emplace fetched k entry.2 in
        if negb inserted then
          match Lookup m k with
          | Some s => assign m k (MergeFrom s entry.2)
          | None => m
          end
        else m
    | None => (emplace fetched entry.1 entry.2).1
    end
  else fetched.

Definition FetchState {T} (E : KeyEq T) (state : umap T ConnStatus) (clear_inactive : bool)
    (process_fn : option (T -> T)) (filter_fn : option (T -> bool))
  : umap T ConnStatus * umap T ConnStatus :=
  fold_left
    (fun '(fetched, kept) entry =>
       (fetch_one E process_fn filter_fn fetched entry,
        if clear_inactive && negb (IsActive entry.2) then kept else kept ++ [entry]))
    state ([], []).

Definition size {A} (l : list A) : Z := Z.of_nat (length l).

Definition FetchConnState (t : ConnectionTracker) (normalize clear_inactive : bool)
  : umap Connection ConnStatus * ConnectionTracker :=
  let state_size := size (conn_state_ t) in
  let '(cm, kept) :=
    FetchState KeyEq_Connection (conn_state_ t) clear_inactive
      (if normalize then Some (NormalizeConnectionNoLock t) else None)
      (if HasConnectionFilters t then Some (ShouldFetchConnection t) else None) in
  let t := set_conn_state kept t in
  (cm, set_stats (CounterAdd net_conn_inactive (wrap 64 (state_size - size (conn_state_ t)))
                             (collector_stats t)) t).

Definition FetchEndpointState (t : ConnectionTracker) (normalize clear_inactive : bool)
  : umap ContainerEndpoint ConnStatus * ConnectionTracker :=
  let state_size := size (conn_state_ t) in
  let '(cem, kept) :=
    FetchState KeyEq_Advertised (endpoint_state_ t) clear_inactive
      (if normalize then Some NormalizeContainerEndpoint else None)
      (if HasConnectionFilters t then Some (ShouldFetchContainerEndpoint t) else None) in
  let t := set_endpoint_state kept t in
  (cem, set_stats (CounterAdd net_cep_inactive (wrap 64 (state_size - size (endpoint_state_ t)))
                              (collector_stats t)) t).

(** ** Configuration *)

Definition UpdateKnownPublicIPs (t : ConnectionTracker) (known_public_ips : umap Address unit) : ConnectionTracker :=
  mkConnectionTracker (conn_state_ t) (endpoint_state_ t) known_public_ips (known_ip_networks_ t)
    (external_ips_config_ t) (known_private_networks_exists_ t) (ignored_l4proto_port_pairs_ t)
    (ignored_networks_ t) (non_aggregated_networks_ t) (inserted_connections_counters_ t)
    (CounterSet net_known_public_ips (size known_public_ips) (collector_stats t)).

(** The two loops of [UpdateKnownIPNetworks]: the tree of all networks, and
    which families have private ones. *)
Definition known_tree (known_ip_networks : umap Family.t (list IPNet)) : option nRadixNode :=
  insert_all NRadixTree_empty (concat (map snd known_ip_networks)).

Definition known_private (known_ip_networks : umap Family.t (list IPNet)) (tree : nRadixNode)
  : umap Family.t bool :=
  fold_left (fun m network_pair =>
               insert_or_assign m network_pair.1 (ContainsPrivateNetwork network_pair.1 tree))
    known_ip_networks [].

Definition UpdateKnownIPNetworks (t : ConnectionTracker) (known_ip_networks : umap Family.t (list IPNet))
  : option ConnectionTracker :=
  match known_tree known_ip_networks with
  | None => None
  | Some tree =>
      Some (mkConnectionTracker (conn_state_ t) (endpoint_state_ t) (known_public_ips_ t) tree
              (external_ips_config_ t) (known_private known_ip_networks tree)
              (ignored_l4proto_port_pairs_ t) (ignored_networks_ t) (non_aggregated_networks_ t)
              (inserted_connections_counters_ t)
              (fold_left (fun s network_pair => CounterAdd net_known_ip_networks (size network_pair.2) s)
                 known_ip_networks (CounterZero net_known_ip_networks (collector_stats t))))
  end.

Definition SetExternalIPsConfig (t : ConnectionTracker) (config : ExternalIPsConfig) : ConnectionTracker :=
  mkConnectionTracker (conn_state_ t) (endpoint_state_ t) (known_public_ips_ t) (known_ip_networks_ t)
    config (known_private_networks_exists_ t) (ignored_l4proto_port_pairs_ t)
    (ignored_networks_ t) (non_aggregated_networks_ t) (inserted_connections_counters_ t) (collector_stats t).

Definition UpdateIgnoredL4ProtoPortPairs (t : ConnectionTracker) (pairs : umap L4ProtoPortPair unit)
  : ConnectionTracker :=
  mkConnectionTracker (conn_state_ t) (endpoint_state_ t) (known_public_ips_ t) (known_ip_networks_ t)
    (external_ips_config_ t) (known_private_networks_exists_ t) pairs
    (ignored_networks_ t) (non_aggregated_networks_ t) (inserted_connections_counters_ t) (collector_stats t).

Definition UpdateIgnoredNetworks (t : ConnectionTracker) (network_list : list IPNet) : option ConnectionTracker :=
  match NRadixTree network_list with
  | None => None
  | Some tree =>
      Some (mkConnectionTracker (conn_state_ t) (endpoint_state_ t) (known_public_ips_ t) (known_ip_networks_ t)
              (external_ips_config_ t) (known_private_networks_exists_ t) (ignored_l4proto_port_pairs_ t)
              tree (non_aggregated_networks_ t) (inserted_connections_counters_ t) (collector_stats t))
  end.

Definition UpdateNonAggregatedNetworks (t : ConnectionTracker) (network_list : list IPNet) : option ConnectionTracker :=
  match NRadixTree network_list with
  | None => None
  | Some tree =>
      Some (mkConnectionTracker (conn_state_ t) (endpoint_state_ t) (known_public_ips_ t) (known_ip_networks_ t)
              (external_ips_config_ t) (known_private_networks_exists_ t) (ignored_l4proto_port_pairs_ t)
              (ignored_networks_ t) tree (inserted_connections_counters_ t) (collector_stats t))
  end.

(** ** Statistics *)

Definition GetConnectionStats_StoredConnections (t : ConnectionTracker) : ConnStats :=
  fold_left (fun stats conn => IncrementConnectionStats t conn.1 stats) (conn_state_ t) ConnStats_zero.

Definition GetConnectionStats_NewConnectionCounters (t : ConnectionTracker) : ConnStats :=
  inserted_connections_counters_ t.
End Operations.

(** ** Lemmas *)

(** *** EmplaceOrUpdate *)

(** The status kept for a key that is seen again. *)
Definition newer (old : option ConnStatus) (s : ConnStatus) : ConnStatus :=
  match old with
  | Some o => if LastActiveTime o <? LastActiveTime s then s else o
  | None => s
  end.

Lemma newer_idem old s : newer (Some (newer old s)) s = newer old s.
Proof.
  unfold newer. destruct old as [o|]; [|by rewrite Z.ltb_irrefl].
  destruct (LastActiveTime o <? LastActiveTime s) eqn:E; [by rewrite Z.ltb_irrefl|by rewrite E].
Qed.

Section Emplace.
Context {T : Type} `{HT : !KeyEq T} (P : T -> Prop) `{!KeyEqLaws T P}.

Lemma EmplaceOrUpdate_lookup (m : umap T ConnStatus) obj s :
  wf_umap P m -> P obj ->
  wf_umap P (EmplaceOrUpdate m obj s).1
  /\ (EmplaceOrUpdate m obj s).2 = negb (Contains m obj)
  /\ forall k, P k ->
       Lookup (EmplaceOrUpdate m obj s).1 k =
       if keqb k obj then Some (newer (Lookup m k) s) else Lookup m k.
Proof.
  intros Hw Ho. unfold EmplaceOrUpdate. destruct (emplace m obj s) as [m' inserted] eqn:Ee.
  assert (m' = (emplace m obj s).1) as -> by by rewrite Ee.
  assert (inserted = (emplace m obj s).2) as -> by by rewrite Ee.
  assert (wf_umap P (emplace m obj s).1) as Hw' by by apply wf_emplace.
  rewrite emplace_true, Contains_Lookup. unfold emplace in *. rewrite Contains_Lookup in *.
  destruct (Lookup m obj) as [o|] eqn:El; simpl in *.
  - assert (Contains m obj = true) as Hc by by rewrite Contains_Lookup, El.
    destruct (LastActiveTime o <? LastActiveTime s) eqn:Et; simpl;
      (split; [auto using wf_assign|]); (split; [done|]); intros k Hk;
      rewrite ?(Lookup_assign P), ?Hc by done;
      (destruct (keqb k obj) eqn:E; [|done]);
      rewrite (Lookup_congr P m k obj), El by done; simpl; by rewrite Et.
  - split_and!; [done..|]. intros k Hk. rewrite Lookup_app, Lookup_cons. simpl.
    destruct (keqb k obj) eqn:E; [|by destruct (Lookup m k)].
    by rewrite (Lookup_congr P m k obj), El by done.
Qed.

(** A whole scrape: every listed object is seen, any number of times. *)
Lemma EmplaceOrUpdate_list (m : umap T ConnStatus) objs s :
  wf_umap P m -> Forall P objs ->
  wf_umap P (fold_left (fun m o => (EmplaceOrUpdate m o s).1) objs m)
  /\ forall k, P k ->
       Lookup (fold_left (fun m o => (EmplaceOrUpdate m o s).1) objs m) k =
       if existsb (keqb k) objs then Some (newer (Lookup m k) s) else Lookup m k.
Proof.
  revert m. induction objs as [|o objs IH]; intros m Hw Ho; [done|].
  apply Forall_cons in Ho as [Ho Hos]. simpl.
  destruct (EmplaceOrUpdate_lookup m o s Hw Ho) as (Hw1 & _ & Hl1).
  destruct (IH _ Hw1 Hos) as [Hw2 Hl2]. split; [done|]. intros k Hk.
  rewrite Hl2, Hl1 by done. destruct (keqb k o), (existsb (keqb k) objs); cbn [orb]; try done.
  by rewrite newer_idem.
Qed.

Definition statuses_ok (m : umap T ConnStatus) : Prop := Forall (fun e => wf_status e.2) m.

Lemma statuses_assign m k s : statuses_ok m -> wf_status s -> statuses_ok (assign m k s).
Proof.
  unfold statuses_ok. intros Hm Hs. induction m as [|e m IH]; simpl; [done|].
  apply Forall_cons in Hm as [He Hm]. destruct (keqb k e.1); constructor; auto.
Qed.

Lemma statuses_emplace m k s : statuses_ok m -> wf_status s -> statuses_ok (emplace m k s).1.
Proof.
  unfold statuses_ok, emplace. intros Hm Hs. destruct (Contains m k); [done|].
  apply Forall_app. split; [done|]. constructor; [done|constructor].
Qed.

Lemma statuses_EmplaceOrUpdate m k s :
  statuses_ok m -> wf_status s -> statuses_ok (EmplaceOrUpdate m k s).1.
Proof.
  intros Hm Hs. unfold EmplaceOrUpdate. pose proof (statuses_emplace m k s Hm Hs).
  destruct (emplace m k s) as [m' b]. simpl in *. destr_if; simpl; [by apply statuses_assign|done].
Qed.

Lemma statuses_list m objs s :
  statuses_ok m -> wf_status s -> statuses_ok (fold_left (fun m o => (EmplaceOrUpdate m o s).1) objs m).
Proof.
  intros Hm Hs. revert m Hm. induction objs as [|o objs IH]; intros m Hm; [done|].
  simpl. by apply IH, statuses_EmplaceOrUpdate.
Qed.

Lemma statuses_inactive m : statuses_ok m -> statuses_ok (map_values (fun _ s => SetActive false s) m).
Proof.
  unfold statuses_ok, map_values. intros Hm. apply Forall_map.
  apply (Forall_impl _ _ _ Hm). intros e He. by apply wf_SetActive.
Qed.

Lemma statuses_filter f m : statuses_ok m -> statuses_ok (List.filter f m).
Proof.
  unfold statuses_ok. rewrite !List.Forall_forall. intros Hm e He. apply filter_In in He as [He _]. auto.
Qed.

Lemma statuses_lookup m k s : statuses_ok m -> Lookup m k = Some s -> wf_status s.
Proof.
  unfold statuses_ok, Lookup. rewrite List.Forall_forall. intros Hm E.
  destruct (Find m k) as [e|] eqn:Ef; [|done]. simpl in E. injection E as <-.
  apply Find_Some in Ef as [Hin _]. auto.
Qed.
End Emplace.

(** *** Snapshots *)

Section Fetch.
Context {T : Type} (E : KeyEq T) (Q : T -> Prop) (HL : @KeyEqLaws T E Q).

(** The merge of the statuses of several objects. *)
Definition merge_all (l : list ConnStatus) : option ConnStatus :=
  fold_left (fun acc s => Some (match acc with Some a => MergeFrom a s | None => s end)) l None.

Definition accepted (filter_fn : option (T -> bool)) (k : T) : bool :=
  match filter_fn with Some f => f k | None => true end.

Lemma FetchState_split state clear process_fn filter_fn :
  FetchState E state clear process_fn filter_fn =
  (fold_left (fetch_one E process_fn filter_fn) state [],
   if clear then List.filter (fun e => IsActive e.2) state else state).
Proof.
  unfold FetchState.
  assert (forall l f kept,
    fold_left (fun '(fetched, kept) entry =>
       (fetch_one E process_fn filter_fn fetched entry,
        if clear && negb (IsActive entry.2) then kept else kept ++ [entry])) l (f, kept)
    = (fold_left (fetch_one E process_fn filter_fn) l f,
       kept ++ (if clear then List.filter (fun e => IsActive e.2) l else l))) as Hg.
  { induction l as [|e l IH]; intros f kept; simpl.
    - by destruct clear; rewrite app_nil_r.
    - rewrite IH. f_equal. destruct clear; simpl; [|by rewrite <- app_assoc].
      destruct (IsActive e.2); simpl; [by rewrite <- app_assoc|done]. }
  apply (Hg state [] []).
Qed.

Section Normalized.
Context (process : T -> T) (filter_fn : option (T -> bool)).

Lemma fetch_one_lookup m e :
  wf_umap Q m -> (accepted filter_fn e.1 = true -> Q (process e.1)) ->
  wf_umap Q (fetch_one E (Some process) filter_fn m e)
  /\ forall k, Q k ->
       Lookup (fetch_one E (Some process) filter_fn m e) k =
       if accepted filter_fn e.1 && keqb k (process e.1)
       then Some (match Lookup m k with Some a => MergeFrom a e.2 | None => e.2 end)
       else Lookup m k.
Proof.
  intros Hw Hq. unfold fetch_one. fold (accepted filter_fn e.1).
  destruct (accepted filter_fn e.1); simpl; [|done]. specialize (Hq eq_refl).
  unfold emplace. rewrite Contains_Lookup. destruct (Lookup m (process e.1)) as [s|] eqn:El; simpl.
  - rewrite El. split; [by apply wf_assign|]. intros k Hk. rewrite (Lookup_assign Q) by done.
    rewrite Contains_Lookup, El. destruct (keqb k (process e.1)) eqn:Ek; [|done].
    by rewrite (Lookup_congr Q m k (process e.1)), El by done.
  - split; [apply uniq_app_single; try done; by rewrite <- Contains_false, Contains_Lookup, El|].
    intros k Hk. rewrite Lookup_app, Lookup_cons. simpl.
    destruct (keqb k (process e.1)) eqn:Ek; [|by destruct (Lookup m k)].
    by rewrite (Lookup_congr Q m k (process e.1)), El by done.
Qed.

Lemma fetch_lookup state :
  Forall (fun e => accepted filter_fn e.1 = true -> Q (process e.1)) state ->
  wf_umap Q (fold_left (fetch_one E (Some process) filter_fn) state [])
  /\ forall k, Q k ->
       Lookup (fold_left (fetch_one E (Some process) filter_fn) state []) k =
       merge_all (map snd (List.filter (fun e => accepted filter_fn e.1 && keqb k (process e.1)) state)).
Proof.
  intros Hs. unfold merge_all.
  assert (forall m, wf_umap Q m ->
    wf_umap Q (fold_left (fetch_one E (Some process) filter_fn) state m)
    /\ forall k, Q k ->
       Lookup (fold_left (fetch_one E (Some process) filter_fn) state m) k =
       fold_left (fun acc s => Some (match acc with Some a => MergeFrom a s | None => s end))
         (map snd (List.filter (fun e => accepted filter_fn e.1 && keqb k (process e.1)) state))
         (Lookup m k)) as Hg; [|apply Hg, wf_nil].
  induction state as [|e state IH]; intros m Hm; [done|].
  apply Forall_cons in Hs as [He Hs]. simpl.
  destruct (fetch_one_lookup m e Hm He) as [Hw1 Hl1]. destruct (IH Hs _ Hw1) as [Hw2 Hl2].
  split; [done|]. intros k Hk. rewrite Hl2, Hl1 by done.
  by destruct (accepted filter_fn e.1 && keqb k (process e.1)).
Qed.
End Normalized.

(** Without normalization the first entry of a key counts. *)
Lemma fetch_plain_lookup (filter_fn : option (T -> bool)) state :
  Forall (fun e => Q e.1) state ->
  wf_umap Q (fold_left (fetch_one E None filter_fn) state [])
  /\ forall k, Q k ->
       Lookup (fold_left (fetch_one E None filter_fn) state []) k
       = snd <$> List.find (fun e => accepted filter_fn e.1 && keqb k e.1) state.
Proof.
  intros Hs.
  assert (forall m, wf_umap Q m ->
    wf_umap Q (fold_left (fetch_one E None filter_fn) state m)
    /\ forall k, Q k ->
       Lookup (fold_left (fetch_one E None filter_fn) state m) k
       = match Lookup m k with
         | Some s => Some s
         | None => snd <$> List.find (fun e => accepted filter_fn e.1 && keqb k e.1) state
         end) as Hg; [|apply Hg, wf_nil].
  induction state as [|e state IH]; intros m Hm; [split; [done|]; intros k _; simpl; by destruct (Lookup m k)|].
  apply Forall_cons in Hs as [He Hs]. cbn [fold_left List.find]. unfold fetch_one at 2 4. fold (accepted filter_fn e.1).
  destruct (accepted filter_fn e.1); cbn [andb]; [|by apply IH].
  destruct (IH Hs (emplace m e.1 e.2).1) as [Hw Hl]; [by apply wf_emplace|].
  split; [done|]. intros k Hk. rewrite Hl, (Lookup_emplace Q) by done.
  destruct (Lookup m k); [done|]. by destruct (keqb k e.1).
Qed.
End Fetch.

(** Merging is the maximum of the packed words, so the order of the objects
    does not matter. *)
Lemma merge_all_max l s :
  merge_all (s :: l) = Some (mkConnStatus (fold_left Z.max (map status_data l) (status_data s))).
Proof.
  unfold merge_all. cbn [fold_left]. revert s. induction l as [|x l IH]; intros s; simpl; [by destruct s|].
  apply (IH (MergeFrom s x)).
Qed.

(** *** The members each operation changes *)

Section Members.
Context `{HostEndian}.

Lemma EmplaceOrUpdateNoLock_conns t c s :
  conn_state_ (EmplaceOrUpdateNoLock t c s) = (EmplaceOrUpdate (conn_state_ t) c s).1.
Proof.
  unfold EmplaceOrUpdateNoLock. cbn [conn_state_ set_stats].
  destruct (EmplaceOrUpdate (conn_state_ t) c s) as [m []]; done.
Qed.

(** The members an update of connections leaves alone. *)
Record same_config (t t' : ConnectionTracker) : Prop := {
  same_ips : known_public_ips_ t' = known_public_ips_ t;
  same_networks : known_ip_networks_ t' = known_ip_networks_ t;
  same_external : external_ips_config_ t' = external_ips_config_ t;
  same_private : known_private_networks_exists_ t' = known_private_networks_exists_ t;
  same_pairs : ignored_l4proto_port_pairs_ t' = ignored_l4proto_port_pairs_ t;
  same_ignored : ignored_networks_ t' = ignored_networks_ t;
  same_non_agg : non_aggregated_networks_ t' = non_aggregated_networks_ t
}.

#[global] Instance same_config_preorder : PreOrder same_config.
Proof. split; [by split|]. intros a b c [] []. split; congruence. Qed.

Lemma EmplaceOrUpdateNoLock_rest t c s :
  endpoint_state_ (EmplaceOrUpdateNoLock t c s) = endpoint_state_ t
  /\ same_config t (EmplaceOrUpdateNoLock t c s).
Proof.
  unfold EmplaceOrUpdateNoLock. cbn [conn_state_ set_stats].
  by destruct (EmplaceOrUpdate (conn_state_ t) c s) as [m []].
Qed.

Lemma fold_conns t cs s :
  let t' := fold_left (fun t c => EmplaceOrUpdateNoLock t c s) cs t in
  conn_state_ t' = fold_left (fun m c => (EmplaceOrUpdate m c s).1) cs (conn_state_ t)
  /\ endpoint_state_ t' = endpoint_state_ t /\ same_config t t'.
Proof.
  cbv zeta. revert t. induction cs as [|c cs IH]; intros t; [done|]. simpl.
  destruct (IH (EmplaceOrUpdateNoLock t c s)) as (-> & -> & Hc).
  destruct (EmplaceOrUpdateNoLock_rest t c s) as [-> Hc1].
  rewrite EmplaceOrUpdateNoLock_conns. split_and!; [done..|]. by etransitivity.
Qed.

Lemma fold_ceps t es s :
  let t' := fold_left (fun t e => EmplaceOrUpdateNoLock_cep t e s) es t in
  endpoint_state_ t' = fold_left (fun m e => (EmplaceOrUpdate m e s).1) es (endpoint_state_ t)
  /\ conn_state_ t' = conn_state_ t /\ same_config t t'
  /\ inserted_connections_counters_ t' = inserted_connections_counters_ t.
Proof.
  cbv zeta. revert t. induction es as [|e es IH]; intros t; [done|]. simpl.
  destruct (IH (EmplaceOrUpdateNoLock_cep t e s)) as (-> & -> & Hc & ->).
  split_and!; [done..| |done]. by etransitivity; [|done].
Qed.

Lemma Update_members t cs es ts :
  let s := ConnStatus_make ts true in
  let t' := Update t cs es ts in
  conn_state_ t' = fold_left (fun m c => (EmplaceOrUpdate m c s).1) cs
                     (map_values (fun _ s => SetActive false s) (conn_state_ t))
  /\ endpoint_state_ t' = fold_left (fun m e => (EmplaceOrUpdate m e s).1) es
                            (map_values (fun _ s => SetActive false s) (endpoint_state_ t))
  /\ same_config t t'.
Proof.
  cbv zeta. unfold Update.
  set (t1 := set_endpoint_state _ _).
  destruct (fold_conns t1 cs (ConnStatus_make ts true)) as (Ec & Ee & Hc).
  set (t2 := fold_left _ cs t1) in *.
  destruct (fold_ceps t2 es (ConnStatus_make ts true)) as (Ee2 & Ec2 & Hc2 & _).
  rewrite Ec2, Ec, Ee2, Ee. split_and!; [done..|].
  transitivity t1; [by split|]. by transitivity t2.
Qed.

(** What a scrape makes of one key. *)
Definition update_of (seen : bool) (old : option ConnStatus) (ts : Z) : option ConnStatus :=
  let old := SetActive false <$> old in
  if seen then Some (newer old (ConnStatus_make ts true)) else old.

Lemma Lookup_map_inactive {T} `{!KeyEq T} (m : umap T ConnStatus) k :
  Lookup (map_values (fun _ s => SetActive false s) m) k = SetActive false <$> Lookup m k.
Proof. unfold Lookup. rewrite Find_map_values. by destruct (Find m k). Qed.

(** *** Filters *)

Lemma Find_empty n : net_IsNull (Find_net NRadixTree_empty n) = true.
Proof.
  assert (net_IsNull IPNet_default = true) as Hd by reflexivity.
  unfold Find_net. destruct (net_IsNull n); [done|]. destruct (bits n =? 0); [done|].
  assert (find_loop NRadixTree_empty n cursor_start IPNet_default = IPNet_default) as ->.
  { unfold NRadixTree_empty, nRadixNode_new. cbn [find_loop].
    destruct (negb (mask_test n cursor_start)); [done|].
    destruct (advance n cursor_start); by destruct (addr_test n cursor_start). }
  by destruct (Family.eqb _ _).
Qed.

Lemma IsEmpty_spec t : IsEmpty t = true <-> t = NRadixTree_empty.
Proof. destruct t as [|[] [] []]; simpl; split; done. Qed.

(** Without filters everything is fetched, so skipping the test is sound. *)
Lemma no_filters t :
  HasConnectionFilters t = false ->
  (forall c, ShouldFetchConnection t c = true) /\ (forall c, ShouldFetchContainerEndpoint t c = true).
Proof.
  unfold HasConnectionFilters. intros Hf. apply orb_false_iff in Hf as [Hp Hn].
  apply negb_false_iff in Hp, Hn. apply IsEmpty_spec in Hn.
  destruct (ignored_l4proto_port_pairs_ t) as [|] eqn:Ep; [|done].
  unfold ShouldFetchConnection, ShouldFetchContainerEndpoint, IsIgnoredL4ProtoPortPair, Find_addr.
  rewrite Ep, Hn. split; intros c; simpl; [|done]. apply Find_empty.
Qed.

Lemma accepted_filters t k :
  accepted (if HasConnectionFilters t then Some (ShouldFetchConnection t) else None) k = ShouldFetchConnection t k.
Proof.
  destruct (HasConnectionFilters t) eqn:E; simpl; [done|]. symmetry. by apply no_filters.
Qed.

Lemma accepted_filters_cep t k :
  accepted (if HasConnectionFilters t then Some (ShouldFetchContainerEndpoint t) else None) k
  = ShouldFetchContainerEndpoint t k.
Proof.
  destruct (HasConnectionFilters t) eqn:E; simpl; [done|]. symmetry. by apply no_filters.
Qed.

(** What a snapshot has for a connection and for an endpoint. *)
Definition conn_status_of (t : ConnectionTracker) (normalize : bool) (k : Connection) : option ConnStatus :=
  if normalize
  then merge_all (map snd (List.filter
         (fun e => ShouldFetchConnection t e.1 && conn_eqb k (NormalizeConnectionNoLock t e.1)) (conn_state_ t)))
  else snd <$> List.find (fun e => ShouldFetchConnection t e.1 && conn_eqb k e.1) (conn_state_ t).

Definition cep_status_of (t : ConnectionTracker) (normalize : bool) (k : ContainerEndpoint) : option ConnStatus :=
  if normalize
  then merge_all (map snd (List.filter
         (fun e => ShouldFetchContainerEndpoint t e.1 && AdvertisedEndpointEquality k (NormalizeContainerEndpoint e.1))
         (endpoint_state_ t)))
  else snd <$> List.find (fun e => ShouldFetchContainerEndpoint t e.1 && AdvertisedEndpointEquality k e.1)
                 (endpoint_state_ t).

Lemma find_ext {A} (f g : A -> bool) l : (forall x, f x = g x) -> List.find f l = List.find g l.
Proof. intros E. induction l as [|x l IH]; simpl; [done|]. rewrite E, IH. done. Qed.

Lemma FetchConnState_content t (normalize clear : bool) (Q : Connection -> Prop) (HL : KeyEqLaws Connection Q) :
  Forall (fun e => Q (if normalize then NormalizeConnectionNoLock t e.1 else e.1)) (conn_state_ t) ->
  wf_umap Q (FetchConnState t normalize clear).1
  /\ forall k, Q k -> Lookup (FetchConnState t normalize clear).1 k = conn_status_of t normalize k.
Proof.
  intros Hs. unfold FetchConnState, conn_status_of. rewrite FetchState_split. cbn [fst]. destruct normalize.
  - destruct (fetch_lookup KeyEq_Connection Q HL (NormalizeConnectionNoLock t)
      (if HasConnectionFilters t then Some (ShouldFetchConnection t) else None) (conn_state_ t)) as [Hw Hl].
    { apply (Forall_impl _ _ _ Hs). done. }
    split; [done|]. intros k Hk. rewrite Hl by done. do 2 f_equal. apply filter_ext. intros e. by rewrite accepted_filters.
  - destruct (fetch_plain_lookup KeyEq_Connection Q HL
      (if HasConnectionFilters t then Some (ShouldFetchConnection t) else None) (conn_state_ t) Hs) as [Hw Hl].
    split; [done|]. intros k Hk. rewrite Hl by done. f_equal. apply find_ext. intros e. by rewrite accepted_filters.
Qed.

Lemma FetchEndpointState_content t (normalize clear : bool) :
  Forall (fun e => cep_class addr_net e.1) (endpoint_state_ t) ->
  @wf_umap _ _ KeyEq_Advertised (cep_class addr_net) (FetchEndpointState t normalize clear).1
  /\ forall k, cep_class addr_net k ->
       @Lookup _ _ KeyEq_Advertised (FetchEndpointState t normalize clear).1 k = cep_status_of t normalize k.
Proof.
  intros Hs. unfold FetchEndpointState, cep_status_of. rewrite FetchState_split. cbn [fst]. destruct normalize.
  - destruct (fetch_lookup KeyEq_Advertised (cep_class addr_net) (KeyEqLaws_Advertised addr_net) NormalizeContainerEndpoint
      (if HasConnectionFilters t then Some (ShouldFetchContainerEndpoint t) else None) (endpoint_state_ t)) as [Hw Hl].
    { apply List.Forall_forall. intros e _ _. unfold cep_class, ep_class. split; [|done].
      apply wf_IPNet_of_address, wf_Address_family. }
    split; [done|]. intros k Hk. rewrite Hl by done. do 2 f_equal. apply filter_ext. intros e. by rewrite accepted_filters_cep.
  - destruct (fetch_plain_lookup KeyEq_Advertised (cep_class addr_net) (KeyEqLaws_Advertised addr_net)
      (if HasConnectionFilters t then Some (ShouldFetchContainerEndpoint t) else None) (endpoint_state_ t) Hs) as [Hw Hl].
    split; [done|]. intros k Hk. rewrite Hl by done. f_equal. apply find_ext. intros e. by rewrite accepted_filters_cep.
Qed.
End Members.

(** ** The invariant and the operations as transitions *)

Section Invariant.
Context `{HostEndian}.

Record tracker_ok (t : ConnectionTracker) : Prop := {
  ok_conns : wf_umap (conn_class addr_net) (conn_state_ t);
  ok_conn_statuses : statuses_ok (conn_state_ t);
  ok_ceps : wf_umap (cep_class addr_net) (endpoint_state_ t);
  ok_cep_statuses : statuses_ok (endpoint_state_ t);
  ok_known : tree_ok (known_ip_networks_ t);
  ok_ignored : tree_ok (ignored_networks_ t);
  ok_non_aggregated : tree_ok (non_aggregated_networks_ t)
}.

Inductive op : Type :=
| OpUpdateConnection (conn : Connection) (timestamp : Z) (added : bool)
| OpUpdate (conns : list Connection) (eps : list ContainerEndpoint) (timestamp : Z)
| OpFetchConnState (normalize clear_inactive : bool)
| OpFetchEndpointState (normalize clear_inactive : bool)
| OpUpdateKnownPublicIPs (ips : umap Address unit)
| OpUpdateKnownIPNetworks (networks : umap Family.t (list IPNet))
| OpSetExternalIPsConfig (config : ExternalIPsConfig)
| OpUpdateIgnoredL4ProtoPortPairs (pairs : umap L4ProtoPortPair unit)
| OpUpdateIgnoredNetworks (networks : list IPNet)
| OpUpdateNonAggregatedNetworks (networks : list IPNet).

Definition exec (t : ConnectionTracker) (o : op) : option ConnectionTracker :=
  match o with
  | OpUpdateConnection c ts added => Some (UpdateConnection t c ts added)
  | OpUpdate cs es ts => Some (Update t cs es ts)
  | OpFetchConnState n c => Some (FetchConnState t n c).2
  | OpFetchEndpointState n c => Some (FetchEndpointState t n c).2
  | OpUpdateKnownPublicIPs ips => Some (UpdateKnownPublicIPs t ips)
  | OpUpdateKnownIPNetworks nets => UpdateKnownIPNetworks t nets
  | OpSetExternalIPsConfig c => Some (SetExternalIPsConfig t c)
  | OpUpdateIgnoredL4ProtoPortPairs ps => Some (UpdateIgnoredL4ProtoPortPairs t ps)
  | OpUpdateIgnoredNetworks nets => UpdateIgnoredNetworks t nets
  | OpUpdateNonAggregatedNetworks nets => UpdateNonAggregatedNetworks t nets
  end.

Fixpoint exec_all (t : ConnectionTracker) (os : list op) : option ConnectionTracker :=
  match os with
  | [] => Some t
  | o :: os => match exec t o with Some t' => exec_all t' os | None => None end
  end.

(** Connections and endpoints come from addresses, networks from the
    constructors. *)
Definition op_ok (o : op) : Prop :=
  match o with
  | OpUpdateConnection c _ _ => conn_class addr_net c
  | OpUpdate cs es _ => Forall (conn_class addr_net) cs /\ Forall (cep_class addr_net) es
  | OpUpdateKnownIPNetworks nets => Forall (fun e => Forall wf_net e.2) nets
  | OpUpdateIgnoredNetworks nets | OpUpdateNonAggregatedNetworks nets => Forall wf_net nets
  | _ => True
  end.

Lemma tracker_ok_new : tracker_ok ConnectionTracker_new.
Proof. split; simpl; try apply wf_nil; try apply tree_ok_empty; constructor. Qed.

Lemma tracker_ok_same t t' :
  tracker_ok t -> same_config t t' ->
  wf_umap (conn_class addr_net) (conn_state_ t') -> statuses_ok (conn_state_ t') ->
  wf_umap (cep_class addr_net) (endpoint_state_ t') -> statuses_ok (endpoint_state_ t') ->
  tracker_ok t'.
Proof.
  intros Ht [] ? ? ? ?. destruct Ht. split; congruence || done.
Qed.

Lemma tracker_ok_UpdateConnection t c ts added :
  tracker_ok t -> conn_class addr_net c -> tracker_ok (UpdateConnection t c ts added).
Proof.
  intros Ht Hc. destruct (EmplaceOrUpdateNoLock_rest t c (ConnStatus_make ts added)) as [Ee Hs].
  apply (tracker_ok_same t); [done|done|..]; unfold UpdateConnection;
    rewrite ?EmplaceOrUpdateNoLock_conns, ?Ee; try apply Ht.
  - apply (EmplaceOrUpdate_lookup (conn_class addr_net)); [apply Ht|done].
  - apply statuses_EmplaceOrUpdate; [apply Ht|apply wf_make].
Qed.

Lemma tracker_ok_Update t cs es ts :
  tracker_ok t -> Forall (conn_class addr_net) cs -> Forall (cep_class addr_net) es ->
  tracker_ok (Update t cs es ts).
Proof.
  intros Ht Hc He. destruct (Update_members t cs es ts) as (Ec & Ee & Hs).
  apply (tracker_ok_same t); [done|done|rewrite Ec..|rewrite Ee|rewrite Ee].
  - apply (EmplaceOrUpdate_list (conn_class addr_net)); [apply wf_map_values, Ht|done].
  - apply statuses_list; [apply statuses_inactive, Ht|apply wf_make].
  - apply (EmplaceOrUpdate_list (cep_class addr_net)); [apply wf_map_values, Ht|done].
  - apply statuses_list; [apply statuses_inactive, Ht|apply wf_make].
Qed.

Lemma FetchConnState_members t n c :
  conn_state_ (FetchConnState t n c).2
    = (if c then List.filter (fun e => IsActive e.2) (conn_state_ t) else conn_state_ t)
  /\ endpoint_state_ (FetchConnState t n c).2 = endpoint_state_ t
  /\ same_config t (FetchConnState t n c).2.
Proof. unfold FetchConnState. rewrite FetchState_split. simpl. split_and!; [done..|by split]. Qed.

Lemma FetchEndpointState_members t n c :
  endpoint_state_ (FetchEndpointState t n c).2
    = (if c then List.filter (fun e => IsActive e.2) (endpoint_state_ t) else endpoint_state_ t)
  /\ conn_state_ (FetchEndpointState t n c).2 = conn_state_ t
  /\ same_config t (FetchEndpointState t n c).2.
Proof. unfold FetchEndpointState. rewrite FetchState_split. simpl. split_and!; [done..|by split]. Qed.

Lemma tracker_ok_FetchConnState t n c : tracker_ok t -> tracker_ok (FetchConnState t n c).2.
Proof.
  intros Ht. destruct (FetchConnState_members t n c) as (Ec & Ee & Hs).
  apply (tracker_ok_same t); [done|done|rewrite Ec..|rewrite Ee|rewrite Ee]; try apply Ht;
    destruct c; try apply Ht; [apply wf_filter, Ht|apply statuses_filter, Ht].
Qed.

Lemma tracker_ok_FetchEndpointState t n c : tracker_ok t -> tracker_ok (FetchEndpointState t n c).2.
Proof.
  intros Ht. destruct (FetchEndpointState_members t n c) as (Ee & Ec & Hs).
  apply (tracker_ok_same t); [done|done|rewrite Ec..|rewrite Ee|rewrite Ee]; try apply Ht;
    destruct c; try apply Ht; [apply wf_filter, Ht|apply statuses_filter, Ht].
Qed.

Lemma tree_of_networks nets :
  Forall wf_net nets -> exists tree, insert_all NRadixTree_empty nets = Some tree /\ tree_ok tree.
Proof.
  intros Hn. destruct (insert_all_spec nets NRadixTree_empty tree_ok_empty Hn) as (t & E & Ht & _).
  by exists t.
Qed.

Lemma Forall_concat_snd (nets : umap Family.t (list IPNet)) :
  Forall (fun e => Forall wf_net e.2) nets -> Forall wf_net (concat (map snd nets)).
Proof. induction 1; simpl; [constructor|]. by apply Forall_app. Qed.

Lemma exec_ok t o : tracker_ok t -> op_ok o -> exists t', exec t o = Some t' /\ tracker_ok t'.
Proof.
  intros Ht Ho. destruct o; simpl in *.
  - eexists. split; [done|]. by apply tracker_ok_UpdateConnection.
  - eexists. split; [done|]. by apply tracker_ok_Update; destruct Ho.
  - eexists. split; [done|]. by apply tracker_ok_FetchConnState.
  - eexists. split; [done|]. by apply tracker_ok_FetchEndpointState.
  - eexists. split; [done|]. destruct Ht; by split.
  - unfold UpdateKnownIPNetworks, known_tree.
    destruct (tree_of_networks _ (Forall_concat_snd networks Ho)) as (tree & -> & Htree).
    eexists. split; [done|]. destruct Ht; by split.
  - eexists. split; [done|]. destruct Ht; by split.
  - eexists. split; [done|]. destruct Ht; by split.
  - unfold UpdateIgnoredNetworks, NRadixTree.
    destruct (tree_of_networks networks Ho) as (tree & -> & Htree).
    eexists. split; [done|]. destruct Ht; by split.
  - unfold UpdateNonAggregatedNetworks, NRadixTree.
    destruct (tree_of_networks networks Ho) as (tree & -> & Htree).
    eexists. split; [done|]. destruct Ht; by split.
Qed.

Lemma exec_all_ok t os : tracker_ok t -> Forall op_ok os -> exists t', exec_all t os = Some t' /\ tracker_ok t'.
Proof.
  intros Ht Hos. revert t Ht. induction Hos as [|o os Ho _ IH]; intros t Ht; simpl; [by exists t|].
  destruct (exec_ok t o Ht Ho) as (t1 & -> & Ht1). by apply IH.
Qed.
End Invariant.

(** ** Normalization against a reference without trees *)

Section Normalize.
Context `{HostEndian}.

(** The longest of the networks around an address, by a linear scan. *)
Definition best_network (nets : list IPNet) (a : Address) : option IPNet :=
  longest_prefix nets (IPNet_of_address a).

Definition in_networks (nets : list IPNet) (a : Address) : bool := existsb (fun n => net_contains n a) nets.

(** The stored networks that share their bits with an address are of its family. *)
Definition families_agree (tree : nRadixNode) (a : Address) : Prop :=
  forall x, In x (GetAll tree) -> net_path x `prefix_of` full_path a -> net_family x = family a.

Lemma net_path_of_address a : net_path (IPNet_of_address a) = addr_path a (Z.to_nat (8 * Length (family_ a))).
Proof.
  unfold net_path, IPNet_of_address, IPNet_make, family, length_of. cbn [address_ bits_].
  destruct (Z.ltb_spec (Length (family_ a) * 8) (8 * Length (family_ a))); [lia|done].
Qed.

Lemma bits_of_address a : bits_ (IPNet_of_address a) = 8 * Length (family_ a).
Proof.
  unfold IPNet_of_address, IPNet_make, family, length_of. cbn [bits_].
  destruct (Z.ltb_spec (Length (family_ a) * 8) (8 * Length (family_ a))); lia.
Qed.

Lemma covers_address x a : wf_net x -> covers x (IPNet_of_address a) = net_contains x a.
Proof.
  intros Hx. unfold covers. rewrite bits_of_address. cbn [address_ IPNet_of_address IPNet_make].
  destruct (net_contains x a) eqn:E; [|by rewrite andb_false_r].
  unfold net_contains in E. destruct (Family.eqb (family a) (family (address_ x))) eqn:Ef; [|done].
  apply eqb_true in Ef. unfold family in Ef. pose proof (wf_net_bits x Hx). rewrite <- Ef in *.
  rewrite andb_true_r. apply Z.leb_le. lia.
Qed.

Lemma Find_addr_ref tree a :
  tree_ok tree -> wf_addr a -> families_agree tree a ->
  Find_addr tree a = default IPNet_default (best_network (GetAll tree) a).
Proof.
  intros Ht Ha Hf. unfold Find_addr, best_network.
  pose proof (wf_IPNet_of_address a Ha) as Hn. pose proof (wf_net_128 _ Hn).
  destruct (Z.eq_dec (bits_ (IPNet_of_address a)) 0) as [E0|Hne].
  - pose proof (fold_better (IPNet_of_address a) (GetAll tree) None) as Hfold. unfold longest_prefix.
    unfold Find_net, bits. rewrite E0. destruct (fold_left _ _ _) as [z|]; [|by destruct (net_IsNull _)].
    destruct Hfold as ([[Hz Hc]|?] & _); [|done]. destruct (In_GetAll_wf tree z Ht Hz) as [Hwz Hbz].
    unfold covers in Hc. apply andb_true_iff in Hc as [Hle _]. apply Z.leb_le in Hle. lia.
  - apply Find_longest; [done|done|lia|]. intros x Hx Hpre. apply Hf; [done|].
    rewrite net_path_of_address in Hpre. etransitivity; [done|]. apply addr_path_prefix.
    rewrite bits_of_address in *. lia.
Qed.

(** A stored network is never null, so a null answer means that none was found. *)
Lemma Find_addr_null tree a :
  tree_ok tree -> wf_addr a -> families_agree tree a ->
  net_IsNull (Find_addr tree a) = match best_network (GetAll tree) a with Some _ => false | None => true end
  /\ (best_network (GetAll tree) a = None <-> in_networks (GetAll tree) a = false).
Proof.
  intros Ht Ha Hf. rewrite Find_addr_ref by done. unfold best_network, longest_prefix.
  pose proof (fold_better (IPNet_of_address a) (GetAll tree) None) as Hfold.
  destruct (fold_left _ _ _) as [z|]; simpl.
  - destruct Hfold as ([[Hz Hc]|?] & _); [|done]. destruct (In_GetAll_wf tree z Ht Hz) as [Hwz Hbz]. split.
    + unfold net_IsNull. destruct (Z.eqb_spec (bits_ z) 0); [lia|done].
    + split; [done|]. intros Hin. unfold in_networks in Hin.
      rewrite <- not_true_iff_false, existsb_exists in Hin. destruct Hin. exists z.
      by rewrite <- covers_address.
  - split; [reflexivity|]. split; [|done]. intros _. unfold in_networks.
    apply not_true_iff_false. rewrite existsb_exists. intros (x & Hx & Hc).
    destruct (In_GetAll_wf tree x Ht Hx) as [Hwx _]. rewrite <- covers_address in Hc by done.
    destruct Hfold as [_ Hall]. rewrite Hall in Hc; done.
Qed.

(** An address that is reported as it is: private, or asked for. *)
Definition keeps (nonagg : list IPNet) (a : Address) : bool := negb (IsPublic a) || in_networks nonagg a.

Definition rest_of_internet (a : Address) : IPNet :=
  match family a with
  | Family.IPV4 => IPNet_make canonical_external_ipv4_addr 0 true
  | Family.IPV6 => IPNet_make canonical_external_ipv6_addr 0 true
  | Family.UNKNOWN => IPNet_default
  end.

Definition normalize_ref (known nonagg : list IPNet) (no_private : bool) (is_known_ip : bool)
    (a : Address) (ext : bool) : IPNet :=
  if IsNull a then IPNet_default
  else if keeps nonagg a && no_private then IPNet_make a 0 true
  else if keeps nonagg a || is_known_ip then
         IPNet_make a (match best_network known a with Some n => bits n | None => 0 end) true
  else match best_network known a with
       | Some n => n
       | None => if ext then IPNet_make a (8 * length_of a) false else rest_of_internet a
       end.

(** The family has known networks and none of them is private. *)
Definition no_known_private (t : ConnectionTracker) (a : Address) : bool :=
  match Lookup (known_private_networks_exists_ t) (family a) with Some b => negb b | None => false end.

Lemma NormalizeAddress_ref t a ext :
  tracker_ok t -> wf_addr a ->
  families_agree (known_ip_networks_ t) a -> families_agree (non_aggregated_networks_ t) a ->
  NormalizeAddressNoLock t a ext =
  normalize_ref (GetAll (known_ip_networks_ t)) (GetAll (non_aggregated_networks_ t))
    (no_known_private t a) (Contains (known_public_ips_ t) a) a ext.
Proof.
  intros Ht Ha Hk Hn. unfold NormalizeAddressNoLock, normalize_ref. destruct (IsNull a); [done|].
  destruct (Find_addr_null _ a (ok_non_aggregated t Ht) Ha Hn) as [-> Hnagg].
  assert (match best_network (GetAll (non_aggregated_networks_ t)) a with Some _ => false | None => true end
          = negb (in_networks (GetAll (non_aggregated_networks_ t)) a)) as ->.
  { destruct (best_network (GetAll (non_aggregated_networks_ t)) a), (in_networks _ a); simpl; try done.
    - by destruct Hnagg as [_ Hnagg]; specialize (Hnagg eq_refl).
    - by destruct Hnagg as [Hnagg _]; specialize (Hnagg eq_refl). }
  rewrite negb_involutive. fold (keeps (GetAll (non_aggregated_networks_ t)) a). fold (no_known_private t a).
  destruct (keeps _ a && no_known_private t a); [done|].
  destruct (Find_addr_null _ a (ok_known t Ht) Ha Hk) as [Hnull _].
  pose proof (Find_addr_ref _ a (ok_known t Ht) Ha Hk) as Hfind.
  rewrite (Z.mul_comm (length_of a) 8).
  destruct (keeps _ a || Contains _ a).
  - rewrite Hfind. by destruct (best_network (GetAll (known_ip_networks_ t)) a).
  - rewrite Hnull, Hfind. by destruct (best_network (GetAll (known_ip_networks_ t)) a).
Qed.
End Normalize.

(** *** Closing and counting *)

Section CloseCount.
Context `{HostEndian}.

(** Which connections a configuration change closes. *)
Definition must_close (t : ConnectionTracker) (prev : ExternalIPsConfig) (conn : Connection) : bool :=
  let direction := if is_server conn then INGRESS else EGRESS in
  let enabled := IsEnabled (external_ips_config_ t) direction in
  negb (eqb enabled (IsEnabled prev direction)) && should_close t conn enabled.

Lemma CloseConnections_kept {T} `{!KeyEq T} (old delta : umap T ConnStatus) pred :
  (CloseConnections old delta pred).1 = List.filter (fun e => negb (pred e.1)) old.
Proof. unfold CloseConnections. by rewrite CloseConnections_fold. Qed.

(** A closing that is done on a condition. *)
Lemma CloseIf_lookup {T} `{HT : !KeyEq T} (Q : T -> Prop) `{!KeyEqLaws T Q} (b : bool) (pred : T -> bool)
    (old delta : umap T ConnStatus) :
  (forall x y, Q x -> Q y -> keqb x y = true -> pred x = pred y) ->
  wf_umap Q old -> wf_umap Q delta ->
  let '(old', delta') := if b then CloseConnections old delta pred else (old, delta) in
  wf_umap Q old' /\ wf_umap Q delta'
  /\ forall k, Q k ->
       Lookup old' k = (if b && pred k then None else Lookup old k)
       /\ Lookup delta' k =
          match Lookup delta k with
          | Some d => Some d
          | None => if b && pred k then close_one <$> Lookup old k else None
          end.
Proof.
  intros Hp Ho Hd. destruct b; [by apply (CloseConnections_wf_lookup Q)|].
  split_and!; [done..|]. intros k Hk. by destruct (Lookup delta k).
Qed.

Lemma filter_filter {A} (f g : A -> bool) l :
  List.filter g (List.filter f l) = List.filter (fun x => f x && g x) l.
Proof.
  induction l as [|x l IH]; [done|]. simpl. destruct (f x); simpl; [|done].
  destruct (g x); by rewrite IH.
Qed.

Lemma filter_true {A} (l : list A) (f : A -> bool) : (forall x, In x l -> f x = true) -> List.filter f l = l.
Proof.
  induction l as [|x l IH]; [done|]. intros Hf. simpl. rewrite Hf by by left. f_equal. apply IH.
  intros y Hy. apply Hf. by right.
Qed.

Lemma CloseOnChange_kept t prev old delta :
  (CloseConnectionsOnExternalIPsConfigChange t prev old delta).1
  = List.filter (fun e => negb (must_close t prev e.1)) old.
Proof.
  unfold CloseConnectionsOnExternalIPsConfigChange.
  set (egress := IsEnabled (external_ips_config_ t) EGRESS).
  set (ingress := IsEnabled (external_ips_config_ t) INGRESS).
  assert (forall e : Connection * ConnStatus,
    must_close t prev e.1 =
    (negb (eqb egress (IsEnabled prev EGRESS)) && (negb (is_server e.1) && should_close t e.1 egress))
    || (negb (eqb ingress (IsEnabled prev INGRESS)) && (is_server e.1 && should_close t e.1 ingress))) as Hm.
  { intros e. unfold must_close. fold egress ingress. destruct (is_server e.1); simpl; fold egress ingress.
    - by rewrite andb_false_r.
    - by rewrite andb_false_r, orb_false_r. }
  destruct (negb (eqb egress _)) eqn:Ee, (negb (eqb ingress _)) eqn:Ei.
  - pose proof (CloseConnections_kept old delta (fun conn => negb (is_server conn) && should_close t conn egress)) as E1.
    destruct (CloseConnections old delta _) as [o1 d1]. simpl in E1. subst o1.
    rewrite CloseConnections_kept, filter_filter. apply filter_ext. intros e. rewrite Hm. simpl. by rewrite negb_orb.
  - pose proof (CloseConnections_kept old delta (fun conn => negb (is_server conn) && should_close t conn egress)) as E1.
    destruct (CloseConnections old delta _) as [o1 d1]. simpl in *. subst o1.
    apply filter_ext. intros e. rewrite Hm. simpl. by rewrite orb_false_r.
  - rewrite CloseConnections_kept. apply filter_ext. intros e. by rewrite Hm.
  - simpl. symmetry. apply filter_true. intros e _. by rewrite Hm.
Qed.

Definition remote_public (c : Connection) : bool := IsPublic (ep_address (remote_ c)).

Definition stats_add (s d : ConnStats) : ConnStats :=
  mkConnStats (mkDirectionStats (public_ (inbound s) + public_ (inbound d)) (private_ (inbound s) + private_ (inbound d)))
              (mkDirectionStats (public_ (outbound s) + public_ (outbound d)) (private_ (outbound s) + private_ (outbound d))).

Definition stats_total (s : ConnStats) : Z :=
  public_ (inbound s) + private_ (inbound s) + public_ (outbound s) + private_ (outbound s).

Definition stats_nonneg (s : ConnStats) : Prop :=
  0 <= public_ (inbound s) /\ 0 <= private_ (inbound s) /\ 0 <= public_ (outbound s) /\ 0 <= private_ (outbound s).

(** The four counts of a list of connections. *)
Definition count_in (t : ConnectionTracker) (l : umap Connection ConnStatus) (f : Connection -> bool) : Z :=
  size (List.filter (fun e => ShouldFetchConnection t e.1 && f e.1) l).

Definition counts (t : ConnectionTracker) (l : umap Connection ConnStatus) : ConnStats :=
  mkConnStats
    (mkDirectionStats (count_in t l (fun c => is_server c && remote_public c))
                      (count_in t l (fun c => is_server c && negb (remote_public c))))
    (mkDirectionStats (count_in t l (fun c => negb (is_server c) && remote_public c))
                      (count_in t l (fun c => negb (is_server c) && negb (remote_public c)))).

Lemma size_filter_cons {A} (f : A -> bool) x l :
  size (List.filter f (x :: l)) = (if f x then 1 else 0) + size (List.filter f l).
Proof. simpl. unfold size. destruct (f x); simpl; lia. Qed.

Lemma size_nonneg {A} (l : list A) : 0 <= size l.
Proof. unfold size. lia. Qed.

Lemma IncrementConnectionStats_counts t e l s :
  stats_nonneg s -> stats_total s + size (e :: l) < 2 ^ 32 ->
  stats_nonneg (IncrementConnectionStats t e.1 s)
  /\ stats_total (IncrementConnectionStats t e.1 s) + size l < 2 ^ 32
  /\ stats_add (IncrementConnectionStats t e.1 s) (counts t l) = stats_add s (counts t (e :: l)).
Proof.
  intros Hs Ht. unfold stats_total, stats_nonneg, size in *. cbn [length] in Ht.
  unfold counts, count_in. rewrite !size_filter_cons.
  unfold IncrementConnectionStats. fold (remote_public e.1).
  destruct (ShouldFetchConnection t e.1); simpl.
  2: { split; [lia|]. split; [lia|]. unfold stats_add. simpl. f_equal; f_equal; lia. }
  assert (forall x, 0 <= x < 2 ^ 32 - 1 -> wrap 32 (x + 1) = x + 1) as Hw
    by (intros x Hx; unfold wrap; apply Z.mod_small; lia).
  destruct (is_server e.1), (remote_public e.1); simpl; rewrite Hw by lia;
    (split; [lia|]); (split; [lia|]); unfold stats_add; simpl; rewrite ?Hw by lia; f_equal; f_equal; lia.
Qed.

Lemma StoredConnections_counts t s l :
  stats_nonneg s -> stats_total s + size l < 2 ^ 32 ->
  fold_left (fun stats conn => IncrementConnectionStats t conn.1 stats) l s = stats_add s (counts t l).
Proof.
  revert s. induction l as [|e l IH]; intros s Hs Ht.
  - destruct s as [[] []]. unfold stats_add, counts, count_in, size. simpl. f_equal; f_equal; lia.
  - destruct (IncrementConnectionStats_counts t e l s Hs Ht) as (Hs' & Ht' & <-).
    cbn [fold_left]. by apply IH.
Qed.
End CloseCount.

(** ** Theorems *)

Section Theorems.
Context `{HostEndian}.

(** C10. The invariant of the tracker: any sequence of its operations
    completes and leaves it consistent: one entry per connection and per endpoint,
    valid statuses, and well-formed network trees. *)
Theorem tracker_invariant (os : list op) (Hos : Forall op_ok os) :
  exists t, exec_all ConnectionTracker_new os = Some t /\ tracker_ok t.
Proof. apply exec_all_ok; [apply tracker_ok_new|done]. Qed.

(** What a scrape makes of a connection. *)
Lemma Update_lookup t conns eps ts k :
  tracker_ok t -> Forall (conn_class addr_net) conns -> conn_class addr_net k ->
  Lookup (conn_state_ (Update t conns eps ts)) k = update_of (existsb (conn_eqb k) conns) (Lookup (conn_state_ t) k) ts.
Proof.
  intros Ht Hc Hk. destruct (Update_members t conns eps ts) as (Ec & _ & _).
  rewrite Ec. destruct (EmplaceOrUpdate_list (conn_class addr_net)
    (map_values (fun _ s => SetActive false s) (conn_state_ t)) conns (ConnStatus_make ts true)) as [_ ->]; try done.
  - apply wf_map_values, Ht.
  - by rewrite Lookup_map_inactive.
Qed.

(** C8. A scrape: [Update] keeps one entry per connection; a listed connection
    gets the new time and becomes active unless its entry is as recent, an unlisted
    one keeps its time and becomes inactive.  When the scrape is later than every
    stored time, exactly the listed connections are active. *)
Theorem Update_spec (t : ConnectionTracker) (conns : list Connection) (eps : list ContainerEndpoint)
    (ts : Z) (k : Connection)
    (Ht : tracker_ok t) (Hc : Forall (conn_class addr_net) conns) (Hk : conn_class addr_net k) :
  Lookup (conn_state_ (Update t conns eps ts)) k
  = update_of (existsb (conn_eqb k) conns) (Lookup (conn_state_ t) k) ts
  /\ (0 <= ts < 2 ^ 63 ->
      (forall s, Lookup (conn_state_ t) k = Some s -> LastActiveTime s < ts) ->
      active_in (conn_state_ (Update t conns eps ts)) k = existsb (conn_eqb k) conns).
Proof.
  pose proof (Update_lookup t conns eps ts k Ht Hc Hk) as El. split; [done|]. intros Hts Hlater. unfold active_in. rewrite El. unfold update_of.
  destruct (existsb (conn_eqb k) conns).
  - destruct (Lookup (conn_state_ t) k) as [s|] eqn:Es; simpl; [|apply make_active].
    assert (wf_status s) as Hs by (by apply (statuses_lookup (conn_state_ t) k); [apply Ht|]).
    rewrite SetActive_last, make_last by done. specialize (Hlater s eq_refl).
    destruct (Z.ltb_spec (LastActiveTime s) ts); [apply make_active|lia].
  - destruct (Lookup (conn_state_ t) k) as [s|]; simpl; [apply SetActive_false|done].
Qed.

(** Out-of-order events: reports about connections with
    different times may arrive in either order; the tracked statuses are those of
    the latest report of each connection. *)
Theorem UpdateConnection_commute (t : ConnectionTracker) (c d : Connection) (t1 t2 : Z) (a1 a2 : bool)
    (k : Connection) (Ht : tracker_ok t)
    (Hc : conn_class addr_net c) (Hd : conn_class addr_net d) (Hk : conn_class addr_net k)
    (H1 : 0 <= t1 < 2 ^ 63) (H2 : 0 <= t2 < 2 ^ 63) (Hne : t1 <> t2) :
  Lookup (conn_state_ (UpdateConnection (UpdateConnection t c t1 a1) d t2 a2)) k
  = Lookup (conn_state_ (UpdateConnection (UpdateConnection t d t2 a2) c t1 a1)) k.
Proof.
  assert (forall m x s, wf_umap (conn_class addr_net) m -> conn_class addr_net x ->
    Lookup (EmplaceOrUpdate m x s).1 k = if keqb k x then Some (newer (Lookup m k) s) else Lookup m k) as Hl.
  { intros m x s Hm Hx. by apply (EmplaceOrUpdate_lookup (conn_class addr_net)). }
  assert (forall m x s, wf_umap (conn_class addr_net) m -> conn_class addr_net x ->
    wf_umap (conn_class addr_net) (EmplaceOrUpdate m x s).1) as Hw.
  { intros m x s Hm Hx. by apply (EmplaceOrUpdate_lookup (conn_class addr_net)). }
  pose proof (ok_conns t Ht). unfold UpdateConnection. rewrite !EmplaceOrUpdateNoLock_conns.
  rewrite !Hl by auto. destruct (keqb k c), (keqb k d); try done. f_equal. unfold newer.
  rewrite ?make_last by done.
  destruct (Lookup (conn_state_ t) k) as [s|]; [|rewrite !make_last by done].
  - destruct (Z.ltb_spec (LastActiveTime s) t1), (Z.ltb_spec (LastActiveTime s) t2);
      rewrite ?make_last by done;
      repeat match goal with |- context [?a <? ?b] => destruct (Z.ltb_spec a b) end; try done; lia.
  - repeat match goal with |- context [?a <? ?b] => destruct (Z.ltb_spec a b) end; try done; lia.
Qed.


(** Normalization of connections: container and protocol are
    kept; a server keeps its own port only and a client the remote port only; the
    role of a UDP connection is that of the side whose port looks less ephemeral; the
    local address is dropped; and two connections that differ only in their local
    addresses and in the port of the client side normalize alike. *)
Theorem NormalizeConnection_spec (t : ConnectionTracker) (c : Connection)
    (Hp : 0 <= l4proto c <= L4Proto.ICMP) :
  let n := NormalizeConnectionNoLock t c in
  let server := if l4proto c =? L4Proto.UDP
                then IsEphemeralPort (port_ (local_ c)) <? IsEphemeralPort (port_ (remote_ c))
                else is_server c in
  container_ n = container_ c /\ l4proto n = l4proto c /\ is_server n = server
  /\ IsNull (ep_address (local_ n)) = true
  /\ port_ (local_ n) = (if server then port_ (local_ c) else 0)
  /\ port_ (remote_ n) = (if server then 0 else port_ (remote_ c))
  /\ (forall d, container_ d = container_ c -> flags_ d = flags_ c -> l4proto c <> L4Proto.UDP ->
        ep_address (remote_ d) = ep_address (remote_ c) ->
        (if is_server c then port_ (local_ d) = port_ (local_ c) else port_ (remote_ d) = port_ (remote_ c)) ->
        NormalizeConnectionNoLock t d = n).
Proof.
  cbv zeta. unfold NormalizeConnectionNoLock, ep_port. unfold L4Proto.ICMP in Hp.
  set (server := if l4proto c =? L4Proto.UDP then _ else _).
  split_and!.
  - by destruct server.
  - destruct server; apply l4proto_make; lia.
  - destruct server; apply is_server_make; lia.
  - by destruct server.
  - by destruct server.
  - by destruct server.
  - intros d Ec Ef Hu Er Hport.
    assert (l4proto d = l4proto c) as El by (unfold l4proto; by rewrite Ef).
    assert (is_server d = is_server c) as Es by (unfold is_server; by rewrite Ef).
    unfold server. rewrite El, Es, Ec, Er. apply Z.eqb_neq in Hu. rewrite Hu.
    destruct (is_server c); by rewrite Hport.
Qed.

(** C9. Snapshots of connections.  Take any set of keys that are legitimate for a hash container (the equality of
    connections is an equivalence on it and equal keys have equal hashes) and that has all normalized connections.
    Then a normalized snapshot maps each key to the merge of the statuses of the
    connections that normalize to it and pass the filters, and a table with any number of buckets finds it;
    [clear_inactive] drops exactly the inactive connections from the tracker, and the counter of inactive
    connections grows by their number. *)
Theorem FetchConnState_spec (t : ConnectionTracker) (clear_inactive : bool) (hash_string : str -> Z) (Q : Connection -> Prop)
    (HQ : HashKeys Connection (conn_hash hash_string) Q)
    (Hnorm : Forall (fun e => Q (NormalizeConnectionNoLock t e.1)) (conn_state_ t))
    (Hsize : size (conn_state_ t) < 2 ^ 63)
    (Hcount : 0 <= GetCounter (collector_stats t) net_conn_inactive
              /\ GetCounter (collector_stats t) net_conn_inactive + size (conn_state_ t) < 2 ^ 63) :
  let '(cm, t') := FetchConnState t true clear_inactive in
  (forall k, Q k ->
     Lookup cm k = merge_all (map snd (List.filter
       (fun e => ShouldFetchConnection t e.1 && conn_eqb k (NormalizeConnectionNoLock t e.1)) (conn_state_ t)))
     /\ forall n, snd <$> bucket_find (conn_hash hash_string) n cm k = Lookup cm k)
  /\ conn_state_ t' = (if clear_inactive then List.filter (fun e => IsActive e.2) (conn_state_ t) else conn_state_ t)
  /\ GetCounter (collector_stats t') net_conn_inactive
     = GetCounter (collector_stats t) net_conn_inactive + (size (conn_state_ t) - size (conn_state_ t')).
Proof.
  unfold FetchConnState. rewrite FetchState_split. cbn [conn_state_ set_conn_state set_stats collector_stats].
  split_and!.
  - intros k Hk. destruct (fetch_lookup KeyEq_Connection Q (hash_laws (P := Q)) (NormalizeConnectionNoLock t)
      (if HasConnectionFilters t then Some (ShouldFetchConnection t) else None) (conn_state_ t)) as [Hwf El].
    { apply (Forall_impl _ _ _ Hnorm). done. }
    split; [rewrite El by done; do 2 f_equal; apply filter_ext; intros e; by rewrite accepted_filters|].
    intros n. unfold Lookup. by rewrite (bucket_find_Find _ Q) by (done || apply Hwf).
  - done.
  - set (kept := if clear_inactive then _ else _).
    assert (0 <= size (conn_state_ t) - size kept <= size (conn_state_ t)) as Hk.
    { unfold kept, size. destruct clear_inactive; [|lia].
      pose proof (List.filter_length_le (fun e => IsActive e.2) (conn_state_ t)). lia. }
    unfold GetCounter, CounterAdd in *. simpl. rewrite upd_eq. unfold wrap.
    rewrite (Z.mod_small (size _ - size _)) by lia.
    rewrite !to_signed_small by (try lia; rewrite ?to_signed_small; lia). done.
Qed.

(** Snapshots of endpoints: a normalized snapshot maps each
    endpoint, endpoints being equal when their advertised attributes are, to the merge
    of the statuses of the tracked endpoints that normalize to it and pass the filters;
    the inactive ones are dropped on request, and the connections stay. *)
Theorem FetchEndpointState_spec (t : ConnectionTracker) (clear_inactive : bool) (Ht : tracker_ok t) :
  let '(cem, t') := FetchEndpointState t true clear_inactive in
  (forall k, cep_class addr_net k ->
     @Lookup _ _ KeyEq_Advertised cem k = merge_all (map snd (List.filter
       (fun e => ShouldFetchContainerEndpoint t e.1
                 && AdvertisedEndpointEquality k (NormalizeContainerEndpoint e.1)) (endpoint_state_ t))))
  /\ endpoint_state_ t'
     = (if clear_inactive then List.filter (fun e => IsActive e.2) (endpoint_state_ t) else endpoint_state_ t)
  /\ conn_state_ t' = conn_state_ t.
Proof.
  unfold FetchEndpointState. rewrite FetchState_split. cbn [conn_state_ endpoint_state_ set_endpoint_state set_stats].
  split_and!; [|done..]. intros k Hk.
  destruct (fetch_lookup KeyEq_Advertised (cep_class addr_net) (KeyEqLaws_Advertised addr_net)
      NormalizeContainerEndpoint
      (if HasConnectionFilters t then Some (ShouldFetchContainerEndpoint t) else None) (endpoint_state_ t)) as [_ ->].
  - apply List.Forall_forall. intros e _ _. unfold cep_class, ep_class. split; [|done].
    apply wf_IPNet_of_address, wf_Address_family.
  - do 2 f_equal. apply filter_ext. intros e. by rewrite accepted_filters_cep.
  - done.
Qed.

(** Configuration changes: when external IPs are switched in one
    or both directions, the old state loses exactly the connections of a switched
    direction that were reported as the rest of the internet (when enabling) or now
    have to be (when disabling); each of them is closed in the difference. *)
Theorem CloseOnConfigChange_spec (t : ConnectionTracker) (prev : ExternalIPsConfig)
    (old delta : umap Connection ConnStatus) (Q : Connection -> Prop) (HQ : KeyEqLaws Connection Q)
    (Hrespect : forall a b, Q a -> Q b -> conn_eqb a b = true ->
       ep_address (remote_ a) = ep_address (remote_ b))
    (Ho : wf_umap Q old) (Hd : wf_umap Q delta) :
  let '(old', delta') := CloseConnectionsOnExternalIPsConfigChange t prev old delta in
  old' = List.filter (fun e => negb (must_close t prev e.1)) old
  /\ (forall k, Q k -> Lookup old' k = if must_close t prev k then None else Lookup old k)
  /\ (forall k s, Q k -> must_close t prev k = true -> Lookup old k = Some s -> Lookup delta k = None ->
        Lookup delta' k = Some (close_one s)).
Proof.
  pose proof (CloseOnChange_kept t prev old delta) as Hkept.
  assert (forall a b, Q a -> Q b -> keqb a b = true ->
            is_server a = is_server b /\ forall e, should_close t a e = should_close t b e) as Hcong.
  { intros a b Qa Qb E. pose proof (Hrespect a b Qa Qb E) as Er.
    apply conn_eqb_true in E as (_ & _ & _ & Ef). split; [unfold is_server; by rewrite Ef|].
    intros e. unfold should_close, ShouldNormalizeConnection. by rewrite Er. }
  assert (forall a b, Q a -> Q b -> keqb a b = true -> must_close t prev a = must_close t prev b) as Hmust.
  { intros a b Qa Qb E. destruct (Hcong a b Qa Qb E) as [Es Ec]. unfold must_close. by rewrite Es, Ec. }
  assert (forall k, Q k -> Lookup (List.filter (fun e => negb (must_close t prev e.1)) old) k
            = if must_close t prev k then None else Lookup old k) as Hl.
  { intros k Hk. unfold Lookup. rewrite (Find_filter Q) by done.
    destruct (Find old k) as [e|] eqn:Ef; [|by destruct (must_close t prev k)].
    pose proof (Find_P Q old k e Ho Ef). apply Find_Some in Ef as [_ Ef].
    rewrite (Hmust k e.1) by done. by destruct (must_close t prev e.1). }
  unfold CloseConnectionsOnExternalIPsConfigChange in *.
  set (egress := IsEnabled (external_ips_config_ t) EGRESS) in *.
  set (ingress := IsEnabled (external_ips_config_ t) INGRESS) in *.
  pose proof (CloseIf_lookup Q (negb (eqb egress (IsEnabled prev EGRESS)))
    (fun conn => negb (is_server conn) && should_close t conn egress) old delta) as C1.
  destruct (if negb (eqb egress _) then _ else _) as [o1 d1].
  destruct C1 as (Wo1 & Wd1 & C1); [|done..|].
  { intros a b Qa Qb E. destruct (Hcong a b Qa Qb E) as [Es Ec]. by rewrite Es, Ec. }
  pose proof (CloseIf_lookup Q (negb (eqb ingress (IsEnabled prev INGRESS)))
    (fun conn => is_server conn && should_close t conn ingress) o1 d1) as C2.
  destruct (if negb (eqb ingress _) then _ else _) as [o2 d2].
  destruct C2 as (_ & _ & C2); [|done..|].
  { intros a b Qa Qb E. destruct (Hcong a b Qa Qb E) as [Es Ec]. by rewrite Es, Ec. }
  simpl in Hkept. subst o2. split_and!; [done|done|].
  intros k s Hk Hmc Ho' Hd'. destruct (C1 k Hk) as [O1 D1], (C2 k Hk) as [O2 D2].
  rewrite D2, D1, O1, Hd', Ho'. unfold must_close in Hmc.
  destruct (is_server k); simpl in Hmc; fold egress ingress in Hmc;
    apply andb_true_iff in Hmc as [-> ->]; simpl; rewrite ?andb_false_r; done.
Qed.

(** Statistics: the stored-connection statistics are the numbers of
    stored connections that would be reported, by role and by whether the remote
    address is public. *)
Theorem StoredConnections_spec (t : ConnectionTracker) (Hsize : size (conn_state_ t) < 2 ^ 32) :
  GetConnectionStats_StoredConnections t = counts t (conn_state_ t).
Proof.
  unfold GetConnectionStats_StoredConnections. rewrite StoredConnections_counts.
  - generalize (counts t (conn_state_ t)). by intros [[] []].
  - unfold stats_nonneg. simpl. lia.
  - unfold stats_total. simpl. lia.
Qed.

(** The counter of inactive endpoints: [FetchEndpointState]
    subtracts the number of endpoints left from the number of connections, not from the
    number of endpoints before; with one active endpoint, no connection and nothing
    removed the counter becomes -1. *)
Theorem FetchEndpointState_counter :
  let cep := mkContainerEndpoint (lit "c") (Endpoint_addr (Address_octets 10 0 0 1) 80) L4Proto.TCP None in
  let t := Update ConnectionTracker_new [] [cep] 1 in
  let t' := (FetchEndpointState t true true).2 in
  endpoint_state_ t' = endpoint_state_ t
  /\ GetCounter (collector_stats t) net_cep_inactive = 0
  /\ GetCounter (collector_stats t') net_cep_inactive = -1.
Proof. by_endianness. Qed.
End Theorems.

(** ** Witnesses *)

Module Witnesses.
#[local] Existing Instance little_endian.

Definition client : Endpoint := Endpoint_addr (Address_octets 10 0 0 1) 40000.
Definition server : Endpoint := Endpoint_addr (Address_octets 8 8 8 8) 443.
Definition conn1 : Connection := Connection_make (lit "c") client server L4Proto.TCP false.
Definition conn2 : Connection := Connection_make (lit "d") server client L4Proto.TCP true.
Definition cep1 : ContainerEndpoint := mkContainerEndpoint (lit "c") server L4Proto.TCP None.
Definition nets8 : list IPNet := [IPNet_make (Address_octets 8 0 0 0) 8 false].

Lemma ep_wf a b c d p : ep_class addr_net (Endpoint_addr (Address_octets a b c d) p).
Proof. split; [apply wf_IPNet_of_address, wf_Address_octets|reflexivity]. Qed.

Lemma conn1_wf : conn_class addr_net conn1.
Proof. split; apply ep_wf. Qed.

Lemma conn2_wf : conn_class addr_net conn2.
Proof. split; apply ep_wf. Qed.

Lemma conns_wf : Forall (conn_class addr_net) [conn1].
Proof. apply Forall_cons_2; [apply conn1_wf|constructor]. Qed.

Lemma ceps_wf : Forall (cep_class addr_net) [cep1].
Proof. apply Forall_cons_2; [apply ep_wf|constructor]. Qed.

Lemma nets8_wf : Forall wf_net nets8.
Proof. apply Forall_cons_2; [apply wf_IPNet_make; [apply wf_Address_octets|lia]|constructor]. Qed.

Definition tracker1 : ConnectionTracker := Update ConnectionTracker_new [conn1] [cep1] 5.

Lemma tracker1_ok : tracker_ok tracker1.
Proof. exact (tracker_ok_Update _ _ _ 5 tracker_ok_new conns_wf ceps_wf). Qed.

Lemma tracker_invariant_witness :
  exists t, exec_all ConnectionTracker_new
              [OpUpdateNonAggregatedNetworks nets8; OpUpdate [conn1] [cep1] 5; OpFetchConnState true true] = Some t
            /\ tracker_ok t.
Proof.
  apply tracker_invariant.
  apply Forall_cons_2; [exact nets8_wf|]. apply Forall_cons_2; [exact (conj conns_wf ceps_wf)|].
  apply Forall_cons_2; [exact I|constructor].
Defined.

Lemma Update_witness :
  active_in (conn_state_ (Update tracker1 [] [] 9)) conn1 = false.
Proof.
  refine (proj2 (Update_spec tracker1 [] [] 9 conn1 tracker1_ok _ conn1_wf) _ _).
  - constructor.
  - lia.
  - intros s Hs. vm_compute in Hs. injection Hs as <-. vm_compute. reflexivity.
Defined.

Lemma UpdateConnection_commute_witness :
  Lookup (conn_state_ (UpdateConnection (UpdateConnection tracker1 conn1 7 false) conn1 6 true)) conn1
  = Lookup (conn_state_ (UpdateConnection (UpdateConnection tracker1 conn1 6 true) conn1 7 false)) conn1.
Proof.
  exact (UpdateConnection_commute tracker1 conn1 conn1 7 6 false true conn1 tracker1_ok
           conn1_wf conn1_wf conn1_wf ltac:(lia) ltac:(lia) ltac:(lia)).
Defined.

Definition tracker_nets : ConnectionTracker :=
  default ConnectionTracker_new (exec_all ConnectionTracker_new [OpUpdateKnownIPNetworks [(Family.IPV4, nets8)]]).

Lemma tracker_nets_ok : tracker_ok tracker_nets.
Proof.
  destruct (exec_all_ok ConnectionTracker_new [OpUpdateKnownIPNetworks [(Family.IPV4, nets8)]])
    as (t & E & Ht).
  - apply tracker_ok_new.
  - apply Forall_cons_2; [|constructor]. apply Forall_cons_2; [exact nets8_wf|constructor].
  - unfold tracker_nets. rewrite E. exact Ht.
Qed.


Lemma NormalizeConnection_witness :
  is_server (NormalizeConnectionNoLock tracker1 conn1) = false
  /\ port_ (remote_ (NormalizeConnectionNoLock tracker1 conn1)) = 443.
Proof.
  destruct (NormalizeConnection_spec tracker1 conn1) as (_ & _ & Hs & _ & _ & Hp & _).
  - vm_compute. split; discriminate.
  - split; [rewrite Hs|rewrite Hp]; reflexivity.
Defined.

(** The class of one normalized connection. *)
Definition only (k c : Connection) : Prop := c = k.

Lemma only_laws k : conn_eqb k k = true -> KeyEqLaws Connection (only k).
Proof. intros E. split; unfold only, keqb, KeyEq_Connection; intros; subst; done. Qed.

Lemma only_keys hash k : conn_eqb k k = true -> HashKeys Connection hash (only k).
Proof. intros E. split; [by apply only_laws|]. unfold only. by intros a b -> ->. Qed.

Definition norm1 : Connection := NormalizeConnectionNoLock tracker1 conn1.

Lemma FetchConnState_witness :
  let '(cm, t') := FetchConnState tracker1 true true in
  (forall k, only norm1 k ->
     Lookup cm k = merge_all (map snd (List.filter
       (fun e => ShouldFetchConnection tracker1 e.1 && conn_eqb k (NormalizeConnectionNoLock tracker1 e.1))
       (conn_state_ tracker1)))
     /\ forall n, snd <$> bucket_find (conn_hash (fun _ => 0)) n cm k = Lookup cm k)
  /\ conn_state_ t' = List.filter (fun e => IsActive e.2) (conn_state_ tracker1)
  /\ GetCounter (collector_stats t') net_conn_inactive
     = GetCounter (collector_stats tracker1) net_conn_inactive
       + (size (conn_state_ tracker1) - size (conn_state_ t')).
Proof.
  apply (FetchConnState_spec tracker1 true (fun _ => 0) (only norm1)).
  - apply only_keys. vm_compute. reflexivity.
  - apply Forall_cons_2; [reflexivity|constructor].
  - vm_compute. reflexivity.
  - vm_compute. split; [discriminate|reflexivity].
Defined.

Lemma FetchEndpointState_witness :
  let '(cem, t') := FetchEndpointState tracker1 true true in
  (forall k, cep_class addr_net k ->
     @Lookup _ _ KeyEq_Advertised cem k = merge_all (map snd (List.filter
       (fun e => ShouldFetchContainerEndpoint tracker1 e.1
                 && AdvertisedEndpointEquality k (NormalizeContainerEndpoint e.1)) (endpoint_state_ tracker1))))
  /\ endpoint_state_ t' = List.filter (fun e => IsActive e.2) (endpoint_state_ tracker1)
  /\ conn_state_ t' = conn_state_ tracker1.
Proof. exact (FetchEndpointState_spec tracker1 true tracker1_ok). Defined.

Definition enabled : ExternalIPsConfig := mkExternalIPsConfig BOTH.

Lemma CloseOnConfigChange_witness :
  let '(old', delta') :=
    CloseConnectionsOnExternalIPsConfigChange (SetExternalIPsConfig tracker1 enabled) ExternalIPsConfig_none
      [(norm1, ConnStatus_make 5 true)] [] in
  old' = List.filter (fun e => negb (must_close (SetExternalIPsConfig tracker1 enabled) ExternalIPsConfig_none e.1))
           [(norm1, ConnStatus_make 5 true)]
  /\ (forall k, only norm1 k ->
        Lookup old' k = if must_close (SetExternalIPsConfig tracker1 enabled) ExternalIPsConfig_none k
                        then None else Lookup [(norm1, ConnStatus_make 5 true)] k)
  /\ (forall k s, only norm1 k ->
        must_close (SetExternalIPsConfig tracker1 enabled) ExternalIPsConfig_none k = true ->
        Lookup [(norm1, ConnStatus_make 5 true)] k = Some s -> Lookup (@nil (Connection * ConnStatus)) k = None ->
        Lookup delta' k = Some (close_one s)).
Proof.
  apply (CloseOnConfigChange_spec (SetExternalIPsConfig tracker1 enabled) ExternalIPsConfig_none
           [(norm1, ConnStatus_make 5 true)] [] (only norm1)).
  - apply only_laws. vm_compute. reflexivity.
  - intros a b Ha Hb _. rewrite Ha, Hb. reflexivity.
  - apply wf_cons; [reflexivity|constructor|apply wf_nil].
  - apply wf_nil.
Defined.

Lemma StoredConnections_witness :
  GetConnectionStats_StoredConnections tracker1 = counts tracker1 (conn_state_ tracker1).
Proof. apply StoredConnections_spec. vm_compute. reflexivity. Defined.
End Witnesses.
