(* ===== verification/RateLimit.v ===== *)
(** * Rate limiters

    [collector/lib/RateLimit.h] and [RateLimit.cpp]: the token buckets refilled
    over time that limit repeated process events, the bounded cache of buckets, and
    the counters that limit connection updates per container.  A call that reads
    the clock takes the readings as arguments, in the order of the calls of
    [NowMicros]. *)

From S2P Require Import Prelude Containers Stats.

(** ** Token buckets *)

Record TokenBucket := mkTokenBucket { tokens : Z; last_time : Z }.

Definition TokenBucket_new : TokenBucket := mkTokenBucket 0 0.

Record TimeLimiter := mkTimeLimiter { burst_size_ : Z; refill_time_ : Z }.

(** The refill time is given in seconds and kept in microseconds. *)
Definition TimeLimiter_make (burst_size refill_time : Z) : TimeLimiter :=
  mkTimeLimiter burst_size (refill_time * 1000000).

Definition fill_bucket (l : TimeLimiter) (now : Z) (b : TokenBucket) : TokenBucket :=
  mkTokenBucket (burst_size_ l) now.

(** C++ division truncates. *)
Definition refill_count (l : TimeLimiter) (now : Z) (b : TokenBucket) : Z :=
  Z.quot (now - last_time b) (refill_time_ l).

Definition Tokens (l : TimeLimiter) (now : Z) (b : TokenBucket) : Z :=
  Z.min (burst_size_ l) (tokens b + refill_count l now b * burst_size_ l).

(** The readings of the clock by the first [fill_bucket], by [refill_count] and
    by the second [fill_bucket]. *)
Record readings := mkReadings { now1 : Z; now2 : Z; now3 : Z }.

Definition AllowN (l : TimeLimiter) (r : readings) (b : TokenBucket) (n : Z) : TokenBucket * bool :=
  let b := if last_time b =? 0 then fill_bucket l (now1 r) b else b in
  let refill := refill_count l (now2 r) b in
  let b := mkTokenBucket (tokens b + refill * burst_size_ l) (last_time b + refill * refill_time_ l) in
  let b := if burst_size_ l <=? tokens b then fill_bucket l (now3 r) b else b in
  if tokens b <? n then (b, false)
  else (mkTokenBucket (tokens b - n) (last_time b), true).

Definition Allow (l : TimeLimiter) (r : readings) (b : TokenBucket) : TokenBucket * bool := AllowN l r b 1.

(** ** The cache of buckets *)

Record RateLimitCache := mkRateLimitCache {
  capacity_ : Z;
  limiter_ : option TimeLimiter;
  rl_cache_ : umap str TokenBucket
}.

Definition RateLimitCache_default : RateLimitCache :=
  mkRateLimitCache 4096 (Some (TimeLimiter_make 10 (30 * 60))) [].

Definition RateLimitCache_make (capacity burst_size refill_time : Z) : RateLimitCache :=
  mkRateLimitCache capacity (Some (TimeLimiter_make burst_size refill_time)) [].

(** [limiter_.reset()] destroys the limiter. *)
Definition ResetRateLimitCache (c : RateLimitCache) : RateLimitCache :=
  mkRateLimitCache (capacity_ c) None (rl_cache_ c).

(** [None]: the null limiter is dereferenced. *)
Definition cache_Allow (c : RateLimitCache) (r : readings) (key : str) (stats : CollectorStats)
  : option (RateLimitCache * CollectorStats * bool) :=
  let '(cache, inserted) := emplace (rl_cache_ c) key TokenBucket_new in
  if inserted && (capacity_ c <? Z.of_nat (length cache)) then
    Some (mkRateLimitCache (capacity_ c) (limiter_ c) [], CounterInc rate_limit_flushing_counts stats, true)
  else
    match limiter_ c with
    | None => None
    | Some l =>
        match Lookup cache key with
        | None => None
        | Some b =>
            let '(b', ok) := Allow l r b in
            Some (mkRateLimitCache (capacity_ c) (limiter_ c) (assign cache key b'), stats, ok)
        end
    end.

(** ** Counters *)

Record CountLimiter := mkCountLimiter { count_ : Z; cl_cache_ : umap str TokenBucket }.

Definition CountLimiter_default : CountLimiter := mkCountLimiter 4096 [].
Definition CountLimiter_make (count : Z) : CountLimiter := mkCountLimiter count [].

Definition count_Allow (c : CountLimiter) (key : str) : CountLimiter * bool :=
  let cache := (emplace (cl_cache_ c) key TokenBucket_new).1 in
  let b := match Lookup cache key with Some b => b | None => TokenBucket_new end in
  let b := mkTokenBucket (tokens b + 1) (last_time b) in
  (mkCountLimiter (count_ c) (assign cache key b), tokens b <=? count_ c).

(** ** The bound of a bucket *)

Section Bucket.
Context (l : TimeLimiter) (Hburst : 0 < burst_size_ l) (Hrefill : 0 < refill_time_ l).

(** Readings of a clock that does not go back, from [t] on. *)
Definition readings_ok (t : Z) (r : readings) : Prop := t <= now1 r /\ now1 r <= now2 r /\ now2 r <= now3 r.

(** A bucket that is in use. *)
Definition bucket_ok (b : TokenBucket) (t : Z) : Prop :=
  0 <= tokens b <= burst_size_ l /\ 0 < last_time b <= t.

Definition granted (ok : bool) (n : Z) : Z := if ok then n else 0.

(** A call spends no more than the tokens and the refills of the time that
    passed. *)
Lemma AllowN_step t r b n b' ok :
  bucket_ok b t -> readings_ok t r -> 0 <= n -> AllowN l r b n = (b', ok) ->
  exists k, 0 <= k /\ bucket_ok b' (now3 r)
    /\ tokens b' + granted ok n <= tokens b + k * burst_size_ l
    /\ last_time b + k * refill_time_ l <= last_time b'.
Proof.
  intros [Htok Hlast] [Hr1 [Hr2 Hr3]] Hn. unfold AllowN.
  destruct (Z.eqb_spec (last_time b) 0); [lia|].
  unfold refill_count. rewrite Z.quot_div_nonneg by lia.
  set (k := (now2 r - last_time b) / refill_time_ l).
  assert (0 <= k) as Hk by (apply Z.div_pos; lia).
  assert (k * refill_time_ l <= now2 r - last_time b) as Hkt by (unfold k; rewrite Z.mul_comm; apply Z.mul_div_le; lia).
  cbn [tokens last_time]. intros E. exists k. split; [done|].
  destruct (Z.leb_spec (burst_size_ l) (tokens b + k * burst_size_ l)); cbn [tokens last_time fill_bucket] in E.
  - destruct (Z.ltb_spec (burst_size_ l) n); injection E as <- <-; unfold bucket_ok, granted; simpl; nia.
  - destruct (Z.ltb_spec (tokens b + k * burst_size_ l) n); injection E as <- <-;
      unfold bucket_ok, granted; simpl; nia.
Qed.

(** The first call fills the bucket. *)
Lemma AllowN_first t r n b' ok :
  0 < t -> readings_ok t r -> 0 <= n -> AllowN l r TokenBucket_new n = (b', ok) ->
  exists k, 0 <= k /\ bucket_ok b' (now3 r)
    /\ tokens b' + granted ok n <= burst_size_ l + k * burst_size_ l
    /\ now1 r + k * refill_time_ l <= last_time b'.
Proof.
  intros Ht Hr Hn E.
  assert (AllowN l r (mkTokenBucket (burst_size_ l) (now1 r)) n = (b', ok)) as E'.
  { rewrite <- E. unfold AllowN, TokenBucket_new. cbn [last_time fill_bucket].
    destruct Hr as [Hr1 _]. destruct (Z.eqb_spec (now1 r) 0); [lia|]. reflexivity. }
  destruct Hr as (Hr1 & Hr2 & Hr3).
  apply (AllowN_step (now1 r)) in E'; [exact E'|split; simpl; lia|split; lia|done].
Qed.

(** A run of requests at readings of the clock, and what it grants. *)
Fixpoint run_bucket (b : TokenBucket) (reqs : list (readings * Z)) : TokenBucket * Z :=
  match reqs with
  | [] => (b, 0)
  | (r, n) :: reqs =>
      let '(b', ok) := AllowN l r b n in
      let '(b'', total) := run_bucket b' reqs in
      (b'', granted ok n + total)
  end.

(** The readings of a run do not go back and the requests are not negative. *)
Fixpoint run_ok (t : Z) (reqs : list (readings * Z)) : Prop :=
  match reqs with
  | [] => True
  | (r, n) :: reqs => readings_ok t r /\ 0 <= n /\ run_ok (now3 r) reqs
  end.

Fixpoint end_of (t : Z) (reqs : list (readings * Z)) : Z :=
  match reqs with [] => t | (r, _) :: reqs => end_of (now3 r) reqs end.

Lemma run_bucket_bound t b reqs :
  bucket_ok b t -> run_ok t reqs ->
  exists k, 0 <= k /\ bucket_ok (run_bucket b reqs).1 (end_of t reqs)
    /\ tokens (run_bucket b reqs).1 + (run_bucket b reqs).2 <= tokens b + k * burst_size_ l
    /\ last_time b + k * refill_time_ l <= last_time (run_bucket b reqs).1.
Proof.
  revert t b. induction reqs as [|[r n] reqs IH]; intros t b Hb Hr.
  - exists 0. simpl. split_and!; lia || done.
  - destruct Hr as (Hr & Hn & Hrun). cbn [run_bucket end_of]. destruct (AllowN l r b n) as [b' ok] eqn:E.
    destruct (AllowN_step t r b n b' ok Hb Hr Hn E) as (k1 & Hk1 & Hb' & Htok & Hlast).
    destruct (IH (now3 r) b' Hb' Hrun) as (k2 & Hk2 & Hb'' & Htok2 & Hlast2).
    destruct (run_bucket b' reqs) as [b'' total]. simpl in *.
    exists (k1 + k2). split_and!; [lia|done|lia|lia].
Qed.
End Bucket.

(** ** Counting *)

(** The calls of a limiter with a list of keys, in order. *)
Fixpoint run_count (c : CountLimiter) (keys : list str) : list bool :=
  match keys with
  | [] => []
  | k :: keys => let '(c', ok) := count_Allow c k in ok :: run_count c' keys
  end.

Definition any_str (_ : str) : Prop := True.

Definition uses (c : CountLimiter) (k : str) : Z :=
  match Lookup (cl_cache_ c) k with Some b => tokens b | None => 0 end.

Lemma keqb_str_refl (k : str) : keqb k k = true.
Proof. unfold keqb, KeyEq_str, dec_keqb. by apply bool_decide_eq_true. Qed.

(** With a limiter the cache always answers, and keeps its limiter. *)
Lemma cache_Allow_some c r key stats :
  limiter_ c <> None ->
  exists c' stats' ok, cache_Allow c r key stats = Some (c', stats', ok) /\ limiter_ c' = limiter_ c.
Proof.
  intros Hl. unfold cache_Allow, emplace. rewrite Contains_Lookup.
  destruct (limiter_ c) as [l|] eqn:El; [|done].
  destruct (Lookup (rl_cache_ c) key) as [b|] eqn:Eb; cbn [andb].
  - rewrite Eb. destruct (Allow l r b) as [b' ok]. by do 3 eexists.
  - destruct (capacity_ c <? _); [by do 3 eexists|].
    rewrite Lookup_app, Eb, Lookup_cons. cbn [fst snd]. rewrite keqb_str_refl.
    destruct (Allow l r TokenBucket_new) as [b' ok]. by do 3 eexists.
Qed.


Lemma count_Allow_spec c k :
  wf_umap any_str (cl_cache_ c) ->
  let '(c', ok) := count_Allow c k in
  wf_umap any_str (cl_cache_ c') /\ count_ c' = count_ c
  /\ ok = (uses c k + 1 <=? count_ c)
  /\ forall k', uses c' k' = uses c k' + (if bool_decide (k' = k) then 1 else 0).
Proof.
  intros Hw. unfold count_Allow.
  set (cache := (emplace (cl_cache_ c) k TokenBucket_new).1).
  assert (wf_umap any_str cache) as Hw' by by apply (wf_emplace any_str).
  assert (forall k', Lookup cache k' = match Lookup (cl_cache_ c) k' with
            | Some b => Some b | None => if keqb k' k then Some TokenBucket_new else None end) as Hl.
  { intros k'. by apply (Lookup_emplace any_str). }
  assert (Contains cache k = true) as Hc.
  { rewrite Contains_Lookup, Hl, keqb_str_refl. by destruct (Lookup (cl_cache_ c) k). }
  assert (match Lookup cache k with Some b => b | None => TokenBucket_new end
          = match Lookup (cl_cache_ c) k with Some b => b | None => TokenBucket_new end) as ->.
  { rewrite Hl, keqb_str_refl. by destruct (Lookup (cl_cache_ c) k). }
  split_and!; [by apply (wf_assign any_str)|done| |].
  - unfold uses. simpl. by destruct (Lookup (cl_cache_ c) k).
  - intros k'. unfold uses. simpl. rewrite (Lookup_assign any_str), Hc by done.
    change (keqb k' k) with (bool_decide (k' = k)). case_bool_decide as E.
    + subst k'. simpl. by destruct (Lookup (cl_cache_ c) k).
    + rewrite Hl. change (keqb k' k) with (bool_decide (k' = k)). rewrite bool_decide_eq_false_2 by done.
      destruct (Lookup (cl_cache_ c) k'); lia.
Qed.

(** How often a key occurs. *)
Definition occurrences (k : str) (keys : list str) : Z :=
  Z.of_nat (length (List.filter (fun k' => bool_decide (k' = k)) keys)).

Lemma occurrences_cons k x keys :
  occurrences k (x :: keys) = (if bool_decide (x = k) then 1 else 0) + occurrences k keys.
Proof. unfold occurrences. simpl. case_bool_decide; simpl; lia. Qed.

Lemma run_count_nth c keys i k :
  wf_umap any_str (cl_cache_ c) -> keys !! i = Some k ->
  run_count c keys !! i = Some (uses c k + occurrences k (take i keys) + 1 <=? count_ c).
Proof.
  revert c i. induction keys as [|x keys IH]; intros c i Hw Hi; [done|].
  pose proof (count_Allow_spec c x Hw) as Hs. cbn [run_count].
  destruct (count_Allow c x) as [c' ok]. destruct Hs as (Hw' & Hc & Hok & Hu).
  destruct i as [|i]; simpl in Hi.
  - injection Hi as ->. simpl. rewrite Hok. unfold occurrences. simpl. f_equal. f_equal. lia.
  - cbn [take]. rewrite occurrences_cons. change ((ok :: run_count c' keys) !! S i) with (run_count c' keys !! i).
    rewrite (IH c' i Hw' Hi), Hu, Hc.
    assert (bool_decide (k = x) = bool_decide (x = k)) as -> by (apply bool_decide_ext; split; congruence).
    f_equal. f_equal. lia.
Qed.

(** ** Theorems *)

(** C34. The rate of a token bucket: whatever is requested at readings of a
    clock that does not go back, a bucket first used at time t0 has granted at most
    one burst plus one burst for each whole refill period since t0. *)
Theorem TimeLimiter_bound (l : TimeLimiter) (t0 : Z) (r : readings) (n : Z) (reqs : list (readings * Z))
    (Hburst : 0 < burst_size_ l) (Hrefill : 0 < refill_time_ l) (Ht0 : 0 < t0)
    (Hrun : run_ok t0 ((r, n) :: reqs)) :
  (run_bucket l TokenBucket_new ((r, n) :: reqs)).2
  <= burst_size_ l * (1 + (end_of t0 ((r, n) :: reqs) - now1 r) / refill_time_ l).
Proof.
  destruct Hrun as (Hr & Hn & Hrun). cbn [run_bucket end_of].
  destruct (AllowN l r TokenBucket_new n) as [b' ok] eqn:E.
  destruct (AllowN_first l Hburst Hrefill t0 r n b' ok Ht0 Hr Hn E) as (k1 & Hk1 & Hb' & Htok & Hlast).
  destruct (run_bucket_bound l Hburst Hrefill (now3 r) b' reqs Hb' Hrun) as (k2 & Hk2 & Hb'' & Htok2 & Hlast2).
  destruct (run_bucket l b' reqs) as [b'' total]. simpl in *. destruct Hb'' as [Hb1 Hb2].
  assert (k1 + k2 <= (end_of (now3 r) reqs - now1 r) / refill_time_ l) as Hk
    by (apply Z.div_le_lower_bound; lia).
  nia.
Qed.

(** Counting per key: of any interleaving of requests the i-th is allowed
    exactly when its key was requested fewer than [count] times before; so of n
    requests for a key exactly the first [count] are allowed, whatever the others do. *)
Theorem CountLimiter_spec (count : Z) (keys : list str) (i : nat) (k : str) (Hi : keys !! i = Some k) :
  run_count (CountLimiter_make count) keys !! i = Some (occurrences k (take i keys) <? count).
Proof.
  rewrite (run_count_nth (CountLimiter_make count) keys i k) by (done || apply wf_nil).
  unfold uses. simpl. f_equal.
  destruct (Z.leb_spec (occurrences k (take i keys) + 1) count), (Z.ltb_spec (occurrences k (take i keys)) count); done || lia.
Qed.

(** The bounded cache: a new key beyond the capacity empties the cache and
    is let through, so the cache never exceeds its capacity; and after
    [ResetRateLimitCache], which destroys the limiter instead of emptying the cache,
    the next call that does not flush dereferences null. *)
Theorem RateLimitCache_spec (c : RateLimitCache) (r : readings) (key : str) (stats : CollectorStats)
    (Hcap : 0 <= capacity_ c) (Hlim : limiter_ c <> None)
    (Hsize : Z.of_nat (length (rl_cache_ c)) <= capacity_ c) (Hroom : 0 < capacity_ c) :
  (match cache_Allow c r key stats with
   | Some (c', stats', ok) =>
       Z.of_nat (length (rl_cache_ c')) <= capacity_ c' /\ capacity_ c' = capacity_ c /\ limiter_ c' <> None
       /\ (Contains (rl_cache_ c) key = false -> Z.of_nat (length (rl_cache_ c)) = capacity_ c ->
           rl_cache_ c' = [] /\ ok = true)
   | None => False
   end)
  /\ (Z.of_nat (length (rl_cache_ c)) < capacity_ c ->
      cache_Allow (ResetRateLimitCache c) r key stats = None).
Proof.
  assert (forall m b, length (assign m key b) = length (m : umap str TokenBucket)) as Hassign.
  { intros m b. induction m as [|e m IH]; [done|]. simpl. destruct (keqb key e.1); simpl; by rewrite ?IH. }
  unfold cache_Allow, emplace. cbn [rl_cache_ capacity_ limiter_ ResetRateLimitCache].
  destruct (limiter_ c) as [l|] eqn:El; [|done].
  rewrite Contains_Lookup. destruct (Lookup (rl_cache_ c) key) as [b|] eqn:Elk; cbn [andb].
  - split; [|by intros].
    rewrite Elk. destruct (Allow l r b) as [b' ok]. cbn [rl_cache_ capacity_ limiter_].
    split_and!; [by rewrite Hassign|done|done|done].
  - rewrite length_app. cbn [length]. split.
    + destruct (Z.ltb_spec (capacity_ c) (Z.of_nat (length (rl_cache_ c) + 1))); cbn [rl_cache_ capacity_ limiter_].
      * split_and!; [simpl; lia|done|done|done].
      * rewrite Lookup_app, Elk, Lookup_cons. cbn [fst snd]. rewrite keqb_str_refl.
        destruct (Allow l r TokenBucket_new) as [b' ok]. cbn [rl_cache_ capacity_ limiter_].
        split_and!; [rewrite Hassign, length_app; simpl; lia|done|done|lia].
    + intros Hlt. destruct (Z.ltb_spec (capacity_ c) (Z.of_nat (length (rl_cache_ c) + 1))); [lia|done].
Qed.

(** ** Witnesses *)

Module Witnesses.
Definition limiter : TimeLimiter := TimeLimiter_make 10 1800.
Definition at_time (t : Z) : readings := mkReadings t t t.

Lemma TimeLimiter_bound_witness :
  (run_bucket limiter TokenBucket_new [(at_time 5, 1); (at_time 7, 20); (at_time 9, 3)]).2 <= 10.
Proof.
  apply (TimeLimiter_bound limiter 5 (at_time 5) 1 [(at_time 7, 20); (at_time 9, 3)]).
  - reflexivity.
  - reflexivity.
  - lia.
  - cbn. unfold readings_ok. cbn. lia.
Defined.

Lemma CountLimiter_witness :
  run_count (CountLimiter_make 1) [lit "a"; lit "b"; lit "a"] !! 2%nat = Some false.
Proof. rewrite (CountLimiter_spec 1 [lit "a"; lit "b"; lit "a"] 2 (lit "a") eq_refl). reflexivity. Defined.

Lemma RateLimitCache_witness :
  cache_Allow (ResetRateLimitCache RateLimitCache_default) (at_time 5) (lit "k") CollectorStats_new = None.
Proof.
  refine (proj2 (RateLimitCache_spec RateLimitCache_default (at_time 5) (lit "k") CollectorStats_new _ _ _ _) _).
  - vm_compute. discriminate.
  - discriminate.
  - vm_compute. discriminate.
  - reflexivity.
  - reflexivity.
Defined.
End Witnesses.
