(* ===== verification/Notifier.v ===== *)
(** * The network status notifier

    [collector/lib/NetworkStatusNotifier.cpp]: the networks and addresses received
    from Sensor, the messages made of the state differences, and the loop
    [RunSingle] that scrapes, computes the differences and sends them.  Protobuf
    messages are records of the fields that are set.  An iteration of the loop takes
    what it reads from outside as an input: the scrape, the clock, the current
    external-IPs configuration and whether the write succeeds. *)

From S2P Require Import Prelude Containers Stats Address IPNet NRadix Process Connection.
From S2P Require Import ExternalIPs ConnDelta ConnTracker RateLimit.

(** ** Messages *)

Inductive L4Protocol : Set := L4_PROTOCOL_UNKNOWN | L4_PROTOCOL_TCP | L4_PROTOCOL_UDP | L4_PROTOCOL_ICMP.
Inductive SocketFamily : Set := SOCKET_FAMILY_UNKNOWN | SOCKET_FAMILY_IPV4 | SOCKET_FAMILY_IPV6.
Inductive ClientServerRole : Set := ROLE_CLIENT | ROLE_SERVER.

Record NetworkAddress := mkNetworkAddress {
  na_address_data : list Z;
  na_ip_network : list Z;
  na_port : Z
}.

Record NetworkProcessUniqueKey := mkProcessKey {
  pk_process_name : str;
  pk_process_exec_file_path : str;
  pk_process_args : str
}.

Record NetworkConnection := mkNetworkConnection {
  nc_container_id : str;
  nc_role : ClientServerRole;
  nc_protocol : L4Protocol;
  nc_socket_family : SocketFamily;
  nc_local_address : option NetworkAddress;
  nc_remote_address : option NetworkAddress;
  nc_close_timestamp : option Z
}.

Record NetworkEndpoint := mkNetworkEndpoint {
  ne_container_id : str;
  ne_protocol : L4Protocol;
  ne_socket_family : SocketFamily;
  ne_listen_address : option NetworkAddress;
  ne_originator : option NetworkProcessUniqueKey;
  ne_close_timestamp : option Z
}.

Record InfoMessage := mkInfoMessage {
  updated_connections : list NetworkConnection;
  updated_endpoints : list NetworkEndpoint
}.

(** The control message: a field that is not set reads as its default. *)
Record IPAddressList := mkIPAddressList { ipv4_addresses : list Z; ipv6_addresses : list Z }.
Record IPNetworkList := mkIPNetworkList { ipv4_networks : list Z; ipv6_networks : list Z }.
Record NetworkFlowsControlMessage := mkControlMessage {
  cm_public_ip_addresses : option IPAddressList;
  cm_ip_networks : option IPNetworkList
}.

Definition public_ip_addresses (m : NetworkFlowsControlMessage) : IPAddressList :=
  default (mkIPAddressList [] []) (cm_public_ip_addresses m).
Definition ip_networks (m : NetworkFlowsControlMessage) : IPNetworkList :=
  default (mkIPNetworkList [] []) (cm_ip_networks m).
Definition has_ip_networks (m : NetworkFlowsControlMessage) : bool :=
  match cm_ip_networks m with Some _ => true | None => false end.

Section Operations.
Context `{HostEndian}.

Definition TranslateL4Protocol (proto : L4Proto.t) : L4Protocol :=
  if proto =? L4Proto.TCP then L4_PROTOCOL_TCP
  else if proto =? L4Proto.UDP then L4_PROTOCOL_UDP
  else if proto =? L4Proto.ICMP then L4_PROTOCOL_ICMP
  else L4_PROTOCOL_UNKNOWN.

Definition TranslateAddressFamily (f : Family.t) : SocketFamily :=
  match f with
  | Family.IPV4 => SOCKET_FAMILY_IPV4
  | Family.IPV6 => SOCKET_FAMILY_IPV6
  | Family.UNKNOWN => SOCKET_FAMILY_UNKNOWN
  end.

(** ** Control messages *)

(** One tuple of address bytes and prefix length; the length byte is a [char]
    that is converted to [int] and then to [size_t]. *)
Definition read_network (f : Family.t) (tuple : list Z) : IPNet :=
  let len := Z.to_nat (Length f) in
  let ip := data_ (Address_bytes f (take len tuple)) in
  IPNet_make (Address_u64 f ip) (wrap 64 (to_signed 8 (nth len tuple 0))) false.

Definition readNetworks (networks : list Z) (f : Family.t) : list IPNet :=
  let tuple_size := Z.to_nat (Length f + 1) in
  let num_nets := (length networks / tuple_size)%nat in
  map (fun i => read_network f (take tuple_size (drop (tuple_size * i) networks))) (seq 0 num_nets).

Definition set_insert (s : umap Address unit) (a : Address) : umap Address unit := (emplace s a tt).1.

(** The IPv6 addresses come as pairs of 64-bit words. *)
Fixpoint insert_pairs (s : umap Address unit) (words : list Z) : umap Address unit :=
  match words with
  | high :: low :: words => insert_pairs (set_insert s (Address_high_low (htonll high) (htonll low))) words
  | _ => s
  end.

Definition ReceivePublicIPs (t : ConnectionTracker) (public_ips : IPAddressList) : ConnectionTracker :=
  let known_public_ips :=
    fold_left (fun s public_ip =>
                 let addr := Address_ipv4 (htonl public_ip) in
                 set_insert (set_insert s addr) (ToV6 addr))
      (ipv4_addresses public_ips) [] in
  let known_public_ips :=
    if negb (Nat.even (length (ipv6_addresses public_ips))) then known_public_ips
    else insert_pairs known_public_ips (ipv6_addresses public_ips) in
  UpdateKnownPublicIPs t known_public_ips.

Definition known_networks_of (networks : IPNetworkList) : umap Family.t (list IPNet) :=
  let m := [] in
  let m := if negb (length (ipv4_networks networks) mod 5 =? 0)%nat then m
           else insert_or_assign m Family.IPV4 (readNetworks (ipv4_networks networks) Family.IPV4) in
  if negb (length (ipv6_networks networks) mod 17 =? 0)%nat then m
  else insert_or_assign m Family.IPV6 (readNetworks (ipv6_networks networks) Family.IPV6).

Definition ReceiveIPNetworks (t : ConnectionTracker) (networks : IPNetworkList) : option ConnectionTracker :=
  UpdateKnownIPNetworks t (known_networks_of networks).

Definition OnRecvControlMessage (t : ConnectionTracker) (msg : option NetworkFlowsControlMessage)
  : option ConnectionTracker :=
  match msg with
  | None => Some t
  | Some msg =>
      let t := if has_ip_networks msg then ReceivePublicIPs t (public_ip_addresses msg) else t in
      if has_ip_networks msg then ReceiveIPNetworks t (ip_networks msg) else Some t
  end.

(** ** Conversion *)

Definition EndpointToProto (endpoint : Endpoint) : option NetworkAddress :=
  if ep_IsNull endpoint then None
  else
    let addr_length := Z.to_nat (length_of (ep_address endpoint)) in
    let bytes := take addr_length (data_bytes (ep_address endpoint)) in
    Some (mkNetworkAddress
            (if IsAddress (ep_network endpoint) then bytes else [])
            (if 0 <? bits (ep_network endpoint) then bytes ++ [wrap 8 (bits (ep_network endpoint))] else [])
            (ep_port endpoint)).

Definition ProcessToProto (process : Process) : NetworkProcessUniqueKey :=
  mkProcessKey (comm process) (exe_path process) (args process).

Definition ConnToProto (conn : Connection) : NetworkConnection :=
  mkNetworkConnection (container_ conn) (if is_server conn then ROLE_SERVER else ROLE_CLIENT)
    (TranslateL4Protocol (l4proto conn)) (TranslateAddressFamily (family (ep_address (local_ conn))))
    (EndpointToProto (local_ conn)) (EndpointToProto (remote_ conn)) None.

Definition ContainerEndpointToProto (cep : ContainerEndpoint) : NetworkEndpoint :=
  mkNetworkEndpoint (cep_container cep) (TranslateL4Protocol (cep_l4proto cep))
    (TranslateAddressFamily (family (ep_address (cep_endpoint cep))))
    (EndpointToProto (cep_endpoint cep))
    ((fun p => ProcessToProto (ip_obj p)) <$> cep_originator cep) None.

Definition close_conn (c : NetworkConnection) (ts : Z) : NetworkConnection :=
  mkNetworkConnection (nc_container_id c) (nc_role c) (nc_protocol c) (nc_socket_family c)
    (nc_local_address c) (nc_remote_address c) (Some ts).
Definition close_endpoint (e : NetworkEndpoint) (ts : Z) : NetworkEndpoint :=
  mkNetworkEndpoint (ne_container_id e) (ne_protocol e) (ne_socket_family e) (ne_listen_address e)
    (ne_originator e) (Some ts).

(** The message of an entry of a difference. *)
Definition conn_update (e : Connection * ConnStatus) : NetworkConnection :=
  if negb (IsActive e.2) then close_conn (ConnToProto e.1) (LastActiveTime e.2) else ConnToProto e.1.

Record add_state := mkAddState {
  as_limiter : CountLimiter;
  as_stats : CollectorStats;
  as_updates : list NetworkConnection
}.

Definition add_one (s : add_state) (e : Connection * ConnStatus) : add_state :=
  if negb (IsActive e.2)
  then mkAddState (as_limiter s) (as_stats s) (as_updates s ++ [conn_update e])
  else
    let '(limiter, ok) := count_Allow (as_limiter s) (container_ e.1) in
    if negb ok
    then mkAddState limiter (CounterInc net_conn_rate_limited (as_stats s)) (as_updates s)
    else mkAddState limiter (as_stats s) (as_updates s ++ [conn_update e]).

Definition AddConnections (per_container_limit : Z) (delta : umap Connection ConnStatus)
    (stats : CollectorStats) : list NetworkConnection * CollectorStats :=
  let s := fold_left add_one delta (mkAddState (CountLimiter_make per_container_limit) stats []) in
  (as_updates s, as_stats s).

Definition AddContainerEndpoints (delta : umap ContainerEndpoint ConnStatus) : list NetworkEndpoint :=
  map (fun e => let p := ContainerEndpointToProto e.1 in
                if negb (IsActive e.2) then close_endpoint p (LastActiveTime e.2) else p) delta.

Definition CreateInfoMessage (per_container_limit : Z) (conn_delta : umap Connection ConnStatus)
    (endpoint_delta : umap ContainerEndpoint ConnStatus) (stats : CollectorStats)
  : option InfoMessage * CollectorStats :=
  match conn_delta, endpoint_delta with
  | [], [] => (None, stats)
  | _, _ =>
      let '(updates, stats) := AddConnections per_container_limit conn_delta stats in
      let stats := CounterAdd net_conn_deltas (size conn_delta) stats in
      let endpoints := AddContainerEndpoints endpoint_delta in
      let stats := CounterAdd net_cep_deltas (size endpoint_delta) stats in
      (Some (mkInfoMessage updates endpoints), stats)
  end.

(** ** The loop *)

Record NotifierConfig := mkNotifierConfig {
  TurnOffScrape : bool;
  ScrapeListenEndpoints : bool;
  EnableAfterglow : bool;
  AfterglowPeriod : Z;
  PerContainerRateLimit : Z
}.

(** What one iteration reads: the time and result of the scrape, the time of the
    report, the external-IPs configuration and the result of the write. *)
Record iteration := mkIteration {
  it_ts : Z;
  it_scrape : option (list Connection * list ContainerEndpoint);
  it_time_micros : Z;
  it_external_ips : ExternalIPsConfig;
  it_write_ok : bool
}.

(** The locals of [RunSingle] and the tracker. *)
Record loop_state := mkLoopState {
  ls_tracker : ConnectionTracker;
  ls_old_conn_state : umap Connection ConnStatus;
  ls_old_cep_state : umap ContainerEndpoint ConnStatus;
  ls_time_at_last_scrape : Z;
  ls_prev_external_ips : ExternalIPsConfig
}.

Definition UpdateAllConnsAndEndpoints (cfg : NotifierConfig) (t : ConnectionTracker) (it : iteration)
  : ConnectionTracker * bool :=
  if TurnOffScrape cfg then (t, true)
  else
    match it_scrape it with
    | None => (t, false)
    | Some (all_conns, all_listen_endpoints) =>
        (Update t all_conns (if ScrapeListenEndpoints cfg then all_listen_endpoints else []) (it_ts it), true)
    end.

(** The outcome of an iteration: the new locals, the connection difference that
    was computed and the message, if there is something to report. *)
Record outcome := mkOutcome {
  oc_state : loop_state;
  oc_snapshot : option (umap Connection ConnStatus);
  oc_conn_delta : umap Connection ConnStatus;
  oc_message : option InfoMessage
}.

(** The first part of an iteration: a snapshot of the configured tracker, the difference to the previous
    one, the connections to go on from and the setting they were normalized with. *)
Record snapshot := mkSnapshot {
  sn_new : umap Connection ConnStatus;
  sn_delta : umap Connection ConnStatus;
  sn_old : umap Connection ConnStatus;
  sn_prev : ExternalIPsConfig;
  sn_tracker : ConnectionTracker
}.

Definition take_snapshot (cfg : NotifierConfig) (s : loop_state) (it : iteration) (t : ConnectionTracker) : snapshot :=
  let '(new_conn_state, t) := FetchConnState t true true in
  if EnableAfterglow cfg then
    let delta_conn := ComputeDeltaAfterglow new_conn_state (ls_old_conn_state s) []
                        (it_time_micros it) (ls_time_at_last_scrape s) (AfterglowPeriod cfg) in
    let '(old_conn_state, delta_conn) :=
      CloseConnectionsOnExternalIPsConfigChange t (ls_prev_external_ips s) (ls_old_conn_state s) delta_conn in
    mkSnapshot new_conn_state delta_conn old_conn_state (it_external_ips it) t
  else
    mkSnapshot new_conn_state [] (ComputeDelta new_conn_state (ls_old_conn_state s)) (ls_prev_external_ips s) t.

(** The second part: the endpoints, the message and the new locals. *)
Definition finish_report (cfg : NotifierConfig) (s : loop_state) (it : iteration) (sn : snapshot) (t : ConnectionTracker) : outcome :=
  let '(new_cep_state, t) := FetchEndpointState t true true in
  let old_cep_state := @ComputeDelta _ KeyEq_Advertised new_cep_state (ls_old_cep_state s) in
  let reported := if EnableAfterglow cfg then sn_delta sn else sn_old sn in
  let '(msg, stats) := CreateInfoMessage (PerContainerRateLimit cfg) reported old_cep_state (collector_stats t) in
  let t := set_stats stats t in
  let old_conn_state :=
    if EnableAfterglow cfg
    then UpdateOldState (sn_old sn) (sn_new sn) (it_time_micros it) (AfterglowPeriod cfg)
    else sn_new sn in
  mkOutcome (mkLoopState t old_conn_state new_cep_state (it_time_micros it) (sn_prev sn)) (Some (sn_new sn)) reported msg.

(** An iteration whose scrape failed reports nothing. *)
Definition no_report (s : loop_state) (t : ConnectionTracker) : outcome :=
  mkOutcome (mkLoopState t (ls_old_conn_state s) (ls_old_cep_state s) (ls_time_at_last_scrape s) (ls_prev_external_ips s)) None [] None.

Definition run_iteration (cfg : NotifierConfig) (s : loop_state) (it : iteration) : outcome :=
  let '(t, ok) := UpdateAllConnsAndEndpoints cfg (ls_tracker s) it in
  if negb ok then no_report s t
  else
    let t := SetExternalIPsConfig t (it_external_ips it) in
    let sn := take_snapshot cfg s it t in
    finish_report cfg s it sn (sn_tracker sn).

(** [RunSingle] over the iterations it runs: the messages sent, in order.  It
    returns at the first failed write. *)
Fixpoint RunSingle_loop (cfg : NotifierConfig) (s : loop_state) (its : list iteration) : list InfoMessage :=
  match its with
  | [] => []
  | it :: its =>
      let o := run_iteration cfg s it in
      match oc_message o with
      | None => RunSingle_loop cfg (oc_state o) its
      | Some msg => if negb (it_write_ok it) then [] else msg :: RunSingle_loop cfg (oc_state o) its
      end
  end.

Definition RunSingle_start (t : ConnectionTracker) (now : Z) (external : ExternalIPsConfig) : loop_state :=
  mkLoopState t [] [] now external.

Definition RunSingle (cfg : NotifierConfig) (t : ConnectionTracker) (now : Z) (external : ExternalIPsConfig)
    (its : list iteration) : list InfoMessage :=
  RunSingle_loop cfg (RunSingle_start t now external) its.
End Operations.

(** ** Lemmas *)

Section NotifierLemmas.
Context `{HostEndian}.

(** *** Reading networks *)

(** Cutting a concatenation of equally long blocks gives the blocks back. *)
Lemma cut_blocks {A B} (n : nat) (f : list A -> B) (bs : list (list A)) :
  (0 < n)%nat -> Forall (fun b => length b = n) bs ->
  map (fun i => f (take n (drop (n * i) (concat bs)))) (seq 0 (length (concat bs) / n)) = map f bs.
Proof.
  intros Hn Hbs.
  assert (length (concat bs) = length bs * n)%nat as ->.
  { induction Hbs as [|b bs Hb _ IH]; simpl; [lia|]. rewrite length_app, IH, Hb. lia. }
  rewrite Nat.div_mul by lia.
  induction Hbs as [|b bs Hb _ IH]; simpl; [done|].
  rewrite Nat.mul_0_r, drop_0, take_app_le, take_ge by lia. f_equal.
  rewrite <- List.seq_shift, List.map_map, <- IH. apply List.map_ext. intros i.
  rewrite drop_app_ge by lia. do 3 f_equal. lia.
Qed.

(** The tuple [EndpointToProto] writes for a network. *)
Definition network_tuple (n : IPNet) : list Z :=
  take (Z.to_nat (length_of (address_ n))) (data_bytes (address_ n)) ++ [wrap 8 (bits n)].

Lemma length_address_part a : length (take (Z.to_nat (length_of a)) (data_bytes a)) = Z.to_nat (length_of a).
Proof.
  rewrite length_take, length_data_bytes. pose proof (Length_bound (family_ a)). unfold length_of. lia.
Qed.

Lemma length_network_tuple n : length (network_tuple n) = Z.to_nat (length_of (address_ n) + 1).
Proof.
  unfold network_tuple. rewrite length_app, length_address_part. simpl.
  pose proof (Length_bound (family_ (address_ n))). unfold length_of. lia.
Qed.

(** A prefix length above 127 is negative as a [char]; as a [size_t] it is
    huge and clamped to the length of the family. *)
Lemma IPNet_make_char n :
  wf_net n -> is_addr_ n = false ->
  IPNet_make (address_ n) (wrap 64 (to_signed 8 (wrap 8 (bits_ n)))) false = n.
Proof.
  intros Hn Ha. destruct (wf_net_bits n Hn) as [B1 B2]. pose proof (Length_bound (family_ (address_ n))).
  unfold IPNet_make, family.
  set (z := wrap 64 (to_signed 8 (wrap 8 (bits_ n)))).
  assert ((if Length (family_ (address_ n)) * 8 <? z then Length (family_ (address_ n)) * 8 else z) = bits_ n) as ->.
  { assert (wrap 8 (bits_ n) = bits_ n) as E by (unfold wrap; apply Z.mod_small; lia).
    subst z. unfold to_signed. cbv zeta. rewrite !E.
    change (2 ^ (8 - 1)) with 128. change (2 ^ 8) with 256.
    destruct (Z.ltb_spec (bits_ n) 128) as [L|L].
    - assert (wrap 64 (bits_ n) = bits_ n) as -> by (unfold wrap; apply Z.mod_small; lia).
      by destruct (Z.ltb_spec (Length (family_ (address_ n)) * 8) (bits_ n)); [lia|].
    - assert (bits_ n = 128) as -> by lia.
      change (wrap 64 (128 - 256)) with 18446744073709551488.
      destruct (Z.ltb_spec (Length (family_ (address_ n)) * 8) 18446744073709551488); lia. }
  rewrite <- (wf_net_mask n Hn), <- Ha. by destruct n.
Qed.

Lemma read_network_tuple n :
  wf_net n -> canonical (address_ n) -> is_addr_ n = false ->
  read_network (family_ (address_ n)) (network_tuple n) = n.
Proof.
  intros Hn Hc Ha. unfold read_network. set (len := Z.to_nat (Length (family_ (address_ n)))).
  assert (take len (network_tuple n) = take len (data_bytes (address_ n))) as E.
  { unfold network_tuple. rewrite take_app_le by (rewrite length_address_part; done).
    rewrite take_ge by (rewrite length_address_part; done). done. }
  assert (nth len (network_tuple n) 0 = wrap 8 (bits n)) as ->.
  { unfold network_tuple. rewrite List.app_nth2 by (rewrite length_address_part; unfold len, length_of; lia).
    rewrite length_address_part. unfold length_of. fold len. by rewrite Nat.sub_diag. }
  rewrite E, (Address_bytes_data (address_ n)); [|apply Hn|done|by rewrite take_take, Nat.min_id].
  assert (Address_u64 (family_ (address_ n)) (data_ (address_ n)) = address_ n) as ->
    by (unfold Address_u64; by destruct (address_ n)).
  by apply IPNet_make_char.
Qed.

(** *** Rate limiting *)

Abbreviation entry := (Connection * ConnStatus)%type.

(** The entries a limit per container lets through: every closed connection,
    and the first [limit] open ones of each container; [seen] are the containers
    of the open ones before. *)
Fixpoint keep (limit : Z) (seen : list str) (delta : list entry) : list entry :=
  match delta with
  | [] => []
  | e :: delta =>
      if IsActive e.2
      then if occurrences (container_ e.1) seen <? limit
           then e :: keep limit (container_ e.1 :: seen) delta
           else keep limit (container_ e.1 :: seen) delta
      else e :: keep limit seen delta
  end.

Definition open_of (c : str) (e : entry) : bool := IsActive e.2 && bool_decide (container_ e.1 = c).

Lemma add_one_keep limit seen delta s :
  wf_umap any_str (cl_cache_ (as_limiter s)) -> count_ (as_limiter s) = limit ->
  (forall k, uses (as_limiter s) k = occurrences k seen) ->
  let s' := fold_left add_one delta s in
  as_updates s' = as_updates s ++ map conn_update (keep limit seen delta)
  /\ as_stats s' = Nat.iter (length delta - length (keep limit seen delta))
                     (CounterInc net_conn_rate_limited) (as_stats s)
  /\ (length (keep limit seen delta) <= length delta)%nat.
Proof.
  revert seen s. induction delta as [|e delta IH]; intros seen s Hw Hc Hu; simpl.
  { split_and!; [by rewrite app_nil_r|done|lia]. }
  remember (add_one s e) as s1 eqn:E1'. unfold add_one in E1'. destruct (IsActive e.2) eqn:Ea; cbn [negb] in E1'.
  - pose proof (count_Allow_spec (as_limiter s) (container_ e.1) Hw) as Hs.
    destruct (count_Allow (as_limiter s) (container_ e.1)) as [c' ok]. destruct Hs as (Hw' & Hc' & Hok & Hu').
    assert (ok = (occurrences (container_ e.1) seen <? limit)) as ->.
    { rewrite Hok, Hu, Hc. destruct (Z.leb_spec (occurrences (container_ e.1) seen + 1) limit),
        (Z.ltb_spec (occurrences (container_ e.1) seen) limit); done || lia. }
    assert (forall k, uses c' k = occurrences k (container_ e.1 :: seen)) as Hu2.
    { intros k. rewrite Hu', Hu, occurrences_cons.
      rewrite (bool_decide_ext (container_ e.1 = k) (k = container_ e.1)) by (split; congruence). lia. }
    destruct (_ <? limit); cbn [negb] in E1'; subst s1; simpl.
    + destruct (IH (container_ e.1 :: seen) (mkAddState c' (as_stats s) (as_updates s ++ [conn_update e])))
        as (E1 & E2 & E3); try done; [simpl; congruence|]. simpl in *.
      split_and!; [by rewrite E1, <- app_assoc|done|lia].
    + destruct (IH (container_ e.1 :: seen)
                  (mkAddState c' (CounterInc net_conn_rate_limited (as_stats s)) (as_updates s)))
        as (E1 & E2 & E3); try done; [simpl; congruence|]. simpl in *.
      split_and!; [done| |lia].
      rewrite E2, Nat.sub_succ_l by lia. by rewrite Nat.iter_swap.
  - subst s1. destruct (IH seen (mkAddState (as_limiter s) (as_stats s) (as_updates s ++ [conn_update e])))
      as (E1 & E2 & E3); try done. simpl in *.
    split_and!; [by rewrite E1, <- app_assoc|done|lia].
Qed.

Lemma keep_closed limit seen delta :
  List.filter (fun e => negb (IsActive e.2)) (keep limit seen delta)
  = List.filter (fun e => negb (IsActive e.2)) delta.
Proof.
  revert seen. induction delta as [|e delta IH]; intros seen; simpl; [done|].
  destruct (IsActive e.2) eqn:E; simpl; [destruct (_ <? limit)|]; simpl; rewrite ?E; simpl; by rewrite IH.
Qed.

Lemma size_cons {A} (x : A) l : size (x :: l) = 1 + size l.
Proof. unfold size. simpl length. lia. Qed.

Lemma keep_open limit seen delta c :
  0 <= limit ->
  size (List.filter (open_of c) (keep limit seen delta))
  = Z.min (Z.max 0 (limit - occurrences c seen)) (size (List.filter (open_of c) delta)).
Proof.
  intros Hl. revert seen. induction delta as [|e delta IH]; intros seen; [unfold size; simpl; lia|].
  pose proof (size_nonneg (List.filter (open_of c) delta)).
  assert (open_of c e = IsActive e.2 && bool_decide (container_ e.1 = c)) as Ho by done.
  cbn [keep List.filter]. destruct (IsActive e.2); cbn [andb] in Ho.
  - specialize (IH (container_ e.1 :: seen)). rewrite occurrences_cons in IH.
    case_bool_decide as Ec; rewrite Ho.
    + rewrite size_cons, <- Ec in *.
      destruct (Z.ltb_spec (occurrences (container_ e.1) seen) limit); [|lia].
      cbn [List.filter]. rewrite Ho, size_cons. lia.
    + destruct (_ <? limit); [|done]. cbn [List.filter]. by rewrite Ho.
  - cbn [List.filter]. rewrite Ho. apply IH.
Qed.

(** A counter after several increments. *)
Lemma GetCounter_iter c n st :
  0 <= GetCounter st c -> GetCounter st c + Z.of_nat n < 2 ^ 63 ->
  GetCounter (Nat.iter n (CounterInc c) st) c = GetCounter st c + Z.of_nat n.
Proof.
  intros H0 Hn. induction n as [|n IH]; [simpl; lia|].
  change (Nat.iter (S n) (CounterInc c) st) with (CounterInc c (Nat.iter n (CounterInc c) st)).
  specialize (IH ltac:(lia)). unfold CounterInc at 1, CounterAdd. unfold GetCounter in *. cbn [counter_].
  rewrite upd_eq, IH, !to_signed_small by (rewrite ?to_signed_small; lia). lia.
Qed.

(** *** Snapshots are maps *)

Lemma assign_keys {K V} `{!KeyEq K} (m : umap K V) k v : map fst (assign m k v) = map fst m.
Proof. induction m as [|e m IH]; [done|]. simpl. destruct (keqb k e.1); simpl; [done|by rewrite IH]. Qed.

Lemma keys_forall {K V} (Q : K -> Prop) (m : umap K V) :
  Forall (fun e => Q e.1) m <-> Forall Q (map fst m).
Proof. symmetry. apply List.Forall_map. Qed.

Lemma fetch_wf {T} (E : KeyEq T) (Q : T -> Prop) (HL : @KeyEqLaws T E Q) process filter_fn state :
  Forall (fun e => Q e.1) (fold_left (fetch_one E (Some process) filter_fn) state []) ->
  wf_umap Q (fold_left (fetch_one E (Some process) filter_fn) state []).
Proof.
  assert (forall m, (Forall (fun e => Q e.1) m -> wf_umap Q m) ->
    Forall (fun e => Q e.1) (fold_left (fetch_one E (Some process) filter_fn) state m) ->
    wf_umap Q (fold_left (fetch_one E (Some process) filter_fn) state m)) as Hg;
    [|apply Hg; intros; apply wf_nil].
  induction state as [|e state IH]; intros m Hm; [done|]. simpl. apply IH. clear IH.
  unfold fetch_one. destruct (match filter_fn with Some f => f e.1 | None => true end); [|done].
  unfold emplace. rewrite Contains_Lookup. destruct (Lookup m (process e.1)) as [s|] eqn:El; simpl.
  - rewrite El. intros Hq. apply wf_assign, Hm, keys_forall. by rewrite <- (assign_keys m (process e.1) (MergeFrom s e.2)), <- keys_forall.
  - intros Hq. apply List.Forall_app in Hq as [Hq1 Hq2]. apply Forall_cons in Hq2 as [Hq2 _].
    apply uniq_app_single; [done|by apply Hm|done|].
    by rewrite <- Contains_false, Contains_Lookup, El.
Qed.

Lemma FetchConnState_wf t c Q (HL : KeyEqLaws Connection Q) :
  Forall (fun e => Q e.1) (FetchConnState t true c).1 -> wf_umap Q (FetchConnState t true c).1.
Proof. unfold FetchConnState. rewrite FetchState_split. apply fetch_wf, HL. Qed.

(** *** The loop *)

(** The outcomes of the iterations, in order. *)
Fixpoint outcomes (cfg : NotifierConfig) (s : loop_state) (its : list iteration) : list outcome :=
  match its with
  | [] => []
  | it :: its => let o := run_iteration cfg s it in o :: outcomes cfg (oc_state o) its
  end.

(** The snapshots of a run with the times of their reports, the latest first. *)
Definition push (h : list (umap Connection ConnStatus * Z)) (o : outcome) : list (umap Connection ConnStatus * Z) :=
  match oc_snapshot o with
  | Some m => (m, ls_time_at_last_scrape (oc_state o)) :: h
  | None => h
  end.

Definition history_of (os : list outcome) : list (umap Connection ConnStatus * Z) := fold_left push os [].

(** What a receiver of every reported difference knows of a connection. *)
Definition view_of (k : Connection) (os : list outcome) : bool :=
  fold_left (fun v o => receive (oc_conn_delta o) k v) os false.

(** The clock of the reports does not go back. *)
Fixpoint clock_ok (t : Z) (its : list iteration) : Prop :=
  match its with
  | [] => True
  | it :: its => t <= it_time_micros it /\ clock_ok (it_time_micros it) its
  end.

Lemma Close_same_config t prev old delta :
  external_ips_config_ t = prev -> CloseConnectionsOnExternalIPsConfigChange t prev old delta = (old, delta).
Proof.
  intros <-. unfold CloseConnectionsOnExternalIPsConfigChange. by rewrite !eqb_reflx.
Qed.

(** What an iteration changes of the locals, and the difference. *)
Definition reported_as (cfg : NotifierConfig) (s : loop_state) (it : iteration) (o : outcome) : Prop :=
  let p := AfterglowPeriod cfg in
  ls_prev_external_ips (oc_state o) = ls_prev_external_ips s
  /\ match oc_snapshot o with
     | None => ls_old_conn_state (oc_state o) = ls_old_conn_state s
               /\ ls_time_at_last_scrape (oc_state o) = ls_time_at_last_scrape s /\ oc_conn_delta o = []
     | Some new =>
         (exists t, new = (FetchConnState t true true).1)
         /\ ls_time_at_last_scrape (oc_state o) = it_time_micros it
         /\ ls_old_conn_state (oc_state o)
            = (if EnableAfterglow cfg then UpdateOldState (ls_old_conn_state s) new (it_time_micros it) p else new)
         /\ oc_conn_delta o
            = (if EnableAfterglow cfg
               then ComputeDeltaAfterglow new (ls_old_conn_state s) [] (it_time_micros it) (ls_time_at_last_scrape s) p
               else ComputeDelta new (ls_old_conn_state s))
     end.

Lemma take_snapshot_tracker cfg s it t :
  sn_new (take_snapshot cfg s it t) = (FetchConnState t true true).1 /\ sn_tracker (take_snapshot cfg s it t) = (FetchConnState t true true).2.
Proof.
  unfold take_snapshot. destruct (FetchConnState t true true) as [new t1]. destruct (EnableAfterglow cfg); [|done].
  by destruct (CloseConnectionsOnExternalIPsConfigChange _ _ _ _).
Qed.

Lemma finish_report_members cfg s it sn t :
  let o := finish_report cfg s it sn t in
  oc_snapshot o = Some (sn_new sn) /\ ls_time_at_last_scrape (oc_state o) = it_time_micros it
  /\ exists stats, ls_tracker (oc_state o) = set_stats stats (FetchEndpointState t true true).2.
Proof.
  unfold finish_report. destruct (FetchEndpointState t true true) as [cep t1]. destruct (CreateInfoMessage _ _ _ _) as [msg st].
  split_and!; [done|done|by exists st].
Qed.

(** Whatever happens to the tracker between the two parts. *)
Lemma report_parts cfg s it t t' :
  (EnableAfterglow cfg = true -> it_external_ips it = ls_prev_external_ips s) -> external_ips_config_ t = it_external_ips it ->
  reported_as cfg s it (finish_report cfg s it (take_snapshot cfg s it t) t').
Proof.
  intros Hext Et. unfold take_snapshot. destruct (FetchConnState_members t true true) as (_ & _ & Hsame).
  destruct (FetchConnState t true true) as [new t1] eqn:Ef. pose proof (same_external _ _ Hsame) as Ec. cbn [snd] in Ec.
  unfold finish_report, reported_as. destruct (FetchEndpointState t' true true) as [new_cep t2]. destruct (EnableAfterglow cfg).
  - rewrite Close_same_config by (by rewrite Ec, Et, Hext). destruct (CreateInfoMessage _ _ _ _) as [msg st]. cbn.
    split; [by apply Hext|]. split_and!; try done. exists t. by rewrite Ef.
  - destruct (CreateInfoMessage _ _ _ _) as [msg st]. cbn. split_and!; try done. exists t. by rewrite Ef.
Qed.

Lemma run_iteration_step cfg s it :
  (EnableAfterglow cfg = true -> it_external_ips it = ls_prev_external_ips s) -> reported_as cfg s it (run_iteration cfg s it).
Proof.
  intros Hext. unfold run_iteration. destruct (UpdateAllConnsAndEndpoints cfg (ls_tracker s) it) as [t []]; cbn [negb]; [|done].
  by apply report_parts.
Qed.

(** The keys of the snapshot of an outcome. *)
Definition snapshot_in (Q : Connection -> Prop) (o : outcome) : Prop :=
  match oc_snapshot o with Some m => Forall (fun e => Q e.1) m | None => True end.

(** The receiver's knowledge prescribed by a history of snapshots. *)
Definition glow_view (cfg : NotifierConfig) (h : list (umap Connection ConnStatus * Z)) (k : Connection) : bool :=
  match h with
  | [] => false
  | (new, t) :: h =>
      if EnableAfterglow cfg then
        match Lookup new k with
        | Some s => WasRecentlyActive s t (AfterglowPeriod cfg)
        | None => match last_seen h k with
                  | Some s => IsInAfterglowPeriod s t (AfterglowPeriod cfg)
                  | None => false
                  end
        end
      else active_in new k
  end.

Section Run.
Context (cfg : NotifierConfig) (t0 : Z) (Q : Connection -> Prop) (HQ : KeyEqLaws Connection Q).
Context (k : Connection) (Hk : Q k).
Abbreviation history := (list (umap Connection ConnStatus * Z)).

Definition kept_of (h : history) : umap Connection ConnStatus :=
  if EnableAfterglow cfg then run_old (AfterglowPeriod cfg) h
  else match h with [] => [] | (m, _) :: _ => m end.

Definition seen_of (h : history) : bool :=
  if EnableAfterglow cfg then run_view t0 (AfterglowPeriod cfg) h k else run_view_plain h k.

Lemma seen_of_view h : history_ok Q t0 h -> seen_of h = glow_view cfg h k.
Proof.
  intros Hh. unfold seen_of. destruct h as [|[new t] h]; simpl glow_view.
  - by destruct (EnableAfterglow cfg).
  - destruct (EnableAfterglow cfg); [by apply (run_view_last Q)|by apply (run_view_plain_active Q t0 new t)].
Qed.

(** The locals of the loop after the snapshots [h], and what the receiver knows. *)
Record run_inv (s : loop_state) (h : history) (v : bool) (now : Z) : Prop := {
  ri_clock : time_of t0 h <= now;
  ri_old : ls_old_conn_state s = kept_of h;
  ri_time : ls_time_at_last_scrape s = time_of t0 h;
  ri_history : history_ok Q t0 h;
  ri_view : v = seen_of h
}.

Lemma run_inv_report s h v now it o :
  now <= it_time_micros it -> run_inv s h v now -> reported_as cfg s it o -> snapshot_in Q o ->
  run_inv (oc_state o) (push h o) (receive (oc_conn_delta o) k v) (it_time_micros it).
Proof.
  intros Hnow [Hct Hold Htime Hh Hv] [_ Hstep] Hkey. unfold push. unfold snapshot_in in Hkey. destruct (oc_snapshot o) as [new|].
  - destruct Hstep as ((t & Ht) & Et & Eold & Ed). rewrite Et.
    split; [simpl; lia| |done|split; [subst new; by apply FetchConnState_wf|split; [lia|done]]|].
    + rewrite Eold, Hold. unfold kept_of. by destruct (EnableAfterglow cfg).
    + rewrite Ed, Hv, Hold, Htime. unfold seen_of, kept_of. by destruct (EnableAfterglow cfg).
  - destruct Hstep as (Eold & Et & Ed). split; rewrite ?Eold, ?Et, ?Ed; [lia|done..].
Qed.

Lemma run_inv_step s h v now it :
  (EnableAfterglow cfg = true -> it_external_ips it = ls_prev_external_ips s) -> now <= it_time_micros it ->
  run_inv s h v now -> let o := run_iteration cfg s it in snapshot_in Q o ->
  run_inv (oc_state o) (push h o) (receive (oc_conn_delta o) k v) (it_time_micros it)
  /\ ls_prev_external_ips (oc_state o) = ls_prev_external_ips s.
Proof.
  intros Hext Hnow Hinv o Hkey. pose proof (run_iteration_step cfg s it Hext) as Hr. split; [by apply (run_inv_report s h v now it)|apply Hr].
Qed.

Lemma run_inv_start t external : run_inv (RunSingle_start t t0 external) [] false t0.
Proof. split; try done; [unfold kept_of|unfold seen_of]; by destruct (EnableAfterglow cfg). Qed.

Lemma run_history its s h v ct :
  (EnableAfterglow cfg = true -> Forall (fun it => it_external_ips it = ls_prev_external_ips s) its) ->
  clock_ok ct its -> run_inv s h v ct -> Forall (snapshot_in Q) (outcomes cfg s its) ->
  let os := outcomes cfg s its in
  history_ok Q t0 (fold_left push os h)
  /\ fold_left (fun v o => receive (oc_conn_delta o) k v) os v = seen_of (fold_left push os h).
Proof.
  revert s h v ct. induction its as [|it its IH]; intros s h v ct Hext Hclock Hinv Hkeys; [by destruct Hinv|].
  cbn [outcomes fold_left] in *. apply Forall_cons in Hkeys as [Hkey Hkeys]. destruct Hclock as [Hc1 Hclock].
  destruct (run_inv_step s h v ct it) as [Hinv' Hprev]; [|done..|].
  - intros G. specialize (Hext G). by apply Forall_cons in Hext as [? _].
  - apply (IH _ _ _ (it_time_micros it)); try done. intros G. specialize (Hext G).
    apply Forall_cons in Hext as [_ ?]. by rewrite Hprev.
Qed.
End Run.
(** *** Control messages *)

Lemma Contains_set_insert s a b : Contains (set_insert s a) b = Contains s b || addr_eqb b a.
Proof.
  assert (forall m : umap Address unit, Contains m b = existsb (fun e => addr_eqb b e.1) m) as Hc.
  { intros m. unfold Contains, Find. induction m as [|e m IH]; [done|]. simpl.
    unfold keqb, KeyEq_Address. by destruct (addr_eqb b e.1). }
  unfold set_insert, emplace. destruct (Contains s a) eqn:E; simpl.
  - destruct (addr_eqb b a) eqn:Eb; [|by rewrite orb_false_r].
    apply addr_eqb_eq in Eb as ->. by rewrite E.
  - rewrite !Hc, existsb_app. simpl. by rewrite orb_false_r.
Qed.

(** The addresses a message lists. *)
Fixpoint pairs_of (words : list Z) : list Address :=
  match words with
  | high :: low :: words => Address_high_low (htonll high) (htonll low) :: pairs_of words
  | _ => []
  end.

Definition listed_addresses (ips : IPAddressList) : list Address :=
  flat_map (fun ip => [Address_ipv4 (htonl ip); ToV6 (Address_ipv4 (htonl ip))]) (ipv4_addresses ips)
  ++ (if Nat.even (length (ipv6_addresses ips)) then pairs_of (ipv6_addresses ips) else []).

Lemma insert_pairs_contains n ws s a :
  (length ws <= n)%nat -> Contains (insert_pairs s ws) a = Contains s a || existsb (addr_eqb a) (pairs_of ws).
Proof.
  revert ws s. induction n as [|n IH]; intros [|h [|l ws]] s Hn; simpl in *; try lia; rewrite ?orb_false_r; try done.
  rewrite IH by lia. by rewrite Contains_set_insert, orb_assoc.
Qed.

Lemma ReceivePublicIPs_contains t ips a :
  Contains (known_public_ips_ (ReceivePublicIPs t ips)) a = existsb (addr_eqb a) (listed_addresses ips).
Proof.
  unfold ReceivePublicIPs, listed_addresses. cbn [known_public_ips_ UpdateKnownPublicIPs].
  set (v4 := fold_left (fun s public_ip => set_insert (set_insert s (Address_ipv4 (htonl public_ip)))
                                            (ToV6 (Address_ipv4 (htonl public_ip)))) (ipv4_addresses ips) []).
  rewrite existsb_app.
  assert (Contains v4 a = existsb (addr_eqb a)
            (flat_map (fun ip => [Address_ipv4 (htonl ip); ToV6 (Address_ipv4 (htonl ip))]) (ipv4_addresses ips))) as <-.
  { subst v4. rewrite <- (orb_false_l (existsb _ _)). change false with (Contains ([] : umap Address unit) a).
    generalize ([] : umap Address unit). induction (ipv4_addresses ips) as [|ip l IH]; intros s; simpl.
    - by rewrite orb_false_r.
    - rewrite IH, !Contains_set_insert. by rewrite !orb_assoc. }
  destruct (Nat.even _); simpl; [by apply (insert_pairs_contains (length (ipv6_addresses ips)))|by rewrite orb_false_r].
Qed.

Lemma load64_short bs : bytes_ok bs -> (length bs <= 8)%nat -> word 64 (load64 bs).
Proof.
  intros Hb Hl. assert (256 ^ Z.of_nat (length bs) <= 2 ^ 64) as Hp.
  { change (2 ^ 64) with (256 ^ 8). apply Z.pow_le_mono_r; lia. }
  unfold load64, word. destruct host_is_big_endian.
  - pose proof (le_word_bound (rev bs) (bytes_ok_rev bs Hb)) as B. rewrite length_rev in B. lia.
  - pose proof (le_word_bound bs Hb). lia.
Qed.

Lemma wf_Address_bytes f bs : bytes_ok bs -> wf_addr (Address_bytes f bs).
Proof.
  intros Hb. unfold Address_bytes.
  set (mem := take _ bs ++ drop _ (replicate 16 0)).
  assert (bytes_ok mem) as Hm.
  { apply Forall_app. split; [by apply Forall_take|].
    apply Forall_drop, Forall_replicate. lia. }
  split; simpl; apply load64_short; try (by apply Forall_take; try apply Forall_drop);
    rewrite length_take; lia.
Qed.

Lemma readNetworks_wf bs f : bytes_ok bs -> Forall wf_net (readNetworks bs f).
Proof.
  intros Hb. unfold readNetworks. apply List.Forall_map, List.Forall_forall. intros i _.
  unfold read_network. apply wf_IPNet_make.
  - apply (wf_Address_bytes f (take (Z.to_nat (Length f)) (take (Z.to_nat (Length f + 1))
             (drop (Z.to_nat (Length f + 1) * i) bs)))).
    by apply Forall_take, Forall_take, Forall_drop.
  - apply wrap_word. lia.
Qed.

Lemma known_networks_wf nets :
  bytes_ok (ipv4_networks nets) -> bytes_ok (ipv6_networks nets) ->
  Forall (fun e => Forall wf_net e.2) (known_networks_of nets).
Proof.
  intros H4 H6. unfold known_networks_of.
  destruct (negb (length (ipv4_networks nets) mod 5 =? 0)%nat), (negb (length (ipv6_networks nets) mod 17 =? 0)%nat);
    cbn; repeat (apply List.Forall_cons; [by apply readNetworks_wf|]); apply List.Forall_nil.
Qed.
End NotifierLemmas.

(** ** Theorems *)

Section Theorems.
Context `{HostEndian}.

(** C3. The reporting loop: whatever the scrapes return, a receiver that
    applies every difference of a run of [RunSingle] knows a connection as open exactly
    when the snapshots prescribe it.  Without afterglow: the latest snapshot has it
    active.  With afterglow, as long as the external-IPs setting stays the one of the start: the latest
    snapshot has it active or active within the period or, the snapshot not having it,
    its last sighting is within the period.  Failed scrapes change nothing.  The clock of the reports does
    not go back, and the connections of the snapshots are legitimate keys of a hash container. *)
Theorem RunSingle_view (cfg : NotifierConfig) (t : ConnectionTracker) (now : Z) (external : ExternalIPsConfig)
    (its : list iteration) (hash_string : str -> Z) (Q : Connection -> Prop) (HQ : HashKeys Connection (conn_hash hash_string) Q)
    (k : Connection) (Hk : Q k)
    (Hext : EnableAfterglow cfg = true -> Forall (fun it => it_external_ips it = external) its)
    (Hclock : clock_ok now its)
    (Hkeys : Forall (snapshot_in Q) (outcomes cfg (RunSingle_start t now external) its)) :
  let os := outcomes cfg (RunSingle_start t now external) its in
  view_of k os = glow_view cfg (history_of os) k.
Proof.
  intros os. unfold view_of, history_of. pose proof (hash_laws (P := Q)) as HL.
  destruct (run_history cfg now Q HL k its (RunSingle_start t now external) [] false now) as [Hh Hv]; try done.
  - apply run_inv_start.
  - fold os in Hh, Hv. rewrite Hv. by apply (seen_of_view cfg now Q HL).
Qed.

(** C32. Rate limiting of a report: the updates are those of the entries kept by
    the limit, in the order of the difference; every closed connection is among
    them, and of the open connections of a container as many as the limit allows;
    the others are counted. *)
Theorem AddConnections_spec (limit : Z) (delta : umap Connection ConnStatus) (stats : CollectorStats)
    (Hlimit : 0 <= limit)
    (Hcount : 0 <= GetCounter stats net_conn_rate_limited
              /\ GetCounter stats net_conn_rate_limited + size delta < 2 ^ 63) :
  let kept := keep limit [] delta in
  let '(updates, stats') := AddConnections limit delta stats in
  updates = map conn_update kept
  /\ List.filter (fun e => negb (IsActive e.2)) kept = List.filter (fun e => negb (IsActive e.2)) delta
  /\ (forall c, size (List.filter (open_of c) kept) = Z.min limit (size (List.filter (open_of c) delta)))
  /\ GetCounter stats' net_conn_rate_limited
     = GetCounter stats net_conn_rate_limited + (size delta - size updates).
Proof.
  unfold AddConnections.
  destruct (add_one_keep limit [] delta (mkAddState (CountLimiter_make limit) stats [])) as (E1 & E2 & E3);
    [apply wf_nil|done|done|].
  set (s := fold_left add_one delta (mkAddState (CountLimiter_make limit) stats [])) in *.
  cbn [as_updates as_stats app] in E1, E2. rewrite E1, E2. split_and!; [done|apply keep_closed| |].
  - intros c. rewrite keep_open by done. unfold occurrences. simpl. lia.
  - unfold size in *. rewrite GetCounter_iter by lia. rewrite length_map. lia.
Qed.

(** Networks over the wire: [readNetworks] gives back the networks whose
    address and prefix bytes [EndpointToProto] writes, for any number of networks of a
    family, the prefix length 128 included. *)
Theorem readNetworks_roundtrip (f : Family.t) (eps : list Endpoint)
    (Heps : Forall (fun e => wf_net (ep_network e) /\ canonical (address_ (ep_network e))
                             /\ family_ (address_ (ep_network e)) = f
                             /\ IsAddress (ep_network e) = false /\ 0 < bits (ep_network e)) eps) :
  readNetworks (concat (map (fun e => match EndpointToProto e with
                                      | Some a => na_ip_network a | None => [] end) eps)) f
  = map ep_network eps.
Proof.
  assert (map (fun e => match EndpointToProto e with Some a => na_ip_network a | None => [] end) eps
          = map network_tuple (map ep_network eps)) as ->.
  { rewrite List.map_map. apply List.map_ext_Forall. apply (Forall_impl _ _ _ Heps).
    intros e (Hw & Hc & Hf & Ha & Hb). unfold EndpointToProto, ep_IsNull, net_IsNull.
    unfold ep_network, bits in *. destruct (Z.eqb_spec (bits_ (network_ e)) 0); [lia|]. rewrite andb_false_r.
    cbn [na_ip_network]. unfold ep_network, bits. by destruct (Z.ltb_spec 0 (bits_ (network_ e))); [|lia]. }
  unfold readNetworks. rewrite cut_blocks.
  - rewrite !List.map_map. apply List.map_ext_Forall. apply (Forall_impl _ _ _ Heps).
    intros e (Hw & Hc & <- & Ha & _). by apply read_network_tuple.
  - destruct f; simpl; lia.
  - rewrite !List.Forall_map. apply (Forall_impl _ _ _ Heps).
    intros e (_ & _ & <- & _). apply length_network_tuple.
Qed.

(** A control message keeps the tracker consistent and its connections. *)
Lemma OnRecvControlMessage_ok t msg :
  tracker_ok t ->
  match msg with Some msg => bytes_ok (ipv4_networks (ip_networks msg)) /\ bytes_ok (ipv6_networks (ip_networks msg)) | None => True end ->
  exists t', OnRecvControlMessage t msg = Some t' /\ tracker_ok t' /\ conn_state_ t' = conn_state_ t
  /\ known_public_ips_ t' = match msg with
       | Some msg => if has_ip_networks msg then known_public_ips_ (ReceivePublicIPs t (public_ip_addresses msg)) else known_public_ips_ t
       | None => known_public_ips_ t
       end.
Proof.
  intros Ht Hb. unfold OnRecvControlMessage. destruct msg as [msg|]; [|by exists t]. destruct Hb as [H4 H6].
  destruct (has_ip_networks msg); [|by exists t].
  destruct (exec_ok (ReceivePublicIPs t (public_ip_addresses msg))
              (OpUpdateKnownIPNetworks (known_networks_of (ip_networks msg)))) as (t' & E & Ht').
  - destruct Ht; by split.
  - by apply known_networks_wf.
  - exists t'. cbn [exec] in E. split_and!; [done|done|..];
      (unfold UpdateKnownIPNetworks in E; destruct (known_tree _); [|done]; by injection E as <-).
Qed.

End Theorems.

(** ** Witnesses *)

Module Witnesses.
Import ConnTracker.Witnesses.
#[local] Existing Instance little_endian.

Definition cfg : NotifierConfig := mkNotifierConfig false false true 60 10.
Definition ips : ExternalIPsConfig := ExternalIPsConfig_none.
Definition scrapes : list iteration :=
  [mkIteration 100 (Some ([conn1], [])) 110 ips true;
   mkIteration 120 None 120 ips true;
   mkIteration 140 (Some ([], [])) 150 ips true].
Definition run : list outcome := outcomes cfg (RunSingle_start ConnectionTracker_new 90 ips) scrapes.

#[local] Instance only_dec k c : Decision (only k c) := Connection_eq_dec c k.

#[local] Instance snapshot_in_dec k o : Decision (snapshot_in (only k) o).
Proof. unfold snapshot_in. destruct (oc_snapshot o); apply _. Defined.

Lemma run_snapshots : Forall (snapshot_in (only norm1)) run.
Proof. apply (bool_decide_unpack _). vm_compute. exact I. Qed.

(** The connection is gone from the last scrape, but its afterglow lasts. *)
Lemma RunSingle_view_witness : view_of norm1 run = true.
Proof.
  unfold run. rewrite (RunSingle_view cfg ConnectionTracker_new 90 ips scrapes (fun _ => 0) (only norm1)).
  - vm_compute. reflexivity.
  - apply only_keys. vm_compute. reflexivity.
  - reflexivity.
  - intros _. apply Forall_cons_2; [reflexivity|]. apply Forall_cons_2; [reflexivity|].
    apply Forall_cons_2; [reflexivity|constructor].
  - vm_compute. repeat split; discriminate.
  - exact run_snapshots.
Defined.

Definition opened : ConnStatus := ConnStatus_make 5 true.
Definition closed : ConnStatus := ConnStatus_make 5 false.

(** With a limit of one, the second open connection of the container is dropped
    and the closed one is not. *)
Lemma AddConnections_witness :
  (AddConnections 1 [(conn1, opened); (conn1, opened); (conn1, closed)] CollectorStats_new).1
  = [conn_update (conn1, opened); conn_update (conn1, closed)].
Proof.
  pose proof (AddConnections_spec 1 [(conn1, opened); (conn1, opened); (conn1, closed)] CollectorStats_new
                ltac:(lia) ltac:(vm_compute; split; [discriminate|reflexivity])) as Hs.
  cbv zeta in Hs. destruct (AddConnections _ _ _) as [us st]. destruct Hs as (E & _). simpl fst. rewrite E.
  vm_compute. reflexivity.
Defined.

Definition net_ep : Endpoint := Endpoint_net (IPNet_make (Address_octets 8 0 0 0) 8 false) 0.
Definition net6_ep : Endpoint := Endpoint_net (IPNet_make (Address_high_low 1 2) 128 false) 0.

Lemma readNetworks_witness :
  readNetworks [8; 0; 0; 0; 8; 8; 0; 0; 0; 8] Family.IPV4 = [ep_network net_ep; ep_network net_ep]
  /\ readNetworks (concat (map (fun e => match EndpointToProto e with
                                         | Some a => na_ip_network a | None => [] end) [net6_ep])) Family.IPV6
     = [ep_network net6_ep].
Proof.
  split.
  - refine (readNetworks_roundtrip Family.IPV4 [net_ep; net_ep] _).
    apply Forall_cons_2; [|apply Forall_cons_2; [|constructor]];
      (split; [apply wf_IPNet_make; [apply wf_Address_octets|lia]|repeat split]).
  - refine (readNetworks_roundtrip Family.IPV6 [net6_ep] _).
    apply Forall_cons_2; [|constructor].
    split; [apply wf_IPNet_make; [split; unfold word; simpl; lia|lia]|repeat split].
Defined.

End Witnesses.
