(* ===== verification/ProcNet.v ===== *)
(** * Parsing of /proc/<pid>/net/tcp

    The string helpers and the line parser of [collector/lib/ProcfsScraper.cpp].
    A pointer into the line buffer is the list of the bytes from it to the end of the
    buffer, so [p < endp] says that the list is not empty.  Reading at the end of the
    buffer is an error of its own: the outer [option] is [None] exactly when the
    code reads out of bounds, the inner one stands for [nullptr] and [false]. *)

From S2P Require Import Prelude Containers Utility Address IPNet Connection.

(** An early return on a null pointer, which passes an out-of-bounds read on. *)
Notation "'let?' x ':=' c1 'in' c2" :=
  (match c1 with None => None | Some None => Some None | Some (Some x) => c2 end)
  (at level 10, x pattern, c1 at level 200, c2 at level 200) : collector_scope.

Open Scope collector_scope.

(** ** String helpers *)

(** [str.find(c, pos)]. *)
Definition find_char_from (c : ascii) (s : str) (pos : nat) : option nat :=
  Nat.add pos <$> find_char c (drop pos s).

Fixpoint rep_find_loop (n : nat) (s : str) (c : ascii) (pos : nat) : option nat :=
  match n with
  | O => find_char_from c s pos
  | S n => match find_char_from c s pos with
           | None => None
           | Some pos => rep_find_loop n s c (S pos)
           end
  end.

Definition rep_find (n : Z) (s : str) (c : ascii) : option nat :=
  if n <=? 0 then None else rep_find_loop (Z.to_nat (n - 1)) s c 0.

(** The two loops of [nextfield]. *)
Fixpoint skip_field (p : str) : str :=
  match p with
  | [] => []
  | c :: q => if is_nul c || isspace c then p else skip_field q
  end.

Fixpoint skip_sep (p : str) : option str :=
  match p with
  | [] => Some []
  | c :: q =>
      if is_nul c then Some p
      else match q with
           | [] => None
           | c' :: _ => if isspace c' then skip_sep q else Some q
           end
  end.

Definition nextfield (p : str) : option (option str) :=
  match skip_sep (skip_field p) with
  | None => None
  | Some [] => Some None
  | Some (c :: q) => Some (if is_nul c then None else Some (c :: q))
  end.

Fixpoint rep_nextfield (n : nat) (p : option str) : option (option str) :=
  match n, p with
  | S n, Some p => match nextfield p with None => None | Some p => rep_nextfield n p end
  | _, _ => Some p
  end.

(** [while (std::isspace( *p)) p++]. *)
Fixpoint strip_spaces (p : str) : option str :=
  match p with
  | [] => None
  | c :: q => if isspace c then strip_spaces q else Some p
  end.

(** The digits of [strtoumax]: it stops at the first other character. *)
Fixpoint umax_digits (p : str) (acc : Z) (n : nat) : option (Z * nat * str) :=
  match p with
  | [] => None
  | c :: q => if isdigit c then umax_digits q (acc * 10 + digit_val c) (S n) else Some (acc, n, p)
  end.

Definition UINTMAX_MAX : Z := 2 ^ 64 - 1.

(** [strtoumax(p, &endp, 10)]: an overflow gives [UINTMAX_MAX], a minus sign
    negates, and without digits the end pointer is [p]. *)
Definition strtoumax (p : str) : option (Z * str) :=
  match strip_spaces p with
  | None => None
  | Some q =>
      let '(sign, q) := read_sign q in
      match umax_digits q 0 0 with
      | None => None
      | Some (v, n, rest) =>
          if (n =? 0)%nat then Some (0, p)
          else Some (if UINTMAX_MAX <? v then UINTMAX_MAX else wrap 64 (sign * v), rest)
      end
  end.

(** ** Hexadecimal numbers *)

Definition IsHexChar (c : ascii) : bool := if isdigit c then true else in_range "A" "F" c.

Definition HexCharToVal (c : ascii) : Z := if isdigit c then code c - code "0" else 10 + (code c - code "A").

(** The bytes written so far; the last [chunk_size] of them are reversed when a
    chunk is complete. *)
Definition put_byte (chunk_size : nat) (reverse : bool) (i : nat) (bbuf : list Z) (b : Z) : list Z :=
  let bbuf := bbuf ++ [b] in
  if reverse && (i mod chunk_size =? chunk_size - 1)%nat
  then take (length bbuf - chunk_size) bbuf ++ rev (drop (length bbuf - chunk_size) bbuf)
  else bbuf.

(** The loop of [ReadHexBytes] with [togo] bytes to go; the number of bytes read
    and the bytes. *)
Fixpoint hex_loop (chunk_size : nat) (reverse : bool) (togo i : nat) (p : str) (bbuf : list Z) : nat * list Z :=
  match togo, p with
  | S togo, high :: low :: _ :: _ =>
      if negb (IsHexChar high) || negb (IsHexChar low) then (i, bbuf)
      else hex_loop chunk_size reverse togo (S i) (drop 2 p)
             (put_byte chunk_size reverse i bbuf
                (wrap 8 (Z.lor (Z.shiftl (HexCharToVal high) 4) (HexCharToVal low))))
  | _, _ => (i, bbuf)
  end.

Definition ReadHexBytes (p : str) (chunk_size num_chunks : nat) (reverse : bool) : nat * list Z :=
  hex_loop chunk_size reverse (chunk_size * num_chunks) 0 p [].

(** ** Lines *)

Record ConnLineData := mkConnLineData {
  cl_local : Endpoint;
  cl_remote : Endpoint;
  cl_state : Z;
  cl_inode : Z
}.

Section Parse.
Context `{HostEndian}.

Definition needs_byteorder_swap : bool := negb host_is_big_endian.

(** The [uint16_t] that two bytes in memory hold. *)
Definition load16 (bs : list Z) : Z := if host_is_big_endian then le_word (rev bs) else le_word bs.

Definition ParseEndpoint (p : str) (family : Family.t) : option (option (Endpoint * str)) :=
  let addr_len := Z.to_nat (Length family) in
  let '(nread, addr_data) := ReadHexBytes p 4 (addr_len / 4) needs_byteorder_swap in
  if negb (nread =? addr_len)%nat then Some None
  else
    match drop (nread * 2) p with
    | [] => None
    | c :: p =>
        if negb (bool_decide (c = ":"%char)) then Some None
        else
          let '(nread, port) := ReadHexBytes p 2 1 needs_byteorder_swap in
          if negb (nread =? 2)%nat then Some None
          else Some (Some (Endpoint_addr (Address_bytes family addr_data) (load16 port), drop (nread * 2) p))
    end.

Definition ParseConnLine (p : str) (family : Family.t) : option (option ConnLineData) :=
  let! p := strip_spaces p in
  let? p := nextfield p in
  let? (local, p) := ParseEndpoint p family in
  let? p := nextfield p in
  let? (remote, p) := ParseEndpoint p family in
  let? p := nextfield p in
  let '(nread, state) := ReadHexBytes p 1 1 false in
  if negb (nread =? 1)%nat then Some None
  else
    let? p := rep_nextfield 6 (Some (drop (nread * 2) p)) in
    let! (inode, parse_endp) := strtoumax p in
    match parse_endp with
    | [] => None
    | c :: _ =>
        if negb (is_nul c) && negb (isspace c) then Some None
        else Some (Some (mkConnLineData local remote (nth 0 state 0) inode))
    end.
End Parse.

(** ** Lemmas *)

(** *** Reads stay in a buffer that holds a terminator *)

Definition terminated (p : str) : Prop := In NUL p.

(** A parser step that is safe on a terminated buffer and leaves one. *)
Definition safe {A} (rest : A -> str) (r : option (option A)) : Prop :=
  match r with
  | None => False
  | Some None => True
  | Some (Some a) => terminated (rest a)
  end.

Lemma isspace_nul c : isspace c = true -> c <> NUL.
Proof. by intros Hs ->. Qed.

Lemma terminated_cons c p : terminated (c :: p) -> c <> NUL -> terminated p.
Proof. by intros [->|Hp]. Qed.

Lemma skip_field_terminated p : terminated p -> terminated (skip_field p).
Proof.
  induction p as [|c p IH]; simpl; [done|]. intros Hp. unfold is_nul.
  case_bool_decide; simpl; [done|]. destruct (isspace c); [done|]. by apply IH, (terminated_cons c).
Qed.

Lemma skip_sep_terminated p : terminated p -> exists q, skip_sep p = Some q /\ terminated q.
Proof.
  induction p as [|c p IH]; intros Hp; [done|]. simpl. unfold is_nul.
  case_bool_decide as Ec; [by eexists|]. pose proof (terminated_cons c p Hp Ec) as Hq.
  destruct p as [|c' p]; [done|]. destruct (isspace c'); [by apply IH|by eexists].
Qed.

Lemma nextfield_safe p : terminated p -> safe id (nextfield p).
Proof.
  intros Hp. unfold nextfield.
  destruct (skip_sep_terminated (skip_field p)) as (q & -> & Hq); [by apply skip_field_terminated|].
  destruct q as [|c q]; simpl; [done|]. by destruct (is_nul c).
Qed.

Lemma rep_nextfield_safe n p : terminated p -> safe id (rep_nextfield n (Some p)).
Proof.
  revert p. induction n as [|n IH]; intros p Hp; [done|]. simpl.
  pose proof (nextfield_safe p Hp) as Hn. destruct (nextfield p) as [[q|]|]; simpl in *; [by apply IH|by destruct n|done].
Qed.

Lemma strip_spaces_safe p : terminated p -> exists q, strip_spaces p = Some q /\ terminated q.
Proof.
  induction p as [|c p IH]; intros Hp; [done|]. simpl.
  destruct (isspace c) eqn:Es; [by apply IH, (terminated_cons c), isspace_nul|by eexists].
Qed.

Lemma umax_digits_safe p acc n : terminated p ->
  exists v m q, umax_digits p acc n = Some (v, m, q) /\ terminated q.
Proof.
  revert acc n. induction p as [|c p IH]; intros acc n Hp; [done|]. simpl.
  destruct (isdigit c) eqn:Ed; [|by do 3 eexists]. apply IH, (terminated_cons c); [done|]. by intros ->.
Qed.

Lemma strtoumax_safe p : terminated p -> exists v q, strtoumax p = Some (v, q) /\ terminated q.
Proof.
  intros Hp. unfold strtoumax. destruct (strip_spaces_safe p Hp) as (q & -> & Hq).
  destruct (read_sign q) as [sign q'] eqn:Er.
  assert (terminated q') as Hq'.
  { unfold read_sign in Er. destruct q as [|c q]; [done|].
    repeat case_bool_decide; simplify_eq; [| |done]; by apply terminated_cons in Hq. }
  destruct (umax_digits_safe q' 0 0 Hq') as (v & n & rest & -> & Hr).
  destruct (n =? 0)%nat; by do 2 eexists.
Qed.

Lemma hex_loop_terminated cs r togo i p buf :
  terminated p ->
  let '(n, _) := hex_loop cs r togo i p buf in (i <= n)%nat /\ terminated (drop ((n - i) * 2) p).
Proof.
  revert i p buf. induction togo as [|togo IH]; intros i p buf Hp; simpl.
  { rewrite Nat.sub_diag. by split. }
  destruct p as [|high [|low [|x p]]]; try (rewrite Nat.sub_diag; by split).
  destruct (negb (IsHexChar high) || negb (IsHexChar low)) eqn:Eh; [rewrite Nat.sub_diag; by split|].
  apply orb_false_iff in Eh as [E1 E2].
  assert (terminated (x :: p)) as Hx.
  { do 2 (apply terminated_cons in Hp; [|by intros ->]). done. }
  specialize (IH (S i) (x :: p) (put_byte cs r i buf
    (wrap 8 (Z.lor (Z.shiftl (HexCharToVal high) 4) (HexCharToVal low)))) Hx).
  change (drop 2 (high :: low :: x :: p)) with (x :: p).
  destruct (hex_loop cs r togo (S i) (x :: p) _) as [n b']. destruct IH as [Hn Ht].
  split; [lia|]. replace (n - i)%nat with (S (n - S i)) by lia. exact Ht.
Qed.

Lemma ReadHexBytes_terminated p cs nc r :
  terminated p -> terminated (drop ((ReadHexBytes p cs nc r).1 * 2) p).
Proof.
  intros Hp. pose proof (hex_loop_terminated cs r (cs * nc) 0 p [] Hp) as Hl. unfold ReadHexBytes.
  destruct (hex_loop _ _ _ _ _ _) as [n b]. destruct Hl as [_ Hl]. by rewrite Nat.sub_0_r in Hl.
Qed.

Section Safety.
Context `{HostEndian}.

Lemma ParseEndpoint_safe p f : terminated p -> safe snd (ParseEndpoint p f).
Proof.
  intros Hp. unfold ParseEndpoint.
  pose proof (ReadHexBytes_terminated p 4 (Z.to_nat (Length f) / 4) needs_byteorder_swap Hp) as Ha.
  destruct (ReadHexBytes p 4 _ _) as [n addr]. simpl in Ha.
  destruct (negb _); [done|]. destruct (drop (n * 2) p) as [|c q] eqn:Ed; [done|].
  case_bool_decide as Ec; simpl; [|done].
  assert (terminated q) as Hq by (apply (terminated_cons c); [done|by subst c]).
  pose proof (ReadHexBytes_terminated q 2 1 needs_byteorder_swap Hq) as Hb.
  destruct (ReadHexBytes q 2 1 _) as [m port]. by destruct (negb _).
Qed.

Lemma ParseConnLine_total p f : terminated p -> exists r, ParseConnLine p f = Some r.
Proof.
  intros Hp. unfold ParseConnLine. destruct (strip_spaces_safe p Hp) as (p1 & -> & H1).
  pose proof (nextfield_safe p1 H1) as S1. destruct (nextfield p1) as [[p2|]|]; [|by eexists|done].
  pose proof (ParseEndpoint_safe p2 f S1) as S2. destruct (ParseEndpoint p2 f) as [[[local p3]|]|]; [|by eexists|done].
  pose proof (nextfield_safe p3 S2) as S3. destruct (nextfield p3) as [[p4|]|]; [|by eexists|done].
  pose proof (ParseEndpoint_safe p4 f S3) as S4. destruct (ParseEndpoint p4 f) as [[[remote p5]|]|]; [|by eexists|done].
  pose proof (nextfield_safe p5 S4) as S5. destruct (nextfield p5) as [[p6|]|]; [|by eexists|done].
  pose proof (ReadHexBytes_terminated p6 1 1 false S5) as S6.
  destruct (ReadHexBytes p6 1 1 false) as [n st]. simpl in S6. destruct (negb _); [by eexists|].
  pose proof (rep_nextfield_safe 6 _ S6) as S7. destruct (rep_nextfield 6 _) as [[p7|]|]; [|by eexists|done].
  destruct (strtoumax_safe p7 S7) as (v & q & -> & Hq). destruct q as [|c q]; [done|].
  destruct (_ && _); by eexists.
Qed.
End Safety.

(** *** Reading what was printed *)

Definition hex_digit (v : Z) : ascii := if v <? 10 then chr (code "0" + v) else chr (code "A" + (v - 10)).

Definition hex_byte (b : Z) : str := [hex_digit (b / 16); hex_digit (b mod 16)].

Definition hex_bytes (bs : list Z) : str := concat (map hex_byte bs).

Lemma hex_digit_val v : 0 <= v < 16 -> IsHexChar (hex_digit v) = true /\ HexCharToVal (hex_digit v) = v.
Proof.
  intros Hv. assert (v = 0 \/ v = 1 \/ v = 2 \/ v = 3 \/ v = 4 \/ v = 5 \/ v = 6 \/ v = 7 \/ v = 8 \/ v = 9
    \/ v = 10 \/ v = 11 \/ v = 12 \/ v = 13 \/ v = 14 \/ v = 15) as Hc by lia.
  repeat destruct Hc as [->|Hc]; [by split..|]. by subst v.
Qed.

Lemma hex_byte_digits b :
  0 <= b < 256 ->
  IsHexChar (hex_digit (b / 16)) = true /\ HexCharToVal (hex_digit (b / 16)) = b / 16
  /\ IsHexChar (hex_digit (b mod 16)) = true /\ HexCharToVal (hex_digit (b mod 16)) = b mod 16.
Proof.
  intros Hb. destruct (hex_digit_val (b / 16)) as [-> ->]; [split; [apply Z.div_pos|apply Z.div_lt_upper_bound]; lia|].
  destruct (hex_digit_val (b mod 16)) as [-> ->]; [apply Z.mod_pos_bound; lia|done].
Qed.

Lemma hex_byte_val b :
  0 <= b < 256 ->
  wrap 8 (Z.lor (Z.shiftl (HexCharToVal (hex_digit (b / 16))) 4) (HexCharToVal (hex_digit (b mod 16)))) = b.
Proof.
  intros Hb. destruct (hex_byte_digits b Hb) as (_ & -> & _ & ->).
  assert (Z.lor (Z.shiftl (b / 16) 4) (b mod 16) = b) as ->; [|unfold wrap; by apply Z.mod_small].
  apply Z.bits_inj'. intros n Hn. rewrite Z.lor_spec.
  change 16 with (2 ^ 4). destruct (Z.lt_ge_cases n 4).
  - rewrite Z.shiftl_spec_low, Z.mod_pow2_bits_low by lia. done.
  - rewrite Z.shiftl_spec, Z.div_pow2_bits, Z.mod_pow2_bits_high by lia. rewrite orb_false_r. f_equal. lia.
Qed.

(** All the bytes of a text, one after the other. *)
Definition put_bytes (cs : nat) (r : bool) (i : nat) (buf bs : list Z) : list Z :=
  (fold_left (fun '(i, buf) b => (S i, put_byte cs r i buf b)) bs (i, buf)).2.

Lemma hex_loop_text cs r togo i bs buf rest :
  bytes_ok bs -> rest <> [] ->
  hex_loop cs r (length bs + togo) i (hex_bytes bs ++ rest) buf
  = hex_loop cs r togo (i + length bs) rest (put_bytes cs r i buf bs).
Proof.
  intros Hbs Hr. revert i buf. induction Hbs as [|b bs Hb _ IH]; intros i buf.
  { simpl. by rewrite Nat.add_0_r. }
  assert (exists x l, hex_bytes bs ++ rest = x :: l) as (x & l & El).
  { destruct (hex_bytes bs ++ rest) eqn:E; [|by do 2 eexists]. by apply app_eq_nil in E as [_ E]. }
  change (hex_bytes (b :: bs) ++ rest)
    with (hex_digit (b / 16) :: hex_digit (b mod 16) :: (hex_bytes bs ++ rest)).
  destruct (hex_byte_digits b Hb) as (E1 & _ & E2 & _). rewrite El.
  cbn [length Nat.add hex_loop]. rewrite E1, E2. cbn [negb orb]. rewrite hex_byte_val by lia.
  change (drop 2 (hex_digit (b / 16) :: hex_digit (b mod 16) :: x :: l)) with (x :: l). rewrite <- El, IH.
  by rewrite Nat.add_succ_r.
Qed.

(** A chunk is reversed as a whole. *)
Lemma put_bytes_app cs r i buf bs bs' :
  put_bytes cs r i buf (bs ++ bs') = put_bytes cs r (i + length bs) (put_bytes cs r i buf bs) bs'.
Proof.
  unfold put_bytes. rewrite fold_left_app. f_equal.
  assert (fold_left (fun '(i, buf) b => (S i, put_byte cs r i buf b)) bs (i, buf)
          = ((i + length bs)%nat, (fold_left (fun '(i, buf) b => (S i, put_byte cs r i buf b)) bs (i, buf)).2)) as E.
  { revert i buf. induction bs as [|b bs IH]; intros i buf; simpl; [by rewrite Nat.add_0_r|].
    rewrite IH. simpl. f_equal. lia. }
  by rewrite E.
Qed.

Lemma put_bytes_part cs r i buf bs :
  (0 < cs)%nat -> (i mod cs + length bs < cs)%nat -> put_bytes cs r i buf bs = buf ++ bs.
Proof.
  intros Hcs. revert i buf. induction bs as [|b bs IH]; intros i buf Hl; simpl in *.
  { by rewrite app_nil_r. }
  change (put_bytes cs r i buf (b :: bs)) with (put_bytes cs r (S i) (put_byte cs r i buf b) bs).
  assert (S i mod cs = S (i mod cs))%nat as Em.
  { rewrite (Nat.div_mod i cs) at 1 by lia. rewrite <- Nat.add_succ_r, Nat.add_comm, Nat.mul_comm.
    rewrite Nat.Div0.mod_add. apply Nat.mod_small. lia. }
  rewrite IH by lia. unfold put_byte.
  destruct (Nat.eqb_spec (i mod cs) (cs - 1)); [lia|]. rewrite andb_false_r. by rewrite <- app_assoc.
Qed.

Lemma put_bytes_chunk cs r i buf bs :
  (0 < cs)%nat -> (i mod cs = 0)%nat -> length bs = cs ->
  put_bytes cs r i buf bs = buf ++ (if r then rev bs else bs).
Proof.
  intros Hcs Hi Hl. destruct bs as [|b bs] using rev_ind; [simpl in Hl; lia|]. clear IHbs.
  rewrite length_app in Hl. simpl in Hl. rewrite put_bytes_app, (put_bytes_part cs r i buf bs) by (rewrite ?Hi; lia).
  cbn. unfold put_byte.
  assert ((i + length bs) mod cs = cs - 1)%nat as ->.
  { rewrite <- Nat.Div0.add_mod_idemp_l, Hi, Nat.add_0_l, Nat.mod_small by lia. lia. }
  rewrite Nat.eqb_refl, andb_true_r. destruct r; [|by rewrite <- app_assoc].
  rewrite <- app_assoc, !length_app. simpl length.
  replace (length buf + (length bs + 1) - cs)%nat with (length buf) by lia.
  by rewrite take_app_length, drop_app_length.
Qed.

Lemma length_concat_same {A} (n : nat) (ls : list (list A)) :
  Forall (fun l => length l = n) ls -> length (concat ls) = (n * length ls)%nat.
Proof. induction 1 as [|l ls Hl _ IH]; simpl; [lia|]. rewrite length_app, IH, Hl. lia. Qed.

Lemma put_bytes_chunks cs r i buf chunks :
  (0 < cs)%nat -> (i mod cs = 0)%nat -> Forall (fun l => length l = cs) chunks ->
  put_bytes cs r i buf (concat chunks) = buf ++ concat (map (fun l => if r then rev l else l) chunks).
Proof.
  intros Hcs Hi Hl. revert i buf Hi. induction Hl as [|l chunks Hl _ IH]; intros i buf Hi; simpl.
  { by rewrite app_nil_r. }
  rewrite put_bytes_app, (put_bytes_chunk cs r i buf l), IH by
    (try done; rewrite Hl, <- (Nat.mul_1_l cs) at 1; by rewrite Nat.Div0.mod_add).
  by rewrite <- app_assoc.
Qed.

Lemma ReadHexBytes_text cs r chunks rest :
  (0 < cs)%nat -> Forall (fun l => length l = cs /\ bytes_ok l) chunks -> rest <> [] ->
  ReadHexBytes (hex_bytes (concat chunks) ++ rest) cs (length chunks) r
  = ((cs * length chunks)%nat, concat (map (fun l => if r then rev l else l) chunks)).
Proof.
  intros Hcs Hch Hr. unfold ReadHexBytes.
  assert (Forall (fun l => length l = cs) chunks) as Hl by (apply (Forall_impl _ _ _ Hch); tauto).
  assert (bytes_ok (concat chunks)) as Hb.
  { clear -Hch. induction Hch as [|l chunks [_ Hl] _ IH]; simpl; [constructor|]. by apply Forall_app. }
  pose proof (length_concat_same cs chunks Hl) as Hlen.
  replace (cs * length chunks)%nat with (length (concat chunks) + 0)%nat at 1 by lia.
  rewrite hex_loop_text by done. rewrite Hlen. cbn [hex_loop Nat.add].
  by rewrite put_bytes_chunks by (done || apply Nat.Div0.mod_0_l).
Qed.

Lemma hex_bytes_app xs ys : hex_bytes (xs ++ ys) = hex_bytes xs ++ hex_bytes ys.
Proof. unfold hex_bytes. by rewrite map_app, concat_app. Qed.

Lemma length_hex_bytes bs : length (hex_bytes bs) = (2 * length bs)%nat.
Proof. unfold hex_bytes. induction bs as [|b bs IH]; simpl; [done|]. rewrite IH. lia. Qed.

Lemma le_bytes_shift n x : le_bytes (S n) (256 * x) = 0 :: le_bytes n x.
Proof.
  cbn [le_bytes]. rewrite (Z.mul_comm 256 x), Z.mod_mul, Z.div_mul by lia. done.
Qed.

Section Text.
Context `{HostEndian}.

(** A 32-bit word is printed as a number, eight digits; a port four. *)
Definition hex_word (w : Z) : list Z := rev (le_bytes 4 w).

Definition endpoint_text (ws : list Z) (port : Z) : str :=
  hex_bytes (concat (map hex_word ws)) ++ ":"%char :: hex_bytes (rev (le_bytes 2 port)).

Definition proc_address (f : Family.t) (ws : list Z) : Address :=
  match f, ws with
  | Family.IPV4, [w] => Address_ipv4 w
  | Family.IPV6, [w0; w1; w2; w3] => Address_ipv6 w0 w1 w2 w3
  | _, _ => Address_default
  end.

Definition words_ok (f : Family.t) (ws : list Z) : Prop :=
  f <> Family.UNKNOWN /\ length ws = (Z.to_nat (Length f) / 4)%nat /\ Forall (word 32) ws.

Lemma hex_word_memory w : (if needs_byteorder_swap then rev (hex_word w) else hex_word w) = store32 w.
Proof.
  unfold needs_byteorder_swap, hex_word, store32. destruct host_is_big_endian; [done|]. apply rev_involutive.
Qed.

Lemma load32_ipv4 w : word 32 w -> load64 (store32 w ++ [0; 0; 0; 0]) = htonll (wrap 64 (Z.shiftl (ntohl w) 32)).
Proof.
  intros Hw. assert (word 64 (wrap 64 (Z.shiftl (ntohl w) 32))) as Hx by (apply wrap_word; lia).
  rewrite <- (load64_store64 (htonll (wrap 64 (Z.shiftl (ntohl w) 32)))) by auto with collector.
  rewrite store64_be, ntohll_htonll by auto with collector. f_equal.
  assert (word 32 (ntohl w) /\ store32 w = rev (le_bytes 4 (ntohl w))) as [Hn ->].
  { unfold store32, ntohl. destruct host_is_big_endian; [done|]. unfold bswap32. split.
    - pose proof (le_word_bound (rev (le_bytes 4 w)) (bytes_ok_rev _ (le_bytes_ok 4 w))) as B.
      rewrite length_rev, length_le_bytes in B. exact B.
    - rewrite <- (length_le_bytes 4 w) at 2. rewrite <- (length_rev (le_bytes 4 w)).
      rewrite le_bytes_word by apply bytes_ok_rev, le_bytes_ok. by rewrite rev_involutive. }
  assert (wrap 64 (Z.shiftl (ntohl w) 32) = 2 ^ 32 * ntohl w) as ->.
  { unfold wrap. rewrite Z.shiftl_mul_pow2 by lia. unfold word in Hn. rewrite Z.mod_small by lia. lia. }
  replace (2 ^ 32 * ntohl w) with (256 * (256 * (256 * (256 * ntohl w)))) by lia.
  by rewrite !le_bytes_shift.
Qed.

Lemma ParseEndpoint_text f ws port rest :
  words_ok f ws -> word 16 port -> rest <> [] ->
  ParseEndpoint (endpoint_text ws port ++ rest) f
  = Some (Some (Endpoint_addr (proc_address f ws) port, rest)).
Proof.
  intros (Hf & Hlen & Hws) Hp Hr. unfold ParseEndpoint, endpoint_text.
  assert (Forall (fun l => length l = 4%nat /\ bytes_ok l) (map hex_word ws)) as Hch.
  { apply List.Forall_map, List.Forall_forall. intros w _. unfold hex_word.
    split; [by rewrite length_rev, length_le_bytes|apply bytes_ok_rev, le_bytes_ok]. }
  rewrite <- app_assoc, <- app_comm_cons.
  rewrite <- Hlen, <- (length_map hex_word ws), ReadHexBytes_text by (done || lia). rewrite length_map, Hlen.
  assert (4 * (Z.to_nat (Length f) / 4) = Z.to_nat (Length f))%nat as E4 by (by destruct f).
  rewrite E4, Nat.eqb_refl. cbn [negb].
  assert (drop (Z.to_nat (Length f) * 2) (hex_bytes (concat (map hex_word ws)) ++
            ":"%char :: hex_bytes (rev (le_bytes 2 port)) ++ rest)
          = ":"%char :: hex_bytes (rev (le_bytes 2 port)) ++ rest) as ->.
  { apply drop_app_length'. rewrite length_hex_bytes, (length_concat_same 4) by (apply (Forall_impl _ _ _ Hch); tauto).
    rewrite length_map, Hlen, E4. lia. }
  rewrite bool_decide_eq_true_2 by done. cbn [negb].
  pose proof (ReadHexBytes_text 2 needs_byteorder_swap [rev (le_bytes 2 port)] rest) as Hport.
  cbn [concat map length] in Hport. rewrite !app_nil_r in Hport.
  rewrite Hport; [|lia| |done].
  2: { apply Forall_cons_2; [|constructor]. split; [by rewrite length_rev, length_le_bytes|apply bytes_ok_rev, le_bytes_ok]. }
  change (2 * 1)%nat with 2%nat. rewrite Nat.eqb_refl. cbn [negb]. do 2 f_equal.
  assert (drop (2 * 2) (hex_bytes (rev (le_bytes 2 port)) ++ rest) = rest) as ->
    by (apply drop_app_length'; by rewrite length_hex_bytes, length_rev, length_le_bytes).
  f_equal. f_equal.
  - rewrite List.map_map, (List.map_ext _ store32 hex_word_memory).
    destruct f; [done| |]; unfold words_ok in *; simpl in Hlen.
    + destruct ws as [|w [|]]; try done. apply Forall_cons in Hws as [Hw _].
      unfold Address_bytes, proc_address, Address_ipv4. f_equal.
      rewrite <- load32_ipv4 by done. unfold store32, load64. by destruct host_is_big_endian.
    + destruct ws as [|w0 [|w1 [|w2 [|w3 [|]]]]]; try done.
      unfold Address_bytes, proc_address, Address_ipv6, store32, load64. by destruct host_is_big_endian.
  - unfold load16, needs_byteorder_swap. destruct host_is_big_endian; cbn [negb];
      rewrite ?rev_involutive, le_word_bytes; by apply Z.mod_small.
Qed.
End Text.

(** *** Lines of fields *)

Definition field_char (c : ascii) : bool := negb (is_nul c) && negb (isspace c).
Definition field_ok (f : str) : Prop := forallb field_char f = true.
Definition sep_ok (s : str) : Prop := s <> [] /\ forallb isspace s = true.

(** Fields, each after its separator. *)
Definition fields_text (fs : list (str * str)) : str := concat (map (fun e => e.1 ++ e.2) fs).

Lemma space_not_nul c : isspace c = true -> is_nul c = false.
Proof. intros Hs. unfold is_nul. apply bool_decide_eq_false. by apply isspace_nul. Qed.

Lemma skip_sep_spaces s c rest :
  sep_ok s -> field_char c = true -> skip_sep (s ++ c :: rest) = Some (c :: rest).
Proof.
  intros [Hne Hs] Hc. unfold field_char in Hc. apply andb_true_iff in Hc as [Hn Hc]. apply negb_true_iff in Hn, Hc.
  induction s as [|x s IH]; [done|]. simpl in Hs. apply andb_true_iff in Hs as [Hx Hs].
  simpl. rewrite (space_not_nul x Hx). destruct s as [|y s]; simpl; [by rewrite Hc|].
  simpl in Hs. apply andb_true_iff in Hs as [Hy Hs]. rewrite Hy. apply IH; [done|]. simpl. by rewrite Hy.
Qed.

Lemma nextfield_text f s c rest :
  field_ok f -> sep_ok s -> field_char c = true -> nextfield (f ++ s ++ c :: rest) = Some (Some (c :: rest)).
Proof.
  intros Hf Hs Hc. unfold nextfield.
  assert (skip_field (f ++ s ++ c :: rest) = s ++ c :: rest) as ->.
  { unfold field_ok in Hf. induction f as [|x f IH]; simpl.
    - destruct Hs as [Hne Hs]. destruct s as [|y s]; [done|]. simpl in *.
      apply andb_true_iff in Hs as [-> _]. by rewrite orb_true_r.
    - simpl in Hf. apply andb_true_iff in Hf as [Hx Hf]. unfold field_char in Hx.
      apply andb_true_iff in Hx as [H1 H2]. apply negb_true_iff in H1, H2. rewrite H1, H2. by apply IH. }
  rewrite skip_sep_spaces by done. unfold field_char in Hc. apply andb_true_iff in Hc as [Hn _].
  apply negb_true_iff in Hn. by rewrite Hn.
Qed.

Lemma rep_nextfield_text fs f s c rest :
  field_ok f -> Forall (fun e => sep_ok e.1 /\ field_ok e.2 /\ e.2 <> []) fs -> sep_ok s -> field_char c = true ->
  rep_nextfield (S (length fs)) (Some (f ++ fields_text fs ++ s ++ c :: rest)) = Some (Some (c :: rest)).
Proof.
  intros Hf Hfs Hs Hc. revert f Hf. induction Hfs as [|[sep g] fs (Hsep & Hg & Hne) _ IH]; intros f Hf.
  - cbn [length rep_nextfield fields_text concat map app]. by rewrite nextfield_text.
  - destruct g as [|x g]; [done|]. cbn [fst snd] in *.
    change (fields_text ((sep, x :: g) :: fs)) with ((sep ++ x :: g) ++ fields_text fs).
    assert (field_char x = true) as Hx by (unfold field_ok in Hg; simpl in Hg; by apply andb_true_iff in Hg as [? _]).
    rewrite <- !app_assoc. cbn [length rep_nextfield]. rewrite <- app_comm_cons.
    rewrite nextfield_text by done. rewrite app_comm_cons. by apply IH.
Qed.

Lemma strip_spaces_text s c rest :
  forallb isspace s = true -> isspace c = false -> strip_spaces (s ++ c :: rest) = Some (c :: rest).
Proof.
  intros Hs Hc. induction s as [|x s IH]; simpl in *; [by rewrite Hc|].
  apply andb_true_iff in Hs as [-> Hs]. by apply IH.
Qed.

Lemma umax_read p acc n v m q : read_digits p acc n = (v, m, q) -> q <> [] -> umax_digits p acc n = Some (v, m, q).
Proof.
  revert acc n. induction p as [|c p IH]; intros acc n; simpl; [intros; by simplify_eq|].
  destruct (isdigit c); [by apply IH|]. intros. by simplify_eq.
Qed.

Lemma strtoumax_show n c rest :
  0 <= n < 2 ^ 64 -> isdigit c = false -> strtoumax (show_nat n ++ c :: rest) = Some (n, c :: rest).
Proof.
  intros Hn Hc. destruct (read_digits_show n (c :: rest)) as (k & Hk & Hread); [lia|simpl; by rewrite Hc|].
  destruct (show_nat_digits n ltac:(lia)) as (ds & E & Hall & _ & Hne). rewrite E in *.
  destruct ds as [|d ds]; [done|]. simpl in Hall. apply andb_true_iff in Hall as [Hd _].
  destruct (isdigit_not_space_sign d Hd) as (Hs & H1 & H2).
  unfold strtoumax. cbn [app strip_spaces]. rewrite Hs. unfold read_sign. rewrite !bool_decide_eq_false_2 by done.
  rewrite <- app_comm_cons in Hread. rewrite (umax_read _ _ _ _ _ _ Hread) by done.
  destruct (Nat.eqb_spec k 0); [lia|]. unfold UINTMAX_MAX, wrap.
  destruct (Z.ltb_spec (2 ^ 64 - 1) n); [lia|]. by rewrite Z.mul_1_l, Z.mod_small.
Qed.

(** A line of the table: its leading spaces and number, the two endpoints and
    the state, five more fields, the inode and whatever follows it. *)
Record proc_line := mkProcLine {
  ln_lead : str; ln_sl : str;
  ln_sep1 : str; ln_local : list Z; ln_lport : Z;
  ln_sep2 : str; ln_remote : list Z; ln_rport : Z;
  ln_sep3 : str; ln_state : Z;
  ln_fields : list (str * str);
  ln_sep4 : str; ln_inode : Z
}.

Record line_ok (f : Family.t) (l : proc_line) : Prop := {
  lok_lead : forallb isspace (ln_lead l) = true;
  lok_sl : field_ok (ln_sl l) /\ ln_sl l <> [];
  lok_seps : Forall sep_ok [ln_sep1 l; ln_sep2 l; ln_sep3 l; ln_sep4 l];
  lok_local : words_ok f (ln_local l) /\ word 16 (ln_lport l);
  lok_remote : words_ok f (ln_remote l) /\ word 16 (ln_rport l);
  lok_state : 0 <= ln_state l < 256;
  lok_fields : length (ln_fields l) = 5%nat /\ Forall (fun e => sep_ok e.1 /\ field_ok e.2 /\ e.2 <> []) (ln_fields l);
  lok_inode : 0 <= ln_inode l < 2 ^ 64
}.

Section Line.
Context `{HostEndian}.

Definition line_text (l : proc_line) (rest : str) : str :=
  ln_lead l ++ ln_sl l ++ ln_sep1 l ++ endpoint_text (ln_local l) (ln_lport l)
  ++ ln_sep2 l ++ endpoint_text (ln_remote l) (ln_rport l)
  ++ ln_sep3 l ++ hex_byte (ln_state l) ++ fields_text (ln_fields l) ++ ln_sep4 l ++ show_nat (ln_inode l) ++ rest.

Lemma hex_digit_field v : 0 <= v < 16 -> field_char (hex_digit v) = true.
Proof.
  intros Hv. assert (v = 0 \/ v = 1 \/ v = 2 \/ v = 3 \/ v = 4 \/ v = 5 \/ v = 6 \/ v = 7 \/ v = 8 \/ v = 9
    \/ v = 10 \/ v = 11 \/ v = 12 \/ v = 13 \/ v = 14 \/ v = 15) as Hc by lia.
  repeat destruct Hc as [->|Hc]; [done..|]. by subst v.
Qed.

(** A text that starts with a field. *)
Definition starts_field (t : str) : Prop := exists c r, t = c :: r /\ field_char c = true.

Lemma nextfield_skip f s t : field_ok f -> sep_ok s -> starts_field t -> nextfield (f ++ s ++ t) = Some (Some t).
Proof. intros Hf Hs (c & r & -> & Hc). by apply nextfield_text. Qed.

Lemma nextfield_sep s t : sep_ok s -> starts_field t -> nextfield (s ++ t) = Some (Some t).
Proof. intros. by apply (nextfield_skip []). Qed.

Lemma starts_app t u : starts_field t -> starts_field (t ++ u).
Proof. intros (c & r & -> & Hc). by exists c, (r ++ u). Qed.

Lemma app_field_ne (s t : str) : starts_field t -> s ++ t <> [].
Proof. intros (c & r & -> & _). by destruct s. Qed.

Lemma endpoint_text_head f ws port : words_ok f ws -> starts_field (endpoint_text ws port).
Proof.
  intros (Hf & Hl & _). destruct ws as [|w ws]; [by destruct f|].
  unfold endpoint_text, hex_word. cbn [map concat].
  destruct (rev (le_bytes 4 w)) as [|b bs] eqn:E.
  { by apply (f_equal length) in E; rewrite length_rev, length_le_bytes in E. }
  assert (0 <= b < 256) as Hb.
  { pose proof (bytes_ok_rev _ (le_bytes_ok 4 w)) as Hok. rewrite E in Hok. by apply Forall_cons in Hok as [? _]. }
  unfold starts_field. cbn. do 2 eexists. split; [done|]. apply hex_digit_field.
  split; [apply Z.div_pos; lia|apply Z.div_lt_upper_bound; lia].
Qed.

Lemma ReadHexBytes_one b rest :
  0 <= b < 256 -> rest <> [] -> ReadHexBytes (hex_byte b ++ rest) 1 1 false = (1%nat, [b]).
Proof.
  intros Hb Hr. pose proof (ReadHexBytes_text 1 false [[b]] rest) as Ht. cbn in Ht. apply Ht; [lia| |done].
  apply Forall_cons_2; [|constructor]. split; [done|]. by apply Forall_cons_2.
Qed.

Lemma hex_byte_head b : 0 <= b < 256 -> starts_field (hex_byte b).
Proof.
  intros Hb. do 2 eexists. split; [done|]. apply hex_digit_field.
  split; [apply Z.div_pos; lia|apply Z.div_lt_upper_bound; lia].
Qed.

Lemma show_nat_head n : 0 <= n < 2 ^ 64 -> starts_field (show_nat n).
Proof.
  intros Hn. destruct (show_nat_digits n ltac:(lia)) as (ds & -> & Hall & _ & Hne).
  destruct ds as [|d ds]; [done|]. simpl in Hall. apply andb_true_iff in Hall as [Hd _].
  exists d, ds. split; [done|]. unfold field_char. destruct (isdigit_not_space_sign d Hd) as (-> & _).
  unfold is_nul. case_bool_decide; [by subst d|done].
Qed.

Lemma strip_spaces_field lead f t :
  forallb isspace lead = true -> field_ok f -> f <> [] -> strip_spaces (lead ++ f ++ t) = Some (f ++ t).
Proof.
  intros Hl Hf Hne. destruct f as [|x f]; [done|]. cbn [app]. apply strip_spaces_text; [done|].
  unfold field_ok in Hf. simpl in Hf. apply andb_true_iff in Hf as [Hx _].
  unfold field_char in Hx. by apply andb_true_iff in Hx as [_ Hx%negb_true_iff].
Qed.

(** Parsing a line: a line of the table, whatever separates its
    fields and whatever follows the inode, is read as the endpoints, the state and the
    inode it was printed from, on hosts of both byte orders; no read
    leaves the buffer. *)
Lemma ParseConnLine_text (f : Family.t) (l : proc_line) (c : ascii) (rest : str)
    (Hl : line_ok f l) (Hc : is_nul c = true \/ isspace c = true) :
  ParseConnLine (line_text l (c :: rest)) f
  = Some (Some (mkConnLineData (Endpoint_addr (proc_address f (ln_local l)) (ln_lport l))
                               (Endpoint_addr (proc_address f (ln_remote l)) (ln_rport l))
                               (ln_state l) (ln_inode l))).
Proof.
  destruct Hl as [Hlead [Hsl Hsl'] Hseps [Hlo Hlp] [Hre Hrp] Hst [H5 Hfs] Hino].
  repeat match goal with H : Forall sep_ok (_ :: _) |- _ => apply Forall_cons in H as [? H] end.
  unfold ParseConnLine, line_text.
  set (t4 := show_nat (ln_inode l) ++ c :: rest).
  set (t3 := hex_byte (ln_state l) ++ fields_text (ln_fields l) ++ ln_sep4 l ++ t4).
  set (t2 := endpoint_text (ln_remote l) (ln_rport l) ++ ln_sep3 l ++ t3).
  set (t1 := endpoint_text (ln_local l) (ln_lport l) ++ ln_sep2 l ++ t2).
  assert (starts_field t1) as S1 by by apply starts_app, (endpoint_text_head f).
  assert (starts_field t2) as S2 by by apply starts_app, (endpoint_text_head f).
  assert (starts_field t3) as S3 by by apply starts_app, hex_byte_head.
  assert (starts_field t4) as S4 by apply starts_app, show_nat_head, Hino.
  rewrite (strip_spaces_field (ln_lead l) (ln_sl l)), nextfield_skip by done.
  unfold t1. rewrite ParseEndpoint_text by (done || by apply app_field_ne).
  rewrite (nextfield_sep (ln_sep2 l) t2) by done.
  unfold t2. rewrite ParseEndpoint_text by (done || by apply app_field_ne).
  rewrite (nextfield_sep (ln_sep3 l) t3) by done.
  unfold t3. rewrite ReadHexBytes_one by (done || by rewrite app_assoc; apply app_field_ne).
  change (drop (1 * 2) (hex_byte (ln_state l) ++ fields_text (ln_fields l) ++ ln_sep4 l ++ t4))
    with ([] ++ fields_text (ln_fields l) ++ ln_sep4 l ++ t4).
  change (negb (1 =? 1)%nat) with false. cbn iota. destruct S4 as (c4 & r4 & E4 & Hc4). rewrite E4.
  change 6%nat with (S 5). rewrite <- H5, rep_nextfield_text, <- E4 by done. unfold t4.
  assert (isdigit c = false) as Hd.
  { destruct (isdigit c) eqn:Ed; [|done]. destruct (isdigit_not_space_sign c Ed) as (Hs & _).
    rewrite Hs in Hc. destruct Hc as [Hc|?]; [|done]. unfold is_nul in Hc.
    apply bool_decide_eq_true in Hc as ->. done. }
  rewrite strtoumax_show by done. by destruct Hc as [-> | ->]; rewrite ?andb_false_r.
Qed.
End Line.
