(* ===== verification/ProcScrape.v ===== *)
(** * Scraping of /proc

    The scrapers of [collector/lib/ProcfsScraper.cpp].  What they read of the file
    system is an input: the entries of the directory in the order they are listed, and
    for each process the contents of its files and the targets of its links, [None]
    where the call fails.  Everything computed from it is translated: the line buffer
    that [fgets] overwrites, the sockets per container and namespace, the connections
    per namespace, and the resolution of the inodes. *)

From S2P Require Import Prelude Containers Utility Stats Address IPNet Process Connection ProcNet.

(** ** The file system *)

Record proc_dir := mkProcDir {
  pd_stat : option str;
  pd_cgroup : option str;
  pd_netns : option str;
  pd_netns_again : option str;
  pd_fds : option (list (str * option str));
  pd_tcp : option str;
  pd_tcp6 : option str;
  pd_exe : option str;
  pd_cmdline : option str
}.

Record proc_entry := mkProcEntry { pe_name : str; pe_dir : option proc_dir }.

Definition newline : ascii := "010"%char.

(** At most [n] characters, up to and with the first newline; and the rest. *)
Fixpoint take_line (n : nat) (s : str) : str * str :=
  match n, s with
  | S n, c :: s => if bool_decide (c = newline) then ([c], s) else let '(l, r) := take_line n s in (c :: l, r)
  | _, _ => ([], s)
  end.

(** [fgets(buf, n, f)]: the buffer behind the terminator keeps its bytes. *)
Definition fgets (n : nat) (buf content : str) : option (str * str) :=
  match content with
  | [] => None
  | _ => let '(line, rest) := take_line (n - 1) content in
         Some (line ++ NUL :: drop (S (length line)) buf, rest)
  end.

(** [getline]: without a bound. *)
Definition getline (content : str) : option (str * str) :=
  match content with
  | [] => None
  | _ => Some (take_line (length content) content)
  end.

(** A [char*] as a string: up to the terminator. *)
Fixpoint c_string (p : str) : str :=
  match p with
  | [] => []
  | c :: p => if is_nul c then [] else c :: c_string p
  end.

(** ** Inodes and attributes of a process *)

(** [ReadINode] on the target of the link. *)
Definition ReadINode (link : option str) (prefix : str) : option Z :=
  match link with
  | None => None
  | Some target =>
      let linkbuf := take 64 target in
      let nread := length linkbuf in
      if (nread =? 0)%nat || (63 <=? nread)%nat then None
      else if negb (bool_decide (nth (nread - 1) linkbuf NUL = "]"%char)) then None
      else if negb (starts_with prefix linkbuf) then None
      else if negb (starts_with (lit ":[") (drop (length prefix) linkbuf)) then None
      else match strtoumax (drop (length prefix + 2) linkbuf ++ [NUL]) with
           | Some (parsed, c :: _) => if bool_decide (c = "]"%char) then Some parsed else None
           | _ => None
           end
  end.

Definition GetNetworkNamespace (link : option str) : option Z := ReadINode link (lit "net").

Record SocketInfo := mkSocketInfo { si_inode : Z; si_pid : Z }.

#[export] Instance KeyEq_SocketInfo : KeyEq SocketInfo := fun a b => si_inode a =? si_inode b.

Definition add_socket (pid : Z) (socks : umap SocketInfo unit) (curr : str * option str) : umap SocketInfo unit :=
  if negb (isdigit (nth 0 curr.1 NUL)) then socks
  else match ReadINode curr.2 (lit "socket") with
       | None => socks
       | Some inode => (emplace socks (mkSocketInfo inode pid) tt).1
       end.

Definition GetSocketINodes (fds : option (list (str * option str))) (pid : Z) (sock_inodes : umap SocketInfo unit)
    (stats : CollectorStats) : umap SocketInfo unit * CollectorStats * bool :=
  match fds with
  | None => (sock_inodes, CounterInc procfs_could_not_open_fd_dir stats, false)
  | Some entries => (fold_left (add_socket pid) entries sock_inodes, stats, true)
  end.

Definition ExtractProcessState (line : str) : option ascii :=
  match rfind (lit ") ") line with
  | None => None
  | Some last_parenthese => match drop (last_parenthese + 2) line with [] => None | c :: _ => Some c end
  end.

(** The failures return [false], which is an optional that holds the character
    of value 0. *)
Definition ReadProcessState (stat_file : option str) (linebuf : str) : option ascii :=
  match stat_file with
  | None => Some NUL
  | Some content => match fgets 512 linebuf content with
                    | None => Some NUL
                    | Some (linebuf, _) => ExtractProcessState (c_string linebuf)
                    end
  end.

Definition ExtractContainerID (cgroup_line : str) : option str :=
  match rep_find 2 cgroup_line ":" with
  | None => None
  | Some start => ExtractContainerIDFromCgroup (drop (start + 1) cgroup_line)
  end.

(** The loop over the lines of [cgroup]; every line consumes a character. *)
Fixpoint cgroup_loop (fuel : nat) (content : str) : option str :=
  match fuel with
  | O => None
  | S fuel =>
      match getline content with
      | None => None
      | Some (line, rest) =>
          let line := match rev line with c :: l => if bool_decide (c = newline) then rev l else line | [] => line end in
          match ExtractContainerID line with
          | None => cgroup_loop fuel rest
          | Some id => Some id
          end
      end
  end.

Definition ProcGetContainerID (cgroups_file : option str) : option str :=
  match cgroups_file with
  | None => None
  | Some content => cgroup_loop (S (length content)) content
  end.

(** ** Connections of a network namespace *)

Definition TCP_ESTABLISHED : Z := 1.
Definition TCP_LISTEN : Z := 10.

Record ConnInfo := mkConnInfo { ci_local : Endpoint; ci_remote : Endpoint; ci_l4proto : L4Proto.t; ci_is_server : bool }.
Record EndpointInfo := mkEndpointInfo { ei_endpoint : Endpoint; ei_l4proto : L4Proto.t }.

Section Scrape.
Context `{HostEndian}.

Definition LocalIsServer (local remote : Endpoint) (listen_endpoints : umap Endpoint unit) : bool :=
  if Contains listen_endpoints local then true
  else
    let local_any := Endpoint_addr (Any (family (ep_address local))) (ep_port local) in
    if Contains listen_endpoints local_any then true
    else IsEphemeralPort (ep_port local) <? IsEphemeralPort (ep_port remote).

(** What reading a file accumulates; the listening sockets are kept only when
    they are asked for. *)
Record read_state := mkReadState {
  rs_all_listen_endpoints : umap Endpoint unit;
  rs_connections : umap Z ConnInfo;
  rs_listen_endpoints : option (umap Z EndpointInfo)
}.

Definition read_line (l4proto : L4Proto.t) (s : read_state) (data : ConnLineData) : read_state :=
  if cl_state data =? TCP_LISTEN then
    mkReadState (emplace (rs_all_listen_endpoints s) (cl_local data) tt).1 (rs_connections s)
      (if negb (cl_inode data =? 0)
       then (fun m => insert_or_assign m (cl_inode data) (mkEndpointInfo (cl_local data) l4proto)) <$> rs_listen_endpoints s
       else rs_listen_endpoints s)
  else if negb (cl_state data =? TCP_ESTABLISHED) then s
  else if cl_inode data =? 0 then s
  else
    mkReadState (rs_all_listen_endpoints s)
      (insert_or_assign (rs_connections s) (cl_inode data)
         (mkConnInfo (cl_local data) (cl_remote data) l4proto
            (LocalIsServer (cl_local data) (cl_remote data) (rs_all_listen_endpoints s))))
      (rs_listen_endpoints s).

(** The loop over the lines; [None] is an out-of-bounds read or a loop that uses
    up its fuel, one unit for each call of [fgets]. *)
Fixpoint read_lines (fuel : nat) (family : Family.t) (l4proto : L4Proto.t) (line content : str) (s : read_state)
  : option read_state :=
  match fuel with
  | O => None
  | S fuel =>
      match fgets 512 line content with
      | None => Some s
      | Some (line, rest) =>
          match ParseConnLine line family with
          | None => None
          | Some None => read_lines fuel family l4proto line rest s
          | Some (Some data) => read_lines fuel family l4proto line rest (read_line l4proto s data)
          end
      end
  end.

Definition ReadConnectionsFromFile (family : Family.t) (l4proto : L4Proto.t) (line content : str)
    (connections : umap Z ConnInfo) (listen_endpoints : option (umap Z EndpointInfo))
  : option (bool * umap Z ConnInfo * option (umap Z EndpointInfo)) :=
  match fgets 512 line content with
  | None => Some (false, connections, listen_endpoints)
  | Some (line, rest) =>
      let! s := read_lines (S (length rest)) family l4proto line rest (mkReadState [] connections listen_endpoints) in
      Some (true, rs_connections s, rs_listen_endpoints s)
  end.

(** [GetConnections]; [line] is the uninitialized buffer. *)
Definition GetConnections (line : str) (tcp tcp6 : option str) (connections : umap Z ConnInfo)
    (listen_endpoints : option (umap Z EndpointInfo))
  : option (bool * umap Z ConnInfo * option (umap Z EndpointInfo)) :=
  let! (success, connections, listen_endpoints) :=
    match tcp with
    | Some content => ReadConnectionsFromFile Family.IPV4 L4Proto.TCP line content connections listen_endpoints
    | None => Some (false, connections, listen_endpoints)
    end in
  match tcp6 with
  | Some content =>
      let! (ok, connections, listen_endpoints) :=
        ReadConnectionsFromFile Family.IPV6 L4Proto.TCP line content connections listen_endpoints in
      Some (ok && success, connections, listen_endpoints)
  | None => Some (false, connections, listen_endpoints)
  end.

Record NSNetworkData := mkNSNetworkData {
  ns_connections : umap Z ConnInfo;
  ns_listen_endpoints : umap Z EndpointInfo
}.

Definition ConnsByNS : Type := umap Z NSNetworkData.
Definition SocketsByContainer : Type := umap str (umap Z (umap SocketInfo unit)).

(** ** Resolution *)

(** What the resolution accumulates: the process store, the connections and the
    endpoints; [None] when the caller does not ask for endpoints. *)
Record resolve_state := mkResolveState {
  rv_store : option ProcessStore;
  rv_connections : list Connection;
  rv_endpoints : option (list ContainerEndpoint)
}.

Definition originator_of (s : ProcessStore) (p : option positive) : option IProcess :=
  match p with
  | Some p => match heap s !! p with Some o => Some (mkIProcess p (obj o)) | None => None end
  | None => None
  end.

Definition fetch_process (store : option ProcessStore) (pid : Z) : option IProcess * option ProcessStore :=
  match store with
  | None => (None, None)
  | Some s => let '(p, s) := Fetch s pid in (originator_of s p, Some s)
  end.

Definition resolve_socket (container_id : str) (data : NSNetworkData) (rs : resolve_state) (socket : SocketInfo)
  : resolve_state :=
  match Lookup (ns_connections data) (si_inode socket) with
  | Some conn =>
      let connection := Connection_make container_id (ci_local conn) (ci_remote conn) (ci_l4proto conn) (ci_is_server conn) in
      if negb (IsRelevantConnection connection) then rs
      else mkResolveState (rv_store rs) (rv_connections rs ++ [connection]) (rv_endpoints rs)
  | None =>
      match rv_endpoints rs with
      | None => rs
      | Some endpoints =>
          match Lookup (ns_listen_endpoints data) (si_inode socket) with
          | None => rs
          | Some ep =>
              if negb (IsRelevantEndpoint (ei_endpoint ep)) then rs
              else
                let '(process, store) := fetch_process (rv_store rs) (si_pid socket) in
                mkResolveState store (rv_connections rs)
                  (Some (endpoints ++ [mkContainerEndpoint container_id (ei_endpoint ep) (ei_l4proto ep) process]))
          end
      end
  end.

Definition ResolveSocketInodes (sockets_by_container : SocketsByContainer) (conns_by_ns : ConnsByNS)
    (rs : resolve_state) : resolve_state :=
  fold_left (fun rs container_sockets =>
    fold_left (fun rs netns_sockets =>
      match Lookup conns_by_ns netns_sockets.1 with
      | None => rs
      | Some data => fold_left (resolve_socket container_sockets.1 data) (map fst netns_sockets.2) rs
      end) container_sockets.2 rs) sockets_by_container rs.

(** ** The scrape *)

Record scrape_state := mkScrapeState {
  sc_conns : ConnsByNS;
  sc_sockets : SocketsByContainer;
  sc_stats : CollectorStats
}.

(** [m[k1][k2]]: the entries are created when they are missing. *)
Definition sockets_at (m : SocketsByContainer) (container_id : str) (netns : Z) : umap SocketInfo unit :=
  default [] (Lookup (default [] (Lookup m container_id)) netns).

Definition set_sockets (m : SocketsByContainer) (container_id : str) (netns : Z) (socks : umap SocketInfo unit)
  : SocketsByContainer :=
  insert_or_assign m container_id (insert_or_assign (default [] (Lookup m container_id)) netns socks).

(** [strtoll] of the name, which starts with a digit, as an unsigned pid. *)
Definition pid_of_name (name : str) : Z :=
  let '(v, _, _) := read_digits name 0 0 in Z.min v (2 ^ 63 - 1).

(** The body of the loop over the directory; [line] is the uninitialized line
    buffer, [want_endpoints] whether the caller passes a vector for them. *)
Definition scrape_entry (line : str) (want_endpoints : bool) (s : scrape_state) (curr : proc_entry)
  : option scrape_state :=
  let '(mkScrapeState conns socks stats) := s in
  if negb (isdigit (nth 0 (pe_name curr) NUL)) then Some s
  else
    let pid := pid_of_name (pe_name curr) in
    match pe_dir curr with
    | None => Some (mkScrapeState conns socks (CounterInc procfs_could_not_open_pid_dir stats))
    | Some dir =>
        if bool_decide (ReadProcessState (pd_stat dir) line = Some "Z"%char)
        then Some (mkScrapeState conns socks (CounterInc procfs_zombie_process stats))
        else
          match ProcGetContainerID (pd_cgroup dir) with
          | None => Some s
          | Some container_id =>
              match GetNetworkNamespace (pd_netns dir) with
              | None => Some (mkScrapeState conns socks (CounterInc procfs_could_not_get_network_namespace stats))
              | Some netns_inode =>
                  let ns_sockets := sockets_at socks container_id netns_inode in
                  let no_sockets := match ns_sockets with [] => true | _ => false end in
                  let '(ns_sockets, stats, ok) := GetSocketINodes (pd_fds dir) pid ns_sockets stats in
                  let socks := set_sockets socks container_id netns_inode ns_sockets in
                  if negb ok
                  then Some (mkScrapeState conns socks (CounterInc procfs_could_not_get_socket_inodes stats))
                  else if no_sockets && negb (match ns_sockets with [] => true | _ => false end) then
                    if Contains conns netns_inode then Some (mkScrapeState conns socks stats)
                    else
                      let! (ok, connections, listen) :=
                        GetConnections line (pd_tcp dir) (pd_tcp6 dir) [] (if want_endpoints then Some [] else None) in
                      if negb ok && negb (bool_decide (GetNetworkNamespace (pd_netns_again dir) = Some netns_inode))
                      then Some (mkScrapeState conns socks stats)
                      else Some (mkScrapeState (conns ++ [(netns_inode, mkNSNetworkData connections (default [] listen))])
                                   socks stats)
                  else Some (mkScrapeState conns socks stats)
              end
          end
    end.

Fixpoint scrape_entries (line : str) (want_endpoints : bool) (s : scrape_state) (entries : list proc_entry)
  : option scrape_state :=
  match entries with
  | [] => Some s
  | curr :: entries => let! s := scrape_entry line want_endpoints s curr in scrape_entries line want_endpoints s entries
  end.

(** [ReadContainerConnections]: [None] is an out-of-bounds read. *)
Definition ReadContainerConnections (line : str) (procdir : option (list proc_entry)) (rs : resolve_state)
    (stats : CollectorStats) : option (bool * resolve_state * CollectorStats) :=
  match procdir with
  | None => Some (false, rs, CounterInc procfs_could_not_open_proc_dir stats)
  | Some entries =>
      let want_endpoints := match rv_endpoints rs with Some _ => true | None => false end in
      let! s := scrape_entries line want_endpoints (mkScrapeState [] [] stats) entries in
      Some (true, ResolveSocketInodes (sc_sockets s) (sc_conns s) rs, sc_stats s)
  end.
End Scrape.

(** ** Attributes of a process *)

Definition PATH_MAX : nat := 4096.

(** [ReadProcessExe]: the name is what follows the last slash of an absolute path. *)
Definition ReadProcessExe (link : option str) (stats : CollectorStats) : option (str * str) * CollectorStats :=
  let failed := (None, CounterInc procfs_could_not_read_exe stats) in
  match link with
  | None => failed
  | Some target =>
      let buffer := take PATH_MAX target in
      if (length buffer =? 0)%nat || (PATH_MAX <=? length buffer)%nat then failed
      else
        let exe_path := c_string buffer in
        let comm := match buffer with
                    | c :: _ => if bool_decide (c = "/"%char)
                                then match rfind (lit "/") exe_path with
                                     | Some i => drop (S i) exe_path
                                     | None => exe_path
                                     end
                                else exe_path
                    | [] => exe_path
                    end in
        (Some (comm, exe_path), stats)
  end.

(** The loop over the characters of [cmdline]. *)
Record cmdline_state := mkCmdline {
  cs_did_exe : bool;
  cs_arg_completed : bool;
  cs_buf : str;
  cs_exe : str
}.

Definition cmdline_char (s : cmdline_state) (c : ascii) : cmdline_state :=
  if negb (is_nul c) then
    let buf := if cs_arg_completed s then cs_buf s ++ [" "%char] else cs_buf s in
    mkCmdline (cs_did_exe s) false (buf ++ [c]) (cs_exe s)
  else if cs_did_exe s then mkCmdline (cs_did_exe s) true (cs_buf s) (cs_exe s)
  else mkCmdline true (cs_arg_completed s) [] (cs_buf s).

(** [ReadProcessCmdline]: the executable, which stays as it was when there is no
    terminator, and the arguments. *)
Definition ReadProcessCmdline (cmdline : option str) (exe : str) (stats : CollectorStats)
  : option (str * str) * CollectorStats :=
  match cmdline with
  | None => (None, CounterInc procfs_could_not_read_cmdline stats)
  | Some content =>
      let s := fold_left cmdline_char content (mkCmdline false false [] exe) in
      (Some (cs_exe s, cs_buf s), stats)
  end.

Record ProcessInfo := mkProcessInfo {
  pi_container_id : str;
  pi_comm : str;
  pi_exe : str;
  pi_exe_path : str;
  pi_args : str;
  pi_pid : Z
}.

(** [ProcessScraper::Scrape] of the directory of the process. *)
Definition ProcessScrape (dirfd : option proc_dir) (pid : Z) (pi : ProcessInfo) (stats : CollectorStats)
  : bool * ProcessInfo * CollectorStats :=
  let '(mkProcessInfo cid comm exe exe_path args _) := pi in
  match dirfd with
  | None => (false, mkProcessInfo cid comm exe exe_path args pid, stats)
  | Some dir =>
      match ProcGetContainerID (pd_cgroup dir) with
      | None => (false, mkProcessInfo cid comm exe exe_path args pid, stats)
      | Some _ =>
          match ReadProcessExe (pd_exe dir) stats with
          | (None, stats) => (false, mkProcessInfo cid comm exe exe_path args pid, stats)
          | (Some (comm, exe_path), stats) =>
              match ReadProcessCmdline (pd_cmdline dir) exe stats with
              | (None, stats) => (false, mkProcessInfo cid comm exe exe_path args pid, stats)
              | (Some (exe, args), stats) => (true, mkProcessInfo cid comm exe exe_path args pid, stats)
              end
          end
      end
  end.

(** ** Lemmas *)

(** *** Memory safety *)

Section Safety.
Context `{HostEndian}.

Lemma fgets_terminated n buf content line rest : fgets n buf content = Some (line, rest) -> terminated line.
Proof.
  unfold fgets. destruct content as [|c content]; [done|]. destruct (take_line (n - 1) (c :: content)) as [l r].
  intros E. injection E as <- _. apply in_or_app. right. by left.
Qed.

Lemma take_line_rest n s l r : take_line n s = (l, r) -> s = l ++ r.
Proof.
  revert s l r. induction n as [|n IH]; intros [|c s] l r; simpl; intros E; simplify_eq; try done.
  case_bool_decide; [by simplify_eq|]. destruct (take_line n s) as [l' r'] eqn:E'. simplify_eq. simpl. f_equal. by apply IH.
Qed.

(** Every call consumes a character of the file. *)
Lemma take_line_shorter n s l r : s <> [] -> take_line (S n) s = (l, r) -> (length r < length s)%nat.
Proof.
  destruct s as [|c s]; [done|]. intros _ E. rewrite (take_line_rest _ _ _ _ E), length_app. cbn [take_line] in E.
  case_bool_decide; [injection E as <- _; simpl; lia|]. destruct (take_line n s). injection E as <- _. simpl. lia.
Qed.

Lemma fgets_shorter buf content line rest :
  fgets 512 buf content = Some (line, rest) -> (length rest < length content)%nat.
Proof.
  unfold fgets. destruct content as [|c content]; [done|]. change (512 - 1)%nat with 511%nat.
  destruct (take_line 511 (c :: content)) as [l r] eqn:E. intros Er. injection Er as _ <-.
  by apply take_line_shorter in E.
Qed.

Lemma getline_shorter content line rest : getline content = Some (line, rest) -> (length rest < length content)%nat.
Proof.
  unfold getline. destruct content as [|c content]; [done|]. intros E.
  apply (inj Some) in E. by apply (take_line_shorter (length content) (c :: content) line rest).
Qed.

Lemma read_lines_total fuel f proto line content s :
  (length content < fuel)%nat -> exists s', read_lines fuel f proto line content s = Some s'.
Proof.
  revert line content s. induction fuel as [|fuel IH]; intros line content s Hf; [lia|]. cbn [read_lines].
  destruct (fgets 512 line content) as [[line' rest]|] eqn:Ef; [|by eexists]. apply fgets_shorter in Ef as Hr.
  destruct (ParseConnLine_total line' f (fgets_terminated _ _ _ _ _ Ef)) as ([d|] & ->); apply IH; lia.
Qed.

(** More fuel for the lines of [cgroup] changes nothing. *)
Lemma cgroup_loop_fuel fuel fuel' content :
  (length content < fuel)%nat -> (length content < fuel')%nat -> cgroup_loop fuel content = cgroup_loop fuel' content.
Proof.
  revert fuel' content. induction fuel as [|fuel IH]; intros [|fuel'] content Hf Hf'; try lia. cbn [cgroup_loop].
  destruct (getline content) as [[l rest]|] eqn:E; [|done]. apply getline_shorter in E.
  destruct (ExtractContainerID _); [done|]. apply IH; lia.
Qed.

Lemma ReadConnections_total f proto line content c l :
  exists r, ReadConnectionsFromFile f proto line content c l = Some r.
Proof.
  unfold ReadConnectionsFromFile. destruct (fgets 512 line content) as [[line' rest]|]; [|by eexists].
  destruct (read_lines_total (S (length rest)) f proto line' rest (mkReadState [] c l)) as (s & ->); [lia|by eexists].
Qed.

Lemma GetConnections_total line tcp tcp6 c l : exists r, GetConnections line tcp tcp6 c l = Some r.
Proof.
  unfold GetConnections. destruct tcp as [t4|].
  - destruct (ReadConnections_total Family.IPV4 L4Proto.TCP line t4 c l) as ([[ok c'] l'] & ->).
    destruct tcp6 as [t6|]; [|by eexists].
    destruct (ReadConnections_total Family.IPV6 L4Proto.TCP line t6 c' l') as ([[ok' c''] l''] & ->). by eexists.
  - destruct tcp6 as [t6|]; [|by eexists].
    destruct (ReadConnections_total Family.IPV6 L4Proto.TCP line t6 c l) as ([[ok' c''] l''] & ->). by eexists.
Qed.

Lemma scrape_entry_total line w s e : exists s', scrape_entry line w s e = Some s'.
Proof.
  unfold scrape_entry. destruct s as [conns socks stats].
  destruct (negb _); [by eexists|]. destruct (pe_dir e) as [dir|]; [|by eexists].
  destruct (bool_decide _); [by eexists|]. destruct (ProcGetContainerID _); [|by eexists].
  destruct (GetNetworkNamespace (pd_netns dir)) as [ns|]; [|by eexists].
  destruct (GetSocketINodes _ _ _ _) as [[ns_sockets stats'] ok]. destruct (negb ok); [by eexists|].
  destruct (_ && _); [|by eexists]. destruct (Contains conns ns); [by eexists|].
  destruct (GetConnections_total line (pd_tcp dir) (pd_tcp6 dir) [] (if w then Some [] else None)) as ([[ok' c] l] & ->).
  destruct (_ && _); by eexists.
Qed.

Lemma scrape_entries_total line w s es : exists s', scrape_entries line w s es = Some s'.
Proof.
  revert s. induction es as [|e es IH]; intros s; [by eexists|]. simpl.
  destruct (scrape_entry_total line w s e) as (s' & ->). apply IH.
Qed.
End Safety.

(** *** Files of printed lines *)

Lemma take_line_text n l rest :
  ~ In newline l -> (length l < n)%nat -> take_line n (l ++ newline :: rest) = (l ++ [newline], rest).
Proof.
  revert n. induction l as [|c l IH]; intros [|n] Hn Hl; simpl in Hn, Hl; try lia; cbn [app take_line].
  - by rewrite bool_decide_eq_true_2.
  - rewrite bool_decide_eq_false_2 by naive_solver. rewrite IH by (naive_solver || lia). done.
Qed.

Lemma fgets_text buf l rest :
  ~ In newline l -> (length l < 511)%nat ->
  exists junk, fgets 512 buf (l ++ newline :: rest) = Some ((l ++ [newline]) ++ NUL :: junk, rest).
Proof.
  intros Hn Hl. unfold fgets. change (512 - 1)%nat with 511%nat.
  destruct (l ++ newline :: rest) as [|x y] eqn:E; [by destruct l|]. rewrite <- E, take_line_text by done. by eexists.
Qed.

Section Files.
Context `{HostEndian}.

Lemma line_text_app l t u : line_text l t ++ u = line_text l (t ++ u).
Proof. unfold line_text. by rewrite <- !app_assoc. Qed.

(** The data of a line. *)
Definition data_of (f : Family.t) (l : proc_line) : ConnLineData :=
  mkConnLineData (Endpoint_addr (proc_address f (ln_local l)) (ln_lport l))
    (Endpoint_addr (proc_address f (ln_remote l)) (ln_rport l)) (ln_state l) (ln_inode l).

(** A line with the fields that follow the inode; it fits the buffer. *)
Record file_line := mkFileLine { fl_line : proc_line; fl_tail : str }.

Definition file_line_ok (f : Family.t) (l : file_line) : Prop :=
  line_ok f (fl_line l)
  /\ (fl_tail l = [] \/ exists c t, fl_tail l = c :: t /\ isspace c = true)
  /\ ~ In newline (line_text (fl_line l) (fl_tail l))
  /\ (length (line_text (fl_line l) (fl_tail l)) < 511)%nat.

Definition file_data (f : Family.t) (ls : list file_line) : list ConnLineData :=
  map (fun l => data_of f (fl_line l)) ls.

Definition file_text (ls : list file_line) : str :=
  concat (map (fun l => line_text (fl_line l) (fl_tail l) ++ [newline]) ls).

Lemma length_file_text ls : (length ls <= length (file_text ls))%nat.
Proof.
  induction ls as [|l ls IH]; [done|]. cbn [file_text map concat] in *. rewrite !length_app. simpl.
  unfold file_text in IH. lia.
Qed.

Lemma read_lines_text fuel f proto buf ls s :
  (length ls < fuel)%nat -> Forall (file_line_ok f) ls ->
  read_lines fuel f proto buf (file_text ls) s = Some (fold_left (read_line proto) (file_data f ls) s).
Proof.
  intros Hf Hls. revert fuel buf s Hf. induction Hls as [|[l tl] ls (Hl & Htl & Hnl & Hlen) _ IH]; intros fuel buf s Hf.
  { destruct fuel; [simpl in Hf; lia|done]. }
  destruct fuel as [|fuel]; [simpl in Hf; lia|]. cbn [fl_line fl_tail] in *.
  change (file_text (mkFileLine l tl :: ls)) with ((line_text l tl ++ [newline]) ++ file_text ls).
  rewrite <- app_assoc. cbn [app read_lines].
  destruct (fgets_text buf (line_text l tl) (file_text ls) Hnl Hlen) as (junk & ->).
  rewrite <- app_assoc, line_text_app. cbn [file_data map fold_left fl_line].
  assert (exists c r, tl ++ [newline] ++ NUL :: junk = c :: r /\ (is_nul c = true \/ isspace c = true)) as (c & r & E & Hc).
  { destruct Htl as [->|(c & t & -> & Hs)]; [by exists newline, (NUL :: junk); split; [|right]|].
    exists c, (t ++ [newline] ++ NUL :: junk). by split; [|right]. }
  rewrite E, (ParseConnLine_text f l c r Hl Hc). apply IH. simpl in Hf. lia.
Qed.

Lemma ReadConnections_text f proto buf header ls c l :
  ~ In newline header -> (length header < 511)%nat -> Forall (file_line_ok f) ls ->
  ReadConnectionsFromFile f proto buf (header ++ newline :: file_text ls) c l
  = let s := fold_left (read_line proto) (file_data f ls) (mkReadState [] c l) in
    Some (true, rs_connections s, rs_listen_endpoints s).
Proof.
  intros Hn Hh Hls. unfold ReadConnectionsFromFile.
  destruct (fgets_text buf header (file_text ls) Hn Hh) as (junk & ->).
  rewrite read_lines_text; [done| |done]. pose proof (length_file_text ls). lia.
Qed.

(** *** What the lines add up to *)

Definition is_listen (d : ConnLineData) : bool := cl_state d =? TCP_LISTEN.
Definition is_conn (i : Z) (d : ConnLineData) : bool :=
  (cl_state d =? TCP_ESTABLISHED) && negb (cl_inode d =? 0) && (cl_inode d =? i).
Definition is_listener (i : Z) (d : ConnLineData) : bool := negb (cl_inode d =? 0) && (cl_inode d =? i).

(** The decision of [LocalIsServer] over a list of listening endpoints. *)
Definition serves (listening : list Endpoint) (local remote : Endpoint) : bool :=
  existsb (ep_eqb local) listening
  || existsb (ep_eqb (Endpoint_addr (Any (family (ep_address local))) (ep_port local))) listening
  || (IsEphemeralPort (ep_port local) <? IsEphemeralPort (ep_port remote)).

Definition any_Z (_ : Z) : Prop := True.

Lemma last_cons_or {A} (x : A) l : last (x :: l) = Some (default x (last l)).
Proof. rewrite last_cons. by destruct (last l). Qed.

Lemma listener_last i d ds proto m :
  wf_umap any_Z m ->
  (match last (List.filter (is_listener i) ds) with
   | Some d => Some (mkEndpointInfo (cl_local d) proto)
   | None => Lookup (if negb (cl_inode d =? 0)
                     then insert_or_assign m (cl_inode d) (mkEndpointInfo (cl_local d) proto) else m) i
   end) =
  match last (List.filter (is_listener i) (d :: ds)) with
  | Some d => Some (mkEndpointInfo (cl_local d) proto)
  | None => Lookup m i
  end.
Proof.
  intros Hm. cbn [List.filter]. unfold is_listener at 2. destruct (cl_inode d =? 0); cbn [negb andb]; [done|].
  rewrite (Lookup_insert_or_assign any_Z) by done. change (keqb i (cl_inode d)) with (i =? cl_inode d).
  rewrite (Z.eqb_sym i). destruct (cl_inode d =? i); [|done].
  rewrite last_cons. by destruct (last _).
Qed.

(** The listening lines. *)
Lemma fold_listen proto ds s m :
  Forall (fun d => is_listen d = true) ds -> rs_listen_endpoints s = Some m -> wf_umap any_Z m ->
  let s' := fold_left (read_line proto) ds s in
  rs_connections s' = rs_connections s
  /\ rs_all_listen_endpoints s' = fold_left (fun a d => (emplace a (cl_local d) tt).1) ds (rs_all_listen_endpoints s)
  /\ exists m', rs_listen_endpoints s' = Some m' /\ wf_umap any_Z m'
     /\ forall i, Lookup m' i = match last (List.filter (is_listener i) ds) with
                                | Some d => Some (mkEndpointInfo (cl_local d) proto)
                                | None => Lookup m i
                                end.
Proof.
  intros Hds. revert s m. induction Hds as [|d ds Hd _ IH]; intros s m Em Hm; [by split_and!; [..|exists m]|].
  set (m1 := if negb (cl_inode d =? 0)
             then insert_or_assign m (cl_inode d) (mkEndpointInfo (cl_local d) proto) else m).
  assert (read_line proto s d = mkReadState (emplace (rs_all_listen_endpoints s) (cl_local d) tt).1
            (rs_connections s) (Some m1)) as E.
  { unfold read_line. unfold is_listen in Hd. rewrite Hd, Em. unfold m1. by destruct (cl_inode d =? 0). }
  assert (wf_umap any_Z m1) as Hm1 by (unfold m1; destruct (negb _); [apply (wf_insert_or_assign any_Z); [done|exact I]|done]).
  destruct (IH (read_line proto s d) m1) as (H1 & H2 & m' & H3 & H4 & H5); [by rewrite E|done|].
  cbn [fold_left]. split_and!; [by rewrite H1, E|by rewrite H2, E|]. exists m'. split_and!; [done|done|].
  intros i. rewrite H5. by apply listener_last.
Qed.

Lemma conn_last i (d : ConnLineData) ds (info : ConnLineData -> ConnInfo) m :
  wf_umap any_Z m ->
  (match last (List.filter (is_conn i) ds) with
   | Some d => Some (info d)
   | None => Lookup (if (cl_state d =? TCP_ESTABLISHED) && negb (cl_inode d =? 0)
                     then insert_or_assign m (cl_inode d) (info d) else m) i
   end) =
  match last (List.filter (is_conn i) (d :: ds)) with
  | Some d => Some (info d)
  | None => Lookup m i
  end.
Proof.
  intros Hm. cbn [List.filter]. unfold is_conn at 2. destruct (_ && _); cbn [andb]; [|done].
  rewrite (Lookup_insert_or_assign any_Z) by done. change (keqb i (cl_inode d)) with (i =? cl_inode d).
  rewrite (Z.eqb_sym i). destruct (cl_inode d =? i); [|done].
  rewrite last_cons. by destruct (last _).
Qed.

(** The other lines. *)
Lemma fold_established proto ds s :
  Forall (fun d => is_listen d = false) ds -> wf_umap any_Z (rs_connections s) ->
  let info d := mkConnInfo (cl_local d) (cl_remote d) proto
                  (LocalIsServer (cl_local d) (cl_remote d) (rs_all_listen_endpoints s)) in
  let s' := fold_left (read_line proto) ds s in
  rs_all_listen_endpoints s' = rs_all_listen_endpoints s /\ rs_listen_endpoints s' = rs_listen_endpoints s
  /\ forall i, Lookup (rs_connections s') i = match last (List.filter (is_conn i) ds) with
                                              | Some d => Some (info d)
                                              | None => Lookup (rs_connections s) i
                                              end.
Proof.
  intros Hds. revert s. induction Hds as [|d ds Hd _ IH]; intros s Hm info; [done|].
  set (c1 := if (cl_state d =? TCP_ESTABLISHED) && negb (cl_inode d =? 0)
             then insert_or_assign (rs_connections s) (cl_inode d) (info d) else rs_connections s).
  assert (read_line proto s d = mkReadState (rs_all_listen_endpoints s) c1 (rs_listen_endpoints s)) as E.
  { unfold read_line. unfold is_listen in Hd. rewrite Hd. unfold c1.
    destruct (cl_state d =? TCP_ESTABLISHED), (cl_inode d =? 0); simpl; by destruct s. }
  assert (wf_umap any_Z c1) as Hc1 by (unfold c1; destruct (_ && _); [apply (wf_insert_or_assign any_Z); [done|exact I]|done]).
  destruct (IH (read_line proto s d)) as (H1 & H2 & H3); [by rewrite E|].
  cbn [fold_left]. rewrite E in *. cbn [rs_all_listen_endpoints rs_connections rs_listen_endpoints] in *.
  split_and!; [done|done|]. intros i. rewrite H3. by apply conn_last.
Qed.

Lemma wf_proc_address f ws : wf_addr (proc_address f ws).
Proof.
  unfold proc_address. destruct f; destruct ws as [|w0 [|w1 [|w2 [|w3 [|]]]]]; try apply wf_Address_family;
    try apply wf_Address_ipv4.
  apply wf_Address_ipv6.
Qed.

(** The set of listening endpoints. *)
Lemma Contains_emplaced ds m e :
  wf_umap (ep_class addr_net) m -> Forall (fun d => ep_class addr_net (cl_local d)) ds -> ep_class addr_net e ->
  wf_umap (ep_class addr_net) (fold_left (fun a d => (emplace a (cl_local d) tt).1) ds m)
  /\ Contains (fold_left (fun a d => (emplace a (cl_local d) tt).1) ds m) e
     = Contains m e || existsb (ep_eqb e) (map cl_local ds).
Proof.
  intros Hm Hds He. revert m Hm. induction Hds as [|d ds Hd _ IH]; intros m Hm.
  { split; [done|]. simpl. by rewrite orb_false_r. }
  cbn [fold_left map existsb]. destruct (IH (emplace m (cl_local d) tt).1) as [Hw ->].
  { by apply (wf_emplace (ep_class addr_net)). }
  split; [done|]. rewrite orb_assoc. f_equal.
  rewrite !Contains_Lookup, (Lookup_emplace (ep_class addr_net)) by done.
  destruct (Lookup m e); [done|]. change (keqb e (cl_local d)) with (ep_eqb e (cl_local d)).
  by destruct (ep_eqb e (cl_local d)).
Qed.

Lemma LocalIsServer_serves ds local remote :
  Forall (fun d => ep_class addr_net (cl_local d)) ds -> ep_class addr_net local ->
  LocalIsServer local remote (fold_left (fun a d => (emplace a (cl_local d) tt).1) ds [])
  = serves (map cl_local ds) local remote.
Proof.
  intros Hds Hl. unfold LocalIsServer, serves.
  destruct (Contains_emplaced ds [] local (wf_nil _) Hds Hl) as [_ ->].
  destruct (Contains_emplaced ds [] (Endpoint_addr (Any (family (ep_address local))) (ep_port local)) (wf_nil _) Hds)
    as [_ ->]; [apply ep_class_addr, wf_Address_family|].
  cbn [Contains Find List.find orb]. by destruct (existsb (ep_eqb local) _), (existsb _ (map cl_local ds)).
Qed.
End Files.

(** *** Resolution *)

(** Members of a list that a loop extends. *)
Lemma fold_members {A B C} (out : A -> list C) (f : A -> B -> A) (Added : B -> C -> Prop) (Inv : A -> Prop) l :
  (forall a x, Inv a -> In x l -> Inv (f a x) /\ forall c, In c (out (f a x)) <-> In c (out a) \/ Added x c) ->
  forall a, Inv a ->
  Inv (fold_left f l a)
  /\ forall c, In c (out (fold_left f l a)) <-> In c (out a) \/ exists x, In x l /\ Added x c.
Proof.
  induction l as [|x l IH]; intros Hf a Ha; simpl; [naive_solver|].
  destruct (Hf a x Ha) as [Ha' Hx]; [by left|].
  destruct (IH (fun a y Ia Iy => Hf a y Ia (or_intror Iy)) (f a x) Ha') as [Hi Hc].
  split; [done|]. intros c. rewrite Hc, Hx. naive_solver.
Qed.

Section Resolve.
Context `{HostEndian}.

Definition conn_of (cid : str) (ci : ConnInfo) : Connection :=
  Connection_make cid (ci_local ci) (ci_remote ci) (ci_l4proto ci) (ci_is_server ci).

(** An endpoint without its originator. *)
Definition bare (e : ContainerEndpoint) : str * Endpoint * L4Proto.t := (cep_container e, cep_endpoint e, cep_l4proto e).
Definition bare_endpoints (rs : resolve_state) : list (str * Endpoint * L4Proto.t) := map bare (default [] (rv_endpoints rs)).

(** A socket of a container in a namespace. *)
Definition socket_of (m : SocketsByContainer) (cid : str) (ns : Z) (s : SocketInfo) : Prop :=
  exists nss ss, In (cid, nss) m /\ In (ns, ss) nss /\ In s (map fst ss).

Definition socket_conn (data : NSNetworkData) (cid : str) (s : SocketInfo) (c : Connection) : Prop :=
  exists ci, Lookup (ns_connections data) (si_inode s) = Some ci /\ c = conn_of cid ci /\ IsRelevantConnection c = true.

Definition socket_endpoint (data : NSNetworkData) (cid : str) (s : SocketInfo) (b : str * Endpoint * L4Proto.t) : Prop :=
  Lookup (ns_connections data) (si_inode s) = None
  /\ exists ei, Lookup (ns_listen_endpoints data) (si_inode s) = Some ei
       /\ IsRelevantEndpoint (ei_endpoint ei) = true /\ b = (cid, ei_endpoint ei, ei_l4proto ei).

Lemma resolve_socket_conns cid data rs s c :
  In c (rv_connections (resolve_socket cid data rs s)) <-> In c (rv_connections rs) \/ socket_conn data cid s c.
Proof.
  unfold resolve_socket, socket_conn. destruct (Lookup (ns_connections data) (si_inode s)) as [ci|].
  - fold (conn_of cid ci). destruct (IsRelevantConnection (conn_of cid ci)) eqn:E; simpl.
    + rewrite in_app_iff. simpl. split; [|naive_solver]. intros [?|[<-|[]]]; [by left|right; by exists ci].
    + split; [by left|]. intros [?|(ci' & Ec & -> & Er)]; [done|]. simplify_eq. congruence.
  - assert (forall p store eps, rv_connections (mkResolveState store (rv_connections rs) (Some (eps ++ [p]))) = rv_connections rs) by done.
    split; [|intros [?|(? & ? & _)]; [|done]].
    + destruct (rv_endpoints rs); [|by left]. destruct (Lookup (ns_listen_endpoints data) _); [|by left].
      destruct (negb _); [by left|]. destruct (fetch_process _ _). by left.
    + destruct (rv_endpoints rs); [|done]. destruct (Lookup (ns_listen_endpoints data) _); [|done].
      destruct (negb _); [done|]. by destruct (fetch_process _ _).
Qed.

Lemma resolve_socket_endpoints cid data rs s :
  rv_endpoints rs <> None ->
  rv_endpoints (resolve_socket cid data rs s) <> None
  /\ forall b, In b (bare_endpoints (resolve_socket cid data rs s))
               <-> In b (bare_endpoints rs) \/ socket_endpoint data cid s b.
Proof.
  intros Hne. unfold resolve_socket, socket_endpoint. destruct (Lookup (ns_connections data) (si_inode s)) as [ci|].
  - destruct (negb _); split; try done; intros b; (split; [by left|]); intros [?|[? _]]; done.
  - unfold bare_endpoints. destruct (rv_endpoints rs) as [eps|] eqn:Er; [|done].
    destruct (Lookup (ns_listen_endpoints data) _) as [ei|].
    + destruct (IsRelevantEndpoint (ei_endpoint ei)) eqn:Ei; cbn [negb].
      * destruct (fetch_process _ _) as [p store]. cbn [rv_endpoints]. split; [done|]. intros b.
        cbn [default]. unfold id. rewrite map_app, in_app_iff. cbn [map In bare cep_container cep_endpoint cep_l4proto].
        split; [intros [?|[<-|[]]]; [by left|right; split; [done|by exists ei]]|].
        intros [?|(_ & ei' & E & _ & ->)]; [by left|]. simplify_eq. right. by left.
      * rewrite Er. split; [done|]. intros b. split; [by left|]. intros [?|(_ & ei' & E & E' & _)]; [done|].
        simplify_eq. congruence.
    + rewrite Er. split; [done|]. intros b. split; [by left|]. intros [?|(_ & ei' & E & _)]; done.
Qed.

(** What the sockets add, for either kind of result. *)
Lemma Resolve_members {C} (out : resolve_state -> list C) (Added : NSNetworkData -> str -> SocketInfo -> C -> Prop)
    (Inv : resolve_state -> Prop) m conns rs :
  (forall cid data a s, Inv a -> Inv (resolve_socket cid data a s)
     /\ forall c, In c (out (resolve_socket cid data a s)) <-> In c (out a) \/ Added data cid s c) ->
  Inv rs ->
  Inv (ResolveSocketInodes m conns rs)
  /\ forall c, In c (out (ResolveSocketInodes m conns rs))
       <-> In c (out rs)
           \/ exists cid ns s data, socket_of m cid ns s /\ Lookup conns ns = Some data /\ Added data cid s c.
Proof.
  intros Hstep Hi. unfold ResolveSocketInodes.
  edestruct (fold_members out
    (fun rs (cs : str * umap Z (umap SocketInfo unit)) =>
      fold_left (fun rs netns_sockets =>
        match Lookup conns netns_sockets.1 with
        | None => rs
        | Some data => fold_left (resolve_socket cs.1 data) (map fst netns_sockets.2) rs
        end) cs.2 rs)
    (fun cs c => exists nsk, In nsk cs.2 /\ exists data, Lookup conns nsk.1 = Some data
                 /\ exists s, In s (map fst nsk.2) /\ Added data cs.1 s c)
    Inv m) as [Hi' Hc]; [|exact Hi|split; [exact Hi'|]; intros c; rewrite Hc].
  - intros a cs Ha _. apply (fold_members out _ (fun nsk c => exists data, Lookup conns nsk.1 = Some data
      /\ exists s, In s (map fst nsk.2) /\ Added data cs.1 s c) Inv cs.2); [|done]. intros a' nsk Ha' _.
    destruct (Lookup conns nsk.1) as [data|];
      [|split; [done|]; intros c'; split; [by left|intros [?|(? & ? & _)]; done]].
    edestruct (fold_members out (resolve_socket cs.1 data) (Added data cs.1) Inv (map fst nsk.2)) as [Hi2 Hs];
      [|exact Ha'|]; [intros a'' s Ha'' _; by apply Hstep|].
    split; [done|]. intros c'. rewrite Hs. split; (intros [?|Hx]; [by left|right]).
    + by exists data.
    + destruct Hx as (data' & E & Hx). by injection E as <-.
  - unfold socket_of. split; (intros [?|Hx]; [by left|right]).
    + destruct Hx as ([cid nss] & Hin & [ns ss] & Hin2 & data & Hl & s & Hs & Hd). simpl in *.
      by exists cid, ns, s, data; split; [exists nss, ss|].
    + destruct Hx as (cid & ns & s & data & (nss & ss & Hin & Hin2 & Hs) & Hl & Hd).
      exists (cid, nss). split; [done|]. exists (ns, ss). split; [done|]. exists data. split; [done|]. by exists s.
Qed.

Lemma Resolve_conns m conns rs c :
  In c (rv_connections (ResolveSocketInodes m conns rs))
  <-> In c (rv_connections rs)
      \/ exists cid ns s data, socket_of m cid ns s /\ Lookup conns ns = Some data /\ socket_conn data cid s c.
Proof.
  apply (Resolve_members rv_connections socket_conn (fun _ => True)); [|done].
  intros cid data a s _. split; [done|]. intros c'. apply resolve_socket_conns.
Qed.

Lemma Resolve_endpoints m conns rs b :
  rv_endpoints rs <> None ->
  In b (bare_endpoints (ResolveSocketInodes m conns rs))
  <-> In b (bare_endpoints rs)
      \/ exists cid ns s data, socket_of m cid ns s /\ Lookup conns ns = Some data /\ socket_endpoint data cid s b.
Proof.
  intros Hne. apply (Resolve_members bare_endpoints socket_endpoint (fun a => rv_endpoints a <> None)); [|done].
  intros cid data a s Ha. by apply resolve_socket_endpoints.
Qed.
End Resolve.

(** *** The loop over the processes *)

Section Loop.
Context `{HostEndian}.

(** The entry is a live container process with the socket in the namespace. *)
Definition entry_socket (line : str) (e : proc_entry) (cid : str) (ns : Z) (s : SocketInfo) : Prop :=
  exists dir fds f,
    isdigit (nth 0 (pe_name e) NUL) = true /\ pe_dir e = Some dir
    /\ ReadProcessState (pd_stat dir) line <> Some "Z"%char
    /\ ProcGetContainerID (pd_cgroup dir) = Some cid
    /\ GetNetworkNamespace (pd_netns dir) = Some ns
    /\ pd_fds dir = Some fds /\ In f fds /\ isdigit (nth 0 f.1 NUL) = true
    /\ ReadINode f.2 (lit "socket") = Some (si_inode s) /\ si_pid s = pid_of_name (pe_name e).

(** The tables read through a process of the namespace. *)
Definition entry_data (line : str) (w : bool) (e : proc_entry) (ns : Z) (data : NSNetworkData) : Prop :=
  exists dir ok conns listen,
    pe_dir e = Some dir /\ GetNetworkNamespace (pd_netns dir) = Some ns
    /\ GetConnections line (pd_tcp dir) (pd_tcp6 dir) [] (if w then Some [] else None) = Some (ok, conns, listen)
    /\ data = mkNSNetworkData conns (default [] listen).

Lemma In_assign {K V} `{HK : KeyEq K} (Heq : forall a b : K, keqb a b = true -> a = b) (m : umap K V) k v e :
  In e (assign m k v) -> In e m \/ e = (k, v).
Proof.
  induction m as [|x m IH]; simpl; [done|]. destruct (keqb k x.1) eqn:E; simpl.
  - apply Heq in E. intros [<-|?]; [right; by rewrite E|left; by right].
  - intros [?|Hin]; [left; by left|]. destruct (IH Hin); [left; by right|by right].
Qed.

Lemma In_insert_or_assign {K V} `{HK : KeyEq K} (Heq : forall a b : K, keqb a b = true -> a = b) (m : umap K V) k v e :
  In e (insert_or_assign m k v) -> In e m \/ e = (k, v).
Proof.
  unfold insert_or_assign. destruct (Contains m k); [by apply In_assign|].
  intros Hin. apply in_app_or in Hin as [?|[<-|[]]]; [by left|by right].
Qed.

Lemma Lookup_In {K V} `{HK : KeyEq K} (Heq : forall a b : K, keqb a b = true -> a = b) (m : umap K V) k v :
  Lookup m k = Some v -> In (k, v) m.
Proof.
  unfold Lookup. destruct (Find m k) as [e|] eqn:E; [|done]. apply Find_Some in E as [Hin E].
  apply Heq in E. simpl. intros Ev. injection Ev as <-. subst k. by destruct e.
Qed.

Lemma keqb_str_eq (a b : str) : keqb a b = true -> a = b.
Proof. intros E. by apply bool_decide_eq_true in E. Qed.

Lemma keqb_Z_eq (a b : Z) : keqb a b = true -> a = b.
Proof. intros E. by apply Z.eqb_eq in E. Qed.

(** The sockets in the map after the ones of a container and a namespace are set. *)
(** The pieces [fgets] cuts a file into. *)
Inductive piece : str -> str -> Prop :=
| piece_first c s l r : take_line 511 (c :: s) = (l, r) -> piece (c :: s) l
| piece_next c s l0 r l : take_line 511 (c :: s) = (l0, r) -> piece r l -> piece (c :: s) l.

(** A line of the file behind its header, as it stands in the buffer, reads as an
    established connection of the socket. *)
Definition established_line (f : Family.t) (content : str) (inode : Z) (ci : ConnInfo) : Prop :=
  exists header rest l junk d,
    take_line 511 content = (header, rest) /\ piece rest l
    /\ ParseConnLine (l ++ NUL :: junk) f = Some (Some d)
    /\ cl_state d = TCP_ESTABLISHED /\ cl_inode d = inode /\ inode <> 0
    /\ ci_local ci = cl_local d /\ ci_remote ci = cl_remote d /\ ci_l4proto ci = L4Proto.TCP.

(** Every connection that was read comes from somewhere. *)
Definition conns_from (P : Z -> ConnInfo -> Prop) (m : umap Z ConnInfo) : Prop := forall i ci, In (i, ci) m -> P i ci.

Lemma read_line_from (P : Z -> ConnInfo -> Prop) proto s d :
  (cl_state d = TCP_ESTABLISHED -> cl_inode d <> 0 ->
   forall srv, P (cl_inode d) (mkConnInfo (cl_local d) (cl_remote d) proto srv)) ->
  conns_from P (rs_connections s) -> conns_from P (rs_connections (read_line proto s d)).
Proof.
  intros HP Hs. unfold read_line. destruct (cl_state d =? TCP_LISTEN); [done|].
  destruct (Z.eqb_spec (cl_state d) TCP_ESTABLISHED) as [E|]; [|done]. destruct (Z.eqb_spec (cl_inode d) 0); [done|].
  intros i ci Hin. apply (In_insert_or_assign keqb_Z_eq) in Hin as [?|E']; [by apply Hs|]. injection E' as -> ->. by apply HP.
Qed.

Lemma read_lines_from (P : Z -> ConnInfo -> Prop) fuel f proto buf content s s' :
  (forall l junk d, piece content l -> ParseConnLine (l ++ NUL :: junk) f = Some (Some d) ->
     cl_state d = TCP_ESTABLISHED -> cl_inode d <> 0 ->
     forall srv, P (cl_inode d) (mkConnInfo (cl_local d) (cl_remote d) proto srv)) ->
  conns_from P (rs_connections s) -> read_lines fuel f proto buf content s = Some s' ->
  conns_from P (rs_connections s').
Proof.
  revert buf content s. induction fuel as [|fuel IH]; intros buf content s HP Hs E; [done|]. cbn [read_lines] in E.
  destruct content as [|c content]; [by injection E as <-|]. unfold fgets in E. change (512 - 1)%nat with 511%nat in E.
  destruct (take_line 511 (c :: content)) as [l rest] eqn:El.
  destruct (ParseConnLine _ f) as [[d|]|] eqn:Ep; [| |done]; (eapply IH; [| |exact E]).
  - intros l' junk' d' Hl'. apply HP. by apply (piece_next c content l rest).
  - apply read_line_from; [|done]. apply (HP l (drop (S (length l)) buf) d); [by apply (piece_first c content l rest)|exact Ep].
  - intros l' junk' d' Hl'. apply HP. by apply (piece_next c content l rest).
  - done.
Qed.

Lemma ReadConnections_from f buf content c l ok c' l' (P : Z -> ConnInfo -> Prop) :
  (forall i ci, established_line f content i ci -> P i ci) -> conns_from P c ->
  ReadConnectionsFromFile f L4Proto.TCP buf content c l = Some (ok, c', l') -> conns_from P c'.
Proof.
  intros HP Hc. unfold ReadConnectionsFromFile, fgets. destruct content as [|x content]; [intros E; by injection E as _ <- _|].
  change (512 - 1)%nat with 511%nat. destruct (take_line 511 (x :: content)) as [header rest] eqn:Eh.
  destruct (read_lines _ _ _ _ _ _) as [s|] eqn:Er; [|done]. intros E. injection E as _ <- _.
  apply (read_lines_from P _ _ _ _ _ _ _) in Er; [done| |exact Hc]. intros piece_ junk d Hl Hp Hst Hi srv. apply HP.
  by exists header, rest, piece_, junk, d.
Qed.

(** One of the tables of the directory lists the connection. *)
Definition table_line (dir : proc_dir) (inode : Z) (ci : ConnInfo) : Prop :=
  exists f content, (f = Family.IPV4 /\ pd_tcp dir = Some content \/ f = Family.IPV6 /\ pd_tcp6 dir = Some content)
                    /\ established_line f content inode ci.

Lemma GetConnections_from line dir l ok c l' :
  GetConnections line (pd_tcp dir) (pd_tcp6 dir) [] l = Some (ok, c, l') -> conns_from (table_line dir) c.
Proof.
  unfold GetConnections. intros E.
  assert (exists ok1 c1 l1, conns_from (table_line dir) c1 /\
    match pd_tcp6 dir with
    | Some content => let! (ok, connections, listen) := ReadConnectionsFromFile Family.IPV6 L4Proto.TCP line content c1 l1 in
                      Some (ok && ok1, connections, listen)
    | None => Some (false, c1, l1)
    end = Some (ok, c, l')) as (ok1 & c1 & l1 & Hc1 & E1).
  { destruct (pd_tcp dir) as [content|] eqn:Et; [|exists false, [], l; split; [by intros ? ? []|exact E]].
    destruct (ReadConnectionsFromFile _ _ _ _ _ _) as [[[ok1 c1] l1]|] eqn:E1; [|done]. exists ok1, c1, l1. split; [|done].
    refine (ReadConnections_from _ _ _ _ _ _ _ _ _ _ _ E1); [|by intros ? ? Hin; destruct Hin]. intros i ci Hl. exists Family.IPV4, content. by split; [left|]. }
  destruct (pd_tcp6 dir) as [content|] eqn:Et; [|by injection E1 as _ <- _].
  destruct (ReadConnectionsFromFile _ _ _ _ _ _) as [[[ok2 c2] l2]|] eqn:E2; [|done]. injection E1 as _ <- _.
  refine (ReadConnections_from _ _ _ _ _ _ _ _ _ _ Hc1 E2). intros i ci Hl. exists Family.IPV6, content. by split; [right|].
Qed.

Lemma socket_of_set m cid ns socks cid' ns' s :
  socket_of (set_sockets m cid ns socks) cid' ns' s ->
  socket_of m cid' ns' s \/ (cid' = cid /\ ns' = ns /\ In s (map fst socks)).
Proof.
  intros (nss & ss & H1 & H2 & H3). unfold set_sockets in H1.
  apply (In_insert_or_assign keqb_str_eq) in H1 as [H1|E]; [left; by exists nss, ss|].
  injection E as -> ->. apply (In_insert_or_assign keqb_Z_eq) in H2 as [H2|E2]; [|injection E2 as -> ->; by right].
  destruct (Lookup m cid) as [nss|] eqn:El; [|done]. left. exists nss, ss.
  split; [by apply (Lookup_In keqb_str_eq)|done].
Qed.

Lemma sockets_at_of m cid ns s : In s (map fst (sockets_at m cid ns)) -> socket_of m cid ns s.
Proof.
  unfold sockets_at. destruct (Lookup m cid) as [nss|] eqn:El; simpl; [|done].
  destruct (Lookup nss ns) as [ss|] eqn:En; simpl; [|done]. intros Hs. exists nss, ss.
  split_and!; [by apply (Lookup_In keqb_str_eq)|by apply (Lookup_In keqb_Z_eq)|done].
Qed.

Lemma GetSocketINodes_members fds pid socks stats socks' stats' ok s :
  GetSocketINodes fds pid socks stats = (socks', stats', ok) -> In s (map fst socks') ->
  In s (map fst socks)
  \/ exists l f, fds = Some l /\ In f l /\ isdigit (nth 0 f.1 NUL) = true
       /\ ReadINode f.2 (lit "socket") = Some (si_inode s) /\ si_pid s = pid.
Proof.
  unfold GetSocketINodes. destruct fds as [l|]; [|intros E; injection E as <- _ _; by left].
  intros E. injection E as <- _ _. revert socks. induction l as [|f l IH]; intros socks; [by left|]. cbn [fold_left].
  intros Hin. apply IH in Hin as [Hin|(l' & g & El & Hg & Hrest)]; clear IH.
  - unfold add_socket in Hin. destruct (isdigit (nth 0 f.1 NUL)) eqn:Ed; cbn [negb] in Hin; [|by left].
    destruct (ReadINode f.2 (lit "socket")) as [inode|] eqn:Er; [|by left].
    unfold emplace in Hin. destruct (Contains socks _); [by left|]. cbn [fst] in Hin.
    rewrite map_app, in_app_iff in Hin. destruct Hin as [?|[<-|[]]]; [by left|].
    right. exists (f :: l), f. split_and!; try done. by left.
  - injection El as <-. right. exists (f :: l), g. split; [done|]. split; [by right|exact Hrest].
Qed.

(** What holds of the state after some entries. *)
Definition scraped (line : str) (w : bool) (es : list proc_entry) (s : scrape_state) : Prop :=
  (forall cid ns si, socket_of (sc_sockets s) cid ns si -> exists e, In e es /\ entry_socket line e cid ns si)
  /\ (forall ns data, Lookup (sc_conns s) ns = Some data -> exists e, In e es /\ entry_data line w e ns data).

Lemma scrape_entry_scraped line w es e s s' :
  In e es -> scraped line w es s -> scrape_entry line w s e = Some s' -> scraped line w es s'.
Proof.
  intros Hin [Hs Hc] E. destruct s as [conns socks stats]. unfold scrape_entry in E.
  destruct (isdigit (nth 0 (pe_name e) NUL)) eqn:Ed; cbn [negb] in E; [|by injection E as <-].
  destruct (pe_dir e) as [dir|] eqn:Edir; [|by injection E as <-].
  case_bool_decide as Ez; [by injection E as <-|].
  destruct (ProcGetContainerID (pd_cgroup dir)) as [cid|] eqn:Ecid; [|by injection E as <-].
  destruct (GetNetworkNamespace (pd_netns dir)) as [ns|] eqn:Ens; [|by injection E as <-].
  destruct (GetSocketINodes (pd_fds dir) (pid_of_name (pe_name e)) (sockets_at socks cid ns) stats)
    as [[ns_sockets stats'] ok] eqn:Es.
  assert (forall conns' stats'', (forall n data, Lookup conns' n = Some data -> exists e, In e es /\ entry_data line w e n data) ->
            scraped line w es (mkScrapeState conns' (set_sockets socks cid ns ns_sockets) stats'')) as Hnew.
  { intros conns' stats'' Hc'. split; [|done]. cbn [sc_sockets]. intros cid' ns' si Hsi.
    apply socket_of_set in Hsi as [Hsi|(-> & -> & Hsi)]; [by apply Hs|].
    apply (GetSocketINodes_members _ _ _ _ _ _ _ _ Es) in Hsi as [Hsi|(l & f & Hl & Hf & H1 & H2 & H3)].
    - apply Hs. by apply sockets_at_of.
    - exists e. split; [done|]. by exists dir, l, f. }
  destruct ok; cbn [negb] in E; [|injection E as <-; by apply Hnew].
  destruct (_ && _); [|injection E as <-; by apply Hnew].
  destruct (Contains conns ns); [injection E as <-; by apply Hnew|].
  destruct (GetConnections line (pd_tcp dir) (pd_tcp6 dir) [] (if w then Some [] else None)) as [[[ok cs] ls]|] eqn:Eg; [|done].
  destruct (negb ok && _); injection E as <-; apply Hnew; [done|].
  intros n data. rewrite Lookup_app. destruct (Lookup conns n) as [d|] eqn:El.
  - intros E. injection E as <-. by apply Hc.
  - rewrite Lookup_cons. simpl. destruct (keqb n ns) eqn:Ek; [|done]. apply keqb_Z_eq in Ek as ->.
    intros E. injection E as <-. exists e. split; [done|]. by exists dir, ok, cs, ls.
Qed.

Lemma scrape_entries_scraped line w es todo s s' :
  incl todo es -> scraped line w es s -> scrape_entries line w s todo = Some s' -> scraped line w es s'.
Proof.
  revert s. induction todo as [|e todo IH]; intros s Hincl Hs E; simpl in E; [by injection E as <-|].
  destruct (scrape_entry line w s e) as [s1|] eqn:E1; [|done].
  apply (IH s1); [|eapply scrape_entry_scraped; [|done|done]|done].
  - intros x Hx. apply Hincl. by right.
  - apply Hincl. by left.
Qed.
End Loop.

(** *** Attributes of a process *)

Lemma c_string_id s : ~ In NUL s -> c_string s = s.
Proof.
  induction s as [|c s IH]; intros Hn; [done|]. simpl in *. unfold is_nul.
  rewrite bool_decide_eq_false_2 by naive_solver. rewrite IH by naive_solver. done.
Qed.

(** Arguments, each with its terminator. *)
Definition cmdline_text (exe : str) (args : list str) : str :=
  exe ++ NUL :: concat (map (fun a => a ++ [NUL]) args).

Lemma cmdline_chars a s :
  ~ In NUL a ->
  fold_left cmdline_char a s
  = match a with
    | [] => s
    | _ => mkCmdline (cs_did_exe s) false
             ((if cs_arg_completed s then cs_buf s ++ [" "%char] else cs_buf s) ++ a) (cs_exe s)
    end.
Proof.
  revert s. induction a as [|c a IH]; intros s Hn; [done|]. simpl in Hn. cbn [fold_left].
  assert (cmdline_char s c = mkCmdline (cs_did_exe s) false
            ((if cs_arg_completed s then cs_buf s ++ [" "%char] else cs_buf s) ++ [c]) (cs_exe s)) as ->.
  { unfold cmdline_char, is_nul. by rewrite bool_decide_eq_false_2 by naive_solver. }
  rewrite IH by naive_solver. destruct a as [|x a]; [done|]. cbn [cs_did_exe cs_arg_completed cs_buf cs_exe].
  by rewrite <- app_assoc.
Qed.

Lemma cmdline_nul s :
  cmdline_char s NUL = if cs_did_exe s then mkCmdline (cs_did_exe s) true (cs_buf s) (cs_exe s)
                       else mkCmdline true (cs_arg_completed s) [] (cs_buf s).
Proof. done. Qed.

Lemma cmdline_args args exe buf :
  Forall (fun a => ~ In NUL a /\ a <> []) args ->
  fold_left cmdline_char (concat (map (fun a => a ++ [NUL]) args)) (mkCmdline true true buf exe)
  = mkCmdline true true (fold_left (fun b a => b ++ " "%char :: a) args buf) exe.
Proof.
  intros Hargs. revert buf. induction Hargs as [|a args [Ha Hne] _ IH]; intros buf; [done|].
  cbn [map concat fold_left]. rewrite !fold_left_app, (cmdline_chars a) by done.
  destruct a as [|c a]; [done|]. cbn [cs_did_exe cs_arg_completed cs_buf cs_exe fold_left].
  rewrite cmdline_nul. cbn [cs_did_exe cs_buf cs_exe]. rewrite IH. by rewrite <- app_assoc.
Qed.

Lemma join_fold args buf : fold_left (fun b a => b ++ " "%char :: a) args buf = join " " (buf :: args).
Proof.
  revert buf. induction args as [|a args IH]; intros buf; [done|]. cbn [fold_left].
  rewrite IH. cbn [join]. destruct args; [done|]. by rewrite <- app_assoc.
Qed.

Lemma ReadProcessCmdline_text exe args exe0 stats :
  ~ In NUL exe -> Forall (fun a => ~ In NUL a /\ a <> []) args ->
  ReadProcessCmdline (Some (cmdline_text exe args)) exe0 stats = (Some (exe, join " " args), stats).
Proof.
  intros He Ha. unfold ReadProcessCmdline, cmdline_text. rewrite fold_left_app, (cmdline_chars exe) by done.
  set (s0 := match exe with [] => _ | _ => _ end).
  assert (s0 = mkCmdline false false exe exe0) as -> by (unfold s0; by destruct exe).
  cbn [fold_left]. rewrite cmdline_nul. cbn [cs_did_exe cs_buf cs_exe cs_arg_completed]. destruct Ha as [|a args [Hn Hne] Ha]; [done|].
  cbn [map concat]. rewrite !fold_left_app, (cmdline_chars a) by done.
  destruct a as [|c a]; [done|]. cbn [cs_did_exe cs_arg_completed cs_buf cs_exe fold_left].
  rewrite cmdline_nul. cbn [cs_did_exe cs_buf cs_exe]. rewrite cmdline_args by done. cbn [cs_exe cs_buf].
  by rewrite join_fold.
Qed.

(** ** Theorems *)

Section Theorems.
Context `{HostEndian}.

(** C16. Reading net/tcp: of a file with a header line, the listening sockets
    and then the other ones, as the kernel prints them on hosts of either byte order,
    the reader keeps for every inode other than 0 the last established connection and
    the last listening socket with that inode, and decides the role of a connection
    by the listening endpoints of the file and the port ranges. *)
Theorem ReadConnections_spec (f : Family.t) (proto : L4Proto.t) (buf header : str) (ls cs : list file_line)
    (Hheader : ~ In newline header) (Hlen : (length header < 511)%nat)
    (Hls : Forall (fun l => file_line_ok f l /\ ln_state (fl_line l) = TCP_LISTEN) ls)
    (Hcs : Forall (fun l => file_line_ok f l /\ ln_state (fl_line l) <> TCP_LISTEN) cs) :
  let listening := map cl_local (file_data f ls) in
  exists conns listens,
    ReadConnectionsFromFile f proto buf (header ++ newline :: file_text (ls ++ cs)) [] (Some [])
      = Some (true, conns, Some listens)
    /\ (forall i, Lookup conns i =
          (fun d => mkConnInfo (cl_local d) (cl_remote d) proto (serves listening (cl_local d) (cl_remote d)))
            <$> last (List.filter (is_conn i) (file_data f cs)))
    /\ (forall i, Lookup listens i =
          (fun d => mkEndpointInfo (cl_local d) proto) <$> last (List.filter (is_listener i) (file_data f ls))).
Proof.
  intros listening.
  assert (Forall (fun d => ep_class addr_net (cl_local d)) (file_data f ls)) as Hep.
  { unfold file_data. apply List.Forall_map, List.Forall_forall. intros l _. apply ep_class_addr, wf_proc_address. }
  rewrite ReadConnections_text; [|done|done|apply Forall_app; split].
  2-3: eapply Forall_impl; [eassumption|]; by intros ? [? _].
  unfold file_data at 1 2. rewrite map_app, fold_left_app. fold (file_data f ls) (file_data f cs).
  destruct (fold_listen proto (file_data f ls) (mkReadState [] [] (Some [])) []) as (L1 & L2 & m & L3 & Hm & L4);
    [|done|apply wf_nil|].
  { unfold file_data. apply List.Forall_map. apply (Forall_impl _ _ _ Hls). intros l [_ E]. by apply Z.eqb_eq. }
  set (s1 := fold_left (read_line proto) (file_data f ls) (mkReadState [] [] (Some []))) in *.
  destruct (fold_established proto (file_data f cs) s1) as (C1 & C2 & C3).
  { unfold file_data. apply List.Forall_map. apply (Forall_impl _ _ _ Hcs). intros l [_ E]. by apply Z.eqb_neq. }
  { rewrite L1. apply wf_nil. }
  cbv zeta. rewrite C2, L3. exists (rs_connections (fold_left (read_line proto) (file_data f cs) s1)), m.
  split_and!; [done| |].
  - intros i. rewrite C3, L1. cbn [rs_connections].
    destruct (last (List.filter (is_conn i) (file_data f cs))) as [d|] eqn:Ed; simpl; [|done].
    do 2 f_equal. rewrite L2. apply LocalIsServer_serves; [done|].
    apply last_Some_elem_of, list_elem_of_In, filter_In in Ed as [Hd _].
    apply in_map_iff in Hd as (l & <- & _). apply ep_class_addr, wf_proc_address.
  - intros i. rewrite L4. by destruct (last _).
Qed.

(** C12. A scrape never reads outside its buffers and its loops end, whatever the
    files contain (the model has no result otherwise); every connection it reports
    belongs to a container: a process that is not a zombie, whose cgroup names the
    container, holds a socket in a network namespace; net/tcp or net/tcp6, read
    through a process of that namespace, has a line behind its header that parses
    with the state ESTABLISHED, the inode of the socket, which is not 0, and the two
    endpoints of the connection; and the connection is not to the local host. *)
Theorem scrape_sound (line : str) (es : list proc_entry) (store : option ProcessStore)
    (endpoints : option (list ContainerEndpoint)) (stats : CollectorStats) :
  exists rs stats',
    ReadContainerConnections line (Some es) (mkResolveState store [] endpoints) stats = Some (true, rs, stats')
    /\ forall c, In c (rv_connections rs) ->
       exists e e' dir ns s ci,
         In e es /\ entry_socket line e (container_ c) ns s
         /\ In e' es /\ pe_dir e' = Some dir /\ GetNetworkNamespace (pd_netns dir) = Some ns
         /\ table_line dir (si_inode s) ci
         /\ c = conn_of (container_ c) ci /\ IsRelevantConnection c = true.
Proof.
  unfold ReadContainerConnections. cbn [rv_endpoints].
  set (w := match endpoints with Some _ => true | None => false end).
  destruct (scrape_entries_total line w (mkScrapeState [] [] stats) es) as (s & Es). rewrite Es.
  do 2 eexists. split; [done|]. intros c Hc. apply Resolve_conns in Hc as [[]|(cid & ns & si & data & Hs & Hl & ci & Hci & E & Hr)].
  assert (scraped line w es s) as [S1 S2].
  { apply (scrape_entries_scraped line w es es (mkScrapeState [] [] stats)); [apply incl_refl| |done].
    split; [|done]. by intros ? ? ? (nss & ss & [] & _). }
  destruct (S1 cid ns si Hs) as (e & He & Hsock).
  destruct (S2 ns data Hl) as (e' & He' & dir & ok & conns & listen & Hdir & Hns & Eg & ->).
  assert (container_ c = cid) as Ec by (by subst c). rewrite Ec.
  exists e, e', dir, ns, si, ci. split_and!; try done.
  apply (GetConnections_from _ _ _ _ _ _ Eg). by apply (Lookup_In keqb_Z_eq).
Qed.

(** Resolution of sockets: exactly the relevant connections of the
    sockets of every container, and, when endpoints are asked for, exactly the relevant
    listening endpoints of its sockets that have no connection. *)
Theorem ResolveSocketInodes_spec (m : SocketsByContainer) (conns : ConnsByNS) (store : option ProcessStore)
    (c : Connection) (b : str * Endpoint * L4Proto.t) :
  let rs := ResolveSocketInodes m conns (mkResolveState store [] (Some [])) in
  (In c (rv_connections rs)
   <-> exists cid ns s data, socket_of m cid ns s /\ Lookup conns ns = Some data /\ socket_conn data cid s c)
  /\ (In b (bare_endpoints rs)
      <-> exists cid ns s data, socket_of m cid ns s /\ Lookup conns ns = Some data /\ socket_endpoint data cid s b).
Proof.
  cbv zeta. rewrite Resolve_conns, Resolve_endpoints by done. simpl. split; split.
  - by intros [[]|?].
  - by right.
  - by intros [[]|?].
  - by right.
Qed.
End Theorems.

(** Scraping a process: from a cgroup that names a container, a link to
    an absolute path and a command line of non-empty arguments, the scraper gets
    the name after the last slash, the path, the executable and the arguments
    separated by spaces; the container ID of the result is left as it was. *)
Theorem ProcessScrape_spec (dir : proc_dir) (pid : Z) (pi : ProcessInfo) (stats : CollectorStats)
    (id p name exe : str) (args : list str)
    (Hid : ProcGetContainerID (pd_cgroup dir) = Some id)
    (Hexe : pd_exe dir = Some ("/"%char :: p ++ "/"%char :: name))
    (Hpath : ~ In NUL (p ++ "/"%char :: name) /\ ~ In "/"%char name
             /\ (length ("/"%char :: p ++ "/"%char :: name) < PATH_MAX)%nat)
    (Hcmd : pd_cmdline dir = Some (cmdline_text exe args))
    (Hargs : ~ In NUL exe /\ Forall (fun a => ~ In NUL a /\ a <> []) args) :
  ProcessScrape (Some dir) pid pi stats
  = (true, mkProcessInfo (pi_container_id pi) name exe ("/"%char :: p ++ "/"%char :: name) (join " " args) pid, stats).
Proof.
  destruct Hpath as (Hnul & Hslash & Hlen). destruct Hargs as [He Ha]. unfold ProcessScrape.
  destruct pi as [cid comm exe0 exe_path args0 pid0]. rewrite Hid, Hexe, Hcmd. unfold ReadProcessExe.
  set (path := "/"%char :: p ++ "/"%char :: name) in *.
  rewrite take_ge by lia.
  destruct (Nat.eqb_spec (length path) 0); [done|]. destruct (Nat.leb_spec PATH_MAX (length path)); [lia|]. cbn [orb].
  rewrite c_string_id by (intros [?|?]; done). unfold path at 1. rewrite bool_decide_eq_true_2 by done.
  assert (rfind (lit "/") path = Some (length ("/"%char :: p))) as -> by exact (rfind_char "/"%char ("/"%char :: p) name Hslash).
  rewrite ReadProcessCmdline_text by done.
  assert (drop (S (length ("/"%char :: p))) path = name) as ->; [|done].
  unfold path. change ("/"%char :: p ++ "/"%char :: name) with (("/"%char :: p) ++ ["/"%char] ++ name).
  rewrite app_assoc. apply drop_app_length'. rewrite length_app. simpl. lia.
Qed.

(** ** Witnesses *)

Module Witnesses.
#[local] Existing Instance little_endian.

Definition sp : str := lit " ".
Definition more : list (str * str) :=
  [(sp, lit "00000000:00000000"); (sp, lit "00:00000000"); (sp, lit "00000000"); (lit "     ", lit "0"); (lit "        ", lit "0")].

(** 0.0.0.0:8080 listens; 10.0.0.1:8080 is connected to 8.8.8.8:40000. *)
Definition listen_line : file_line :=
  mkFileLine (mkProcLine (lit "   ") (lit "0:") sp [0] 8080 sp [0] 0 sp TCP_LISTEN more sp 7) (lit " 1 0").
Definition conn_line : file_line :=
  mkFileLine (mkProcLine (lit "   ") (lit "1:") sp [16777226] 8080 sp [134744072] 40000 sp TCP_ESTABLISHED more sp 9) [].

Lemma sp_ok : sep_ok sp.
Proof. split; [done|reflexivity]. Qed.

Lemma more_ok : Forall (fun e => sep_ok e.1 /\ field_ok e.2 /\ e.2 <> []) more.
Proof. repeat (apply Forall_cons_2; [split; [split; [done|reflexivity]|split; [reflexivity|done]]|]). constructor. Qed.

Lemma word_ok w : word 32 w -> words_ok Family.IPV4 [w].
Proof. intros Hw. split; [done|]. split; [reflexivity|]. apply Forall_cons_2; [done|constructor]. Qed.

Lemma listen_line_ok : file_line_ok Family.IPV4 listen_line.
Proof.
  split_and!.
  - split; cbn; try done.
    + repeat (apply Forall_cons_2; [exact sp_ok|]). constructor.
    + split; [apply word_ok|]; unfold word; lia.
    + split; [apply word_ok|]; unfold word; lia.
    + split; [reflexivity|exact more_ok].
  - right. by exists " "%char, (lit "1 0").
  - apply find_char_None. vm_compute. reflexivity.
  - vm_compute. lia.
Qed.

Lemma conn_line_ok : file_line_ok Family.IPV4 conn_line.
Proof.
  split_and!.
  - split; cbn; try done.
    + repeat (apply Forall_cons_2; [exact sp_ok|]). constructor.
    + split; [apply word_ok|]; unfold word; lia.
    + split; [apply word_ok|]; unfold word; lia.
    + split; [reflexivity|exact more_ok].
  - by left.
  - apply find_char_None. vm_compute. reflexivity.
  - vm_compute. lia.
Qed.

Lemma ReadConnections_witness :
  exists conns listens,
    ReadConnectionsFromFile Family.IPV4 L4Proto.TCP [] (lit "sl" ++ newline :: file_text [listen_line; conn_line]) [] (Some [])
      = Some (true, conns, Some listens)
    /\ ci_is_server <$> Lookup conns 9 = Some true /\ ei_endpoint <$> Lookup listens 7 = Some (Endpoint_addr (Any Family.IPV4) 8080).
Proof.
  destruct (ReadConnections_spec Family.IPV4 L4Proto.TCP [] (lit "sl") [listen_line] [conn_line])
    as (conns & listens & E & Hc & Hl).
  - apply find_char_None. reflexivity.
  - vm_compute. lia.
  - apply Forall_cons_2; [split; [exact listen_line_ok|reflexivity]|constructor].
  - apply Forall_cons_2; [split; [exact conn_line_ok|discriminate]|constructor].
  - exists conns, listens. split; [exact E|]. rewrite Hc, Hl. split; vm_compute; reflexivity.
Defined.

Definition hex64 : str := concat (replicate 16 (lit "abcd")).
Definition dir1 : proc_dir :=
  mkProcDir None (Some (lit "0::/docker/" ++ hex64)) None None None None None
    (Some (lit "/usr/bin/curl")) (Some (cmdline_text (lit "curl") [lit "-s"; lit "host"])).

Lemma ProcessScrape_witness :
  ProcessScrape (Some dir1) 42 (mkProcessInfo [] [] [] [] [] 0) CollectorStats_new
  = (true, mkProcessInfo [] (lit "curl") (lit "curl") (lit "/usr/bin/curl") (lit "-s host") 42, CollectorStats_new).
Proof.
  refine (ProcessScrape_spec dir1 42 (mkProcessInfo [] [] [] [] [] 0) CollectorStats_new (lit "abcdabcdabcd") (lit "usr/bin")
    (lit "curl") (lit "curl") [lit "-s"; lit "host"] _ _ _ _ _).
  - vm_compute. reflexivity.
  - reflexivity.
  - split; [apply find_char_None; reflexivity|]. split; [apply find_char_None; reflexivity|].
    apply Nat.ltb_lt. vm_compute. reflexivity.
  - reflexivity.
  - split; [apply find_char_None; reflexivity|].
    repeat (apply Forall_cons_2; [split; [apply find_char_None; reflexivity|discriminate]|]). constructor.
Defined.
End Witnesses.
