(* ===== verification/Duplex.v ===== *)
(** * Duplex gRPC clients

    The client of bidirectional streams, [collector/lib/DuplexGRPC.h].  The gRPC
    library is the environment: an operation that is started is outstanding until the
    completion queue returns its event; the results of [AsyncNext] are inputs.  The
    flag word of the client, which decides what may be started, is translated bit by
    bit, and the steps of the client form a transition system over it. *)

From S2P Require Import Prelude Containers Utility.

(** ** Operations, flags and results *)

Inductive Op : Set := START | READ | WRITE | WRITES_DONE | FINISH | SHUTDOWN.

#[export] Instance Op_eq_dec : EqDecision Op.
Proof. solve_decision. Defined.

Definition op_index (op : Op) : Z :=
  match op with START => 0 | READ => 1 | WRITE => 2 | WRITES_DONE => 3 | FINISH => 4 | SHUTDOWN => 5 end.

Definition kNumOps : Z := 6.

(** The tag of an operation, and the operation of a tag. *)
Definition OpToTag (op : Op) : Z := op_index op.
Definition TagToOp (tag : Z) : option Op :=
  if tag =? 0 then Some START else if tag =? 1 then Some READ else if tag =? 2 then Some WRITE
  else if tag =? 3 then Some WRITES_DONE else if tag =? 4 then Some FINISH
  else if tag =? 5 then Some SHUTDOWN else None.

(** [Flags] is a [uint32_t]. *)
Definition Done (op : Op) : Z := Z.shiftl 1 (op_index op).
Definition Pending (op : Op) : Z := Z.shiftl 1 (op_index op + kNumOps).
Definition STREAM_ERROR : Z := Z.shiftl 1 31.

Inductive OpError : Set := OP_OK | OP_ALREADY_PENDING | OP_ALREADY_DONE | OP_ILLEGAL_STATE | OP_SHUTDOWN.

#[export] Instance OpError_eq_dec : EqDecision OpError.
Proof. solve_decision. Defined.

Record OpDescriptor := mkOpDescriptor { od_op : Op; od_error : OpError }.
Record OpResult := mkOpResult { or_op : Op; or_ok : bool }.

Inductive Status : Set :=
| S_OK | S_ALREADY_PENDING | S_ALREADY_DONE | S_ERROR | S_TIMEOUT | S_ILLEGAL_STATE | S_SHUTDOWN | S_INTERNAL_ERROR.

#[export] Instance Status_eq_dec : EqDecision Status.
Proof. solve_decision. Defined.

(** A [Result] wraps a status. *)
Definition result_ok (s : Status) : bool := bool_decide (s = S_OK).
Definition result_done (s : Status) : bool := bool_decide (s = S_OK) || bool_decide (s = S_ALREADY_DONE).
Definition IsTimeout (s : Status) : bool := bool_decide (s = S_TIMEOUT).

Definition Result_bool (ok : bool) : Status := if ok then S_OK else S_ERROR.

Definition Result_op (e : OpError) : Status :=
  match e with
  | OP_OK => S_OK
  | OP_ALREADY_PENDING => S_ALREADY_PENDING
  | OP_ALREADY_DONE => S_ALREADY_DONE
  | OP_ILLEGAL_STATE => S_ILLEGAL_STATE
  | OP_SHUTDOWN => S_SHUTDOWN
  end.

(** The codes of [grpc::Status] the client makes; [CODE_OTHER] stands for those a
    server sends. *)
Inductive StatusCode : Set := CODE_OK | CODE_UNKNOWN | CODE_DEADLINE_EXCEEDED | CODE_OTHER (code : Z).
Record grpc_status := mkGrpcStatus { gs_code : StatusCode; gs_message : str }.

Definition gs_ok (s : grpc_status) : bool := match gs_code s with CODE_OK => true | _ => false end.

Section Client.
Context {R : Type}.

(** ** The completion queue *)

(** A completed operation, with the message a read has stored and the status a
    finish has stored. *)
Record event := mkEvent { ev_op : Op; ev_ok : bool; ev_message : R; ev_status : grpc_status }.

Inductive NextStatus : Type := CQ_SHUTDOWN | CQ_TIMEOUT | GOT_EVENT (e : event).

Definition Result_next (n : NextStatus) : Status :=
  match n with CQ_SHUTDOWN => S_SHUTDOWN | CQ_TIMEOUT => S_TIMEOUT | GOT_EVENT _ => S_OK end.

(** ** The client *)

(** [outstanding] are the operations gRPC is working on, [cq_shutdown] says that
    the queue was shut down, and [calls] are the calls of the read callback, [None] for
    the null pointer. *)
Record client := mkClient {
  flags_ : Z;
  status_ : grpc_status;
  read_callback_ : bool;
  read_buf_ : option R;
  read_buf_valid_ : bool;
  outstanding : list Op;
  cq_shutdown : bool;
  calls : list (option R)
}.

Definition set_flags (fl : Z) (c : client) : client :=
  mkClient fl (status_ c) (read_callback_ c) (read_buf_ c) (read_buf_valid_ c) (outstanding c) (cq_shutdown c) (calls c).
Definition set_status (s : grpc_status) (c : client) : client :=
  mkClient (flags_ c) s (read_callback_ c) (read_buf_ c) (read_buf_valid_ c) (outstanding c) (cq_shutdown c) (calls c).
Definition set_buf (b : option R) (valid : bool) (c : client) : client :=
  mkClient (flags_ c) (status_ c) (read_callback_ c) b valid (outstanding c) (cq_shutdown c) (calls c).
Definition set_outstanding (ops : list Op) (c : client) : client :=
  mkClient (flags_ c) (status_ c) (read_callback_ c) (read_buf_ c) (read_buf_valid_ c) ops (cq_shutdown c) (calls c).
Definition set_cq_shutdown (c : client) : client :=
  mkClient (flags_ c) (status_ c) (read_callback_ c) (read_buf_ c) (read_buf_valid_ c) (outstanding c) true (calls c).
Definition add_call (m : option R) (c : client) : client :=
  mkClient (flags_ c) (status_ c) (read_callback_ c) (read_buf_ c) (read_buf_valid_ c) (outstanding c) (cq_shutdown c)
    (calls c ++ [m]).

(** [SetFlags] and [ClearFlags] return the flags that changed. *)
Definition SetFlags (fl : Z) (c : client) : client * Z :=
  (set_flags (Z.lor (flags_ c) fl) c, Z.land fl (wnot 32 (flags_ c))).
Definition ClearFlags (fl : Z) (c : client) : client * Z :=
  (set_flags (Z.land (flags_ c) (wnot 32 fl)) c, Z.land fl (flags_ c)).
Definition CheckFlags (fl : Z) (c : client) : Z := Z.land (flags_ c) fl.

(** The call into gRPC. *)
Definition issue (op : Op) (c : client) : client := set_outstanding (outstanding c ++ [op]) c.

Definition DoAsync (idempotent : bool) (op : Op) (c : client) : client * OpDescriptor :=
  if idempotent && negb (CheckFlags (Done op) c =? 0) then (c, mkOpDescriptor op OP_ALREADY_DONE)
  else if negb (CheckFlags (Pending op) c =? 0) then (c, mkOpDescriptor op OP_ALREADY_PENDING)
  else if negb (CheckFlags (Z.lor (Done SHUTDOWN) (Pending SHUTDOWN)) c =? 0) then (c, mkOpDescriptor op OP_SHUTDOWN)
  else if negb (CheckFlags (Z.lor (Done FINISH) (Pending FINISH)) c =? 0) then (c, mkOpDescriptor op OP_ILLEGAL_STATE)
  else
    let c := (ClearFlags (Done op) c).1 in
    let c := (SetFlags (Pending op) c).1 in
    (issue op c, mkOpDescriptor op OP_OK).

(** The template arguments: a write, a read and a finish pass a parameter. *)
Definition WriteAsyncInternal : client -> client * OpDescriptor := DoAsync false WRITE.
Definition WritesDoneAsyncInternal : client -> client * OpDescriptor := DoAsync true WRITES_DONE.
Definition FinishAsyncInternal : client -> client * OpDescriptor := DoAsync false FINISH.
Definition ReadAsyncInternal : client -> client * OpDescriptor := DoAsync false READ.

Definition ReadNext (c : client) : client := (ReadAsyncInternal (set_buf (read_buf_ c) false c)).1.

(** The constructor. *)
Definition client_new (read_callback : bool) : client :=
  let c := mkClient 0 (mkGrpcStatus CODE_OK []) read_callback None false [] false [] in
  let c := issue START c in
  let c := (SetFlags (Pending START) c).1 in
  ReadNext c.

(** ** Events *)

Definition HandleRead (ok : bool) (c : client) : client :=
  if read_callback_ c then ReadNext (add_call (if ok then read_buf_ c else None) c)
  else set_buf (read_buf_ c) ok c.

Definition HandleFinish (ok : bool) (c : client) : client :=
  if negb ok && gs_ok (status_ c)
  then set_status (mkGrpcStatus CODE_UNKNOWN (lit "Finish operation unsuccessful")) c else c.

Definition ProcessEvent (op : Op) (ok : bool) (c : client) : client :=
  let '(c, fl) := if negb ok then ((FinishAsyncInternal c).1, Z.lor (Done op) STREAM_ERROR) else (c, Done op) in
  let c := (ClearFlags (Pending op) c).1 in
  let c := (SetFlags fl c).1 in
  match op with
  | READ => HandleRead ok c
  | FINISH => HandleFinish ok c
  | _ => c
  end.

Fixpoint remove_one (op : Op) (l : list Op) : list Op :=
  match l with
  | [] => []
  | x :: l => if bool_decide (x = op) then l else x :: remove_one op l
  end.

(** [AsyncNext] hands over an event: the operation is no longer outstanding and
    its result is stored. *)
Definition complete (e : event) (c : client) : client :=
  let c := set_outstanding (remove_one (ev_op e) (outstanding c)) c in
  match ev_op e with
  | READ => set_buf (if ev_ok e then Some (ev_message e) else read_buf_ c) (read_buf_valid_ c) c
  | FINISH => set_status (ev_status e) c
  | _ => c
  end.

(** [ProcessSingle]: the client, the result, and the completed operation. *)
Definition ProcessSingle (next : NextStatus) (c : client) : client * Status * option OpResult :=
  match next with
  | GOT_EVENT e => (ProcessEvent (ev_op e) (ev_ok e) (complete e c), S_OK, Some (mkOpResult (ev_op e) (ev_ok e)))
  | CQ_SHUTDOWN => ((SetFlags (Done SHUTDOWN) c).1, S_SHUTDOWN, None)
  | CQ_TIMEOUT => (c, S_TIMEOUT, None)
  end.

(** ** Synchronous operations

    They take the results [AsyncNext] will return; [None] is a call that is
    still waiting when these are used up. *)

Fixpoint Poll (flags_checker : Z -> bool) (nexts : list NextStatus) (c : client) : option (client * Status * list NextStatus) :=
  match nexts with
  | [] => None
  | n :: nexts =>
      let '(c, res, _) := ProcessSingle n c in
      if result_ok res && negb (flags_checker (flags_ c)) then Poll flags_checker nexts c else Some (c, res, nexts)
  end.

Definition PollAny (desired : Z) := Poll (fun fl => negb (Z.land fl desired =? 0)).
Definition PollAll (desired : Z) := Poll (fun fl => Z.land fl desired =? desired).

Definition WaitUntilStarted := PollAll (Done START).
Definition WaitUntilFinished := PollAll (Done FINISH).

Definition Sleep (nexts : list NextStatus) (c : client) : option (client * bool * list NextStatus) :=
  match PollAny (Z.lor STREAM_ERROR (Done FINISH)) nexts c with
  | None => None
  | Some (c, res, nexts) => Some (c, IsTimeout res, nexts)
  end.

Fixpoint await (op : Op) (nexts : list NextStatus) (c : client) : option (client * Status * list NextStatus) :=
  match nexts with
  | [] => None
  | n :: nexts =>
      let '(c, res, op_res) := ProcessSingle n c in
      match op_res with
      | Some r => if bool_decide (or_op r = op) then Some (c, Result_bool (or_ok r), nexts) else await op nexts c
      | None => Some (c, res, nexts)
      end
  end.

Definition DoSync (idempotent : bool) (async_method : client -> client * OpDescriptor)
    (nexts : list NextStatus) (c : client) : option (client * Status * list NextStatus) :=
  let '(c, op_desc) := async_method c in
  let err := if idempotent && bool_decide (od_error op_desc = OP_ALREADY_PENDING) then OP_OK else od_error op_desc in
  if negb (bool_decide (err = OP_OK)) then Some (c, Result_op err, nexts)
  else await (od_op op_desc) nexts c.

Definition Write := DoSync false WriteAsyncInternal.
Definition WriteAsync (c : client) : client * Status :=
  let '(c, d) := WriteAsyncInternal c in (c, Result_op (od_error d)).
Definition WritesDone := DoSync true WritesDoneAsyncInternal.
Definition WritesDoneAsync (c : client) : client * Status :=
  let '(c, d) := WritesDoneAsyncInternal c in (c, Result_op (od_error d)).
Definition FinishAsync (c : client) : client * Status :=
  let '(c, d) := FinishAsyncInternal c in (c, Result_op (od_error d)).

(** [grpc::Status Finish(deadline)]. *)
Definition Finish (nexts : list NextStatus) (c : client) : option (client * grpc_status * list NextStatus) :=
  match DoSync true FinishAsyncInternal nexts c with
  | None => None
  | Some (c, res, nexts) =>
      Some (c, if result_ok res then status_ c
               else if IsTimeout res then mkGrpcStatus CODE_DEADLINE_EXCEEDED (lit "timed out waiting for operation status")
               else mkGrpcStatus CODE_UNKNOWN (lit "unknown error retrieving status"), nexts)
  end.

Definition Shutdown (c : client) : client * Status :=
  if negb (CheckFlags (Done SHUTDOWN) c =? 0) then (c, S_ALREADY_DONE)
  else
    let '(c, new_flags) := SetFlags (Pending SHUTDOWN) c in
    if new_flags =? 0 then (c, S_ALREADY_PENDING) else (set_cq_shutdown c, S_OK).

Definition Read (nexts : list NextStatus) (c : client) : option (client * Status * option R * list NextStatus) :=
  if read_callback_ c then Some (c, S_ILLEGAL_STATE, None, nexts)
  else
    match PollAll (Done READ) nexts c with
    | None => None
    | Some (c, result, nexts) =>
        if negb (result_ok result) then Some (c, result, None, nexts)
        else if negb (read_buf_valid_ c) then Some (c, S_ERROR, None, nexts)
        else Some (ReadNext c, S_OK, read_buf_ c, nexts)
    end.

(** The loop of the destructor. *)
Fixpoint drain (nexts : list NextStatus) (c : client) : option (client * list NextStatus) :=
  match nexts with
  | [] => None
  | n :: nexts => let '(c, res, _) := ProcessSingle n c in if result_ok res then drain nexts c else Some (c, nexts)
  end.

Definition destructor (nexts : list NextStatus) (c : client) : option (client * list NextStatus) :=
  drain nexts (Shutdown c).1.
End Client.

(** ** Lemmas *)

(** *** The bits of the flag word *)

Definition dn (fl : Z) (op : Op) : bool := Z.testbit fl (op_index op).
Definition pd (fl : Z) (op : Op) : bool := Z.testbit fl (op_index op + kNumOps).
Definition er (fl : Z) : bool := Z.testbit fl 31.

Lemma testbit_pow k n : 0 <= k -> 0 <= n -> Z.testbit (Z.shiftl 1 k) n = (k =? n).
Proof. intros. rewrite Z.shiftl_1_l. by apply Z.pow2_bits_eqb. Qed.

Lemma check_pow fl k : 0 <= k -> negb (Z.land fl (Z.shiftl 1 k) =? 0) = Z.testbit fl k.
Proof.
  intros Hk. destruct (Z.testbit fl k) eqn:E.
  - apply negb_true_iff, Z.eqb_neq. intros E0. apply (f_equal (fun z => Z.testbit z k)) in E0.
    rewrite Z.land_spec, testbit_pow, Z.eqb_refl, E, Z.bits_0 in E0 by done. done.
  - apply negb_false_iff, Z.eqb_eq. apply Z.bits_inj'. intros n Hn.
    rewrite Z.land_spec, testbit_pow, Z.bits_0 by done. destruct (Z.eqb_spec k n) as [->|]; [by rewrite E|apply andb_false_r].
Qed.

Lemma check_lor fl a b : negb (Z.land fl (Z.lor a b) =? 0) = negb (Z.land fl a =? 0) || negb (Z.land fl b =? 0).
Proof.
  rewrite Z.land_lor_distr_r. destruct (Z.eqb_spec (Z.land fl a) 0) as [->|Ha]; simpl.
  - by rewrite Z.lor_0_l.
  - apply negb_true_iff, Z.eqb_neq. intros E. by apply Z.lor_eq_0_iff in E as [E _].
Qed.

Lemma op_index_bound op : 0 <= op_index op <= 5.
Proof. destruct op; simpl; lia. Qed.

Lemma op_index_eqb a b : (op_index a =? op_index b) = bool_decide (a = b).
Proof. by destruct a, b. Qed.

Lemma index_pending_ne a b : (op_index a =? op_index b + kNumOps) = false.
Proof. apply Z.eqb_neq. pose proof (op_index_bound a). pose proof (op_index_bound b). unfold kNumOps. lia. Qed.

Lemma pending_eqb a b : (op_index a + kNumOps =? op_index b + kNumOps) = bool_decide (a = b).
Proof. rewrite <- op_index_eqb. destruct (Z.eqb_spec (op_index a) (op_index b)); [by subst; apply Z.eqb_eq; lia|apply Z.eqb_neq; lia]. Qed.

Lemma Done_bits o op : dn (Done o) op = bool_decide (o = op) /\ pd (Done o) op = false /\ er (Done o) = false.
Proof. by destruct o, op. Qed.

Lemma Pending_bits o op : dn (Pending o) op = false /\ pd (Pending o) op = bool_decide (o = op) /\ er (Pending o) = false.
Proof. by destruct o, op. Qed.

Lemma Error_bits op : dn STREAM_ERROR op = false /\ pd STREAM_ERROR op = false /\ er STREAM_ERROR = true.
Proof. by destruct op. Qed.

Lemma lor_bits a b op :
  dn (Z.lor a b) op = dn a op || dn b op /\ pd (Z.lor a b) op = pd a op || pd b op /\ er (Z.lor a b) = er a || er b.
Proof. unfold dn, pd, er. by rewrite !Z.lor_spec. Qed.

Lemma clear_bits a b op :
  dn (Z.land a (wnot 32 b)) op = dn a op && negb (dn b op)
  /\ pd (Z.land a (wnot 32 b)) op = pd a op && negb (pd b op)
  /\ er (Z.land a (wnot 32 b)) = er a && negb (er b).
Proof.
  unfold dn, pd, er, wnot, kNumOps. pose proof (op_index_bound op).
  rewrite !Z.land_spec, !Z.ldiff_spec, !Z.ones_spec_low by lia. done.
Qed.

Lemma check_Done fl op : negb (Z.land fl (Done op) =? 0) = dn fl op.
Proof. apply check_pow. pose proof (op_index_bound op). lia. Qed.

Lemma check_Pending fl op : negb (Z.land fl (Pending op) =? 0) = pd fl op.
Proof. apply check_pow. pose proof (op_index_bound op). unfold kNumOps. lia. Qed.

Section ClientLemmas.
Context {R : Type}.
Abbreviation client := (@client R).

(** Nothing can be started any more. *)
Definition closed (c : client) : bool :=
  dn (flags_ c) SHUTDOWN || pd (flags_ c) SHUTDOWN || dn (flags_ c) FINISH || pd (flags_ c) FINISH.

(** An asynchronous operation is started, or the client does not change. *)
Lemma DoAsync_cases idem op (c : client) :
  let '(c', d) := DoAsync idem op c in
  od_op d = op
  /\ ((od_error d = OP_OK /\ pd (flags_ c) op = false /\ closed c = false
       /\ exists fl, c' = issue op (set_flags fl c)
          /\ (forall o, dn fl o = dn (flags_ c) o && negb (bool_decide (op = o))
                        /\ pd fl o = pd (flags_ c) o || bool_decide (op = o))
          /\ er fl = er (flags_ c))
      \/ (od_error d <> OP_OK /\ c' = c /\ (pd (flags_ c) op = false -> idem && dn (flags_ c) op = false -> closed c = true))).
Proof.
  unfold DoAsync, CheckFlags, closed. rewrite !check_lor, !check_Done, !check_Pending.
  destruct (idem && dn (flags_ c) op) eqn:Ei; [split; [done|right; by split_and!]|].
  destruct (pd (flags_ c) op) eqn:Ep; [split; [done|right; by split_and!]|].
  destruct (dn (flags_ c) SHUTDOWN || pd (flags_ c) SHUTDOWN) eqn:Es; cbn [orb].
  { split; [done|right]. split_and!; try done. }
  destruct (dn (flags_ c) FINISH || pd (flags_ c) FINISH) eqn:Ef; [split; [done|right]; split_and!; done|].
  split; [done|left]. split_and!; [done|done|done|].
  eexists. split; [unfold SetFlags, ClearFlags; cbn [fst flags_ set_flags]; reflexivity|]. split.
  - intros o. destruct (lor_bits (Z.land (flags_ c) (wnot 32 (Done op))) (Pending op) o) as (-> & -> & _).
    destruct (clear_bits (flags_ c) (Done op) o) as (-> & -> & _).
    destruct (Done_bits op o) as (-> & -> & _), (Pending_bits op o) as (-> & -> & _).
    by rewrite orb_false_r, andb_true_r.
  - destruct (lor_bits (Z.land (flags_ c) (wnot 32 (Done op))) (Pending op) START) as (_ & _ & ->).
    destruct (clear_bits (flags_ c) (Done op) START) as (_ & _ & ->).
    destruct (Done_bits op START) as (_ & _ & ->), (Pending_bits op START) as (_ & _ & ->).
    by rewrite orb_false_r, andb_true_r.
Qed.

(** *** The invariant *)

(** [x] is an operation whose event is being processed: it is no longer
    outstanding and still marked as pending. *)
Record inv_x (x : option Op) (c : client) : Prop := {
  i_nodup : NoDup (outstanding c);
  i_noshut : SHUTDOWN ∉ outstanding c;
  i_pending : forall op, op <> SHUTDOWN -> (pd (flags_ c) op = true <-> op ∈ outstanding c \/ x = Some op);
  i_x : forall op, x = Some op -> (op ∉ outstanding c) /\ op <> SHUTDOWN;
  i_shut : pd (flags_ c) SHUTDOWN = cq_shutdown c;
  i_shutdone : dn (flags_ c) SHUTDOWN = true -> cq_shutdown c = true;
  i_error : er (flags_ c) = true -> closed c = true;
  i_buf : read_buf_valid_ c = true -> READ ∉ outstanding c;
  i_calls : exists ms, calls c = map Some ms
                       \/ (calls c = map Some ms ++ [None] /\ closed c = true /\ READ ∉ outstanding c)
}.

Abbreviation inv := (inv_x None).

Lemma DoAsync_closed idem op (c : client) : closed c = true -> (DoAsync idem op c).1 = c.
Proof.
  intros Hc. pose proof (DoAsync_cases idem op c) as Hd. destruct (DoAsync idem op c) as [c' d].
  destruct Hd as (_ & [(_ & _ & E & _)|(_ & E & _)]); [congruence|done].
Qed.

Lemma DoAsync_inv x idem op (c : client) :
  inv_x x c -> op <> SHUTDOWN -> (op = READ -> read_buf_valid_ c = false) -> inv_x x (DoAsync idem op c).1.
Proof.
  intros Hi Hop Hread. pose proof (DoAsync_cases idem op c) as Hd. destruct (DoAsync idem op c) as [c' d].
  destruct Hd as (_ & [(_ & Ep & Ecl & fl & -> & Hfl & Her)|(_ & -> & _)]); [|done].
  destruct Hi as [Hn Hns Hp Hx Hs Hsd Herr Hb Hcalls].
  assert ((op ∉ outstanding c) /\ x <> Some op) as [Hni Hnx].
  { split; intros Hx'; assert (pd (flags_ c) op = true) by (apply Hp; auto); congruence. }
  unfold issue, set_flags, set_outstanding. cbn [fst]. split; cbn [flags_ outstanding cq_shutdown read_buf_valid_ calls].
  - apply NoDup_app. split_and!; [done|set_solver|apply NoDup_singleton].
  - set_solver.
  - intros o Ho. destruct (Hfl o) as [_ ->]. rewrite orb_true_iff, (Hp o Ho), bool_decide_eq_true. set_solver.
  - intros o E. destruct (Hx o E) as [Hx1 Hx2]. split; [|done]. intros Hin. apply elem_of_app in Hin as [?|Hin]; [done|].
    apply list_elem_of_singleton in Hin as ->. congruence.
  - destruct (Hfl SHUTDOWN) as [_ ->]. by rewrite bool_decide_eq_false_2, orb_false_r.
  - destruct (Hfl SHUTDOWN) as [-> _]. intros E. apply andb_true_iff in E as [E _]. by apply Hsd.
  - rewrite Her. intros E. apply Herr in E. congruence.
  - intros E. destruct (decide (op = READ)) as [->|]; [by rewrite Hread in E|]. specialize (Hb E). set_solver.
  - destruct Hcalls as (ms & [E|(_ & E & _)]); [by exists ms; left|congruence].
Qed.

Lemma remove_one_spec op o l :
  NoDup l -> (o ∈ remove_one op l <-> o ∈ l /\ o <> op) /\ NoDup (remove_one op l)
             /\ (op ∈ l -> length l = S (length (remove_one op l))).
Proof.
  induction 1 as [|x l Hx Hl IH]; simpl; [split_and!; [set_solver|constructor|set_solver]|].
  destruct IH as (IH1 & IH2 & IH3). case_bool_decide as E.
  - subst x. split_and!; [set_solver|done|done].
  - split_and!.
    + rewrite !elem_of_cons, IH1. naive_solver.
    + constructor; [|done]. intros Hin. clear IH1 IH3. revert Hx Hin. clear. induction l as [|y l IH]; simpl; [done|].
      case_bool_decide; set_solver.
    + intros Hin. apply elem_of_cons in Hin as [->|Hin]; [done|]. simpl. by rewrite IH3.
Qed.

Lemma complete_inv e (c : client) :
  inv c -> ev_op e ∈ outstanding c -> inv_x (Some (ev_op e)) (complete e c).
Proof.
  intros [Hn Hns Hp Hx Hs Hsd Herr Hb Hcalls] Hin.
  assert (ev_op e <> SHUTDOWN) as Hne by congruence.
  assert (inv_x (Some (ev_op e)) (set_outstanding (remove_one (ev_op e) (outstanding c)) c)) as Hc.
  { split; cbn [flags_ outstanding cq_shutdown read_buf_valid_ calls set_outstanding].
    - by apply (remove_one_spec (ev_op e) START).
    - rewrite (proj1 (remove_one_spec _ _ _ Hn)). tauto.
    - intros op Ho. rewrite (proj1 (remove_one_spec _ _ _ Hn)), (Hp op Ho).
      destruct (decide (op = ev_op e)) as [->|]; naive_solver.
    - intros op E. injection E as <-. rewrite (proj1 (remove_one_spec _ _ _ Hn)). tauto.
    - done.
    - done.
    - done.
    - intros E. specialize (Hb E). rewrite (proj1 (remove_one_spec _ _ _ Hn)). tauto.
    - destruct Hcalls as (ms & [E|(E1 & E2 & E3)]); exists ms; [by left|right].
      split_and!; [done|done|]. rewrite (proj1 (remove_one_spec _ _ _ Hn)). tauto. }
  unfold complete. destruct (ev_op e); try exact Hc; destruct Hc as [? ? ? ? ? ? ? ? ?]; by split.
Qed.

(** The change of the flags when an event is processed. *)
Definition mark (op : Op) (err : bool) (c : client) : client :=
  (SetFlags (if err then Z.lor (Done op) STREAM_ERROR else Done op) (ClearFlags (Pending op) c).1).1.

Lemma mark_bits op err (c : client) o :
  dn (flags_ (mark op err c)) o = dn (flags_ c) o || bool_decide (op = o)
  /\ pd (flags_ (mark op err c)) o = pd (flags_ c) o && negb (bool_decide (op = o))
  /\ er (flags_ (mark op err c)) = er (flags_ c) || err.
Proof.
  unfold mark, SetFlags, ClearFlags. cbn [fst flags_ set_flags].
  set (fl := if err then _ else _).
  assert (dn fl o = bool_decide (op = o) /\ pd fl o = false /\ er fl = err) as (E1 & E2 & E3).
  { unfold fl. destruct err; [|apply Done_bits].
    destruct (lor_bits (Done op) STREAM_ERROR o) as (-> & -> & ->), (Done_bits op o) as (-> & -> & ->), (Error_bits o) as (-> & -> & ->).
    by rewrite orb_false_r. }
  destruct (lor_bits (Z.land (flags_ c) (wnot 32 (Pending op))) fl o) as (-> & -> & ->).
  destruct (clear_bits (flags_ c) (Pending op) o) as (-> & -> & ->), (Pending_bits op o) as (-> & -> & ->).
  by rewrite E1, E2, E3, ?andb_true_r, ?orb_false_r.
Qed.

Lemma mark_closed op err (c : client) : closed c = true -> closed (mark op err c) = true.
Proof.
  unfold closed. destruct (mark_bits op err c SHUTDOWN) as (-> & -> & _), (mark_bits op err c FINISH) as (-> & -> & _).
  destruct op; rewrite ?bool_decide_eq_false_2, ?bool_decide_eq_true_2 by done; cbn [negb];
    rewrite ?andb_true_r, ?andb_false_r, ?orb_true_r, ?orb_false_r; done.
Qed.

Lemma mark_inv op err (c : client) :
  inv_x (Some op) c -> (err = true -> closed c = true) -> inv (mark op err c).
Proof.
  intros [Hn Hns Hp Hx Hs Hsd Herr Hb Hcalls] He. destruct (Hx op eq_refl) as [Hni Hne].
  split; try done.
  - intros o Ho. destruct (mark_bits op err c o) as (_ & -> & _).
    rewrite andb_true_iff, negb_true_iff, bool_decide_eq_false, (Hp o Ho).
    change (outstanding (mark op err c)) with (outstanding c).
    split; [intros [[?|E] ?]; [by left|congruence]|]. intros [Hin|?]; [|done]. split; [by left|]. congruence.
  - destruct (mark_bits op err c SHUTDOWN) as (_ & -> & _). rewrite bool_decide_eq_false_2 by done.
    change (cq_shutdown (mark op err c)) with (cq_shutdown c). by rewrite andb_true_r.
  - destruct (mark_bits op err c SHUTDOWN) as (-> & _ & _). rewrite bool_decide_eq_false_2, orb_false_r by done. exact Hsd.
  - destruct (mark_bits op err c START) as (_ & _ & ->). intros E. apply mark_closed.
    apply orb_true_iff in E as [E|E]; auto.
  - destruct Hcalls as (ms & [E|(E1 & E2 & E3)]); exists ms; [by left|right].
    split_and!; [done|by apply mark_closed|done].
Qed.

Lemma ReadNext_inv (c : client) : inv c -> inv (ReadNext c).
Proof.
  intros Hi. apply DoAsync_inv; [|done|done]. destruct Hi as [? ? ? ? ? ? ? ? ?]. by split.
Qed.

Lemma ProcessEvent_unfold op ok (c : client) :
  ProcessEvent op ok c =
  let c1 := if ok then c else (FinishAsyncInternal c).1 in
  let c2 := mark op (negb ok) c1 in
  match op with READ => HandleRead ok c2 | FINISH => HandleFinish ok c2 | _ => c2 end.
Proof. unfold ProcessEvent, mark. by destruct ok. Qed.

(** After a failed operation nothing more can be started. *)
Lemma finish_closes x (c : client) :
  inv_x x c -> inv_x x (FinishAsyncInternal c).1 /\ closed (FinishAsyncInternal c).1 = true
               /\ (forall o, o ∈ outstanding (FinishAsyncInternal c).1 -> o ∈ outstanding c \/ o = FINISH)
               /\ calls (FinishAsyncInternal c).1 = calls c.
Proof.
  intros Hi. split; [by apply DoAsync_inv|]. unfold FinishAsyncInternal.
  pose proof (DoAsync_cases false FINISH c) as Hd. destruct (DoAsync false FINISH c) as [c' d].
  destruct Hd as (_ & [(_ & _ & _ & fl & -> & Hfl & _)|(_ & -> & Hcl)]).
  - split_and!; [|cbn; set_solver|done]. unfold closed. cbn [fst flags_ issue set_outstanding set_flags].
    destruct (Hfl FINISH) as [_ ->]. by rewrite bool_decide_eq_true_2, !orb_true_r by done.
  - split_and!; [|by left|done]. cbn [fst].
    destruct (pd (flags_ c) FINISH) eqn:E; [unfold closed; by rewrite E, !orb_true_r|]. by apply Hcl.
Qed.

(** The client when the handler of an event starts. *)
Lemma marked_inv op ok (c : client) :
  inv_x (Some op) c ->
  let c2 := mark op (negb ok) (if ok then c else (FinishAsyncInternal c).1) in
  inv c2 /\ (op = READ -> READ ∉ outstanding c2) /\ (ok = false -> closed c2 = true)
  /\ calls c2 = calls c /\ read_buf_ c2 = read_buf_ c /\ read_callback_ c2 = read_callback_ c.
Proof.
  intros Hi c2. pose proof (i_x _ _ Hi op eq_refl) as [Hni _]. unfold c2. destruct ok; cbn [negb].
  - split_and!; try done; [by apply mark_inv|by intros ->].
  - destruct (finish_closes _ c Hi) as (Hi' & Hcl & Ho & Hc).
    split_and!; [by apply mark_inv| |intros _; by apply mark_closed|exact Hc| |].
    + intros -> Hin. apply Ho in Hin as [?|?]; done.
    + unfold FinishAsyncInternal. pose proof (DoAsync_cases false FINISH c) as Hd.
      destruct (DoAsync false FINISH c) as [c' d]. by destruct Hd as (_ & [(_ & _ & _ & fl & -> & _)|(_ & -> & _)]).
    + unfold FinishAsyncInternal. pose proof (DoAsync_cases false FINISH c) as Hd.
      destruct (DoAsync false FINISH c) as [c' d]. by destruct Hd as (_ & [(_ & _ & _ & fl & -> & _)|(_ & -> & _)]).
Qed.

Lemma HandleFinish_inv ok (c : client) : inv c -> inv (HandleFinish ok c).
Proof. intros Hi. unfold HandleFinish. destruct (_ && _); [|done]. destruct Hi as [? ? ? ? ? ? ? ? ?]. by split. Qed.

Lemma add_call_inv m ms (c : client) :
  inv c -> calls c = map Some ms -> (READ ∉ outstanding c) -> (m = None -> closed c = true) -> inv (add_call m c).
Proof.
  intros [Hn Hns Hp Hx Hs Hsd Herr Hb Hcalls] Ec Hni Hm. split; try done. cbn [calls add_call]. rewrite Ec.
  destruct m as [x|]; [exists (ms ++ [x]); left; by rewrite map_app|exists ms; right].
  split_and!; [done|by apply Hm|done].
Qed.

Lemma ProcessEvent_inv e (c : client) :
  inv c -> ev_op e ∈ outstanding c -> inv (ProcessEvent (ev_op e) (ev_ok e) (complete e c)).
Proof.
  intros Hi Hin. rewrite ProcessEvent_unfold. cbv zeta.
  pose proof (complete_inv e c Hi Hin) as Hc.
  destruct (marked_inv (ev_op e) (ev_ok e) (complete e c) Hc) as (Hi2 & Hread & Hclosed & Ecalls & Ebuf & Ecb).
  set (c2 := mark (ev_op e) (negb (ev_ok e)) _) in *.
  destruct (ev_op e) eqn:Eop; try exact Hi2; [|by apply HandleFinish_inv].
  unfold HandleRead. destruct (read_callback_ c2).
  - apply ReadNext_inv.
    assert (exists ms, calls c = map Some ms) as (ms & Ems).
    { destruct (i_calls _ _ Hi) as (ms & [E|(_ & _ & E)]); [by exists ms|done]. }
    apply (add_call_inv _ ms); [done| |by apply Hread|].
    + rewrite Ecalls. unfold complete. by rewrite Eop.
    + destruct (ev_ok e) eqn:Eok; [|intros _; by apply Hclosed]. rewrite Ebuf. unfold complete. by rewrite Eop, Eok.
  - destruct Hi2 as [? ? ? ? ? ? ? ? ?]. split; try done. intros _. by apply Hread.
Qed.

(** *** Steps *)

(** What the completion queue may return: the event of an outstanding operation,
    and its shutdown once it was shut down and every event was returned. *)
Definition next_ok (n : @NextStatus R) (c : client) : Prop :=
  match n with
  | GOT_EVENT e => ev_op e ∈ outstanding c
  | CQ_SHUTDOWN => cq_shutdown c = true /\ outstanding c = []
  | CQ_TIMEOUT => True
  end.

Inductive step : client -> client -> Prop :=
| step_write c : step c (WriteAsyncInternal c).1
| step_writes_done c : step c (WritesDoneAsyncInternal c).1
| step_finish c : step c (FinishAsyncInternal c).1
| step_shutdown c : step c (Shutdown c).1
| step_read c : read_buf_valid_ c = true -> step c (ReadNext c)
| step_next n c : next_ok n c -> step c (ProcessSingle n c).1.1.

Definition reachable (b : bool) (c : client) : Prop := rtc step (client_new b) c.

Lemma Shutdown_inv (c : client) : inv c -> inv (Shutdown c).1.
Proof.
  intros Hi. unfold Shutdown, CheckFlags. rewrite check_Done. destruct (dn (flags_ c) SHUTDOWN); [done|].
  unfold SetFlags. cbv zeta iota beta.
  assert (forall o, dn (Z.lor (flags_ c) (Pending SHUTDOWN)) o = dn (flags_ c) o
                    /\ pd (Z.lor (flags_ c) (Pending SHUTDOWN)) o = pd (flags_ c) o || bool_decide (SHUTDOWN = o)) as Hb.
  { intros o. destruct (lor_bits (flags_ c) (Pending SHUTDOWN) o) as (-> & -> & _), (Pending_bits SHUTDOWN o) as (-> & -> & _).
    by rewrite orb_false_r. }
  assert (er (Z.lor (flags_ c) (Pending SHUTDOWN)) = er (flags_ c)) as Her.
  { destruct (lor_bits (flags_ c) (Pending SHUTDOWN) START) as (_ & _ & ->). apply orb_false_r. }
  assert (closed (set_cq_shutdown (set_flags (Z.lor (flags_ c) (Pending SHUTDOWN)) c)) = true) as Hcl.
  { unfold closed. cbn [flags_ set_cq_shutdown set_flags]. destruct (Hb SHUTDOWN) as [_ ->].
    by rewrite bool_decide_eq_true_2, !orb_true_r by done. }
  assert (pd (flags_ c) SHUTDOWN = true -> cq_shutdown c = true) as Hsh by (by rewrite (i_shut _ _ Hi)).
  assert (inv (set_cq_shutdown (set_flags (Z.lor (flags_ c) (Pending SHUTDOWN)) c))) as Hnew.
  { destruct Hi as [Hn Hns Hp Hx Hs Hsd Herr Hbuf Hcalls]. split; try done.
    - cbn [flags_ outstanding set_cq_shutdown set_flags]. intros o Ho. destruct (Hb o) as [_ ->].
      rewrite bool_decide_eq_false_2 by congruence. rewrite orb_false_r. by apply Hp.
    - cbn [flags_ cq_shutdown set_cq_shutdown set_flags]. destruct (Hb SHUTDOWN) as [_ ->].
      by rewrite bool_decide_eq_true_2, orb_true_r.
    - destruct Hcalls as (ms & [E|(E1 & E2 & E3)]); exists ms; [by left|right; by split_and!]. }
  destruct (Z.eqb_spec (Z.land (Pending SHUTDOWN) (wnot 32 (flags_ c))) 0) as [E0|E0]; cbn [fst]; [|exact Hnew].
  assert (cq_shutdown c = true) as Eq.
  { apply Hsh. apply (f_equal (fun z => Z.testbit z 11)) in E0.
    unfold wnot in E0. rewrite Z.land_spec, Z.ldiff_spec, Z.ones_spec_low, Z.bits_0 in E0 by lia.
    unfold pd. change (op_index SHUTDOWN + kNumOps) with 11.
    destruct (Z.testbit (flags_ c) 11); [done|]. by vm_compute in E0. }
  destruct c as [? ? ? ? ? ? cq ?]. cbn [cq_shutdown] in Eq. subst cq. exact Hnew.
Qed.

Lemma client_new_inv b : inv (client_new b).
Proof.
  apply ReadNext_inv. split; cbn [outstanding flags_ cq_shutdown read_buf_valid_ calls issue set_outstanding SetFlags set_flags fst app].
  - apply NoDup_singleton.
  - set_solver.
  - intros op _. rewrite list_elem_of_singleton. by destruct op; vm_compute; naive_solver.
  - done.
  - done.
  - done.
  - done.
  - done.
  - by exists []; left.
Qed.

Lemma shutdown_event_inv (c : client) : inv c -> cq_shutdown c = true -> inv (SetFlags (Done SHUTDOWN) c).1.
Proof.
  intros [Hn Hns Hp Hx Hs Hsd Herr Hbuf Hcalls] Eq. unfold SetFlags. cbn [fst].
  assert (forall o, pd (Z.lor (flags_ c) (Done SHUTDOWN)) o = pd (flags_ c) o) as Hpd.
  { intros o. destruct (lor_bits (flags_ c) (Done SHUTDOWN) o) as (_ & -> & _), (Done_bits SHUTDOWN o) as (_ & -> & _).
    apply orb_false_r. }
  assert (closed (set_flags (Z.lor (flags_ c) (Done SHUTDOWN)) c) = true) as Hcl.
  { unfold closed. cbn [flags_ set_flags]. rewrite Hpd, Hs, Eq. by rewrite orb_true_r. }
  split; try done; cbn [flags_ set_flags outstanding cq_shutdown].
  - intros op Ho. rewrite Hpd. by apply Hp.
  - by rewrite Hpd.
  - destruct Hcalls as (ms & [E|(E1 & E2 & E3)]); exists ms; [by left|right; by split_and!].
Qed.

Lemma step_inv (c c' : client) : inv c -> step c c' -> inv c'.
Proof.
  intros Hi Hs. destruct Hs as [c|c|c|c|c Hv|n c Hn].
  - by apply DoAsync_inv.
  - by apply DoAsync_inv.
  - by apply DoAsync_inv.
  - by apply Shutdown_inv.
  - by apply ReadNext_inv.
  - destruct n as [| |e]; cbn [ProcessSingle fst]; [|done|by apply ProcessEvent_inv].
    destruct Hn as [Hn _]. by apply shutdown_event_inv.
Qed.

Lemma reachable_inv b (c : client) : reachable b c -> inv c.
Proof.
  intros Hr. unfold reachable in Hr. pose proof (client_new_inv b) as Hi. induction Hr as [|x y z Hs _ IH]; [done|].
  apply IH. by apply (step_inv x).
Qed.

(** *** A closed client only drains *)

Lemma ReadNext_closed (c : client) : closed c = true -> ReadNext c = set_buf (read_buf_ c) false c.
Proof. intros Hc. by apply (DoAsync_closed false READ). Qed.

Lemma ProcessEvent_closed e (c : client) :
  closed c = true ->
  closed (ProcessEvent (ev_op e) (ev_ok e) (complete e c)) = true
  /\ outstanding (ProcessEvent (ev_op e) (ev_ok e) (complete e c)) = remove_one (ev_op e) (outstanding c).
Proof.
  intros Hc. rewrite ProcessEvent_unfold. cbv zeta.
  assert (closed (complete e c) = true) as Hc1 by (unfold complete; by destruct (ev_op e)).
  assert (outstanding (complete e c) = remove_one (ev_op e) (outstanding c)) as Ho by (unfold complete; by destruct (ev_op e)).
  assert ((if ev_ok e then complete e c else (FinishAsyncInternal (complete e c)).1) = complete e c) as ->.
  { destruct (ev_ok e); [done|]. by apply DoAsync_closed. }
  set (c2 := mark (ev_op e) (negb (ev_ok e)) (complete e c)).
  assert (closed c2 = true) as Hc2 by by apply mark_closed.
  assert (outstanding c2 = outstanding (complete e c)) as Ho2 by done. rewrite Ho in Ho2.
  destruct (ev_op e); try by split.
  - unfold HandleRead. destruct (read_callback_ c2); [|by split]. rewrite ReadNext_closed by exact Hc2. by split.
  - unfold HandleFinish. by destruct (negb _ && _).
Qed.

Lemma closed_step (c c' : client) :
  inv c -> closed c = true -> step c c' ->
  closed c' = true /\ (forall o, o ∈ outstanding c' -> o ∈ outstanding c).
Proof.
  intros Hi Hc Hs. destruct Hs as [c|c|c|c|c Hv|n c Hn].
  - unfold WriteAsyncInternal. by rewrite DoAsync_closed.
  - unfold WritesDoneAsyncInternal. by rewrite DoAsync_closed.
  - unfold FinishAsyncInternal. by rewrite DoAsync_closed.
  - unfold Shutdown. destruct (negb _); [done|]. unfold SetFlags. cbv zeta iota beta.
    assert (closed (set_flags (Z.lor (flags_ c) (Pending SHUTDOWN)) c) = true) as Hcl.
    { unfold closed. cbn [flags_ set_flags].
      destruct (lor_bits (flags_ c) (Pending SHUTDOWN) SHUTDOWN) as (_ & -> & _), (Pending_bits SHUTDOWN SHUTDOWN) as (_ & -> & _).
      by rewrite bool_decide_eq_true_2, !orb_true_r by done. }
    by destruct (_ =? 0).
  - by rewrite ReadNext_closed.
  - destruct n as [| |e]; cbn [ProcessSingle fst]; [|done|].
    + split; [|done]. unfold closed, SetFlags. cbn [fst flags_ set_flags].
      destruct (lor_bits (flags_ c) (Done SHUTDOWN) SHUTDOWN) as (-> & _), (Done_bits SHUTDOWN SHUTDOWN) as (-> & _).
      by rewrite bool_decide_eq_true_2, !orb_true_r by done.
    + destruct (ProcessEvent_closed e c Hc) as [-> ->]. split; [done|]. intros o Ho.
      by apply (remove_one_spec _ _ _ (i_nodup _ _ Hi)) in Ho as [? _].
Qed.

(** Results of [AsyncNext] that respect the queue. *)
Fixpoint legal (nexts : list (@NextStatus R)) (c : client) : Prop :=
  match nexts with
  | [] => True
  | n :: nexts => next_ok n c /\ legal nexts (ProcessSingle n c).1.1
  end.

Lemma drain_ends nexts (c : client) :
  inv c -> closed c = true -> legal nexts c -> (length (outstanding c) < length nexts)%nat ->
  exists c' rest, drain nexts c = Some (c', rest) /\ (length nexts <= length rest + S (length (outstanding c)))%nat.
Proof.
  revert c. induction nexts as [|n nexts IH]; intros c Hi Hc Hl Hlen; [simpl in Hlen; lia|].
  destruct Hl as [Hn Hl]. cbn [drain]. destruct n as [| |e]; cbn [ProcessSingle fst] in *.
  - do 2 eexists. split; [done|]. simpl. lia.
  - do 2 eexists. split; [done|]. simpl. lia.
  - change (result_ok S_OK) with true. cbv iota.
    destruct (ProcessEvent_closed e c Hc) as [Hc' Ho'].
    assert (length (outstanding c) = S (length (remove_one (ev_op e) (outstanding c)))) as El.
    { apply (remove_one_spec _ START _ (i_nodup _ _ Hi)). exact Hn. }
    simpl in Hlen.
    destruct (IH (ProcessEvent (ev_op e) (ev_ok e) (complete e c))) as (c' & rest & E & Hr).
    + by apply ProcessEvent_inv.
    + done.
    + done.
    + rewrite Ho'. lia.
    + exists c', rest. split; [done|]. rewrite Ho' in Hr. simpl. lia.
Qed.
End ClientLemmas.

(** ** Theorems *)

Section Theorems.
Context {R : Type}.

(** C20. The stream protocol: in every state the client can reach, whatever the
    caller does and the queue returns, no operation is outstanding twice, an
    operation is marked as pending exactly while it is outstanding, the read buffer is
    offered only while gRPC is not writing to it, a failed operation has closed the
    client, and the read callback has been called with messages and at most once, at
    the end, with the null pointer. *)
Theorem Duplex_invariant (b : bool) (c : @client R) (Hr : reachable b c) :
  NoDup (outstanding c)
  /\ (forall op, op <> SHUTDOWN -> (pd (flags_ c) op = true <-> op ∈ outstanding c))
  /\ (read_buf_valid_ c = true -> READ ∉ outstanding c)
  /\ (er (flags_ c) = true -> closed c = true)
  /\ exists ms, calls c = map Some ms \/ (calls c = map Some ms ++ [None] /\ closed c = true /\ READ ∉ outstanding c).
Proof.
  destruct (reachable_inv b c Hr) as [Hn Hns Hp Hx Hs Hsd Herr Hb Hcalls]. split_and!; try done.
  intros op Ho. rewrite (Hp op Ho). naive_solver.
Qed.

(** C21. Closing: once a finish or a shutdown was requested, no step starts an
    operation, and the destructor, which shuts the client down and drains the queue,
    returns after at most one call of [AsyncNext] more than there are outstanding operations. *)
Theorem Duplex_closing (b : bool) (c c' : @client R) (nexts : list NextStatus)
    (Hr : reachable b c) (Hclosed : closed c = true) (Hsteps : rtc step c c')
    (Hlegal : legal nexts (Shutdown c).1) (Hlen : (length (outstanding c) < length nexts)%nat) :
  (closed c' = true /\ forall o, o ∈ outstanding c' -> o ∈ outstanding c)
  /\ exists d rest, destructor nexts c = Some (d, rest) /\ (length nexts <= length rest + S (length (outstanding c)))%nat.
Proof.
  pose proof (reachable_inv b c Hr) as Hi. split.
  - clear Hlegal Hlen Hr. induction Hsteps as [|x y z Hs _ IH]; [done|].
    destruct (closed_step x y Hi Hclosed Hs) as [Hy Ho]. destruct (IH Hy (step_inv x y Hi Hs)) as [Hz Ho'].
    split; [done|]. intros o Hin. by apply Ho, Ho'.
  - assert (outstanding (Shutdown c).1 = outstanding c) as Eo.
    { unfold Shutdown. destruct (negb _); [done|]. unfold SetFlags. cbv zeta iota beta. by destruct (_ =? 0). }
    rewrite <- Eo in Hlen |- *. unfold destructor.
    apply drain_ends; [by apply Shutdown_inv| |done|done].
    apply (closed_step c); [done|done|constructor].
Qed.

(** Waiting for what has already happened: [Poll] waits for a new event
    before it looks at the flags, so a read of a message that has already arrived times
    out when no other event comes; and since a finish is not treated as idempotent,
    [Finish] after the stream has finished reports an unknown error instead of the
    status it has stored. *)
Theorem Duplex_waits (c : @client R) (nexts : list NextStatus) :
  (read_callback_ c = false -> dn (flags_ c) READ = true -> read_buf_valid_ c = true ->
   Read [CQ_TIMEOUT] c = Some (c, S_TIMEOUT, None, []))
  /\ (dn (flags_ c) FINISH = true -> pd (flags_ c) FINISH = false ->
      Finish nexts c = Some (c, mkGrpcStatus CODE_UNKNOWN (lit "unknown error retrieving status"), nexts)).
Proof.
  split.
  - intros Hcb _ _. unfold Read. by rewrite Hcb.
  - intros Hd Hp. unfold Finish, DoSync, FinishAsyncInternal.
    pose proof (DoAsync_cases false FINISH c) as Hc. unfold DoAsync, CheckFlags in *.
    rewrite !check_lor, !check_Done, !check_Pending, Hp, Hd in *. cbn [andb orb] in *.
    by destruct (dn (flags_ c) SHUTDOWN || pd (flags_ c) SHUTDOWN).
Qed.
End Theorems.

(** ** Witnesses *)

Module Witnesses.
Definition fine : grpc_status := mkGrpcStatus CODE_OK [].
Definition done_event (op : Op) (ok : bool) : @NextStatus Z := GOT_EVENT (mkEvent op ok 7 fine).

(** The stream starts, a message arrives, and a write fails. *)
Definition c0 : @client Z := client_new true.
Definition c1 : @client Z := (ProcessSingle (done_event START true) c0).1.1.
Definition c2 : @client Z := (WriteAsyncInternal c1).1.
Definition c3 : @client Z := (ProcessSingle (done_event READ true) c2).1.1.
Definition c4 : @client Z := (ProcessSingle (done_event WRITE false) c3).1.1.
Definition c5 : @client Z := (ProcessSingle (done_event READ false) c4).1.1.

Lemma next_event op ok (c : @client Z) : bool_decide (op ∈ outstanding c) = true -> next_ok (done_event op ok) c.
Proof. intros E. by apply bool_decide_eq_true in E. Qed.

Lemma reach_next op ok (c : @client Z) :
  reachable true c -> bool_decide (op ∈ outstanding c) = true -> reachable true (ProcessSingle (done_event op ok) c).1.1.
Proof. intros Hr E. eapply rtc_r; [exact Hr|]. by apply step_next, next_event. Qed.

Lemma c4_reachable : reachable true c4.
Proof.
  apply (reach_next WRITE false c3); [|vm_compute; reflexivity].
  apply (reach_next READ true c2); [|vm_compute; reflexivity].
  apply (rtc_r _ c1 c2); [|exact (step_write c1)].
  apply (reach_next START true c0); [apply rtc_refl|vm_compute; reflexivity].
Qed.

Lemma c5_reachable : reachable true c5.
Proof. apply (reach_next READ false c4); [exact c4_reachable|vm_compute; reflexivity]. Qed.

Lemma Duplex_invariant_witness : calls c5 = [Some 7; None] /\ NoDup (outstanding c5).
Proof.
  destruct (Duplex_invariant true c5 c5_reachable) as (H1 & _). split; [vm_compute; reflexivity|exact H1].
Defined.

Lemma Duplex_closing_witness :
  exists d rest, destructor [done_event FINISH true; done_event READ false; CQ_SHUTDOWN] c4 = Some (d, rest)
                 /\ (3 <= length rest + S (length (outstanding c4)))%nat.
Proof.
  refine (proj2 (Duplex_closing true c4 c4 [done_event FINISH true; done_event READ false; CQ_SHUTDOWN]
    c4_reachable _ (rtc_refl _ _) _ _)).
  - reflexivity.
  - split; [apply next_event; vm_compute; reflexivity|]. split; [apply next_event; vm_compute; reflexivity|].
    split; [split; vm_compute; reflexivity|exact I].
  - vm_compute. lia.
Defined.

(** A message has arrived; then the stream finishes. *)
Definition d1 : @client Z := (ProcessSingle (done_event READ true) (client_new false)).1.1.
Definition d2 : @client Z := (ProcessSingle (done_event FINISH true) (FinishAsyncInternal d1).1).1.1.

Lemma Duplex_waits_witness :
  Read [CQ_TIMEOUT] d1 = Some (d1, S_TIMEOUT, None, []) /\ gs_ok (status_ d2) = true
  /\ Finish [] d2 = Some (d2, mkGrpcStatus CODE_UNKNOWN (lit "unknown error retrieving status"), []).
Proof.
  split; [apply (Duplex_waits d1 []); vm_compute; reflexivity|]. split; [vm_compute; reflexivity|].
  apply (Duplex_waits d2 []); vm_compute; reflexivity.
Defined.
End Witnesses.
