(* ===== verification/Events.v ===== *)
(** * Event codes, their names and maps over them

    [collector/lib/EventNames.h], [EventNames.cpp] and [EventMap.h]: the table of
    the driver's events by name ("connect", "connect<", "connect>"), and the arrays
    indexed by event code that the signal handlers consult for every event.  The
    tables of the driver (libscap) are parameters.  [None] is a thrown
    [CollectorException].  The file also holds what the handlers read of an event
    of the inspector (libsinsp) and the result of a handler ([SignalHandler.h]). *)

From S2P Require Import Prelude Containers Process.

(** ** Events of the inspector *)

(** The endpoints of a socket: the members of [m_sockinfo] that the descriptor's
    type selects.  IPv6 addresses are four words. *)
Inductive fd_sockinfo : Type :=
| SCAP_FD_IPV4_SOCK (m_sip m_dip : Z) (m_sport m_dport : Z)
| SCAP_FD_IPV6_SOCK (m_sip m_dip : Z * Z * Z * Z) (m_sport m_dport : Z)
| SCAP_FD_OTHER.

Inductive scap_l4_proto : Set := SCAP_L4_TCP | SCAP_L4_UDP | SCAP_L4_OTHER.

Record sinsp_fdinfo := mkFdinfo {
  is_socket_failed : bool;
  is_socket_pending : bool;
  is_role_server : bool;
  is_role_client : bool;
  get_l4proto : scap_l4_proto;
  m_sockinfo : fd_sockinfo
}.

(** The type, the time in nanoseconds, the thread and the descriptor of an event,
    and the fields the extractor obtains from the inspector's filter checks. *)
Record sinsp_evt := mkEvt {
  get_type : nat;
  get_ts : Z;
  get_thread_info : option sinsp_threadinfo;
  get_fd_info : option sinsp_fdinfo;
  evt_rawres : option Z;
  evt_proc_args : option str;
  evt_server_port : option Z;
  evt_client_port : option Z;
  evt_internal : bool
}.

(** The results of a signal handler. *)
Module SignalHandler.
Inductive Result : Set := PROCESSED | IGNORED | ERROR | NEEDS_REFRESH | FINISHED.
End SignalHandler.

(** ** The driver's tables *)

(** [PPM_EVENT_MAX], the names of [g_event_info], the macro [PPME_IS_ENTER] and
    the pairs (enter, exit) of [g_syscall_table]; codes of the socket events the
    network handler distinguishes. *)
Class Driver := {
  PPM_EVENT_MAX : nat;
  g_event_info : nat -> str;
  PPME_IS_ENTER : nat -> bool;
  g_syscall_table : list (Z * Z);
  PPME_SOCKET_SENDTO_E : nat; PPME_SOCKET_SENDTO_X : nat;
  PPME_SOCKET_RECV_E : nat; PPME_SOCKET_RECV_X : nat;
  PPME_SOCKET_RECVFROM_E : nat; PPME_SOCKET_RECVFROM_X : nat;
  PPME_SOCKET_SENDMSG_E : nat; PPME_SOCKET_SENDMSG_X : nat;
  PPME_SOCKET_SENDMMSG_E : nat; PPME_SOCKET_SENDMMSG_X : nat;
  PPME_SOCKET_RECVMSG_E : nat; PPME_SOCKET_RECVMSG_X : nat;
  PPME_SOCKET_RECVMMSG_E : nat; PPME_SOCKET_RECVMMSG_X : nat
}.

Section Names.
Context `{Driver}.

(** ** EventNames *)

Record EventNames := mkEventNames {
  events_by_name_ : umap str (list nat);
  names_by_id_ : list str;
  syscall_by_id_ : list Z
}.

(** [events_by_name_[name].push_back(event_type)]. *)
Definition push_event (m : umap str (list nat)) (name : str) (event_type : nat) : umap str (list nat) :=
  insert_or_assign m name (default [] (Lookup m name) ++ [event_type]).

(** The suffixed name of an event: '>' when it is entered, '<' when it exits. *)
Definition directed_name (i : nat) : str :=
  g_event_info i ++ (if PPME_IS_ENTER i then lit ">" else lit "<").

(** The body of the first loop of the constructor. *)
Definition name_event (n : EventNames) (i : nat) : EventNames :=
  let name := g_event_info i in
  mkEventNames
    (push_event (push_event (events_by_name_ n) name i) (directed_name i) i)
    (<[i := name]> (names_by_id_ n))
    (<[i := 0]> (syscall_by_id_ n)).

Definition set_syscall (n : EventNames) (evt : Z) (i : Z) : option EventNames :=
  if (evt <? 0) || (Z.of_nat (length (syscall_by_id_ n)) <=? evt) then None
  else Some (mkEventNames (events_by_name_ n) (names_by_id_ n) (<[Z.to_nat evt := wrap 16 i]> (syscall_by_id_ n))).

(** The second loop: entry [i] of the system-call table and the ones after. *)
Fixpoint set_syscalls (n : EventNames) (i : Z) (table : list (Z * Z)) : option EventNames :=
  match table with
  | [] => Some n
  | (enter_evt, exit_evt) :: table =>
      match set_syscall n enter_evt i with
      | None => None
      | Some n =>
          match set_syscall n exit_evt i with
          | None => None
          | Some n => set_syscalls n (i + 1) table
          end
      end
  end.

Definition EventNames_make : option EventNames :=
  let n := fold_left name_event (seq 0 PPM_EVENT_MAX)
             (mkEventNames [] (replicate PPM_EVENT_MAX []) (replicate PPM_EVENT_MAX 0)) in
  set_syscalls n 0 g_syscall_table.

Definition GetEventIDs (n : EventNames) (name : str) : option (list nat) := Lookup (events_by_name_ n) name.
Definition GetEventName (n : EventNames) (id : nat) : option str := names_by_id_ n !! id.
Definition GetEventSyscallID (n : EventNames) (id : nat) : option Z := syscall_by_id_ n !! id.

(** ** EventMap *)

Section Map.
Context {T : Type}.

(** [values_], of length [PPM_EVENT_MAX]. *)
Definition EventMap : Type := list T.

Definition EventMap_fill (initVal : T) : EventMap := replicate PPM_EVENT_MAX initVal.

Definition Set_ (n : EventNames) (m : EventMap) (name : str) (value : T) : option EventMap :=
  match GetEventIDs n name with
  | None => None
  | Some ids => Some (fold_left (fun m event_id => <[event_id := value]> m) ids m)
  end.

Fixpoint set_all (n : EventNames) (m : EventMap) (init : list (str * T)) : option EventMap :=
  match init with
  | [] => Some m
  | (name, value) :: init =>
      match Set_ n m name value with
      | None => None
      | Some m => set_all n m init
      end
  end.

Definition EventMap_make (n : EventNames) (init : list (str * T)) (initVal : T) : option EventMap :=
  set_all n (EventMap_fill initVal) init.

(** [operator[]]. *)
Definition at_event (m : EventMap) (id : nat) : option T := m !! id.
End Map.
Arguments EventMap : clear implicits.

(** ** Lemmas *)

(** An event answers to its plain name and to its directed name. *)
Definition event_named (name : str) (i : nat) : bool :=
  bool_decide (name = g_event_info i) || bool_decide (name = directed_name i).

Lemma Lookup_push m name i k :
  wf_umap (fun _ : str => True) m ->
  default [] (Lookup (push_event m name i) k) = default [] (Lookup m k) ++ (if bool_decide (k = name) then [i] else [])
  /\ (Lookup (push_event m name i) k = None <-> Lookup m k = None /\ k <> name).
Proof.
  intros Hw. unfold push_event. rewrite (Lookup_insert_or_assign (fun _ => True)) by done.
  unfold keqb, KeyEq_str, dec_keqb. destruct (bool_decide_reflect (k = name)) as [->|Hne]; simpl.
  - split; [done|]. split; [done|]. intros [_ Hne]. by destruct Hne.
  - rewrite app_nil_r. split; [done|]. split; [by intros|]. by intros [? _].
Qed.

Lemma wf_push m name i : wf_umap (fun _ : str => True) m -> wf_umap (fun _ : str => True) (push_event m name i).
Proof. intros Hw. unfold push_event. by apply (wf_insert_or_assign (fun _ => True)). Qed.

Lemma plain_not_directed i : g_event_info i <> directed_name i.
Proof.
  unfold directed_name. intros E. apply (f_equal length) in E. rewrite length_app in E.
  destruct (PPME_IS_ENTER i); simpl in E; lia.
Qed.

(** The lists of codes after the first loop. *)
Record names_upto (n : EventNames) (l : list nat) : Prop := {
  names_wf : wf_umap (fun _ => True) (events_by_name_ n);
  names_ids k : default [] (Lookup (events_by_name_ n) k) = List.filter (event_named k) l;
  names_none k : Lookup (events_by_name_ n) k = None <-> List.filter (event_named k) l = []
}.

Lemma name_event_upto n l i : names_upto n l -> names_upto (name_event n i) (l ++ [i]).
Proof.
  intros [Hw Hids Hnone]. unfold name_event. split; cbn [events_by_name_].
  - by apply wf_push, wf_push.
  - intros k. destruct (Lookup_push (push_event (events_by_name_ n) (g_event_info i) i) (directed_name i) i k)
      as [-> _]; [by apply wf_push|].
    destruct (Lookup_push (events_by_name_ n) (g_event_info i) i k) as [-> _]; [done|].
    rewrite Hids, List.filter_app, <- app_assoc. f_equal. cbn. unfold event_named.
    pose proof (plain_not_directed i).
    destruct (bool_decide_reflect (k = g_event_info i)), (bool_decide_reflect (k = directed_name i)); simpl; congruence.
  - intros k. destruct (Lookup_push (push_event (events_by_name_ n) (g_event_info i) i) (directed_name i) i k)
      as [_ ->]; [by apply wf_push|].
    destruct (Lookup_push (events_by_name_ n) (g_event_info i) i k) as [_ ->]; [done|].
    rewrite Hnone, List.filter_app. cbn. unfold event_named at 3. split.
    + intros [[-> ?] ?]. by rewrite !bool_decide_false.
    + intros E. apply app_eq_nil in E as [-> E].
      destruct (bool_decide_reflect (k = g_event_info i)), (bool_decide_reflect (k = directed_name i));
        simpl in E; done.
Qed.

Lemma name_events_upto n l l' : names_upto n l -> names_upto (fold_left name_event l' n) (l ++ l').
Proof.
  revert n l. induction l' as [|i l' IH]; intros n l Hn; cbn [fold_left]; [by rewrite app_nil_r|].
  replace (l ++ i :: l') with ((l ++ [i]) ++ l') by by rewrite <- app_assoc. by apply IH, name_event_upto.
Qed.

Lemma set_syscalls_events table n i n' :
  set_syscalls n i table = Some n' -> events_by_name_ n' = events_by_name_ n.
Proof.
  assert (forall n e i n', set_syscall n e i = Some n' -> events_by_name_ n' = events_by_name_ n) as Hone.
  { intros m e j m'. unfold set_syscall. destruct (_ || _); [done|]. by intros [= <-]. }
  revert n i. induction table as [|[a b] table IH]; intros n i; cbn [set_syscalls]; [by intros [= <-]|].
  destruct (set_syscall n a i) as [n1|] eqn:E1; [|done].
  destruct (set_syscall n1 b i) as [n2|] eqn:E2; [|done].
  intros E. by rewrite (IH _ _ E), (Hone _ _ _ _ E2), (Hone _ _ _ _ E1).
Qed.

Lemma EventNames_ids n :
  EventNames_make = Some n -> names_upto n (seq 0 PPM_EVENT_MAX).
Proof.
  unfold EventNames_make. intros E. apply set_syscalls_events in E.
  destruct (name_events_upto (mkEventNames [] (replicate PPM_EVENT_MAX []) (replicate PPM_EVENT_MAX 0)) []
    (seq 0 PPM_EVENT_MAX)) as [Hw Hids Hnone]; [split; [apply wf_nil|done|done]|].
  split; by rewrite E.
Qed.
Lemma GetEventIDs_spec n name :
  EventNames_make = Some n ->
  GetEventIDs n name = match List.filter (event_named name) (seq 0 PPM_EVENT_MAX) with
                       | [] => None
                       | ids => Some ids
                       end.
Proof.
  intros E. destruct (EventNames_ids n E) as [_ Hids Hnone]. unfold GetEventIDs.
  specialize (Hids name). specialize (Hnone name).
  destruct (Lookup (events_by_name_ n) name) as [ids|]; simpl in Hids.
  - destruct (List.filter _ _); [by apply Hnone|by subst].
  - by rewrite <- Hids.
Qed.

Section MapLemmas.
Context {T : Type}.

Lemma fold_insert (ids : list nat) (m : list T) (v : T) i :
  fold_left (fun m event_id => <[event_id := v]> m) ids m !! i
  = if bool_decide (i ∈ ids) then (if bool_decide (i < length m)%nat then Some v else None) else m !! i.
Proof.
  revert m. induction ids as [|a ids IH]; intros m; cbn [fold_left].
  - by rewrite bool_decide_false by apply not_elem_of_nil.
  - rewrite IH, length_insert.
    destruct (bool_decide_reflect (i ∈ ids)) as [Hi|Hi].
    { by rewrite (bool_decide_true (i ∈ a :: ids)) by (by apply list_elem_of_further). }
    destruct (decide (i = a)) as [->|Hne].
    + rewrite (bool_decide_true (a ∈ a :: ids)) by apply list_elem_of_here.
      destruct (bool_decide_reflect (a < length m)%nat).
      * by apply list_lookup_insert_eq.
      * rewrite list_insert_ge by lia. apply lookup_ge_None. lia.
    + rewrite bool_decide_false by (rewrite elem_of_cons; tauto). by apply list_lookup_insert_ne.
Qed.

(** The value of a code: that of the last entry that names it. *)
Definition value_of (init : list (str * T)) (initVal : T) (i : nat) : T :=
  fold_left (fun v (e : str * T) => if event_named e.1 i then e.2 else v) init initVal.

(** Some event has the name. *)
Definition known_event (name : str) : bool := existsb (event_named name) (seq 0 PPM_EVENT_MAX).

Lemma filter_existsb {A} (f : A -> bool) l : List.filter f l = [] <-> existsb f l = false.
Proof.
  induction l as [|x l IH]; [done|]. cbn. destruct (f x); [|done]. by split.
Qed.

Lemma set_all_spec n (Hn : EventNames_make = Some n) (init : list (str * T)) m :
  length m = PPM_EVENT_MAX ->
  match set_all n m init with
  | Some m' => Forall (fun e => known_event e.1 = true) init /\ length m' = PPM_EVENT_MAX
               /\ forall i v, m !! i = Some v -> m' !! i = Some (value_of init v i)
  | None => Exists (fun e => known_event e.1 = false) init
  end.
Proof.
  revert m. induction init as [|[name value] init IH]; intros m Hm; cbn [set_all].
  { split_and!; done. }
  unfold Set_. rewrite (GetEventIDs_spec n name Hn).
  destruct (List.filter (event_named name) (seq 0 PPM_EVENT_MAX)) as [|i0 ids] eqn:E.
  { left. by apply filter_existsb. }
  rewrite <- E. specialize (IH (fold_left (fun m event_id => <[event_id := value]> m)
    (List.filter (event_named name) (seq 0 PPM_EVENT_MAX)) m)).
  assert (forall l (m' : list T),
    length (fold_left (fun m event_id => <[event_id := value]> m) l m') = length m') as Hlen.
  { induction l as [|a l IHl]; intros m'; cbn [fold_left]; [done|]. by rewrite IHl, length_insert. }
  rewrite Hlen in IH. specialize (IH Hm).
  destruct (set_all n _ init) as [m'|]; [|by right].
  destruct IH as (Hk & Hl & Hv). split_and!; [|done|].
  - constructor; [|done]. cbn. unfold known_event.
    destruct (existsb (event_named name) (seq 0 PPM_EVENT_MAX)) eqn:Ek; [done|]. apply filter_existsb in Ek. congruence.
  - intros i v Hi. cbn [value_of fold_left fst snd]. apply Hv. rewrite fold_insert.
    pose proof (lookup_lt_Some _ _ _ Hi) as Hlt.
    rewrite (bool_decide_true (i < length m)%nat) by done.
    destruct (event_named name i) eqn:En.
    + rewrite bool_decide_true; [done|]. apply list_elem_of_In, filter_In. split; [apply in_seq; lia|done].
    + rewrite bool_decide_false; [done|]. rewrite list_elem_of_In, filter_In. intros [_ ?]. congruence.
Qed.

Lemma EventMap_spec n (Hn : EventNames_make = Some n) (init : list (str * T)) (initVal : T) :
  match EventMap_make n init initVal with
  | Some m => Forall (fun e => known_event e.1 = true) init
              /\ forall i, at_event m i = if (i <? PPM_EVENT_MAX)%nat then Some (value_of init initVal i) else None
  | None => Exists (fun e => known_event e.1 = false) init
  end.
Proof.
  unfold EventMap_make. pose proof (set_all_spec n Hn init (EventMap_fill initVal)) as Hs.
  unfold EventMap_fill in Hs at 1. rewrite length_replicate in Hs. specialize (Hs eq_refl).
  destruct (set_all n (EventMap_fill initVal) init) as [m|]; [|done].
  destruct Hs as (Hk & Hl & Hv). split; [done|]. intros i. unfold at_event.
  destruct (Nat.ltb_spec i PPM_EVENT_MAX).
  - apply Hv. unfold EventMap_fill. by rewrite lookup_replicate.
  - apply lookup_ge_None. lia.
Qed.
End MapLemmas.
End Names.
Arguments EventMap : clear implicits.

(** ** A driver *)

(** A table with the events the handlers name, for concrete runs: an enter and an
    exit code per name. *)
Definition sample_names : list str :=
  [ lit "execve"; lit "close"; lit "shutdown"; lit "connect"; lit "accept"; lit "accept4"; lit "getsockopt";
    lit "sendto"; lit "sendmsg"; lit "sendmmsg"; lit "recvfrom"; lit "recvmsg"; lit "recvmmsg"; lit "listen"; lit "recv" ].

Definition sample_driver : Driver := {|
  PPM_EVENT_MAX := 30;
  g_event_info i := nth (i / 2) sample_names [];
  PPME_IS_ENTER := Nat.even;
  g_syscall_table := [(0, 1); (2, 3); (6, 7)];
  PPME_SOCKET_SENDTO_E := 14; PPME_SOCKET_SENDTO_X := 15;
  PPME_SOCKET_RECV_E := 28; PPME_SOCKET_RECV_X := 29;
  PPME_SOCKET_RECVFROM_E := 20; PPME_SOCKET_RECVFROM_X := 21;
  PPME_SOCKET_SENDMSG_E := 16; PPME_SOCKET_SENDMSG_X := 17;
  PPME_SOCKET_SENDMMSG_E := 18; PPME_SOCKET_SENDMMSG_X := 19;
  PPME_SOCKET_RECVMSG_E := 22; PPME_SOCKET_RECVMSG_X := 23;
  PPME_SOCKET_RECVMMSG_E := 24; PPME_SOCKET_RECVMMSG_X := 25
|}.

Definition sample_event_names : EventNames :=
  Eval vm_compute in default (mkEventNames [] [] []) (@EventNames_make sample_driver).

Lemma sample_event_names_eq : @EventNames_make sample_driver = Some sample_event_names.
Proof. vm_compute. reflexivity. Qed.

(** A thread of a container, and its short ID. *)
Definition sample_cgroup : str :=
  lit "/docker/0123456789abcdef0123456789abcdef0123456789abcdef0123456789abcdef".

Definition sample_thread (pid vpid : Z) (exepath : str) : sinsp_threadinfo :=
  mkThreadinfo pid [(lit "memory", sample_cgroup)] exepath exepath exepath [] 1000 1000 vpid 0 true.
