(* ===== verification/NetSignals.v ===== *)
(** * The network signal handler

    [collector/lib/NetworkSignalHandler.cpp]: which events of the inspector report
    a connection, what connection they report, and what they do to the tracker.
    The connection tracker is threaded through; an outer [None] is a thrown
    exception or the use of a filter check that [Stop] has destroyed. *)

From S2P Require Import Prelude Containers Utility Address IPNet NRadix Process Connection Stats ExternalIPs ConnDelta ConnTracker Events.

(** ** Operations *)

Module Modifier.
Inductive t : Set := INVALID | ADD | REMOVE.
End Modifier.

#[export] Instance Modifier_eq_dec : EqDecision Modifier.t.
Proof. solve_decision. Defined.

Definition modifier_table : list (str * Modifier.t) :=
  [ (lit "close<", Modifier.REMOVE);
    (lit "shutdown<", Modifier.REMOVE);
    (lit "connect<", Modifier.ADD);
    (lit "accept<", Modifier.ADD);
    (lit "accept4<", Modifier.ADD);
    (lit "getsockopt<", Modifier.ADD);
    (lit "sendto<", Modifier.ADD);
    (lit "sendto>", Modifier.ADD);
    (lit "sendmsg<", Modifier.ADD);
    (lit "sendmsg>", Modifier.ADD);
    (lit "sendmmsg<", Modifier.ADD);
    (lit "recvfrom<", Modifier.ADD);
    (lit "recvfrom>", Modifier.ADD);
    (lit "recvmsg<", Modifier.ADD);
    (lit "recvmsg>", Modifier.ADD);
    (lit "recvmmsg<", Modifier.ADD);
    (lit "recvmmsg>", Modifier.ADD) ].

Record NetworkSignalHandler := mkNetworkSignalHandler {
  collect_connection_status_ : bool;
  track_send_recv_ : bool;
  extractor_ready_ : bool
}.

Definition NetworkSignalHandler_new : NetworkSignalHandler := mkNetworkSignalHandler true false true.

Definition SetCollectConnectionStatus (b : bool) (h : NetworkSignalHandler) : NetworkSignalHandler :=
  mkNetworkSignalHandler b (track_send_recv_ h) (extractor_ready_ h).
Definition SetTrackSendRecv (b : bool) (h : NetworkSignalHandler) : NetworkSignalHandler :=
  mkNetworkSignalHandler (collect_connection_status_ h) b (extractor_ready_ h).

(** [Stop]: [ClearWrappers] destroys the filter checks of the extractor. *)
Definition NetworkSignalHandler_Stop (h : NetworkSignalHandler) : NetworkSignalHandler :=
  mkNetworkSignalHandler (collect_connection_status_ h) (track_send_recv_ h) false.

(** [GetContainerID] of an event. *)
Definition evt_GetContainerID (evt : sinsp_evt) : str :=
  match get_thread_info evt with
  | Some tinfo => GetContainerID (ti_cgroups tinfo)
  | None => []
  end.

Section Handler.
Context `{HostEndian} `{Driver}.

(** [static EventMap<Modifier> modifiers]. *)
Definition modifiers (n : EventNames) : option (EventMap Modifier.t) :=
  EventMap_make n modifier_table Modifier.INVALID.

(** The cases of the [switch] over the event type. *)
Definition is_send_recv (type : nat) : bool :=
  existsb (Nat.eqb type)
    [ PPME_SOCKET_SENDTO_E; PPME_SOCKET_SENDTO_X;
      PPME_SOCKET_RECV_E; PPME_SOCKET_RECV_X;
      PPME_SOCKET_RECVFROM_E; PPME_SOCKET_RECVFROM_X;
      PPME_SOCKET_SENDMSG_E; PPME_SOCKET_SENDMSG_X;
      PPME_SOCKET_SENDMMSG_E; PPME_SOCKET_SENDMMSG_X;
      PPME_SOCKET_RECVMSG_E; PPME_SOCKET_RECVMSG_X;
      PPME_SOCKET_RECVMMSG_E; PPME_SOCKET_RECVMMSG_X ].

(** The client and server endpoints of the descriptor. *)
Definition sock_endpoints (s : fd_sockinfo) : option (Endpoint * Endpoint) :=
  match s with
  | SCAP_FD_IPV4_SOCK m_sip m_dip m_sport m_dport =>
      Some (Endpoint_addr (Address_ipv4 m_sip) m_sport, Endpoint_addr (Address_ipv4 m_dip) m_dport)
  | SCAP_FD_IPV6_SOCK (s0, s1, s2, s3) (d0, d1, d2, d3) m_sport m_dport =>
      Some (Endpoint_addr (Address_ipv6 s0 s1 s2 s3) m_sport, Endpoint_addr (Address_ipv6 d0 d1 d2 d3) m_dport)
  | SCAP_FD_OTHER => None
  end.

Definition l4proto_of (p : scap_l4_proto) : option L4Proto.t :=
  match p with
  | SCAP_L4_TCP => Some L4Proto.TCP
  | SCAP_L4_UDP => Some L4Proto.UDP
  | SCAP_L4_OTHER => None
  end.

(** [event_extractor_->get_event_rawres]; [None]: the filter check is gone. *)
Definition get_event_rawres (h : NetworkSignalHandler) (evt : sinsp_evt) : option (option Z) :=
  if extractor_ready_ h then Some (evt_rawres evt) else None.

Definition GetConnection (h : NetworkSignalHandler) (evt : sinsp_evt) : option (option Connection) :=
  match get_fd_info evt with
  | None => Some None
  | Some fd_info =>
      if collect_connection_status_ h && negb (is_send_recv (get_type evt))
         && (is_socket_failed fd_info || is_socket_pending fd_info)
      then Some None
      else
        match get_event_rawres h evt with
        | None => None
        | Some None => Some None
        | Some (Some res) =>
            if res <? 0 then Some None
            else
              let is_server := is_role_server fd_info in
              if negb is_server && negb (is_role_client fd_info) then Some None
              else
                match l4proto_of (get_l4proto fd_info) with
                | None => Some None
                | Some l4proto =>
                    match sock_endpoints (m_sockinfo fd_info) with
                    | None => Some None
                    | Some (client, server) =>
                        let local := if is_server then server else client in
                        let remote := if is_server then client else server in
                        match evt_GetContainerID evt with
                        | [] => Some None
                        | container_id =>
                            Some (Some (Connection_make container_id local remote l4proto is_server))
                        end
                    end
                end
        end
  end.

Definition net_HandleSignal (modifiers : EventMap Modifier.t) (h : NetworkSignalHandler)
    (t : ConnectionTracker) (evt : sinsp_evt) : option (ConnectionTracker * SignalHandler.Result) :=
  match at_event modifiers (get_type evt) with
  | None => None
  | Some Modifier.INVALID => Some (t, SignalHandler.IGNORED)
  | Some modifier =>
      match GetConnection h evt with
      | None => None
      | Some None => Some (t, SignalHandler.IGNORED)
      | Some (Some result) =>
          if negb (IsRelevantConnection result) then Some (t, SignalHandler.IGNORED)
          else Some (UpdateConnection t result (get_ts evt / 1000)
                       (bool_decide (modifier = Modifier.ADD)),
                     SignalHandler.PROCESSED)
      end
  end.

(** The handler applied to the events of the inspector in turn. *)
Fixpoint net_HandleSignals (modifiers : EventMap Modifier.t) (h : NetworkSignalHandler)
    (t : ConnectionTracker) (evts : list sinsp_evt) : option ConnectionTracker :=
  match evts with
  | [] => Some t
  | evt :: evts =>
      match net_HandleSignal modifiers h t evt with
      | None => None
      | Some (t, _) => net_HandleSignals modifiers h t evts
      end
  end.
End Handler.

Definition net_GetRelevantEvents (h : NetworkSignalHandler) : list str :=
  let base_events :=
    [ lit "close<"; lit "shutdown<"; lit "connect<"; lit "accept<"; lit "accept4<"; lit "getsockopt<" ] in
  if track_send_recv_ h then
    base_events ++
    [ lit "sendto<"; lit "sendto>"; lit "sendmsg<"; lit "sendmsg>"; lit "sendmmsg<";
      lit "recvfrom<"; lit "recvfrom>"; lit "recvmsg<"; lit "recvmsg>"; lit "recvmmsg<";
      lit "recvmmsg>"; lit "recvmsg<"; lit "recvmsg>" ]
  else base_events.

(** ** Lemmas *)

Section Lemmas.
Context `{HostEndian} `{Driver}.

Lemma sock_endpoints_class s c d :
  sock_endpoints s = Some (c, d) -> ep_class addr_net c /\ ep_class addr_net d.
Proof.
  destruct s as [sip dip sp dp|[[[s0 s1] s2] s3] [[[d0 d1] d2] d3] sp dp|]; [..|done];
    cbn [sock_endpoints]; intros [= <- <-]; split; apply ep_class_addr;
    first [apply wf_Address_ipv4|apply wf_Address_ipv6].
Qed.

(** When the handler reports a connection: the descriptor is a TCP or UDP socket
    with a role, its last operation succeeded and, for the events that establish
    connections, the socket is neither failed nor pending; the thread runs in a
    container.  The endpoint of the socket's role is the local one. *)
Record reported (h : NetworkSignalHandler) (evt : sinsp_evt) (c : Connection) : Prop := {
  rep_socket : exists fd client server proto,
    get_fd_info evt = Some fd /\ sock_endpoints (m_sockinfo fd) = Some (client, server)
    /\ l4proto_of (get_l4proto fd) = Some proto
    /\ (is_role_server fd = true \/ is_role_client fd = true)
    /\ (collect_connection_status_ h = true -> is_send_recv (get_type evt) = false ->
        is_socket_failed fd = false /\ is_socket_pending fd = false)
    /\ c = Connection_make (evt_GetContainerID evt)
             (if is_role_server fd then server else client)
             (if is_role_server fd then client else server) proto (is_role_server fd);
  rep_success : exists res, evt_rawres evt = Some res /\ 0 <= res;
  rep_container : evt_GetContainerID evt <> []
}.

Lemma GetConnection_spec h evt :
  extractor_ready_ h = true ->
  exists r, GetConnection h evt = Some r /\ forall c, r = Some c <-> reported h evt c.
Proof.
  intros Hready. unfold GetConnection, get_event_rawres. rewrite Hready.
  assert (forall P : Prop, ~ P -> forall c : Connection, None = Some c <-> P) as Hno by (intros; split; done).
  destruct (get_fd_info evt) as [fd|] eqn:Efd.
  2:{ eexists. split; [done|]. intros c. apply Hno. intros [(fd & ? & ? & ? & ? & _) _ _]. congruence. }
  destruct (collect_connection_status_ h && negb (is_send_recv (get_type evt))
            && (is_socket_failed fd || is_socket_pending fd)) eqn:Est.
  { eexists. split; [done|]. intros c. apply Hno.
    intros [(fd' & ? & ? & ? & E & _ & _ & _ & Hs & _) _ _]. assert (fd' = fd) as -> by congruence.
    apply andb_true_iff in Est as [[Ec Er%negb_true_iff]%andb_true_iff Ef].
    destruct (Hs Ec Er) as [Ha Hb]. by rewrite Ha, Hb in Ef. }
  destruct (evt_rawres evt) as [res|] eqn:Eres.
  2:{ eexists. split; [done|]. intros c. apply Hno. intros [_ (? & ? & _) _]. congruence. }
  destruct (Z.ltb_spec res 0).
  { eexists. split; [done|]. intros c. apply Hno. intros [_ (? & ? & ?) _]. assert (x = res) as -> by congruence. lia. }
  destruct (negb (is_role_server fd) && negb (is_role_client fd)) eqn:Erole.
  { eexists. split; [done|]. intros c. apply Hno.
    intros [(fd' & ? & ? & ? & E & _ & _ & Hr & _) _ _]. assert (fd' = fd) as -> by congruence.
    destruct (is_role_server fd), (is_role_client fd); naive_solver. }
  destruct (l4proto_of (get_l4proto fd)) as [proto|] eqn:Ep.
  2:{ eexists. split; [done|]. intros c. apply Hno. intros [(fd' & ? & ? & ? & E & _ & Hp & _) _ _]. congruence. }
  destruct (sock_endpoints (m_sockinfo fd)) as [[client server]|] eqn:Es.
  2:{ eexists. split; [done|]. intros c. apply Hno. intros [(fd' & ? & ? & ? & E & Hs & _) _ _]. congruence. }
  destruct (evt_GetContainerID evt) as [|x id] eqn:Eid.
  { eexists. split; [done|]. intros c. apply Hno. by intros [_ _ ?]. }
  eexists. split; [done|]. intros c. rewrite <- Eid. split.
  - intros [= <-]. split; [|eauto|by rewrite Eid]. exists fd, client, server, proto. split_and!; try done.
    + destruct (is_role_server fd), (is_role_client fd); naive_solver.
    + intros Ec Er. rewrite Ec, Er in Est. cbn in Est. by apply orb_false_iff in Est.
  - intros [(fd' & cl & sv & pr & E & Hs & Hp & _ & _ & ->) _ _].
    assert (fd' = fd) as -> by congruence. by simplify_eq.
Qed.

(** What the type of an event means for the connection: opened, closed or
    nothing. *)
Definition event_direction (type : nat) : option bool :=
  match value_of modifier_table Modifier.INVALID type with
  | Modifier.INVALID => None
  | Modifier.ADD => Some true
  | Modifier.REMOVE => Some false
  end.

(** The event reports the relevant connection [k] as opened or closed. *)
Definition reports (h : NetworkSignalHandler) (evt : sinsp_evt) (k : Connection) (added : bool) : Prop :=
  event_direction (get_type evt) = Some added /\ reported h evt k /\ IsRelevantConnection k = true.

(** The time of an event in the unit of the tracker. *)
Definition micros (evt : sinsp_evt) : Z := get_ts evt / 1000.

Definition evt_ok (evt : sinsp_evt) : Prop := (get_type evt < PPM_EVENT_MAX)%nat /\ word 64 (get_ts evt).

Lemma reported_class h evt c : reported h evt c -> conn_class addr_net c.
Proof.
  intros [(fd & cl & sv & p & _ & Hs & _ & _ & _ & ->) _ _].
  apply sock_endpoints_class in Hs as [? ?]. split; cbn; by destruct (is_role_server fd).
Qed.

Lemma net_HandleSignal_spec n m h t evt :
  EventNames_make = Some n -> modifiers n = Some m -> extractor_ready_ h = true -> evt_ok evt ->
  (exists c d, reports h evt c d
     /\ net_HandleSignal m h t evt = Some (UpdateConnection t c (micros evt) d, SignalHandler.PROCESSED))
  \/ (forall c d, ~ reports h evt c d) /\ net_HandleSignal m h t evt = Some (t, SignalHandler.IGNORED).
Proof.
  intros Hn Hm Hready [Htype _]. unfold net_HandleSignal, reports, event_direction.
  pose proof (EventMap_spec n Hn modifier_table Modifier.INVALID) as Hmap.
  unfold modifiers in Hm. rewrite Hm in Hmap. destruct Hmap as [_ ->].
  rewrite (proj2 (Nat.ltb_lt _ _) Htype).
  destruct (GetConnection_spec h evt Hready) as (r & -> & Hr).
  destruct (value_of modifier_table Modifier.INVALID (get_type evt)) eqn:Ev; [by right; split; [intros ? ? [? _]|]|..];
    (destruct r as [c|];
     [pose proof (proj1 (Hr c) eq_refl) as Hc; destruct (IsRelevantConnection c) eqn:Ei; cbn [negb];
      [left; exists c; eexists; by split|]|]);
    right; (split; [|done]); intros c' d (_ & Hc' & Hi'); apply Hr in Hc'; congruence.
Qed.

Lemma micros_bound evt : evt_ok evt -> 0 <= micros evt < 2 ^ 63.
Proof. intros [_ [? ?]]. unfold micros. split; [by apply Z.div_pos|]. apply Z.div_lt_upper_bound; lia. Qed.

Lemma UpdateConnection_lookup t c ts d k :
  tracker_ok t -> conn_class addr_net c -> conn_class addr_net k ->
  Lookup (conn_state_ (UpdateConnection t c ts d)) k
  = if decide (k = c) then Some (newer (Lookup (conn_state_ t) k) (ConnStatus_make ts d)) else Lookup (conn_state_ t) k.
Proof.
  intros Ht Hc Hk. unfold UpdateConnection. rewrite EmplaceOrUpdateNoLock_conns.
  destruct (EmplaceOrUpdate_lookup (conn_class addr_net) (conn_state_ t) c (ConnStatus_make ts d))
    as (_ & _ & Hl); [apply Ht|done|]. rewrite (Hl k Hk).
  destruct (decide (k = c)) as [->|Hne].
  - by rewrite (keqb_refl (P := conn_class addr_net)).
  - destruct (keqb k c) eqn:E; [|done]. by apply (conn_eqb_addr k c Hk Hc) in E.
Qed.

(** Event [i] is the latest report of [k]: no earlier one has its time or a later
    one, and no later one has a later time. *)
Definition latest (h : NetworkSignalHandler) (evts : list sinsp_evt) (k : Connection) (i : nat)
    (evt : sinsp_evt) (added : bool) : Prop :=
  evts !! i = Some evt /\ reports h evt k added
  /\ forall j evt' added', evts !! j = Some evt' -> reports h evt' k added' ->
       ((j < i)%nat -> micros evt' < micros evt) /\ ((i < j)%nat -> micros evt' <= micros evt).

Definition tracked (h : NetworkSignalHandler) (evts : list sinsp_evt) (k : Connection) (s : option ConnStatus) : Prop :=
  match s with
  | None => forall evt added, evt ∈ evts -> ~ reports h evt k added
  | Some s => exists i evt added, latest h evts k i evt added /\ s = ConnStatus_make (micros evt) added
  end.

Lemma lookup_snoc_cases {A} (l : list A) (x y : A) j :
  (l ++ [x]) !! j = Some y -> l !! j = Some y /\ (j < length l)%nat \/ j = length l /\ y = x.
Proof.
  intros E. destruct (decide (j < length l)%nat).
  - left. by rewrite lookup_app_l in E.
  - rewrite lookup_app_r in E by lia. apply list_lookup_singleton_Some in E as [? ->]. right. split; [lia|done].
Qed.

Lemma reports_fun h evt k d k' d' : reports h evt k d -> reports h evt k' d' -> d = d'.
Proof. intros (E & _ & _) (E' & _ & _). congruence. Qed.

Lemma tracked_other h evts evt k s :
  tracked h evts k s -> (forall added, ~ reports h evt k added) -> tracked h (evts ++ [evt]) k s.
Proof.
  intros Ht Hno. destruct s as [s|]; cbn in *.
  - destruct Ht as (i & e & d & (Hi & Hr & Hl) & ->). exists i, e, d. split; [|done].
    split_and!; [by apply lookup_app_l_Some|done|].
    intros j e' d' [[Hj _]|[-> ->]]%lookup_snoc_cases Hr'; [by apply (Hl j e' d')|]. by destruct (Hno d').
  - intros e d [Hin| ->%list_elem_of_singleton]%elem_of_app; [by apply Ht|done].
Qed.

Lemma tracked_same h evts evt k added s :
  Forall evt_ok (evts ++ [evt]) ->
  tracked h evts k s -> reports h evt k added ->
  tracked h (evts ++ [evt]) k (Some (newer s (ConnStatus_make (micros evt) added))).
Proof.
  intros Hok Ht Hr. apply Forall_app in Hok as [Hoks [Hok _]%Forall_cons].
  assert (Hlast : (evts ++ [evt]) !! length evts = Some evt) by by apply list_lookup_middle.
  destruct s as [s|]; cbn in Ht |- *.
  - destruct Ht as (i & e & d & (Hi & He & Hl) & ->).
    assert (evt_ok e) as Hoke by by eapply Forall_lookup_1.
    pose proof (lookup_lt_Some _ _ _ Hi) as Hlt.
    rewrite !make_last by by apply micros_bound. destruct (Z.ltb_spec (micros e) (micros evt)).
    + exists (length evts), evt, added. split; [|done]. split_and!; [done|done|].
      intros j e' d' [[Hj ?]|[-> ->]]%lookup_snoc_cases Hr'; [|split; lia].
      split; [|lia]. intros _. destruct (Hl j e' d' Hj Hr').
      destruct (Nat.lt_trichotomy j i) as [?|[->|?]]; [lia| |lia]. assert (e' = e) as -> by congruence. lia.
    + exists i, e, d. split; [|done]. split_and!; [by apply lookup_app_l_Some|done|].
      intros j e' d' [[Hj _]|[-> ->]]%lookup_snoc_cases Hr'; [by apply (Hl j e' d')|split; lia].
  - exists (length evts), evt, added. split; [|done]. split_and!; [done|done|].
    intros j e' d' [[Hj ?]|[-> ->]]%lookup_snoc_cases Hr'; [|split; lia].
    by destruct (Ht e' d' (list_elem_of_lookup_2 _ _ _ Hj)).
Qed.

Lemma net_HandleSignals_app m h t l1 l2 :
  net_HandleSignals m h t (l1 ++ l2)
  = match net_HandleSignals m h t l1 with Some t => net_HandleSignals m h t l2 | None => None end.
Proof.
  revert t. induction l1 as [|e l1 IH]; intros t; [done|]. cbn [app net_HandleSignals].
  destruct (net_HandleSignal m h t e) as [[t' r]|]; [apply IH|done].
Qed.
End Lemmas.

(** ** Theorems *)

(** C11. From events to the tracker: on any sequence of events the handler keeps,
    for every connection, exactly the status reported by its latest event (opened or
    closed, at the event's time in microseconds; of several reports in the same
    microsecond the first counts), and tracks no connection that no event reports. *)
Theorem NetworkSignals_latest `{HostEndian} `{Driver} (n : EventNames) (m : EventMap Modifier.t)
    (h : NetworkSignalHandler) (evts : list sinsp_evt)
    (Hn : EventNames_make = Some n) (Hm : modifiers n = Some m) (Hready : extractor_ready_ h = true)
    (Hok : Forall evt_ok evts) :
  exists t, net_HandleSignals m h ConnectionTracker_new evts = Some t /\ tracker_ok t
    /\ forall k, conn_class addr_net k -> tracked h evts k (Lookup (conn_state_ t) k).
Proof.
  induction evts as [|evt evts IH] using rev_ind.
  { exists ConnectionTracker_new. split_and!; [done|apply tracker_ok_new|]. intros k _ e d Hin. by inversion Hin. }
  pose proof Hok as [Hoks [Hoke _]%Forall_cons]%Forall_app.
  destruct (IH Hoks) as (t & Et & Ht & Hl). rewrite net_HandleSignals_app, Et. cbn [net_HandleSignals].
  destruct (net_HandleSignal_spec n m h t evt Hn Hm Hready Hoke) as [(c & d & Hr & ->)|[Hno ->]].
  - assert (conn_class addr_net c) as Hc by (by apply (reported_class h evt), Hr).
    eexists. split_and!; [done|by apply tracker_ok_UpdateConnection|]. intros k Hk.
    rewrite UpdateConnection_lookup by done. destruct (decide (k = c)) as [->|Hne].
    + apply tracked_same; auto.
    + apply tracked_other; [auto|]. intros d' (_ & Hr' & _). destruct Hr as (_ & Hr & _).
      destruct (GetConnection_spec h evt Hready) as (r & _ & Hf). apply Hf in Hr, Hr'. congruence.
  - exists t. split_and!; [done|done|]. intros k Hk. apply tracked_other; auto.
Qed.

(** ** Witnesses *)

Module Witnesses.
#[local] Existing Instance little_endian.
#[local] Existing Instance sample_driver.

Definition modifier_map : EventMap Modifier.t :=
  Eval vm_compute in default [] (modifiers sample_event_names).

Definition socket : sinsp_fdinfo :=
  mkFdinfo false false false true SCAP_L4_TCP (SCAP_FD_IPV4_SOCK 0x0100000A 0x08080808 40000 443).

Definition event (type : nat) (ts : Z) : sinsp_evt :=
  mkEvt type ts (Some (sample_thread 7 3 (lit "/bin/sh"))) (Some socket) (Some 0) None None None false.

(** A connection is opened and closed; a late report of the opening arrives
    last. *)
Definition evts : list sinsp_evt := [event 7 5000; event 3 9000; event 7 6000].

Definition the_conn : Connection :=
  Connection_make (lit "0123456789ab")
    (Endpoint_addr (Address_octets 10 0 0 1) 40000) (Endpoint_addr (Address_octets 8 8 8 8) 443) L4Proto.TCP false.

Lemma evts_ok : Forall evt_ok evts.
Proof. repeat constructor; cbn; lia. Qed.

Lemma NetworkSignals_witness :
  exists t, net_HandleSignals modifier_map NetworkSignalHandler_new ConnectionTracker_new evts = Some t
    /\ tracked NetworkSignalHandler_new evts the_conn (Lookup (conn_state_ t) the_conn)
    /\ Lookup (conn_state_ t) the_conn = Some (ConnStatus_make 9 false).
Proof.
  destruct (NetworkSignals_latest sample_event_names modifier_map NetworkSignalHandler_new evts
    sample_event_names_eq eq_refl eq_refl evts_ok) as (t & Et & _ & Hl).
  exists t. split; [exact Et|]. split.
  - apply Hl. split; apply ep_class_addr, wf_Address_octets.
  - assert (net_HandleSignals modifier_map NetworkSignalHandler_new ConnectionTracker_new evts = Some t
      -> Lookup (conn_state_ t) the_conn = Some (ConnStatus_make 9 false)) as Hc; [|by apply Hc].
    assert (exists t0, net_HandleSignals modifier_map NetworkSignalHandler_new ConnectionTracker_new evts = Some t0
      /\ Lookup (conn_state_ t0) the_conn = Some (ConnStatus_make 9 false)) as (t0 & E0 & H0).
    { eexists. split; vm_compute; reflexivity. }
    intros E. assert (t = t0) as -> by congruence. exact H0.
Defined.
End Witnesses.
