(* ===== verification/Pipeline.v ===== *)
(** * From kernel events to Sensor

    The components that share the connection tracker, put together: the thread of the system
    inspector hands events to [NetworkSignalHandler], control messages of Sensor arrive at
    [NetworkStatusNotifier::OnRecvControlMessage], and the notifier's thread scrapes /proc, takes
    snapshots and reports differences.

    The tracker's mutex is held for one operation at a time, so an input is one operation on the tracker, and a list of
    inputs is an interleaving: an iteration of the notifier is four of them (the update with the scrape, the
    external-IPs setting, the snapshot of the connections with its difference, the snapshot of the endpoints with the message), a control message is two, and
    anything can come in between. *)

From S2P Require Import Prelude Containers Utility Address IPNet NRadix Process Connection ExternalIPs ConnDelta ConnTracker Stats RateLimit Notifier Events NetSignals.

Open Scope Z_scope.
Open Scope collector_scope.

(** ** Interleavings *)

(** [Start] begins an iteration of the notifier, [Continue] is its next operation. *)
Inductive input :=
| Event (evt : sinsp_evt)
| PublicIPs (ips : IPAddressList)
| IPNetworks (networks : IPNetworkList)
| Start (it : iteration)
| Continue.

(** Where the notifier is: between iterations, behind the update, behind the setting, and behind the snapshot of
    the connections. *)
Inductive phase :=
| Idle
| Updated (it : iteration)
| Configured (it : iteration)
| Taken (it : iteration) (sn : snapshot).

Record pipe := mkPipe { locals : loop_state; at_ : phase }.

Definition with_tracker (t : ConnectionTracker) (s : loop_state) : loop_state :=
  mkLoopState t (ls_old_conn_state s) (ls_old_cep_state s) (ls_time_at_last_scrape s) (ls_prev_external_ips s).

Definition set_tracker (t : ConnectionTracker) (p : pipe) : pipe := mkPipe (with_tracker t (locals p)) (at_ p).

Section Pipeline.
Context `{HostEndian} `{Driver}.
Context (cfg : NotifierConfig) (h : NetworkSignalHandler) (n : EventNames) (m : EventMap Modifier.t).

(** One input; the end of an iteration gives its outcome.  [None]: the notifier is not where the input needs it. *)
Definition pipeline_step (i : input) (p : pipe) : option (pipe * list outcome) :=
  let s := locals p in
  let t := ls_tracker s in
  match i, at_ p with
  | Event evt, _ => let! (t, _) := net_HandleSignal m h t evt in Some (set_tracker t p, [])
  | PublicIPs ips, _ => Some (set_tracker (ReceivePublicIPs t ips) p, [])
  | IPNetworks networks, _ => let! t := ReceiveIPNetworks t networks in Some (set_tracker t p, [])
  | Start it, Idle =>
      let '(t, ok) := UpdateAllConnsAndEndpoints cfg t it in
      if negb ok then let o := no_report s t in Some (mkPipe (oc_state o) Idle, [o])
      else Some (mkPipe (with_tracker t s) (Updated it), [])
  | Continue, Updated it => Some (mkPipe (with_tracker (SetExternalIPsConfig t (it_external_ips it)) s) (Configured it), [])
  | Continue, Configured it => let sn := take_snapshot cfg s it t in Some (mkPipe (with_tracker (sn_tracker sn) s) (Taken it sn), [])
  | Continue, Taken it sn => let o := finish_report cfg s it sn t in Some (mkPipe (oc_state o) Idle, [o])
  | _, _ => None
  end.

Fixpoint pipeline (ins : list input) (p : pipe) : option (pipe * list outcome) :=
  match ins with
  | [] => Some (p, [])
  | i :: ins =>
      let! (p, os) := pipeline_step i p in
      let! (p, os') := pipeline ins p in
      Some (p, os ++ os')
  end.

(** Without anything in between, an iteration is [run_iteration]. *)
Lemma pipeline_iteration s it :
  pipeline (if (UpdateAllConnsAndEndpoints cfg (ls_tracker s) it).2 then [Start it; Continue; Continue; Continue] else [Start it]) (mkPipe s Idle)
  = let o := run_iteration cfg s it in Some (mkPipe (oc_state o) Idle, [o]).
Proof.
  unfold run_iteration. destruct (UpdateAllConnsAndEndpoints cfg (ls_tracker s) it) as [t ok] eqn:E. cbn [snd].
  destruct ok; cbn [negb pipeline pipeline_step locals at_]; rewrite E; reflexivity.
Qed.

(** *** Schedules *)

Inductive place := AtIdle | AtUpdated | AtConfigured | AtTaken.

Definition place_of (p : phase) : place :=
  match p with Idle => AtIdle | Updated _ => AtUpdated | Configured _ => AtConfigured | Taken _ _ => AtTaken end.

Definition scraped (it : iteration) : bool := TurnOffScrape cfg || bool_decide (is_Some (it_scrape it)).

(** Where the notifier is after an input; a failed scrape ends the iteration. *)
Definition next_place (i : input) (a : place) : option place :=
  match i, a with
  | Start it, AtIdle => Some (if scraped it then AtUpdated else AtIdle)
  | Continue, AtUpdated => Some AtConfigured
  | Continue, AtConfigured => Some AtTaken
  | Continue, AtTaken => Some AtIdle
  | Start _, _ | Continue, AtIdle => None
  | _, _ => Some a
  end.

Fixpoint schedule (ins : list input) (a : place) : option place :=
  match ins with [] => Some a | i :: ins => let! a := next_place i a in schedule ins a end.

(** ** What is said about a connection *)

(** An event says of its connection that it is open or closed; a scrape says of every connection
    whether it is there. *)
Inductive says (c : Connection) : input -> bool -> Prop :=
| says_event evt d : reports h evt c d -> says c (Event evt) d
| says_scrape it conns eps : TurnOffScrape cfg = false -> it_scrape it = Some (conns, eps) -> says c (Start it) (existsb (conn_eqb c) conns).

(** The last thing said, with the latest input first. *)
Inductive last_says (c : Connection) : list input -> bool -> Prop :=
| says_here i ins b : says c i b -> last_says c (i :: ins) b
| says_before i ins b : (forall b', ~ says c i b') -> last_says c ins b -> last_says c (i :: ins) b.

(** When an input says something. *)
Definition stamp (i : input) : option Z :=
  match i with
  | Event evt => Some (micros evt)
  | Start it => if TurnOffScrape cfg then None else (fun _ => it_ts it) <$> it_scrape it
  | _ => None
  end.

Definition later (i j : input) : Prop := forall a b, stamp i = Some a -> stamp j = Some b -> b < a.

(** Inputs, the latest first, come in the order of their times. *)
Fixpoint ordered (ins : list input) : Prop :=
  match ins with [] => True | i :: ins => Forall (later i) ins /\ ordered ins end.

Definition input_ok (i : input) : Prop :=
  match i with
  | Event evt => evt_ok evt
  | IPNetworks networks => bytes_ok (ipv4_networks networks) /\ bytes_ok (ipv6_networks networks)
  | Start it => 0 <= it_ts it < 2 ^ 63 /\
      match it_scrape it with
      | Some (conns, eps) => Forall (conn_class addr_net) conns /\ Forall (cep_class addr_net) eps
      | None => True
      end
  | PublicIPs _ | Continue => True
  end.

(** The normalized connections of every snapshot are in [Q]. *)
Definition normalizes_in (Q : Connection -> Prop) (t : ConnectionTracker) : Prop :=
  Forall (fun e => Q (NormalizeConnectionNoLock t e.1)) (conn_state_ t).

Fixpoint keys_in (Q : Connection -> Prop) (ins : list input) (p : pipe) : Prop :=
  match ins with
  | [] => True
  | i :: ins =>
      match i, at_ p with Continue, Configured _ => normalizes_in Q (ls_tracker (locals p)) | _, _ => True end /\
      match pipeline_step i p with Some (p, _) => keys_in Q ins p | None => True end
  end.

(** The reports' clock does not go back, and with afterglow they have the external-IPs setting of the start. *)
Fixpoint reports_ok (now : Z) (external : ExternalIPsConfig) (ins : list input) : Prop :=
  match ins with
  | [] => True
  | Start it :: ins =>
      now <= it_time_micros it /\ (EnableAfterglow cfg = true -> it_external_ips it = external) /\ reports_ok (it_time_micros it) external ins
  | _ :: ins => reports_ok now external ins
  end.

(** ** Lemmas *)

Context (Hnames : EventNames_make = Some n) (Hmap : modifiers n = Some m) (Hready : extractor_ready_ h = true).

(** An event is about one connection. *)
Lemma reports_once evt c d c' d' : reports h evt c d -> reports h evt c' d' -> c' = c.
Proof.
  intros (_ & Hr & _) (_ & Hr' & _). destruct (GetConnection_spec h evt Hready) as (r & _ & Hf). apply Hf in Hr, Hr'. congruence.
Qed.

Lemma says_fun c i b b' : says c i b -> says c i b' -> b = b'.
Proof.
  intros Hb Hb'. destruct Hb as [evt d Hr|it conns eps Ht Hs]; inversion Hb'; subst; [|congruence].
  by apply (reports_fun h evt c d c b').
Qed.

Lemma last_says_fun c ins b : last_says c ins b -> forall b', last_says c ins b' -> b = b'.
Proof.
  induction 1 as [i ins b Hs|i ins b Hn Hl IH]; inversion 1; subst; [by eapply says_fun|naive_solver..|auto].
Qed.

(** The entries of the tracker and what has been said, the latest first. *)
Record knows (ins : list input) (t : ConnectionTracker) : Prop := {
  kn_ok : tracker_ok t;
  kn_some c s : conn_class addr_net c -> Lookup (conn_state_ t) c = Some s ->
    last_says c ins (IsActive s) /\ exists i a, i ∈ ins /\ stamp i = Some a /\ LastActiveTime s <= a;
  kn_none c : conn_class addr_net c -> Lookup (conn_state_ t) c = None -> ~ last_says c ins true
}.

(** An input that says nothing leaves the connections as they are. *)
Lemma knows_silent ins i t t' :
  knows ins t -> (forall c b, ~ says c i b) -> tracker_ok t' -> conn_state_ t' = conn_state_ t -> knows (i :: ins) t'.
Proof.
  intros [_ Hs Hn] Hi Ht E. split; [done|..]; intros c; rewrite E.
  - intros s Hc El. destruct (Hs c s Hc El) as (Hl & j & a & Hj & Ha). split; [by apply says_before|]. exists j, a. by rewrite elem_of_cons; auto.
  - intros Hc El Hl. apply (Hn c Hc El). inversion Hl; subst; [by destruct (Hi c true)|done].
Qed.

(** The stored times are before a later input's. *)
Lemma knows_earlier ins i t c s a :
  knows ins t -> conn_class addr_net c -> Lookup (conn_state_ t) c = Some s -> Forall (later i) ins -> stamp i = Some a -> LastActiveTime s < a.
Proof.
  intros Hk Hc El Hl Ha. destruct (kn_some _ _ Hk c s Hc El) as (_ & j & b & Hj & Hb & Hle).
  rewrite Forall_forall in Hl. specialize (Hl j Hj a b Ha Hb). lia.
Qed.

Lemma knows_event ins evt t c d :
  knows ins t -> evt_ok evt -> Forall (later (Event evt)) ins -> reports h evt c d ->
  knows (Event evt :: ins) (UpdateConnection t c (micros evt) d).
Proof.
  intros Hk Hok Hl Hr. pose proof (micros_bound evt Hok) as Hm.
  assert (conn_class addr_net c) as Hc by (by apply (reported_class h evt), Hr).
  pose proof (kn_ok _ _ Hk) as Ht. split; [by apply tracker_ok_UpdateConnection|..]; intros k; [intros s|]; intros Hkc;
    rewrite UpdateConnection_lookup by done; destruct (decide (k = c)) as [->|Hne].
  - intros [= <-].
    assert (newer (Lookup (conn_state_ t) c) (ConnStatus_make (micros evt) d) = ConnStatus_make (micros evt) d) as ->.
    { unfold newer. destruct (Lookup (conn_state_ t) c) as [s|] eqn:El; [|done]. rewrite make_last by done.
      by rewrite (proj2 (Z.ltb_lt _ _) (knows_earlier _ _ _ _ _ _ Hk Hc El Hl eq_refl)). }
    rewrite make_active, make_last by done. split; [apply says_here; by constructor|].
    exists (Event evt), (micros evt). split_and!; [apply elem_of_cons; by left|done|lia].
  - intros El. destruct (kn_some _ _ Hk k s Hkc El) as (Hs & j & a & Hj & Ha). split.
    + apply says_before; [|done]. intros b Hb. inversion Hb as [? ? Hr'|]; subst.
      by destruct (Hne (reports_once evt c d k b Hr Hr')).
    + exists j, a. by rewrite elem_of_cons; auto.
  - done.
  - intros El Hs. apply (kn_none _ _ Hk k Hkc El). inversion Hs as [? ? ? Hb|]; subst; [|done].
    inversion Hb as [? ? Hr'|]; subst. by destruct (Hne (reports_once evt c d k true Hr Hr')).
Qed.

Lemma knows_scrape ins it t conns eps eps' :
  knows ins t -> TurnOffScrape cfg = false -> it_scrape it = Some (conns, eps) -> input_ok (Start it) -> Forall (cep_class addr_net) eps' ->
  Forall (later (Start it)) ins -> knows (Start it :: ins) (Update t conns eps' (it_ts it)).
Proof.
  intros Hk Ho Es Hok He Hl. cbn [input_ok] in Hok. rewrite Es in Hok. destruct Hok as (Hts & Hcs & _).
  pose proof (kn_ok _ _ Hk) as Ht. assert (stamp (Start it) = Some (it_ts it)) as Hst by (cbn; by rewrite Ho, Es).
  assert (forall c, says c (Start it) (existsb (conn_eqb c) conns)) as Hsays by (intros c; by apply (says_scrape c it conns eps)).
  split; [by apply tracker_ok_Update|..]; intros c; [intros s|]; intros Hc; rewrite Update_lookup by done; unfold update_of;
    destruct (existsb (conn_eqb c) conns) eqn:Ee.
  - intros [= <-]. assert (newer (SetActive false <$> Lookup (conn_state_ t) c) (ConnStatus_make (it_ts it) true) = ConnStatus_make (it_ts it) true) as ->.
    { unfold newer. destruct (Lookup (conn_state_ t) c) as [s|] eqn:El; [|done]. cbn [fmap option_fmap option_map].
      assert (wf_status s) as Hs by (by apply (statuses_lookup (conn_state_ t) c); [apply Ht|]).
      rewrite SetActive_last, make_last by done. by rewrite (proj2 (Z.ltb_lt _ _) (knows_earlier _ _ _ _ _ _ Hk Hc El Hl Hst)). }
    rewrite make_active, make_last by done. split; [apply says_here; by rewrite <- Ee|].
    exists (Start it), (it_ts it). split_and!; [apply elem_of_cons; by left|done|lia].
  - destruct (Lookup (conn_state_ t) c) as [s0|] eqn:El; [|done]. intros [= <-].
    assert (wf_status s0) as Hs by (by apply (statuses_lookup (conn_state_ t) c); [apply Ht|]).
    rewrite SetActive_false, SetActive_last by done. split; [apply says_here; by rewrite <- Ee|].
    destruct (kn_some _ _ Hk c s0 Hc El) as (_ & j & a & Hj & Ha). exists j, a. by rewrite elem_of_cons; auto.
  - done.
  - intros _ Hb. specialize (Hsays c). rewrite Ee in Hsays. pose proof (last_says_fun c _ _ Hb false ltac:(by apply says_here)). done.
Qed.

(** Clearing the inactive connections. *)
Lemma knows_cleared ins t t' :
  knows ins t -> tracker_ok t' -> conn_state_ t' = List.filter (fun e => IsActive e.2) (conn_state_ t) -> knows ins t'.
Proof.
  intros Hk Ht E.
  assert (forall c, conn_class addr_net c -> Lookup (conn_state_ t') c =
    match Lookup (conn_state_ t) c with Some s => if IsActive s then Some s else None | None => None end) as Hl.
  { intros c Hc. rewrite E. unfold Lookup. rewrite (Find_filter (conn_class addr_net)) by (done || apply Hk).
    destruct (Find (conn_state_ t) c) as [e|]; [|done]. cbn. by destruct (IsActive e.2). }
  split; [done|..]; intros c; [intros s|]; intros Hc; rewrite Hl by done; destruct (Lookup (conn_state_ t) c) as [s0|] eqn:El.
  - destruct (IsActive s0) eqn:Ea; [|done]. intros [= <-]. by apply (kn_some _ _ Hk c s0 Hc).
  - done.
  - destruct (IsActive s0) eqn:Ea; [done|]. intros _ Hs. destruct (kn_some _ _ Hk c s0 Hc El) as (Hs' & _).
    rewrite Ea in Hs'. by pose proof (last_says_fun c _ _ Hs _ Hs').
  - intros _. by apply (kn_none _ _ Hk c Hc).
Qed.

(** *** The notifier's operations *)

Lemma tracker_ok_stats t stats : tracker_ok t -> tracker_ok (set_stats stats t).
Proof. intros []; by split. Qed.

(** An input that says nothing about connections, on a tracker with the same connections. *)
Lemma knows_continue ins t t' : knows ins t -> tracker_ok t' -> conn_state_ t' = conn_state_ t -> knows (Continue :: ins) t'.
Proof. intros Hk Ht E. apply (knows_silent ins Continue t); [done| |done|done]. intros c b Hb. inversion Hb. Qed.

Lemma update_knows ins t it :
  knows ins t -> input_ok (Start it) -> Forall (later (Start it)) ins -> knows (Start it :: ins) (UpdateAllConnsAndEndpoints cfg t it).1.
Proof.
  intros Hk Hok Hl. unfold UpdateAllConnsAndEndpoints. destruct (TurnOffScrape cfg) eqn:Eo; cbn [fst].
  - apply (knows_silent ins (Start it) t); [done| |apply Hk|done]. intros c b Hb. inversion Hb. congruence.
  - destruct (it_scrape it) as [[conns eps]|] eqn:Es; cbn [fst].
    + eapply knows_scrape; try done. destruct (ScrapeListenEndpoints cfg); [|constructor]. cbn [input_ok] in Hok. rewrite Es in Hok. apply Hok.
    + apply (knows_silent ins (Start it) t); [done| |apply Hk|done]. intros c b Hb. inversion Hb. congruence.
Qed.

Lemma update_scraped t it : (UpdateAllConnsAndEndpoints cfg t it).2 = scraped it.
Proof. unfold UpdateAllConnsAndEndpoints, scraped. destruct (TurnOffScrape cfg); [done|]. by destruct (it_scrape it) as [[]|]. Qed.

Lemma fetch_knows ins t : knows ins t -> knows (Continue :: ins) (FetchConnState t true true).2.
Proof.
  intros Hk. destruct (FetchConnState_members t true true) as (Ec & _ & _).
  apply (knows_cleared _ t); [apply (knows_continue _ t); [done|apply Hk|done]| |done]. apply tracker_ok_FetchConnState, Hk.
Qed.

Lemma fetch_endpoints_knows ins t stats : knows ins t -> knows (Continue :: ins) (set_stats stats (FetchEndpointState t true true).2).
Proof.
  intros Hk. destruct (FetchEndpointState_members t true true) as (_ & Ee & _).
  apply (knows_continue _ t); [done|apply tracker_ok_stats, tracker_ok_FetchEndpointState, Hk|done].
Qed.

(** *** Snapshots *)

Lemma merge_active l : Forall wf_status l ->
  from_option IsActive false (merge_all l) = existsb IsActive l.
Proof.
  unfold merge_all.
  assert (forall acc, from_option wf_status True acc -> Forall wf_status l ->
    from_option IsActive false (fold_left (fun acc s => Some (match acc with Some a => MergeFrom a s | None => s end)) l acc)
    = from_option IsActive false acc || existsb IsActive l) as Hg; [|by apply (Hg None)].
  induction l as [|s l IH]; intros acc Ha Hl; cbn [fold_left existsb]; [by rewrite orb_false_r|]. apply Forall_cons in Hl as [Hs Hl].
  destruct acc as [a|]; cbn [from_option] in *.
  - assert (wf_status (MergeFrom a s)) as Hm by (unfold wf_status, MergeFrom, word in *; cbn; lia).
    rewrite IH by done. cbn [from_option]. rewrite !IsActive_spec by done. cbn [status_data MergeFrom].
    rewrite orb_assoc. f_equal. destruct (Z.leb_spec (2 ^ 63) (status_data a)), (Z.leb_spec (2 ^ 63) (status_data s)),
      (Z.leb_spec (2 ^ 63) (Z.max (status_data a) (status_data s))); try done; lia.
  - by rewrite IH.
Qed.

(** A snapshot has a connection active if a tracked one that is active normalizes to it. *)
Lemma snapshot_active t (Q : Connection -> Prop) (HQ : KeyEqLaws Connection Q) k :
  tracker_ok t -> normalizes_in Q t -> Q k ->
  active_in (FetchConnState t true true).1 k = true <->
  exists c s, conn_class addr_net c /\ Lookup (conn_state_ t) c = Some s /\ IsActive s = true /\
    ShouldFetchConnection t c = true /\ conn_eqb k (NormalizeConnectionNoLock t c) = true.
Proof.
  intros Ht Hq Hk. unfold FetchConnState. rewrite FetchState_split. cbn [fst].
  set (f := if HasConnectionFilters t then Some (ShouldFetchConnection t) else None).
  destruct (fetch_lookup KeyEq_Connection Q HQ (NormalizeConnectionNoLock t) f (conn_state_ t)) as [_ El].
  { apply (Forall_impl _ _ _ Hq). done. }
  unfold active_in. rewrite (El k Hk).
  set (es := List.filter _ (conn_state_ t)).
  assert (Forall wf_status (map snd es)) as Hw.
  { apply List.Forall_map, List.Forall_forall. intros e [Hin _]%List.filter_In.
    pose proof (ok_conn_statuses _ Ht) as Hs. unfold statuses_ok in Hs. rewrite List.Forall_forall in Hs. by apply Hs. }
  pose proof (merge_active (map snd es) Hw) as Hm.
  assert (match merge_all (map snd es) with Some s => IsActive s | None => false end = existsb IsActive (map snd es)) as ->
    by (rewrite <- Hm; by destruct (merge_all (map snd es))).
  rewrite existsb_exists. split.
  - intros (s & ([c s'] & <- & [Hin Ha]%List.filter_In)%List.in_map_iff & Hs). cbn [fst snd] in *. apply andb_true_iff in Ha as [Ha Hkc].
    unfold f in Ha. rewrite accepted_filters in Ha. exists c, s'.
    pose proof (Find_self (conn_class addr_net) (conn_state_ t) (c, s') (ok_conns _ Ht) Hin) as Hf.
    split_and!; [by apply (wf_In (conn_class addr_net) (conn_state_ t) (c, s') (ok_conns _ Ht))| |done..]. unfold Lookup. cbn [fst] in Hf. by rewrite Hf.
  - intros (c & s & Hc & Hl & Hs & Hf & Hkc). unfold Lookup in Hl. destruct (Find (conn_state_ t) c) as [[c' s']|] eqn:Ef; [|done].
    injection Hl as ->. apply Find_Some in Ef as [Hin Heq]. cbn [fst] in Heq.
    pose proof (wf_In (conn_class addr_net) (conn_state_ t) (c', s) (ok_conns _ Ht) Hin) as Hc'. apply (conn_eqb_addr c c' Hc Hc') in Heq as <-.
    exists s. split; [|done]. apply List.in_map_iff. exists (c, s). split; [done|]. apply List.filter_In. split; [done|]. cbn [fst].
    unfold f. rewrite accepted_filters, Hf. exact Hkc.
Qed.

(** What has been said decides what a snapshot has. *)
Lemma snapshot_says ins t (Q : Connection -> Prop) (HQ : KeyEqLaws Connection Q) k :
  knows ins t -> normalizes_in Q t -> Q k ->
  active_in (FetchConnState t true true).1 k = true <->
  exists c, conn_class addr_net c /\ last_says c ins true /\ ShouldFetchConnection t c = true /\ conn_eqb k (NormalizeConnectionNoLock t c) = true.
Proof.
  intros Hk Hq Hkq. rewrite (snapshot_active t Q HQ k) by (done || apply Hk). split.
  - intros (c & s & Hc & Hl & Hs & Hf & Hn). exists c. split_and!; [done| |done..]. rewrite <- Hs. by apply (kn_some _ _ Hk).
  - intros (c & Hc & Hs & Hf & Hn). destruct (Lookup (conn_state_ t) c) as [s|] eqn:El.
    + exists c, s. split_and!; [done|done| |done..]. apply (last_says_fun c ins); [|done]. by apply (kn_some _ _ Hk).
    + by destruct (kn_none _ _ Hk c Hc El).
Qed.

(** *** Runs *)

Lemma ordered_app a b : ordered (a ++ b) -> ordered b.
Proof. induction a as [|i a IH]; [done|]. intros [_ Ho]. by apply IH. Qed.

Lemma schedule_app a b x : schedule (a ++ b) x = let! y := schedule a x in schedule b y.
Proof. revert x. induction a as [|i a IH]; intros x; [done|]. cbn [schedule app]. destruct (next_place i x); [apply IH|done]. Qed.

Lemma pipeline_app a b p :
  pipeline (a ++ b) p = let! (p1, os) := pipeline a p in let! (p2, os') := pipeline b p1 in Some (p2, os ++ os').
Proof.
  revert p. induction a as [|i a IH]; intros p; cbn [app pipeline]; [by destruct (pipeline b p) as [[]|]|].
  destruct (pipeline_step i p) as [[p1 os]|]; [|done]. rewrite IH. destruct (pipeline a p1) as [[p2 os2]|]; [|done].
  destruct (pipeline b p2) as [[p3 os3]|]; [|done]. by rewrite (assoc_L (++)).
Qed.

Section Run.
Context (t0 : Z) (external : ExternalIPsConfig) (Q : Connection -> Prop) (HQ : KeyEqLaws Connection Q) (k : Connection).

(** What holds in a phase, with the time of the current or last report. *)
Definition phase_ok (p : pipe) (now : Z) : Prop :=
  let pending it := now = it_time_micros it /\ (EnableAfterglow cfg = true -> it_external_ips it = external) in
  match at_ p with
  | Idle => True
  | Updated it => pending it
  | Configured it => pending it /\ external_ips_config_ (ls_tracker (locals p)) = it_external_ips it
  | Taken it sn => pending it /\ exists t, sn = take_snapshot cfg (locals p) it t /\ external_ips_config_ t = it_external_ips it /\ normalizes_in Q t
  end.

(** What holds after the inputs [past], the latest first, and the snapshots [hist]. *)
Record pipeline_inv (past : list input) (p : pipe) (hist : list (umap Connection ConnStatus * Z)) (v : bool) (now : Z) : Prop := {
  pi_knows : knows past (ls_tracker (locals p));
  pi_run : run_inv cfg t0 Q k (locals p) hist v now;
  pi_external : ls_prev_external_ips (locals p) = external;
  pi_phase : phase_ok p now
}.

Lemma snapshot_keys s it t t' : normalizes_in Q t -> snapshot_in Q (finish_report cfg s it (take_snapshot cfg s it t) t').
Proof.
  intros Hq. unfold snapshot_in. destruct (finish_report_members cfg s it (take_snapshot cfg s it t) t') as (-> & _ & _).
  destruct (take_snapshot_tracker cfg s it t) as [-> _]. unfold FetchConnState. rewrite FetchState_split. cbn [fst].
  apply (fetch_lookup KeyEq_Connection Q HQ (NormalizeConnectionNoLock t)). by apply (Forall_impl _ _ _ Hq).
Qed.

(** An input of another thread. *)
Lemma inv_tracker i past p hist v now t :
  pipeline_inv past p hist v now -> knows (i :: past) t -> external_ips_config_ t = external_ips_config_ (ls_tracker (locals p)) ->
  pipeline_inv (i :: past) (set_tracker t p) hist v now.
Proof.
  intros [_ Hr He Hp] Ht Ee. split; [done|by destruct Hr|done|]. destruct p as [s a]. unfold phase_ok in *. cbn [at_ locals set_tracker] in *.
  destruct a as [|it|it|it sn]; [done|done| |done]. cbn. by rewrite Ee.
Qed.

Lemma event_external t c ts d : external_ips_config_ (UpdateConnection t c ts d) = external_ips_config_ t.
Proof. unfold UpdateConnection. apply same_external, EmplaceOrUpdateNoLock_rest. Qed.

Lemma networks_ok t networks :
  tracker_ok t -> bytes_ok (ipv4_networks networks) -> bytes_ok (ipv6_networks networks) ->
  exists t', ReceiveIPNetworks t networks = Some t' /\ tracker_ok t' /\ conn_state_ t' = conn_state_ t
    /\ external_ips_config_ t' = external_ips_config_ t.
Proof.
  intros Ht H4 H6. destruct (exec_ok t (OpUpdateKnownIPNetworks (known_networks_of networks))) as (t' & E & Ht'); [done|by apply known_networks_wf|].
  exists t'. cbn [exec] in E. split_and!; [done|done|..]; (unfold UpdateKnownIPNetworks in E; destruct (known_tree _); [|done]; by injection E as <-).
Qed.

Lemma pipeline_inv_step past p hist v now i rest a :
  pipeline_inv past p hist v now -> input_ok i -> Forall (later i) past -> next_place i (place_of (at_ p)) = Some a ->
  keys_in Q (i :: rest) p -> reports_ok now external (i :: rest) ->
  exists p' os now', pipeline_step i p = Some (p', os) /\ place_of (at_ p') = a /\
    pipeline_inv (i :: past) p' (fold_left push os hist) (fold_left (fun v o => receive (oc_conn_delta o) k v) os v) now' /\
    keys_in Q rest p' /\ reports_ok now' external rest.
Proof.
  intros Hinv Hok Hl Hnext [Hq Hkeys] Hrep. pose proof Hinv as [Hkn Hr He Hp]. destruct p as [s ph].
  destruct i as [evt|ips|networks|it|]; cbn [pipeline_step reports_ok input_ok at_ locals] in *.
  - destruct (net_HandleSignal_spec n m h (ls_tracker s) evt Hnames Hmap Hready Hok) as [(c & d & Hc & E)|[Hno E]]; rewrite E in Hkeys |- *;
      (eexists _, _, now; split; [reflexivity|]; split_and!; [by destruct ph; injection Hnext as <-| |done|done]); apply (inv_tracker _ past); [done| |apply event_external|done| |done].
    + by apply knows_event.
    + apply (knows_silent _ _ (ls_tracker s)); [done| |apply Hkn|done]. intros c b Hb. inversion Hb; subst. by apply (Hno c b).
  - eexists _, _, now. split; [reflexivity|]. split_and!; [by destruct ph; injection Hnext as <-| |done|done]. apply (inv_tracker _ past); [done| |done].
    apply (knows_silent _ _ (ls_tracker s)); [done| |destruct (kn_ok _ _ Hkn); by split|done]. intros c b Hb. inversion Hb.
  - destruct (networks_ok (ls_tracker s) networks) as (t & E & Ht & Ec & Ee); [apply Hkn|apply Hok|apply Hok|].
    rewrite E in Hkeys |- *. eexists _, _, now. split; [reflexivity|]. split_and!; [by destruct ph; injection Hnext as <-| |done|done].
    apply (inv_tracker _ past); [done| |done]. apply (knows_silent _ _ (ls_tracker s)); [done| |done|done]. intros c b Hb. inversion Hb.
  - destruct ph; [|done..]. injection Hnext as <-. destruct Hrep as (Hnow & Hext & Hrep).
    pose proof (update_knows past (ls_tracker s) it Hkn Hok Hl) as Hu. pose proof (update_scraped (ls_tracker s) it) as Es.
    destruct (UpdateAllConnsAndEndpoints cfg (ls_tracker s) it) as [t ok]. cbn [fst snd] in Hu, Es. subst ok. destruct (scraped it); cbn [negb] in *;
      (eexists _, _, (it_time_micros it); split; [reflexivity|]; split_and!; [done| |done|done]); (split; [done| |done|done]).
    + destruct Hr. split; [cbn; lia|done..].
    + destruct Hr. split; [cbn; lia|done..].
  - destruct ph as [|it|it|it sn]; [done|..]; injection Hnext as <-; (eexists _, _, now; split; [reflexivity|]; split_and!; [done| |done|done]).
    + split; [|by destruct Hr|done|by split]. apply (knows_continue _ (ls_tracker s)); [done|destruct (kn_ok _ _ Hkn); by split|done].
    + destruct (take_snapshot_tracker cfg s it (ls_tracker s)) as [_ E]. destruct Hp as [Hp Ee]. split; [cbn; rewrite E; by apply fetch_knows|by destruct Hr|done|].
      split; [done|]. by exists (ls_tracker s).
    + destruct Hp as [[-> Hext] (t & -> & Ee & Hqt)]. cbn [at_ locals] in *.
      pose proof (report_parts cfg s it t (ls_tracker s) ltac:(intros G; rewrite He; by apply Hext) Ee) as Hrp.
      destruct (finish_report_members cfg s it (take_snapshot cfg s it t) (ls_tracker s)) as (_ & _ & stats & Et).
      cbn [fold_left]. split; [cbn [locals]; rewrite Et; by apply fetch_endpoints_knows| |cbn; by rewrite (proj1 Hrp)|done].
      apply (run_inv_report cfg t0 Q HQ k s hist v (it_time_micros it) it); [done|done|done|by apply snapshot_keys].
Qed.

Lemma pipeline_inv_run l : forall past p hist v now rest a,
  pipeline_inv past p hist v now -> Forall input_ok l -> ordered (rev l ++ past) -> schedule l (place_of (at_ p)) = Some a ->
  keys_in Q (l ++ rest) p -> reports_ok now external (l ++ rest) ->
  exists p' os now', pipeline l p = Some (p', os) /\ place_of (at_ p') = a /\
    pipeline_inv (rev l ++ past) p' (fold_left push os hist) (fold_left (fun v o => receive (oc_conn_delta o) k v) os v) now' /\
    keys_in Q rest p' /\ reports_ok now' external rest.
Proof.
  induction l as [|i l IH]; intros past p hist v now rest a Hi Hok Ho Hs Hkeys Hrep; [injection Hs as <-; by exists p, [], now|].
  apply Forall_cons in Hok as [Hoki Hok]. cbn [rev schedule] in Ho, Hs |- *. rewrite <- (assoc_L (++)) in Ho |- *. cbn [app] in *.
  destruct (next_place i (place_of (at_ p))) as [a1|] eqn:E0; [|done].
  destruct (pipeline_inv_step past p hist v now i (l ++ rest) a1) as (p1 & os1 & now1 & E1 & Ea & Hi1 & Hkeys1 & Hrep1); [done|done| |done|done|done|].
  { by apply ordered_app in Ho as [? _]. }
  rewrite <- Ea in Hs.
  destruct (IH _ _ _ _ _ rest a Hi1 Hok Ho Hs Hkeys1 Hrep1) as (p2 & os2 & now2 & E2 & Ea2 & Hi2 & Hrest). cbn [pipeline].
  exists p2, (os1 ++ os2), now2. rewrite E1, E2. split; [done|]. by rewrite !fold_left_app.
Qed.

Lemma pipeline_inv_start : pipeline_inv [] (mkPipe (RunSingle_start ConnectionTracker_new t0 external) Idle) [] false t0.
Proof.
  split; [|apply run_inv_start|done|done]. split; [apply tracker_ok_new|done|]. intros c _ _ Hs. inversion Hs.
Qed.

End Run.

(** ** The theorem *)

(** An input of another thread than the notifier's. *)
Definition other (i : input) : Prop := match i with Start _ | Continue => False | _ => True end.

Lemma other_pipeline l : forall p p' os, Forall other l -> pipeline l p = Some (p', os) -> os = [] /\ at_ p' = at_ p.
Proof.
  induction l as [|i l IH]; intros p p' os Hl E; cbn [pipeline] in E; [by injection E as <- <-|]. apply Forall_cons in Hl as [Hi Hl].
  assert (forall p1 os1, pipeline_step i p = Some (p1, os1) -> os1 = [] /\ at_ p1 = at_ p) as Hstep.
  { intros p1 os1 E1. destruct i; try done; cbn [pipeline_step] in E1; repeat case_match; by simplify_eq. }
  destruct (pipeline_step i p) as [[p1 os1]|]; [|done]. destruct (Hstep _ _ eq_refl) as [-> Ea].
  destruct (pipeline l p1) as [[p2 os2]|] eqn:E2; [|done]. injection E as <- <-. apply IH in E2 as [-> Ea2]; [|done]. by rewrite Ea2.
Qed.

Lemma other_schedule l a : Forall other l -> schedule l a = Some a.
Proof. induction 1 as [|i l Hi _ IH]; [done|]. cbn [schedule]. destruct i, a; done. Qed.

(** C1. From kernel events to Sensor.  Take any interleaving of kernel events, control messages and iterations of the notifier, at the
    granularity of operations on the tracker, up to where an iteration is about to take its snapshot ([before]); while it goes
    on to make its report, anything else may happen ([meanwhile]).  The inputs are well formed, events and scrapes are in the order of their
    times, all distinct, the clock of the reports does not go back, with afterglow the external-IPs setting is that of the start, and the normalized
    connections are legitimate keys of a hash container.

    Then the report is made, and a receiver of all differences so far knows exactly what the snapshots prescribe.  It knows a
    connection as open if a connection that is not filtered normalizes to it and is open, which means that the last event or
    scrape before the snapshot that said something about it said so; without afterglow it knows it as open only then. *)
Theorem Sensor_view (now : Z) (external : ExternalIPsConfig) (before meanwhile : list input)
    (hash_string : str -> Z) (Q : Connection -> Prop) (HQ : HashKeys Connection (conn_hash hash_string) Q) (k : Connection) :
  let start := mkPipe (RunSingle_start ConnectionTracker_new now external) Idle in
  let all := before ++ Continue :: meanwhile ++ [Continue] in
  Q k -> schedule before AtIdle = Some AtConfigured -> Forall other meanwhile ->
  Forall input_ok all -> ordered (rev all) -> keys_in Q all start -> reports_ok now external all ->
  exists p os p' o, pipeline before start = Some (p, os) /\ pipeline (Continue :: meanwhile ++ [Continue]) p = Some (p', [o]) /\
    let t := ls_tracker (locals p) in
    let open := exists c, conn_class addr_net c /\ last_says c (rev before) true /\
                  ShouldFetchConnection t c = true /\ conn_eqb k (NormalizeConnectionNoLock t c) = true in
    view_of k (os ++ [o]) = glow_view cfg (history_of (os ++ [o])) k /\
    (open -> view_of k (os ++ [o]) = true) /\
    (EnableAfterglow cfg = false -> view_of k (os ++ [o]) = true -> open).
Proof.
  intros start all Hk Hs Hother Hok Ho Hkeys Hrep. pose proof (hash_laws (P := Q)) as HL. subst all. rewrite rev_app_distr in Ho.
  apply Forall_app in Hok as [Hok1 Hok2].
  destruct (pipeline_inv_run now external Q HL k before [] start [] false now (Continue :: meanwhile ++ [Continue]) AtConfigured)
    as (p & os & now1 & E1 & Ep & Hi1 & Hkeys1 & Hrep1); [apply pipeline_inv_start|done| |done|done|done|].
  { rewrite app_nil_r. by eapply ordered_app. }
  rewrite app_nil_r in Hi1.
  destruct (pipeline_inv_run now external Q HL k (Continue :: meanwhile ++ [Continue]) (rev before) p _ _ now1 [] AtIdle Hi1 Hok2 Ho)
    as (p' & os' & now2 & E2 & _ & Hi2 & _).
  { rewrite Ep. cbn [schedule next_place]. rewrite schedule_app, other_schedule by done. done. }
  { by rewrite app_nil_r. }
  { by rewrite app_nil_r. }
  assert (exists o, os' = [o] /\ oc_snapshot o = Some (FetchConnState (ls_tracker (locals p)) true true).1) as (o & -> & Hsn).
  { destruct p as [s ph]. cbn [at_] in Ep. destruct ph as [|it|it|it sn]; try done. revert E2. cbn [pipeline pipeline_step at_ locals].
    rewrite pipeline_app. destruct (pipeline meanwhile _) as [[p2 os2]|] eqn:Em; [|done].
    apply other_pipeline in Em as [-> Ea]; [|done]. destruct p2 as [s2 ph2]. cbn [at_] in Ea. subst ph2. cbn. intros [= _ <-].
    eexists. split; [reflexivity|]. destruct (finish_report_members cfg s2 it (take_snapshot cfg s it (ls_tracker s)) (ls_tracker s2)) as (-> & _ & _).
    by destruct (take_snapshot_tracker cfg s it (ls_tracker s)) as [-> _]. }
  exists p, os, p', o. split; [done|]. split; [done|]. cbv zeta.
  assert (view_of k (os ++ [o]) = glow_view cfg (history_of (os ++ [o])) k) as Hv.
  { unfold view_of, history_of. rewrite !fold_left_app. pose proof (pi_run _ _ _ _ _ _ _ _ _ Hi2) as Hr.
    pose proof (ri_view _ _ _ _ _ _ _ _ Hr) as Ev. cbn [fold_left] in Ev, Hr |- *. rewrite Ev. apply (seen_of_view cfg now Q HL k Hk). apply (ri_history _ _ _ _ _ _ _ _ Hr). }
  split; [done|]. rewrite Hv. unfold history_of. rewrite fold_left_app. cbn [fold_left]. unfold push at 1 3. rewrite Hsn. cbn [glow_view].
  assert (normalizes_in Q (ls_tracker (locals p))) as Hq by (destruct p as [s []]; try done; by destruct Hkeys1).
  pose proof (snapshot_says (rev before) (ls_tracker (locals p)) Q HL k (pi_knows _ _ _ _ _ _ _ _ _ Hi1) Hq Hk) as Hopen. split.
  - intros Hop. apply Hopen in Hop. destruct (EnableAfterglow cfg); [|done]. unfold active_in in Hop.
    destruct (Lookup _ k) as [st|]; [|done]. unfold WasRecentlyActive. by rewrite Hop.
  - intros Hg. rewrite Hg. apply Hopen.
Qed.

End Pipeline.

(** *** Example *)

Module PipelineWitness.
Import NetSignals.Witnesses.
#[local] Existing Instance little_endian.
#[local] Existing Instance sample_driver.

(** Without scrapes and afterglow: a connection is opened and closed; an iteration begins, the connection is opened again
    before the snapshot, and closed before the report is made. *)
Definition plain : NotifierConfig := mkNotifierConfig true false false 0 10.
Definition last_report : iteration := mkIteration 100 None 110 ExternalIPsConfig_none true.
Definition before : list input := [Event (event 7 5000); Event (event 3 9000); Start last_report; Event (event 7 12000); Continue].
Definition meanwhile : list input := [PublicIPs (mkIPAddressList [] []); Event (event 3 15000)].
Definition norm : Connection := NormalizeConnectionNoLock ConnectionTracker_new the_conn.

Lemma only_norm : HashKeys Connection (conn_hash (fun _ => 0)) (ConnTracker.Witnesses.only norm).
Proof. apply ConnTracker.Witnesses.only_keys. vm_compute. reflexivity. Qed.

Lemma the_conn_class : conn_class addr_net the_conn.
Proof. split; apply ep_class_addr, wf_Address_octets. Qed.

Lemma reopened : reports NetworkSignalHandler_new (event 7 12000) the_conn true.
Proof.
  split_and!; [vm_compute; reflexivity| |vm_compute; reflexivity].
  destruct (GetConnection_spec NetworkSignalHandler_new (event 7 12000) eq_refl) as (r & E & Hr). apply Hr.
  assert (GetConnection NetworkSignalHandler_new (event 7 12000) = Some (Some the_conn)) as E' by (vm_compute; reflexivity). congruence.
Qed.

#[local] Instance only_dec k c : Decision (ConnTracker.Witnesses.only k c) := Connection_eq_dec c k.

#[local] Instance keys_in_dec k l : forall p, Decision (keys_in plain NetworkSignalHandler_new modifier_map (ConnTracker.Witnesses.only k) l p).
Proof.
  induction l as [|i l IH]; intros p; cbn [keys_in]; [apply _|].
  destruct (pipeline_step plain NetworkSignalHandler_new modifier_map i p) as [[p' os]|]; destruct i, (at_ p); unfold normalizes_in; apply _.
Defined.

Abbreviation start := (mkPipe (RunSingle_start ConnectionTracker_new 90 ExternalIPsConfig_none) Idle).

Lemma keys_hold : keys_in plain NetworkSignalHandler_new modifier_map (ConnTracker.Witnesses.only norm) (before ++ Continue :: meanwhile ++ [Continue]) start.
Proof. apply (bool_decide_unpack _). vm_compute. exact I. Qed.

Lemma norm_fetched :
  match pipeline plain NetworkSignalHandler_new modifier_map before start with
  | Some (p, _) => let t := ls_tracker (locals p) in
                   ShouldFetchConnection t the_conn && conn_eqb norm (NormalizeConnectionNoLock t the_conn)
  | None => false
  end = true.
Proof. vm_compute. reflexivity. Qed.

Lemma Sensor_view_witness :
  exists p os p' o, pipeline plain NetworkSignalHandler_new modifier_map before start = Some (p, os)
    /\ pipeline plain NetworkSignalHandler_new modifier_map (Continue :: meanwhile ++ [Continue]) p = Some (p', [o])
    /\ view_of norm (os ++ [o]) = true.
Proof.
  destruct (Sensor_view plain NetworkSignalHandler_new sample_event_names modifier_map sample_event_names_eq eq_refl eq_refl
    90 ExternalIPsConfig_none before meanwhile (fun _ => 0) (ConnTracker.Witnesses.only norm) only_norm norm) as (p & os & p' & o & E & E' & _ & Hopen & _).
  - reflexivity.
  - reflexivity.
  - repeat constructor.
  - repeat (apply Forall_cons_2; [cbn [input_ok]; unfold evt_ok, word; cbn; (exact I || (split; [lia|first [exact I|lia]]))|]). constructor.
  - cbn [rev app before meanwhile ordered]. repeat split; repeat (apply Forall_cons_2; [intros a b Ha Hb; try discriminate; injection Ha as <-; injection Hb as <-; reflexivity|]); constructor.
  - exact keys_hold.
  - split; [cbn; lia|]. split; [discriminate|exact I].
  - exists p, os, p', o. split; [exact E|]. split; [exact E'|]. pose proof norm_fetched as Hn. rewrite E in Hn. apply andb_true_iff in Hn as [H1 H2].
    apply Hopen. exists the_conn. split_and!; [exact the_conn_class| |exact H1|exact H2].
    apply says_before; [intros b Hb; inversion Hb|]. apply says_here. constructor. exact reopened.
Defined.

End PipelineWitness.
