(* ===== verification/ProcSignals.v ===== *)
(** * Process signals

    [collector/lib/ProcessSignalFormatter.cpp]: the message built for a process
    that was executed or found, with its lineage inside the container;
    [SignalServiceClient.cpp]: the client that streams the messages to Sensor; and
    [ProcessSignalHandler.cpp]: the handler that formats, limits and sends them.
    The inspector's thread table, the UTF-8 check, generated identifiers, the clock
    and the outcomes of the stream's operations are parameters. *)

From Stdlib Require Import Relation_Operators.
From S2P Require Import Prelude Containers Utility Stats Process RateLimit Events NetSignals.

(** ** The formatter *)

Record LineageInfo := mkLineageInfo { parent_uid : Z; parent_exec_file_path : str }.

(** [storage::ProcessSignal]; the time is the one given to
    [NanosecondsToTimestamp]. *)
Record ProcessSignal := mkProcessSignal {
  ps_id : str;
  ps_name : str;
  ps_exec_file_path : str;
  ps_args : str;
  ps_pid : Z;
  ps_uid : Z;
  ps_gid : Z;
  ps_time : Z;
  ps_container_id : str;
  ps_lineage_info : list LineageInfo;
  ps_scraped : bool
}.

(** [sensor::SignalStreamMessage] with its signal. *)
Record SignalStreamMessage := mkSignalStreamMessage { process_signal : ProcessSignal }.

Inductive ProcessSignalType : Set := EXECVE | UNKNOWN_PROCESS_TYPE.

(** [traverse_parent_state] of the thread manager calls the visitor on the
    ancestors of a thread until it returns false. *)
Class Inspector := {
  get_main_thread : sinsp_threadinfo -> option sinsp_threadinfo;
  traverse_parent_state :
    sinsp_threadinfo -> (list LineageInfo -> option sinsp_threadinfo -> list LineageInfo * bool) ->
    list LineageInfo -> list LineageInfo
}.

Definition NA : str := lit "<NA>".

(** Present, not empty and not "<NA>". *)
Definition usable (s : option str) : bool :=
  match s with
  | Some s => negb (bool_decide (s = [])) && negb (bool_decide (s = NA))
  | None => false
  end.

Definition empty (s : str) : bool := bool_decide (s = []).

(** [operator<<] and [ProcessDetails] only log; what a message is built from
    follows. *)
Definition ValidateProcessDetails (tinfo : option sinsp_threadinfo) : bool :=
  match tinfo with
  | None => false
  | Some tinfo => negb (bool_decide (ti_exepath tinfo = NA) && bool_decide (ti_comm tinfo = NA))
  end.

(** An [int] to which sizes are added. *)
Definition GetTotalStringLength (lineage : list LineageInfo) : Z :=
  fold_left (fun n l => to_signed 32 (n + Z.of_nat (length (parent_exec_file_path l)))) lineage 0.

Definition CountLineage (lineage : list LineageInfo) (stats : CollectorStats) : CollectorStats :=
  let totalStringLength := GetTotalStringLength lineage in
  let size := Z.of_nat (length lineage) in
  let stats := CounterInc process_lineage_counts stats in
  let stats := CounterAdd process_lineage_total size stats in
  let stats := CounterAdd process_lineage_sqr_total (size * size) stats in
  CounterAdd process_lineage_string_total totalStringLength stats.

(** The visitor of [GetProcessLineage]. *)
Definition lineage_visitor (lineage : list LineageInfo) (pt : option sinsp_threadinfo) : list LineageInfo * bool :=
  match pt with
  | None => (lineage, false)
  | Some pt =>
      if ti_pid pt =? 0 then (lineage, false)
      else if (if ti_vpid pt =? 0 then empty (GetContainerID (ti_cgroups pt)) else ti_pid pt =? ti_vpid pt)
      then (lineage, false)
      else if ti_vpid pt =? -1 then (lineage, false)
      else
        let lineage :=
          match last lineage with
          | Some back =>
              if bool_decide (parent_exec_file_path back = ti_exepath pt) then lineage
              else lineage ++ [mkLineageInfo (ti_uid pt) (ti_exepath pt)]
          | None => lineage ++ [mkLineageInfo (ti_uid pt) (ti_exepath pt)]
          end in
        (lineage, negb (10 <=? Z.of_nat (length lineage)))
  end.

Section Formatter.
Context `{Inspector} (SpanStructurallyValid : str -> nat).

Definition GetProcessLineage (tinfo : option sinsp_threadinfo) (lineage : list LineageInfo) (stats : CollectorStats)
  : list LineageInfo * CollectorStats :=
  match tinfo with
  | None => (lineage, stats)
  | Some tinfo =>
      match (if is_main_thread tinfo then Some tinfo else get_main_thread tinfo) with
      | None => (lineage, stats)
      | Some mt =>
          let lineage := traverse_parent_state mt lineage_visitor lineage in
          (lineage, CountLineage lineage stats)
      end
  end.

(** [sanitized ? *sanitized : s]. *)
Definition sanitize (s : str) : str := default s (SanitizedUTF8 SpanStructurallyValid s).

(** The arguments, sanitized, with a space after every one but the last. *)
Fixpoint proc_args_loop (it : list str) : str :=
  match it with
  | [] => []
  | arg :: it => sanitize arg ++ (match it with [] => [] | _ => [" "%char] end) ++ proc_args_loop it
  end.

Definition extract_proc_args (tinfo : sinsp_threadinfo) : str :=
  match ti_args tinfo with
  | [] => []
  | args => proc_args_loop args
  end.

(** [first] when it is usable, else [second] when that is; the field keeps its
    default otherwise. *)
Definition first_usable (first second : option str) : str :=
  if usable first then sanitize (default [] first)
  else if usable second then sanitize (default [] second)
  else [].

(** [CreateProcessSignal] of an event: [disable_args] is
    [config_.DisableProcessArguments()], [id] the generated identifier. *)
Definition CreateProcessSignal_evt (disable_args : bool) (id : str) (event : sinsp_evt) (stats : CollectorStats)
  : ProcessSignal * CollectorStats :=
  let tinfo := get_thread_info event in
  let name := ti_comm <$> tinfo in
  let exepath := ti_exepath <$> tinfo in
  let args :=
    if negb disable_args then
      match evt_proc_args event with
      | Some args => sanitize args
      | None => []
      end
    else [] in
  let '(lineage, stats) := GetProcessLineage tinfo [] stats in
  (mkProcessSignal id (first_usable name exepath) (first_usable exepath name) args
     (default 0 (ti_pid <$> tinfo)) (default 0 (ti_uid <$> tinfo)) (default 0 (ti_gid <$> tinfo))
     (get_ts event) (evt_GetContainerID event) lineage false, stats).

(** [CreateProcessSignal] of a thread. *)
Definition CreateProcessSignal_tinfo (id : str) (tinfo : sinsp_threadinfo) (stats : CollectorStats)
  : ProcessSignal * CollectorStats :=
  let name := ti_comm tinfo in
  let exepath := ti_exepath tinfo in
  let '(lineage, stats) := GetProcessLineage (Some tinfo) [] stats in
  (mkProcessSignal id (first_usable (Some name) (Some exepath)) (first_usable (Some exepath) (Some name))
     (extract_proc_args tinfo) (ti_pid tinfo) (ti_uid tinfo) (ti_gid tinfo)
     (ti_clone_ts tinfo) (GetContainerID (ti_cgroups tinfo)) lineage true, stats).

(** [ToProtoMessage] of an event; an outer [None] is a thrown exception. *)
Definition ToProtoMessage_evt (process_signals : EventMap ProcessSignalType) (disable_args : bool) (id : str)
    (event : sinsp_evt) (stats : CollectorStats) : option (option SignalStreamMessage * CollectorStats) :=
  match at_event process_signals (get_type event) with
  | None => None
  | Some UNKNOWN_PROCESS_TYPE => Some (None, stats)
  | Some EXECVE =>
      if negb (ValidateProcessDetails (get_thread_info event)) then Some (None, stats)
      else
        let '(signal, stats) := CreateProcessSignal_evt disable_args id event stats in
        Some (Some (mkSignalStreamMessage signal), stats)
  end.

(** [ToProtoMessage] of a thread. *)
Definition ToProtoMessage_tinfo (id : str) (tinfo : sinsp_threadinfo) (stats : CollectorStats)
  : option SignalStreamMessage * CollectorStats :=
  if negb (ValidateProcessDetails (Some tinfo)) then (None, stats)
  else
    let '(signal, stats) := CreateProcessSignal_tinfo id tinfo stats in
    (Some (mkSignalStreamMessage signal), stats).
End Formatter.

Definition process_signals `{Driver} (n : EventNames) : option (EventMap ProcessSignalType) :=
  EventMap_make n [(lit "execve<", EXECVE)] UNKNOWN_PROCESS_TYPE.

(** ** The client *)

(** [context_]: whether the pointer is set; [writer_]: the messages written on the
    stream, or a null pointer. *)
Record SignalServiceClient := mkSignalServiceClient {
  stream_active_ : bool;
  first_write_ : bool;
  context_ : bool;
  writer_ : option (list SignalStreamMessage)
}.

Definition SignalServiceClient_new : SignalServiceClient := mkSignalServiceClient false false false None.

(** What a pass of the stream's thread observes: the stop flag while it waits, the
    channel, the stop flag again, and the start of the stream. *)
Record attempt := mkAttempt { at_stop : bool; at_ready : bool; at_stop2 : bool; at_started : bool }.

(** [None]: the thread waits for the stream to be interrupted. *)
Definition EstablishGRPCStreamSingle (a : attempt) (c : SignalServiceClient) : option (SignalServiceClient * bool) :=
  if stream_active_ c && negb (at_stop a) then None
  else if at_stop a then Some (c, false)
  else if negb (at_ready a) then Some (c, false)
  else if at_stop2 a then Some (c, false)
  else if negb (at_started a) then
    Some (mkSignalServiceClient (stream_active_ c) (first_write_ c) true None, true)
  else Some (mkSignalServiceClient true true true (Some []), true).

(** [Stop], after the thread was joined; [None]: the null [context_] is
    dereferenced. *)
Definition client_Stop (c : SignalServiceClient) : option SignalServiceClient :=
  if context_ c then Some (mkSignalServiceClient (stream_active_ c) (first_write_ c) false (writer_ c))
  else None.

(** [write_ok] is the outcome of [writer_->Write]; [None]: the null [writer_] is
    dereferenced. *)
Definition PushSignals (write_ok : bool) (msg : SignalStreamMessage) (c : SignalServiceClient)
  : option (SignalServiceClient * SignalHandler.Result) :=
  if negb (stream_active_ c) then Some (c, SignalHandler.ERROR)
  else if first_write_ c then
    Some (mkSignalServiceClient (stream_active_ c) false (context_ c) (writer_ c), SignalHandler.NEEDS_REFRESH)
  else
    match writer_ c with
    | None => None
    | Some sent =>
        if negb write_ok then
          Some (mkSignalServiceClient false (first_write_ c) (context_ c) None, SignalHandler.ERROR)
        else
          Some (mkSignalServiceClient (stream_active_ c) (first_write_ c) (context_ c) (Some (sent ++ [msg])),
                SignalHandler.PROCESSED)
    end.

(** ** The handler *)

Definition compute_process_key (s : ProcessSignal) : str :=
  ps_container_id s ++ lit " " ++ ps_name s ++ lit " "
  ++ (if (length (ps_args s) <=? 256)%nat then ps_args s else take 256 (ps_args s))
  ++ lit " " ++ ps_exec_file_path s.

(** The counters of [system_inspector::Stats] the handler updates. *)
Record ProcessStats := mkProcessStats {
  nProcessSent : Z;
  nProcessSendFailures : Z;
  nProcessResolutionFailuresByEvt : Z;
  nProcessResolutionFailuresByTinfo : Z;
  nProcessRateLimitCount : Z
}.

Definition ProcessStats_new : ProcessStats := mkProcessStats 0 0 0 0 0.

Definition inc64 (x : Z) : Z := wrap 64 (x + 1).

Definition count_result (r : SignalHandler.Result) (s : ProcessStats) : ProcessStats :=
  match r with
  | SignalHandler.PROCESSED =>
      mkProcessStats (inc64 (nProcessSent s)) (nProcessSendFailures s) (nProcessResolutionFailuresByEvt s)
        (nProcessResolutionFailuresByTinfo s) (nProcessRateLimitCount s)
  | SignalHandler.ERROR =>
      mkProcessStats (nProcessSent s) (inc64 (nProcessSendFailures s)) (nProcessResolutionFailuresByEvt s)
        (nProcessResolutionFailuresByTinfo s) (nProcessRateLimitCount s)
  | _ => s
  end.

(** The handler and what it shares with the rest of the process; [calls] numbers
    its calls, for the parameters below. *)
Record ProcessSignalHandler := mkProcessSignalHandler {
  client_ : SignalServiceClient;
  rate_limiter_ : RateLimitCache;
  stats_ : ProcessStats;
  counters : CollectorStats;
  calls : nat
}.

Definition ProcessSignalHandler_new : ProcessSignalHandler :=
  mkProcessSignalHandler SignalServiceClient_new RateLimitCache_default ProcessStats_new CollectorStats_new 0.

(** The configuration, and what call [i] of the handler obtains from its
    environment: the UUID, the readings of the clock, the outcome of a write. *)
Class Environment := {
  DisableProcessArguments : bool;
  span_valid_utf8 : str -> nat;
  UUIDStr : nat -> str;
  clock : nat -> readings;
  write_ok : nat -> bool
}.

Section Handler.
Context `{Inspector} `{Environment}.

(** What follows the formatting, in both handlers. *)
Definition limit_and_push (msg : SignalStreamMessage) (h : ProcessSignalHandler)
  : option (ProcessSignalHandler * SignalHandler.Result) :=
  match cache_Allow (rate_limiter_ h) (clock (calls h)) (compute_process_key (process_signal msg)) (counters h) with
  | None => None
  | Some (limiter, counters, allowed) =>
      if negb allowed then
        Some (mkProcessSignalHandler (client_ h) limiter
                (mkProcessStats (nProcessSent (stats_ h)) (nProcessSendFailures (stats_ h))
                   (nProcessResolutionFailuresByEvt (stats_ h)) (nProcessResolutionFailuresByTinfo (stats_ h))
                   (inc64 (nProcessRateLimitCount (stats_ h))))
                counters (S (calls h)), SignalHandler.IGNORED)
      else
        match PushSignals (write_ok (calls h)) msg (client_ h) with
        | None => None
        | Some (client, result) =>
            Some (mkProcessSignalHandler client limiter (count_result result (stats_ h)) counters (S (calls h)), result)
        end
  end.

Definition HandleSignal (process_signals : EventMap ProcessSignalType) (evt : sinsp_evt) (h : ProcessSignalHandler)
  : option (ProcessSignalHandler * SignalHandler.Result) :=
  match ToProtoMessage_evt span_valid_utf8 process_signals DisableProcessArguments (UUIDStr (calls h)) evt (counters h) with
  | None => None
  | Some (None, counters) =>
      Some (mkProcessSignalHandler (client_ h) (rate_limiter_ h)
              (mkProcessStats (nProcessSent (stats_ h)) (nProcessSendFailures (stats_ h))
                 (inc64 (nProcessResolutionFailuresByEvt (stats_ h))) (nProcessResolutionFailuresByTinfo (stats_ h))
                 (nProcessRateLimitCount (stats_ h)))
              counters (S (calls h)), SignalHandler.IGNORED)
  | Some (Some signal_msg, counters) =>
      limit_and_push signal_msg
        (mkProcessSignalHandler (client_ h) (rate_limiter_ h) (stats_ h) counters (calls h))
  end.

Definition HandleExistingProcess (tinfo : sinsp_threadinfo) (h : ProcessSignalHandler)
  : option (ProcessSignalHandler * SignalHandler.Result) :=
  match ToProtoMessage_tinfo span_valid_utf8 (UUIDStr (calls h)) tinfo (counters h) with
  | (None, counters) =>
      Some (mkProcessSignalHandler (client_ h) (rate_limiter_ h)
              (mkProcessStats (nProcessSent (stats_ h)) (nProcessSendFailures (stats_ h))
                 (nProcessResolutionFailuresByEvt (stats_ h)) (inc64 (nProcessResolutionFailuresByTinfo (stats_ h)))
                 (nProcessRateLimitCount (stats_ h)))
              counters (S (calls h)), SignalHandler.IGNORED)
  | (Some signal_msg, counters) =>
      limit_and_push signal_msg
        (mkProcessSignalHandler (client_ h) (rate_limiter_ h) (stats_ h) counters (calls h))
  end.
End Handler.

Definition GetRelevantEvents : list str := [lit "execve<"].

Definition handler_Stop (h : ProcessSignalHandler) : option ProcessSignalHandler :=
  match client_Stop (client_ h) with
  | None => None
  | Some client =>
      Some (mkProcessSignalHandler client (ResetRateLimitCache (rate_limiter_ h)) (stats_ h) (counters h) (calls h))
  end.

(** ** Lineage *)

(** Calls of the visitor on successive ancestors, until it returns false. *)
Fixpoint visit (v : list LineageInfo -> option sinsp_threadinfo -> list LineageInfo * bool)
    (lineage : list LineageInfo) (pts : list (option sinsp_threadinfo)) : list LineageInfo :=
  match pts with
  | [] => lineage
  | pt :: pts =>
      let '(lineage, continue) := v lineage pt in
      if continue then visit v lineage pts else lineage
  end.

(** The inspector's promise: the thread's ancestors, nearest first, are visited
    until the visitor declines. *)
Class InspectorLaws `{Inspector} := {
  ancestors : sinsp_threadinfo -> list (option sinsp_threadinfo);
  traverse_visits t v lineage : traverse_parent_state t v lineage = visit v lineage (ancestors t)
}.

(** The ancestor is a process of the container. *)
Definition in_container (pt : option sinsp_threadinfo) : option LineageInfo :=
  match pt with
  | Some pt =>
      if negb (ti_pid pt =? 0)
         && (if ti_vpid pt =? 0 then negb (empty (GetContainerID (ti_cgroups pt))) else negb (ti_pid pt =? ti_vpid pt))
         && negb (ti_vpid pt =? -1)
      then Some (mkLineageInfo (ti_uid pt) (ti_exepath pt)) else None
  | None => None
  end.

(** The ancestors up to the container's boundary. *)
Fixpoint within (pts : list (option sinsp_threadinfo)) : list LineageInfo :=
  match pts with
  | [] => []
  | pt :: pts =>
      match in_container pt with
      | Some info => info :: within pts
      | None => []
      end
  end.

(** Runs of one executable are collapsed to their first entry. *)
Fixpoint collapse (prev : option str) (l : list LineageInfo) : list LineageInfo :=
  match l with
  | [] => []
  | i :: l =>
      if bool_decide (prev = Some (parent_exec_file_path i)) then collapse prev l
      else i :: collapse (Some (parent_exec_file_path i)) l
  end.

(** The reference: at most ten collapsed ancestors inside the container. *)
Definition lineage_ref (pts : list (option sinsp_threadinfo)) : list LineageInfo :=
  take 10 (collapse None (within pts)).

Lemma lineage_visitor_spec lineage pt :
  lineage_visitor lineage pt =
  match in_container pt with
  | None => (lineage, false)
  | Some i =>
      let lineage := if bool_decide (parent_exec_file_path <$> last lineage = Some (parent_exec_file_path i))
                     then lineage else lineage ++ [i] in
      (lineage, negb (10 <=? Z.of_nat (length lineage)))
  end.
Proof.
  destruct pt as [pt|]; [|done]. unfold lineage_visitor, in_container.
  destruct (ti_pid pt =? 0); [done|]. cbn [negb andb].
  destruct (if ti_vpid pt =? 0 then _ else _) eqn:E.
  - replace (if ti_vpid pt =? 0 then negb (empty (GetContainerID (ti_cgroups pt))) else negb (ti_pid pt =? ti_vpid pt))
      with false by (destruct (ti_vpid pt =? 0); by rewrite E). done.
  - replace (if ti_vpid pt =? 0 then negb (empty (GetContainerID (ti_cgroups pt))) else negb (ti_pid pt =? ti_vpid pt))
      with true by (destruct (ti_vpid pt =? 0); by rewrite E). cbn [andb].
    destruct (ti_vpid pt =? -1); [done|]. cbn [negb].
    destruct (last lineage) as [back|]; cbn [fmap option_fmap option_map parent_exec_file_path];
      repeat case_bool_decide; congruence.
Qed.

Lemma visit_lineage pts lineage :
  (length lineage < 10)%nat ->
  visit lineage_visitor lineage pts
  = take 10 (lineage ++ collapse (parent_exec_file_path <$> last lineage) (within pts)).
Proof.
  revert lineage. induction pts as [|pt pts IH]; intros lineage Hl.
  { cbn [visit within collapse]. rewrite app_nil_r, take_ge; [done|lia]. }
  cbn [visit within]. rewrite lineage_visitor_spec. destruct (in_container pt) as [i|].
  2:{ cbn [collapse]. rewrite app_nil_r, take_ge; [done|lia]. }
  cbn [collapse]. case_bool_decide as Eb; cbv zeta.
  - rewrite (proj2 (Z.leb_gt 10 _)) by lia. cbn [negb]. by rewrite IH.
  - rewrite length_app. cbn [length]. destruct (Z.leb_spec 10 (Z.of_nat (length lineage + 1))); cbn [negb].
    + replace (lineage ++ i :: collapse (Some (parent_exec_file_path i)) (within pts))
        with ((lineage ++ [i]) ++ collapse (Some (parent_exec_file_path i)) (within pts)) by by rewrite <- app_assoc.
      rewrite take_app_length'; [done|]. rewrite length_app. simpl. lia.
    + rewrite IH by (rewrite length_app; simpl; lia).
      by rewrite last_snoc, <- app_assoc.
Qed.

Lemma GetProcessLineage_ref `{InspectorLaws} tinfo stats mt :
  (if is_main_thread tinfo then Some tinfo else get_main_thread tinfo) = Some mt ->
  GetProcessLineage (Some tinfo) [] stats = (lineage_ref (ancestors mt), CountLineage (lineage_ref (ancestors mt)) stats).
Proof.
  intros E. unfold GetProcessLineage. rewrite E, traverse_visits, visit_lineage by (simpl; lia). done.
Qed.

(** Adjacent entries name different executables. *)
Definition alternating (l : list LineageInfo) : Prop :=
  forall i a b, l !! i = Some a -> l !! S i = Some b -> parent_exec_file_path a <> parent_exec_file_path b.

Lemma collapse_head prev l i : collapse prev l !! 0%nat = Some i -> prev <> Some (parent_exec_file_path i).
Proof.
  induction l as [|j l IH]; cbn [collapse]; [done|]. case_bool_decide; [done|]. by intros [= <-].
Qed.

Lemma collapse_alternating prev l : alternating (collapse prev l).
Proof.
  revert prev. induction l as [|j l IH]; intros prev; cbn [collapse]; [by intros ? ? ?|].
  case_bool_decide; [apply IH|]. intros [|i] a b; [|apply IH].
  intros [= <-] Hb. apply collapse_head in Hb. congruence.
Qed.

Lemma alternating_take n l : alternating l -> alternating (take n l).
Proof. intros Hl i a b [Ha _]%lookup_take_Some [Hb _]%lookup_take_Some. by apply (Hl i). Qed.

Lemma collapse_sub prev l i : In i (collapse prev l) -> In i l.
Proof.
  revert prev. induction l as [|j l IH]; intros prev; cbn [collapse]; [done|].
  case_bool_decide; [right; by apply (IH prev)|]. intros [->|Hi]; [by left|right; by eapply IH].
Qed.

(** ** Fields *)

Section Fields.
Context (span : str -> nat) (Hspan : span_laws span).

(** The strings of a message that were sanitized. *)
Definition valid_fields (s : ProcessSignal) : Prop :=
  valid span (ps_name s) /\ valid span (ps_exec_file_path s) /\ valid span (ps_args s).

(** [r] shows [first] if that is usable, else [second], else nothing. *)
Definition shows (first second : str) (r : str) : Prop :=
  (usable (Some first) = true /\ repaired first r)
  \/ (usable (Some first) = false /\ usable (Some second) = true /\ repaired second r)
  \/ (usable (Some first) = false /\ usable (Some second) = false /\ r = []).

Lemma sanitize_spec s : valid span (sanitize span s) /\ repaired s (sanitize span s).
Proof.
  unfold sanitize. pose proof (SanitizedUTF8_cases span Hspan s) as Hs.
  destruct (SanitizedUTF8 span s) as [r|]; cbn; [by destruct Hs as (_ & ? & ?)|]. split; [done|apply repaired_refl].
Qed.

Lemma valid_nil : valid span [].
Proof. pose proof (span_valid span Hspan []) as H0. by rewrite take_nil in H0. Qed.

Lemma first_usable_spec first second :
  valid span (first_usable span (Some first) (Some second)) /\ shows first second (first_usable span (Some first) (Some second)).
Proof.
  unfold first_usable, shows. destruct (usable (Some first)); [|destruct (usable (Some second))]; cbn [default];
    try (destruct (sanitize_spec first), (sanitize_spec second); tauto).
  split; [apply valid_nil|]. tauto.
Qed.

Lemma proc_args_valid l : valid span (proc_args_loop span l).
Proof.
  induction l as [|a [|b l] IH]; cbn [proc_args_loop].
  - apply valid_nil.
  - rewrite !app_nil_r. apply sanitize_spec.
  - apply (span_app span Hspan); [apply sanitize_spec|].
    apply (span_app span Hspan); [by apply (span_ascii span Hspan)|apply IH].
Qed.

Lemma extract_proc_args_valid t : valid span (extract_proc_args span t).
Proof. unfold extract_proc_args. destruct (ti_args t); [apply valid_nil|apply proc_args_valid]. Qed.
End Fields.

(** ** The stream *)

(** A message is pushed, or the stream's thread makes a pass. *)
Inductive client_step : SignalServiceClient -> SignalServiceClient -> Prop :=
| client_push ok msg c c' r : PushSignals ok msg c = Some (c', r) -> client_step c c'
| client_establish a c c' b : EstablishGRPCStreamSingle a c = Some (c', b) -> client_step c c'.

Definition client_reachable : SignalServiceClient -> Prop :=
  clos_refl_trans_n1 SignalServiceClient client_step SignalServiceClient_new.

(** An active stream has its writer and its context, and a stream on which no
    refresh was requested yet is active and empty. *)
Record client_ok (c : SignalServiceClient) : Prop := {
  active_writer : stream_active_ c = true -> is_Some (writer_ c) /\ context_ c = true;
  fresh_empty : first_write_ c = true -> stream_active_ c = true /\ writer_ c = Some [];
  writer_context : is_Some (writer_ c) -> context_ c = true
}.

Lemma client_step_ok c c' : client_step c c' -> client_ok c -> client_ok c'.
Proof.
  intros [ok msg ? ? r E|a ? ? b E] Hok; pose proof Hok as [Ha Hf Hw].
  - revert E. unfold PushSignals. destruct (stream_active_ c0) eqn:Eact; cbn [negb]; [|by intros [= <- _]].
    destruct (first_write_ c0) eqn:Efw; [intros [= <- _]; split; cbn; naive_solver|].
    destruct (writer_ c0) as [sent|] eqn:Ew; [|done].
    destruct ok; intros [= <- _]; split; cbn; naive_solver.
  - revert E. unfold EstablishGRPCStreamSingle. destruct a as [s1 rdy s2 st]. cbn.
    destruct (stream_active_ c0 && negb s1) eqn:Ew; [done|].
    destruct s1; [by intros [= <- _]|]. destruct rdy; [|by intros [= <- _]].
    destruct s2; [by intros [= <- _]|]. rewrite andb_true_r in Ew.
    destruct st; intros [= <- _]; split; cbn; try done; try (intros E; rewrite E in Ew; done).
    intros E. destruct (Hf E). congruence.
Qed.

Lemma client_reachable_ok c : client_reachable c -> client_ok c.
Proof. induction 1; [split; cbn; try done; by intros []|by eapply client_step_ok]. Qed.

(** ** Stopping the client *)

(** The thread of the client waits on [stream_interrupted_] while the stream is
    active; [SignalServiceClient::Stop] notifies it and then
    [StoppableThread::Stop] sets the flag and joins it.  No mutex orders the two.
    The waiting thread: about to evaluate its predicate, blocked, or done. *)
Inductive waiter : Set := Evaluating | Blocked | Returned.

(** The stopping thread: before [notify_one], before the flag is set, joining,
    joined. *)
Inductive stopper : Set := BeforeNotify | BeforeFlag | Joining | Joined.

Record stopping := mkStopping { waiting : waiter; stopping_at : stopper; should_stop_ : bool }.

(** The stream stays active: no event is pushed once the collector is stopping. *)
Inductive stop_step : stopping -> stopping -> Prop :=
| step_predicate st p flag :
    st = mkStopping Evaluating p flag ->
    stop_step st (mkStopping (if flag then Returned else Blocked) p flag)
| step_notify w flag :
    stop_step (mkStopping w BeforeNotify flag)
              (mkStopping (match w with Blocked => Evaluating | w => w end) BeforeFlag flag)
| step_flag w flag : stop_step (mkStopping w BeforeFlag flag) (mkStopping w Joining true)
| step_join flag : stop_step (mkStopping Returned Joining flag) (mkStopping Returned Joined flag).

Definition stop_stuck (st : stopping) : Prop :=
  stopping_at st <> Joined /\ forall st', ~ stop_step st st'.

(** ** Theorems *)

(** C23. The reported lineage is the reference one: the ancestors of the process's
    main thread up to the boundary of the container, with runs of one executable
    collapsed, cut at ten.  So it has at most ten entries, no two neighbours name the
    same executable, and every entry describes an ancestor inside the container. *)
Theorem ProcessLineage_spec `{InspectorLaws} (tinfo mt : sinsp_threadinfo) (stats : CollectorStats)
    (Hmain : (if is_main_thread tinfo then Some tinfo else get_main_thread tinfo) = Some mt) :
  let lineage := (GetProcessLineage (Some tinfo) [] stats).1 in
  lineage = lineage_ref (ancestors mt)
  /\ (length lineage <= 10)%nat
  /\ alternating lineage
  /\ forall i, In i lineage -> exists pt, In pt (ancestors mt) /\ in_container pt = Some i.
Proof.
  cbv zeta. rewrite (GetProcessLineage_ref tinfo stats mt Hmain). cbn [fst]. split_and!; [done|..].
  - unfold lineage_ref. rewrite length_take. lia.
  - apply alternating_take, collapse_alternating.
  - intros i Hi. unfold lineage_ref in Hi.
    assert (In i (within (ancestors mt))) as Hw.
    { apply (collapse_sub None). rewrite <- (take_drop 10). apply in_or_app. by left. }
    clear Hi. induction (ancestors mt) as [|pt pts IH]; [done|]. cbn [within] in Hw.
    destruct (in_container pt) as [j|] eqn:Ej; [|done]. destruct Hw as [->|Hw].
    + exists pt. split; [by left|done].
    + destruct (IH Hw) as (pt' & ? & ?). exists pt'. split; [by right|done].
Qed.

(** The text of a message: whatever bytes the process's name, path and
    arguments contain, the fields sent are valid UTF-8; the name is the process's
    name or else its path and the path is the path or else the name, each equal to
    the original except for characters replaced by '?'; with arguments disabled, an
    executed process is sent without them. *)
Theorem ProcessSignal_text `{Inspector} (span : str -> nat) (Hspan : span_laws span) :
  (forall m disable id evt stats stats' msg,
     ToProtoMessage_evt span m disable id evt stats = Some (Some msg, stats') ->
     exists t, get_thread_info evt = Some t /\ valid_fields span (process_signal msg)
       /\ shows (ti_comm t) (ti_exepath t) (ps_name (process_signal msg))
       /\ shows (ti_exepath t) (ti_comm t) (ps_exec_file_path (process_signal msg))
       /\ (disable = true -> ps_args (process_signal msg) = []))
  /\ (forall id t stats stats' msg,
     ToProtoMessage_tinfo span id t stats = (Some msg, stats') ->
     valid_fields span (process_signal msg)
       /\ shows (ti_comm t) (ti_exepath t) (ps_name (process_signal msg))
       /\ shows (ti_exepath t) (ti_comm t) (ps_exec_file_path (process_signal msg))).
Proof.
  split.
  - intros m disable id evt stats stats' msg. unfold ToProtoMessage_evt, CreateProcessSignal_evt.
    destruct (at_event m (get_type evt)) as [[]|]; try done.
    destruct (get_thread_info evt) as [t|]; [|done].
    destruct (ValidateProcessDetails (Some t)); [|done]. cbn [negb].
    destruct (GetProcessLineage (Some t) [] stats) as [lin st]. intros [= <- _]. exists t. split; [done|].
    destruct (first_usable_spec span Hspan (ti_comm t) (ti_exepath t)) as [Hn Sn].
    destruct (first_usable_spec span Hspan (ti_exepath t) (ti_comm t)) as [He Se].
    split; [split_and!; [exact Hn|exact He|]|split_and!; [exact Sn|exact Se|]]; cbn [process_signal ps_args].
    + destruct disable; [by apply valid_nil|]. destruct (evt_proc_args evt); [by apply sanitize_spec|by apply valid_nil].
    + by intros ->.
  - intros id t stats stats' msg. unfold ToProtoMessage_tinfo, CreateProcessSignal_tinfo.
    destruct (ValidateProcessDetails (Some t)); [|done]. cbn [negb].
    destruct (GetProcessLineage (Some t) [] stats) as [lin st]. intros [= <- _].
    destruct (first_usable_spec span Hspan (ti_comm t) (ti_exepath t)) as [Hn Sn].
    destruct (first_usable_spec span Hspan (ti_exepath t) (ti_comm t)) as [He Se].
    split; [split_and!; [exact Hn|exact He|]|split; [exact Sn|exact Se]]. by apply extract_proc_args_valid.
Qed.


(** Stopping can hang: the notification of [Stop] comes before the flag
    that the waiting thread's predicate reads, so a thread woken in between goes back
    to sleep and the join never returns; once the flag is set before the predicate
    is evaluated the join does return. *)
Theorem Stop_lost_wakeup :
  (exists st, clos_refl_trans_1n stopping stop_step (mkStopping Blocked BeforeNotify false) st /\ stop_stuck st)
  /\ (forall flag, clos_refl_trans_1n stopping stop_step (mkStopping Evaluating BeforeFlag flag) (mkStopping Returned Joined true)).
Proof.
  split.
  - exists (mkStopping Blocked Joining true). split.
    + econstructor 2; [apply step_notify|].
      econstructor 2; [by eapply step_predicate|].
      econstructor 2; [apply step_flag|]. constructor.
    + split; [done|]. intros st' Hs. inversion Hs; subst; done.
  - intros flag. econstructor 2; [apply step_flag|].
    econstructor 2; [by eapply step_predicate|].
    econstructor 2; [apply step_join|]. constructor.
Qed.

(** ** Witnesses *)

(** A container whose shell was started twice in a row by its init process, below
    the runtime of the host. *)
Definition sample_ancestors (t : sinsp_threadinfo) : list (option sinsp_threadinfo) :=
  if ti_pid t =? 40 then
    [ Some (sample_thread 30 3 (lit "/bin/sh")); Some (sample_thread 20 2 (lit "/bin/sh"));
      Some (sample_thread 10 1 (lit "/init")); Some (sample_thread 5 5 (lit "/usr/bin/runc")) ]
  else if ti_pid t =? 50 then [ Some (sample_thread 30 3 [chr 47; chr 200]) ]
  else [].

Definition sample_inspector : Inspector := {|
  get_main_thread := Some;
  traverse_parent_state t v lineage := visit v lineage (sample_ancestors t)
|}.

Definition sample_inspector_laws : @InspectorLaws sample_inspector :=
  @Build_InspectorLaws sample_inspector sample_ancestors (fun t v lineage => eq_refl).

Module Witnesses.
#[local] Existing Instance sample_driver.
#[local] Existing Instance sample_inspector.
#[local] Existing Instance sample_inspector_laws.

Definition the_thread : sinsp_threadinfo := sample_thread 40 4 (lit "/bin/ls").

Lemma ProcessLineage_witness :
  (GetProcessLineage (Some the_thread) [] CollectorStats_new).1
  = [mkLineageInfo 1000 (lit "/bin/sh"); mkLineageInfo 1000 (lit "/init")].
Proof.
  destruct (ProcessLineage_spec the_thread the_thread CollectorStats_new eq_refl) as (E & _ & _ & _).
  rewrite E. vm_compute. reflexivity.
Defined.

Definition signal_map : EventMap ProcessSignalType :=
  Eval vm_compute in default [] (process_signals sample_event_names).

(** A process whose name and arguments are not UTF-8. *)
Definition odd_thread : sinsp_threadinfo :=
  mkThreadinfo 40 [(lit "memory", sample_cgroup)] [chr 97; chr 200] (lit "/bin/ls") (lit "/bin/ls")
    [[chr 45; chr 255]] 0 0 4 0 true.

Definition exec_event (t : sinsp_threadinfo) : sinsp_evt :=
  mkEvt 1 5000 (Some t) None None (Some [chr 45; chr 255]) None None false.

Lemma ProcessSignal_text_witness :
  exists msg stats,
    ToProtoMessage_evt ascii_span signal_map false (lit "id") (exec_event odd_thread) CollectorStats_new
    = Some (Some msg, stats)
    /\ valid_fields ascii_span (process_signal msg) /\ ps_name (process_signal msg) = [chr 97; "?"%char].
Proof.
  destruct (ToProtoMessage_evt ascii_span signal_map false (lit "id") (exec_event odd_thread) CollectorStats_new)
    as [[[msg|] stats]|] eqn:E; [|vm_compute in E; discriminate E..].
  exists msg, stats. split; [reflexivity|]. split.
  - destruct (proj1 (ProcessSignal_text ascii_span ascii_span_laws) _ _ _ _ _ _ _ E) as (t & _ & Hv & _). exact Hv.
  - vm_compute in E. injection E as <- _. reflexivity.
Defined.

(** The path of an ancestor is sent as it is, valid UTF-8 or not. *)
Example lineage_unsanitized :
  exists msg stats, ToProtoMessage_tinfo ascii_span (lit "id") (sample_thread 50 5 (lit "/bin/ls")) CollectorStats_new
    = (Some msg, stats)
    /\ exists info, In info (ps_lineage_info (process_signal msg)) /\ ~ valid ascii_span (parent_exec_file_path info).
Proof.
  eexists _, _. split; [reflexivity|]. eexists. split; [left; reflexivity|]. vm_compute. discriminate.
Qed.

(** A process found in the table is sent with its arguments even where executed
    processes are sent without them. *)
Example existing_process_args :
  let env := {| DisableProcessArguments := true; span_valid_utf8 := ascii_span; UUIDStr := fun _ => lit "id";
                clock := fun _ => mkReadings 5 5 5; write_ok := fun _ => true |} in
  let t := mkThreadinfo 40 [(lit "memory", sample_cgroup)] (lit "ls") (lit "/bin/ls") (lit "/bin/ls")
             [lit "--secret"] 0 0 4 0 true in
  let h := mkProcessSignalHandler (mkSignalServiceClient true false true (Some [])) RateLimitCache_default
             ProcessStats_new CollectorStats_new 0 in
  exists h' msg, @HandleExistingProcess sample_inspector env t h = Some (h', SignalHandler.PROCESSED)
    /\ writer_ (client_ h') = Some [msg] /\ ps_args (process_signal msg) = lit "--secret".
Proof. cbv zeta. eexists _, _. split; [reflexivity|]. split; reflexivity. Qed.

Definition up : SignalServiceClient := mkSignalServiceClient true true true (Some []).

Lemma up_reachable : client_reachable up.
Proof.
  econstructor 2; [|constructor]. apply (client_establish (mkAttempt false true false true) _ _ true). reflexivity.
Qed.

End Witnesses.
