(* ===== verification/Service.v ===== *)
(** * The system inspector's service

    [collector/lib/system-inspector/Service.cpp]: the list of signal handlers with
    the events each wants, the filter on events, the loop that dispatches every
    event to the handlers, the refresh of the process table when a new stream asks for
    it, and the requests for process information; [SelfCheckHandler.cpp]: the
    handlers that recognize the events of the self-check process.  The inspector's
    thread table is a parameter.  [None] is a thrown exception or the use of a null
    pointer. *)

From Stdlib Require Import Relation_Operators.
From S2P Require Import Prelude Containers Utility Stats IPNet Process Connection ConnTracker RateLimit Events NetSignals ProcSignals.

(** ** Filters *)

(** [FilterEvent]: the thread runs in a container and its executable, after the
    last colon, is not under /proc/self. *)
Definition FilterEvent_tinfo (tinfo : option sinsp_threadinfo) : bool :=
  match tinfo with
  | None => false
  | Some tinfo =>
      if empty (GetContainerID (ti_cgroups tinfo)) then false
      else
        let exepath_sv := ti_exepath tinfo in
        let exepath_sv :=
          match rfind (lit ":") exepath_sv with
          | Some marker => drop (marker + 1) exepath_sv
          | None => exepath_sv
          end in
        negb (starts_with (lit "/proc/self") exepath_sv)
  end.

Definition FilterEvent (event : sinsp_evt) : bool := FilterEvent_tinfo (get_thread_info event).

(** The per-type arrays of [system_inspector::Stats], of 64-bit counters. *)
Record EventStats := mkEventStats {
  nFilteredEvents : list Z;
  nUserspaceEvents : list Z;
  event_parse_micros : list Z;
  event_process_micros : list Z
}.

(** [a[i] += v]. *)
Definition add_at (i : nat) (v : Z) (a : list Z) : list Z := alter (fun x => wrap 64 (x + v)) i a.

(** [GetNext]: [next] is the inspector's answer, if it had one; [is_rhel76] and
    [micros] are the host's kind and the time the inspector took. *)
Definition GetNext (global_event_filter : list bool) (is_rhel76 : bool) (micros : Z)
    (next : option sinsp_evt) (s : EventStats) : EventStats * option sinsp_evt :=
  match next with
  | None => (s, None)
  | Some event =>
      if evt_internal event then (s, None)
      else if is_rhel76 && negb (nth (get_type event) global_event_filter false) then (s, None)
      else
        let s := mkEventStats (nFilteredEvents s) (add_at (get_type event) 1 (nUserspaceEvents s))
                   (add_at (get_type event) micros (event_parse_micros s)) (event_process_micros s) in
        if negb (FilterEvent event) then (s, None)
        else (mkEventStats (add_at (get_type event) 1 (nFilteredEvents s)) (nUserspaceEvents s)
                (event_parse_micros s) (event_process_micros s), Some event)
  end.

(** [LogUnreasonableEventTime]: more than an hour ago or five seconds ahead. *)
Definition LogUnreasonableEventTime (time_micros : Z) (evt : sinsp_evt) (stats : CollectorStats) : CollectorStats :=
  let evt_ts := get_ts evt / 1000 in
  let max_past_time := 3600000000 in
  let max_future_time := 5000000 in
  let time_diff := time_micros - evt_ts in
  let stats := if max_past_time <? time_diff then CounterInc event_timestamp_distant_past stats else stats in
  if time_diff <? - max_future_time then CounterInc event_timestamp_future stats else stats.

(** ** Handlers *)

(** An entry of [signal_handlers_]: the interface of [SignalHandler] over the
    state [W] that the handlers share, and the bit set of the events it wants. *)
Record SignalHandlerEntry (W : Type) := mkSignalHandlerEntry {
  GetName : str;
  h_HandleSignal : sinsp_evt -> W -> option (W * SignalHandler.Result);
  h_HandleExistingProcess : sinsp_threadinfo -> W -> option (W * SignalHandler.Result);
  h_Stop : W -> option W;
  event_filter : list bool
}.
Arguments mkSignalHandlerEntry {W}.
Arguments GetName {W}.
Arguments h_HandleSignal {W}.
Arguments h_HandleExistingProcess {W}.
Arguments h_Stop {W}.
Arguments event_filter {W}.

Definition ShouldHandle {W} (e : SignalHandlerEntry W) (evt : sinsp_evt) : bool :=
  nth (get_type evt) (event_filter e) false.

(** The two bit sets after the events of [names] were set in them. *)
Fixpoint set_events (n : EventNames) (names : list str) (filters : list bool * list bool)
  : option (list bool * list bool) :=
  match names with
  | [] => Some filters
  | event_name :: names =>
      match GetEventIDs n event_name with
      | None => None
      | Some ids =>
          set_events n names
            (fold_left (fun f id => <[id := true]> f) ids filters.1,
             fold_left (fun f id => <[id := true]> f) ids filters.2)
      end
  end.

(** [AddSignalHandler]: the handler wants every event when it names none. *)
Definition AddSignalHandler `{Driver} {W} (n : EventNames) (relevant_events : list str)
    (h : list bool -> SignalHandlerEntry W) (handlers : list (SignalHandlerEntry W)) (global_event_filter : list bool)
  : option (list (SignalHandlerEntry W) * list bool) :=
  match relevant_events with
  | [] => Some (handlers ++ [h (replicate PPM_EVENT_MAX true)], global_event_filter)
  | _ =>
      match set_events n relevant_events (replicate PPM_EVENT_MAX false, global_event_filter) with
      | None => None
      | Some (filter, global) => Some (handlers ++ [h filter], global)
      end
  end.

(** ** Requests for process information *)

(** A request: the pid and the callback, if its owner is still there. *)
Definition ProcessRequest : Type := Z * option positive.

Definition GetProcessInformation (pid : Z) (callback : option positive) (pending : list ProcessRequest)
  : list ProcessRequest := pending ++ [(pid, callback)].

(** [ServePendingProcessRequests]: the calls of the callbacks, in order, and the
    emptied queue. *)
Definition ServePendingProcessRequests (get_thread : Z -> option sinsp_threadinfo) (pending : list ProcessRequest)
  : list (positive * option sinsp_threadinfo) * list ProcessRequest :=
  (omap (fun r : ProcessRequest => (fun cb => (cb, get_thread r.1)) <$> r.2) pending, []).

(** ** Dispatch *)

(** [loop] of the thread manager's table, null when there is none. *)
Class ThreadTable := {
  get_threads : bool;
  threads_loop : forall {W : Type}, (W -> sinsp_threadinfo -> option (W * bool)) -> W -> option (W * bool)
}.

Section Dispatch.
Context `{ThreadTable} {W : Type}.
(** How the shared state holds the process-wide counters. *)
Context (log : (CollectorStats -> CollectorStats) -> W -> W).

(** The callback of [SendExistingProcesses]. *)
Definition send_existing (e : SignalHandlerEntry W) (w : W) (tinfo : sinsp_threadinfo) : option (W * bool) :=
  if negb (empty (GetContainerID (ti_cgroups tinfo))) && is_main_thread tinfo then
    match h_HandleExistingProcess e tinfo w with
    | None => None
    | Some (w, SignalHandler.ERROR) | Some (w, SignalHandler.NEEDS_REFRESH) => Some (w, false)
    | Some (w, _) => Some (w, true)
    end
  else Some (w, true).

Definition SendExistingProcesses (e : SignalHandlerEntry W) (w : W) : option (W * bool) :=
  if negb get_threads then Some (w, false) else threads_loop (send_existing e) w.

(** One handler's turn in the loop of [Run]; the flag tells that it finished. *)
Definition handle_event (e : SignalHandlerEntry W) (process_start : Z) (evt : sinsp_evt) (w : W) : option (W * bool) :=
  if negb (ShouldHandle e evt) then Some (w, false)
  else
    let w := log (LogUnreasonableEventTime process_start evt) w in
    match h_HandleSignal e evt w with
    | None => None
    | Some (w, SignalHandler.NEEDS_REFRESH) =>
        match SendExistingProcesses e w with
        | None => None
        | Some (w, false) => Some (w, false)
        | Some (w, true) =>
            match h_HandleSignal e evt w with
            | None => None
            | Some (w, _) => Some (w, false)
            end
        end
    | Some (w, SignalHandler.FINISHED) => Some (w, true)
    | Some (w, _) => Some (w, false)
    end.

(** The loop over the handlers: one that finished is erased, which ends the loop. *)
Fixpoint dispatch (done todo : list (SignalHandlerEntry W)) (process_start : Z) (evt : sinsp_evt) (w : W)
  : option (W * list (SignalHandlerEntry W)) :=
  match todo with
  | [] => Some (w, done)
  | e :: todo =>
      match handle_event e process_start evt w with
      | None => None
      | Some (w, true) => Some (w, done ++ todo)
      | Some (w, false) => dispatch (done ++ [e]) todo process_start evt w
      end
  end.

(** The members of the service; [inspector_]: whether there is an inspector;
    [answers]: the calls of process-information callbacks so far. *)
Record Service := mkService {
  inspector_ : bool;
  signal_handlers_ : list (SignalHandlerEntry W);
  global_event_filter_ : list bool;
  userspace_stats_ : EventStats;
  pending_process_requests_ : list ProcessRequest;
  answers : list (positive * option sinsp_threadinfo);
  shared : W
}.

(** What a pass of the loop obtains from outside: the inspector's next event, the
    microseconds to parse it, the time, and the microseconds to process it. *)
Record pass := mkPass { p_next : option sinsp_evt; p_parse : Z; p_start : Z; p_process : Z }.

Context (is_rhel76 : bool) (get_thread : Z -> option sinsp_threadinfo).

(** The body of the loop of [Run]. *)
Definition Run_pass (p : pass) (s : Service) : option Service :=
  let '(called, pending) := ServePendingProcessRequests get_thread (pending_process_requests_ s) in
  let '(stats, evt) := GetNext (global_event_filter_ s) is_rhel76 (p_parse p) (p_next p) (userspace_stats_ s) in
  match evt with
  | None =>
      Some (mkService (inspector_ s) (signal_handlers_ s) (global_event_filter_ s) stats pending
              (answers s ++ called) (shared s))
  | Some evt =>
      match dispatch [] (signal_handlers_ s) (p_start p) evt (shared s) with
      | None => None
      | Some (w, handlers) =>
          let stats := mkEventStats (nFilteredEvents stats) (nUserspaceEvents stats) (event_parse_micros stats)
                         (add_at (get_type evt) (p_process p) (event_process_micros stats)) in
          Some (mkService (inspector_ s) handlers (global_event_filter_ s) stats pending (answers s ++ called) w)
      end
  end.

(** [Run], until the control value changes (the end of the list). *)
Definition Run (passes : list pass) (s : Service) : option Service :=
  if negb (inspector_ s) then None
  else fold_left (fun s p => match s with Some s => Run_pass p s | None => None end) passes (Some s).

(** [CleanUp]: the handlers are stopped in order and pending requests are answered
    with null. *)
Definition CleanUp (s : Service) : option Service :=
  match fold_left (fun w e => match w with Some w => h_Stop e w | None => None end) (signal_handlers_ s) (Some (shared s)) with
  | None => None
  | Some w =>
      Some (mkService false [] (global_event_filter_ s) (userspace_stats_ s) []
              (answers s ++ (ServePendingProcessRequests (fun _ => None) (pending_process_requests_ s)).1) w)
  end.
End Dispatch.
Arguments Service : clear implicits.
Arguments mkService {W}.
Arguments inspector_ {W}.
Arguments signal_handlers_ {W}.
Arguments global_event_filter_ {W}.
Arguments userspace_stats_ {W}.
Arguments pending_process_requests_ {W}.
Arguments answers {W}.
Arguments shared {W}.

(** ** Self checks *)

Definition kSelfChecksExePath : str := lit "/usr/local/bin/self-checks".
Definition kSelfChecksName : str := lit "self-checks".
Definition kSelfCheckServerPort : Z := 13037.

(** Times of the steady clock in seconds; the default timeout is 5. *)
Record SelfCheckHandler := mkSelfCheckHandler { start_ : Z; timeout_ : Z }.

Definition SelfCheckHandler_new (now : Z) : SelfCheckHandler := mkSelfCheckHandler now 5.

Definition isSelfCheckEvent (evt : sinsp_evt) : bool :=
  match get_thread_info evt with
  | None => false
  | Some t => bool_decide (ti_comm t = kSelfChecksName) && bool_decide (ti_exe t = kSelfChecksExePath)
  end.

Definition hasTimedOut (now : Z) (h : SelfCheckHandler) : bool := start_ h + timeout_ h <? now.

Definition SelfCheckProcess_HandleSignal (now : Z) (h : SelfCheckHandler) (evt : sinsp_evt) : SignalHandler.Result :=
  if hasTimedOut now h then SignalHandler.FINISHED
  else if isSelfCheckEvent evt then SignalHandler.FINISHED
  else SignalHandler.IGNORED.

Definition SelfCheckNetwork_HandleSignal (now : Z) (h : SelfCheckHandler) (evt : sinsp_evt) : SignalHandler.Result :=
  if hasTimedOut now h then SignalHandler.FINISHED
  else if negb (isSelfCheckEvent evt) then SignalHandler.IGNORED
  else
    match evt_server_port evt, evt_client_port evt with
    | Some server_port, Some client_port =>
        if (server_port =? kSelfCheckServerPort) && negb (client_port =? 65535) then SignalHandler.FINISHED
        else SignalHandler.IGNORED
    | _, _ => SignalHandler.IGNORED
    end.

(** ** The collector's handlers *)

(** What the handlers of the collector share; the tracker counts its own metrics. *)
Record World := mkWorld { w_process : ProcessSignalHandler; w_tracker : ConnectionTracker; w_steady : Z }.

Definition set_process (h : ProcessSignalHandler) (w : World) : World := mkWorld h (w_tracker w) (w_steady w).

Definition log_counters (f : CollectorStats -> CollectorStats) (w : World) : World :=
  set_process (mkProcessSignalHandler (client_ (w_process w)) (rate_limiter_ (w_process w)) (stats_ (w_process w))
                 (f (counters (w_process w))) (calls (w_process w))) w.

(** The default [HandleExistingProcess]. *)
Definition ignore_existing (_ : sinsp_threadinfo) (w : World) : option (World * SignalHandler.Result) :=
  Some (w, SignalHandler.IGNORED).

Section Handlers.
Context `{HostEndian} `{Driver} `{Inspector} `{Environment}.

Definition process_entry (m : EventMap ProcessSignalType) (filter : list bool) : SignalHandlerEntry World :=
  mkSignalHandlerEntry (lit "ProcessSignalHandler")
    (fun evt w => match HandleSignal m evt (w_process w) with
                  | Some (h, r) => Some (set_process h w, r)
                  | None => None
                  end)
    (fun t w => match HandleExistingProcess t (w_process w) with
                | Some (h, r) => Some (set_process h w, r)
                | None => None
                end)
    (fun w => match handler_Stop (w_process w) with
              | Some h => Some (set_process h w)
              | None => None
              end)
    filter.

Definition network_entry (m : EventMap Modifier.t) (h : NetworkSignalHandler) (filter : list bool)
  : SignalHandlerEntry World :=
  mkSignalHandlerEntry (lit "NetworkSignalHandler")
    (fun evt w => match net_HandleSignal m h (w_tracker w) evt with
                  | Some (t, r) => Some (mkWorld (w_process w) t (w_steady w), r)
                  | None => None
                  end)
    ignore_existing Some filter.

Definition self_check_process_entry (h : SelfCheckHandler) (filter : list bool) : SignalHandlerEntry World :=
  mkSignalHandlerEntry (lit "SelfCheckProcessHandler")
    (fun evt w => Some (w, SelfCheckProcess_HandleSignal (w_steady w) h evt)) ignore_existing Some filter.

Definition self_check_network_entry (h : SelfCheckHandler) (filter : list bool) : SignalHandlerEntry World :=
  mkSignalHandlerEntry (lit "SelfCheckNetworkHandler")
    (fun evt w => Some (w, SelfCheckNetwork_HandleSignal (w_steady w) h evt)) ignore_existing Some filter.
End Handlers.

Definition SelfCheckProcess_GetRelevantEvents : list str := [lit "execve<"].
Definition SelfCheckNetwork_GetRelevantEvents : list str :=
  [lit "close<"; lit "shutdown<"; lit "connect<"; lit "accept<"; lit "listen<"].

(** ** Lemmas *)

(** Calls on successive threads, until the callback returns false. *)
Fixpoint loop_list {W} (f : W -> sinsp_threadinfo -> option (W * bool)) (w : W) (ts : list sinsp_threadinfo)
  : option (W * bool) :=
  match ts with
  | [] => Some (w, true)
  | t :: ts =>
      match f w t with
      | None => None
      | Some (w, false) => Some (w, false)
      | Some (w, true) => loop_list f w ts
      end
  end.

(** The inspector's promise: the callback sees the threads of the table in some
    order until it declines. *)
Class ThreadTableLaws `{ThreadTable} := {
  threads : list sinsp_threadinfo;
  threads_present : get_threads = true;
  loop_visits W (f : W -> sinsp_threadinfo -> option (W * bool)) w : threads_loop f w = loop_list f w threads
}.

(** A message without its generated identifier. *)
Definition content (m : SignalStreamMessage) : SignalStreamMessage :=
  let s := process_signal m in
  mkSignalStreamMessage
    (mkProcessSignal [] (ps_name s) (ps_exec_file_path s) (ps_args s) (ps_pid s) (ps_uid s) (ps_gid s)
       (ps_time s) (ps_container_id s) (ps_lineage_info s) (ps_scraped s)).

Section Refresh.
Context `{Inspector} `{Environment}.

(** The message about a thread of the table that is to be sent: a main thread in a
    container whose name or path is known. *)
Definition existing_offer (t : sinsp_threadinfo) : option SignalStreamMessage :=
  if negb (empty (GetContainerID (ti_cgroups t))) && is_main_thread t
  then (ToProtoMessage_tinfo span_valid_utf8 [] t CollectorStats_new).1 else None.

(** Those whose details are not known. *)
Definition existing_unresolved (t : sinsp_threadinfo) : bool :=
  negb (empty (GetContainerID (ti_cgroups t))) && is_main_thread t && negb (ValidateProcessDetails (Some t)).

Lemma unresolved_message t :
  (match (ToProtoMessage_tinfo span_valid_utf8 [] t CollectorStats_new).1 with Some _ => false | None => true end)
  = negb (ValidateProcessDetails (Some t)).
Proof. unfold ToProtoMessage_tinfo. destruct (ValidateProcessDetails (Some t)); [|done]. by destruct (CreateProcessSignal_tinfo _ _ _ _). Qed.

Lemma existing_content id t stats :
  content <$> (ToProtoMessage_tinfo span_valid_utf8 id t stats).1
  = (ToProtoMessage_tinfo span_valid_utf8 [] t CollectorStats_new).1.
Proof.
  unfold ToProtoMessage_tinfo, CreateProcessSignal_tinfo.
  destruct (ValidateProcessDetails (Some t)); [|done]. cbn [negb]. unfold GetProcessLineage.
  by destruct (if is_main_thread t then Some t else get_main_thread t).
Qed.

(** The content of the message about an event. *)
Definition event_offer (m : EventMap ProcessSignalType) (evt : sinsp_evt) : option SignalStreamMessage :=
  match ToProtoMessage_evt span_valid_utf8 m DisableProcessArguments [] evt CollectorStats_new with
  | Some (msg, _) => msg
  | None => None
  end.

Lemma event_content m id evt stats msg stats' :
  ToProtoMessage_evt span_valid_utf8 m DisableProcessArguments id evt stats = Some (msg, stats') ->
  content <$> msg = event_offer m evt.
Proof.
  unfold event_offer, ToProtoMessage_evt, CreateProcessSignal_evt.
  destruct (at_event m (get_type evt)) as [[]|]; [|by intros [= <- _]|done].
  destruct (get_thread_info evt) as [t|]; [|by intros [= <- _]].
  destruct (ValidateProcessDetails (Some t)); [|by intros [= <- _]]. cbn [negb]. unfold GetProcessLineage.
  destruct (if is_main_thread t then Some t else get_main_thread t); by intros [= <- _].
Qed.

(** The stream carries [sent] and takes messages; the limiter is there. *)
Record streaming (h : ProcessSignalHandler) (sent : list SignalStreamMessage) : Prop := {
  str_active : stream_active_ (client_ h) = true;
  str_first : first_write_ (client_ h) = false;
  str_sent : writer_ (client_ h) = Some sent;
  str_limiter : limiter_ (rate_limiter_ h) <> None
}.

(** From [h] to [h'], of the messages [offers] the stream got [new], in order; the
    others are counted as rate limited; [unresolved] more processes are counted as failures. *)
Record progress (h h' : ProcessSignalHandler) (offers new : list SignalStreamMessage) (unresolved : nat) : Prop := {
  pr_sub : (content <$> new) `sublist_of` offers;
  pr_count : wrap 64 (nProcessRateLimitCount (stats_ h'))
             = wrap 64 (nProcessRateLimitCount (stats_ h) + (Z.of_nat (length offers) - Z.of_nat (length new)));
  pr_unresolved : wrap 64 (nProcessResolutionFailuresByTinfo (stats_ h'))
                  = wrap 64 (nProcessResolutionFailuresByTinfo (stats_ h) + Z.of_nat unresolved)
}.

Lemma wrap_add_l w x y : wrap w (wrap w x + y) = wrap w (x + y).
Proof. unfold wrap. by rewrite Zplus_mod_idemp_l. Qed.

Lemma wrap_wrap w x : wrap w (wrap w x) = wrap w x.
Proof. unfold wrap. by rewrite Zmod_mod. Qed.

Lemma progress_trans h1 h2 h3 o1 o2 n1 n2 u1 u2 :
  progress h1 h2 o1 n1 u1 -> progress h2 h3 o2 n2 u2 -> progress h1 h3 (o1 ++ o2) (n1 ++ n2) (u1 + u2).
Proof.
  intros [S1 C1 U1] [S2 C2 U2]. split.
  - rewrite fmap_app. by apply sublist_app.
  - rewrite C2, <- wrap_add_l, C1, wrap_add_l, !length_app. f_equal. lia.
  - rewrite U2, <- wrap_add_l, U1, wrap_add_l. f_equal. lia.
Qed.

Lemma progress_refl h : progress h h [] [] 0.
Proof. split; [done|cbn; f_equal; lia..]. Qed.

Context (Hwrites : forall i, write_ok i = true).

(** What both handlers do with a message once the stream takes messages. *)
Lemma limit_and_push_streaming msg h sent :
  streaming h sent ->
  exists h' r new, limit_and_push msg h = Some (h', r)
    /\ (r = SignalHandler.PROCESSED \/ r = SignalHandler.IGNORED)
    /\ streaming h' (sent ++ new) /\ progress h h' [content msg] new 0.
Proof.
  intros [Ha Hf Hs Hl]. unfold limit_and_push.
  destruct (cache_Allow_some (rate_limiter_ h) (clock (calls h)) (compute_process_key (process_signal msg)) (counters h) Hl)
    as (l & c & ok & -> & El).
  destruct ok; cbn [negb].
  - unfold PushSignals. rewrite Ha, Hf, Hs, Hwrites. cbn [negb]. eexists _, _, [msg]. split; [done|].
    split; [by left|]. split; [split; cbn; congruence|]. split; [done|cbn; f_equal; lia..].
  - eexists _, _, []. split; [done|]. split; [by right|]. rewrite app_nil_r.
    split; [split; cbn; congruence|]. split; [apply sublist_nil_l|cbn..]; [unfold inc64; by rewrite wrap_wrap|f_equal; lia].
Qed.

Lemma HandleExisting_streaming t h sent :
  streaming h sent ->
  exists h' r new, HandleExistingProcess t h = Some (h', r)
    /\ (r = SignalHandler.PROCESSED \/ r = SignalHandler.IGNORED)
    /\ streaming h' (sent ++ new)
    /\ progress h h' (option_list (ToProtoMessage_tinfo span_valid_utf8 [] t CollectorStats_new).1) new
         (if ValidateProcessDetails (Some t) then 0 else 1).
Proof.
  intros Hs. pose proof (unresolved_message t) as Hu. unfold HandleExistingProcess.
  rewrite <- (existing_content (UUIDStr (calls h)) t (counters h)) in Hu |- *.
  destruct (ToProtoMessage_tinfo span_valid_utf8 (UUIDStr (calls h)) t (counters h)) as [[msg|] c]; cbn [fst].
  - destruct (limit_and_push_streaming msg
      (mkProcessSignalHandler (client_ h) (rate_limiter_ h) (stats_ h) c (calls h)) sent)
      as (h' & r & new & E & Hr & Hs' & Hp); [by destruct Hs|].
    exists h', r, new. split_and!; try done. destruct (ValidateProcessDetails (Some t)); [|done]. by destruct Hp.
  - eexists _, _, []. split; [done|]. split; [by right|]. rewrite app_nil_r.
    split; [by destruct Hs|]. destruct (ValidateProcessDetails (Some t)); [done|].
    split; [done|cbn; f_equal; lia|cbn; unfold inc64; by rewrite wrap_wrap].
Qed.

Lemma send_existing_streaming m filter ts w sent :
  streaming (w_process w) sent ->
  exists w' new, loop_list (send_existing (process_entry m filter)) w ts = Some (w', true)
    /\ w_tracker w' = w_tracker w
    /\ streaming (w_process w') (sent ++ new)
    /\ progress (w_process w) (w_process w') (omap existing_offer ts) new
         (length (List.filter existing_unresolved ts)).
Proof.
  revert w sent. induction ts as [|t ts IH]; intros w sent Hs; cbn [loop_list].
  { exists w, []. rewrite app_nil_r. split_and!; try done. apply progress_refl. }
  unfold send_existing at 1. cbn [h_HandleExistingProcess process_entry]. cbn [omap list_omap].
  cbn [List.filter]. unfold existing_offer at 1, existing_unresolved at 1.
  destruct (negb (empty (GetContainerID (ti_cgroups t))) && is_main_thread t); cbn [andb]; [|by apply IH].
  destruct (HandleExisting_streaming t (w_process w) sent Hs) as (h' & r & new & E & Hr & Hs' & Hp). rewrite E.
  destruct (IH (set_process h' w) (sent ++ new) Hs') as (w2 & new2 & E2 & Ht2 & Hs2 & Hp2).
  exists w2, (new ++ new2). split_and!.
  - by destruct Hr as [-> | ->].
  - done.
  - by rewrite app_assoc.
  - pose proof (progress_trans _ _ _ _ _ _ _ _ _ Hp Hp2) as Hp3.
    destruct (ToProtoMessage_tinfo span_valid_utf8 [] t CollectorStats_new).1; by destruct (ValidateProcessDetails (Some t)).
Qed.

(** A request for a refresh comes from a fresh stream and leaves it open. *)
Lemma needs_refresh_streaming m evt h h' :
  client_ok (client_ h) -> limiter_ (rate_limiter_ h) <> None ->
  HandleSignal m evt h = Some (h', SignalHandler.NEEDS_REFRESH) ->
  streaming h' [] /\ stats_ h' = stats_ h /\ is_Some (event_offer m evt).
Proof.
  intros [_ Hf _] Hl. unfold HandleSignal.
  destruct (ToProtoMessage_evt span_valid_utf8 m DisableProcessArguments (UUIDStr (calls h)) evt (counters h))
    as [[[msg|] c]|] eqn:Em; try done.
  apply event_content in Em. unfold limit_and_push. cbn [rate_limiter_ calls counters client_ stats_].
  destruct (cache_Allow_some (rate_limiter_ h) (clock (calls h)) (compute_process_key (process_signal msg)) c Hl)
    as (l & c' & ok & -> & El).
  destruct ok; cbn [negb]; [|done]. unfold PushSignals.
  destruct (stream_active_ (client_ h)) eqn:Ea; [|done]. cbn [negb].
  destruct (first_write_ (client_ h)) eqn:Ef.
  - destruct (Hf eq_refl) as [_ Ew]. intros [= <-].
    split; [split; cbn; congruence|]. split; [done|]. rewrite <- Em. by eexists.
  - destruct (writer_ (client_ h)); [|done]. by destruct (write_ok (calls h)).
Qed.

Lemma HandleSignal_streaming m evt h sent offer :
  streaming h sent -> event_offer m evt = Some offer -> at_event m (get_type evt) <> None ->
  exists h' r new, HandleSignal m evt h = Some (h', r)
    /\ (r = SignalHandler.PROCESSED \/ r = SignalHandler.IGNORED)
    /\ streaming h' (sent ++ new) /\ progress h h' [offer] new 0.
Proof.
  intros Hs Ho Hm. unfold HandleSignal.
  destruct (ToProtoMessage_evt span_valid_utf8 m DisableProcessArguments (UUIDStr (calls h)) evt (counters h))
    as [[msg c]|] eqn:Em.
  2:{ exfalso. unfold ToProtoMessage_evt in Em. destruct (at_event m (get_type evt)) as [[]|]; try done.
      destruct (ValidateProcessDetails (get_thread_info evt)); [|done]. cbn [negb] in Em.
      by destruct (CreateProcessSignal_evt _ _ _ _ _). }
  apply event_content in Em. rewrite Ho in Em. destruct msg as [msg|]; [|done].
  assert (content msg = offer) as <- by (by injection Em).
  destruct (limit_and_push_streaming msg
    (mkProcessSignalHandler (client_ h) (rate_limiter_ h) (stats_ h) c (calls h)) sent)
    as (h' & r & new & E & Hr & Hs' & Hp); [by destruct Hs|].
  exists h', r, new. split_and!; try done. by destruct Hp.
Qed.
End Refresh.

(** *** Handlers that stay *)

(** The handlers that report to Sensor, by name. *)
Definition reporting (e : SignalHandlerEntry World) : bool :=
  bool_decide (GetName e = lit "ProcessSignalHandler") || bool_decide (GetName e = lit "NetworkSignalHandler").

(** The entries the collector adds. *)
Inductive collector_entry `{HostEndian} `{Driver} `{Inspector} `{Environment} : SignalHandlerEntry World -> Prop :=
| entry_process m f : collector_entry (process_entry m f)
| entry_network m h f : collector_entry (network_entry m h f)
| entry_self_process h f : collector_entry (self_check_process_entry h f)
| entry_self_network h f : collector_entry (self_check_network_entry h f).

Section Staying.
Context `{HostEndian} `{Driver} `{Inspector} `{Environment} `{ThreadTable}.

Lemma PushSignals_not_finished ok msg c c' : PushSignals ok msg c <> Some (c', SignalHandler.FINISHED).
Proof.
  unfold PushSignals. destruct (negb _); [done|]. destruct (first_write_ c); [done|].
  destruct (writer_ c); [|done]. by destruct ok.
Qed.

Lemma HandleSignal_not_finished m evt h h' : HandleSignal m evt h <> Some (h', SignalHandler.FINISHED).
Proof.
  unfold HandleSignal. destruct (ToProtoMessage_evt _ _ _ _ _ _) as [[[msg|] c]|]; try done.
  unfold limit_and_push. destruct (cache_Allow _ _ _ _) as [[[l c'] ok]|]; [|done].
  destruct (negb ok); [done|]. destruct (PushSignals _ _ _) as [[cl r]|] eqn:E; [|done].
  intros [= _ ->]. by apply PushSignals_not_finished in E.
Qed.

Lemma net_not_finished m h t evt t' : net_HandleSignal m h t evt <> Some (t', SignalHandler.FINISHED).
Proof.
  unfold net_HandleSignal. destruct (at_event m (get_type evt)) as [[]|]; try done;
    (destruct (GetConnection h evt) as [[c|]|]; try done); by destruct (negb (IsRelevantConnection c)).
Qed.

(** Only the self-check handlers finish. *)
Lemma finished_self_check e now evt w w' :
  collector_entry e -> handle_event log_counters e now evt w = Some (w', true) -> reporting e = false.
Proof.
  intros He. unfold handle_event. destruct (ShouldHandle e evt); [|done]. cbn [negb].
  destruct He as [m f|m h f|h f|h f]; [..|done|done]; cbn [h_HandleSignal process_entry network_entry].
  - destruct (HandleSignal m evt _) as [[h' r]|] eqn:E; [|done].
    destruct r; try done; [|by apply HandleSignal_not_finished in E].
    destruct (SendExistingProcesses _ _) as [[w2 []]|]; try done.
    by destruct (HandleSignal m evt (w_process w2)) as [[]|].
  - destruct (net_HandleSignal m h _ evt) as [[t r]|] eqn:E; [|done].
    destruct r; try done; [|by apply net_not_finished in E].
    destruct (SendExistingProcesses _ _) as [[w2 []]|]; try done.
    by destruct (net_HandleSignal m h (w_tracker w2) evt) as [[]|].
Qed.

Lemma dispatch_keeps done todo now evt w w' hs :
  Forall collector_entry todo ->
  dispatch log_counters done todo now evt w = Some (w', hs) ->
  hs `sublist_of` done ++ todo /\ List.filter reporting hs = List.filter reporting (done ++ todo).
Proof.
  revert done w. induction todo as [|e todo IH]; intros done w Hf; cbn [dispatch].
  { intros [= _ <-]. by rewrite app_nil_r. }
  apply Forall_cons in Hf as [He Hf].
  destruct (handle_event log_counters e now evt w) as [[w1 []]|] eqn:E; [..|done].
  - intros [= _ <-]. apply finished_self_check in E; [|done]. split.
    + apply sublist_app; [done|]. by constructor.
    + rewrite !List.filter_app. cbn [List.filter]. by rewrite E.
  - intros Hd. apply IH in Hd; [|done]. by rewrite <- app_assoc in Hd.
Qed.

Lemma Run_keeps rhel get_thread passes (s s' : Service World) :
  Forall collector_entry (signal_handlers_ s) -> Run log_counters rhel get_thread passes s = Some s' ->
  signal_handlers_ s' `sublist_of` signal_handlers_ s
  /\ List.filter reporting (signal_handlers_ s') = List.filter reporting (signal_handlers_ s).
Proof.
  unfold Run. destruct (inspector_ s); [|done]. cbn [negb].
  revert s. induction passes as [|p passes IH]; intros s Hf; cbn [fold_left]; [by intros [= <-]|].
  destruct (Run_pass log_counters rhel get_thread p s) as [s1|] eqn:E.
  2:{ intros Hn. exfalso. revert Hn. clear. induction passes as [|q passes IH]; cbn; done. }
  assert (signal_handlers_ s1 `sublist_of` signal_handlers_ s
    /\ List.filter reporting (signal_handlers_ s1) = List.filter reporting (signal_handlers_ s)) as [Hs Hr].
  { revert E. unfold Run_pass, ServePendingProcessRequests.
    destruct (GetNext _ _ _ _ _) as [st [evt|]]; [|by intros [= <-]].
    destruct (dispatch log_counters [] (signal_handlers_ s) (p_start p) evt (shared s)) as [[w hs]|] eqn:Ed; [|done].
    intros [= <-]. by apply dispatch_keeps in Ed. }
  intros Hrun. apply IH in Hrun as [Hs' Hr'].
  - split; [by transitivity (signal_handlers_ s1)|congruence].
  - rewrite Forall_forall in *. intros e He. by apply Hf, (elem_of_sublist _ _ _ He Hs).
Qed.
End Staying.

(** *** The filter *)

Lemma rfind_char_spec (c : ascii) s :
  match rfind [c] s with
  | Some i => exists a b, s = a ++ c :: b /\ ~ In c b /\ length a = i
  | None => ~ In c s
  end.
Proof.
  induction s as [|x s IH]; cbn [rfind]; [by intros []|].
  destruct (rfind [c] s) as [i|].
  - destruct IH as (a & b & -> & Hb & <-). by exists (x :: a), b.
  - unfold starts_with. cbn [length take]. case_bool_decide as E.
    + injection E as ->. by exists [], s.
    + intros [->|Hin]; [by apply E|done].
Qed.

(** The executable of a path such as "memfd:name:/proc/self/exe": what follows the
    last colon. *)
Definition after_colons (path base : str) : Prop :=
  ~ In ":"%char base /\ (path = base \/ exists pre, path = pre ++ ":"%char :: base).

Lemma after_colons_spec path :
  after_colons path (match rfind (lit ":") path with Some marker => drop (marker + 1) path | None => path end).
Proof.
  pose proof (rfind_char_spec ":" path) as Hr. change (lit ":") with [":"%char].
  destruct (rfind [":"%char] path) as [i|]; [|split; [done|by left]].
  destruct Hr as (a & b & -> & Hb & <-).
  assert (drop (length a + 1) (a ++ ":"%char :: b) = b) as ->.
  { rewrite drop_app_ge by lia. by replace (length a + 1 - length a)%nat with 1%nat by lia. }
  split; [done|]. right. by exists a.
Qed.

Lemma after_colons_fun path b1 b2 : after_colons path b1 -> after_colons path b2 -> b1 = b2.
Proof.
  assert (forall p1 p2 c1 c2 : str, p1 ++ ":"%char :: c1 = p2 ++ ":"%char :: c2 ->
    ~ In ":"%char c1 -> ~ In ":"%char c2 -> c1 = c2) as Hcut.
  { induction p1 as [|x p1 IH]; intros [|y p2] c1 c2 E H1 H2; cbn in E.
    - by injection E.
    - injection E as _ E. destruct H1. rewrite E. apply in_or_app. right. by left.
    - injection E as _ E. destruct H2. rewrite <- E. apply in_or_app. right. by left.
    - injection E as _ E. by apply (IH p2). }
  intros [H1 E1] [H2 E2]. destruct E1 as [->|[p1 ->]], E2 as [E2|[p2 E2]].
  - done.
  - destruct H1. rewrite E2. apply in_or_app. right. by left.
  - destruct H2. rewrite <- E2. apply in_or_app. right. by left.
  - by apply (Hcut p1 p2).
Qed.

(** ** Theorems *)

(** C13. A new stream is brought up to date, as long as every write succeeds and the rate limiter was not reset: when handling an event
    finds a new stream, the stream gets, in this order, a message for every process of the thread table that
    is the main thread of a container's process and whose details are known, and then the event's own message, less
    those that are rate limited, which are counted as such.  The processes whose details are not known get no message
    and are counted as resolution failures.  (A write that fails ends the loop over the processes, and the rest is not
    sent.) *)
Theorem Refresh_spec `{Inspector} `{Environment} `{ThreadTableLaws} (m : EventMap ProcessSignalType)
    (filter : list bool) (now : Z) (evt : sinsp_evt) (w w1 : World)
    (Hwrites : forall i, write_ok i = true)
    (Hclient : client_reachable (client_ (w_process w)))
    (Hlimiter : limiter_ (rate_limiter_ (w_process w)) <> None)
    (Hwants : ShouldHandle (process_entry m filter) evt = true)
    (Hrefresh : h_HandleSignal (process_entry m filter) evt
                  (log_counters (LogUnreasonableEventTime now evt) w) = Some (w1, SignalHandler.NEEDS_REFRESH)) :
  exists w' offer sent,
    handle_event log_counters (process_entry m filter) now evt w = Some (w', false)
    /\ event_offer m evt = Some offer
    /\ writer_ (client_ (w_process w')) = Some sent
    /\ progress (w_process w) (w_process w') (omap existing_offer threads ++ [offer]) sent
         (length (List.filter existing_unresolved threads))
    /\ w_tracker w' = w_tracker w.
Proof.
  unfold handle_event. rewrite Hwants, Hrefresh. cbn [negb].
  cbn [h_HandleSignal process_entry] in Hrefresh.
  destruct (HandleSignal m evt _) as [[h1 r]|] eqn:E1; [|done]. injection Hrefresh as <- ->.
  destruct (needs_refresh_streaming m evt (w_process (log_counters (LogUnreasonableEventTime now evt) w)) h1
    (client_reachable_ok _ Hclient) Hlimiter E1) as (Hs & Est & [offer Ho]).
  unfold SendExistingProcesses. rewrite threads_present, loop_visits. cbn [negb].
  destruct (send_existing_streaming Hwrites m filter threads (set_process h1 (log_counters (LogUnreasonableEventTime now evt) w)) [] Hs)
    as (w2 & new & -> & Ht & Hs2 & Hp). cbn [h_HandleSignal process_entry].
  assert (at_event m (get_type evt) <> None) as Hm.
  { intros Hno. unfold event_offer, ToProtoMessage_evt in Ho. by rewrite Hno in Ho. }
  destruct (HandleSignal_streaming Hwrites m evt (w_process w2) new offer Hs2 Ho Hm) as (h3 & r & new2 & E3 & _ & Hs3 & Hp3).
  rewrite E3. exists (set_process h3 w2), offer, (new ++ new2). split_and!; [done|done|apply Hs3| |done].
  pose proof (progress_trans _ _ _ _ _ _ _ _ _ Hp Hp3) as [Hsub Hcount Hfail]. rewrite Nat.add_0_r in Hfail.
  cbn [w_process set_process] in Hcount, Hfail |- *. rewrite Est in Hcount, Hfail. by split.
Qed.

(** No handler that reports to Sensor is ever unloaded: whatever events the
    loop of [Run] dispatches, the handlers left are the ones it started with, in
    order, without some of the self-check handlers. *)
Theorem Run_handlers `{HostEndian} `{Driver} `{Inspector} `{Environment} `{ThreadTable}
    (rhel : bool) (get_thread : Z -> option sinsp_threadinfo) (passes : list pass) (s s' : Service World)
    (Hentries : Forall collector_entry (signal_handlers_ s))
    (Hrun : Run log_counters rhel get_thread passes s = Some s') :
  signal_handlers_ s' `sublist_of` signal_handlers_ s
  /\ List.filter reporting (signal_handlers_ s') = List.filter reporting (signal_handlers_ s).
Proof. by apply (Run_keeps rhel get_thread passes). Qed.

(** The filter on events lets a thread through exactly when it has a
    container ID and its executable, the part of the path after the last colon, is not
    under "/proc/self"; events without a thread are dropped. *)
Theorem FilterEvent_spec (evt : sinsp_evt) :
  FilterEvent evt = true <->
  exists t base, get_thread_info evt = Some t /\ GetContainerID (ti_cgroups t) <> []
    /\ after_colons (ti_exepath t) base /\ ~ exists rest, base = lit "/proc/self" ++ rest.
Proof.
  unfold FilterEvent, FilterEvent_tinfo, empty. destruct (get_thread_info evt) as [t|].
  2:{ split; [done|]. by intros (? & ? & ? & _). }
  case_bool_decide as Ec; [split; [done|]; intros (t' & ? & [= <-] & ? & _); done|].
  pose proof (after_colons_spec (ti_exepath t)) as Ha. cbv zeta.
  set (base := match rfind (lit ":") (ti_exepath t) with Some _ => _ | None => _ end) in *.
  rewrite negb_true_iff. split.
  - intros Hs. exists t, base. split_and!; [done|done|done|]. intros Hrest.
    apply starts_with_spec in Hrest. congruence.
  - intros (t' & base' & [= <-] & _ & Hb & Hno). rewrite (after_colons_fun _ _ _ Ha Hb).
    destruct (starts_with (lit "/proc/self") base') eqn:E; [|done]. by apply starts_with_spec in E.
Qed.

(** ** Witnesses *)

Module Witnesses.
#[local] Existing Instance little_endian.
#[local] Existing Instance sample_driver.
#[local] Existing Instance sample_inspector.

#[local] Instance environment : Environment := {|
  DisableProcessArguments := false; span_valid_utf8 := ascii_span; UUIDStr := fun _ => lit "id";
  clock := fun _ => mkReadings 5 5 5; write_ok := fun _ => true
|}.

Definition table : list sinsp_threadinfo := [sample_thread 10 1 (lit "/init"); sample_thread 20 2 (lit "/bin/sh")].

#[local] Instance sample_table : ThreadTable := {|
  get_threads := true;
  threads_loop := fun W f w => loop_list f w table
|}.

#[local] Instance sample_table_laws : ThreadTableLaws :=
  @Build_ThreadTableLaws sample_table table eq_refl (fun W f w => eq_refl).

Definition signal_map : EventMap ProcessSignalType :=
  Eval vm_compute in default [] (process_signals sample_event_names).

Definition every_event : list bool := replicate PPM_EVENT_MAX true.

(** A new stream, and an event. *)
Definition fresh : World :=
  mkWorld (mkProcessSignalHandler (mkSignalServiceClient true true true (Some [])) RateLimitCache_default
             ProcessStats_new CollectorStats_new 0) ConnectionTracker_new 0.

Definition exec : sinsp_evt :=
  mkEvt 1 5000 (Some (sample_thread 40 4 (lit "/bin/ls"))) None None (Some (lit "-l")) None None false.

Lemma fresh_reachable : client_reachable (client_ (w_process fresh)).
Proof.
  econstructor 2; [|constructor]. apply (client_establish (mkAttempt false true false true) _ _ true). reflexivity.
Qed.

Definition asked : World :=
  match h_HandleSignal (process_entry signal_map every_event) exec (log_counters (LogUnreasonableEventTime 5 exec) fresh) with
  | Some (w, _) => w
  | None => fresh
  end.

Lemma Refresh_witness :
  exists w' sent,
    handle_event log_counters (process_entry signal_map every_event) 5 exec fresh = Some (w', false)
    /\ writer_ (client_ (w_process w')) = Some sent
    /\ map (fun m => ps_exec_file_path (process_signal m)) sent = [lit "/init"; lit "/bin/sh"; lit "/bin/ls"].
Proof.
  destruct (@Refresh_spec sample_inspector environment sample_table sample_table_laws
    signal_map every_event 5 exec fresh asked (fun _ => eq_refl) fresh_reachable)
    as (w' & offer & sent & E & _ & Hs & _ & _).
  - discriminate.
  - reflexivity.
  - reflexivity.
  - exists w', sent. split; [exact E|]. split; [exact Hs|].
    vm_compute in E. injection E as <-. vm_compute in Hs. injection Hs as <-. reflexivity.
Defined.

(** The four handlers of the collector, and the event of the self-check process. *)
Definition handlers : list (SignalHandlerEntry World) :=
  [ self_check_process_entry (SelfCheckHandler_new 0) every_event;
    self_check_network_entry (SelfCheckHandler_new 0) every_event;
    process_entry signal_map every_event;
    network_entry NetSignals.Witnesses.modifier_map NetworkSignalHandler_new every_event ].

Definition self_check : sinsp_evt :=
  mkEvt 1 5000
    (Some (mkThreadinfo 40 [(lit "memory", sample_cgroup)] kSelfChecksName kSelfChecksExePath kSelfChecksExePath
             [] 0 0 4 0 true))
    None None None None None false.

Definition service : Service World :=
  mkService true handlers every_event
    (mkEventStats (replicate PPM_EVENT_MAX 0) (replicate PPM_EVENT_MAX 0) (replicate PPM_EVENT_MAX 0) (replicate PPM_EVENT_MAX 0))
    [] [] fresh.

Lemma Run_handlers_witness :
  exists s', Run log_counters false (fun _ => None) [mkPass (Some self_check) 1 5 1] service = Some s'
    /\ signal_handlers_ s' = drop 1 handlers
    /\ List.filter reporting (signal_handlers_ s') = List.filter reporting handlers.
Proof.
  eexists. split; [reflexivity|]. split; [reflexivity|].
  refine (proj2 (Run_handlers false (fun _ => None) [mkPass (Some self_check) 1 5 1] service _ _ _)).
  - repeat (apply Forall_cons_2; [constructor|]). constructor.
  - reflexivity.
Defined.
End Witnesses.
