(* ===== verification/ConfigParser.v ===== *)
(** * The parser of the runtime configuration

    [ParserYaml] of [collector/lib/ConfigLoader.h] and [ConfigLoader.cpp]: a protobuf
    message is filled from a YAML tree, guided by the message's descriptor, and the
    mismatches are collected as errors.  YAML trees, descriptors and messages are data
    types; the conversions of scalars and the subscript of yaml-cpp are parameters.
    [None] is the end of the process or of the thread: an exception nobody catches, or
    a fatal type error of protobuf's reflection. *)

From Stdlib Require SpecFloat.
From S2P Require Import Prelude Containers Utility.

(** ** Characters and names *)

Definition isupper (c : ascii) : bool := in_range "A" "Z" c.
Definition islower (c : ascii) : bool := in_range "a" "z" c.
Definition toupper (c : ascii) : ascii := if islower c then chr (code c - 32) else c.
Definition tolower (c : ascii) : ascii := if isupper c then chr (code c + 32) else c.

(** The loop of [SnakeCaseToCamel]. *)
Fixpoint snake_loop (capitalize : bool) (s : str) : str :=
  match s with
  | [] => []
  | c :: s =>
      if bool_decide (c = "_"%char) then snake_loop true s
      else (if capitalize then toupper c else c) :: snake_loop false s
  end.

Definition SnakeCaseToCamel (s : str) : str := snake_loop false s.

(** The loop of [CamelCaseToSnake]. *)
Fixpoint camel_loop (first : bool) (s : str) : str :=
  match s with
  | [] => []
  | c :: s => (if negb first && isupper c then ["_"%char] else []) ++ tolower c :: camel_loop false s
  end.

Definition CamelCaseToSnake (s : str) : str := camel_loop true s.

Definition ConcatPath (path name : str) : str :=
  match path with
  | [] => name
  | _ => path ++ lit "." ++ name
  end.

(** ** YAML *)

Inductive node : Type :=
| Undefined
| Null
| Scalar (s : str)
| Sequence (l : list node)
| Map (kvs : list (node * node)).

Definition NodeTypeToString (n : node) : str :=
  match n with
  | Null => lit "Null"
  | Undefined => lit "Undefined"
  | Scalar _ => lit "Scalar"
  | Sequence _ => lit "Sequence"
  | Map _ => lit "Map"
  end.

(** The values of floating-point types. *)
Definition double : Set := SpecFloat.spec_float.
Definition float : Set := SpecFloat.spec_float.

(** yaml-cpp: [operator[]] with a string, [as<T>] for the types the parser uses
    ([None]: it throws) and the text of the exception. *)
Class Yaml := {
  subscript : node -> str -> node;
  as_double : node -> option double;
  as_float : node -> option float;
  as_int64 : node -> option Z;
  as_uint64 : node -> option Z;
  as_int32 : node -> option Z;
  as_uint32 : node -> option Z;
  as_bool : node -> option bool;
  as_string : node -> option str;
  what : node -> str
}.

(** ** Descriptors and messages *)

Inductive label : Set := LABEL_SINGULAR | LABEL_REPEATED.

(** [FieldDescriptor::Type], with the values of an enumeration and the fields of a
    message. *)
Inductive ftype : Type :=
| TYPE_DOUBLE | TYPE_FLOAT | TYPE_INT64 | TYPE_UINT64 | TYPE_INT32 | TYPE_FIXED64 | TYPE_FIXED32
| TYPE_BOOL | TYPE_STRING | TYPE_GROUP | TYPE_MESSAGE (fields : list field) | TYPE_BYTES | TYPE_UINT32
| TYPE_ENUM (values : list (str * Z)) | TYPE_SFIXED32 | TYPE_SFIXED64 | TYPE_SINT32 | TYPE_SINT64
with field : Type :=
| mkField (field_name : str) (field_label : label) (field_type : ftype).

Definition f_name (f : field) : str := match f with mkField n _ _ => n end.
Definition f_label (f : field) : label := match f with mkField _ l _ => l end.
Definition f_type (f : field) : ftype := match f with mkField _ _ t => t end.

(** [FieldDescriptor::CppType]. *)
Inductive CppType : Set :=
| CPPTYPE_INT32 | CPPTYPE_INT64 | CPPTYPE_UINT32 | CPPTYPE_UINT64 | CPPTYPE_DOUBLE | CPPTYPE_FLOAT
| CPPTYPE_BOOL | CPPTYPE_ENUM | CPPTYPE_STRING | CPPTYPE_MESSAGE.

#[export] Instance CppType_eq_dec : EqDecision CppType.
Proof. solve_decision. Defined.

Definition cpp_type (t : ftype) : CppType :=
  match t with
  | TYPE_DOUBLE => CPPTYPE_DOUBLE
  | TYPE_FLOAT => CPPTYPE_FLOAT
  | TYPE_INT64 | TYPE_SFIXED64 | TYPE_SINT64 => CPPTYPE_INT64
  | TYPE_UINT64 | TYPE_FIXED64 => CPPTYPE_UINT64
  | TYPE_INT32 | TYPE_SFIXED32 | TYPE_SINT32 => CPPTYPE_INT32
  | TYPE_UINT32 | TYPE_FIXED32 => CPPTYPE_UINT32
  | TYPE_BOOL => CPPTYPE_BOOL
  | TYPE_STRING | TYPE_BYTES => CPPTYPE_STRING
  | TYPE_ENUM _ => CPPTYPE_ENUM
  | TYPE_MESSAGE _ | TYPE_GROUP => CPPTYPE_MESSAGE
  end.

(** [field->type_name()]. *)
Definition type_name (t : ftype) : str :=
  match t with
  | TYPE_DOUBLE => lit "double" | TYPE_FLOAT => lit "float" | TYPE_INT64 => lit "int64"
  | TYPE_UINT64 => lit "uint64" | TYPE_INT32 => lit "int32" | TYPE_FIXED64 => lit "fixed64"
  | TYPE_FIXED32 => lit "fixed32" | TYPE_BOOL => lit "bool" | TYPE_STRING => lit "string"
  | TYPE_GROUP => lit "group" | TYPE_MESSAGE _ => lit "message" | TYPE_BYTES => lit "bytes"
  | TYPE_UINT32 => lit "uint32" | TYPE_ENUM _ => lit "enum" | TYPE_SFIXED32 => lit "sfixed32"
  | TYPE_SFIXED64 => lit "sfixed64" | TYPE_SINT32 => lit "sint32" | TYPE_SINT64 => lit "sint64"
  end.

Definition ParserError : Type := str.

(** [ParserResult]: the errors, none when the result holds no vector. *)
Definition ParserResult : Type := list ParserError.

Inductive ValidationMode : Set := STRICT | PERMISSIVE | UNKNOWN_FIELDS_ONLY.

#[export] Instance ValidationMode_eq_dec : EqDecision ValidationMode.
Proof. solve_decision. Defined.

Record ParserYaml := mkParserYaml { file_ : str; read_camelcase_ : bool; validation_mode_ : ValidationMode }.

Definition ParserYaml_make (file : str) : ParserYaml := mkParserYaml file true PERMISSIVE.

Inductive scalar : Type :=
| VDouble (x : double) | VFloat (x : float) | VInt64 (x : Z) | VUInt64 (x : Z) | VInt32 (x : Z)
| VUInt32 (x : Z) | VBool (b : bool) | VString (s : str) | VEnum (x : Z).

(** A message: the values of its fields that are set, by name. *)
Inductive fvalue : Type :=
| FScalar (v : scalar)
| FRepeated (l : list scalar)
| FMessage (m : list (str * fvalue)).

Definition message : Type := umap str fvalue.

Section Parser.
Context `{Yaml} (p : ParserYaml).

(** [err << file_ << ...]. *)
Definition file_error (msg : str) : ParserError := quoted (file_ p) ++ msg.

(** The name under which a field is looked up. *)
Definition yaml_name (f : field) : str :=
  if read_camelcase_ p then SnakeCaseToCamel (f_name f) else f_name f.

(** [TryConvert]: the value or the wrapped exception. *)
Definition TryConvert {T} (conv : node -> option T) (n : node) : T + ParserError :=
  match conv n with
  | Some v => inl v
  | None => inr (file_error (lit ": " ++ what n))
  end.

(** [msg->GetReflection()->Set...]: fatal unless the field is a single one of the
    setter's type. *)
Definition SetField (c : CppType) (msg : message) (f : field) (v : scalar) : option message :=
  match f_label f with
  | LABEL_SINGULAR =>
      if bool_decide (cpp_type (f_type f) = c) then Some (insert_or_assign msg (f_name f) (FScalar v)) else None
  | LABEL_REPEATED => None
  end.

Definition set_converted {T} (conv : node -> option T) (c : CppType) (inj : T -> scalar)
    (msg : message) (n : node) (f : field) : option (message * ParserResult) :=
  match TryConvert conv n with
  | inr err => Some (msg, [err])
  | inl v =>
      match SetField c msg f (inj v) with
      | None => None
      | Some msg => Some (msg, [])
      end
  end.

Definition FindValueByName (values : list (str * Z)) (name : str) : option Z :=
  snd <$> List.find (fun e => bool_decide (e.1 = name)) values.

Definition invalid_enum (enum_name name : str) : ParserError :=
  file_error (lit ": Invalid enum value '" ++ enum_name ++ lit "' for field " ++ name).

Definition ParseScalar (msg : message) (n : node) (f : field) (name : str) : option (message * ParserResult) :=
  match f_type f with
  | TYPE_DOUBLE => set_converted as_double CPPTYPE_DOUBLE VDouble msg n f
  | TYPE_FLOAT => set_converted as_float CPPTYPE_FLOAT VFloat msg n f
  | TYPE_SFIXED64 | TYPE_INT64 => set_converted as_int64 CPPTYPE_INT64 VInt64 msg n f
  | TYPE_SINT64 | TYPE_FIXED64 | TYPE_UINT64 => set_converted as_uint64 CPPTYPE_UINT64 VUInt64 msg n f
  | TYPE_FIXED32 | TYPE_UINT32 => set_converted as_uint32 CPPTYPE_UINT32 VUInt32 msg n f
  | TYPE_SINT32 | TYPE_SFIXED32 | TYPE_INT32 => set_converted as_int32 CPPTYPE_INT32 VInt32 msg n f
  | TYPE_BOOL => set_converted as_bool CPPTYPE_BOOL VBool msg n f
  | TYPE_STRING => set_converted as_string CPPTYPE_STRING VString msg n f
  | TYPE_BYTES => Some (msg, [lit "Unexpected type BYTES"])
  | TYPE_ENUM values =>
      match as_string n with
      | None => None
      | Some enum_name =>
          let enum_name := map toupper enum_name in
          match FindValueByName values enum_name with
          | None => Some (msg, [invalid_enum enum_name name])
          | Some number =>
              match SetField CPPTYPE_ENUM msg f (VEnum number) with
              | None => None
              | Some msg => Some (msg, [])
              end
          end
      end
  | TYPE_MESSAGE _ | TYPE_GROUP => Some (msg, [lit "Unexpected type: " ++ type_name (f_type f)])
  end.

(** The values and the errors of the elements of an array. *)
Fixpoint convert_all {T} (conv : node -> option T) (inj : T -> scalar) (ns : list node)
  : list scalar * ParserResult :=
  match ns with
  | [] => ([], [])
  | n :: ns =>
      let '(vs, errors) := convert_all conv inj ns in
      match TryConvert conv n with
      | inl v => (inj v :: vs, errors)
      | inr err => (vs, err :: errors)
      end
  end.

(** [ParseArrayInner]: the field is cleared and gets the values that convert. *)
Definition ParseArrayInner {T} (conv : node -> option T) (inj : T -> scalar) (msg : message) (ns : list node)
    (f : field) : message * ParserResult :=
  let '(vs, errors) := convert_all conv inj ns in
  (insert_or_assign msg (f_name f) (FRepeated vs), errors).

Fixpoint enums_loop (values : list (str * Z)) (name : str) (ns : list node) : list scalar * ParserResult :=
  match ns with
  | [] => ([], [])
  | n :: ns =>
      let '(vs, errors) := enums_loop values name ns in
      match TryConvert as_string n with
      | inr err => (vs, err :: errors)
      | inl v =>
          let enum_name := map toupper v in
          match FindValueByName values enum_name with
          | None => (vs, invalid_enum enum_name name :: errors)
          | Some number => (VEnum number :: vs, errors)
          end
      end
  end.

Definition ParseArrayEnum (values : list (str * Z)) (msg : message) (ns : list node) (f : field)
  : message * ParserResult :=
  let '(vs, errors) := enums_loop values (yaml_name f) ns in
  (insert_or_assign msg (f_name f) (FRepeated vs), errors).

Definition ParseArray (msg : message) (ns : list node) (f : field) : message * ParserResult :=
  match cpp_type (f_type f) with
  | CPPTYPE_INT32 => ParseArrayInner as_int32 VInt32 msg ns f
  | CPPTYPE_UINT32 => ParseArrayInner as_uint32 VUInt32 msg ns f
  | CPPTYPE_INT64 => ParseArrayInner as_int64 VInt64 msg ns f
  | CPPTYPE_UINT64 => ParseArrayInner as_uint64 VUInt64 msg ns f
  | CPPTYPE_DOUBLE => ParseArrayInner as_double VDouble msg ns f
  | CPPTYPE_FLOAT => ParseArrayInner as_float VFloat msg ns f
  | CPPTYPE_BOOL => ParseArrayInner as_bool VBool msg ns f
  | CPPTYPE_ENUM =>
      match f_type f with
      | TYPE_ENUM values => ParseArrayEnum values msg ns f
      | _ => (msg, [])
      end
  | CPPTYPE_STRING => ParseArrayInner as_string VString msg ns f
  | CPPTYPE_MESSAGE => (msg, [lit "Unsupport repeated type MESSAGE"])
  end.

Definition type_mismatch (name expected : str) (n : node) : ParserError :=
  file_error (lit ": Type mismatch for '" ++ name ++ lit "' - expected " ++ expected ++ lit ", got "
              ++ NodeTypeToString n).

(** The result for a name that is not in the node. *)
Definition missing_field (path name : str) : ParserResult :=
  if bool_decide (validation_mode_ p = STRICT)
  then [file_error (lit ": Missing field '" ++ ConcatPath path name ++ lit "'")]
  else [].

(** The submessage of a field, created when it is not set. *)
Definition submessage (msg : message) (f : field) : message :=
  match Lookup msg (f_name f) with
  | Some (FMessage m) => m
  | _ => []
  end.

(** [Parse] of one field; the loop over the fields of a submessage is inlined. *)
Fixpoint ParseField (f : field) (msg : message) (n : node) (path : str) {struct f}
  : option (message * ParserResult) :=
  match f with
  | mkField fname flabel ft =>
      let name := yaml_name f in
      let sub := subscript n name in
      match sub with
      | Undefined =>
          Some (msg, missing_field path name)
      | _ =>
          match flabel with
          | LABEL_REPEATED =>
              match sub with
              | Sequence ns => Some (ParseArray msg ns f)
              | _ => Some (msg, [type_mismatch name (lit "Sequence") sub])
              end
          | LABEL_SINGULAR =>
              match ft with
              | TYPE_MESSAGE fields =>
                  match sub with
                  | Null => Some (msg, [])
                  | Map _ =>
                      match (fix loop (fs : list field) (m : message) (errors : ParserResult) :=
                               match fs with
                               | [] => Some (m, errors)
                               | g :: fs =>
                                   match ParseField g m sub (ConcatPath path name) with
                                   | None => None
                                   | Some (m, err) => loop fs m (errors ++ err)
                                   end
                               end) fields (submessage msg f) [] with
                      | None => None
                      | Some (m, errors) => Some (insert_or_assign msg fname (FMessage m), errors)
                      end
                  | _ => Some (msg, [type_mismatch name (lit "Map") sub])
                  end
              | _ =>
                  match sub with
                  | Scalar _ => ParseScalar msg sub f name
                  | _ => Some (msg, [file_error (lit ": Attempting to parse non-scalar field as scalar")])
                  end
              end
          end
      end
  end.

(** The loop over the fields of a descriptor. *)
Fixpoint ParseFields (fs : list field) (msg : message) (n : node) (path : str) (errors : ParserResult)
  : option (message * ParserResult) :=
  match fs with
  | [] => Some (msg, errors)
  | f :: fs =>
      match ParseField f msg n path with
      | None => None
      | Some (msg, err) => ParseFields fs msg n path (errors ++ err)
      end
  end.

Definition FindFieldByName (fs : list field) (name : str) : option field :=
  List.find (fun f => bool_decide (f_name f = name)) fs.

(** One step of the loop of [FindUnknownFields], with the recursive call. *)
Definition unknown_entry (rec : list field -> option ParserResult) (fs : list field) (key : node) (value : node)
  : option ParserResult :=
  match as_string key with
  | None => None
  | Some key_name =>
      let name := if read_camelcase_ p then CamelCaseToSnake key_name else key_name in
      match FindFieldByName fs name with
      | None => Some [file_error (lit ": Unknown field '" ++ name ++ lit "'")]
      | Some f =>
          match value with
          | Map _ =>
              match f_type f with
              | TYPE_MESSAGE fields =>
                  match f_label f with
                  | LABEL_REPEATED => None
                  | LABEL_SINGULAR => rec fields
                  end
              | t => Some [file_error (lit ": Invalid type '" ++ NodeTypeToString value ++ lit "' for field "
                                       ++ key_name ++ lit ", expected '" ++ type_name t ++ lit "'")]
              end
          | _ => Some []
          end
      end
  end.

(** The iterator of a sequence has invalid keys and values. *)
Fixpoint FindUnknownFields (fs : list field) (n : node) {struct n} : option ParserResult :=
  match n with
  | Map kvs =>
      (fix loop (kvs : list (node * node)) : option ParserResult :=
         match kvs with
         | [] => Some []
         | (key, value) :: kvs =>
             match unknown_entry (fun fields => FindUnknownFields fields value) fs key value with
             | None => None
             | Some errors =>
                 match loop kvs with
                 | None => None
                 | Some rest => Some (errors ++ rest)
                 end
             end
         end) kvs
  | Sequence l =>
      (fix loop (l : list node) : option ParserResult :=
         match l with
         | [] => Some []
         | _ :: l =>
             match unknown_entry (fun _ => Some []) fs Undefined Undefined with
             | None => None
             | Some errors =>
                 match loop l with
                 | None => None
                 | Some rest => Some (errors ++ rest)
                 end
             end
         end) l
  | _ => Some []
  end.

(** [Parse] of a node into a message with the fields [fs]. *)
Definition Parse (fs : list field) (msg : message) (n : node) : option (message * ParserResult) :=
  match n with
  | Scalar _ | Null => Some (msg, [lit "Invalid configuration"])
  | _ =>
      match ParseFields fs msg n [] [] with
      | None => None
      | Some (msg, errors) =>
          if negb (bool_decide (validation_mode_ p = PERMISSIVE)) then
            match FindUnknownFields fs n with
            | None => None
            | Some res => Some (msg, errors ++ res)
            end
          else Some (msg, errors)
      end
  end.
End Parser.

(** ** What a successful parse means *)

(** What the parser relies on of yaml-cpp. *)
Class YamlLaws `{Yaml} : Prop := {
  as_string_scalar s : as_string (Scalar s) = Some s;
  subscript_map kvs name :
    subscript (Map kvs) name
    = match List.find (fun e => match e.1 with Scalar s => bool_decide (s = name) | _ => false end) kvs with
      | Some e => e.2
      | None => Undefined
      end
}.

(** A property of fields that holds of the fields of submessages holds of all. *)
Fixpoint field_nested_ind (P : field -> Prop)
    (step : forall n l t, (forall fs, t = TYPE_MESSAGE fs -> Forall P fs) -> P (mkField n l t)) (f : field) : P f :=
  match f with
  | mkField n l t =>
      step n l t
        (match t with
         | TYPE_MESSAGE fields =>
             fun fs E =>
               match E in _ = t' return match t' with TYPE_MESSAGE fs => Forall P fs | _ => True end with
               | eq_refl =>
                   (fix all (l : list field) : Forall P l :=
                      match l with
                      | [] => Forall_nil_2 P
                      | g :: l => Forall_cons_2 P g l (field_nested_ind P step g) (all l)
                      end) fields
               end
         | _ => fun fs E => match E with eq_refl => I end
         end)
  end.

Section Meaning.
Context `{Yaml} (p : ParserYaml).

(** The value a node denotes at a type. *)
Definition scalar_value (t : ftype) (n : node) : option scalar :=
  match t with
  | TYPE_DOUBLE => VDouble <$> as_double n
  | TYPE_FLOAT => VFloat <$> as_float n
  | TYPE_INT64 | TYPE_SFIXED64 | TYPE_SINT64 => VInt64 <$> as_int64 n
  | TYPE_UINT64 | TYPE_FIXED64 => VUInt64 <$> as_uint64 n
  | TYPE_INT32 | TYPE_SFIXED32 | TYPE_SINT32 => VInt32 <$> as_int32 n
  | TYPE_UINT32 | TYPE_FIXED32 => VUInt32 <$> as_uint32 n
  | TYPE_BOOL => VBool <$> as_bool n
  | TYPE_STRING => VString <$> as_string n
  | TYPE_ENUM values => as_string n ≫= fun s => VEnum <$> FindValueByName values (map toupper s)
  | TYPE_BYTES | TYPE_GROUP | TYPE_MESSAGE _ => None
  end.

(** Arrays of bytes are read as strings. *)
Definition element_value (t : ftype) (n : node) : option scalar :=
  match t with
  | TYPE_BYTES => VString <$> as_string n
  | _ => scalar_value t n
  end.

Definition has_elements (t : ftype) : bool := negb (bool_decide (cpp_type t = CPPTYPE_MESSAGE)).

(** The node has a value of the field's type, or no value where it may lack one. *)
Inductive conforms (n : node) : field -> Prop :=
| conf_absent f : subscript n (yaml_name p f) = Undefined -> validation_mode_ p <> STRICT -> conforms n f
| conf_repeated fname t ns :
    subscript n (yaml_name p (mkField fname LABEL_REPEATED t)) = Sequence ns -> has_elements t = true ->
    Forall (fun x => is_Some (element_value t x)) ns -> conforms n (mkField fname LABEL_REPEATED t)
| conf_null fname fs :
    subscript n (yaml_name p (mkField fname LABEL_SINGULAR (TYPE_MESSAGE fs))) = Null ->
    conforms n (mkField fname LABEL_SINGULAR (TYPE_MESSAGE fs))
| conf_map fname fs kvs :
    subscript n (yaml_name p (mkField fname LABEL_SINGULAR (TYPE_MESSAGE fs))) = Map kvs ->
    (forall g, In g fs -> conforms (Map kvs) g) -> conforms n (mkField fname LABEL_SINGULAR (TYPE_MESSAGE fs))
| conf_scalar fname t s :
    subscript n (yaml_name p (mkField fname LABEL_SINGULAR t)) = Scalar s ->
    is_Some (scalar_value t (Scalar s)) -> conforms n (mkField fname LABEL_SINGULAR t).

(** The value of a field before and after it was read from a conforming node. *)
Inductive reads (n : node) : field -> option fvalue -> option fvalue -> Prop :=
| reads_absent f v : subscript n (yaml_name p f) = Undefined -> reads n f v v
| reads_repeated fname t ns vs v :
    subscript n (yaml_name p (mkField fname LABEL_REPEATED t)) = Sequence ns ->
    Forall2 (fun x y => element_value t x = Some y) ns vs ->
    reads n (mkField fname LABEL_REPEATED t) v (Some (FRepeated vs))
| reads_null fname fs v :
    subscript n (yaml_name p (mkField fname LABEL_SINGULAR (TYPE_MESSAGE fs))) = Null ->
    reads n (mkField fname LABEL_SINGULAR (TYPE_MESSAGE fs)) v v
| reads_map fname fs kvs v (m m' : message) :
    subscript n (yaml_name p (mkField fname LABEL_SINGULAR (TYPE_MESSAGE fs))) = Map kvs ->
    m = match v with Some (FMessage m) => m | _ => [] end ->
    (forall g, In g fs -> reads (Map kvs) g (Lookup m (f_name g)) (Lookup m' (f_name g))) ->
    (forall k, ~ In k (map f_name fs) -> Lookup m' k = Lookup m k) ->
    reads n (mkField fname LABEL_SINGULAR (TYPE_MESSAGE fs)) v (Some (FMessage m'))
| reads_scalar fname t s x v :
    subscript n (yaml_name p (mkField fname LABEL_SINGULAR t)) = Scalar s ->
    scalar_value t (Scalar s) = Some x ->
    reads n (mkField fname LABEL_SINGULAR t) v (Some (FScalar x)).

(** The value has the type. *)
Definition scalar_typed (t : ftype) (v : scalar) : Prop :=
  match cpp_type t, v with
  | CPPTYPE_DOUBLE, VDouble _ | CPPTYPE_FLOAT, VFloat _ | CPPTYPE_INT64, VInt64 _ | CPPTYPE_UINT64, VUInt64 _
  | CPPTYPE_INT32, VInt32 _ | CPPTYPE_UINT32, VUInt32 _ | CPPTYPE_BOOL, VBool _ | CPPTYPE_STRING, VString _ => True
  | CPPTYPE_ENUM, VEnum x => match t with TYPE_ENUM values => In x (map snd values) | _ => False end
  | _, _ => False
  end.

Inductive typed : field -> fvalue -> Prop :=
| typed_scalar n t v : scalar_typed t v -> typed (mkField n LABEL_SINGULAR t) (FScalar v)
| typed_repeated n t l : Forall (scalar_typed t) l -> typed (mkField n LABEL_REPEATED t) (FRepeated l)
| typed_message n fs (m : message) :
    wf_umap (fun _ => True) m ->
    (forall k v, Lookup m k = Some v -> exists f, In f fs /\ f_name f = k /\ typed f v) ->
    typed (mkField n LABEL_SINGULAR (TYPE_MESSAGE fs)) (FMessage m).

(** A message whose values have the types of its fields. *)
Definition typed_msg (fs : list field) (m : message) : Prop :=
  wf_umap (fun _ => True) m /\
  forall k v, Lookup m k = Some v -> exists f, In f fs /\ f_name f = k /\ typed f v.

(** Descriptors: the names of a message's fields are distinct; [sint64] is excluded
    for single fields, which the parser sets with the setter of another type. *)
Inductive wf_field : field -> Prop :=
| wf_leaf n l t :
    (forall fs, t <> TYPE_MESSAGE fs) -> (l = LABEL_SINGULAR -> t <> TYPE_SINT64) -> wf_field (mkField n l t)
| wf_nested n l fs : wf_fields fs -> wf_field (mkField n l (TYPE_MESSAGE fs))
with wf_fields : list field -> Prop :=
| wf_fields_intro fs : NoDup (map f_name fs) -> (forall f, In f fs -> wf_field f) -> wf_fields fs.
End Meaning.

(** ** Lemmas *)

Section ParseLemmas.
Context `{YamlLaws} (p : ParserYaml).

Abbreviation keys := (fun _ : str => True).

Lemma Lookup_set (m : message) k v k' :
  wf_umap keys m -> Lookup (insert_or_assign m k v) k' = if bool_decide (k' = k) then Some v else Lookup m k'.
Proof. intros Hw. by rewrite (Lookup_insert_or_assign keys). Qed.

Lemma wf_set (m : message) k v : wf_umap keys m -> wf_umap keys (insert_or_assign m k v).
Proof. intros Hw. by apply (wf_insert_or_assign keys). Qed.

(** *** Values *)

Lemma FindValueByName_In values name x : FindValueByName values name = Some x -> In x (map snd values).
Proof.
  unfold FindValueByName. destruct (List.find _ values) as [e|] eqn:E; [|done]. intros [= <-].
  apply find_some in E as [Hin _]. by apply in_map.
Qed.

Lemma scalar_value_typed t n x : scalar_value t n = Some x -> scalar_typed t x.
Proof.
  unfold scalar_typed. destruct t; cbn [scalar_value cpp_type]; try done; try (by intros (? & _ & ->)%fmap_Some).
  intros (s & _ & (y & E & ->)%fmap_Some)%bind_Some. by apply FindValueByName_In in E.
Qed.

Lemma element_value_typed t n x : element_value t n = Some x -> scalar_typed t x.
Proof.
  destruct t; try apply scalar_value_typed. cbn [element_value]. by intros (? & _ & ->)%fmap_Some.
Qed.

Lemma set_converted_spec {T} (conv : node -> option T) c inj msg n f :
  f_label f = LABEL_SINGULAR -> cpp_type (f_type f) = c ->
  match conv n with
  | Some v => set_converted p conv c inj msg n f = Some (insert_or_assign msg (f_name f) (FScalar (inj v)), [])
  | None => exists e, set_converted p conv c inj msg n f = Some (msg, [e])
  end.
Proof.
  intros Hl Hc. unfold set_converted, TryConvert, SetField. rewrite Hl.
  destruct (conv n); [by rewrite bool_decide_true|by eexists].
Qed.

Lemma ParseScalar_spec fname t msg s name :
  t <> TYPE_SINT64 ->
  match scalar_value t (Scalar s) with
  | Some x => ParseScalar p msg (Scalar s) (mkField fname LABEL_SINGULAR t) name
              = Some (insert_or_assign msg fname (FScalar x), [])
  | None => exists e, ParseScalar p msg (Scalar s) (mkField fname LABEL_SINGULAR t) name = Some (msg, [e])
  end.
Proof.
  intros Ht. set (f := mkField fname LABEL_SINGULAR t).
  destruct t; unfold ParseScalar; cbn [f f_type scalar_value]; try done; try by eexists.
  all: try (match goal with |- context [set_converted _ ?conv ?c ?inj ?m ?n _] =>
      pose proof (set_converted_spec conv c inj m n f eq_refl eq_refl) as Hs; destruct (conv n); exact Hs end).
  rewrite as_string_scalar. cbn [mbind option_bind]. destruct (FindValueByName values (map toupper s)); cbn; by eexists.
Qed.

Lemma convert_all_spec {T} (conv : node -> option T) inj ns :
  let r := convert_all p conv inj ns in
  (r.2 = [] <-> Forall (fun x => is_Some (conv x)) ns)
  /\ (r.2 = [] -> Forall2 (fun x y => inj <$> conv x = Some y) ns r.1)
  /\ Forall (fun y => exists v, y = inj v) r.1.
Proof.
  cbv zeta. induction ns as [|n ns IH]; cbn [convert_all]; [by repeat split; constructor|].
  destruct (convert_all p conv inj ns) as [vs errors]. cbn [fst snd] in *. destruct IH as (Ho & Hv & Ht).
  unfold TryConvert. destruct (conv n) as [v|] eqn:E; cbn [fst snd]; split_and!.
  - rewrite Forall_cons, Ho, E. split; [by eauto|]. by intros [_ ?].
  - intros Hn. constructor; [by rewrite E|by apply Hv].
  - constructor; [by eexists|done].
  - split; [done|]. rewrite Forall_cons, E. by intros [[? ?] _].
  - done.
  - done.
Qed.

Lemma enums_loop_spec values name ns :
  let r := enums_loop p values name ns in
  (r.2 = [] <-> Forall (fun x => is_Some (scalar_value (TYPE_ENUM values) x)) ns)
  /\ (r.2 = [] -> Forall2 (fun x y => scalar_value (TYPE_ENUM values) x = Some y) ns r.1)
  /\ Forall (scalar_typed (TYPE_ENUM values)) r.1.
Proof.
  cbv zeta. induction ns as [|n ns IH]; cbn [enums_loop]; [by repeat split; constructor|].
  destruct (enums_loop p values name ns) as [vs errors]. cbn [fst snd] in *. destruct IH as (Ho & Hv & Ht).
  assert (scalar_value (TYPE_ENUM values) n = as_string n ≫= fun s => VEnum <$> FindValueByName values (map toupper s))
    as En by done.
  unfold TryConvert. destruct (as_string n) as [v|]; cbn [mbind option_bind] in En.
  - destruct (FindValueByName values (map toupper v)) as [x|] eqn:Ef; cbn [fmap option_fmap option_map fst snd] in *; split_and!.
    + rewrite Forall_cons, Ho, En. split; [by eauto|]. by intros [_ ?].
    + intros Hn. constructor; [done|by apply Hv].
    + constructor; [|done]. by apply (scalar_value_typed _ n).
    + split; [done|]. rewrite Forall_cons, En. by intros [[? ?] _].
    + done.
    + done.
  - cbn [fst snd]; split_and!; [|done|done]. split; [done|]. rewrite Forall_cons, En. by intros [[? ?] _].
Qed.

Lemma ParseArray_spec fname t msg ns :
  let f := mkField fname LABEL_REPEATED t in
  (has_elements t = false /\ exists e, ParseArray p msg ns f = (msg, [e]))
  \/ (has_elements t = true
      /\ exists vs errs, ParseArray p msg ns f = (insert_or_assign msg fname (FRepeated vs), errs)
         /\ (errs = [] <-> Forall (fun x => is_Some (element_value t x)) ns)
         /\ (errs = [] -> Forall2 (fun x y => element_value t x = Some y) ns vs)
         /\ Forall (scalar_typed t) vs).
Proof.
  cbv zeta. destruct t; unfold ParseArray, has_elements; cbn [f_type cpp_type element_value scalar_value];
    try (by left; split; [|eexists]).
  all: right; split; [done|].
  all: try (unfold ParseArrayInner; match goal with |- context [convert_all _ ?conv ?inj ?l] =>
      pose proof (convert_all_spec conv inj l) as (Ho & Hv & Ht); destruct (convert_all p conv inj l) as [vs errs];
      exists vs, errs; split; [done|]; cbn [fst snd] in *; split; [|split]; [|exact Hv|];
      [rewrite Ho; apply Forall_iff; intros x; by rewrite fmap_is_Some
      |eapply Forall_impl; [exact Ht|]; by intros ? [? ->]] end).
  unfold ParseArrayEnum.
  pose proof (enums_loop_spec values (yaml_name p (mkField fname LABEL_REPEATED (TYPE_ENUM values))) ns) as (Ho & Hv & Ht).
  destruct (enums_loop p values _ ns) as [vs errs]. exists vs, errs. done.
Qed.
End ParseLemmas.

(** *** Fields *)

Section FieldLemmas.
Context `{YamlLaws} (p : ParserYaml).

Abbreviation keys := (fun _ : str => True).

Lemma ParseField_message fname fs (msg : message) n path :
  let f := mkField fname LABEL_SINGULAR (TYPE_MESSAGE fs) in
  ParseField p f msg n path =
  match subscript n (yaml_name p f) with
  | Undefined => Some (msg, missing_field p path (yaml_name p f))
  | Null => Some (msg, [])
  | Map kvs =>
      match ParseFields p fs (submessage msg f) (Map kvs) (ConcatPath path (yaml_name p f)) [] with
      | None => None
      | Some (m, errors) => Some (insert_or_assign msg fname (FMessage m), errors)
      end
  | sub => Some (msg, [type_mismatch p (yaml_name p f) (lit "Map") sub])
  end.
Proof.
  cbv zeta. cbn [ParseField]. set (f := mkField fname LABEL_SINGULAR (TYPE_MESSAGE fs)).
  destruct (subscript n (yaml_name p f)) as [| |s|l|kvs]; try done.
  generalize (submessage msg f) (@nil ParserError). induction fs as [|g fs IH]; intros m errs; [done|].
  cbn [ParseFields]. destruct (ParseField p g m (Map kvs) (ConcatPath path (yaml_name p f))) as [[m1 err]|]; [|done].
  apply IH.
Qed.

Lemma ParseField_repeated fname t (msg : message) n path :
  let f := mkField fname LABEL_REPEATED t in
  ParseField p f msg n path =
  match subscript n (yaml_name p f) with
  | Undefined => Some (msg, missing_field p path (yaml_name p f))
  | Sequence ns => Some (ParseArray p msg ns f)
  | sub => Some (msg, [type_mismatch p (yaml_name p f) (lit "Sequence") sub])
  end.
Proof. cbv zeta. cbn [ParseField]. by destruct (subscript n _). Qed.

Lemma ParseField_scalar fname t (msg : message) n path :
  let f := mkField fname LABEL_SINGULAR t in
  (forall fs, t <> TYPE_MESSAGE fs) ->
  ParseField p f msg n path =
  match subscript n (yaml_name p f) with
  | Undefined => Some (msg, missing_field p path (yaml_name p f))
  | Scalar s => ParseScalar p msg (Scalar s) f (yaml_name p f)
  | _ => Some (msg, [file_error p (lit ": Attempting to parse non-scalar field as scalar")])
  end.
Proof.
  cbv zeta. intros Ht. cbn [ParseField]. destruct t; try (by destruct (subscript n _)). by destruct (Ht fields).
Qed.

Lemma errors_nil (e1 e2 : ParserResult) : e1 ++ e2 = [] <-> e1 = [] /\ e2 = [].
Proof. split; [apply app_eq_nil|by intros [-> ->]]. Qed.

(** The field's value, if it is set, has its type. *)
Definition field_typed (msg : message) (f : field) : Prop := forall v, Lookup msg (f_name f) = Some v -> typed f v.

(** What parsing one field does to a message. *)
Record parsed (n : node) (f : field) (msg msg' : message) (errs : ParserResult) : Prop := {
  pd_ok : errs = [] <-> conforms p n f;
  pd_value : errs = [] -> reads p n f (Lookup msg (f_name f)) (Lookup msg' (f_name f));
  pd_other k : k <> f_name f -> Lookup msg' k = Lookup msg k;
  pd_wf : wf_umap keys msg';
  pd_typed : field_typed msg' f
}.

(** The parser adds an error and leaves the message alone. *)
Lemma parsed_error n f (msg : message) e :
  wf_umap keys msg -> field_typed msg f -> ~ conforms p n f -> parsed n f msg msg [e].
Proof. intros Hw Ht Hno. by split. Qed.

(** The message is left alone without an error. *)
Lemma parsed_skip n f (msg : message) :
  wf_umap keys msg -> field_typed msg f -> conforms p n f ->
  reads p n f (Lookup msg (f_name f)) (Lookup msg (f_name f)) -> parsed n f msg msg [].
Proof. intros Hw Ht Hc Hr. by split. Qed.

Lemma parsed_set n f (msg : message) v errs :
  wf_umap keys msg -> typed f v -> (errs = [] <-> conforms p n f) ->
  (errs = [] -> reads p n f (Lookup msg (f_name f)) (Some v)) ->
  parsed n f msg (insert_or_assign msg (f_name f) v) errs.
Proof.
  intros Hw Ht Hok Hr. split; [done|..].
  - intros He. rewrite Lookup_set, bool_decide_true by done. auto.
  - intros k Hk. by rewrite Lookup_set, bool_decide_false.
  - by apply wf_set.
  - intros v'. rewrite Lookup_set, bool_decide_true by done. by intros [= <-].
Qed.

(** What parsing a list of fields does, past the errors found before. *)
Record parsed_all (n : node) (fs : list field) (msg msg' : message) (errs : ParserResult) : Prop := {
  pa_ok : errs = [] <-> forall f, In f fs -> conforms p n f;
  pa_value : errs = [] -> forall f, In f fs -> reads p n f (Lookup msg (f_name f)) (Lookup msg' (f_name f));
  pa_other k : ~ In k (map f_name fs) -> Lookup msg' k = Lookup msg k;
  pa_wf : wf_umap keys msg';
  pa_typed f : In f fs -> field_typed msg' f
}.

Definition parses_well (f : field) : Prop :=
  wf_field f -> forall n (msg : message) path, wf_umap keys msg -> field_typed msg f ->
  exists msg' errs, ParseField p f msg n path = Some (msg', errs) /\ parsed n f msg msg' errs.

Lemma ParseFields_parsed fs :
  Forall parses_well fs -> wf_fields fs -> forall n (msg : message) path errs0, wf_umap keys msg ->
  (forall f, In f fs -> field_typed msg f) ->
  exists msg' errs, ParseFields p fs msg n path errs0 = Some (msg', errs0 ++ errs) /\ parsed_all n fs msg msg' errs.
Proof.
  intros HF Hwf. inversion Hwf as [fs' Hnd Hall]; subst fs'.
  clear Hwf. induction HF as [|f fs Hf HF IH]; intros n msg path errs0 Hw Ht; cbn [ParseFields].
  { exists msg, []. rewrite app_nil_r. split; [done|]. split; try done. }
  cbn [map] in Hnd. apply NoDup_cons in Hnd as [Hnin Hnd].
  destruct (Hf (Hall f (or_introl eq_refl)) n msg path Hw (Ht f (or_introl eq_refl))) as (m1 & e1 & -> & P1).
  assert (forall g, In g fs -> Lookup m1 (f_name g) = Lookup msg (f_name g)) as E1.
  { intros g Hg. apply P1. intros E. apply Hnin. rewrite <- E. by apply list_elem_of_In, in_map. }
  assert (forall g, In g fs -> field_typed m1 g) as Ht1.
  { intros g Hg v. rewrite (E1 g Hg). apply Ht. by right. }
  destruct (IH Hnd (fun g Hg => Hall g (or_intror Hg)) n m1 path (errs0 ++ e1) (pd_wf _ _ _ _ _ P1) Ht1)
    as (m2 & e2 & -> & P2).
  assert (Lookup m2 (f_name f) = Lookup m1 (f_name f)) as E2.
  { apply P2. intros Hin. apply Hnin. by apply list_elem_of_In. }
  exists m2, (e1 ++ e2). rewrite app_assoc. split; [done|]. split.
  - rewrite errors_nil, (pd_ok _ _ _ _ _ P1), (pa_ok _ _ _ _ _ P2). split.
    + intros [Hc Hcs] g [<-|Hg]; auto.
    + intros Hc. split; [by apply Hc; left|]. intros g Hg. apply Hc. by right.
  - intros [He1 He2]%errors_nil g [<-|Hg]; [rewrite E2; by apply P1|].
    rewrite <- (E1 g Hg). by apply P2.
  - intros k Hk. cbn [map In] in Hk. rewrite (pa_other _ _ _ _ _ P2) by tauto. apply P1. intros ->. tauto.
  - apply P2.
  - intros g [<-|Hg]; [|by apply P2]. intros v. rewrite E2. apply P1.
Qed.

(** The submessage a field starts from. *)
Lemma submessage_typed fname fs (msg : message) :
  let f := mkField fname LABEL_SINGULAR (TYPE_MESSAGE fs) in
  field_typed msg f -> typed_msg fs (submessage msg f).
Proof.
  intros f Ht. unfold submessage. destruct (Lookup msg (f_name f)) as [v|] eqn:E.
  - apply Ht in E. inversion E; subst; [split; [by apply wf_nil|done]|done].
  - split; [by apply wf_nil|done].
Qed.

(** Distinct names: the field of a name is the one whose value is typed. *)
Lemma wf_fields_inj fs f g : wf_fields fs -> In f fs -> In g fs -> f_name f = f_name g -> f = g.
Proof.
  intros [fs' Hnd _] Hf Hg E. clear fs. induction fs' as [|h fs IH]; [done|].
  cbn [map] in Hnd. apply NoDup_cons in Hnd as [Hnin Hnd].
  destruct Hf as [->|Hf], Hg as [->|Hg]; [done|..|by auto]; destruct Hnin; apply list_elem_of_In.
  - rewrite E. by apply in_map.
  - rewrite <- E. by apply in_map.
Qed.

Lemma typed_msg_field fs (m : message) f : wf_fields fs -> typed_msg fs m -> In f fs -> field_typed m f.
Proof.
  intros Hwf [_ Ht] Hin v E. destruct (Ht _ _ E) as (g & Hg & Eg & Hv). by rewrite (wf_fields_inj fs f g).
Qed.

(** A message read field by field from a typed one is typed. *)
Lemma parsed_all_typed n fs (m m' : message) errs :
  typed_msg fs m -> parsed_all n fs m m' errs -> typed_msg fs m'.
Proof.
  intros [Hw Ht] P. split; [apply P|]. intros k v E.
  destruct (in_dec (fun a b : str => decide (a = b)) k (map f_name fs)) as [(f & <- & Hf)%in_map_iff|Hno].
  - exists f. split_and!; try done. by apply (pa_typed _ _ _ _ _ P f Hf).
  - rewrite (pa_other _ _ _ _ _ P k Hno) in E. eauto.
Qed.

(** What conformance says of each kind of node. *)
Lemma conforms_inv n fname l t :
  conforms p n (mkField fname l t) ->
  match subscript n (yaml_name p (mkField fname l t)) with
  | Undefined => validation_mode_ p <> STRICT
  | Null => l = LABEL_SINGULAR /\ exists fs, t = TYPE_MESSAGE fs
  | Scalar s => l = LABEL_SINGULAR /\ is_Some (scalar_value t (Scalar s))
  | Sequence ns => l = LABEL_REPEATED /\ has_elements t = true /\ Forall (fun x => is_Some (element_value t x)) ns
  | Map kvs => l = LABEL_SINGULAR /\ exists fs, t = TYPE_MESSAGE fs /\ forall g, In g fs -> conforms p (Map kvs) g
  end.
Proof.
  inversion 1; subst; repeat match goal with E : subscript _ _ = _ |- _ => rewrite E; clear E end; eauto.
Qed.

(** A node that is not there. *)
Lemma parsed_missing n f (msg : message) path :
  wf_umap keys msg -> field_typed msg f -> subscript n (yaml_name p f) = Undefined ->
  parsed n f msg msg (missing_field p path (yaml_name p f)).
Proof.
  intros Hw Ht E. unfold missing_field. case_bool_decide.
  - apply parsed_error; [done..|]. destruct f. intros Hc%conforms_inv. by rewrite E in Hc.
  - by apply parsed_skip; [..|apply conf_absent|apply reads_absent].
Qed.

(** The values of a field by its kind. *)
Ltac field_error E := apply parsed_error; [done..|intros Hc%conforms_inv; rewrite E in Hc; naive_solver].

Lemma parses_repeated fname t : parses_well (mkField fname LABEL_REPEATED t).
Proof.
  intros _ n msg path Hw Ht. set (f := mkField fname LABEL_REPEATED t) in *. unfold f; rewrite ParseField_repeated; fold f.
  destruct (subscript n (yaml_name p f)) as [| |s|ns|kvs] eqn:E; subst f.
  1: by eexists _, _; split; [reflexivity|]; apply parsed_missing.
  1, 2, 4: by eexists _, _; split; [reflexivity|]; field_error E.
  destruct (ParseArray_spec p fname t msg ns) as [[Hno [e ->]]|(He & vs & errs & -> & Ho & Hv & Hty)];
    eexists _, _; (split; [reflexivity|]).
  - apply parsed_error; [done..|]. intros Hc%conforms_inv. rewrite E in Hc. by destruct Hc as (_ & ? & _); simplify_eq/=; congruence.
  - apply (parsed_set n (mkField fname _ _)); [done|by constructor|..].
    + rewrite Ho. split; [intros ?; by apply (conf_repeated _ _ _ _ ns)|]. intros Hc%conforms_inv. rewrite E in Hc. by apply Hc.
    + intros Hn. apply (reads_repeated _ _ _ _ ns); auto.
Qed.

Lemma parses_scalar fname t : (forall fs, t <> TYPE_MESSAGE fs) -> parses_well (mkField fname LABEL_SINGULAR t).
Proof.
  intros Hnm Hwf n msg path Hw Ht. set (f := mkField fname LABEL_SINGULAR t) in *.
  assert (t <> TYPE_SINT64) as Hs by (inversion Hwf; subst; auto; congruence).
  unfold f; rewrite ParseField_scalar by done; fold f. destruct (subscript n (yaml_name p f)) as [| |s|ns|kvs] eqn:E; subst f.
  1: by eexists _, _; split; [reflexivity|]; apply parsed_missing.
  1, 3, 4: by eexists _, _; split; [reflexivity|]; field_error E.
  pose proof (ParseScalar_spec p fname t msg s (yaml_name p (mkField fname LABEL_SINGULAR t)) Hs) as Hp.
  destruct (scalar_value t (Scalar s)) as [x|] eqn:Ex; [rewrite Hp|destruct Hp as [e ->]];
    eexists _, _; (split; [reflexivity|]).
  - apply (parsed_set n (mkField fname _ _)); [done|constructor; by eapply scalar_value_typed|..].
    + split; [|done]. intros _. by apply (conf_scalar _ _ _ _ s).
    + intros _. by apply (reads_scalar _ _ _ _ s).
  - apply parsed_error; [done..|]. intros Hc%conforms_inv. rewrite E, Ex in Hc. by destruct Hc as [_ []].
Qed.

Lemma parses_message fname fs : Forall parses_well fs -> parses_well (mkField fname LABEL_SINGULAR (TYPE_MESSAGE fs)).
Proof.
  intros HF Hwf n msg path Hw Ht. set (f := mkField fname LABEL_SINGULAR (TYPE_MESSAGE fs)) in *.
  assert (wf_fields fs) as Hfs by (inversion Hwf as [? ? ? Hno|]; subst; [by destruct (Hno fs)|done]).
  unfold f; rewrite ParseField_message; fold f. destruct (subscript n (yaml_name p f)) as [| |s|ns|kvs] eqn:E; subst f.
  1: by eexists _, _; split; [reflexivity|]; apply parsed_missing.
  2, 3: by eexists _, _; split; [reflexivity|]; field_error E.
  - eexists _, _. split; [reflexivity|]. by apply parsed_skip; [..|apply conf_null|apply reads_null].
  - pose proof (submessage_typed fname fs msg Ht) as Hsub.
    destruct (ParseFields_parsed fs HF Hfs (Map kvs) (submessage msg (mkField fname LABEL_SINGULAR (TYPE_MESSAGE fs))) (ConcatPath path (yaml_name p (mkField fname LABEL_SINGULAR (TYPE_MESSAGE fs)))) [])
      as (m & errs & -> & P); [apply Hsub|intros g Hg; by eapply typed_msg_field|].
    eexists _, _. split; [reflexivity|]. pose proof (parsed_all_typed _ _ _ _ _ Hsub P) as [? ?].
    apply (parsed_set n (mkField fname _ _)); [done|by constructor|..].
    + rewrite app_nil_l, (pa_ok _ _ _ _ _ P). split; [intros ?; by apply (conf_map _ _ _ _ kvs)|].
      intros Hc%conforms_inv. rewrite E in Hc. by destruct Hc as (_ & ? & [= <-] & ?).
    + intros Hn. apply (reads_map _ _ _ _ kvs _ (submessage msg (mkField fname LABEL_SINGULAR (TYPE_MESSAGE fs)))); [done|done|by apply P|by apply P].
Qed.

Lemma parses_well_all f : parses_well f.
Proof.
  induction f as [n l t IH] using field_nested_ind. destruct l; [|apply parses_repeated].
  destruct t; try (by apply parses_scalar). apply parses_message. by apply IH.
Qed.

Lemma ParseFields_spec fs n (msg : message) path :
  wf_fields fs -> typed_msg fs msg ->
  exists msg' errs, ParseFields p fs msg n path [] = Some (msg', errs) /\ parsed_all n fs msg msg' errs
    /\ typed_msg fs msg'.
Proof.
  intros Hwf Ht. destruct (ParseFields_parsed fs) with (n := n) (msg := msg) (path := path) (errs0 := @nil ParserError)
    as (m & errs & E & P).
  - apply Forall_forall. intros f _. apply parses_well_all.
  - done.
  - apply Ht.
  - intros f Hf. by apply (typed_msg_field fs).
  - exists m, errs. split; [done|]. split; [done|]. by apply (parsed_all_typed n fs msg m errs).
Qed.
End FieldLemmas.

(** *** Names *)

(** Lower case, and every underscore is followed by a letter. *)
Fixpoint snake_ok (s : str) : bool :=
  match s with
  | [] => true
  | c :: s =>
      (if bool_decide (c = "_"%char) then match s with d :: _ => islower d | [] => false end else negb (isupper c))
      && snake_ok s
  end.

(** The name of a field: it does not begin with an underscore either. *)
Definition snake_name (s : str) : bool :=
  match s with
  | c :: _ => negb (bool_decide (c = "_"%char)) && snake_ok s
  | [] => false
  end.

Lemma lower_upper c : islower c = true ->
  isupper (toupper c) = true /\ tolower (toupper c) = c /\ bool_decide (c = "_"%char) = false.
Proof. by destruct c as [[] [] [] [] [] [] [] []]; vm_compute. Qed.

Lemma tolower_id c : isupper c = false -> tolower c = c.
Proof. unfold tolower. by intros ->. Qed.

Lemma camel_of_snake s : snake_ok s = true ->
  camel_loop false (snake_loop false s) = s
  /\ (match s with d :: _ => islower d = true | [] => False end -> camel_loop false (snake_loop true s) = "_"%char :: s).
Proof.
  induction s as [|c s IH]; [done|]. cbn [snake_ok snake_loop]. intros [Hc Hs]%andb_true_iff.
  destruct (IH Hs) as [IH1 IH2]. split.
  - case_bool_decide as Eu; [|cbn [camel_loop]].
    + subst c. apply IH2. by destruct s.
    + apply negb_true_iff in Hc. by rewrite Hc, tolower_id, IH1.
  - intros Hl. destruct (lower_upper c Hl) as (Eu & El & ->). cbn [camel_loop negb andb]. by rewrite Eu, El, IH1.
Qed.

Lemma camel_of_snake_name s : snake_name s = true -> CamelCaseToSnake (SnakeCaseToCamel s) = s.
Proof.
  destruct s as [|c s]; [done|]. cbn [snake_name]. intros [Hc Hs]%andb_true_iff. apply negb_true_iff in Hc.
  unfold CamelCaseToSnake, SnakeCaseToCamel. cbn [snake_loop snake_ok] in *. rewrite Hc in *. cbn [camel_loop negb andb].
  apply andb_true_iff in Hs as [Hu%negb_true_iff Hs]. rewrite tolower_id by done. cbn [app]. f_equal. by apply camel_of_snake.
Qed.

(** *** Unknown fields *)

Section UnknownLemmas.
Context `{YamlLaws} (p : ParserYaml).

(** The field a key of the document names. *)
Definition key_field (fs : list field) (key : str) : option field :=
  FindFieldByName fs (if read_camelcase_ p then CamelCaseToSnake key else key).

(** Every key of the document names a field, and a map is the value of a message. *)
Inductive known : list field -> node -> Prop :=
| known_leaf fs n : (forall kvs, n <> Map kvs) -> known fs n
| known_map fs kvs :
    (forall key value, In (Scalar key, value) kvs -> exists f, key_field fs key = Some f
       /\ forall kvs', value = Map kvs' -> exists fields, f_type f = TYPE_MESSAGE fields /\ known fields value) ->
    known fs (Map kvs).

(** The keys are scalars, at every depth. *)
Inductive scalar_keys : node -> Prop :=
| sk_leaf n : (forall kvs, n <> Map kvs) -> (forall l, n <> Sequence l) -> scalar_keys n
| sk_map kvs :
    (forall key value, In (key, value) kvs -> exists s, key = Scalar s) ->
    (forall key value, In (key, value) kvs -> (forall l, value <> Sequence l) -> scalar_keys value) ->
    scalar_keys (Map kvs).

(** No field is a repeated message, at every depth. *)
Inductive single_messages : list field -> Prop :=
| single_intro fs :
    (forall f fields, In f fs -> f_type f = TYPE_MESSAGE fields ->
       f_label f = LABEL_SINGULAR /\ single_messages fields) -> single_messages fs.

(** The loop of [FindUnknownFields] over the entries of a map. *)
Fixpoint unknown_entries (fs : list field) (kvs : list (node * node)) : option ParserResult :=
  match kvs with
  | [] => Some []
  | (key, value) :: kvs =>
      match unknown_entry p (fun fields => FindUnknownFields p fields value) fs key value with
      | None => None
      | Some errors =>
          match unknown_entries fs kvs with
          | None => None
          | Some rest => Some (errors ++ rest)
          end
      end
  end.

Lemma FindUnknownFields_map fs kvs : FindUnknownFields p fs (Map kvs) = unknown_entries fs kvs.
Proof. cbn [FindUnknownFields]. induction kvs as [|[k v] kvs IH]; [done|]. cbn [unknown_entries]. by rewrite IH. Qed.

Lemma FindFieldByName_In fs name f : FindFieldByName fs name = Some f -> In f fs.
Proof. by intros [? _]%find_some. Qed.

(** One entry, with the recursive call's result. *)
Lemma unknown_entry_spec rec fs key value :
  single_messages fs ->
  (forall fields, single_messages fields -> (exists kvs, value = Map kvs) ->
     exists errs, rec fields = Some errs /\ (errs = [] <-> known fields value)) ->
  exists errs, unknown_entry p rec fs (Scalar key) value = Some errs
    /\ (errs = [] <-> exists f, key_field fs key = Some f
        /\ forall kvs', value = Map kvs' -> exists fields, f_type f = TYPE_MESSAGE fields /\ known fields value).
Proof.
  intros [fs' Hfs] Hrec. unfold unknown_entry, key_field. rewrite as_string_scalar.
  destruct (FindFieldByName fs' _) as [f|] eqn:Ef; [|eexists; split; [done|]; split; [done|by intros (? & ? & _)]].
  apply FindFieldByName_In in Ef as Hin.
  destruct value as [| |s|l|kvs]; try (by eexists; split; [done|]; split; [intros _; exists f; split; [done|]|]).
  assert (forall (e : ParserError), (forall fields, f_type f <> TYPE_MESSAGE fields) -> [e] = [] <->
            exists g, Some f = Some g /\ forall kvs', Map kvs = Map kvs' ->
              exists fields, f_type g = TYPE_MESSAGE fields /\ known fields (Map kvs)) as Hbad.
  { intros e Hno. split; [done|]. intros (g & [= <-] & Hg). destruct (Hg kvs eq_refl) as (? & E & _).
    by destruct (Hno _ E). }
  destruct (f_type f) as [| | | | | | | | | |fields| | | | | | |] eqn:Et; try (by eexists; split; [done|]; apply Hbad).
  destruct (Hfs f fields Hin Et) as [-> Hs]. destruct (Hrec fields Hs) as (errs & -> & Ho); [by eauto|].
  exists errs. split; [done|]. rewrite Ho. split.
  - intros Hk. exists f. split; [done|]. intros ? _. eauto.
  - intros (g & [= <-] & Hg). destruct (Hg kvs eq_refl) as (fields' & E & Hk). rewrite Et in E. by injection E as <-.
Qed.

Lemma FindUnknownFields_spec n : scalar_keys n -> forall fs, single_messages fs ->
  exists errs, FindUnknownFields p fs n = Some errs /\ (errs = [] <-> known fs n).
Proof.
  induction 1 as [n Hm Hl|kvs Hkeys Hvals IH]; intros fs Hfs.
  { destruct n as [| |s|l|kvs]; try (by eexists; split; [done|]; split; [intros _; by constructor|]);
      [by destruct (Hl l)|by destruct (Hm kvs)]. }
  rewrite FindUnknownFields_map.
  assert (exists errs, unknown_entries fs kvs = Some errs
    /\ (errs = [] <-> forall key value, In (Scalar key, value) kvs -> exists f, key_field fs key = Some f
         /\ forall kvs', value = Map kvs' -> exists fields, f_type f = TYPE_MESSAGE fields /\ known fields value))
    as (errs & -> & Ho).
  2: { exists errs. split; [done|]. rewrite Ho. split; [by constructor|].
       inversion 1 as [? ? Hno|]; subst; [by destruct (Hno kvs)|done]. }
  clear Hvals. induction kvs as [|[key value] kvs IHkvs]; [by eexists; split|]. cbn [unknown_entries].
  destruct (Hkeys key value (or_introl eq_refl)) as [s ->].
  destruct (unknown_entry_spec (fun fields => FindUnknownFields p fields value) fs s value Hfs) as (e1 & -> & Ho1).
  { intros fields Hf [kvs' ->]. by apply (IH (Scalar s) (Map kvs') (or_introl eq_refl)). }
  destruct IHkvs as (e2 & -> & Ho2); [intros k v Hin; by apply (Hkeys k v); right|intros k v Hin; by apply (IH k v); right|].
  exists (e1 ++ e2). split; [done|]. rewrite errors_nil, Ho1, Ho2. split.
  - intros [Hh Ht] key value' [[= <- <-]|Hin]; eauto.
  - intros Hall. split; [by apply Hall; left|]. intros ? ? ?. apply Hall. by right.
Qed.
End UnknownLemmas.

(** ** The theorems *)

(** The root of a configuration. *)
Definition document (n : node) : bool := match n with Scalar _ | Null => false | _ => true end.

Lemma Parse_document `{Yaml} p fs (msg : message) n :
  Parse p fs msg n =
  if document n then
    match ParseFields p fs msg n [] [] with
    | None => None
    | Some (msg, errors) =>
        if negb (bool_decide (validation_mode_ p = PERMISSIVE)) then
          match FindUnknownFields p fs n with
          | None => None
          | Some res => Some (msg, errors ++ res)
          end
        else Some (msg, errors)
    end
  else Some (msg, [lit "Invalid configuration"]).
Proof. by destruct n. Qed.

Lemma Parse_parsed `{YamlLaws} (p : ParserYaml) (fs : list field) (msg : message) (n : node) :
  wf_fields fs -> typed_msg fs msg ->
  (validation_mode_ p <> PERMISSIVE -> scalar_keys n /\ single_messages fs) ->
  exists msg' errs, Parse p fs msg n = Some (msg', errs) /\ typed_msg fs msg'
    /\ (errs = [] <-> document n = true /\ (forall f, In f fs -> conforms p n f)
                      /\ (validation_mode_ p <> PERMISSIVE -> known p fs n))
    /\ (errs = [] -> forall f, In f fs -> reads p n f (Lookup msg (f_name f)) (Lookup msg' (f_name f)))
    /\ (forall k, ~ In k (map f_name fs) -> Lookup msg' k = Lookup msg k).
Proof.
  intros Hwf Ht Hmode. rewrite Parse_document. destruct (document n).
  2: { exists msg, [lit "Invalid configuration"]. split_and!; [done..| |done|done]. by split; [|intros (? & _)]. }
  destruct (ParseFields_spec p fs n msg [] Hwf Ht) as (m & errs & -> & P & Htm).
  case_bool_decide as Hm; cbn [negb].
  - exists m, errs. split_and!; [done..| |apply P|apply P]. rewrite (pa_ok _ _ _ _ _ _ P). naive_solver.
  - destruct (Hmode Hm) as [Hk Hs]. destruct (FindUnknownFields_spec p n Hk fs Hs) as (res & -> & Ho).
    exists m, (errs ++ res). split_and!; [done..| |by intros [? ?]%errors_nil; apply P|apply P].
    rewrite errors_nil, Ho, (pa_ok _ _ _ _ _ _ P). naive_solver.
Qed.

(** C14. Parsing a YAML tree into a message.  The descriptor has distinct names and no single [sint64]
    field (setting one is fatal), and outside the permissive mode the tree is not a list, the keys of its
    maps are scalars and the descriptor, at every depth, has no repeated messages; on other input the search for unknown
    fields throws or ends the process.  Then parsing returns, and the message stays well typed whatever the tree holds: no value of
    another type, no enumeration value outside its enumeration, no field the descriptor lacks.  There is no error
    exactly when the tree is a map or a list (not a scalar, not empty), every field's node has a value of the field's type
    (or is missing, outside the strict mode) and, outside the permissive mode, every key of the tree
    names a field; then every field holds the value its node denotes, fields without a node
    keep their value, and submessages are merged field by field. *)
Theorem Parse_spec `{YamlLaws} (p : ParserYaml) (fs : list field) (msg : message) (n : node) :
  wf_fields fs -> typed_msg fs msg ->
  (validation_mode_ p <> PERMISSIVE -> scalar_keys n /\ single_messages fs) ->
  exists msg' errs, Parse p fs msg n = Some (msg', errs) /\ typed_msg fs msg'
    /\ (errs = [] <-> document n = true /\ (forall f, In f fs -> conforms p n f)
                      /\ (validation_mode_ p <> PERMISSIVE -> known p fs n))
    /\ (errs = [] -> forall f, In f fs -> reads p n f (Lookup msg (f_name f)) (Lookup msg' (f_name f)))
    /\ (forall k, ~ In k (map f_name fs) -> Lookup msg' k = Lookup msg k).
Proof. apply Parse_parsed. Qed.

(** The two spellings of a name agree: the key under which the parser looks a field up in a
    document written in camel case is recognised as that very field by the search for unknown
    fields, provided names are distinct, in snake case, and every underscore is followed by a letter. *)
Theorem key_names_field `{Yaml} (p : ParserYaml) (fs : list field) (f : field) :
  wf_fields fs -> (forall g, In g fs -> snake_name (f_name g) = true) -> In f fs ->
  key_field p fs (yaml_name p f) = Some f.
Proof.
  intros Hwf Hs Hin. unfold key_field, yaml_name.
  assert (FindFieldByName fs (f_name f) = Some f) as Hf.
  { unfold FindFieldByName. destruct (List.find _ fs) as [g|] eqn:E.
    - apply find_some in E as [Hg Eg%bool_decide_eq_true]. by rewrite (wf_fields_inj fs g f).
    - eapply find_none in E; [|done]. by rewrite bool_decide_true in E. }
  destruct (read_camelcase_ p); [|done]. by rewrite camel_of_snake_name by auto.
Qed.

(** ** Witnesses *)

Module Witnesses.

(** Decimal numbers, and the two spellings of a truth value. *)
Fixpoint digits (acc : Z) (s : str) : option Z :=
  match s with
  | [] => Some acc
  | c :: s => if in_range "0" "9" c then digits (10 * acc + (code c - 48)) s else None
  end.

Definition number (n : node) : option Z :=
  match n with Scalar (c :: s) => digits 0 (c :: s) | _ => None end.

#[export] Instance yaml : Yaml := {|
  subscript n name :=
    match n with
    | Map kvs =>
        match List.find (fun e => match e.1 with Scalar s => bool_decide (s = name) | _ => false end) kvs with
        | Some e => e.2
        | None => Undefined
        end
    | _ => Undefined
    end;
  as_double n := (fun _ => SpecFloat.S754_nan) <$> number n; as_float n := (fun _ => SpecFloat.S754_nan) <$> number n; as_int64 := number; as_uint64 := number;
  as_int32 := number; as_uint32 := number;
  as_bool n :=
    match n with
    | Scalar s => if bool_decide (s = lit "true") then Some true
                  else if bool_decide (s = lit "false") then Some false else None
    | _ => None
    end;
  as_string n := match n with Scalar s => Some s | _ => None end;
  what _ := lit "bad conversion"
|}.

#[export] Instance yaml_laws : YamlLaws.
Proof. by split. Qed.

Definition ip_fields : list field :=
  [mkField (lit "enabled") LABEL_SINGULAR (TYPE_ENUM [(lit "DISABLED", 0); (lit "ENABLED", 1)])].

Definition networking_fields : list field :=
  [mkField (lit "external_ips") LABEL_SINGULAR (TYPE_MESSAGE ip_fields);
   mkField (lit "max_connections_per_minute") LABEL_SINGULAR TYPE_INT64].

Definition config_fields : list field := [mkField (lit "networking") LABEL_SINGULAR (TYPE_MESSAGE networking_fields)].

Definition key (s : string) (n : node) : node * node := (Scalar (lit s), n).

Definition config_doc : node :=
  Map [key "networking" (Map [key "externalIps" (Map [key "enabled" (Scalar (lit "enabled"))])])].

Definition defaults : message :=
  [(lit "networking", FMessage [(lit "max_connections_per_minute", FScalar (VInt64 2048))])].

Definition strict_parser : ParserYaml := mkParserYaml (lit "config.yaml") true UNKNOWN_FIELDS_ONLY.

Lemma config_wf : wf_fields config_fields.
Proof.
  assert (forall n t, (forall fs, t <> TYPE_MESSAGE fs) -> t <> TYPE_SINT64 -> wf_field (mkField n LABEL_SINGULAR t)) as Hl.
  { intros n t ? ?. by constructor. }
  constructor; [by apply (bool_decide_unpack _)|]. intros f [<-|[]]. apply wf_nested.
  constructor; [by apply (bool_decide_unpack _)|]. intros f [<-|[<-|[]]]; [|by apply Hl]. apply wf_nested.
  constructor; [by apply (bool_decide_unpack _)|]. intros f [<-|[]]. by apply Hl.
Qed.

Lemma typed_single (k : str) v fs f :
  In f fs -> f_name f = k -> typed f v -> typed_msg fs [(k, v)].
Proof.
  intros Hin Hn Ht. split; [apply wf_cons; [done|constructor|by apply wf_nil]|].
  intros k' v'. unfold Lookup. cbn. unfold keqb, KeyEq_str, dec_keqb. case_bool_decide; [|done].
  intros [= <-]. exists f. subst. done.
Qed.

Lemma defaults_typed : typed_msg config_fields defaults.
Proof.
  eapply typed_single; [by left|done|].
  edestruct (typed_single (lit "max_connections_per_minute") (FScalar (VInt64 2048)) networking_fields)
    as [? ?]; [by right; left|done|by constructor|by constructor].
Qed.

Lemma single_entry_keys s value : scalar_keys value -> scalar_keys (Map [(Scalar s, value)]).
Proof.
  intros Hv. apply sk_map; intros k v [E|[]]; injection E as <- <-; [by exists s|done].
Qed.

Lemma config_doc_keys : scalar_keys config_doc.
Proof. do 3 apply single_entry_keys. by apply sk_leaf. Qed.

Lemma config_single : single_messages config_fields.
Proof.
  apply single_intro. intros f fields [<-|[]] [= <-]. split; [done|].
  apply single_intro. intros f fields [<-|[<-|[]]] [= <-]. split; [done|].
  apply single_intro. intros f fields [<-|[]] [=].
Qed.

(** The document adds to the defaults, and a mistyped enumeration value is an error. *)
Example parse_merges :
  Parse strict_parser config_fields defaults config_doc
  = Some ([(lit "networking",
            FMessage [(lit "max_connections_per_minute", FScalar (VInt64 2048));
                      (lit "external_ips", FMessage [(lit "enabled", FScalar (VEnum 1))])])], []).
Proof. vm_compute. reflexivity. Qed.

Lemma Parse_spec_witness :
  exists msg', Parse strict_parser config_fields defaults config_doc = Some (msg', [])
    /\ typed_msg config_fields msg' /\ known strict_parser config_fields config_doc.
Proof.
  destruct (Parse_spec strict_parser config_fields defaults config_doc config_wf defaults_typed
              (fun _ => conj config_doc_keys config_single)) as (m & errs & E & Ht & Ho & _).
  pose proof (f_equal (option_map snd) (eq_trans (eq_sym E) parse_merges)) as En. cbn [option_map snd] in En.
  injection En as ->.
  exists m. split; [exact E|]. split; [exact Ht|]. apply Ho; [done|]. done.
Defined.

Example parse_bad_enum :
  Parse strict_parser config_fields defaults
    (Map [key "networking" (Map [key "externalIps" (Map [key "enabled" (Scalar (lit "maybe"))])])])
  = Some ([(lit "networking",
            FMessage [(lit "max_connections_per_minute", FScalar (VInt64 2048)); (lit "external_ips", FMessage [])])],
          [[chr 34] ++ lit "config.yaml" ++ [chr 34] ++ lit ": Invalid enum value 'MAYBE' for field enabled"]).
Proof. vm_compute. reflexivity. Qed.

Lemma key_names_field_witness :
  key_field strict_parser networking_fields (lit "maxConnectionsPerMinute")
  = Some (mkField (lit "max_connections_per_minute") LABEL_SINGULAR TYPE_INT64).
Proof.
  apply (key_names_field strict_parser networking_fields
           (mkField (lit "max_connections_per_minute") LABEL_SINGULAR TYPE_INT64)).
  - pose proof config_wf as Hc. inversion Hc as [? _ Hf]; subst. specialize (Hf _ (or_introl eq_refl)).
    inversion Hf as [? ? ? Hno|]; subst; [by destruct (Hno networking_fields)|done].
  - by intros g [<-|[<-|[]]].
  - right. left. reflexivity.
Defined.

(** A name with a digit after the underscore is looked up under a key that is then
    reported as unknown. *)
Example digit_name_unknown :
  let fs := [mkField (lit "limit_1") LABEL_SINGULAR TYPE_INT64] in
  Parse strict_parser fs [] (Map [key "limit1" (Scalar (lit "7"))])
  = Some ([(lit "limit_1", FScalar (VInt64 7))],
          [[chr 34] ++ lit "config.yaml" ++ [chr 34] ++ lit ": Unknown field 'limit1'"]).
Proof. vm_compute. reflexivity. Qed.

(** A single [sint64] field is set with the setter of another type, which is fatal. *)
Example sint64_is_fatal :
  let fs := [mkField (lit "offset") LABEL_SINGULAR TYPE_SINT64] in
  Parse strict_parser fs [] (Map [key "offset" (Scalar (lit "7"))]) = None.
Proof. vm_compute. reflexivity. Qed.
End Witnesses.
