(* ===== verification/Inotify.v ===== *)
(** * The inotify wrapper

    [collector/lib/Inotify.h] and [Inotify.cpp]: the watchers by path and by descriptor,
    and the buffer from which events read in bulk are returned one at a time.  The
    system calls are parameters on the state of the kernel; the events in the buffer
    are the bytes of [struct inotify_event] on a little-endian machine.  [None] is an
    exception of [std::array::at] or an access outside the buffer. *)

From S2P Require Import Prelude Utility.

(** ** Flags of [<sys/inotify.h>] *)

Definition IN_ACCESS : Z := 0x1.
Definition IN_MODIFY : Z := 0x2.
Definition IN_ATTRIB : Z := 0x4.
Definition IN_CLOSE_WRITE : Z := 0x8.
Definition IN_CLOSE_NOWRITE : Z := 0x10.
Definition IN_OPEN : Z := 0x20.
Definition IN_MOVED_FROM : Z := 0x40.
Definition IN_MOVED_TO : Z := 0x80.
Definition IN_CREATE : Z := 0x100.
Definition IN_DELETE : Z := 0x200.
Definition IN_DELETE_SELF : Z := 0x400.
Definition IN_MOVE_SELF : Z := 0x800.
Definition IN_UNMOUNT : Z := 0x2000.
Definition IN_Q_OVERFLOW : Z := 0x4000.
Definition IN_IGNORED : Z := 0x8000.
Definition IN_DONT_FOLLOW : Z := 0x2000000.
Definition IN_ISDIR : Z := 0x40000000.
Definition IN_ONESHOT : Z := 0x80000000.

(** [BIT_MASKS] and [MASK_STR]. *)
Definition BIT_MASKS : list Z :=
  [IN_ACCESS; IN_MODIFY; IN_ATTRIB; IN_CLOSE_WRITE; IN_CLOSE_NOWRITE; IN_OPEN; IN_MOVED_FROM; IN_MOVED_TO;
   IN_CREATE; IN_DELETE; IN_DELETE_SELF; IN_MOVE_SELF; IN_UNMOUNT; IN_Q_OVERFLOW; IN_IGNORED; IN_ISDIR; IN_ONESHOT].

Definition MASK_STR : list str :=
  map lit ["access"; "modify"; "attrib"; "close_write"; "close_nowrite"; "open"; "moved_from"; "moved_to"; "create";
           "delete"; "delete_self"; "move_self"; "unmount"; "q_overflow"; "ignored"; "isdir"; "oneshot"]%string.

(** The loop of [MaskToString]. *)
Fixpoint mask_loop (mask : Z) (bits : list (Z * str)) (out : str) : str :=
  match bits with
  | [] => out
  | (bit, name) :: bits =>
      mask_loop mask bits
        (if negb (Z.land mask bit =? 0)
         then (match out with [] => [] | _ => out ++ lit " | " end) ++ name
         else out)
  end.

Definition MaskToString (mask : Z) : str := mask_loop mask (zip BIT_MASKS MASK_STR) [].

(** ** Watchers *)

Record Watcher := mkWatcher { wd : Z; path : str; tag : Z }.

(** [std::vector<Watcher>::iterator], by its index. *)
Definition WatcherIterator : Type := nat.

Fixpoint find_watcher (p : Watcher -> bool) (ws : list Watcher) (i : nat) : WatcherIterator :=
  match ws with
  | [] => i
  | w :: ws => if p w then i else find_watcher p ws (S i)
  end.

(** ** The state *)

Definition BUFFER_SIZE : nat := 1024.

Record Inotify := mkInotify {
  fd_ : Z;
  buffer_ : list Z;
  curr_byte_ : Z;
  read_data_ : Z;
  watchers_ : list Watcher
}.

Definition set_watchers (i : Inotify) (ws : list Watcher) : Inotify :=
  mkInotify (fd_ i) (buffer_ i) (curr_byte_ i) (read_data_ i) ws.

Definition set_buffer (i : Inotify) (buffer : list Z) (read_data : Z) : Inotify :=
  mkInotify (fd_ i) buffer (curr_byte_ i) read_data (watchers_ i).

Definition set_curr_byte (i : Inotify) (curr_byte : Z) : Inotify :=
  mkInotify (fd_ i) (buffer_ i) curr_byte (read_data_ i) (watchers_ i).

(** [Inotify()], with the result of [inotify_init]. *)
Definition Inotify_init (fd : Z) : Inotify := mkInotify fd (repeat 0 BUFFER_SIZE) 0 0 [].

Definition IsValid (i : Inotify) : bool := 0 <? fd_ i.

Definition FindWatcher_path (i : Inotify) (needle : str) : WatcherIterator :=
  find_watcher (fun w => bool_decide (path w = needle)) (watchers_ i) 0.

Definition FindWatcher_wd (i : Inotify) (needle : Z) : WatcherIterator :=
  find_watcher (fun w => wd w =? needle) (watchers_ i) 0.

Definition WatcherNotFound (i : Inotify) (it : WatcherIterator) : bool := (it =? length (watchers_ i))%nat.

(** ** Events *)

Record inotify_event := mkEvent { ev_wd : Z; ev_mask : Z; ev_cookie : Z; ev_len : Z; ev_name : str }.

Definition EVENT_SIZE : nat := 16.

Definition u32_at (buffer : list Z) (off : nat) : Z := le_word (take 4 (drop off buffer)).

(** The bytes up to the first zero. *)
Fixpoint cstring (bs : list Z) : str :=
  match bs with
  | [] => []
  | b :: bs => if b =? 0 then [] else chr b :: cstring bs
  end.

(** The [struct inotify_event] at an offset; its name is the string that starts after the header. *)
Definition event_at (buffer : list Z) (off : nat) : option inotify_event :=
  if (off + EVENT_SIZE <=? length buffer)%nat then
    Some (mkEvent (to_signed 32 (u32_at buffer off)) (u32_at buffer (off + 4)) (u32_at buffer (off + 8))
                  (u32_at buffer (off + 12)) (cstring (drop (off + EVENT_SIZE) buffer)))
  else None.

(** [InotifyResult]; the errors without their texts. *)
Inductive InotifyResult : Type :=
| INOTIFY_OK (event : inotify_event)
| INOTIFY_ERROR
| INOTIFY_TIMEOUT.

(** The system calls on the state of the kernel.  [sys_read] gives the bytes read, or [None] when it fails. *)
Class Kernel (W : Type) := {
  inotify_add_watch : W -> str -> Z -> Z * W;
  inotify_rm_watch : W -> Z -> Z * W;
  sys_select : W -> Z * W;
  sys_read : W -> nat -> option (list Z) * W
}.

Section Operations.
Context {W : Type} `{Kernel W}.

Definition AddWatcher (k : W) (i : Inotify) (p : str) (flags tag : Z) : Z * Inotify * W :=
  let '(new_wd, k) := inotify_add_watch k p flags in
  if new_wd <? 0 then (-1, i, k)
  else
    let it := FindWatcher_path i p in
    match watchers_ i !! it with
    | None => (new_wd, set_watchers i (watchers_ i ++ [mkWatcher new_wd p tag]), k)
    | Some w =>
        let '(w, k) :=
          if negb (wd w =? new_wd) then
            let '(_, k) := inotify_rm_watch k (wd w) in (mkWatcher new_wd (path w) (Inotify.tag w), k)
          else (w, k) in
        (new_wd, set_watchers i (<[it := mkWatcher (wd w) (path w) tag]> (watchers_ i)), k)
    end.

Definition FILE_FLAGS : Z := Z.lor (Z.lor (Z.lor IN_MODIFY IN_MOVE_SELF) IN_DELETE_SELF) IN_DONT_FOLLOW.

Definition AddFileWatcher (k : W) (i : Inotify) (p : str) (tag : Z) : Z * Inotify * W :=
  AddWatcher k i p FILE_FLAGS tag.

Definition DIRECTORY_FLAGS : Z :=
  Z.lor (Z.lor (Z.lor (Z.lor IN_CREATE IN_DELETE) IN_MOVE_SELF) IN_DELETE_SELF) IN_DONT_FOLLOW.

Definition AddDirectoryWatcher (k : W) (i : Inotify) (p : str) (tag : Z) : Z * Inotify * W :=
  AddWatcher k i p DIRECTORY_FLAGS tag.

Definition RemoveWatcher (k : W) (i : Inotify) (it : WatcherIterator) : Z * Inotify * W :=
  match watchers_ i !! it with
  | None => (0, i, k)
  | Some w =>
      let '(res, k) := inotify_rm_watch k (wd w) in
      (res, set_watchers i (delete it (watchers_ i)), k)
  end.

Definition RemoveWatcher_wd (k : W) (i : Inotify) (wd : Z) : Z * Inotify * W :=
  RemoveWatcher k i (FindWatcher_wd i wd).

Definition RemoveWatcher_path (k : W) (i : Inotify) (p : str) : Z * Inotify * W :=
  RemoveWatcher k i (FindWatcher_path i p).

(** [~Inotify]: every watch is removed. *)
Definition Inotify_destroy (k : W) (i : Inotify) : W :=
  fold_left (fun k w => (inotify_rm_watch k (wd w)).2) (watchers_ i) k.

(** The event at [curr_byte_], and the step past it. *)
Definition take_event (i : Inotify) (curr_byte : Z) : option (InotifyResult * Inotify) :=
  if curr_byte <? Z.of_nat BUFFER_SIZE then
    match event_at (buffer_ i) (Z.to_nat curr_byte) with
    | None => None
    | Some event => Some (INOTIFY_OK event, set_curr_byte i (wrap 64 (curr_byte + (Z.of_nat EVENT_SIZE + ev_len event))))
    end
  else None.

(** [read_data_ = read(...)]: the result is kept as a [size_t]. *)
Definition read_events (k : W) (i : Inotify) : Inotify * W :=
  let '(data, k) := sys_read k BUFFER_SIZE in
  match data with
  | None => (set_buffer i (buffer_ i) (wrap 64 (-1)), k)
  | Some bs => (set_buffer i (bs ++ drop (length bs) (buffer_ i)) (wrap 64 (Z.of_nat (length bs))), k)
  end.

Definition GetNext (k : W) (i : Inotify) : option (InotifyResult * Inotify * W) :=
  if curr_byte_ i <? read_data_ i then
    match take_event i (curr_byte_ i) with
    | None => None
    | Some (r, i) => Some (r, i, k)
    end
  else
    let '(retval, k) := sys_select k in
    if retval <? 0 then Some (INOTIFY_ERROR, i, k)
    else if retval =? 0 then Some (INOTIFY_TIMEOUT, i, k)
    else
      let '(i, k) := read_events k i in
      if read_data_ i <? 0 then Some (INOTIFY_ERROR, i, k)
      else
        match take_event i 0 with
        | None => None
        | Some (r, i) => Some (r, i, k)
        end.

(** Calls to [GetNext] in a row, with their results. *)
Fixpoint GetNexts (n : nat) (k : W) (i : Inotify) : option (list InotifyResult * Inotify * W) :=
  match n with
  | O => Some ([], i, k)
  | S n =>
      match GetNext k i with
      | None => None
      | Some (r, i, k) =>
          match GetNexts n k i with
          | None => None
          | Some (rs, i, k) => Some (r :: rs, i, k)
          end
      end
  end.
End Operations.

(** The text of a watcher and of the store. *)
Definition show_Z (z : Z) : str := if z <? 0 then lit "-" ++ show_nat (- z) else show_nat z.

Definition Watcher_print (w : Watcher) : str :=
  lit "Watcher:" ++ [chr 10] ++ lit "  path: " ++ quoted (path w) ++ [chr 10] ++ lit "  wd: " ++ show_Z (wd w)
  ++ [chr 10] ++ lit "  tag: " ++ show_Z (tag w).

Fixpoint Inotify_print (ws : list Watcher) : str :=
  match ws with
  | [] => []
  | [w] => Watcher_print w
  | w :: ws => Watcher_print w ++ [chr 10] ++ Inotify_print ws
  end.

(** ** The queue the buffer implements *)

(** An event of the kernel: a name is followed by at least one zero. *)
Record kevent := mkKevent { k_wd : Z; k_mask : Z; k_cookie : Z; k_name : str; k_pad : nat }.

Definition k_len (e : kevent) : Z := Z.of_nat (length (k_name e) + k_pad e).

Record kevent_ok (e : kevent) : Prop := {
  ko_wd : - 2 ^ 31 <= k_wd e < 2 ^ 31;
  ko_mask : word 32 (k_mask e);
  ko_cookie : word 32 (k_cookie e);
  ko_len : word 32 (k_len e);
  ko_name : Forall (fun c => code c <> 0) (k_name e);
  ko_pad : k_name e <> [] -> k_pad e <> 0%nat
}.

(** The bytes of an event. *)
Definition encode (e : kevent) : list Z :=
  le_bytes 4 (k_wd e) ++ le_bytes 4 (k_mask e) ++ le_bytes 4 (k_cookie e) ++ le_bytes 4 (k_len e)
  ++ map code (k_name e) ++ repeat 0 (k_pad e).

(** The caller sees the event. *)
Definition delivered (e : kevent) (ev : inotify_event) : Prop :=
  ev_wd ev = k_wd e /\ ev_mask ev = k_mask e /\ ev_cookie ev = k_cookie e /\ ev_len ev = k_len e
  /\ (k_name e <> [] -> ev_name ev = k_name e).

(** The buffer holds the encoding of the events not yet returned. *)
Definition holds (i : Inotify) (q : list kevent) : Prop :=
  length (buffer_ i) = BUFFER_SIZE /\ Forall kevent_ok q
  /\ exists pre post, buffer_ i = pre ++ flat_map encode q ++ post
     /\ curr_byte_ i = Z.of_nat (length pre)
     /\ read_data_ i = Z.of_nat (length pre + length (flat_map encode q)).

(** What the wrapper relies on: a read into a buffer that has room for any event gives, if it
    succeeds, one or more whole events, which are added to those handed over so far; it may fail
    (a signal interrupts it, for example) and then hands over nothing. *)
Class KernelLaws {W} `{Kernel W} := {
  handed : W -> list kevent;
  select_hands_nothing k : handed (sys_select k).2 = handed k;
  read_whole_events k bs :
    (sys_read k BUFFER_SIZE).1 = Some bs ->
    exists evs, evs <> [] /\ Forall kevent_ok evs /\ bs = flat_map encode evs
      /\ (length (flat_map encode evs) <= BUFFER_SIZE)%nat
      /\ handed (sys_read k BUFFER_SIZE).2 = handed k ++ evs
}.

(** The next call finds the buffer used up, is told that there are events, and fails to read them. *)
Definition read_fails {W} `{Kernel W} (k : W) (i : Inotify) : Prop :=
  read_data_ i <= curr_byte_ i /\ 0 < (sys_select k).1 /\ (sys_read (sys_select k).2 BUFFER_SIZE).1 = None.

(** The events among results. *)
Definition ok_events (rs : list InotifyResult) : list inotify_event :=
  omap (fun r => match r with INOTIFY_OK ev => Some ev | _ => None end) rs.

Lemma cstring_name s rest : Forall (fun c => code c <> 0) s -> cstring (map code s ++ 0 :: rest) = s.
Proof.
  induction 1 as [|c s Hc _ IH]; [done|]. cbn [map app cstring].
  destruct (Z.eqb_spec (code c) 0); [done|]. by rewrite chr_code, IH.
Qed.

Lemma encode_length e : length (encode e) = (EVENT_SIZE + length (k_name e) + k_pad e)%nat.
Proof.
  unfold encode. rewrite !length_app, !length_le_bytes, length_map, repeat_length. unfold EVENT_SIZE. lia.
Qed.

Lemma take_le_bytes x rest : take 4 (le_bytes 4 x ++ rest) = le_bytes 4 x.
Proof. by rewrite take_app_le, firstn_all2 by (rewrite length_le_bytes; lia). Qed.

Lemma u32_le pre x rest : u32_at (pre ++ le_bytes 4 x ++ rest) (length pre) = wrap 32 x.
Proof. unfold u32_at. by rewrite drop_app_length, take_le_bytes, le_word_bytes. Qed.

Lemma to_signed_wrap x : - 2 ^ 31 <= x < 2 ^ 31 -> to_signed 32 (wrap 32 x) = x.
Proof.
  intros Hx. unfold to_signed, wrap. rewrite Z.mod_mod by lia.
  destruct (Z.lt_ge_cases x 0).
  - replace (x mod 2 ^ 32) with (x + 2 ^ 32) by (symmetry; rewrite <- (Z.mod_add x 1), Z.mul_1_l by lia; apply Z.mod_small; lia).
    destruct (Z.ltb_spec (x + 2 ^ 32) (2 ^ (32 - 1))); lia.
  - rewrite Z.mod_small by lia. destruct (Z.ltb_spec x (2 ^ (32 - 1))); lia.
Qed.

Lemma event_at_encode pre e post :
  kevent_ok e -> exists ev, event_at (pre ++ encode e ++ post) (length pre) = Some ev /\ delivered e ev.
Proof.
  intros Hok. unfold event_at. set (buf := pre ++ encode e ++ post).
  assert ((length pre + EVENT_SIZE <=? length buf)%nat = true) as ->.
  { apply Nat.leb_le. unfold buf. rewrite !length_app, encode_length. lia. }
  assert (forall n a x b, encode e = a ++ le_bytes 4 x ++ b -> length a = n -> u32_at buf (length pre + n) = wrap 32 x) as Hu.
  { intros n a x b Ee Hn. unfold buf. rewrite Ee, <- !app_assoc, (app_assoc pre a), <- Hn, <- length_app. apply u32_le. }
  eexists. split; [done|]. unfold delivered. cbn [ev_wd ev_mask ev_cookie ev_len ev_name].
  rewrite <- (Nat.add_0_r (length pre)) at 1.
  rewrite (Hu 0%nat [] (k_wd e) _ eq_refl eq_refl).
  rewrite (Hu 4%nat (le_bytes 4 (k_wd e)) (k_mask e) _ eq_refl (length_le_bytes _ _)).
  rewrite (Hu 8%nat (le_bytes 4 (k_wd e) ++ le_bytes 4 (k_mask e)) (k_cookie e) _ eq_refl eq_refl).
  rewrite (Hu 12%nat (le_bytes 4 (k_wd e) ++ le_bytes 4 (k_mask e) ++ le_bytes 4 (k_cookie e)) (k_len e) _ eq_refl eq_refl).
  destruct Hok as [Hwd Hm Hc Hl Hn Hp]. rewrite to_signed_wrap, !wrap_id by done. split_and!; try done.
  intros Hne. apply Hp in Hne as Hpad. destruct (k_pad e) as [|pad] eqn:Ep; [done|].
  unfold buf, encode. rewrite Ep, !app_assoc, <- (app_assoc _ (repeat _ _)), <- app_assoc.
  rewrite drop_app_length'; [cbn [repeat app]; by apply cstring_name|].
  rewrite !length_app, !length_le_bytes. unfold EVENT_SIZE. lia.
Qed.

Lemma encode_length_Z e : Z.of_nat (length (encode e)) = Z.of_nat EVENT_SIZE + k_len e.
Proof. rewrite encode_length. unfold k_len. lia. Qed.

(** The first pending event is returned and the rest stays. *)
Lemma take_event_holds i e q :
  holds i (e :: q) ->
  exists ev i', take_event i (curr_byte_ i) = Some (INOTIFY_OK ev, i') /\ delivered e ev /\ holds i' q
    /\ watchers_ i' = watchers_ i.
Proof.
  intros (Hlen & Hok & pre & post & Hb & Hc & Hr). inversion Hok as [|? ? He Hq]; subst.
  cbn [flat_map] in *. rewrite <- app_assoc in Hb.
  destruct (event_at_encode pre e (flat_map encode q ++ post) He) as (ev & Eev & Hd).
  unfold take_event. rewrite Hc, Nat2Z.id, Hb, Eev.
  rewrite Hb, !length_app, encode_length in Hlen. unfold BUFFER_SIZE, EVENT_SIZE in Hlen.
  destruct (Z.ltb_spec (Z.of_nat (length pre)) (Z.of_nat BUFFER_SIZE)) as [_|Hge]; [|unfold BUFFER_SIZE in Hge; lia].
  eexists ev, _. split; [done|]. split; [done|]. split; [|done].
  destruct Hd as (_ & _ & _ & El & _). rewrite El, <- encode_length_Z.
  rewrite wrap_id by (unfold word; rewrite encode_length; unfold EVENT_SIZE; lia).
  split; [by cbn [set_curr_byte buffer_]; rewrite Hb, !length_app, encode_length; unfold BUFFER_SIZE, EVENT_SIZE; lia|].
  split; [done|]. exists (pre ++ encode e), post. cbn [set_curr_byte buffer_ curr_byte_ read_data_].
  rewrite Hb, Hr, !length_app. split_and!; [by rewrite <- app_assoc|lia|lia].
Qed.

Lemma pending_first i e q : holds i (e :: q) -> (curr_byte_ i <? read_data_ i) = true.
Proof.
  intros (_ & _ & pre & post & _ & -> & ->). apply Z.ltb_lt. cbn [flat_map].
  rewrite length_app, encode_length. unfold EVENT_SIZE. lia.
Qed.

Lemma delivered_one e ev : delivered e ev -> Forall2 delivered [e] (ok_events [INOTIFY_OK ev]).
Proof. intros Hd. apply Forall2_cons_2; [done|apply Forall2_nil_2]. Qed.

Section Queue.
Context {W : Type} `{KernelLaws W}.

(** A read into an empty queue. *)
Lemma read_events_holds k i bs :
  (sys_read k BUFFER_SIZE).1 = Some bs -> length (buffer_ i) = BUFFER_SIZE ->
  exists e q i' k', read_events k i = (i', k') /\ handed k' = handed k ++ e :: q /\ watchers_ i' = watchers_ i
    /\ 0 <= read_data_ i' /\ holds (set_curr_byte i' 0) (e :: q).
Proof.
  intros Hr Hlen. destruct (read_whole_events k bs Hr) as (evs & Hne & Hok & -> & Hsz & Hh).
  unfold read_events. destruct (sys_read k BUFFER_SIZE) as [data k']. cbn [fst snd] in *. subst data.
  destruct evs as [|e q]; [done|]. exists e, q. eexists _, k'. split; [done|]. split; [done|]. split; [done|].
  set (bs := flat_map encode (e :: q)) in *. cbn [set_buffer set_curr_byte read_data_].
  rewrite wrap_id by (unfold word, BUFFER_SIZE in *; lia). split; [lia|].
  split; [cbn [set_buffer set_curr_byte buffer_]; rewrite length_app, length_drop; lia|]. split; [done|].
  exists [], (drop (length bs) (buffer_ i)). done.
Qed.

(** One call whose read, if there is one, succeeds: it returns, and keeps what the kernel handed over in
    order. *)
Lemma GetNext_queue k i q :
  holds i q ->
  read_fails k i \/ exists r i' k' new ds q', GetNext k i = Some (r, i', k') /\ holds i' q' /\ watchers_ i' = watchers_ i
    /\ handed k' = handed k ++ new /\ q ++ new = ds ++ q' /\ Forall2 delivered ds (ok_events [r]).
Proof.
  intros Hh. pose proof Hh as (Hlen & Hok & pre & post & Hb & Hc & Hr). unfold GetNext, read_fails. destruct q as [|e q].
  - rewrite Hc, Hr. cbn [flat_map length]. rewrite Nat.add_0_r, Z.ltb_irrefl.
    pose proof (select_hands_nothing k) as Hs. destruct (sys_select k) as [retval k1]. cbn [fst snd] in *.
    destruct (Z.ltb_spec retval 0); [|destruct (Z.eqb_spec retval 0)].
    1, 2: by right; eexists _, i, k1, [], [], []; split_and!; [done|done|done|by rewrite app_nil_r|done|constructor].
    destruct (sys_read k1 BUFFER_SIZE).1 as [bs|] eqn:Ebs; [right|left; split_and!; lia || done].
    destruct (read_events_holds k1 i bs Ebs Hlen) as (e & q & i2 & k2 & -> & Hn & Hw & Hpos & Hq).
    destruct (Z.ltb_spec (read_data_ i2) 0); [lia|].
    destruct (take_event_holds _ e q Hq) as (ev & i3 & E & Hd & Hq' & Hw3). cbn [set_curr_byte curr_byte_] in E.
    assert (take_event i2 0 = Some (INOTIFY_OK ev, i3)) as -> by exact E.
    eexists _, i3, k2, (e :: q), [e], q. split_and!;
      [done|done|by etrans|by rewrite Hn, Hs|done|by apply delivered_one].
  - right. rewrite (pending_first i e q Hh).
    destruct (take_event_holds i e q Hh) as (ev & i' & E & Hd & Hq & Hw). rewrite E.
    eexists _, i', k, [], [e], q. split_and!; [done|done|done|by rewrite app_nil_r|by rewrite app_nil_r|by apply delivered_one].
Qed.

Lemma holds_init fd : holds (Inotify_init fd) [].
Proof. split; [done|]. split; [constructor|]. by exists [], (repeat 0 BUFFER_SIZE). Qed.

Lemma GetNexts_queue n : forall k i q,
  holds i q ->
  exists m rs i' k' new ds q', GetNexts m k i = Some (rs, i', k') /\ length rs = m
    /\ (m = n \/ (m < n)%nat /\ read_fails k' i') /\ holds i' q' /\ watchers_ i' = watchers_ i
    /\ handed k' = handed k ++ new /\ q ++ new = ds ++ q' /\ Forall2 delivered ds (ok_events rs).
Proof.
  induction n as [|n IH]; intros k i q Hh.
  { exists 0%nat, [], i, k, [], [], q. split_and!; [done|done|by left|done|done|by rewrite app_nil_r|by rewrite app_nil_r|constructor]. }
  destruct (GetNext_queue k i q Hh) as [Hf|(r & i1 & k1 & new1 & ds1 & q1 & E1 & Hh1 & Hw1 & Hk1 & Hq1 & Hd1)].
  { exists 0%nat, [], i, k, [], [], q. split_and!; [done|done|right; split; [lia|done]|done|done|by rewrite app_nil_r|by rewrite app_nil_r|constructor]. }
  destruct (IH k1 i1 q1 Hh1) as (m & rs & i2 & k2 & new2 & ds2 & q2 & E2 & Hl & Hm & Hh2 & Hw2 & Hk2 & Hq2 & Hd2).
  exists (S m), (r :: rs), i2, k2, (new1 ++ new2), (ds1 ++ ds2), q2. cbn [GetNexts]. rewrite E1, E2.
  split_and!; [done|by cbn; f_equal|destruct Hm as [->|[? ?]]; [by left|right; split; [lia|done]]|done|congruence|..].
  - by rewrite Hk2, Hk1, app_assoc.
  - by rewrite app_assoc, Hq1, <- !app_assoc, Hq2.
  - replace (ok_events (r :: rs)) with (ok_events [r] ++ ok_events rs) by (by destruct r).
    by apply Forall2_app.
Qed.
End Queue.

(** ** A failed read *)

(** The state after a read that failed. *)
Record wedged (i : Inotify) : Prop := {
  wg_read : read_data_ i = 2 ^ 64 - 1;
  wg_bytes : bytes_ok (buffer_ i);
  wg_curr : 0 <= curr_byte_ i < 2 ^ 64 - 1
}.

Lemma u32_bound buffer off : bytes_ok buffer -> 0 <= u32_at buffer off < 2 ^ 32.
Proof.
  intros Hb. unfold u32_at. assert (bytes_ok (take 4 (drop off buffer))) as H4 by (by apply Forall_take, Forall_drop).
  apply le_word_bound in H4. rewrite length_take in H4.
  assert (256 ^ Z.of_nat (4 `min` length (drop off buffer)) <= 256 ^ 4) by (apply Z.pow_le_mono_r; lia). lia.
Qed.

(** Every event moves the position by at least the size of a header. *)
Lemma take_event_advance i c r i' :
  bytes_ok (buffer_ i) -> 0 <= c -> take_event i c = Some (r, i') ->
  c < 1024 /\ c + 16 <= curr_byte_ i' < 2 ^ 64 - 1 /\ buffer_ i' = buffer_ i /\ read_data_ i' = read_data_ i.
Proof.
  intros Hb Hc. unfold take_event. destruct (Z.ltb_spec c (Z.of_nat BUFFER_SIZE)) as [Hlt|]; [|done].
  unfold event_at. destruct (_ <=? _)%nat; [|done]. intros [= <- <-]. cbn [ev_len set_curr_byte curr_byte_ buffer_ read_data_].
  pose proof (u32_bound (buffer_ i) (Z.to_nat c + 12) Hb). unfold BUFFER_SIZE, EVENT_SIZE in *.
  rewrite wrap_id by (unfold word; lia). split_and!; lia || done.
Qed.

Section Failure.
Context {W : Type} `{Kernel W}.

Lemma GetNext_wedged k i r i' k' :
  wedged i -> GetNext k i = Some (r, i', k') -> curr_byte_ i < 1024 /\ curr_byte_ i + 16 <= curr_byte_ i' /\ wedged i'.
Proof.
  intros [Hr Hb Hc]. unfold GetNext. rewrite Hr. destruct (Z.ltb_spec (curr_byte_ i) (2 ^ 64 - 1)); [|lia].
  destruct (take_event i (curr_byte_ i)) as [[r1 i1]|] eqn:E; [|done]. intros [= <- <- <-].
  destruct (take_event_advance _ _ _ _ Hb (proj1 Hc) E) as (? & ? & Eb & Er). split; [done|]. split; [lia|].
  split; [congruence|by rewrite Eb|lia].
Qed.

Lemma GetNexts_wedged n : forall k i rs i' k',
  wedged i -> GetNexts n k i = Some (rs, i', k') -> n <> 0%nat -> curr_byte_ i + 16 * (Z.of_nat n - 1) < 1024.
Proof.
  induction n as [|n IH]; intros k i rs i' k' Hw E Hn; [done|]. cbn [GetNexts] in E.
  destruct (GetNext k i) as [[[r i1] k1]|] eqn:E1; [|done].
  destruct (GetNext_wedged _ _ _ _ _ Hw E1) as (Hlt & Hadv & Hw1).
  destruct (GetNexts n k1 i1) as [[[rs1 i2] k2]|] eqn:E2; [|done].
  destruct n as [|n]; [lia|]. pose proof (IH _ _ _ _ _ Hw1 E2 (Nat.neq_succ_0 n)). lia.
Qed.
End Failure.

(** ** Watchers by path *)

Definition watcher_of (i : Inotify) (p : str) : option Watcher := watchers_ i !! FindWatcher_path i p.

(** No path is watched twice. *)
Definition wf_watchers (i : Inotify) : Prop := NoDup (map path (watchers_ i)).

Lemma find_watcher_find f ws n : (n <= find_watcher f ws n)%nat /\ ws !! (find_watcher f ws n - n)%nat = List.find f ws.
Proof.
  revert n. induction ws as [|w ws IH]; intros n; cbn [find_watcher List.find]; [by rewrite Nat.sub_diag|].
  destruct (f w); [by rewrite Nat.sub_diag|]. destruct (IH (S n)) as [Hle E]. split; [lia|].
  replace (find_watcher f ws (S n) - n)%nat with (S (find_watcher f ws (S n) - S n)) by lia. done.
Qed.

Lemma find_watcher_lookup f ws : ws !! find_watcher f ws 0 = List.find f ws.
Proof. destruct (find_watcher_find f ws 0) as [_ E]. by rewrite Nat.sub_0_r in E. Qed.

Lemma watcher_of_Some i p w : wf_watchers i -> watcher_of i p = Some w <-> In w (watchers_ i) /\ path w = p.
Proof.
  unfold wf_watchers, watcher_of, FindWatcher_path. rewrite find_watcher_lookup.
  induction (watchers_ i) as [|w' ws IH]; cbn [List.find map In]; intros Hnd; [naive_solver|].
  apply NoDup_cons in Hnd as [Hnin Hnd]. case_bool_decide as E.
  - split; [intros [= ->]; auto|]. intros [[->|Hin] Hp]; [done|]. destruct Hnin. apply list_elem_of_In.
    rewrite E, <- Hp. by apply in_map.
  - rewrite IH by done. naive_solver.
Qed.

Lemma watcher_of_index i p w : watcher_of i p = Some w -> watchers_ i !! FindWatcher_path i p = Some w /\ path w = p.
Proof.
  intros E. split; [done|]. unfold watcher_of, FindWatcher_path in E. rewrite find_watcher_lookup in E.
  apply find_some in E as [_ E]. by apply bool_decide_eq_true in E.
Qed.

Lemma watcher_of_None i p : watcher_of i p = None -> ~ In p (map path (watchers_ i)).
Proof.
  unfold watcher_of, FindWatcher_path. rewrite find_watcher_lookup. intros E (w & Hp & Hin)%in_map_iff.
  eapply find_none in E; [|done]. by rewrite bool_decide_true in E.
Qed.

Lemma paths_insert (ws : list Watcher) it w w' :
  ws !! it = Some w -> path w' = path w -> map path (<[it := w']> ws) = map path ws.
Proof.
  revert it. induction ws as [|x ws IH]; intros [|it] Hl Hp; cbn in *; [done|done|congruence|].
  f_equal. by apply IH.
Qed.

Lemma In_insert (ws : list Watcher) it w w' x :
  NoDup (map path ws) -> ws !! it = Some w -> path w' = path w -> path x <> path w ->
  In x (<[it := w']> ws) <-> In x ws.
Proof.
  intros Hnd Hl Hp Hx. rewrite <- !list_elem_of_In, !list_elem_of_lookup. split; intros [j Hj].
  - exists j. destruct (decide (it = j)) as [->|Hne]; [|by rewrite list_lookup_insert_ne in Hj].
    rewrite list_lookup_insert_eq in Hj by (by eapply lookup_lt_Some). congruence.
  - exists j. rewrite list_lookup_insert_ne; [done|]. intros ->. congruence.
Qed.

Section WatcherLemmas.
Context {W : Type} `{Kernel W}.

(** What adding a watcher does to the watchers by path. *)
Record added (p : str) (t : Z) (i : Inotify) (r : Z) (i' : Inotify) : Prop := {
  ad_wf : wf_watchers i';
  ad_new : watcher_of i' p = Some (mkWatcher r p t);
  ad_other p' : p' <> p -> watcher_of i' p' = watcher_of i p'
}.

Lemma watcher_of_ext i i' p :
  wf_watchers i -> wf_watchers i' -> (forall w, path w = p -> In w (watchers_ i') <-> In w (watchers_ i)) ->
  watcher_of i' p = watcher_of i p.
Proof.
  intros Hw Hw' Hin. apply option_eq. intros w. rewrite !watcher_of_Some by done. naive_solver.
Qed.

Lemma append_watcher i p t r :
  wf_watchers i -> watcher_of i p = None -> added p t i r (set_watchers i (watchers_ i ++ [mkWatcher r p t])).
Proof.
  intros Hw En. apply watcher_of_None in En as Hno.
  assert (wf_watchers (set_watchers i (watchers_ i ++ [mkWatcher r p t]))) as Hw'.
  { unfold wf_watchers. cbn [set_watchers watchers_]. rewrite map_app. cbn [map path].
    apply NoDup_app. split_and!; [done| |apply NoDup_singleton].
    intros x Hx ->%list_elem_of_singleton. by apply Hno, list_elem_of_In. }
  split; [done|..].
  - apply watcher_of_Some; [done|]. split; [|done]. apply in_or_app. right. by left.
  - intros p' Hp'. apply watcher_of_ext; [done..|]. intros w <-. cbn [set_watchers watchers_].
    rewrite in_app_iff. split; [|auto]. intros [Hin|[<-|[]]]; done.
Qed.

Lemma replace_watcher i p t r w :
  wf_watchers i -> watcher_of i p = Some w ->
  added p t i r (set_watchers i (<[FindWatcher_path i p := mkWatcher r (path w) t]> (watchers_ i))).
Proof.
  intros Hw Ew. destruct (watcher_of_index i p w Ew) as [Hl Hp].
  set (i' := set_watchers i _). assert (wf_watchers i') as Hw'.
  { unfold wf_watchers, i'. cbn [set_watchers watchers_]. by rewrite (paths_insert _ _ w). }
  split; [done|..].
  - apply watcher_of_Some; [done|]. split; [|done]. apply list_elem_of_In, list_elem_of_lookup.
    exists (FindWatcher_path i p). unfold i'. cbn [set_watchers watchers_].
    rewrite list_lookup_insert_eq by (by eapply lookup_lt_Some). by rewrite Hp.
  - intros p' Hp'. apply watcher_of_ext; [done..|]. intros x <-. unfold i'. cbn [set_watchers watchers_].
    apply (In_insert _ _ w); [done|done|done|congruence].
Qed.

Lemma AddWatcher_added k i p flags t :
  wf_watchers i ->
  let '(r, i', _) := AddWatcher k i p flags t in
  (r = -1 /\ i' = i) \/ (0 <= r /\ added p t i r i').
Proof.
  intros Hw. unfold AddWatcher. destruct (inotify_add_watch k p flags) as [r k1].
  destruct (Z.ltb_spec r 0) as [|Hr]; [by left|]. fold (watcher_of i p).
  destruct (watcher_of i p) as [w|] eqn:Ew; [|by right; split; [|apply append_watcher]].
  destruct (Z.eqb_spec (wd w) r) as [Hwd|]; cbn [negb].
  - right. split; [done|]. rewrite Hwd. by apply (replace_watcher i p t r w).
  - destruct (inotify_rm_watch k1 (wd w)) as [r' k2]. right. split; [done|]. by apply (replace_watcher i p t r w).
Qed.

Lemma paths_delete (ws : list Watcher) it : NoDup (map path ws) -> NoDup (map path (delete it ws)).
Proof.
  intros Hnd. eapply sublist_NoDup; [exact Hnd|]. clear Hnd. revert it.
  induction ws as [|w ws IH]; intros [|it]; cbn; [constructor|constructor|by apply sublist_cons|by apply sublist_skip].
Qed.

Lemma In_delete (ws : list Watcher) it w x :
  NoDup (map path ws) -> ws !! it = Some w -> In x (delete it ws) <-> In x ws /\ path x <> path w.
Proof.
  revert it. induction ws as [|y ws IH]; intros [|it] Hnd Hl; cbn [map] in Hnd; try done;
    apply NoDup_cons in Hnd as [Hnin Hnd]; cbn in *.
  - injection Hl as ->. split; [|naive_solver]. intros Hin. split; [by right|]. intros E. apply Hnin, list_elem_of_In.
    rewrite <- E. by apply in_map.
  - rewrite IH by done. split; [|naive_solver]. intros [->|[Hin Hne]]; [|by auto].
    split; [by left|]. intros E. apply Hnin, list_elem_of_In. rewrite E. apply in_map.
    by apply list_elem_of_In, list_elem_of_lookup; exists it.
Qed.

Lemma RemoveWatcher_removed k i it :
  wf_watchers i ->
  let '(_, i', _) := RemoveWatcher k i it in
  wf_watchers i' /\ forall p, watcher_of i' p
    = match watchers_ i !! it with
      | Some w => if bool_decide (p = path w) then None else watcher_of i p
      | None => watcher_of i p
      end.
Proof.
  intros Hw. unfold RemoveWatcher. destruct (watchers_ i !! it) as [w|] eqn:El; [|done].
  destruct (inotify_rm_watch k (wd w)) as [r k1]. set (i' := set_watchers i _).
  assert (wf_watchers i') as Hw' by (by apply paths_delete). split; [done|].
  intros p. apply option_eq. intros x. rewrite watcher_of_Some by done. unfold i'. cbn [set_watchers watchers_].
  rewrite (In_delete _ _ w) by done. case_bool_decide as Ep; [naive_solver|]. rewrite watcher_of_Some by done.
  naive_solver.
Qed.
End WatcherLemmas.

(** ** The theorems *)

(** C24. The events read from the kernel in bulk are returned one per call, in order, none lost and none
    twice.  Of any number of calls to [GetNext], all of them, or those before the first one whose read(2)
    fails, return and stay inside the buffer, and then the events returned followed by those still in
    the buffer are exactly the events that were in the buffer at first followed by those the kernel
    handed over meanwhile.  Each event returned carries the descriptor, mask, cookie and length of the
    kernel's event, and its name when it has one; the watchers are not touched.  A read that succeeds is
    taken to give whole events; what a failed one does to the later calls is [failed_read_unreported]. *)
Theorem GetNext_fifo {W} `{KernelLaws W} (n : nat) (k : W) (i : Inotify) (q : list kevent) :
  holds i q ->
  exists m rs i' k' new ds q', GetNexts m k i = Some (rs, i', k') /\ length rs = m
    /\ (m = n \/ (m < n)%nat /\ read_fails k' i')
    /\ handed k' = handed k ++ new /\ q ++ new = ds ++ q' /\ Forall2 delivered ds (ok_events rs)
    /\ holds i' q' /\ watchers_ i' = watchers_ i.
Proof.
  intros Hh. destruct (GetNexts_queue n k i q Hh) as (m & rs & i' & k' & new & ds & q' & E & Hl & Hm & Hh' & Hw & Hk & Hq & Hd).
  by exists m, rs, i', k', new, ds, q'.
Qed.

(** Every event that was read is returned to the caller within as many calls as there are events before it,
    without asking the kernel again: from a buffer that holds [q], that many calls return the events of
    [q], each of them and in order, and leave the buffer empty. *)
Theorem GetNext_drains {W} `{Kernel W} (k : W) (i : Inotify) (q : list kevent) :
  holds i q ->
  exists rs i', GetNexts (length q) k i = Some (rs, i', k) /\ Forall2 delivered q (ok_events rs)
    /\ length rs = length q /\ holds i' [].
Proof.
  revert i. induction q as [|e q IH]; intros i Hh; cbn [length GetNexts]; [exists [], i; by split_and!|].
  destruct (take_event_holds i e q Hh) as (ev & i1 & E & Hd & Hq & _).
  unfold GetNext. rewrite (pending_first i e q Hh), E. destruct (IH i1 Hq) as (rs & i2 & -> & HF & Hl & He).
  exists (INOTIFY_OK ev :: rs), i2. split_and!; [done|by apply Forall2_cons_2|by cbn; f_equal|done].
Qed.

(** A failed read of the inotify descriptor is not reported.  The result -1 is kept in an unsigned
    [read_data_], so the test for an error fails: the call returns whatever the buffer held before as
    if it were an event, no later call asks the kernel for events again, and within 65 calls one leaves
    the buffer with an exception. *)
Theorem failed_read_unreported {W} `{Kernel W} (k : W) (i : Inotify) :
  length (buffer_ i) = BUFFER_SIZE -> bytes_ok (buffer_ i) -> read_data_ i <= curr_byte_ i ->
  0 < (sys_select k).1 -> (sys_read (sys_select k).2 BUFFER_SIZE).1 = None ->
  exists ev i' k', GetNext k i = Some (INOTIFY_OK ev, i', k') /\ event_at (buffer_ i) 0 = Some ev
    /\ (forall m rs i2 k2, GetNexts m k' i' = Some (rs, i2, k2) -> (m <= 64)%nat).
Proof.
  intros Hlen Hb Hc Hs Hr. unfold GetNext. destruct (Z.ltb_spec (curr_byte_ i) (read_data_ i)); [lia|].
  destruct (sys_select k) as [retval k1]. cbn [fst snd] in *.
  destruct (Z.ltb_spec retval 0); [lia|]. destruct (Z.eqb_spec retval 0); [lia|].
  unfold read_events. destruct (sys_read k1 BUFFER_SIZE) as [data k2]. cbn [fst] in Hr. subst data.
  set (i1 := set_buffer i (buffer_ i) (wrap 64 (-1))).
  assert (exists ev i2, take_event i1 0 = Some (INOTIFY_OK ev, i2) /\ event_at (buffer_ i) 0 = Some ev)
    as (ev & i2 & E & Eev).
  { unfold take_event, event_at. cbn [i1 set_buffer buffer_]. rewrite Hlen. by eexists _, _. }
  change (read_data_ i1 <? 0) with false. cbn match. rewrite E. exists ev, i2, k2. split; [done|]. split; [done|].
  destruct (take_event_advance i1 0 _ _ Hb (Z.le_refl 0) E) as (_ & Hadv & Eb & Er).
  intros m rs i3 k3 Em. destruct m as [|m]; [lia|].
  eapply GetNexts_wedged in Em; [lia| |done]. split; [done|by rewrite Eb|lia].
Qed.

(** The store of watchers is a map from paths: adding a watch for a path leaves exactly one watcher for
    it, with the kernel's descriptor and the given tag, and the watchers of other paths alone; a watch
    the kernel refuses changes nothing; removing a watcher removes that path only. *)
Theorem Watchers_spec {W} `{Kernel W} (k : W) (i : Inotify) (p : str) (flags t : Z) (it : WatcherIterator) :
  wf_watchers i ->
  (let '(r, i', _) := AddWatcher k i p flags t in
   (r = -1 /\ i' = i) \/ (0 <= r /\ added p t i r i'))
  /\ (let '(_, i', _) := RemoveWatcher k i it in
      wf_watchers i' /\ forall p', watcher_of i' p'
        = match watchers_ i !! it with
          | Some w => if bool_decide (p' = path w) then None else watcher_of i p'
          | None => watcher_of i p'
          end).
Proof. intros Hw. split; [by apply AddWatcher_added|by apply RemoveWatcher_removed]. Qed.

(** ** Witnesses *)

Module Witnesses.

Definition created : kevent := mkKevent 1 IN_CREATE 0 (lit "config") 2.
Definition modified : kevent := mkKevent 2 IN_MODIFY 0 [] 0.

(** A kernel that hands over the same two events at the first two reads; then reads fail. *)
#[export] Instance kernel : Kernel (list kevent) := {|
  inotify_add_watch k _ _ := (7, k);
  inotify_rm_watch k _ := (0, k);
  sys_select k := (1, k);
  sys_read k _ := if (length k <? 4)%nat then (Some (flat_map encode [created; modified]), k ++ [created; modified])
                  else (None, k)
|}.

Lemma events_ok : Forall kevent_ok [created; modified].
Proof.
  apply Forall_cons_2; [|apply Forall_cons_2; [|constructor]].
  - split; try (by vm_compute). by apply (bool_decide_unpack _).
  - split; by vm_compute.
Qed.

#[export] Instance kernel_laws : KernelLaws (W := list kevent).
Proof.
  refine {| handed k := k |}; [done|]. intros k bs. cbn [sys_read kernel]. destruct (length k <? 4)%nat; [|done].
  intros [= <-]. exists [created; modified].
  split; [done|]. split; [exact events_ok|]. split; [done|]. split; [|done]. by apply Nat.leb_le.
Defined.

(** Of ten calls, four return the four events; the fifth one's read fails. *)
Lemma GetNext_fifo_witness :
  exists m rs i' k', GetNexts m [] (Inotify_init 5) = Some (rs, i', k') /\ (m <= 10)%nat
    /\ (m = 10%nat \/ read_fails k' i')
    /\ exists ds q', Forall2 delivered ds (ok_events rs) /\ handed k' = ds ++ q'.
Proof.
  destruct (GetNext_fifo 10 [] (Inotify_init 5) [] (holds_init 5))
    as (m & rs & i' & k' & new & ds & q' & E & _ & Hm & Hk & Hq & Hd & _).
  exists m, rs, i', k'. split; [exact E|]. split; [lia|]. split; [tauto|].
  exists ds, q'. split; [exact Hd|]. rewrite Hk. exact Hq.
Defined.

Example four_returned : option_map (fun x => (length (ok_events x.1.1), length x.2)) (GetNexts 4 [] (Inotify_init 5)) = Some (4%nat, 4%nat).
Proof. vm_compute. reflexivity. Qed.

Lemma GetNext_drains_witness :
  exists i rs i' k', GetNexts 2 [] i = Some (rs, i', k') /\ length rs = 2%nat
    /\ Forall2 delivered [created; modified] (ok_events rs) /\ holds i' [].
Proof.
  destruct (read_events_holds ([] : list kevent) (Inotify_init 5) (flat_map encode [created; modified])) as (e & q & i & k & E & Hk & _ & _ & Hh); [reflexivity..|].
  cbn [handed kernel_laws app] in Hk. injection E as <- <-. cbn in Hk. injection Hk as <- <-.
  destruct (GetNext_drains [] _ [created; modified] Hh) as (rs & i' & E & HF & Hl & He).
  eexists _, rs, i', _. split; [exact E|]. split; [exact Hl|]. split; [exact HF|exact He].
Defined.

(** A kernel whose reads fail. *)
Definition broken_kernel : Kernel unit := {|
  inotify_add_watch k _ _ := (-1, k);
  inotify_rm_watch k _ := (-1, k);
  sys_select k := (1, k);
  sys_read k _ := (None, k)
|}.

Lemma failed_read_unreported_witness :
  exists ev i' k', @GetNext unit broken_kernel tt (Inotify_init 5) = Some (INOTIFY_OK ev, i', k')
    /\ @GetNexts unit broken_kernel 65 k' i' = None.
Proof.
  destruct (@failed_read_unreported unit broken_kernel tt (Inotify_init 5)) as (ev & i' & k' & E & _ & Hn).
  - reflexivity.
  - apply Forall_forall. intros x Hx. apply list_elem_of_In, repeat_spec in Hx. lia.
  - cbn. lia.
  - cbn. lia.
  - reflexivity.
  - exists ev, i', k'. split; [exact E|]. destruct (@GetNexts unit broken_kernel 65 k' i') as [[[rs i2] k2]|] eqn:E2.
    + apply Hn in E2. lia.
    + reflexivity.
Defined.

Lemma Watchers_witness :
  watcher_of (AddWatcher [] (Inotify_init 5) (lit "/etc") DIRECTORY_FLAGS 1).1.2 (lit "/etc")
  = Some (mkWatcher 7 (lit "/etc") 1).
Proof.
  destruct (Watchers_spec [] (Inotify_init 5) (lit "/etc") DIRECTORY_FLAGS 1 0%nat (NoDup_nil_2 (A := str)))
    as [[[E _]|[_ Ha]] _]; [discriminate E|apply Ha].
Defined.

Example mask_text : MaskToString (Z.lor IN_CREATE IN_ISDIR) = lit "create | isdir".
Proof. reflexivity. Qed.
End Witnesses.
