(* ===== verification/ConfigLoader.v ===== *)
(** * The configuration loader

    [ConfigLoader] of [collector/lib/ConfigLoader.h] and [ConfigLoader.cpp], with the
    runtime configuration [CollectorConfig] keeps: the file is parsed over the defaults
    and reloaded as inotify reports changes of the file, of its directory and of the file
    a symbolic link leads to.  The file system is a parameter on the state of the kernel,
    which may change with every call; [None] is an exception that leaves the thread. *)

From S2P Require Import Prelude Containers Utility ConfigParser Inotify.

(** ** Paths *)

Definition is_slash (c : ascii) : bool := bool_decide (c = "/"%char).

(** The characters after the last slash. *)
Fixpoint filename_loop (s acc : str) : str :=
  match s with
  | [] => acc
  | c :: s => filename_loop s (if is_slash c then [] else acc ++ [c])
  end.

Definition filename (s : str) : str := filename_loop s [].

Fixpoint drop_slashes (s : str) : str :=
  match s with
  | c :: s' => if is_slash c then drop_slashes s' else s
  | [] => []
  end.

(** What comes before the file name, without the slashes in between unless it is the root. *)
Definition parent_path (s : str) : str :=
  let dir := take (length s - length (filename s)) s in
  match dir, drop_slashes (rev dir) with
  | [], _ => []
  | _, [] => lit "/"
  | _, r => rev r
  end.

(** ** The runtime configuration of [CollectorConfig] *)

Definition kMaxConnectionsPerMinute : Z := 2048.

Definition networking : str := lit "networking".
Definition max_connections_per_minute : str := lit "max_connections_per_minute".

(** The getters of generated messages: a field that is not set has its default. *)
Definition get_message (m : message) (name : str) : message :=
  match Lookup m name with Some (FMessage sub) => sub | _ => [] end.

Definition get_int64 (m : message) (name : str) : Z :=
  match Lookup m name with Some (FScalar (VInt64 x)) => x | _ => 0 end.

Definition MaxConnectionsPerMinute (runtime_config : option message) (max_connections_per_minute_ : Z) : Z :=
  match runtime_config with
  | Some m => get_int64 (get_message m networking) max_connections_per_minute
  | None => max_connections_per_minute_
  end.

Definition set_max_connections (m : message) (x : Z) : message :=
  insert_or_assign m networking
    (FMessage (insert_or_assign (get_message m networking) max_connections_per_minute (FScalar (VInt64 x)))).

Definition RuntimeConfigHeuristics (runtime_config : option message) : option message :=
  match runtime_config with
  | Some m =>
      if get_int64 (get_message m networking) max_connections_per_minute =? 0
      then Some (set_max_connections m kMaxConnectionsPerMinute)
      else Some m
  | None => None
  end.

Definition SetRuntimeConfig (runtime_config : message) : option message := Some runtime_config.

Definition ResetRuntimeConfig : option message := None.

(** ** The loader *)

Definition LOADER_PARENT_PATH : Z := 1.
Definition LOADER_CONFIG_FILE : Z := 2.
Definition LOADER_CONFIG_REALPATH : Z := 3.

Inductive Result : Set := SUCCESS | PARSE_ERROR | FILE_NOT_FOUND.

(** [runtime_config_] of the configuration, [inotify_] and [parser_]. *)
Record ConfigLoader := mkConfigLoader { config_ : option message; inotify_ : Inotify; parser_ : ParserYaml }.

Definition set_config (c : ConfigLoader) (config : option message) : ConfigLoader :=
  mkConfigLoader config (inotify_ c) (parser_ c).

Definition set_inotify (c : ConfigLoader) (i : Inotify) : ConfigLoader :=
  mkConfigLoader (config_ c) i (parser_ c).

(** What [YAML::LoadFile] does. *)
Inductive LoadResult : Type :=
| Loaded (n : node)
| BadFile (what : str)
| ParserException (what : str)
| OtherException.

(** [std::filesystem] and [YAML::LoadFile] on the state of the system; [None]: it throws. *)
Class FileSystem (W : Type) := {
  fs_exists : W -> str -> option bool * W;
  fs_is_symlink : W -> str -> option bool * W;
  fs_canonical : W -> str -> option str * W;
  LoadFile : W -> str -> LoadResult * W
}.

Section Loader.
Context {W : Type} `{Kernel W} `{FileSystem W} `{Yaml}.

(** The descriptor of [sensor::CollectorConfig]. *)
Context (config_fields : list field).

(** [ParserYaml::Parse] of the file. *)
Definition ParseFile (k : W) (p : ParserYaml) (msg : message) : option (message * ParserResult) * W :=
  let '(loaded, k) := LoadFile k (file_ p) in
  (match loaded with
   | Loaded n => Parse p config_fields msg n
   | BadFile e | ParserException e => Some (msg, [file_error p (lit ": " ++ e)])
   | OtherException => None
   end, k).

Definition NewRuntimeConfig : message := set_max_connections [] kMaxConnectionsPerMinute.

Definition LoadConfiguration (k : W) (c : ConfigLoader) (n : option node) : option (Result * ConfigLoader * W) :=
  let '(parsed, k) :=
    match n with
    | None =>
        let '(ex, k) := fs_exists k (file_ (parser_ c)) in
        match ex with
        | None => (None, k)
        | Some false => (Some None, k)
        | Some true =>
            let '(r, k) := ParseFile k (parser_ c) NewRuntimeConfig in
            (match r with Some r => Some (Some r) | None => None end, k)
        end
    | Some n => (match Parse (parser_ c) config_fields NewRuntimeConfig n with Some r => Some (Some r) | None => None end, k)
    end in
  match parsed with
  | None => None
  | Some None => Some (FILE_NOT_FOUND, c, k)
  | Some (Some (runtime_config, [])) => Some (SUCCESS, set_config c (SetRuntimeConfig runtime_config), k)
  | Some (Some (_, _ :: _)) => Some (PARSE_ERROR, c, k)
  end.

Definition add_file_watcher (k : W) (c : ConfigLoader) (p : str) (tag : Z) : ConfigLoader * W :=
  let '(_, i, k) := AddFileWatcher k (inotify_ c) p tag in (set_inotify c i, k).

(** [if (stdf::is_symlink(p)) AddFileWatcher(stdf::canonical(p), LOADER_CONFIG_REALPATH)];
    the result says whether [p] is a symbolic link. *)
Definition watch_realpath (k : W) (c : ConfigLoader) (p : str) : option (bool * ConfigLoader * W) :=
  let '(link, k) := fs_is_symlink k p in
  match link with
  | None => None
  | Some false => Some (false, c, k)
  | Some true =>
      let '(target, k) := fs_canonical k p in
      match target with
      | None => None
      | Some target =>
          let '(c, k) := add_file_watcher k c target LOADER_CONFIG_REALPATH in
          Some (true, c, k)
      end
  end.

Definition has (mask bits : Z) : bool := negb (Z.land mask bits =? 0).

(** The removal of a watcher together with the configuration. *)
Definition remove_and_reset (k : W) (c : ConfigLoader) (it : WatcherIterator) : ConfigLoader * W :=
  let '(_, i, k) := RemoveWatcher k (inotify_ c) it in
  (set_config (set_inotify c i) ResetRuntimeConfig, k).

Definition HandleConfigDirectoryEvent (k : W) (c : ConfigLoader) (event : inotify_event)
  : option (bool * ConfigLoader * W) :=
  let file := file_ (parser_ c) in
  if has (ev_mask event) (Z.lor IN_MOVE_SELF IN_DELETE_SELF) then Some (false, c, k)
  else if negb (bool_decide (filename file = ev_name event)) then Some (true, c, k)
  else if has (ev_mask event) (Z.lor IN_CREATE IN_MOVED_TO) then
    let '(c, k) := add_file_watcher k c file LOADER_CONFIG_FILE in
    match LoadConfiguration k c None with
    | None => None
    | Some (_, c, k) =>
        match watch_realpath k c file with
        | None => None
        | Some (_, c, k) => Some (true, c, k)
        end
    end
  else if has (ev_mask event) (Z.lor IN_DELETE IN_MOVED_FROM) then
    let '(c, k) := remove_and_reset k c (FindWatcher_path (inotify_ c) file) in
    Some (true, c, k)
  else Some (true, c, k).

(** [w] is the watcher at the iterator [it]. *)
Definition HandleConfigFileEvent (k : W) (c : ConfigLoader) (event : inotify_event) (it : WatcherIterator)
    (w : Watcher) : option (ConfigLoader * W) :=
  if has (ev_mask event) IN_MODIFY then
    match watch_realpath k c (path w) with
    | None => None
    | Some (_, c, k) =>
        match LoadConfiguration k c None with
        | None => None
        | Some (_, c, k) => Some (c, k)
        end
    end
  else if has (ev_mask event) (Z.lor IN_MOVE_SELF IN_DELETE_SELF) then
    let '(ex, k) := fs_exists k (path w) in
    match ex with
    | None => None
    | Some true =>
        let '(c, k) := add_file_watcher k c (path w) LOADER_CONFIG_FILE in
        match watch_realpath k c (path w) with
        | None => None
        | Some (_, c, k) =>
            match LoadConfiguration k c None with
            | None => None
            | Some (_, c, k) => Some (c, k)
            end
        end
    | Some false => Some (remove_and_reset k c it)
    end
  else Some (c, k).

Definition HandleConfigRealpathEvent (k : W) (c : ConfigLoader) (event : inotify_event) (it : WatcherIterator)
  : option (ConfigLoader * W) :=
  if has (ev_mask event) IN_MODIFY then
    match LoadConfiguration k c None with
    | None => None
    | Some (_, c, k) => Some (c, k)
    end
  else if has (ev_mask event) (Z.lor IN_DELETE_SELF IN_MOVE_SELF) then
    match watch_realpath k c (file_ (parser_ c)) with
    | None => None
    | Some (true, c, k) =>
        match LoadConfiguration k c None with
        | None => None
        | Some (_, c, k) => Some (c, k)
        end
    | Some (false, c, k) => Some (remove_and_reset k c it)
    end
  else Some (c, k).

Definition HandleEvent (k : W) (c : ConfigLoader) (event : inotify_event) : option (bool * ConfigLoader * W) :=
  let it := FindWatcher_wd (inotify_ c) (ev_wd event) in
  match watchers_ (inotify_ c) !! it with
  | None => Some (true, c, k)
  | Some w =>
      if tag w =? LOADER_PARENT_PATH then HandleConfigDirectoryEvent k c event
      else
        match (if tag w =? LOADER_CONFIG_FILE then HandleConfigFileEvent k c event it w
               else if tag w =? LOADER_CONFIG_REALPATH then HandleConfigRealpathEvent k c event it
               else Some (c, k)) with
        | None => None
        | Some (c, k) => Some (true, c, k)
        end
  end.

(** The loop of [WatchFile], for [n] rounds before the thread is asked to stop. *)
Fixpoint watch_loop (n : nat) (k : W) (c : ConfigLoader) : option (ConfigLoader * W) :=
  match n with
  | O => Some (c, k)
  | S n =>
      match GetNext k (inotify_ c) with
      | None => None
      | Some (res, i, k) =>
          let c := set_inotify c i in
          match res with
          | INOTIFY_OK event =>
              match HandleEvent k c event with
              | None => None
              | Some (false, c, k) => Some (c, k)
              | Some (true, c, k) => watch_loop n k c
              end
          | INOTIFY_ERROR | INOTIFY_TIMEOUT => watch_loop n k c
          end
      end
  end.

Definition WatchFile (n : nat) (k : W) (c : ConfigLoader) : option (ConfigLoader * W) :=
  let file := file_ (parser_ c) in
  if negb (IsValid (inotify_ c)) then Some (c, k)
  else
    let '(wd, i, k) := AddDirectoryWatcher k (inotify_ c) (parent_path file) LOADER_PARENT_PATH in
    let c := set_inotify c i in
    if wd <? 0 then Some (c, k)
    else
      let '(ex, k) := fs_exists k file in
      match ex with
      | None => None
      | Some true =>
          let '(c, k) := add_file_watcher k c file LOADER_CONFIG_FILE in
          match watch_realpath k c file with
          | None => None
          | Some (_, c, k) =>
              match LoadConfiguration k c None with
              | None => None
              | Some (_, c, k) => watch_loop n k c
              end
          end
      | Some false => watch_loop n k c
      end.
End Loader.

(** [ConfigLoader(config)], with the value of the environment variable. *)
Definition ConfigLoader_make (config : option message) (config_path : option str) (inotify_fd : Z) : ConfigLoader :=
  mkConfigLoader config (Inotify_init inotify_fd)
    (ParserYaml_make (match config_path with Some p => p | None => lit "/etc/stackrox/runtime_config.yaml" end)).

(** ** The loader's invariant *)

(** The descriptor has the field the defaults set. *)
Record config_descriptor (fs : list field) : Prop := {
  cd_wf : wf_fields fs;
  cd_networking : exists nf, In (mkField networking LABEL_SINGULAR (TYPE_MESSAGE nf)) fs
    /\ In (mkField max_connections_per_minute LABEL_SINGULAR TYPE_INT64) nf
}.

(** The document is one the parser accepts. *)
Definition acceptable `{Yaml} (p : ParserYaml) (fs : list field) (n : node) : Prop :=
  document n = true /\ forall f, In f fs -> conforms p n f.

(** The message is the defaults with the values of the document. *)
Definition loaded_from `{Yaml} (p : ParserYaml) (fs : list field) (n : node) (m : message) : Prop :=
  acceptable p fs n /\ typed_msg fs m
  /\ forall f, In f fs -> reads p n f (Lookup NewRuntimeConfig (f_name f)) (Lookup m (f_name f)).

Lemma typed_one (k : str) v fs f : In f fs -> f_name f = k -> typed f v -> typed_msg fs (insert_or_assign [] k v).
Proof.
  intros Hin Hn Ht. split; [apply wf_set, wf_nil|]. intros k' v'. rewrite Lookup_set by apply wf_nil.
  case_bool_decide; [|done]. intros [= <-]. exists f. by subst.
Qed.

Lemma NewRuntimeConfig_typed fs : config_descriptor fs -> typed_msg fs NewRuntimeConfig.
Proof.
  intros [_ (nf & Hn & Hm)]. eapply typed_one; [exact Hn|done|].
  destruct (typed_one max_connections_per_minute (FScalar (VInt64 kMaxConnectionsPerMinute)) nf _ Hm eq_refl) as [? ?];
    by constructor.
Qed.

Section LoaderLemmas.
Context {W : Type} `{Kernel W} `{FileSystem W} `{YamlLaws} (fs : list field) (Hfs : config_descriptor fs).

(** The state of a loader whose parser is [p]. *)
Record loader_ok (p : ParserYaml) (c : ConfigLoader) : Prop := {
  lo_parser : parser_ c = p;
  lo_config m : config_ c = Some m -> exists n, loaded_from p fs n m;
  lo_watchers : wf_watchers (inotify_ c);
  lo_file w : In w (watchers_ (inotify_ c)) -> tag w = LOADER_CONFIG_FILE -> path w = file_ p;
  lo_parent w : In w (watchers_ (inotify_ c)) -> tag w = LOADER_PARENT_PATH -> path w = parent_path (file_ p)
}.

Lemma Parse_new p n :
  validation_mode_ p = PERMISSIVE ->
  exists m errs, Parse p fs NewRuntimeConfig n = Some (m, errs)
    /\ (errs = [] <-> acceptable p fs n) /\ (errs = [] -> loaded_from p fs n m).
Proof.
  intros Hp. destruct (Parse_parsed p fs NewRuntimeConfig n) as (m & errs & E & Ht & Ho & Hr & _);
    [apply Hfs|by apply NewRuntimeConfig_typed|done|].
  assert (errs = [] <-> acceptable p fs n) as Ha by (rewrite Ho; unfold acceptable; naive_solver).
  exists m, errs. split; [done|]. split; [done|]. intros He. by split; [apply Ha|split; [|apply Hr]].
Qed.

(** Loading, by the answers of the file system. *)
Lemma LoadConfiguration_answers k c :
  validation_mode_ (parser_ c) = PERMISSIVE ->
  let file := file_ (parser_ c) in
  let '(ex, k1) := fs_exists k file in
  let '(loaded, k2) := LoadFile k1 file in
  match ex, loaded with
  | None, _ | Some true, OtherException => LoadConfiguration fs k c None = None
  | Some false, _ => LoadConfiguration fs k c None = Some (FILE_NOT_FOUND, c, k1)
  | Some true, (BadFile _ | ParserException _) => LoadConfiguration fs k c None = Some (PARSE_ERROR, c, k2)
  | Some true, Loaded n =>
      (~ acceptable (parser_ c) fs n /\ LoadConfiguration fs k c None = Some (PARSE_ERROR, c, k2))
      \/ (exists m, loaded_from (parser_ c) fs n m
                   /\ LoadConfiguration fs k c None = Some (SUCCESS, set_config c (Some m), k2))
  end.
Proof.
  intros Hp. cbv zeta. unfold LoadConfiguration, ParseFile. destruct (fs_exists k _) as [[[]|] k1];
    destruct (LoadFile k1 _) as [[n|e|e|] k2]; try done.
  destruct (Parse_new (parser_ c) n Hp) as (m & errs & -> & Ha & Hl). destruct errs as [|e errs].
  - right. exists m. auto.
  - left. split; [|done]. by intros Hacc%Ha.
Qed.

Lemma LoadConfiguration_ok p k c r c' k' :
  validation_mode_ p = PERMISSIVE -> loader_ok p c -> LoadConfiguration fs k c None = Some (r, c', k') -> loader_ok p c'.
Proof.
  intros Hp Hok E. pose proof (LoadConfiguration_answers k c) as Ha. rewrite (lo_parser _ _ Hok) in Ha.
  specialize (Ha Hp). cbv zeta in Ha. destruct (fs_exists k _) as [ex k1], (LoadFile k1 _) as [loaded k2].
  destruct ex as [[]|]; [destruct loaded as [n|e|e|]|..]; try congruence.
  destruct Ha as [[_ E']|(m & Hm & E')]; rewrite E in E'; injection E' as -> -> ->; [done|].
  destruct Hok as [? ? ? ? ?]. split; try done. cbn [set_config config_]. intros m' [= <-]. by exists n.
Qed.

(** A watcher that is added or changed. *)
Lemma watchers_ok p c i :
  loader_ok p c -> wf_watchers i ->
  (forall w, In w (watchers_ i) -> In w (watchers_ (inotify_ c))
     \/ ((tag w = LOADER_CONFIG_FILE -> path w = file_ p) /\ (tag w = LOADER_PARENT_PATH -> path w = parent_path (file_ p)))) ->
  loader_ok p (set_inotify c i).
Proof.
  intros [? ? ? Hf Hp] Hw Hin. split; try done; cbn [set_inotify inotify_]; intros w Hwin; destruct (Hin w Hwin) as [?|[? ?]]; auto.
Qed.

Lemma add_watcher_ok p c k q flags t r i k' :
  loader_ok p c -> AddWatcher k (inotify_ c) q flags t = (r, i, k') ->
  (t = LOADER_CONFIG_FILE -> q = file_ p) -> (t = LOADER_PARENT_PATH -> q = parent_path (file_ p)) ->
  loader_ok p (set_inotify c i).
Proof.
  intros Hok E Hf Hp. pose proof (AddWatcher_added k (inotify_ c) q flags t (lo_watchers _ _ Hok)) as Ha.
  rewrite E in Ha. destruct Ha as [[_ ->]|[_ Had]]; [by destruct Hok|].
  apply watchers_ok; [done|apply Had|]. intros w Hin.
  destruct (decide (path w = q)) as [Hq|Hq].
  - right. assert (watcher_of i q = Some w) as Ew by (by apply watcher_of_Some; [apply Had|]).
    rewrite (ad_new _ _ _ _ _ Had) in Ew. injection Ew as <-. auto.
  - left. assert (watcher_of i (path w) = Some w) as Ew by (by apply watcher_of_Some; [apply Had|]).
    rewrite (ad_other _ _ _ _ _ Had) in Ew by done. by apply watcher_of_Some in Ew as [? _]; [|apply Hok].
Qed.

Lemma add_file_watcher_ok p c k q t c' k' :
  loader_ok p c -> add_file_watcher k c q t = (c', k') -> (t = LOADER_CONFIG_FILE -> q = file_ p) ->
  t <> LOADER_PARENT_PATH -> loader_ok p c'.
Proof.
  intros Hok E Hf Hp. unfold add_file_watcher, AddFileWatcher in E.
  destruct (AddWatcher k (inotify_ c) q FILE_FLAGS t) as [[r i] k1] eqn:Ea. injection E as <- <-.
  by eapply add_watcher_ok.
Qed.

Lemma watch_realpath_ok p c k q b c' k' :
  loader_ok p c -> watch_realpath k c q = Some (b, c', k') -> loader_ok p c'.
Proof.
  intros Hok. unfold watch_realpath. destruct (fs_is_symlink k q) as [[[]|] k1]; [|by intros [= <- <- <-]|done].
  destruct (fs_canonical k1 q) as [[target|] k2]; [|done].
  destruct (add_file_watcher k2 c target LOADER_CONFIG_REALPATH) as [c2 k3] eqn:Ea. intros [= <- <- <-].
  by eapply add_file_watcher_ok.
Qed.

Lemma remove_and_reset_ok p c k it c' k' :
  loader_ok p c -> remove_and_reset k c it = (c', k') -> loader_ok p c' /\ config_ c' = None.
Proof.
  intros Hok. unfold remove_and_reset, RemoveWatcher.
  pose proof (paths_delete (watchers_ (inotify_ c)) it (lo_watchers _ _ Hok)) as Hd.
  destruct (watchers_ (inotify_ c) !! it) as [w|] eqn:El.
  - destruct (inotify_rm_watch k (wd w)) as [r k1]. intros [= <- <-]. split; [|done].
    assert (forall x, In x (delete it (watchers_ (inotify_ c))) -> In x (watchers_ (inotify_ c))) as Hin.
    { intros x. rewrite (In_delete _ _ w); [by intros [? _]|apply Hok|done]. }
    destruct Hok as [? ? ? Hf Hpp]. split; try done; cbn; auto.
  - intros [= <- <-]. split; [|done]. by destruct Hok.
Qed.

(** The handlers take one call after the other. *)
Ltac calls :=
  repeat match goal with
  | H : (let '(_, _) := ?x in _) = _ |- _ => let E := fresh "E" in destruct x as [? ?] eqn:E
  | H : match ?x with _ => _ end = Some _ |- _ => let E := fresh "E" in destruct x eqn:E; try discriminate H
  | H : (if ?x then _ else _) = Some _ |- _ => let E := fresh "E" in destruct x eqn:E; try discriminate H
  end; simplify_eq.

Context (p : ParserYaml) (Hp : validation_mode_ p = PERMISSIVE).

Lemma load_ok k c r c' k' : loader_ok p c -> LoadConfiguration fs k c None = Some (r, c', k') -> loader_ok p c'.
Proof. by apply LoadConfiguration_ok. Qed.

Lemma add_config_ok k c c' k' :
  loader_ok p c -> add_file_watcher k c (file_ p) LOADER_CONFIG_FILE = (c', k') -> loader_ok p c'.
Proof. intros Hok E. by eapply add_file_watcher_ok. Qed.

Lemma remove_ok k c it c' k' : loader_ok p c -> remove_and_reset k c it = (c', k') -> loader_ok p c'.
Proof. intros Hok E. by eapply remove_and_reset_ok. Qed.

#[local] Hint Resolve load_ok add_config_ok remove_ok watch_realpath_ok : collector.

Lemma HandleConfigDirectoryEvent_ok k c ev b c' k' :
  loader_ok p c -> HandleConfigDirectoryEvent fs k c ev = Some (b, c', k') -> loader_ok p c'.
Proof.
  intros Hok E. unfold HandleConfigDirectoryEvent in E. rewrite (lo_parser _ _ Hok) in E.
  calls; eauto 6 with collector.
Qed.

Lemma HandleConfigFileEvent_ok k c ev it w c' k' :
  loader_ok p c -> path w = file_ p -> HandleConfigFileEvent fs k c ev it w = Some (c', k') -> loader_ok p c'.
Proof.
  intros Hok Hw E. unfold HandleConfigFileEvent in E. rewrite Hw in E. calls; eauto 6 with collector.
Qed.

Lemma HandleConfigRealpathEvent_ok k c ev it c' k' :
  loader_ok p c -> HandleConfigRealpathEvent fs k c ev it = Some (c', k') -> loader_ok p c'.
Proof. intros Hok E. unfold HandleConfigRealpathEvent in E. calls; eauto 6 with collector. Qed.

Lemma HandleEvent_ok k c ev b c' k' :
  loader_ok p c -> HandleEvent fs k c ev = Some (b, c', k') -> loader_ok p c'.
Proof.
  intros Hok E. unfold HandleEvent in E. destruct (watchers_ (inotify_ c) !! _) as [w|] eqn:Ew; [|by calls].
  assert (In w (watchers_ (inotify_ c))) as Hin by (by apply list_elem_of_In, list_elem_of_lookup; eexists).
  destruct (tag w =? LOADER_PARENT_PATH); [by eapply HandleConfigDirectoryEvent_ok|].
  destruct (Z.eqb_spec (tag w) LOADER_CONFIG_FILE) as [Ht|].
  - calls. eapply HandleConfigFileEvent_ok; [done| |done]. by apply (lo_file _ _ Hok).
  - calls; [by eapply HandleConfigRealpathEvent_ok|done].
Qed.

Lemma take_event_watchers i n r i' : take_event i n = Some (r, i') -> watchers_ i' = watchers_ i.
Proof. intros E. unfold take_event in E. by calls. Qed.

Lemma read_events_watchers (k : W) i : watchers_ (read_events k i).1 = watchers_ i.
Proof. unfold read_events. by destruct (sys_read k BUFFER_SIZE) as [[]]. Qed.

Lemma GetNext_watchers k i r i' k' : GetNext k i = Some (r, i', k') -> watchers_ i' = watchers_ i.
Proof.
  intros E. unfold GetNext in E. destruct (_ <? _); [|destruct (sys_select k) as [n k1]].
  - calls. by eapply take_event_watchers.
  - pose proof (read_events_watchers k1 i) as Hr. destruct (read_events k1 i) as [i1 k2]. cbn [fst] in Hr.
    calls; try done. by rewrite <- Hr; eapply take_event_watchers.
Qed.

Lemma loader_ok_next c i : loader_ok p c -> watchers_ i = watchers_ (inotify_ c) -> loader_ok p (set_inotify c i).
Proof.
  intros Hok Hw. apply watchers_ok; [done| |by rewrite Hw; auto]. unfold wf_watchers. rewrite Hw. apply Hok.
Qed.

Lemma watch_loop_ok n : forall k c c' k', loader_ok p c -> watch_loop fs n k c = Some (c', k') -> loader_ok p c'.
Proof.
  induction n as [|n IH]; intros k c c' k' Hok E; cbn [watch_loop] in E; [by calls|].
  destruct (GetNext k (inotify_ c)) as [[[r i] k1]|] eqn:En; [|done].
  pose proof (loader_ok_next c i Hok (GetNext_watchers _ _ _ _ _ En)) as Hok1.
  destruct r as [ev| |]; [|by eauto..]. destruct (HandleEvent fs k1 (set_inotify c i) ev) as [[[[] c1] k2]|] eqn:Eh; [..|done].
  - eapply IH; [|done]. by eapply HandleEvent_ok.
  - calls. by eapply HandleEvent_ok.
Qed.

Lemma WatchFile_ok n k c c' k' : loader_ok p c -> WatchFile fs n k c = Some (c', k') -> loader_ok p c'.
Proof.
  intros Hok E. unfold WatchFile, AddDirectoryWatcher in E. destruct (negb _); [by calls|].
  rewrite (lo_parser _ _ Hok) in E. destruct (AddWatcher _ _ _ _ _) as [[r i] k1] eqn:Ea.
  assert (loader_ok p (set_inotify c i)) as Hok1 by (by eapply add_watcher_ok). calls; [done|..].
  all: eapply watch_loop_ok; [|done]; eauto 6 with collector.
Qed.

(** A file system in which the file exists and holds the document. *)
Record holds_document (n : node) : Prop := {
  hd_exists (k : W) : (fs_exists k (file_ p)).1 = Some true;
  hd_load (k : W) : (LoadFile k (file_ p)).1 = Loaded n;
  hd_symlink (k : W) : is_Some (fs_is_symlink k (file_ p)).1;
  hd_canonical (k : W) : is_Some (fs_canonical k (file_ p)).1
}.

Lemma load_document n k c :
  holds_document n -> acceptable p fs n -> loader_ok p c ->
  exists c' k' m, LoadConfiguration fs k c None = Some (SUCCESS, c', k') /\ loader_ok p c'
    /\ config_ c' = Some m /\ loaded_from p fs n m.
Proof.
  intros Hd Ha Hok. pose proof (LoadConfiguration_answers k c) as Hl. rewrite (lo_parser _ _ Hok) in Hl.
  specialize (Hl Hp). cbv zeta in Hl. pose proof (hd_exists _ Hd k) as Hx. destruct (fs_exists k _) as [ex k1].
  cbn [fst] in Hx. subst ex. pose proof (hd_load _ Hd k1) as Hy. destruct (LoadFile k1 _) as [loaded k2].
  cbn [fst] in Hy. subst loaded. destruct Hl as [[Hna _]|(m & Hm & E)]; [done|].
  eexists _, k2, m. split; [exact E|]. split; [by eapply load_ok|done].
Qed.

Lemma watch_document n k c :
  holds_document n -> loader_ok p c ->
  exists b c' k', watch_realpath k c (file_ p) = Some (b, c', k') /\ loader_ok p c' /\ config_ c' = config_ c.
Proof.
  intros Hd Hok. assert (exists b c' k', watch_realpath k c (file_ p) = Some (b, c', k') /\ config_ c' = config_ c)
    as (b & c' & k' & E & Hc).
  { unfold watch_realpath. destruct (hd_symlink _ Hd k) as [b Hb]. destruct (fs_is_symlink k _) as [link k1].
    cbn [fst] in Hb. subst link. destruct b; [|by eauto]. destruct (hd_canonical _ Hd k1) as [t Ht].
    destruct (fs_canonical k1 _) as [target k2]. cbn [fst] in Ht. subst target. unfold add_file_watcher.
    destruct (AddFileWatcher k2 (inotify_ c) t LOADER_CONFIG_REALPATH) as [[r i] k3]. by eexists _, _, _. }
  exists b, c', k'. split; [done|]. split; [by eapply watch_realpath_ok|done].
Qed.

(** The event tells of a new content of the file. *)
Definition announces (w : Watcher) (ev : inotify_event) : Prop :=
  (tag w = LOADER_CONFIG_FILE /\ has (ev_mask ev) (Z.lor (Z.lor IN_MODIFY IN_MOVE_SELF) IN_DELETE_SELF) = true)
  \/ (tag w = LOADER_CONFIG_REALPATH /\ has (ev_mask ev) IN_MODIFY = true)
  \/ (tag w = LOADER_PARENT_PATH /\ has (ev_mask ev) (Z.lor IN_MOVE_SELF IN_DELETE_SELF) = false
      /\ ev_name ev = filename (file_ p) /\ has (ev_mask ev) IN_CREATE = true).

Lemma has_lor mask a b : has mask (Z.lor a b) = has mask a || has mask b.
Proof.
  unfold has. rewrite Z.land_lor_distr_r. destruct (Z.eqb_spec (Z.lor (Z.land mask a) (Z.land mask b)) 0) as [E|E].
  - apply Z.lor_eq_0_iff in E as [-> ->]. done.
  - destruct (Z.eqb_spec (Z.land mask a) 0) as [Ea|]; [|done]. destruct (Z.eqb_spec (Z.land mask b) 0) as [Eb|]; [|done].
    by rewrite Ea, Eb in E.
Qed.

(** The handlers end with the document loaded. *)
Lemma reload_document n k c ev w :
  holds_document n -> acceptable p fs n -> loader_ok p c ->
  watchers_ (inotify_ c) !! FindWatcher_wd (inotify_ c) (ev_wd ev) = Some w -> announces w ev ->
  exists c' k' m, HandleEvent fs k c ev = Some (true, c', k') /\ config_ c' = Some m /\ loaded_from p fs n m.
Proof.
  intros Hd Ha Hok Ew Han. unfold HandleEvent. rewrite Ew. set (it := FindWatcher_wd _ _).
  assert (In w (watchers_ (inotify_ c))) as Hin by (by apply list_elem_of_In, list_elem_of_lookup; eexists).
  destruct Han as [[Ht Hm]|[[Ht Hm]|(Ht & Hself & Hname & Hm)]]; rewrite Ht; cbn -[HandleConfigFileEvent].
  - unfold HandleConfigFileEvent. rewrite (lo_file _ _ Hok w Hin Ht). rewrite !has_lor in *.
    destruct (has (ev_mask ev) IN_MODIFY); [|cbn [orb] in Hm; rewrite Hm].
    + destruct (watch_document n k c Hd Hok) as (b & c1 & k1 & -> & Hok1 & _).
      destruct (load_document n k1 c1 Hd Ha Hok1) as (c2 & k2 & m & -> & _ & ? & ?). by eexists _, _, m.
    + pose proof (hd_exists _ Hd k) as Hx. destruct (fs_exists k _) as [ex k1]. cbn [fst] in Hx. subst ex.
      destruct (add_file_watcher k1 c (file_ p) LOADER_CONFIG_FILE) as [c1 k2] eqn:Ea.
      destruct (watch_document n k2 c1 Hd (add_config_ok _ _ _ _ Hok Ea)) as (b & c2 & k3 & -> & Hok2 & _).
      destruct (load_document n k3 c2 Hd Ha Hok2) as (c3 & k4 & m & -> & _ & ? & ?). by eexists _, _, m.
  - unfold HandleConfigRealpathEvent. rewrite Hm.
    destruct (load_document n k c Hd Ha Hok) as (c2 & k2 & m & -> & _ & ? & ?). by eexists _, _, m.
  - unfold HandleConfigDirectoryEvent. rewrite (lo_parser _ _ Hok), Hself, Hname, bool_decide_true by done. cbn [negb].
    rewrite has_lor, Hm. cbn [orb]. destruct (add_file_watcher k c (file_ p) LOADER_CONFIG_FILE) as [c1 k1] eqn:Ea.
    destruct (load_document n k1 c1 Hd Ha (add_config_ok _ _ _ _ Hok Ea)) as (c2 & k2 & m & -> & Hok2 & Hc2 & ?).
    destruct (watch_document n k2 c2 Hd Hok2) as (b & c3 & k3 & -> & _ & Hc3). eexists _, _, m. by rewrite Hc3.
Qed.
End LoaderLemmas.

(** The limit on connections a document sets. *)
Lemma loaded_limit `{Yaml} p fs n m d nf :
  loaded_from p fs n m ->
  let net := mkField networking LABEL_SINGULAR (TYPE_MESSAGE nf) in
  let max := mkField max_connections_per_minute LABEL_SINGULAR TYPE_INT64 in
  In net fs -> In max nf ->
  MaxConnectionsPerMinute (Some m) d
  = match subscript n (yaml_name p net) with
    | Map kvs =>
        match subscript (Map kvs) (yaml_name p max) with
        | Scalar s => match as_int64 (Scalar s) with Some x => x | None => kMaxConnectionsPerMinute end
        | _ => kMaxConnectionsPerMinute
        end
    | _ => kMaxConnectionsPerMinute
    end.
Proof.
  intros (_ & _ & Hr) net max Hn Hm. specialize (Hr net Hn). subst net max. unfold MaxConnectionsPerMinute, get_message.
  cbn [f_name] in Hr. revert Hr.
  generalize (Lookup m networking) as v'. replace (Lookup NewRuntimeConfig networking)
    with (Some (FMessage [(max_connections_per_minute, FScalar (VInt64 kMaxConnectionsPerMinute))])) by done.
  intros v'. inversion 1 as [? v E|? ? ? ? ? E|? ? v E|? ? kvs v m0 m' E Em Hall Hk|? ? s x v E Ev]; subst; try rewrite E; try done.
  specialize (Hall _ Hm). cbn [f_name] in Hall. unfold get_int64. revert Hall.
  generalize (Lookup m' max_connections_per_minute) as w'.
  replace (Lookup _ max_connections_per_minute) with (Some (FScalar (VInt64 kMaxConnectionsPerMinute))) by done.
  intros w'. inversion 1 as [? v E'| | | |? ? s x v E' Ev]; subst; rewrite E'; [done|].
  cbn [scalar_value] in Ev. by apply fmap_Some in Ev as (y & -> & ->).
Qed.

(** ** The theorems *)

(** C25. Loading the configuration: a file that does not exist, cannot be read, is not YAML or does not fit
    the descriptor is reported and leaves the runtime configuration as it was; otherwise the runtime
    configuration becomes the defaults with the document's values (well typed, as the parser
    guarantees), in one step.  In particular the limit on connections per minute is the document's
    when it has one and 2048 otherwise. *)
Theorem LoadConfiguration_spec {W} `{Kernel W} `{FileSystem W} `{YamlLaws} (fs nf : list field) (k : W) (c : ConfigLoader) (d : Z) :
  let net := mkField networking LABEL_SINGULAR (TYPE_MESSAGE nf) in
  let max := mkField max_connections_per_minute LABEL_SINGULAR TYPE_INT64 in
  config_descriptor fs -> In net fs -> In max nf -> validation_mode_ (parser_ c) = PERMISSIVE ->
  let p := parser_ c in
  let '(ex, k1) := fs_exists k (file_ p) in
  let '(loaded, k2) := LoadFile k1 (file_ p) in
  match ex, loaded with
  | None, _ | Some true, OtherException => LoadConfiguration fs k c None = None
  | Some false, _ => LoadConfiguration fs k c None = Some (FILE_NOT_FOUND, c, k1)
  | Some true, (BadFile _ | ParserException _) => LoadConfiguration fs k c None = Some (PARSE_ERROR, c, k2)
  | Some true, Loaded n =>
      (~ acceptable p fs n /\ LoadConfiguration fs k c None = Some (PARSE_ERROR, c, k2))
      \/ (exists m, loaded_from p fs n m
          /\ LoadConfiguration fs k c None = Some (SUCCESS, set_config c (Some m), k2)
          /\ MaxConnectionsPerMinute (Some m) d
             = match subscript n (yaml_name p net) with
               | Map kvs =>
                   match subscript (Map kvs) (yaml_name p max) with
                   | Scalar s => match as_int64 (Scalar s) with Some x => x | None => kMaxConnectionsPerMinute end
                   | _ => kMaxConnectionsPerMinute
                   end
               | _ => kMaxConnectionsPerMinute
               end)
  end.
Proof.
  intros net max Hfs Hn Hm Hp. cbv zeta. pose proof (LoadConfiguration_answers fs Hfs k c Hp) as Ha. cbv zeta in Ha.
  destruct (fs_exists k _) as [[[]|] k1], (LoadFile k1 _) as [[n|e|e|] k2]; try done.
  destruct Ha as [?|(m & Hl & E)]; [by left|right]. exists m. split; [done|]. split; [done|].
  by apply (loaded_limit _ fs).
Qed.

(** C15. Whatever events arrive, in whatever order, and whatever the file system answers, while the watching
    thread runs: the runtime configuration is either absent or the defaults with the values of some
    document the parser accepted, never a partly read one; no path is watched twice; the watcher tagged
    as the configuration file watches that very path, and the one tagged as its directory the directory. *)
Theorem WatchFile_invariant {W} `{Kernel W} `{FileSystem W} `{YamlLaws} (fs : list field) (p : ParserYaml)
    (n : nat) (k k' : W) (c c' : ConfigLoader) :
  config_descriptor fs -> validation_mode_ p = PERMISSIVE -> loader_ok fs p c ->
  WatchFile fs n k c = Some (c', k') -> loader_ok fs p c'.
Proof. intros Hfs Hp Hok E. by eapply WatchFile_ok. Qed.

(** A change of the configuration file takes effect: when an event tells of it (the file was written to,
    replaced or renamed, the file behind the symbolic link was written to, or the file
    was created in its directory), the file exists and holds a document the parser accepts, the
    handler returns, keeps the thread running, and the runtime configuration is the defaults
    with the values of that document. *)
Theorem HandleEvent_reloads {W} `{Kernel W} `{FileSystem W} `{YamlLaws} (fs : list field) (p : ParserYaml)
    (n : node) (k : W) (c : ConfigLoader) (ev : inotify_event) (w : Watcher) :
  config_descriptor fs -> validation_mode_ p = PERMISSIVE -> loader_ok fs p c ->
  holds_document p n -> acceptable p fs n ->
  watchers_ (inotify_ c) !! FindWatcher_wd (inotify_ c) (ev_wd ev) = Some w -> announces p w ev ->
  exists c' k' m, HandleEvent fs k c ev = Some (true, c', k') /\ config_ c' = Some m /\ loaded_from p fs n m.
Proof. intros. by eapply reload_document. Qed.

(** The masks the kernel delivers for a watch: those asked for, and those it always may send. *)
Definition delivers (flags mask : Z) : Prop :=
  Z.land mask (Z.lor flags (Z.lor (Z.lor IN_IGNORED IN_UNMOUNT) (Z.lor IN_Q_OVERFLOW IN_ISDIR))) = mask.

(** The directory is watched without [IN_MOVED_TO] and [IN_MOVED_FROM]: the handler never sees them, and
    a configuration file that is renamed into or out of its directory is not noticed there. *)
Lemma moves_not_delivered mask :
  delivers DIRECTORY_FLAGS mask -> has mask (Z.lor IN_MOVED_TO IN_MOVED_FROM) = false.
Proof.
  intros Hd. unfold has. rewrite <- Hd, <- Z.land_assoc.
  replace (Z.land _ (Z.lor IN_MOVED_TO IN_MOVED_FROM)) with 0 by reflexivity. by rewrite Z.land_0_r.
Qed.

(** ** Witnesses *)

Module LoaderWitnesses.
Import ConfigParser.Witnesses.

Definition config_path : str := lit "/etc/stackrox/runtime_config.yaml".

Example paths :
  filename config_path = lit "runtime_config.yaml" /\ parent_path config_path = lit "/etc/stackrox"
  /\ parent_path (lit "/a") = lit "/" /\ parent_path (lit "a") = [].
Proof. by vm_compute. Qed.

(** A file system with one document; the kernel numbers the watches and hands over events in turn. *)
Record world := mkWorld { next_wd : Z; link : option str; events : list kevent }.

#[export] Instance world_kernel : Kernel world := {|
  inotify_add_watch k _ _ := (next_wd k, mkWorld (next_wd k + 1) (link k) (events k));
  inotify_rm_watch k _ := (0, k);
  sys_select k := (Z.of_nat (length (events k)), k);
  sys_read k _ :=
    match events k with
    | e :: es => (Some (encode e), mkWorld (next_wd k) (link k) es)
    | [] => (None, k)
    end
|}.

#[export] Instance world_fs : FileSystem world := {|
  fs_exists k _ := (Some true, k);
  fs_is_symlink k _ := (Some (match link k with Some _ => true | None => false end), k);
  fs_canonical k s := (Some (match link k with Some t => t | None => s end), k);
  LoadFile k _ := (Loaded config_doc, k)
|}.

Definition loader : ConfigLoader := ConfigLoader_make None None 3.

Definition parser : ParserYaml := parser_ loader.

Lemma descriptor_ok : config_descriptor config_fields.
Proof. split; [exact config_wf|]. exists networking_fields. split; [by left|by right; left]. Qed.

Lemma loader_start : loader_ok config_fields parser loader.
Proof. by split; [|..|constructor| |]. Qed.

Lemma doc_acceptable : acceptable parser config_fields config_doc.
Proof.
  split; [done|]. intros f [<-|[]]. eapply conf_map; [reflexivity|].
  intros g [<-|[<-|[]]]; [|by apply conf_absent]. eapply conf_map; [reflexivity|].
  intros g [<-|[]]. eapply conf_scalar; [reflexivity|]. by eexists.
Qed.

Lemma LoadConfiguration_witness :
  exists m, LoadConfiguration config_fields (mkWorld 1 None []) loader None
            = Some (SUCCESS, set_config loader (Some m), mkWorld 1 None [])
    /\ MaxConnectionsPerMinute (Some m) 0 = 2048.
Proof.
  destruct (LoadConfiguration_spec config_fields networking_fields (mkWorld 1 None []) loader 0 descriptor_ok
              (or_introl eq_refl) (or_intror (or_introl eq_refl)) eq_refl) as [[Hn _]|(m & _ & E & Hm)].
  - destruct (Hn doc_acceptable).
  - exists m. split; [exact E|exact Hm].
Defined.

Definition linked : world := mkWorld 1 (Some (lit "/data/config.yaml")) [mkKevent 3 IN_MODIFY 0 [] 0].

Example watchers_after : option_map (fun x => length (watchers_ (inotify_ x.1))) (WatchFile config_fields 3 linked loader) = Some 3%nat.
Proof. vm_compute. reflexivity. Qed.

Lemma WatchFile_witness :
  exists c k, WatchFile config_fields 3 linked loader = Some (c, k) /\ length (watchers_ (inotify_ c)) = 3%nat
    /\ loader_ok config_fields parser c.
Proof.
  pose proof watchers_after as Hw. destruct (WatchFile config_fields 3 linked loader) as [[c k]|] eqn:E; [|discriminate Hw].
  exists c, k. split; [reflexivity|]. split; [injection Hw as Hw; exact Hw|].
  exact (WatchFile_invariant config_fields parser 3 _ _ _ _ descriptor_ok eq_refl loader_start E).
Defined.

(** The loader that watches the directory. *)
Definition watching : ConfigLoader :=
  set_inotify loader (set_watchers (inotify_ loader) [mkWatcher 1 (lit "/etc/stackrox") LOADER_PARENT_PATH]).

Lemma watching_ok : loader_ok config_fields parser watching.
Proof. split; try done; cbn; [by apply (bool_decide_unpack _)|..]; by intros w [<-|[]]. Qed.

Lemma HandleEvent_reloads_witness :
  exists c' k' m,
    HandleEvent config_fields (mkWorld 2 None []) watching
      (mkEvent 1 IN_CREATE 0 32 (lit "runtime_config.yaml")) = Some (true, c', k')
    /\ config_ c' = Some m /\ loaded_from parser config_fields config_doc m.
Proof.
  apply (HandleEvent_reloads config_fields parser config_doc (mkWorld 2 None []) watching
           (mkEvent 1 IN_CREATE 0 32 (lit "runtime_config.yaml"))
           (mkWatcher 1 (lit "/etc/stackrox") LOADER_PARENT_PATH)).
  - exact descriptor_ok.
  - reflexivity.
  - exact watching_ok.
  - split; try reflexivity; intros; eexists; reflexivity.
  - exact doc_acceptable.
  - reflexivity.
  - right. right. split; [reflexivity|]. split; [reflexivity|]. split; reflexivity.
Defined.

(** When the file behind the link is replaced, its old watcher stays in the store. *)
Example stale_watcher :
  let c := set_inotify loader (set_watchers (inotify_ loader)
             [mkWatcher 1 (lit "/etc/stackrox") LOADER_PARENT_PATH; mkWatcher 2 config_path LOADER_CONFIG_FILE;
              mkWatcher 3 (lit "/data/1/config.yaml") LOADER_CONFIG_REALPATH]) in
  match HandleEvent config_fields (mkWorld 4 (Some (lit "/data/2/config.yaml")) []) c
          (mkEvent 3 IN_DELETE_SELF 0 0 []) with
  | Some (_, c', _) => map path (watchers_ (inotify_ c'))
                       = [lit "/etc/stackrox"; config_path; lit "/data/1/config.yaml"; lit "/data/2/config.yaml"]
  | None => False
  end.
Proof. vm_compute. reflexivity. Qed.
End LoaderWitnesses.
