(* ===== verification/Host.v ===== *)
(** * Host information and heuristics

    [KernelVersion] and [HostInfo] of [collector/lib/HostInfo.h] and [HostInfo.cpp], with
    [GetHostPath] of [Utility.cpp], [HostConfig.h], [CollectionMethod.cpp] and the heuristics of
    [HostHeuristics.cpp] that decide whether collector can run on the host.  What the host
    answers (environment, files, [uname], the probes of libbpf) is a parameter; [None] is
    the end of the process: a fatal log message, an exception nobody catches, or an access outside a
    string. *)

From S2P Require Import Prelude Utility.

(** ** Collection methods *)

Inductive CollectionMethod : Set := EBPF | CORE_BPF.

#[export] Instance CollectionMethod_eq_dec : EqDecision CollectionMethod.
Proof. solve_decision. Defined.

Definition CollectionMethodName (method : CollectionMethod) : str :=
  match method with
  | EBPF => lit "ebpf"
  | CORE_BPF => lit "core_bpf"
  end.

Definition ascii_tolower (c : ascii) : ascii := if in_range "A" "Z" c then chr (code c + 32) else c.

Definition ParseCollectionMethod (method : str) : CollectionMethod :=
  let cm := map (fun c => if bool_decide (c = "-"%char) then "_"%char else c) (map ascii_tolower method) in
  if bool_decide (cm = lit "ebpf") then EBPF
  else if bool_decide (cm = lit "core_bpf") then CORE_BPF
  else CORE_BPF.

(** ** The kernel version *)

Record KernelVersion := mkKernelVersion {
  kernel : Z; major : Z; minor : Z; build_id : Z;
  release : str; version : str; machine : str
}.

(** [std::stoi] of a string of digits. *)
Definition stoi_digits (v : Z) : option Z := if v <? 2 ^ 31 then Some v else None.

(** [(\d+)] followed by what the continuation matches. *)
Definition match_digits (s : str) : option (Z * str) :=
  let '(v, n, rest) := read_digits s 0 0 in if (n =? 0)%nat then None else Some (v, rest).

Definition match_char (c : ascii) (s : str) : option str :=
  match s with
  | d :: s => if bool_decide (d = c) then Some s else None
  | [] => None
  end.

(** [.*] up to the end of the string: no line terminator. *)
Definition match_rest (s : str) : bool := negb (existsb (fun c => (code c =? 10) || (code c =? 13)) s).

(** The capture groups of [release_re]; the optional build id is greedy. *)
Definition match_release (s : str) : option (Z * Z * Z * option Z) :=
  (let! (k, s) := match_digits s in
   let! s := match_char "." s in
   let! (maj, s) := match_digits s in
   let! s := match_char "." s in
   let! (mi, s) := match_digits s in
   let '(b, s) :=
     match (let! s := match_char "-" s in match_digits s) with
     | Some (b, s) => (Some b, s)
     | None => (None, s)
     end in
   if match_rest s then Some (k, maj, mi, b) else None)%col.

Definition KernelVersion_make (release version machine : str) : option KernelVersion :=
  match match_release release with
  | None => Some (mkKernelVersion 0 0 0 0 release version machine)
  | Some (k, maj, mi, b) =>
      (let! k := stoi_digits k in
       let! maj := stoi_digits maj in
       let! mi := stoi_digits mi in
       let! b := match b with Some b => stoi_digits b | None => Some 0 end in
       Some (mkKernelVersion k maj mi b release version machine))%col
  end.

Definition KernelVersion_empty : KernelVersion := mkKernelVersion 0 0 0 0 [] [] [].

Definition KernelVersion_HasEBPFSupport (v : KernelVersion) : bool :=
  negb ((kernel v <? 4) || ((kernel v =? 4) && (major v <? 14))).

Definition HasSecureBootParam (v : KernelVersion) : bool :=
  negb ((kernel v <? 4) || ((kernel v =? 4) && (major v <? 11))).

Definition ShortRelease (v : KernelVersion) : str :=
  show_nat (kernel v) ++ lit "." ++ show_nat (major v) ++ lit "." ++ show_nat (minor v).

(** ** What the host answers *)

Class Host := {
  getenv : str -> option str;
  uname : option (str * str * str);
  host_file : str -> option str;
  host_dir : str -> option (list str);
  is_directory : str -> option bool;
  readable : str -> bool;
  uninitialised : Z;
  probe_map_type_ringbuf : Z;
  probe_prog_type_tracing : Z;
  num_possible_cpus : Z
}.

(** The lines [std::getline] reads. *)
Fixpoint lines_loop (s acc : str) : list str :=
  match s with
  | [] => match acc with [] => [] | _ => [acc] end
  | c :: s => if code c =? 10 then acc :: lines_loop s [] else lines_loop s (acc ++ [c])
  end.

Definition getlines (s : str) : list str := lines_loop s [].

Fixpoint relative_path (s : str) : str :=
  match s with
  | c :: s' => if bool_decide (c = "/"%char) then relative_path s' else s
  | [] => []
  end.

(** [operator/] of a path and a relative path. *)
Definition path_append (root rel : str) : str :=
  match last root with
  | None => rel
  | Some c => if bool_decide (c = "/"%char) then root ++ rel else root ++ lit "/" ++ rel
  end.

Inductive SecureBootStatus : Set := ENABLED | DISABLED | NOT_DETERMINED | UNSET.

#[export] Instance SecureBootStatus_eq_dec : EqDecision SecureBootStatus.
Proof. solve_decision. Defined.

Definition SecureBootStatus_value (s : SecureBootStatus) : Z :=
  match s with ENABLED => 3 | DISABLED => 2 | NOT_DETERMINED => 1 | UNSET => 0 end.

(** [static_cast<SecureBootStatus>] of a value of the enumeration. *)
Definition SecureBootStatus_of (v : Z) : SecureBootStatus :=
  if v =? 3 then ENABLED else if v =? 2 then DISABLED else if v =? 1 then NOT_DETERMINED else UNSET.

Record HostInfo := mkHostInfo {
  kernel_version_ : KernelVersion;
  distro_ : str;
  hostname_ : str;
  build_id_ : str;
  os_id_ : str;
  secure_boot_status_ : SecureBootStatus
}.

(** The one instance, which has static storage. *)
Definition HostInfo_instance : HostInfo := mkHostInfo KernelVersion_empty [] [] [] [] UNSET.

Definition MIN_RHEL_BUILD_ID : Z := 957.
Definition SECURE_BOOT_OFFSET : nat := 492.

Definition contains (needle s : str) : bool := match find_str needle s with Some _ => true | None => false end.

Definition isRHEL76 (v : KernelVersion) (os_id : str) : bool :=
  if bool_decide (os_id = lit "rhel") || bool_decide (os_id = lit "centos") then
    if contains (lit ".el7.") (release v) then
      if (kernel v =? 3) && (major v =? 10) then MIN_RHEL_BUILD_ID <=? build_id v else false
    else false
  else false.

Definition hasEBPFSupport (v : KernelVersion) (os_id : str) : bool :=
  if isRHEL76 v os_id then true else KernelVersion_HasEBPFSupport v.

Definition quote : ascii := chr 34.

(** The quotations at the start and at the end of a value are removed.  The first test reads the
    terminating zero of an empty value, the last one reads before its start. *)
Definition unquote (value : str) : option str :=
  let value := match value with c :: v => if bool_decide (c = quote) then v else value | [] => [] end in
  match last value with
  | None => None
  | Some c => Some (if bool_decide (c = quote) then take (length value - 1) value else value)
  end.

Fixpoint filterForKey (stream : list str) (name : str) : option str :=
  match stream with
  | [] => Some []
  | line :: stream =>
      match find_char "=" line with
      | None => filterForKey stream name
      | Some idx =>
          if bool_decide (take idx line = name) then unquote (drop (S idx) line) else filterForKey stream name
      end
  end.

Section HostInfo.
Context `{Host}.

Definition GetHostPath (file : str) : str :=
  let host_root := match getenv (lit "COLLECTOR_HOST_ROOT") with Some r => r | None => [] end in
  path_append host_root (relative_path file).

Definition KernelVersion_FromHost : option KernelVersion :=
  let release := match getenv (lit "KERNEL_VERSION") with Some (c :: r) => c :: r | _ => [] end in
  match uname with
  | Some (uts_release, uts_version, uts_machine) =>
      KernelVersion_make (match release with [] => uts_release | _ => release end) uts_version uts_machine
  | None => KernelVersion_make release [] []
  end.

Definition GetHostnameFromFile (hostnamePath : str) : str :=
  match host_file (GetHostPath hostnamePath) with
  | None => []
  | Some content => match getlines content with [] => [] | line :: _ => line end
  end.

Definition set_kernel_version (h : HostInfo) (v : KernelVersion) : HostInfo :=
  mkHostInfo v (distro_ h) (hostname_ h) (build_id_ h) (os_id_ h) (secure_boot_status_ h).
Definition set_distro (h : HostInfo) (s : str) : HostInfo :=
  mkHostInfo (kernel_version_ h) s (hostname_ h) (build_id_ h) (os_id_ h) (secure_boot_status_ h).
Definition set_hostname (h : HostInfo) (s : str) : HostInfo :=
  mkHostInfo (kernel_version_ h) (distro_ h) s (build_id_ h) (os_id_ h) (secure_boot_status_ h).
Definition set_build_id (h : HostInfo) (s : str) : HostInfo :=
  mkHostInfo (kernel_version_ h) (distro_ h) (hostname_ h) s (os_id_ h) (secure_boot_status_ h).
Definition set_os_id (h : HostInfo) (s : str) : HostInfo :=
  mkHostInfo (kernel_version_ h) (distro_ h) (hostname_ h) (build_id_ h) s (secure_boot_status_ h).
Definition set_secure_boot (h : HostInfo) (s : SecureBootStatus) : HostInfo :=
  mkHostInfo (kernel_version_ h) (distro_ h) (hostname_ h) (build_id_ h) (os_id_ h) s.

Definition GetKernelVersion (h : HostInfo) : option (KernelVersion * HostInfo) :=
  match release (kernel_version_ h) with
  | [] => (let! v := KernelVersion_FromHost in Some (v, set_kernel_version h v))%col
  | _ => Some (kernel_version_ h, h)
  end.

Definition hostname_paths : list str := [lit "/etc/hostname"; lit "/proc/sys/kernel/hostname"].

(** The loop over the files that may hold the host name: the last one read. *)
Fixpoint hostname_loop (paths : list str) (hostname : str) : str :=
  match paths with
  | [] => hostname
  | p :: paths =>
      match GetHostnameFromFile p with
      | [] => hostname_loop paths []
      | found => found
      end
  end.

Definition GetHostnameInner (h : HostInfo) : option (str * HostInfo) :=
  match hostname_ h with
  | [] =>
      match getenv (lit "NODE_HOSTNAME") with
      | Some (c :: r) => Some (c :: r, set_hostname h (c :: r))
      | _ =>
          match hostname_loop hostname_paths [] with
          | [] => None
          | found => Some (found, set_hostname h found)
          end
      end
  | found => Some (found, h)
  end.

Definition GetOSReleaseValue (name : str) : option str :=
  match host_file (GetHostPath (lit "/etc/os-release")) with
  | Some content => filterForKey (getlines content) name
  | None =>
      match host_file (GetHostPath (lit "/usr/lib/os-release")) with
      | Some content => filterForKey (getlines content) name
      | None => Some []
      end
  end.

Definition GetDistro (h : HostInfo) : option (str * HostInfo) :=
  match distro_ h with
  | [] =>
      (let! v := GetOSReleaseValue (lit "PRETTY_NAME") in
       let v := match v with [] => lit "Linux" | _ => v end in
       Some (v, set_distro h v))%col
  | d => Some (d, h)
  end.

Definition GetBuildID (h : HostInfo) : option (str * HostInfo) :=
  match build_id_ h with
  | [] => (let! v := GetOSReleaseValue (lit "BUILD_ID") in Some (v, set_build_id h v))%col
  | d => Some (d, h)
  end.

Definition GetOSID (h : HostInfo) : option (str * HostInfo) :=
  match os_id_ h with
  | [] => (let! v := GetOSReleaseValue (lit "ID") in Some (v, set_os_id h v))%col
  | d => Some (d, h)
  end.

Definition IsRHEL76 (h : HostInfo) : option (bool * HostInfo) :=
  (let! (v, h) := GetKernelVersion h in
   let! (os_id, h) := GetOSID h in
   Some (isRHEL76 v os_id, h))%col.

Definition IsRHEL86 (h : HostInfo) : option (bool * HostInfo) :=
  (let! (v, h) := GetKernelVersion h in
   let! (os_id, h) := GetOSID h in
   Some ((bool_decide (os_id = lit "rhel") || bool_decide (os_id = lit "rhcos")) && contains (lit ".el8_6.") (release v), h))%col.

Definition HasEBPFSupport (h : HostInfo) : option (bool * HostInfo) :=
  (let! (v, h) := GetKernelVersion h in
   let! (os_id, h) := GetOSID h in
   Some (hasEBPFSupport v os_id, h))%col.

Definition IsCOS (h : HostInfo) : option (bool * HostInfo) :=
  (let! (os_id, h) := GetOSID h in
   if bool_decide (os_id = lit "cos") then
     let! (b, h) := GetBuildID h in Some (match b with [] => false | _ => true end, h)
   else Some (false, h))%col.

Definition IsCoreOS (h : HostInfo) : option (bool * HostInfo) :=
  (let! (os_id, h) := GetOSID h in Some (bool_decide (os_id = lit "coreos"), h))%col.

Definition IsUbuntu (h : HostInfo) : option (bool * HostInfo) :=
  (let! (os_id, h) := GetOSID h in Some (bool_decide (os_id = lit "ubuntu"), h))%col.

Definition IsDockerDesktop (h : HostInfo) : option (bool * HostInfo) :=
  (let! (d, h) := GetDistro h in Some (bool_decide (d = lit "Docker Desktop"), h))%col.

Definition IsGarden (h : HostInfo) : option (bool * HostInfo) :=
  (let! (d, h) := GetDistro h in Some (starts_with (lit "Garden Linux") d, h))%col.

Definition IsMinikube (h : HostInfo) : option (bool * HostInfo) :=
  (let! (n, h) := GetHostnameInner h in Some (bool_decide (n = lit "minikube"), h))%col.

(** ** BTF symbols *)

(** A pattern is its parts, between which the release is inserted, and whether it is under the host's root. *)
Definition btf_locations : list (list str * bool) :=
  [([lit "/sys/kernel/btf/vmlinux"], false);
   ([lit "/boot/vmlinux-"; []], false);
   ([lit "/lib/modules/"; lit "/vmlinux-"; []], false);
   ([lit "/lib/modules/"; lit "/build/vmlinux"], false);
   ([lit "/usr/lib/modules/"; lit "/kernel/vmlinux"], true);
   ([lit "/usr/lib/debug/boot/vmlinux-"; []], true);
   ([lit "/usr/lib/debug/boot/vmlinux-"; lit ".debug"], true);
   ([lit "/usr/lib/debug/lib/modules/"; lit "/vmlinux"], true)].

Definition PATH_MAX : nat := 4096.

Fixpoint instantiate (parts : list str) (release : str) : str :=
  match parts with
  | [] => []
  | [p] => p
  | p :: parts => p ++ release ++ instantiate parts release
  end.

(** [snprintf(path, PATH_MAX, ...)]. *)
Definition location_path (parts : list str) (release : str) : str := take (PATH_MAX - 1) (instantiate parts release).

Definition HasBTFSymbols (h : HostInfo) : bool :=
  existsb (fun location : list str * bool =>
             let path := location_path location.1 (release (kernel_version_ h)) in
             readable (if snd location then GetHostPath path else path)) btf_locations.

Definition HasBPFRingBufferSupport : bool := negb (probe_map_type_ringbuf =? 0).

Definition HasBPFTracingSupport : bool := negb (probe_prog_type_tracing =? 0).

Definition IsUEFI : bool := match is_directory (GetHostPath (lit "/sys/firmware/efi")) with Some b => b | None => false end.

(** ** Secure Boot *)

(** The byte at an offset, which stays uninitialised when the file is too short. *)
Definition byte_at (content : str) (off : nat) : Z :=
  match content !! off with Some c => code c | None => uninitialised end.

Fixpoint secure_boot_loop (efi_path : str) (entries : list str) : SecureBootStatus :=
  match entries with
  | [] => NOT_DETERMINED
  | name :: entries =>
      if starts_with (lit "SecureBoot-") name then
        match host_file (path_append efi_path name) with
        | None => NOT_DETERMINED
        | Some content =>
            let status := byte_at content 4 in
            if negb (status =? 0) && negb (status =? 1) then NOT_DETERMINED else SecureBootStatus_of status
        end
      else secure_boot_loop efi_path entries
  end.

Definition GetSecureBootFromVars : SecureBootStatus :=
  let efi_path := GetHostPath (lit "/sys/firmware/efi/efivars") in
  match host_dir efi_path with
  | None => NOT_DETERMINED
  | Some entries => secure_boot_loop efi_path entries
  end.

Definition GetSecureBootFromParams : SecureBootStatus :=
  match host_file (GetHostPath (lit "/sys/kernel/boot_params/data")) with
  | None => NOT_DETERMINED
  | Some content =>
      let status := byte_at content SECURE_BOOT_OFFSET in
      if (status <? SecureBootStatus_value NOT_DETERMINED) || (SecureBootStatus_value ENABLED <? status)
      then NOT_DETERMINED else SecureBootStatus_of status
  end.

Definition GetSecureBootStatus (h : HostInfo) : option (SecureBootStatus * HostInfo) :=
  (let! (v, h) := GetKernelVersion h in
   if negb (bool_decide (secure_boot_status_ h = UNSET)) then Some (secure_boot_status_ h, h)
   else
     let status := if HasSecureBootParam v then GetSecureBootFromParams else GetSecureBootFromVars in
     Some (status, set_secure_boot h status))%col.

(** ** Versions and processors *)

(** [v\d+\.\d+\.\d+] at the start of a string: the length of the match. *)
Definition match_minikube (s : str) : option nat :=
  (let! s1 := match_char "v" s in
   let! (_, s1) := match_digits s1 in
   let! s1 := match_char "." s1 in
   let! (_, s1) := match_digits s1 in
   let! s1 := match_char "." s1 in
   let! (_, s1) := match_digits s1 in
   Some (length s - length s1)%nat)%col.

(** [std::regex_search]: the leftmost match. *)
Fixpoint search_minikube (s : str) : option str :=
  match match_minikube s with
  | Some n => Some (take n s)
  | None => match s with [] => None | _ :: s => search_minikube s end
  end.

Definition GetMinikubeVersion : str :=
  match host_file (GetHostPath (lit "/etc/VERSION")) with
  | None => []
  | Some content =>
      match search_minikube (match getlines content with [] => [] | line :: _ => line end) with
      | Some v => v
      | None => []
      end
  end.

Definition NumPossibleCPU : Z := if num_possible_cpus <? 0 then 0 else num_possible_cpus.

(** ** Heuristics *)

Record HostConfig := mkHostConfig { hc_collection_method : option CollectionMethod; hc_num_possible_cpus : Z }.

Definition SetNumPossibleCPUs (c : HostConfig) (value : Z) : HostConfig :=
  mkHostConfig (hc_collection_method c) (wrap 32 value).

(** A heuristic: [None] is a fatal log message. *)
Definition Heuristic : Type := HostInfo -> CollectionMethod -> HostConfig -> option (HostInfo * HostConfig).

Definition CollectionHeuristic : Heuristic := fun host method hconfig =>
  (let! (supported, host) := HasEBPFSupport host in
   if negb supported then None
   else
     let! (_, host) := GetKernelVersion host in
     if bool_decide (method = CORE_BPF) then
       if negb (HasBTFSymbols host) then None
       else if negb HasBPFRingBufferSupport then None
       else if negb HasBPFTracingSupport then None
       else Some (host, hconfig)
     else Some (host, hconfig))%col.

Definition DockerDesktopHeuristic : Heuristic := fun host method hconfig =>
  (let! (docker, host) := IsDockerDesktop host in
   if docker then None else Some (host, hconfig))%col.

Definition PowerHeuristic : Heuristic := fun host method hconfig =>
  (let! (k, host) := GetKernelVersion host in
   if negb (bool_decide (machine k = lit "ppc64le")) then Some (host, hconfig)
   else if (kernel k =? 4) && (major k =? 18) && (build_id k <? 477) then None
   else Some (host, hconfig))%col.

Definition CPUHeuristic : Heuristic := fun host method hconfig =>
  Some (host, SetNumPossibleCPUs hconfig NumPossibleCPU).

Definition g_host_heuristics : list Heuristic :=
  [CollectionHeuristic; DockerDesktopHeuristic; PowerHeuristic; CPUHeuristic].

Fixpoint apply_heuristics (hs : list Heuristic) (host : HostInfo) (method : CollectionMethod) (hconfig : HostConfig)
  : option (HostInfo * HostConfig) :=
  match hs with
  | [] => Some (host, hconfig)
  | heuristic :: hs =>
      (let! (host, hconfig) := heuristic host method hconfig in apply_heuristics hs host method hconfig)%col
  end.

(** [num_possible_cpus_] of a new [HostConfig] is not initialised. *)
Definition ProcessHostHeuristics (host : HostInfo) (method : CollectionMethod) (garbage : Z)
  : option (HostInfo * HostConfig) :=
  apply_heuristics g_host_heuristics host method (mkHostConfig None garbage).
End HostInfo.

(** ** Lemmas *)

Lemma match_digits_show n rest : 0 <= n -> no_digit rest = true -> match_digits (show_nat n ++ rest) = Some (n, rest).
Proof.
  intros Hn Hr. unfold match_digits. destruct (read_digits_show n rest Hn Hr) as (k & Hk & ->).
  by destruct (Nat.eqb_spec k 0); [lia|].
Qed.

Lemma stoi_digits_ok n : 0 <= n < 2 ^ 31 -> stoi_digits n = Some n.
Proof. intros Hn. unfold stoi_digits. by destruct (Z.ltb_spec n (2 ^ 31)); [|lia]. Qed.

(** What follows the numbers of a release: nothing that would be read as a part of them. *)
Definition release_tail (s : str) : bool := no_digit s && match_rest s.

Lemma match_dot s : match_char "." (lit "." ++ s) = Some s.
Proof. done. Qed.

Lemma match_release_show k maj mi tail :
  0 <= k -> 0 <= maj -> 0 <= mi -> no_digit tail = true ->
  match_release (show_nat k ++ lit "." ++ show_nat maj ++ lit "." ++ show_nat mi ++ tail)
  = let '(b, s) := match (match match_char "-" tail with Some s => match_digits s | None => None end) with
                   | Some (b, s) => (Some b, s)
                   | None => (None, tail)
                   end in
    if match_rest s then Some (k, maj, mi, b) else None.
Proof.
  intros Hk Hmaj Hmi Ht. unfold match_release.
  by rewrite match_digits_show, match_dot, match_digits_show, match_dot, match_digits_show.
Qed.

Section HostLemmas.
Context `{Host}.

(** What the getters report of the host. *)
Definition distro_ref : option str :=
  (let! v := GetOSReleaseValue (lit "PRETTY_NAME") in Some (match v with [] => lit "Linux" | _ => v end))%col.

Definition hostname_ref : option str :=
  match getenv (lit "NODE_HOSTNAME") with
  | Some (c :: r) => Some (c :: r)
  | _ => match hostname_loop hostname_paths [] with [] => None | found => Some found end
  end.

(** The members that were filled hold the host's answers. *)
Record coherent (h : HostInfo) : Prop := {
  co_kernel : release (kernel_version_ h) = [] \/ KernelVersion_FromHost = Some (kernel_version_ h);
  co_os : os_id_ h = [] \/ GetOSReleaseValue (lit "ID") = Some (os_id_ h);
  co_build : build_id_ h = [] \/ GetOSReleaseValue (lit "BUILD_ID") = Some (build_id_ h);
  co_distro : distro_ h = [] \/ distro_ref = Some (distro_ h);
  co_hostname : hostname_ h = [] \/ hostname_ref = Some (hostname_ h)
}.

Lemma coherent_instance : coherent HostInfo_instance.
Proof. split; by left. Qed.

(** A getter reports the host's answer and keeps the other members' coherence. *)
Definition reports {A} (get : HostInfo -> option (A * HostInfo)) (answer : option A) (h : HostInfo) : Prop :=
  match get h with
  | Some (a, h') => answer = Some a /\ coherent h' /\ secure_boot_status_ h' = secure_boot_status_ h
  | None => answer = None
  end.

Lemma GetKernelVersion_reports h : coherent h -> reports GetKernelVersion KernelVersion_FromHost h.
Proof.
  intros Hc. unfold reports, GetKernelVersion. destruct (release (kernel_version_ h)) as [|c r] eqn:E.
  - destruct KernelVersion_FromHost as [v|] eqn:Ev; [|done]. split; [done|]. split; [|done].
    destruct Hc. split; try done. by right.
  - split; [|done]. destruct (co_kernel _ Hc); [congruence|done].
Qed.

Lemma GetOSID_reports h : coherent h -> reports GetOSID (GetOSReleaseValue (lit "ID")) h.
Proof.
  intros Hc. unfold reports, GetOSID. destruct (os_id_ h) as [|c r] eqn:E.
  - destruct (GetOSReleaseValue (lit "ID")) as [v|] eqn:Ev; [|done]. split; [done|]. split; [|done].
    destruct Hc. split; try done. by right.
  - split; [|done]. destruct (co_os _ Hc); congruence.
Qed.

Lemma GetBuildID_reports h : coherent h -> reports GetBuildID (GetOSReleaseValue (lit "BUILD_ID")) h.
Proof.
  intros Hc. unfold reports, GetBuildID. destruct (build_id_ h) as [|c r] eqn:E.
  - destruct (GetOSReleaseValue (lit "BUILD_ID")) as [v|] eqn:Ev; [|done]. split; [done|]. split; [|done].
    destruct Hc. split; try done. by right.
  - split; [|done]. destruct (co_build _ Hc); congruence.
Qed.

Lemma GetDistro_reports h : coherent h -> reports GetDistro distro_ref h.
Proof.
  intros Hc. unfold reports, GetDistro. destruct (distro_ h) as [|c r] eqn:E.
  - unfold distro_ref. destruct (GetOSReleaseValue (lit "PRETTY_NAME")) as [v|] eqn:Ev; [|done].
    split; [done|]. split; [|done]. destruct Hc. split; try done. right. unfold distro_ref. by rewrite Ev.
  - split; [|done]. destruct (co_distro _ Hc); congruence.
Qed.

Lemma GetHostname_reports h : coherent h -> reports GetHostnameInner hostname_ref h.
Proof.
  intros Hc. unfold reports, GetHostnameInner. destruct (hostname_ h) as [|c r] eqn:E.
  - assert (forall v, hostname_ref = Some v -> coherent (set_hostname h v)) as Hset.
    { intros v Hv. destruct Hc. split; try done. by right. }
    unfold hostname_ref in *. destruct (getenv (lit "NODE_HOSTNAME")) as [[|c r]|];
      [destruct (hostname_loop hostname_paths []) as [|d s]..|destruct (hostname_loop hostname_paths []) as [|d s]];
      try done; split; try done; split; try done; by apply Hset.
  - split; [|done]. destruct (co_hostname _ Hc); congruence.
Qed.

(** The kernel version is in its member once it was asked for. *)
Lemma GetKernelVersion_member h v h' : GetKernelVersion h = Some (v, h') -> kernel_version_ h' = v.
Proof.
  unfold GetKernelVersion. destruct (release (kernel_version_ h)); [|by intros [= <- <-]].
  destruct KernelVersion_FromHost; [|done]. by intros [= <- <-].
Qed.

Lemma GetOSID_member h os h' : GetOSID h = Some (os, h') -> kernel_version_ h' = kernel_version_ h.
Proof.
  unfold GetOSID. destruct (os_id_ h); [|by intros [= <- <-]].
  destruct (GetOSReleaseValue _); [|done]. by intros [= <- <-].
Qed.

Lemma HasBTFSymbols_kernel h h' : kernel_version_ h = kernel_version_ h' -> HasBTFSymbols h = HasBTFSymbols h'.
Proof. unfold HasBTFSymbols. by intros ->. Qed.

(** The probes a collection method needs. *)
Definition probes_ok (v : KernelVersion) (method : CollectionMethod) : bool :=
  match method with
  | CORE_BPF => HasBTFSymbols (set_kernel_version HostInfo_instance v) && HasBPFRingBufferSupport && HasBPFTracingSupport
  | EBPF => true
  end.

(** The hosts on which collector runs. *)
Definition host_supported (v : KernelVersion) (os distro : str) (method : CollectionMethod) : bool :=
  hasEBPFSupport v os && probes_ok v method && negb (bool_decide (distro = lit "Docker Desktop"))
  && negb (bool_decide (machine v = lit "ppc64le") && ((kernel v =? 4) && (major v =? 18) && (build_id v <? 477))).

Lemma CollectionHeuristic_spec h method hc :
  coherent h ->
  match KernelVersion_FromHost, GetOSReleaseValue (lit "ID") with
  | Some v, Some os =>
      if hasEBPFSupport v os && probes_ok v method
      then exists h', CollectionHeuristic h method hc = Some (h', hc) /\ coherent h'
      else CollectionHeuristic h method hc = None
  | _, _ => CollectionHeuristic h method hc = None
  end.
Proof.
  intros Hc. unfold CollectionHeuristic, HasEBPFSupport.
  pose proof (GetKernelVersion_reports h Hc) as Hk. unfold reports in Hk.
  destruct (GetKernelVersion h) as [[v h1]|]; [|by rewrite Hk]. destruct Hk as (Ev & Hc1 & _). rewrite Ev.
  pose proof (GetOSID_reports h1 Hc1) as Ho. unfold reports in Ho.
  destruct (GetOSID h1) as [[os h2]|]; [|by rewrite Ho]. destruct Ho as (-> & Hc2 & _).
  destruct (hasEBPFSupport v os); [|done]. cbn [negb andb].
  pose proof (GetKernelVersion_reports h2 Hc2) as Hk. unfold reports in Hk.
  destruct (GetKernelVersion h2) as [[v' h3]|] eqn:E3; [|congruence]. destruct Hk as (Ev' & Hc3 & _).
  assert (HasBTFSymbols h3 = HasBTFSymbols (set_kernel_version HostInfo_instance v)) as ->.
  { apply HasBTFSymbols_kernel. rewrite (GetKernelVersion_member _ _ _ E3). cbn. congruence. }
  destruct method; cbn [probes_ok]; [by exists h3|]. rewrite bool_decide_true by done.
  destruct (HasBTFSymbols _); [|done]. destruct HasBPFRingBufferSupport; [|done].
  destruct HasBPFTracingSupport; [|done]. by exists h3.
Qed.
End HostLemmas.

Lemma ProcessHostHeuristics_answers `{Host} (h : HostInfo) (method : CollectionMethod) (garbage : Z) :
  coherent h ->
  match KernelVersion_FromHost, GetOSReleaseValue (lit "ID"), distro_ref with
  | Some v, Some os, Some d =>
      if host_supported v os d method
      then exists h', ProcessHostHeuristics h method garbage = Some (h', mkHostConfig None (wrap 32 NumPossibleCPU))
                      /\ coherent h'
      else ProcessHostHeuristics h method garbage = None
  | _, _, _ => ProcessHostHeuristics h method garbage = None
  end.
Proof.
  intros Hc. unfold ProcessHostHeuristics, g_host_heuristics, host_supported. cbn [apply_heuristics].
  pose proof (CollectionHeuristic_spec h method (mkHostConfig None garbage) Hc) as Hcol.
  destruct KernelVersion_FromHost as [v|] eqn:Ev; [|by rewrite Hcol].
  destruct (GetOSReleaseValue (lit "ID")) as [os|]; [|by rewrite Hcol].
  destruct (hasEBPFSupport v os && probes_ok v method); [|by rewrite Hcol; destruct distro_ref].
  destruct Hcol as (h1 & -> & Hc1). unfold DockerDesktopHeuristic, IsDockerDesktop.
  pose proof (GetDistro_reports h1 Hc1) as Hd. unfold reports in Hd.
  destruct (GetDistro h1) as [[d h2]|]; [|by rewrite Hd]. destruct Hd as (-> & Hc2 & _).
  case_bool_decide; [done|]. cbn [negb andb]. unfold PowerHeuristic.
  pose proof (GetKernelVersion_reports h2 Hc2) as Hk. unfold reports in Hk.
  destruct (GetKernelVersion h2) as [[v' h3]|]; [|congruence]. destruct Hk as (Ev' & Hc3 & _).
  replace v' with v by congruence. case_bool_decide; cbn [negb andb]; [|by exists h3].
  destruct (_ && _); [done|]. by exists h3.
Qed.

(** ** The theorems *)

(** The release string of a kernel is read back as the numbers it was made of: kernel, major and minor
    version, and the build id when one follows a hyphen, whatever text without a line end comes after
    (such as [.el8_6.x86_64]); the rest of the version is kept as given. *)
Theorem KernelVersion_roundtrip (v : KernelVersion) (tail ver mach : str) :
  0 <= kernel v < 2 ^ 31 -> 0 <= major v < 2 ^ 31 -> 0 <= minor v < 2 ^ 31 -> 0 <= build_id v < 2 ^ 31 ->
  release_tail tail = true ->
  (let r := ShortRelease v ++ lit "-" ++ show_nat (build_id v) ++ tail in
   KernelVersion_make r ver mach
   = Some (mkKernelVersion (kernel v) (major v) (minor v) (build_id v) r ver mach))
  /\ (let r := ShortRelease v ++ tail in
      match_char "-" tail = None ->
      KernelVersion_make r ver mach = Some (mkKernelVersion (kernel v) (major v) (minor v) 0 r ver mach)).
Proof.
  intros Hk Hmaj Hmi Hb [Hd Hr]%andb_true_iff. unfold KernelVersion_make, ShortRelease. rewrite <- !app_assoc. split.
  - rewrite match_release_show by (done || lia). replace (match_char "-" _) with (Some (show_nat (build_id v) ++ tail)) by done.
    by rewrite match_digits_show, Hr, !stoi_digits_ok by (done || lia).
  - cbv zeta. intros Hm. rewrite match_release_show by (done || lia). by rewrite Hm, Hr, !stoi_digits_ok by lia.
Qed.

(** Collector starts on a host exactly when the host can run it: the kernel has eBPF (4.14 or newer, or RHEL
    7.6), for CO-RE also BTF symbols, ring buffers and tracing programs, the host is not Docker Desktop
    and not the ppc64le kernel that lacks support; then the number of possible processors is recorded and no
    other setting is touched.  On any other host, and when the host's identification cannot be read,
    it ends at start-up. *)
Theorem ProcessHostHeuristics_spec `{Host} (h : HostInfo) (method : CollectionMethod) (garbage : Z) :
  coherent h ->
  match KernelVersion_FromHost, GetOSReleaseValue (lit "ID"), distro_ref with
  | Some v, Some os, Some d =>
      if host_supported v os d method
      then exists h', ProcessHostHeuristics h method garbage = Some (h', mkHostConfig None (wrap 32 NumPossibleCPU))
                      /\ coherent h'
      else ProcessHostHeuristics h method garbage = None
  | _, _, _ => ProcessHostHeuristics h method garbage = None
  end.
Proof. apply ProcessHostHeuristics_answers. Qed.

(** On kernels without the secure-boot boot parameter, the status read from the EFI variable is never "enabled"
    nor "disabled": the values 1 and 0 of the variable are taken for numbers of the enumeration of the
    kernel, where they mean "not determined" and "not set".  So an enabled Secure Boot is reported as not
    determined, and a disabled one as not set, which is asked for anew at every call. *)
Theorem SecureBoot_vars_misread `{Host} (h : HostInfo) (v : KernelVersion) :
  coherent h -> KernelVersion_FromHost = Some v -> HasSecureBootParam v = false -> secure_boot_status_ h = UNSET ->
  exists status h', GetSecureBootStatus h = Some (status, h') /\ (status = NOT_DETERMINED \/ status = UNSET)
    /\ (forall entries name rest content, let dir := GetHostPath (lit "/sys/firmware/efi/efivars") in
          host_dir dir = Some (entries ++ name :: rest) ->
          forallb (fun n => negb (starts_with (lit "SecureBoot-") n)) entries = true ->
          starts_with (lit "SecureBoot-") name = true -> host_file (path_append dir name) = Some content ->
          (byte_at content 4 = 1 -> status = NOT_DETERMINED) /\ (byte_at content 4 = 0 -> status = UNSET)).
Proof.
  intros Hc Ev Hp Hs. unfold GetSecureBootStatus.
  pose proof (GetKernelVersion_reports h Hc) as Hk. unfold reports in Hk. rewrite Ev in Hk.
  destruct (GetKernelVersion h) as [[v' h1]|]; [|done]. destruct Hk as ([= <-] & _ & Hs1).
  rewrite Hs1, Hs, bool_decide_true, Hp by done. cbn [negb]. eexists _, _. split; [done|]. unfold GetSecureBootFromVars.
  assert (forall dir entries, let s := secure_boot_loop dir entries in s = NOT_DETERMINED \/ s = UNSET) as Hl.
  { intros dir entries. induction entries as [|n entries IH]; cbn [secure_boot_loop]; [by left|].
    destruct (starts_with _ n); [|exact IH]. destruct (host_file _) as [content|]; [|by left].
    destruct (Z.eqb_spec (byte_at content 4) 0) as [->|]; [by right|].
    destruct (Z.eqb_spec (byte_at content 4) 1) as [->|]; by left. }
  split; [destruct (host_dir _) as [entries|]; [apply Hl|by left]|].
  cbv zeta. set (dir := GetHostPath _). intros entries name rest content Hdir Hno Hn Hf. rewrite Hdir.
  assert (secure_boot_loop dir (entries ++ name :: rest) = secure_boot_loop dir (name :: rest)) as ->.
  { clear -Hno. induction entries as [|n entries IH]; [done|]. cbn [forallb app] in *.
    apply andb_true_iff in Hno as [Hno Hrest]. apply negb_true_iff in Hno.
    cbn [secure_boot_loop]. rewrite Hno. by apply IH. }
  cbn [secure_boot_loop]. rewrite Hn, Hf. by split; intros ->.
Qed.

(** The value of a key: the first line of that key decides; without one the value is empty. *)
Lemma filterForKey_first name value pre post :
  ~ In "="%char name ->
  Forall (fun line => forall v, line <> name ++ "="%char :: v) pre ->
  filterForKey (pre ++ (name ++ "="%char :: value) :: post) name = unquote value.
Proof.
  intros Hname. induction 1 as [|line pre Hl _ IH]; cbn [app filterForKey].
  - rewrite find_char_app by done. rewrite take_app_length, bool_decide_true by done.
    f_equal. by rewrite drop_app_ge, Nat.sub_succ_l, Nat.sub_diag by lia.
  - destruct (find_char "=" line) as [idx|] eqn:E; [|done]. case_bool_decide as Et; [|done].
    apply find_char_Some in E as [El _]. destruct (Hl (drop (S idx) line)). rewrite <- Et. symmetry. by apply take_drop_middle.
Qed.

(** ** Witnesses *)

Module Witnesses.

Definition os_release : str :=
  lit "NAME=RHEL" ++ [chr 10] ++ lit "ID=" ++ [quote] ++ lit "rhel" ++ [quote] ++ [chr 10]
  ++ lit "PRETTY_NAME=" ++ [quote] ++ lit "Red Hat Enterprise Linux 8.6" ++ [quote] ++ [chr 10].

(** A host of RHEL 8.6, with the release of its kernel. *)
Definition rhel (uts_release : str) (efi : Z) : Host := {|
  getenv name := if bool_decide (name = lit "COLLECTOR_HOST_ROOT") then Some (lit "/host") else None;
  uname := Some (uts_release, lit "#1 SMP", lit "x86_64");
  host_file p :=
    if bool_decide (p = lit "/host/etc/os-release") then Some os_release
    else if bool_decide (p = lit "/host/sys/firmware/efi/efivars/SecureBoot-8be4df61") then Some [chr 6; chr 0; chr 0; chr 0; chr efi]
    else None;
  host_dir p := Some [lit "Boot0000"; lit "SecureBoot-8be4df61"];
  is_directory _ := Some true;
  readable p := bool_decide (p = lit "/sys/kernel/btf/vmlinux");
  uninitialised := 0;
  probe_map_type_ringbuf := 1;
  probe_prog_type_tracing := 1;
  num_possible_cpus := 8
|}.

Definition rhel86 : Host := rhel (lit "4.18.0-372.9.1.el8.x86_64") 1.

Lemma KernelVersion_witness :
  KernelVersion_make (lit "4.18.0-372.9.1.el8.x86_64") (lit "#1 SMP") (lit "x86_64")
  = Some (mkKernelVersion 4 18 0 372 (lit "4.18.0-372.9.1.el8.x86_64") (lit "#1 SMP") (lit "x86_64")).
Proof.
  apply (KernelVersion_roundtrip (mkKernelVersion 4 18 0 372 [] [] []) (lit ".9.1.el8.x86_64") (lit "#1 SMP") (lit "x86_64"));
    try (cbn; lia); reflexivity.
Defined.

Lemma ProcessHostHeuristics_witness :
  exists h', @ProcessHostHeuristics rhel86 HostInfo_instance CORE_BPF 77 = Some (h', mkHostConfig None 8).
Proof.
  pose proof (@ProcessHostHeuristics_spec rhel86 HostInfo_instance CORE_BPF 77 (@coherent_instance rhel86)) as Hs.
  assert (@KernelVersion_FromHost rhel86
          = Some (mkKernelVersion 4 18 0 372 (lit "4.18.0-372.9.1.el8.x86_64") (lit "#1 SMP") (lit "x86_64"))) as E1
    by (vm_compute; reflexivity).
  assert (@GetOSReleaseValue rhel86 (lit "ID") = Some (lit "rhel")) as E2 by (vm_compute; reflexivity).
  assert (@distro_ref rhel86 = Some (lit "Red Hat Enterprise Linux 8.6")) as E3 by (vm_compute; reflexivity).
  rewrite E1, E2, E3 in Hs.
  match type of Hs with if ?b then _ else _ => assert (b = true) as E4 by (vm_compute; reflexivity) end.
  rewrite E4 in Hs. destruct Hs as (h' & E & _). exists h'. exact E.
Defined.

Definition old_host : Host := rhel (lit "4.10.0") 1.

Lemma SecureBoot_witness :
  exists h', @GetSecureBootStatus old_host HostInfo_instance = Some (NOT_DETERMINED, h').
Proof.
  destruct (@SecureBoot_vars_misread old_host HostInfo_instance (mkKernelVersion 4 10 0 0 (lit "4.10.0") (lit "#1 SMP") (lit "x86_64")))
    as (status & h' & E & _ & Hb).
  - apply coherent_instance.
  - vm_compute. reflexivity.
  - reflexivity.
  - reflexivity.
  - destruct (Hb [lit "Boot0000"] (lit "SecureBoot-8be4df61") [] [chr 6; chr 0; chr 0; chr 0; chr 1]) as [H1 _];
      [reflexivity| vm_compute; reflexivity | vm_compute; reflexivity | vm_compute; reflexivity |].
    rewrite H1 in E by (vm_compute; reflexivity). exists h'. exact E.
Defined.

(** An [ID=] line without a value makes the parser read before the start of the string. *)
Example empty_value : filterForKey [lit "ID="] (lit "ID") = None.
Proof. reflexivity. Qed.

(** A version that does not fit an [int] ends the process. *)
Example huge_version : KernelVersion_make (lit "4.18.99999999999") [] [] = None.
Proof. reflexivity. Qed.

Example minikube : search_minikube (lit "minikube v1.33.1 (docker)") = Some (lit "v1.33.1").
Proof. reflexivity. Qed.
End Witnesses.
