(* ===== verification/Config.v ===== *)
(** * The configuration of collector

    Environment variables ([collector/lib/EnvVar.h]), command-line options
    ([CollectorArgs.cpp], [GRPC.cpp]), log levels ([Logging.cpp]) and [CollectorConfig]
    ([CollectorConfig.h], [CollectorConfig.cpp]), with the start of [main] in [collector.cpp].
    JSON values, [strtod] (which depends on the locale) and the defaults of the falcosecurity
    libraries are parameters.  [None] is the end of the process: an exception nobody catches
    or a fatal log message. *)

From Stdlib Require SpecFloat.
From S2P Require Import OptionParser Prelude Containers Utility Address IPNet Connection ConfigParser Inotify ConfigLoader Host.

(** ** Floating-point arithmetic of the configuration *)

Abbreviation sfloat := SpecFloat.spec_float.

(** [float] and [double], and the conversion of integers. *)
Definition float_of_Z (z : Z) : sfloat := SpecFloat.binary_normalize 24 128 z 0 false.
Definition float_mul (x y : sfloat) : sfloat := SpecFloat.SFmul 24 128 x y.
Definition float_div (x y : sfloat) : sfloat := SpecFloat.SFdiv 24 128 x y.
Definition double_of_Z (z : Z) : sfloat := SpecFloat.binary_normalize 53 1024 z 0 false.
Definition double_div (x y : sfloat) : sfloat := SpecFloat.SFdiv 53 1024 x y.

(** The value [m * 2 ^ e], rounded down. *)
Definition shift_floor (m e : Z) : Z := Z.shiftl m e.

Definition signed_mantissa (s : bool) (m : positive) : Z := if s then Z.neg m else Z.pos m.

(** [std::ceil], truncation and [std::round], on finite values. *)
Definition sf_ceil (x : sfloat) : option Z :=
  match x with
  | SpecFloat.S754_zero _ => Some 0
  | SpecFloat.S754_finite s m e => Some (- shift_floor (- signed_mantissa s m) e)
  | _ => None
  end.

Definition sf_trunc (x : sfloat) : option Z :=
  match x with
  | SpecFloat.S754_zero _ => Some 0
  | SpecFloat.S754_finite s m e => Some ((if s then -1 else 1) * shift_floor (Z.pos m) e)
  | _ => None
  end.

Definition sf_round (x : sfloat) : option Z :=
  match x with
  | SpecFloat.S754_zero _ => Some 0
  | SpecFloat.S754_finite s m e => Some ((if s then -1 else 1) * shift_floor (shift_floor (Z.pos m) (e + 1) + 1) (-1))
  | _ => None
  end.

(** ** Log levels *)

Inductive LogLevel : Set := FATAL | CRITICAL | ERROR | WARNING | NOTICE | INFO | DEBUG | TRACE.

Definition LogLevel_value (l : LogLevel) : Z :=
  match l with
  | FATAL => 1 | CRITICAL => 2 | ERROR => 3 | WARNING => 4 | NOTICE => 5 | INFO => 6 | DEBUG => 7 | TRACE => 8
  end.

Definition GetLogLevelName (level : LogLevel) : str :=
  match level with
  | TRACE => lit "TRACE" | DEBUG => lit "DEBUG" | INFO => lit "INFO" | WARNING => lit "WARNING"
  | ERROR => lit "ERROR" | FATAL => lit "FATAL" | CRITICAL | NOTICE => lit "UNKNOWN"
  end.

Definition GetLogLevelShortName (level : LogLevel) : str :=
  match level with
  | TRACE => lit "T" | DEBUG => lit "D" | INFO => lit "I" | WARNING => lit "W"
  | ERROR => lit "E" | FATAL => lit "F" | CRITICAL | NOTICE => lit "U"
  end.

Definition all_levels : list LogLevel := [TRACE; DEBUG; INFO; WARNING; ERROR; FATAL].

Definition CheckLogLevel (current level : LogLevel) : bool := LogLevel_value level <=? LogLevel_value current.

Definition ParseLogLevelName (name : str) : option LogLevel :=
  List.find (fun l => bool_decide (GetLogLevelName l = map toupper name)) all_levels.

(** ** Environment variables *)

(** A parser of a value: [None] throws, [Some None] fails. *)
Definition EnvParser (T : Type) : Type := str -> option (option T).

Definition ParseBool : EnvParser bool := fun s =>
  match s with
  | [] => Some None
  | _ => Some (Some (bool_decide (map tolower s = lit "true")))
  end.

Definition ParseStringList : EnvParser (list str) := fun s => Some (Some (SplitStringView s ",")).

Definition ParseString : EnvParser str := fun s => Some (Some s).

(** [std::stoi]. *)
Definition stoi (s : str) : option Z :=
  match stol s with
  | Some v => if (- 2 ^ 31 <=? v) && (v <? 2 ^ 31) then Some v else None
  | None => None
  end.

Definition ParseInt : EnvParser Z := fun s => match stoi s with Some v => Some (Some v) | None => None end.

Definition ParsePath : EnvParser str := fun s => Some (Some s).

(** JSON of jsoncpp: [operator[]], [empty], conversions ([None]: it throws) and [Reader::parse]. *)
Class Json := {
  json : Type;
  json_null : json;
  json_parse : str -> json + str;
  json_get : json -> str -> option json;
  json_empty : json -> bool;
  asString : json -> option str;
  asInt : json -> option Z;
  asBool : json -> option bool
}.

(** [std::stod], [std::stof], the defaults of the libraries and whether the build is for s390x; the
    result of a conversion outside the range of [uint64_t] is arbitrary. *)
Class Platform := {
  s390x : bool;
  stod : str -> option sfloat;
  stof : str -> option sfloat;
  DEFAULT_CPU_FOR_EACH_BUFFER : Z;
  DEFAULT_DRIVER_BUFFER_BYTES_DIM : Z;
  out_of_range : sfloat -> Z;
  getaddrinfo : str -> option sockaddr_storage
}.

Section Env.
Context `{Host} `{Platform}.

Definition ParseFloat : EnvParser sfloat := fun s => match stof s with Some v => Some (Some v) | None => None end.

(** [EnvVar::tryValue], with the default value; [None] throws. *)
Definition tryValue {T} (parse : EnvParser T) (name : str) (def : option T) : option (option T) :=
  match getenv name with
  | None => Some def
  | Some env_val =>
      match parse env_val with
      | None => None
      | Some None => Some def
      | Some (Some val) => Some (Some val)
      end
  end.

Definition hasValue {T} (parse : EnvParser T) (name : str) (def : option T) : option bool :=
  (let! v := tryValue parse name def in Some (match v with Some _ => true | None => false end))%col.

(** [value()] throws without a value. *)
Definition value {T} (parse : EnvParser T) (name : str) (def : option T) : option T :=
  (let! v := tryValue parse name def in v)%col.

Definition valueOr {T} (parse : EnvParser T) (name : str) (alt : T) : option T :=
  (let! v := tryValue parse name None in Some (match v with Some v => v | None => alt end))%col.
End Env.

(** ** Command-line options *)

Definition CheckGrpcServer_view (server : str) : ArgStatus * str :=
  match server with
  | [] => (ARG_IGNORE, lit "Missing grpc list. Cannot configure GRPC client. Reverting to stdout.")
  | _ =>
      if (255 <? length server)%nat then (ARG_ILLEGAL, lit "GRPC Server addr too long (> 255)")
      else
        match find_char ":" server with
        | None => (ARG_ILLEGAL, lit "Malformed grpc server addr")
        | Some marker =>
            match take marker server with
            | [] => (ARG_ILLEGAL, lit "Missing grpc host")
            | _ =>
                match drop (marker + 1) server with
                | [] => (ARG_ILLEGAL, lit "Missing grpc port")
                | _ => (ARG_OK, [])
                end
            end
        end
  end.

Definition CheckGrpcServer (server : option str) : ArgStatus * str :=
  match server with
  | None => (ARG_IGNORE, lit "Missing grpc list. Cannot configure GRPC client. Reverting to stdout.")
  | Some server => CheckGrpcServer_view server
  end.

Record TlsConfig := mkTlsConfig { ca_ : str; clientCert_ : str; clientKey_ : str }.

Definition TlsConfig_IsValid (c : TlsConfig) : bool :=
  negb (bool_decide (ca_ c = [])) && negb (bool_decide (clientCert_ c = [])) && negb (bool_decide (clientKey_ c = [])).

Section Args.
Context `{Json}.

Definition CheckConfiguration (config : option str) : ArgStatus * str * json :=
  match config with
  | None => (ARG_IGNORE, lit "Missing collector config", json_null)
  | Some config =>
      match json_parse config with
      | inr errors =>
          (ARG_ILLEGAL, lit "A valid JSON configuration is required to start the collector: " ++ errors, json_null)
      | inl root => (ARG_OK, [], root)
      end
  end.

Record CollectorArgs := mkCollectorArgs {
  collectorConfig : json; collectionMethod : option CollectionMethod; args_message : str; grpcServer : str
}.

Definition CollectorArgs_init : CollectorArgs := mkCollectorArgs json_null None [] [].

Definition set_message (a : CollectorArgs) (msg : bool) (m : str) : CollectorArgs :=
  mkCollectorArgs (collectorConfig a) (collectionMethod a) (if msg then m else args_message a) (grpcServer a).

Definition checkCollectionMethod (a : CollectorArgs) (arg : option str) (msg : bool) : ArgStatus * CollectorArgs :=
  match arg with
  | None => (ARG_OK, set_message a msg (lit "Missing collection method, using default."))
  | Some arg =>
      (ARG_OK, mkCollectorArgs (collectorConfig a) (Some (ParseCollectionMethod arg)) (args_message a) (grpcServer a))
  end.

Definition checkCollectorConfig (a : CollectorArgs) (arg : option str) (msg : bool) : ArgStatus * CollectorArgs :=
  let '(status, message, root) := CheckConfiguration arg in
  let a := set_message a msg message in
  (status,
   if bool_decide (status = ARG_OK)
   then mkCollectorArgs root (collectionMethod a) (args_message a) (grpcServer a) else a).

Definition checkGRPCServer (a : CollectorArgs) (arg : option str) (msg : bool) : ArgStatus * CollectorArgs :=
  let '(status, m) := CheckGrpcServer arg in
  let a :=
    match status, arg with
    | ARG_OK, Some server => mkCollectorArgs (collectorConfig a) (collectionMethod a) (args_message a) server
    | _, _ => a
    end in
  (status, set_message a msg m).

End Args.

(** ** [CollectorConfig] *)

Definition kTurnOffScrape : bool := false.
Definition kScrapeInterval : Z := 30.
Definition kCollectionMethod : CollectionMethod := CORE_BPF.
Definition kEnableProcessesListeningOnPorts : bool := true.
Definition kSyscalls `{Platform} : list str :=
  map lit ["accept"; "accept4"; "chdir"; "clone"; "clone3"; "close"; "connect"; "execve"; "fchdir"; "fork"; "getsockopt";
           "procexit"; "procinfo"; "setresgid"; "setresuid"; "setgid"; "setuid"; "shutdown"; "socket"]%string
  ++ (if s390x then [lit "syscall"] else [])
  ++ [lit "vfork"].
Definition kSendRecvSyscalls : list str :=
  map lit ["sendto"; "sendmsg"; "sendmmsg"; "recvfrom"; "recvmsg"; "recvmmsg"]%string.
Definition kIgnoredL4ProtoPortPairs : list L4ProtoPortPair := [(L4Proto.UDP, 9)].

(** The settings read from a boolean variable each. *)
Record ConfigFlags := mkConfigFlags {
  enable_processes_listening_on_ports_ : bool;
  import_users_ : bool;
  collect_connection_status_ : bool;
  enable_external_ips_ : bool;
  enable_connection_stats_ : bool;
  enable_detailed_metrics_ : bool;
  enable_runtime_config_ : bool;
  use_docker_ce_ : bool;
  use_podman_ce_ : bool;
  enable_introspection_ : bool;
  track_send_recv_ : bool;
  disable_process_arguments_ : bool
}.

(** The settings the user's options decide; [log_level_] is the level of the logging library. *)
Record UserConfig := mkUserConfig {
  log_level_ : LogLevel;
  scrape_interval_ : Z;
  turn_off_scrape_ : bool;
  collection_method_ : CollectionMethod;
  tls_config_ : option TlsConfig;
  grpc_server_ : option str
}.

Record NetworkConfig := mkNetworkConfig {
  disable_network_flows_ : bool;
  scrape_listen_endpoints_ : bool;
  ignored_l4proto_port_pairs_ : list L4ProtoPortPair;
  ignored_networks_ : list IPNet;
  non_aggregated_networks_ : list IPNet;
  enable_core_dump_ : bool
}.

Record AfterglowConfig := mkAfterglowConfig { afterglow_period_micros_ : Z; enable_afterglow_ : bool }.

Record StatsConfig := mkStatsConfig {
  connection_stats_quantiles_ : list sfloat; connection_stats_error_ : sfloat; connection_stats_window_ : Z
}.

Record SinspConfig := mkSinspConfig {
  sinsp_cpu_per_buffer_ : Z; sinsp_buffer_size_ : Z; sinsp_total_buffer_size_ : Z; sinsp_thread_cache_size_ : Z
}.

Record CollectorConfig := mkCollectorConfig {
  flags : ConfigFlags;
  syscalls_ : list str;
  host_proc_ : str;
  user : UserConfig;
  networks : NetworkConfig;
  afterglow : AfterglowConfig;
  stats : StatsConfig;
  sinsp : SinspConfig;
  host_config_ : HostConfig;
  max_connections_per_minute_ : Z;
  runtime_config_ : option message
}.

Definition SECOND : Z := 1000000.
Definition max_afterglow_period_micros : Z := 300 * SECOND.

Section Config.
Context `{HostEndian} `{Host} `{Platform} `{Json}.

Definition bool_var (name : string) (def : bool) : option bool := value ParseBool (lit name) (Some def).

Definition init_flags : option ConfigFlags :=
  (let! ports := bool_var "ROX_PROCESSES_LISTENING_ON_PORT" kEnableProcessesListeningOnPorts in
   let! users := bool_var "ROX_COLLECTOR_SET_IMPORT_USERS" false in
   let! status := bool_var "ROX_COLLECT_CONNECTION_STATUS" true in
   let! external := bool_var "ROX_COLLECTOR_EXTERNAL_IPS_ENABLE" false in
   let! stats := bool_var "ROX_COLLECTOR_ENABLE_CONNECTION_STATS" true in
   let! metrics := bool_var "ROX_COLLECTOR_ENABLE_DETAILED_METRICS" true in
   let! runtime := bool_var "ROX_COLLECTOR_RUNTIME_CONFIG_ENABLED" false in
   let! docker := bool_var "ROX_COLLECTOR_CE_USE_DOCKER" false in
   let! podman := bool_var "ROX_COLLECTOR_CE_USE_PODMAN" false in
   let! introspection := bool_var "ROX_COLLECTOR_INTROSPECTION_ENABLE" false in
   let! send_recv := bool_var "ROX_COLLECTOR_TRACK_SEND_RECV" false in
   let! no_args := bool_var "ROX_COLLECTOR_NO_PROCESS_ARGUMENTS" false in
   Some (mkConfigFlags ports users status external stats metrics runtime docker podman introspection send_recv no_args))%col.

Definition init_syscalls (track_send_recv : bool) : list str :=
  kSyscalls ++ (if track_send_recv then kSendRecvSyscalls else []).

(** The JSON of the command line, or that of the environment when it is empty. *)
Definition user_json (args : CollectorArgs) : option json :=
  (let config := collectorConfig args in
   let! has := hasValue ParseString (lit "COLLECTOR_CONFIG") None in
   if json_empty config && has then
     let! text := value ParseString (lit "COLLECTOR_CONFIG") None in
     let '(status, _, root) := CheckConfiguration (Some text) in
     Some (if bool_decide (status = ARG_OK) then root else config)
   else Some config)%col.

(** A setting: the JSON member, else the variable, else what it was. *)
Definition setting {A T} (config : json) (member : string) (conv : json -> option A)
    (parse : EnvParser T) (var : string) (of_var : T -> A) (old : A) : option A :=
  (let! m := json_get config (lit member) in
   if negb (json_empty m) then conv m
   else
     let! v := tryValue parse (lit var) None in
     Some (match v with Some v => of_var v | None => old end))%col.

Definition set_log_level (old : LogLevel) (level : str) : LogLevel :=
  match ParseLogLevelName level with Some l => l | None => old end.

Definition user_tls (config : json) : option TlsConfig :=
  (let! tls := json_get config (lit "tlsConfig") in
   if negb (json_empty tls) then
     let! ca := (let! m := json_get tls (lit "caCertPath") in asString m) in
     let! cert := (let! m := json_get tls (lit "clientCertPath") in asString m) in
     let! key := (let! m := json_get tls (lit "clientKeyPath") in asString m) in
     Some (mkTlsConfig ca cert key)
   else
     let! base := tryValue ParsePath (lit "ROX_COLLECTOR_TLS_CERTS") None in
     let def file := match base with Some b => path_append b (lit file) | None => [] end in
     let! ca := valueOr ParsePath (lit "ROX_COLLECTOR_TLS_CA") (def "ca.pem"%string) in
     let! cert := valueOr ParsePath (lit "ROX_COLLECTOR_TLS_CLIENT_CERT") (def "cert.pem"%string) in
     let! key := valueOr ParsePath (lit "ROX_COLLECTOR_TLS_CLIENT_KEY") (def "key.pem"%string) in
     Some (mkTlsConfig ca cert key))%col.

Definition user_grpc (args : CollectorArgs) : option (option str) :=
  (match grpcServer args with
   | [] =>
       let! v := tryValue ParseString (lit "GRPC_SERVER") None in
       Some (match v with
             | Some server => if bool_decide ((CheckGrpcServer_view server).1 = ARG_OK) then Some server else None
             | None => None
             end)
   | server => Some (Some server)
   end)%col.

Definition init_user (old : UserConfig) (args : option CollectorArgs) : option UserConfig :=
  (match args with
   | None => Some old
   | Some args =>
       let! config := user_json args in
       let! level := setting config "logLevel" (fun m => let! s := asString m in Some (set_log_level (log_level_ old) s))
                       ParseString "ROX_COLLECTOR_LOG_LEVEL" (set_log_level (log_level_ old)) (log_level_ old) in
       let! interval := setting config "scrapeInterval" asInt ParseInt "ROX_COLLECTOR_SCRAPE_INTERVAL" id (scrape_interval_ old) in
       let! off := setting config "turnOffScrape" asBool ParseBool "ROX_COLLECTOR_SCRAPE_DISABLED" id (turn_off_scrape_ old) in
       let! method :=
         match collectionMethod args with
         | Some cm => Some cm
         | None =>
             let! v := tryValue ParseString (lit "COLLECTION_METHOD") None in
             Some (match v with Some v => ParseCollectionMethod v | None => collection_method_ old end)
         end in
       let! tls := user_tls config in
       let! grpc := user_grpc args in
       Some (mkUserConfig level interval off method (Some tls) (match grpc with Some g => Some g | None => grpc_server_ old end))
   end)%col.

(** The networks of a list: invalid ones are left out. *)
Definition parse_networks (strs : list str) : list IPNet :=
  omap (fun s => match s with [] => None | _ => IPNet_parse getaddrinfo s end) strs.

Definition init_networks : option NetworkConfig :=
  (let! no_flows := bool_var "ROX_COLLECTOR_DISABLE_NETWORK_FLOWS" false in
   let! ports := bool_var "ROX_NETWORK_GRAPH_PORTS" true in
   let! drop_ignored := bool_var "ROX_NETWORK_DROP_IGNORED" true in
   let! ignored := value ParseStringList (lit "ROX_IGNORE_NETWORKS") (Some [lit "169.254.0.0/16"; lit "fe80::/10"]) in
   let! non_aggregated := value ParseStringList (lit "ROX_NON_AGGREGATED_NETWORKS") (Some []) in
   let! core_dump := bool_var "ENABLE_CORE_DUMP" false in
   Some (mkNetworkConfig no_flows ports (if drop_ignored then kIgnoredL4ProtoPortPairs else [])
           (parse_networks ignored) (parse_networks non_aggregated) core_dump))%col.

(** [static_cast<uint64_t>] of a [float], then the conversion to [int64_t]. *)
Definition float_to_int64 (x : sfloat) : Z :=
  to_signed 64
    (match sf_trunc x with
     | Some z => if (0 <=? z) && (z <? 2 ^ 64) then z else out_of_range x
     | None => out_of_range x
     end).

(** [300.0] as a [float]. *)
Definition default_afterglow : sfloat := float_of_Z 300.

Definition HandleAfterglowEnvVars (old : AfterglowConfig) : option AfterglowConfig :=
  (let! period := value ParseFloat (lit "ROX_AFTERGLOW_PERIOD") (Some default_afterglow) in
   let micros := float_to_int64 (float_mul period (float_of_Z SECOND)) in
   if micros <? 0 then Some (mkAfterglowConfig micros (enable_afterglow_ old))
   else if micros =? 0 then Some (mkAfterglowConfig micros (enable_afterglow_ old))
   else
     let micros := if max_afterglow_period_micros <? micros then max_afterglow_period_micros else micros in
     let! enable := bool_var "ROX_ENABLE_AFTERGLOW" true in
     Some (mkAfterglowConfig micros enable))%col.

(** A variable read with a conversion whose exceptions are caught. *)
Definition caught {A} (var : string) (conv : str -> option A) (def : A) : A :=
  match getenv (lit var) with
  | Some s => match conv s with Some v => v | None => def end
  | None => def
  end.

(** [double] literals by numerator and denominator. *)
Definition literal (n d : Z) : sfloat := double_div (double_of_Z n) (double_of_Z d).

Definition HandleConnectionStatsEnvVars : StatsConfig :=
  mkStatsConfig
    (match getenv (lit "ROX_COLLECTOR_CONNECTION_STATS_QUANTILES") with
     | Some s => omap stod (SplitStringView s ",")
     | None => [literal 50 100; literal 90 100; literal 95 100]
     end)
    (caught "ROX_COLLECTOR_CONNECTION_STATS_ERROR" stod (literal 1 100))
    (caught "ROX_COLLECTOR_CONNECTION_STATS_WINDOW" (fun s => wrap 32 <$> stoi s) 60).

Definition HandleSinspEnvVars (old : SinspConfig) : SinspConfig :=
  mkSinspConfig
    (caught "ROX_COLLECTOR_SINSP_CPU_PER_BUFFER" (fun s => wrap 32 <$> stoi s) DEFAULT_CPU_FOR_EACH_BUFFER)
    (caught "ROX_COLLECTOR_SINSP_BUFFER_SIZE" (fun s => wrap 32 <$> stol s) DEFAULT_DRIVER_BUFFER_BYTES_DIM)
    (caught "ROX_COLLECTOR_SINSP_TOTAL_BUFFER_SIZE" (fun s => wrap 32 <$> stol s) (sinsp_total_buffer_size_ old))
    (caught "ROX_COLLECTOR_SINSP_THREAD_CACHE_SIZE" (fun s => wrap 32 <$> stol s) (sinsp_thread_cache_size_ old)).

(** [GetCollectionMethod]: the host's overrides the user's. *)
Definition GetCollectionMethod (hc : HostConfig) (method : CollectionMethod) : CollectionMethod :=
  match hc_collection_method hc with Some m => m | None => method end.

(** The state of a new [CollectorConfig], with its members' initialisers. *)
Definition default_user : UserConfig := mkUserConfig INFO kScrapeInterval kTurnOffScrape kCollectionMethod None None.
Definition default_afterglow_config : AfterglowConfig := mkAfterglowConfig 300000000 false.
Definition default_sinsp : SinspConfig := mkSinspConfig 0 0 (512 * 1024 * 1024) 32768.

(** [InitCollectorConfig] of a new configuration; [garbage] is what [HostConfig] holds at first. *)
Definition InitCollectorConfig (host : HostInfo) (args : option CollectorArgs) (garbage : Z)
  : option (CollectorConfig * HostInfo) :=
  (let! flags := init_flags in
   let! user := init_user default_user args in
   let! networks := init_networks in
   let! afterglow := HandleAfterglowEnvVars default_afterglow_config in
   let stats := HandleConnectionStatsEnvVars in
   let sinsp := HandleSinspEnvVars default_sinsp in
   let! (host, hc) := ProcessHostHeuristics host (collection_method_ user) garbage in
   Some (mkCollectorConfig flags (init_syscalls (track_send_recv_ flags)) (GetHostPath (lit "/proc")) user networks
           afterglow stats sinsp hc kMaxConnectionsPerMinute None, host))%col.

(** ** What the configuration computes *)

(** [unsigned int] of a [float] that was rounded up; [None] outside the range. *)
Definition to_unsigned (x : option Z) : option Z :=
  match x with Some z => if (0 <=? z) && (z <? 2 ^ 32) then Some z else None | None => None end.

(** [GetSinspBufferSize]: [None] is a conversion outside the range of [unsigned int]. *)
Definition GetSinspBufferSize (c : SinspConfig) (hc : HostConfig) : option Z :=
  if sinsp_total_buffer_size_ c =? 0 then Some (sinsp_buffer_size_ c)
  else if sinsp_cpu_per_buffer_ c =? 0 then Some (sinsp_buffer_size_ c)
  else if hc_num_possible_cpus hc =? 0 then Some (sinsp_buffer_size_ c)
  else
    (let! n_buffers := to_unsigned (sf_ceil (float_div (float_of_Z (hc_num_possible_cpus hc))
                                                       (float_of_Z (sinsp_cpu_per_buffer_ c)))) in
     let! max_buffer_size := to_unsigned (sf_ceil (float_div (float_of_Z (sinsp_total_buffer_size_ c))
                                                             (float_of_Z n_buffers))) in
     let maximum_power_of_two_exponent := Z.max 14 (Z.log2 max_buffer_size) in
     Some (Z.min (sinsp_buffer_size_ c) (Z.shiftl 1 maximum_power_of_two_exponent)))%col.

(** [PerContainerRateLimit]: single precision times single precision, then a division in double precision. *)
Definition PerContainerRateLimit (c : CollectorConfig) : option Z :=
  let max := MaxConnectionsPerMinute (runtime_config_ c) (max_connections_per_minute_ c) in
  sf_round (double_div (float_mul (float_of_Z max) (float_of_Z (scrape_interval_ (user c)))) (double_of_Z 60)).

(** [createChannel]: whether the channel uses TLS. *)
Definition uses_tls (u : UserConfig) : bool :=
  match tls_config_ u with Some t => TlsConfig_IsValid t | None => false end.

(** ** The start of [main] *)

Definition set_runtime_config (c : CollectorConfig) (r : option message) : CollectorConfig :=
  mkCollectorConfig (flags c) (syscalls_ c) (host_proc_ c) (user c) (networks c) (afterglow c) (stats c) (sinsp c)
    (host_config_ c) (max_connections_per_minute_ c) r.

Context {W : Type} `{Kernel W} `{FileSystem W} `{Yaml} (config_fields : list field).

(** The configuration of the options and variables, then that of the file: an invalid file is fatal. *)
Definition startup (k : W) (host : HostInfo) (args : CollectorArgs) (garbage inotify_fd : Z)
  : option (CollectorConfig * HostInfo * W) :=
  (let! (c, host) := InitCollectorConfig host (Some args) garbage in
   let loader := ConfigLoader_make (runtime_config_ c) (getenv (lit "ROX_COLLECTOR_CONFIG_PATH")) inotify_fd in
   let! (result, loader, k) := LoadConfiguration config_fields k loader None in
   match result with
   | PARSE_ERROR => None
   | SUCCESS | FILE_NOT_FOUND => Some (set_runtime_config c (config_ loader), host, k)
   end)%col.
End Config.

(** ** Lemmas *)

Lemma CheckGrpcServer_OK s :
  (CheckGrpcServer_view s).1 = ARG_OK <->
  exists host port, s = host ++ ":"%char :: port /\ ~ In ":"%char host /\ host <> [] /\ port <> []
                    /\ (length s <= 255)%nat.
Proof.
  destruct s as [|c s]; [split; [done|by intros ([] & ? & ? & ?)]|]. set (l := c :: s).
  replace (CheckGrpcServer_view l) with
    (if (255 <? length l)%nat then (ARG_ILLEGAL, lit "GRPC Server addr too long (> 255)")
     else match find_char ":" l with
          | None => (ARG_ILLEGAL, lit "Malformed grpc server addr")
          | Some marker =>
              match take marker l, drop (marker + 1) l with
              | [], _ => (ARG_ILLEGAL, lit "Missing grpc host")
              | _, [] => (ARG_ILLEGAL, lit "Missing grpc port")
              | _, _ => (ARG_OK, [])
              end
          end).
  2: { unfold CheckGrpcServer_view, l. destruct (255 <? _)%nat; [done|]. destruct (find_char _ _) as [n|]; [|done].
       by destruct (take n (c :: s)), (drop (n + 1) (c :: s)). }
  destruct (Nat.ltb_spec 255 (length l)) as [Hlen|Hlen]; [split; [done|intros (? & ? & _ & _ & _ & _ & ?); lia]|].
  destruct (find_char ":" l) as [n|] eqn:E.
  - pose proof E as [El Hin]%find_char_Some. apply take_drop_middle in El as Es.
    rewrite Nat.add_1_r. split.
    + intros Hok. exists (take n l), (drop (S n) l). split; [by symmetry|]. split; [exact Hin|].
      destruct (take n l), (drop (S n) l); done.
    + intros (host & port & Eh & Hh & Hne & Hp & _). rewrite Eh, find_char_app in E by done. injection E as <-.
      rewrite Eh, take_app_length, drop_app_ge, Nat.sub_succ_l, Nat.sub_diag by lia. cbn [drop].
      by destruct host, port.
  - split; [done|]. intros (host & port & Eh & _). apply find_char_None in E. destruct E. rewrite Eh.
    apply in_or_app. right. by left.
Qed.

Section ConfigLemmas.
Context `{HostEndian} `{Host} `{Platform} `{Json}.

Lemma Afterglow_bounds old a :
  enable_afterglow_ old = false -> HandleAfterglowEnvVars old = Some a ->
  afterglow_period_micros_ a <= max_afterglow_period_micros
  /\ (enable_afterglow_ a = true -> 0 < afterglow_period_micros_ a).
Proof.
  intros Ho. unfold HandleAfterglowEnvVars. destruct (value ParseFloat _ _) as [period|]; [|done].
  set (micros := float_to_int64 _). unfold max_afterglow_period_micros, SECOND.
  destruct (Z.ltb_spec micros 0); [intros [= <-]; cbn; split; [lia|congruence]|].
  destruct (Z.eqb_spec micros 0); [intros [= <-]; cbn; split; [lia|congruence]|].
  destruct (bool_var _ _) as [b|]; [|done]. intros [= <-]. cbn.
  destruct (Z.ltb_spec (300 * 1000000) micros); split; lia.
Qed.

Lemma log2_unsigned n : 0 <= n < 2 ^ 32 -> 0 <= Z.log2 n <= 31.
Proof.
  intros Hn. split; [apply Z.log2_nonneg|]. destruct (Z.eq_dec n 0) as [->|]; [by vm_compute|].
  apply Z.lt_succ_r. apply Z.log2_lt_pow2; lia.
Qed.

Lemma SinspBufferSize_bounds c hc r :
  GetSinspBufferSize c hc = Some r ->
  r <= sinsp_buffer_size_ c /\ (r = sinsp_buffer_size_ c \/ exists k, 14 <= k <= 31 /\ r = 2 ^ k).
Proof.
  unfold GetSinspBufferSize. destruct (_ =? 0); [intros [= <-]; split; [lia|by left]|].
  destruct (_ =? 0); [intros [= <-]; split; [lia|by left]|]. destruct (_ =? 0); [intros [= <-]; split; [lia|by left]|].
  destruct (to_unsigned (sf_ceil (float_div (float_of_Z (hc_num_possible_cpus hc)) _))) as [n|]; [|done].
  destruct (to_unsigned _) as [m|] eqn:Em; [|done]. intros [= <-]. split; [apply Z.le_min_l|].
  assert (0 <= m < 2 ^ 32) as Hm.
  { unfold to_unsigned in Em. destruct (sf_ceil _) as [z|]; [|done]. destr_if; [|done]. injection Em as <-. b2p. lia. }
  apply log2_unsigned in Hm. rewrite Z.shiftl_mul_pow2, Z.mul_1_l by lia.
  destruct (Z.le_ge_cases (sinsp_buffer_size_ c) (2 ^ Z.max 14 (Z.log2 m))); [left; lia|right].
  exists (Z.max 14 (Z.log2 m)). lia.
Qed.

(** The address of Sensor that options and variables give is one the check accepts. *)
Lemma user_grpc_accepted args g :
  (grpcServer args = [] \/ (CheckGrpcServer_view (grpcServer args)).1 = ARG_OK) ->
  user_grpc args = Some (Some g) -> (CheckGrpcServer_view g).1 = ARG_OK.
Proof.
  intros Ha. unfold user_grpc. destruct (grpcServer args) as [|c s] eqn:E.
  - destruct (tryValue _ _ _) as [[server|]|]; [|done..]. case_bool_decide; [|done]. by intros [= <-].
  - intros [= <-]. by destruct Ha.
Qed.

Lemma init_user_grpc old args u g :
  grpc_server_ old = None -> (grpcServer args = [] \/ (CheckGrpcServer_view (grpcServer args)).1 = ARG_OK) ->
  init_user old (Some args) = Some u -> grpc_server_ u = Some g -> (CheckGrpcServer_view g).1 = ARG_OK.
Proof.
  intros Ho Ha Hu Hg. unfold init_user in Hu. destruct (user_json args) as [config|]; [|done].
  destruct (setting config "logLevel" _ _ _ _ _) as [level|]; [|done].
  destruct (setting config "scrapeInterval" _ _ _ _ _) as [interval|]; [|done].
  destruct (setting config "turnOffScrape" _ _ _ _ _) as [off|]; [|done].
  match type of Hu with context [match ?x with Some method => _ | None => None end] => destruct x as [method|]; [|done] end.
  destruct (user_tls config) as [tls|]; [|done]. destruct (user_grpc args) as [grpc|] eqn:E; [|done].
  injection Hu as <-. cbn [grpc_server_] in Hg. destruct grpc as [g'|]; [|congruence]. injection Hg as ->.
  by eapply user_grpc_accepted.
Qed.

(** The address the command line holds was checked. *)
Lemma checkGRPCServer_ok a arg msg :
  let a' := (checkGRPCServer a arg msg).2 in
  (grpcServer a = [] \/ (CheckGrpcServer_view (grpcServer a)).1 = ARG_OK) ->
  grpcServer a' = [] \/ (CheckGrpcServer_view (grpcServer a')).1 = ARG_OK.
Proof.
  cbv zeta. intros Ha. unfold checkGRPCServer. destruct arg as [server|]; [|done]. cbn [CheckGrpcServer].
  destruct (CheckGrpcServer_view server) as [[] m] eqn:E; cbn; [done| |done..]. right. by rewrite E.
Qed.

(** What holds of every configuration collector starts with. *)
Record config_ok (c : CollectorConfig) : Prop := {
  ck_afterglow : enable_afterglow_ (afterglow c) = true ->
                 0 < afterglow_period_micros_ (afterglow c) <= max_afterglow_period_micros;
  ck_grpc g : grpc_server_ (user c) = Some g ->
              exists host port, g = host ++ ":"%char :: port /\ ~ In ":"%char host /\ host <> [] /\ port <> []
                                /\ (length g <= 255)%nat;
  ck_host : exists v os d, KernelVersion_FromHost = Some v /\ GetOSReleaseValue (lit "ID") = Some os
              /\ distro_ref = Some d /\ host_supported v os d (collection_method_ (user c)) = true;
  ck_cpus : host_config_ c = mkHostConfig None (wrap 32 NumPossibleCPU)
}.

Lemma InitCollectorConfig_ok h args garbage c h' :
  coherent h -> (grpcServer args = [] \/ (CheckGrpcServer_view (grpcServer args)).1 = ARG_OK) ->
  InitCollectorConfig h (Some args) garbage = Some (c, h') -> config_ok c /\ runtime_config_ c = None.
Proof.
  intros Hc Ha E. unfold InitCollectorConfig in E.
  destruct init_flags as [flags|]; [|done]. destruct (init_user default_user (Some args)) as [u|] eqn:Eu; [|done].
  destruct init_networks as [nets|]; [|done].
  destruct (HandleAfterglowEnvVars default_afterglow_config) as [ag|] eqn:Eag; [|done].
  pose proof (ProcessHostHeuristics_answers h (collection_method_ u) garbage Hc) as Hh.
  destruct (ProcessHostHeuristics h (collection_method_ u) garbage) as [[h1 hc]|] eqn:Ep; [|done].
  injection E as <- <-. split; [|done]. apply Afterglow_bounds in Eag as [Hmax Hpos]; [|done].
  destruct KernelVersion_FromHost as [v|] eqn:Ev; [|done].
  destruct (GetOSReleaseValue (lit "ID")) as [os|] eqn:Eos; [|done]. destruct distro_ref as [d|] eqn:Ed; [|done].
  destruct (host_supported v os d (collection_method_ u)) eqn:Es; [|done].
  destruct Hh as (h2 & [= <- ->] & _). split; cbn [user afterglow host_config_]; [| |by exists v, os, d|done].
  - intros He. by split; [apply Hpos|].
  - intros g Hg. apply CheckGrpcServer_OK. by apply (init_user_grpc default_user args u g).
Qed.

(** The runtime configuration is what the file at the configured path holds: there is none when there
    is no file, and otherwise the file was read, is a document the parser accepts, and the configuration
    is the defaults with its values. *)
Definition runtime_from_file {W} `{FileSystem W} `{Yaml} (fs : list field) (k : W) (runtime_config : option message) : Prop :=
  let p := ParserYaml_make (match getenv (lit "ROX_COLLECTOR_CONFIG_PATH") with
                            | Some path => path
                            | None => lit "/etc/stackrox/runtime_config.yaml"
                            end) in
  let '(ex, k1) := fs_exists k (file_ p) in
  match ex with
  | None => False
  | Some false => runtime_config = None
  | Some true => exists n m, (LoadFile k1 (file_ p)).1 = Loaded n /\ loaded_from p fs n m /\ runtime_config = Some m
  end.
End ConfigLemmas.

(** ** The theorems *)

(** Every configuration collector starts with is valid.  When [main] gets past its configuration, the host
    supports the collection method in force; the afterglow period is positive and at most five minutes if
    afterglow is on; the address of Sensor, from the command line or the environment, is a host, a colon and a
    port, neither of them empty; and the runtime configuration is absent if there is no file at the configured path
    and otherwise the defaults with the values of the document read from it, which the parser accepted. *)
Theorem startup_valid `{HostEndian} `{Host} `{Platform} `{Json} {W} `{Kernel W} `{FileSystem W} `{YamlLaws}
    (fs : list field) (k : W) (h : HostInfo) (args : CollectorArgs) (garbage fd : Z) (c : CollectorConfig)
    (h' : HostInfo) (k' : W) :
  config_descriptor fs -> coherent h ->
  (grpcServer args = [] \/ (CheckGrpcServer_view (grpcServer args)).1 = ARG_OK) ->
  startup fs k h args garbage fd = Some (c, h', k') ->
  config_ok c /\ runtime_from_file fs k (runtime_config_ c).
Proof.
  intros Hfs Hc Ha E. unfold startup in E.
  destruct (InitCollectorConfig h (Some args) garbage) as [[c1 h1]|] eqn:Ei; [|done].
  apply InitCollectorConfig_ok in Ei as [Hok Hr]; [|done..]. rewrite Hr in E.
  set (loader := ConfigLoader_make None _ fd) in E.
  pose proof (LoadConfiguration_answers fs Hfs k loader eq_refl) as Hl. cbv zeta in Hl.
  unfold runtime_from_file. cbv zeta. fold (parser_ loader).
  replace (ParserYaml_make _) with (parser_ loader) by (unfold loader, ConfigLoader_make; by destruct (getenv _)).
  destruct (fs_exists k _) as [[[]|] k1]; destruct (LoadFile k1 _) as [[n|e|e|] k2] eqn:El; cbn [fst];
    try (rewrite Hl in E; cbn in E; first [discriminate E | injection E as <- <- <-; split; [by destruct Hok|done]]).
  destruct Hl as [[_ El']|(m & Hm & El')]; rewrite El' in E; [done|]. injection E as <- <- <-.
  split; [by destruct Hok|]. by exists n, m.
Qed.

(** The address of Sensor is accepted exactly when it is a host, a colon and a port, neither of them empty, in
    at most 255 characters; the host is what precedes the first colon. *)
Theorem CheckGrpcServer_spec (s : str) :
  (CheckGrpcServer (Some s)).1 = ARG_OK <->
  exists host port, s = host ++ ":"%char :: port /\ ~ In ":"%char host /\ host <> [] /\ port <> []
                    /\ (length s <= 255)%nat.
Proof. apply CheckGrpcServer_OK. Qed.

(** The size of a ring buffer is never larger than the size that was asked for, and where it differs from it,
    it is a power of two of at least four pages (2^14 bytes) and at most 2^31, as the driver requires, whatever the number of
    processors, the processors per buffer and the total limit. *)
Theorem SinspBufferSize_spec (c : SinspConfig) (hc : HostConfig) (r : Z) :
  GetSinspBufferSize c hc = Some r ->
  r <= sinsp_buffer_size_ c /\ (r = sinsp_buffer_size_ c \/ exists k, 14 <= k <= 31 /\ r = 2 ^ k).
Proof. apply SinspBufferSize_bounds. Qed.

(** ** Witnesses *)

Module ConfigWitnesses.

(** JSON values that are objects of strings. *)
#[export] Instance objects : Json := {|
  json := list (str * str);
  json_null := [];
  json_parse _ := inr (lit "not JSON");
  json_get j name := match List.find (fun e => bool_decide (e.1 = name)) j with Some e => Some [([], e.2)] | None => Some [] end;
  json_empty j := bool_decide (j = []);
  asString j := match j with [([], s)] => Some s | _ => None end;
  asInt j := match j with [([], s)] => stoi s | _ => None end;
  asBool _ := None
|}.

#[export] Instance platform : Platform := {|
  s390x := false;
  stod _ := None;
  stof _ := None;
  DEFAULT_CPU_FOR_EACH_BUFFER := 1;
  DEFAULT_DRIVER_BUFFER_BYTES_DIM := 8 * 1024 * 1024;
  out_of_range _ := 0;
  getaddrinfo _ := None
|}.

Definition cmdline : CollectorArgs :=
  (checkGRPCServer CollectorArgs_init (Some (lit "sensor.stackrox:443")) false).2.

Definition started : option CollectorConfig :=
  match @startup false Host.Witnesses.rhel86 platform objects LoaderWitnesses.world
          LoaderWitnesses.world_fs ConfigParser.Witnesses.yaml ConfigParser.Witnesses.config_fields
          (LoaderWitnesses.mkWorld 1 None []) HostInfo_instance cmdline 77 3 with
  | Some (c, _, _) => Some c
  | None => None
  end.

Example started_config :
  option_map (fun c => (scrape_interval_ (user c), afterglow_period_micros_ (afterglow c), grpc_server_ (user c),
                        PerContainerRateLimit c, GetSinspBufferSize (sinsp c) (host_config_ c))) started
  = Some (30, 300000000, Some (lit "sensor.stackrox:443"), Some 1024, Some (8 * 1024 * 1024)).
Proof. vm_compute. reflexivity. Qed.
Lemma startup_valid_witness :
  exists c, started = Some c /\ enable_afterglow_ (afterglow c) = true /\ 0 < afterglow_period_micros_ (afterglow c) <= 300000000.
Proof.
  pose proof started_config as Hs.
  assert (option_map (fun c => enable_afterglow_ (afterglow c)) started = Some true) as He by (vm_compute; reflexivity).
  unfold started in *.
  destruct (@startup false Host.Witnesses.rhel86 platform objects LoaderWitnesses.world
          LoaderWitnesses.world_fs ConfigParser.Witnesses.yaml ConfigParser.Witnesses.config_fields
          (LoaderWitnesses.mkWorld 1 None []) HostInfo_instance cmdline 77 3) as [[[c h'] k']|] eqn:E; [|discriminate Hs].
  exists c. injection He as He. split; [reflexivity|]. split; [exact He|].
  destruct (@startup_valid false Host.Witnesses.rhel86 platform objects LoaderWitnesses.world LoaderWitnesses.world_kernel
          LoaderWitnesses.world_fs ConfigParser.Witnesses.yaml ConfigParser.Witnesses.yaml_laws
          ConfigParser.Witnesses.config_fields (LoaderWitnesses.mkWorld 1 None []) HostInfo_instance cmdline 77 3 c h' k'
          LoaderWitnesses.descriptor_ok (@coherent_instance Host.Witnesses.rhel86)
          (or_intror eq_refl) E) as [Hok _].
  exact (ck_afterglow _ Hok He).
Defined.

(** The comment's scenario: 150 processors, a limit of 1Gi and buffers of 8Mi.  The buffers get 4Mi. *)
Definition scenario : SinspConfig := mkSinspConfig 1 (8 * 1024 * 1024) (1024 * 1024 * 1024) 32768.

Example scenario_size : GetSinspBufferSize scenario (mkHostConfig None 150) = Some (4 * 1024 * 1024).
Proof. vm_compute. reflexivity. Qed.

Lemma SinspBufferSize_witness :
  4 * 1024 * 1024 <= 8 * 1024 * 1024 /\ exists k, 14 <= k <= 31 /\ 4 * 1024 * 1024 = 2 ^ k.
Proof.
  destruct (SinspBufferSize_spec scenario (mkHostConfig None 150) (4 * 1024 * 1024) scenario_size) as [Hle [E|Hk]].
  - discriminate E.
  - split; [exact Hle|exact Hk].
Defined.

(** Rounding up to the next power of two can leave the total limit: three buffers of 2^20 bytes exceed a
    limit of 3 * 2^20 - 1. *)
Example limit_exceeded :
  GetSinspBufferSize (mkSinspConfig 1 (8 * 1024 * 1024) (3 * 2 ^ 20 - 1) 0) (mkHostConfig None 3) = Some (2 ^ 20).
Proof. vm_compute. reflexivity. Qed.

(** A number that does not parse ends the process instead of falling back on the default. *)
Example bad_interval :
  @tryValue (Host.Build_Host (fun _ => Some (lit "thirty")) None (fun _ => None) (fun _ => None) (fun _ => None)
               (fun _ => false) 0 0 0 0) Z ParseInt (lit "ROX_COLLECTOR_SCRAPE_INTERVAL") None = None.
Proof. reflexivity. Qed.

(** A bracketed IPv6 address is split at its first colon. *)
Example ipv6_server : (CheckGrpcServer (Some (lit "[::1]"))).1 = ARG_OK.
Proof. reflexivity. Qed.
End ConfigWitnesses.
