(* ===== verification/Args.v ===== *)
(** * The command line of collector

    The table of options and [CollectorArgs::parse] of [collector/lib/CollectorArgs.cpp]:
    [option::Stats] and [option::Parser] run over the arguments with the checks of [Config],
    which store what they accept, and the usage text is that of [UsagePrinter]; with
    the start of [main] in [collector.cpp] up to the configuration.  The two arrays of options
    are on the stack, at addresses [O] and [B]. *)

From stdpp Require Import gmap.
From S2P Require Import Prelude Containers Utility Address IPNet Connection ConfigParser Inotify ConfigLoader Host Config OptionParser UsagePrinter.

Open Scope Z_scope.
Open Scope collector_scope.

(** ** The table *)

Definition UNKNOWN : Z := 0.
Definition HELP : Z := 1.
Definition COLLECTOR_CONFIG : Z := 2.
Definition COLLECTION_METHOD : Z := 3.
Definition GRPC_SERVER : Z := 4.

Definition quote : str := ["034"%char].

Section table.
Context `{Json}.

(** The functions of the table pass the option on to the instance. *)
Definition checkCollectorConfig_opt : CheckArg (St := CollectorArgs) :=
  fun a option msg => Some (checkCollectorConfig a (p_str <$> o_arg option) msg).
Definition checkCollectionMethod_opt : CheckArg (St := CollectorArgs) :=
  fun a option msg => Some (checkCollectionMethod a (p_str <$> o_arg option) msg).
Definition checkGRPCServer_opt : CheckArg (St := CollectorArgs) :=
  fun a option msg => Some (checkGRPCServer a (p_str <$> o_arg option) msg).

Definition usage_entries : list (Descriptor CollectorArgs) :=
  [mkDescriptor UNKNOWN 0 (Some []) (Some []) Arg_None
     (Some (lit "USAGE: collector [options]" ++ LF :: LF :: lit "Options:"));
   mkDescriptor HELP 0 (Some []) (Some (lit "help")) Arg_None
     (Some (lit "  --help                " ++ TAB :: lit "Print usage and exit."));
   mkDescriptor COLLECTOR_CONFIG 0 (Some []) (Some (lit "collector-config")) checkCollectorConfig_opt
     (Some (lit "  --collector-config    " ++ TAB :: lit "Collector config as a JSON string. Please refer to documentation on the valid JSON format."));
   mkDescriptor COLLECTION_METHOD 0 (Some []) (Some (lit "collection-method")) checkCollectionMethod_opt
     (Some (lit "  --collection-method   " ++ TAB :: lit "Collection method (ebpf or core_bpf)."));
   mkDescriptor GRPC_SERVER 0 (Some []) (Some (lit "grpc-server")) checkGRPCServer_opt
     (Some (lit "  --grpc-server         " ++ TAB :: lit "GRPC server endpoint string in the form HOST1:PORT1."));
   mkDescriptor UNKNOWN 0 (Some []) (Some []) Arg_None
     (Some (LF :: lit "Examples:" ++ LF :: lit "  collector --grpc-server=" ++ quote ++ lit "172.16.0.5:443" ++ quote ++ [LF]))].

Definition usage : list (Descriptor CollectorArgs) := usage_entries ++ [mkDescriptor 0 0 None None Arg_None None].

(** ** [CollectorArgs::parse] *)

(** The loop over the options in the buffer: whether one of them is unknown. *)
Fixpoint any_unknown (h : heap) (B i : Z) (n : nat) : option bool :=
  match n with
  | O => Some false
  | S n =>
      let! opt := h !! elem B i in
      let! idx := index usage opt in
      if idx =? UNKNOWN then Some true else any_unknown h B (i + 1) n
  end.

(** The result is the returned flag, [exitCode] and the instance. *)
Definition CollectorArgs_parse (O B : Z) (argc : Z) (argv : list (option cptr)) (a : CollectorArgs)
    : option (bool * Z * CollectorArgs) :=
  let argc := argc - (if 0 <? argc then 1 else 0) in
  let argv := if 0 <? argc then drop 1 argv else argv in
  let! (stats, w) := Stats_of false usage argc (Some argv) 0 false a in
  let arrays := array O (options_max stats) ∪ array B (buffer_max stats) in
  let! (p, h, w) := Parser_of false usage argc (Some (w_argv w)) arrays O B 0 false (-1) (w_chk w) in
  let a := w_chk w in
  if error p then Some (false, 1, a) else
  let! help := h !! elem O HELP in
  if filled help then let! text := printUsage usage in Some (false, 0, set_message a true text) else
  let! unknown := any_unknown h B 0 (Z.to_nat (optionsCount p)) in
  if unknown : bool then
    let! first := h !! elem O UNKNOWN in
    let! name := o_name first in
    Some (false, 1, set_message a true (lit "Unknown option: " ++ p_str name))
  else Some (true, 0, a).

(** The text [--help] shows. *)
Example usage_text : option_map (fun t => String.string_of_list_ascii (take 83 t)) (printUsage usage) =
  Some (String.string_of_list_ascii (lit "USAGE: collector [options]" ++ LF :: LF :: lit "Options:" ++ LF :: lit "  --help                Print usage and exit." ++ [LF])).
Proof. by vm_compute. Qed.

(** ** The table is as the parser wants it *)

Lemma usage_is_ok : usage_ok usage_entries usage.
Proof. split; [repeat constructor; by eexists|]. by eexists _, []. Qed.

Lemma usage_indices : Forall (fun d => 0 <= d_index d < 2 ^ 31 - 2) usage_entries.
Proof. repeat constructor; cbn; unfold UNKNOWN, HELP, COLLECTOR_CONFIG, COLLECTION_METHOD, GRPC_SERVER; lia. Qed.

Lemma usage_total : Forall total usage_entries.
Proof.
  repeat apply List.Forall_cons; [..|apply List.Forall_nil]; intros a o msg _; eexists _, _; (split; [|done]);
    cbn [check_arg]; (done || apply (f_equal Some), surjective_pairing).
Qed.

Lemma usage_stable : Forall stable usage_entries.
Proof.
  repeat constructor; intros s1 s2 o m1 m2; cbn; try done.
  - unfold checkCollectorConfig. by destruct (CheckConfiguration _) as [[]].
  - unfold checkCollectionMethod. by destruct (p_str <$> o_arg o).
  - unfold checkGRPCServer. by destruct (CheckGrpcServer _) as [].
Qed.

Lemma usage_texts_printable : printable_usage usage_entries usage.
Proof.
  split; [apply usage_is_ok|]. split; [by eexists|].
  intros i d h Hd Hh. do 7 (destruct i as [|i]; [cbn in Hd; injection Hd as <-; cbn [help] in Hh; (discriminate Hh ||
    injection Hh as <-; apply UsageWitnesses.printable_dec; by vm_compute)|]). done.
Qed.

(** The options the arguments hold, and the instance after the checks of a pass. *)
Definition run_checks (msg : bool) (toks : list cptr) (a : CollectorArgs) :=
  reference RecordAction (mkConfig false 0 false msg) usage usage_entries toks (a, []).

Definition with_index (k : Z) (l : list Option) : option Option := List.find (has_index usage k) l.

(** What [parse] makes of the options [l], the instance being [a]. *)
Definition parse_result (ok : bool) (l : list Option) (a : CollectorArgs) : option (bool * Z * CollectorArgs) :=
  if negb ok then Some (false, 1, a)
  else match with_index HELP l with
       | Some _ => let! text := printUsage usage in Some (false, 0, set_message a true text)
       | None =>
           match with_index UNKNOWN l with
           | Some o => let! name := o_name o in Some (false, 1, set_message a true (lit "Unknown option: " ++ p_str name))
           | None => Some (true, 0, a)
           end
       end.

Lemma with_index_occurrences k l :
  match occurrences usage k l with
  | [] => with_index k l = None
  | i :: _ => exists o, l !! i = Some o /\ with_index k l = Some o
  end.
Proof.
  unfold occurrences, with_index. enough (forall n, match matches (has_index usage k) l n with
    | [] => List.find (has_index usage k) l = None
    | i :: _ => exists o, l !! (i - n)%nat = Some o /\ List.find (has_index usage k) l = Some o end) as Hn.
  { specialize (Hn O). destruct (matches _ l 0); [done|]. by rewrite Nat.sub_0_r in Hn. }
  induction l as [|o l IH]; intros n; cbn [matches List.find]; [done|].
  destruct (has_index usage k o); [exists o; by rewrite Nat.sub_diag|].
  specialize (IH (S n)). pose proof (matches_lt (has_index usage k) l (S n)) as Hlt.
  destruct (matches (has_index usage k) l (S n)) as [|i is']; [done|]. specialize (Hlt i ltac:(by left)).
  destruct IH as (o' & Ho & ->). exists o'. split; [|done]. by replace (i - n)%nat with (S (i - S n)) by lia.
Qed.

Section arrays.
Context (O B bm : Z).

Lemma any_unknown_spec h l i n :
  stored usage O B 6 bm h l -> Forall (storable usage 6) l -> (i + n = length l)%nat ->
  any_unknown h B (Z.of_nat i) n = Some (existsb (has_index usage UNKNOWN) (drop i l)).
Proof.
  intros Hst Hl. revert i. induction n as [|n IH]; intros i Hi; cbn [any_unknown].
  - by rewrite drop_ge by lia.
  - destruct (lookup_lt_is_Some_2 l i) as [o Ho]; [lia|]. rewrite (drop_S _ _ _ Ho). cbn [existsb].
    pose proof (st_buffer usage O B 6 bm h l Hst i o Ho) as Hc. unfold slot in Hc.
    destruct (h !! elem B (Z.of_nat i)) as [o'|]; [|done]. cbn in Hc. injection Hc as Hd _ _ _.
    assert (index usage o' = index usage o) as -> by (unfold index; by rewrite Hd).
    rewrite Forall_lookup in Hl. destruct (Hl _ _ Ho) as (? & ? & ? & k & _ & Ek & _). rewrite Ek.
    specialize (IH (S i) ltac:(lia)). replace (Z.of_nat i + 1) with (Z.of_nat (S i)) by lia.
    unfold has_index at 1. rewrite Ek. destruct (Z.eqb_spec k UNKNOWN) as [->|Hne].
    + by rewrite bool_decide_true.
    + rewrite bool_decide_false by (intros [= ?]; done). exact IH.
Qed.

End arrays.

Lemma existsb_find {X} (P : X -> bool) l : existsb P l = match List.find P l with Some _ => true | None => false end.
Proof. induction l as [|x l IH]; [done|]. cbn. by destruct (P x). Qed.

Lemma layout_mono O B om bm bm' : bm' <= bm -> layout O B om bm -> layout O B om bm'.
Proof.
  intros Hle [Ho Hb Hd]. constructor; [exact Ho|intros; apply Hb; lia|intros; apply Hd; lia].
Qed.

Lemma printUsage_total : exists text, printUsage usage = Some text.
Proof.
  unfold printUsage. destruct (printUsage_always usage_entries usage 80 50 75 usage_texts_printable) as [o ->]. by eexists.
Qed.

(** [parse] on a program name and arguments. *)
Lemma CollectorArgs_parse_eq O B prog toks tail a :
  separate toks -> Forall tok_ok toks -> Z.of_nat (chars toks) < 0x7fffffff -> layout O B 6 (Z.of_nat (chars toks) + 1) ->
  exists ok opts rest l a1 a2,
    run_checks false toks a = Some (ok, opts, rest, (a1, l)) /\ run_checks true toks a1 = Some (ok, opts, rest, (a2, l)) /\
    CollectorArgs_parse O B (Z.of_nat (S (length toks))) (Some prog :: map Some toks ++ tail) a = parse_result ok l a2.
Proof.
  intros Hsep Hok Hmax Hlay.
  destruct (reference_yields (mkConfig false 0 false false) usage_entries usage usage_is_ok (fun _ => True) usage_total toks a [] I)
    as ([[ok opts] rest] & a1 & l & Href & Hlen & _). cbn [length] in Hlen.
  set (argv := if 0 <? Z.of_nat (length toks) then map Some toks ++ tail else Some prog :: map Some toks ++ tail).
  assert (exists tail', argv = map Some toks ++ tail') as [tail' Eargv].
  { unfold argv. destruct toks as [|p toks]; [by eexists|]. by exists tail. }
  destruct (Stats_Parser usage_entries usage usage_is_ok usage_indices usage_stable toks tail' (Z.of_nat (length toks)) 0 false a a1 ok opts rest l)
    as (Hft & st & w & E & Ea & Ec & Eb & Eo & Hp); [by left|done..|lia|].
  assert (options_needed usage_entries 1 = 6) as E6 by done. rewrite E6 in Eo.
  destruct (Hp O B) with (s2 := a1) as (a2 & p & h & w' & Href2 & Ep & _ & Ec2 & Ecnt & Eerr & Hst & _).
  { rewrite Eo, Eb. eapply layout_mono; [|exact Hlay]. lia. }
  exists ok, opts, rest, l, a1, a2. split; [exact Href|]. split; [exact Href2|].
  unfold CollectorArgs_parse. replace (0 <? Z.of_nat (S (length toks))) with true by (symmetry; apply Z.ltb_lt; lia).
  replace (Z.of_nat (S (length toks)) - 1) with (Z.of_nat (length toks)) by lia.
  change (drop 1 (Some prog :: map Some toks ++ tail)) with (map Some toks ++ tail). fold argv. rewrite Eargv, E, Ec, Ep.
  rewrite Eerr, Ec2, Ecnt, Nat2Z.id. unfold parse_result. destruct ok; cbn [negb]; [|done].
  rewrite Eo in Hst.
  assert (Forall (storable usage 6) l) as Hstor.
  { eapply Forall_impl; [exact Hft|]. intros o Ho. rewrite <- E6. by apply from_table_storable with (es := usage_entries);
      [apply usage_is_ok|apply usage_indices|]. }
  assert (layout O B 6 (buffer_max st)) as Hlay' by (rewrite Eb; eapply layout_mono; [|exact Hlay]; lia).
  destruct (stored_options usage O B 6 (buffer_max st) Hlay' h l HELP Hst Hstor ltac:(unfold HELP; lia)) as (oh & Hoh & Hfh).
  rewrite Hoh, Hfh. pose proof (with_index_occurrences HELP l) as Hwh.
  destruct (occurrences usage HELP l) as [|ih jh].
  2: { rewrite bool_decide_false by done. destruct Hwh as (o & _ & ->). done. }
  rewrite bool_decide_true, Hwh by done. cbn [negb].
  pose proof (any_unknown_spec O B (buffer_max st) h l 0 (length l) Hst Hstor ltac:(lia)) as Hun.
  change (Z.of_nat 0) with 0 in Hun. rewrite Hun, drop_0.
  rewrite existsb_find. fold (with_index UNKNOWN l). pose proof (with_index_occurrences UNKNOWN l) as Hwu.
  destruct (occurrences usage UNKNOWN l) as [|iu ju] eqn:Eu; [by rewrite Hwu|]. destruct Hwu as (o & Ho & ->).
  destruct (st_some usage O B 6 (buffer_max st) h l Hst UNKNOWN iu ju ltac:(unfold UNKNOWN; lia) Eu) as [Hc _].
  rewrite Ho in Hc. destruct (h !! elem O UNKNOWN) as [ou|]; [|done]. cbn in Hc. injection Hc as _ -> _ _. done.
Qed.

(** ** Settings *)

(** An option with its value, as it is written on the command line. *)
Inductive setting := SConfig (text : str) | SMethod (name : str) | SServer (address : str).

Definition value (s : setting) : str := match s with SConfig v | SMethod v | SServer v => v end.
Definition option_name (s : setting) : str :=
  match s with SConfig _ => lit "collector-config" | SMethod _ => lit "collection-method" | SServer _ => lit "grpc-server" end.
Definition print_setting (s : setting) : str := lit "--" ++ option_name s ++ "="%char :: value s.

Definition valid_setting (s : setting) : Prop :=
  match s with
  | SConfig text => exists root, json_parse text = inl root
  | SMethod _ => True
  | SServer address => (CheckGrpcServer (Some address)).1 = ARG_OK
  end.

(** The state of the settings: the last one of a kind counts. *)
Definition settings_of (a : CollectorArgs) : json * option CollectionMethod * str :=
  (collectorConfig a, collectionMethod a, grpcServer a).

Definition set (t : json * option CollectionMethod * str) (s : setting) : json * option CollectionMethod * str :=
  let '(config, method, server) := t in
  match s with
  | SConfig text => (match json_parse text with inl root => root | inr _ => config end, method, server)
  | SMethod name => (config, Some (ParseCollectionMethod name), server)
  | SServer address => (config, method, address)
  end.

(** The check of a setting, and its place in the table. *)
Definition check_setting (msg : bool) (a : CollectorArgs) (s : setting) : CollectorArgs :=
  match s with
  | SConfig text => (checkCollectorConfig a (Some text) msg).2
  | SMethod name => (checkCollectionMethod a (Some name) msg).2
  | SServer address => (checkGRPCServer a (Some address) msg).2
  end.

Definition place (s : setting) : nat := match s with SConfig _ => 2 | SMethod _ => 3 | SServer _ => 4 end.

Definition option_of (p : cptr) (s : setting) : Option := init 0 (Some (place s)) (Some p) (Some (mkPtr (p_obj p) (value s))).

Lemma check_setting_set msg a s : valid_setting s -> settings_of (check_setting msg a s) = set (settings_of a) s.
Proof.
  destruct s as [text|name|address]; cbn [valid_setting check_setting set settings_of].
  - intros [root E]. unfold checkCollectorConfig. cbn [CheckConfiguration]. rewrite E. by destruct msg.
  - done.
  - intros E. unfold checkGRPCServer. destruct (CheckGrpcServer (Some address)) as [st m]. cbn in E. subst st. by destruct msg.
Qed.

Lemma token_setting msg s p nx a l :
  p_str p = print_setting s -> valid_setting s ->
  ref_token RecordAction (mkConfig false 0 false msg) usage usage_entries p nx (a, l)
  = Some (Some false, (check_setting msg a s, l ++ [option_of p s])).
Proof.
  intros Hp Hv. unfold ref_token. rewrite Hp. unfold print_setting. cbn [lit String.list_ascii_of_string app].
  rewrite bool_decide_true by done.
  assert (ref_long (mkConfig false 0 false msg) usage_entries (option_name s ++ "="%char :: value s) = Some (place s)) as ->
    by (destruct s; by vm_compute).
  cbn [target]. unfold ref_option. assert (to_equals (option_name s ++ "="%char :: value s) = "="%char :: value s) as -> by (by destruct s).
  rewrite bool_decide_false by done. unfold visit. cbn [fst snd].
  destruct s as [text|name|address]; cbn [place usage usage_entries app lookup list_lookup check_arg valid_setting] in *.
  - unfold checkCollectorConfig_opt. cbn [init o_arg fmap option_fmap option_map p_str value check_setting].
    destruct Hv as [root E]. unfold checkCollectorConfig. cbn [CheckConfiguration]. rewrite E. done.
  - done.
  - unfold checkGRPCServer_opt. cbn [init o_arg fmap option_fmap option_map p_str value check_setting].
    unfold checkGRPCServer. destruct (CheckGrpcServer (Some address)) as [st m]. cbn in Hv. subst st. done.
Qed.

(** The arguments for settings; each is a string of its own. *)
Definition arguments (n : nat) (settings : list setting) : list cptr := imap (fun i s => mkPtr (n + i) (print_setting s)) settings.

Lemma arguments_cons n s settings : arguments n (s :: settings) = mkPtr n (print_setting s) :: arguments (S n) settings.
Proof.
  unfold arguments. cbn [imap]. rewrite Nat.add_0_r. f_equal. apply imap_ext. intros i x _. cbn. f_equal. lia.
Qed.

Lemma run_settings msg n settings a l :
  Forall valid_setting settings ->
  exists l', reference RecordAction (mkConfig false 0 false msg) usage usage_entries (arguments n settings) (a, l)
    = Some (true, arguments n settings, [], (fold_left (check_setting msg) settings a, l ++ l')) /\
    Forall (fun o => exists p s, o = option_of p s) l'.
Proof.
  intros Hv. revert n a l. induction Hv as [|s settings Hs _ IH]; intros n a l.
  { exists []. rewrite app_nil_r. done. }
  rewrite arguments_cons. cbn [reference fold_left].
  assert (is_plain (p_str (mkPtr n (print_setting s))) = false) as -> by done.
  assert (is_end (p_str (mkPtr n (print_setting s))) = false) as -> by (unfold is_end; apply bool_decide_false; by destruct s).
  rewrite (token_setting msg s) by done.
  destruct (IH (S n) (check_setting msg a s) (l ++ [option_of (mkPtr n (print_setting s)) s])) as (l' & E & Hl').
  exists (option_of (mkPtr n (print_setting s)) s :: l'). split; [|constructor; [by eexists _, _|done]].
  rewrite <- app_assoc in E. destruct (arguments (S n) settings); unfold consumed; rewrite E; done.
Qed.

Lemma settings_separate n settings : separate (arguments n settings).
Proof.
  unfold separate. enough (map p_obj (arguments n settings) = seq n (length settings)) as -> by apply NoDup_seq.
  revert n. induction settings as [|s settings IH]; intros n; [done|]. rewrite arguments_cons. cbn. by rewrite IH.
Qed.

Lemma settings_ok n settings : Forall (fun s => Forall (fun c => c <> NUL) (value s)) settings -> Forall tok_ok (arguments n settings).
Proof.
  intros Hs. revert n. induction Hs as [|s settings Hs _ IH]; intros n; [constructor|]. rewrite arguments_cons.
  constructor; [|apply IH]. unfold tok_ok. cbn [p_str]. unfold print_setting. rewrite !Forall_app, Forall_cons.
  split; [by repeat constructor|]. split; [destruct s; by repeat constructor|]. done.
Qed.

Lemma option_of_index p s : index usage (option_of p s) <> Some HELP /\ index usage (option_of p s) <> Some UNKNOWN.
Proof. by destruct s. Qed.

Lemma no_index k l : (k = HELP \/ k = UNKNOWN) -> Forall (fun o => exists p s, o = option_of p s) l -> with_index k l = None.
Proof.
  intros Hk Hl. unfold with_index. induction Hl as [|o l (p & s & ->) _ IH]; [done|]. cbn [List.find].
  unfold has_index. rewrite bool_decide_false; [exact IH|]. destruct (option_of_index p s). destruct Hk; congruence.
Qed.

(** The settings after two passes are those after one. *)
Lemma set_twice settings t : Forall valid_setting settings -> fold_left set settings (fold_left set settings t) = fold_left set settings t.
Proof.
  intros Hv.
  enough (exists (oc : option json) (om : option (option CollectionMethod)) (os : option str), forall t,
    fold_left set settings t = (default t.1.1 oc, default t.1.2 om, default t.2 os)) as (oc & om & os & Hset).
  { rewrite !Hset. cbn [fst snd]. by destruct oc, om, os. }
  clear t. induction Hv as [|s settings Hs _ (oc & om & os & IH)].
  { exists None, None, None. by intros [[] ?]. }
  destruct s as [text|name|address]; cbn [valid_setting] in Hs.
  - destruct Hs as [root E]. exists (Some (default root oc)), om, os. intros [[c m] v]. cbn [fold_left set]. rewrite E, IH. cbn. done.
  - exists oc, (Some (default (Some (ParseCollectionMethod name)) om)), os. intros [[c m] v]. cbn [fold_left set]. by rewrite IH.
  - exists oc, om, (Some (default address os)). intros [[c m] v]. cbn [fold_left set]. by rewrite IH.
Qed.

Lemma fold_checks msg settings a :
  Forall valid_setting settings -> settings_of (fold_left (check_setting msg) settings a) = fold_left set settings (settings_of a).
Proof.
  intros Hv. revert a. induction Hv as [|s settings Hs _ IH]; intros a; [done|]. cbn [fold_left]. by rewrite IH, check_setting_set.
Qed.

(** Whatever the arguments are, the address in the instance is one the check accepted. *)
Definition server_ok (a : CollectorArgs) : Prop := grpcServer a = [] \/ (CheckGrpcServer_view (grpcServer a)).1 = ARG_OK.

Lemma config_keeps_server a arg msg : server_ok a -> server_ok (checkCollectorConfig a arg msg).2.
Proof.
  intros Ha. unfold checkCollectorConfig. destruct (CheckConfiguration arg) as [[st m] root]. cbn [snd].
  unfold server_ok. by destruct (bool_decide _).
Qed.

Lemma method_keeps_server a arg msg : server_ok a -> server_ok (checkCollectionMethod a arg msg).2.
Proof. intros Ha. unfold checkCollectionMethod. by destruct arg. Qed.

Lemma checks_keep_server : Forall (keeps server_ok) usage_entries.
Proof.
  repeat apply List.Forall_cons; [..|apply List.Forall_nil]; intros a o msg Ha; cbn [check_arg].
  1, 2, 6: by eexists _, _.
  - unfold checkCollectorConfig_opt. pose proof (config_keeps_server a (p_str <$> o_arg o) msg Ha) as Hs.
    destruct (checkCollectorConfig a _ msg) as [st a']. by exists st, a'.
  - unfold checkCollectionMethod_opt. pose proof (method_keeps_server a (p_str <$> o_arg o) msg Ha) as Hs.
    destruct (checkCollectionMethod a _ msg) as [st a']. by exists st, a'.
  - unfold checkGRPCServer_opt. pose proof (checkGRPCServer_ok a (p_str <$> o_arg o) msg Ha) as Hs. cbn zeta in Hs.
    destruct (checkGRPCServer a _ msg) as [st a']. by exists st, a'.
Qed.

Lemma run_server_ok msg toks a v a' l : server_ok a -> run_checks msg toks a = Some (v, (a', l)) -> server_ok a'.
Proof.
  intros Ha E. unfold run_checks in E.
  destruct (reference_yields (mkConfig false 0 false msg) usage_entries usage usage_is_ok server_ok checks_keep_server toks a [] Ha)
    as (v' & a'' & l' & E' & _ & Ha'). rewrite E in E'. injection E' as <- <- <-. done.
Qed.

End table.

(** ** The start of [main] *)

Section main.
Context `{HostEndian} `{Host} `{Platform} `{Json} {W : Type} `{Kernel W} `{FileSystem W} `{Yaml} (config_fields : list field).

(** Lines 150-163: arguments that cannot be parsed are fatal, then the configuration is made. *)
Definition main_config (O B argc : Z) (argv : list (option cptr)) (k : W) (host : HostInfo) (garbage inotify_fd : Z)
    : option (CollectorConfig * HostInfo * W) :=
  let! (ok, _, args) := CollectorArgs_parse O B argc argv CollectorArgs_init in
  if ok : bool then startup config_fields k host args garbage inotify_fd else None.

End main.

(** ** Theorems *)

(** Parsing the command line.  On every command line the two passes of the option parser
    stay inside the arguments and inside the arrays that are sized between them, and [parse]
    returns: exit code 1 when a check refuses an option, the usage text with exit code 0
    when help is asked for, an error that names the first unknown option when there is one, and
    otherwise success with what the checks stored; and an address of Sensor in the instance is one
    its check has accepted, if it was one before. *)
Theorem CollectorArgs_parse_spec `{Json} O B prog toks tail a :
  separate toks -> Forall tok_ok toks -> Z.of_nat (chars toks) < 0x7fffffff -> layout O B 6 (Z.of_nat (chars toks) + 1) ->
  exists ok opts rest l a1 a2,
    run_checks false toks a = Some (ok, opts, rest, (a1, l)) /\ run_checks true toks a1 = Some (ok, opts, rest, (a2, l)) /\
    CollectorArgs_parse O B (Z.of_nat (S (length toks))) (Some prog :: map Some toks ++ tail) a = parse_result ok l a2 /\
    is_Some (parse_result ok l a2) /\ (server_ok a -> server_ok a2).
Proof.
  intros Hsep Hok Hmax Hlay. destruct (CollectorArgs_parse_eq O B prog toks tail a Hsep Hok Hmax Hlay) as (ok & opts & rest & l & a1 & a2 & E1 & E2 & E).
  exists ok, opts, rest, l, a1, a2. split_and!; [done..| |].
  - unfold parse_result. destruct ok; cbn [negb]; [|by eexists]. destruct (with_index HELP l).
    + destruct printUsage_total as [t ->]. by eexists.
    + destruct (with_index UNKNOWN l) as [o|] eqn:Eo; [|by eexists].
      destruct (run_again usage_entries usage usage_is_ok usage_stable (mkConfig false 0 false false) (mkConfig false 0 false true) toks
        a a1 _ l a ltac:(done) E1) as [Hft _].
      apply List.find_some in Eo as [Hin _]. apply list_elem_of_In in Hin. rewrite Forall_forall in Hft.
      destruct (Hft _ Hin) as (d & name & arg & _ & ->). by eexists.
  - intros Ha. eapply run_server_ok; [|exact E2]. by eapply run_server_ok.
Qed.

(** C35. Settings are read back.  A command line of settings, each written as an option with its
    value behind an equals sign, in any order and number, with documents that parse and addresses
    that are accepted, is parsed without error, and the instance then holds the last value of
    each kind, the old one where there is none. *)
Theorem CollectorArgs_roundtrip `{Json} O B prog settings a :
  Forall valid_setting settings -> Forall (fun s => Forall (fun c => c <> NUL) (value s)) settings ->
  let toks := arguments 0 settings in
  Z.of_nat (chars toks) < 0x7fffffff -> layout O B 6 (Z.of_nat (chars toks) + 1) ->
  exists a', CollectorArgs_parse O B (Z.of_nat (S (length toks))) (Some prog :: map Some toks ++ [None]) a = Some (true, 0, a') /\
    settings_of a' = fold_left set settings (settings_of a).
Proof.
  intros Hv Hnul toks Hmax Hlay.
  destruct (CollectorArgs_parse_eq O B prog toks [None] a (settings_separate 0 settings) (settings_ok 0 settings Hnul) Hmax Hlay)
    as (ok & opts & rest & l & a1 & a2 & E1 & E2 & E).
  destruct (run_settings false 0 settings a [] Hv) as (l1 & R1 & Hl1). destruct (run_settings true 0 settings a1 [] Hv) as (l2 & R2 & _).
  unfold run_checks in E1, E2. fold toks in R1, R2. rewrite R1 in E1. injection E1 as <- <- <- Ea1 <-.
  rewrite R2 in E2. injection E2 as Ea2 _. exists a2. rewrite E. split.
  - unfold parse_result. cbn [negb app]. by rewrite !no_index by (done || auto).
  - rewrite <- Ea2, fold_checks by done. rewrite <- Ea1, fold_checks by done. by apply set_twice.
Qed.

(** C17. Every configuration collector starts with is valid, whatever its command line (of fewer than 2^31 - 1
    characters, the arguments apart from each other in memory).  When [main]
    gets past its configuration, the host supports the collection method in force; the
    afterglow period is positive and at most five minutes if afterglow is on; the address of
    Sensor, from the command line or the environment, is a host without a colon, a colon and a port,
    neither of them empty, in at most 255 characters; and the runtime configuration is absent if there
    is no file at the configured path, and otherwise the defaults with the values of the document
    read from that file, which the parser accepted. *)
Theorem main_valid `{HostEndian} `{Host} `{Platform} `{Json} {W} `{Kernel W} `{FileSystem W} `{YamlLaws}
    (fs : list field) O B prog toks tail (k : W) (h : HostInfo) (garbage fd : Z) (c : CollectorConfig) (h' : HostInfo) (k' : W) :
  separate toks -> Forall tok_ok toks -> Z.of_nat (chars toks) < 0x7fffffff -> layout O B 6 (Z.of_nat (chars toks) + 1) ->
  config_descriptor fs -> coherent h ->
  main_config fs O B (Z.of_nat (S (length toks))) (Some prog :: map Some toks ++ tail) k h garbage fd = Some (c, h', k') ->
  config_ok c /\ runtime_from_file fs k (runtime_config_ c).
Proof.
  intros Hsep Hok Hmax Hlay Hfs Hc E. unfold main_config in E.
  destruct (CollectorArgs_parse_eq O B prog toks tail CollectorArgs_init Hsep Hok Hmax Hlay)
    as (ok & opts & rest & l & a1 & a2 & E1 & E2 & Ep). rewrite Ep in E.
  assert (server_ok a2) as Ha.
  { eapply run_server_ok; [|exact E2]. eapply run_server_ok; [|exact E1]. by left. }
  assert (parse_result ok l a2 = Some (true, 0, a2) \/ forall x a', parse_result ok l a2 <> Some (true, x, a')) as [Er|Er].
  { unfold parse_result. destruct ok; cbn [negb]; [|by right]. destruct (with_index HELP l); [right; by destruct (printUsage usage)|].
    destruct (with_index UNKNOWN l) as [o|]; [right; by destruct (o_name o)|by left]. }
  - rewrite Er in E. by eapply startup_valid.
  - destruct (parse_result ok l a2) as [[[[] x] a']|]; [|done..]. by destruct (Er x a').
Qed.

(** ** Witnesses *)

Module ArgsWitnesses.
Import ConfigWitnesses.
#[local] Existing Instance Host.Witnesses.rhel86.

Definition prog : cptr := mkPtr 100 (lit "collector").
Definition settings : list setting := [SMethod (lit "ebpf"); SServer (lit "sensor.stackrox:443"); SMethod (lit "CORE-BPF")].
Definition words : list cptr := OptionWitnesses.cmdline ["--grpc-server"%string; "sensor.stackrox:443"%string; "--verbose"%string].

Lemma small_layout n : 0 <= n <= 100 -> layout 0x1000 0x10000 6 n.
Proof. intros Hn. apply OptionWitnesses.arrays_ok; lia. Qed.

Definition refused : option (bool * Z * CollectorArgs) :=
  CollectorArgs_parse (H := objects) 0x1000 0x10000 4 (Some prog :: map Some words ++ [None]) CollectorArgs_init.

Lemma CollectorArgs_parse_spec_witness :
  match refused with Some (ok, code, a) => ok = false /\ code = 1 /\ args_message a = lit "Unknown option: --verbose" | None => False end /\
  exists ok l a2, refused = parse_result ok l a2 /\ server_ok a2.
Proof.
  split; [by vm_compute|].
  destruct (CollectorArgs_parse_spec 0x1000 0x10000 prog words [None] CollectorArgs_init)
    as (ok & opts & rest & l & a1 & a2 & E1 & E2 & E & _ & Hs).
  - apply (bool_decide_unpack _). by vm_compute.
  - unfold tok_ok. repeat constructor; done.
  - by vm_compute.
  - apply small_layout. by vm_compute.
  - exists ok, l, a2. split; [exact E|]. apply Hs. by left.
Defined.

Lemma settings_valid : Forall valid_setting settings /\ Forall (fun s => Forall (fun c => c <> NUL) (value s)) settings.
Proof. split; [by repeat constructor|]. repeat constructor; done. Qed.

Lemma CollectorArgs_roundtrip_witness :
  exists a', CollectorArgs_parse 0x1000 0x10000 4 (Some prog :: map Some (arguments 0 settings) ++ [None]) CollectorArgs_init = Some (true, 0, a') /\
    settings_of a' = (json_null, Some CORE_BPF, lit "sensor.stackrox:443").
Proof.
  destruct settings_valid as [Hv Hn].
  destruct (CollectorArgs_roundtrip 0x1000 0x10000 prog settings CollectorArgs_init Hv Hn ltac:(by vm_compute) ltac:(apply small_layout; by vm_compute))
    as (a' & E & Hs).
  exists a'. split; [exact E|]. rewrite Hs. by vm_compute.
Defined.

Definition server_args : list cptr := arguments 0 [SServer (lit "sensor.stackrox:443")].

Definition configured :=
  @main_config false Host.Witnesses.rhel86 platform objects LoaderWitnesses.world LoaderWitnesses.world_fs
    ConfigParser.Witnesses.yaml ConfigParser.Witnesses.config_fields 0x1000 0x10000 2
    (Some prog :: map Some server_args ++ [None]) (LoaderWitnesses.mkWorld 1 None []) HostInfo_instance 77 3.

Lemma main_valid_witness :
  exists c h' k', configured = Some (c, h', k') /\ grpc_server_ (user c) = Some (lit "sensor.stackrox:443") /\ config_ok c.
Proof.
  destruct configured as [[[c h'] k']|] eqn:E; [|by vm_compute in E]. exists c, h', k'. split; [done|].
  assert (option_map (fun r => grpc_server_ (user r.1.1)) configured = Some (Some (lit "sensor.stackrox:443"))) as Eg by (by vm_compute).
  rewrite E in Eg. injection Eg as Eg. split; [exact Eg|].
  apply (@main_valid false Host.Witnesses.rhel86 platform objects LoaderWitnesses.world LoaderWitnesses.world_kernel
    LoaderWitnesses.world_fs ConfigParser.Witnesses.yaml ConfigParser.Witnesses.yaml_laws ConfigParser.Witnesses.config_fields
    0x1000 0x10000 prog server_args [None] (LoaderWitnesses.mkWorld 1 None []) HostInfo_instance 77 3 c h' k'); [..|exact E].
  - apply settings_separate.
  - apply settings_ok. repeat constructor; done.
  - reflexivity.
  - apply small_layout. split; discriminate.
  - apply LoaderWitnesses.descriptor_ok.
  - apply (@coherent_instance Host.Witnesses.rhel86).
Defined.

End ArgsWitnesses.
