(* ===== verification/Logging.v ===== *)
(** * Logging

    [Logging.h] and [Logging.cpp]: the header of a line, the message that prints itself when it is
    destroyed, the logging statements with their static headers and the callback of the inspector;
    and the writing of [AbortHandler.cpp].  The standard error output is a string; the readings of
    the clocks are inputs.  The levels are in [Config]. *)

From Stdlib Require Import Sorted.
From S2P Require Import Prelude Utility Process Inotify ConfigLoader Config.

Open Scope Z_scope.
Open Scope collector_scope.

(** ** Times *)

(** [gmtime]: the date of a day since the epoch, and the second of the day. *)
Definition civil (days : Z) : Z * Z * Z :=
  let z := days + 719468 in
  let era := z / 146097 in
  let doe := z mod 146097 in
  let yoe := (doe - doe / 1460 + doe / 36524 - doe / 146096) / 365 in
  let doy := doe - (365 * yoe + yoe / 4 - yoe / 100) in
  let mp := (5 * doy + 2) / 153 in
  let m := if mp <? 10 then mp + 3 else mp - 9 in
  (yoe + era * 400 + (if m <=? 2 then 1 else 0), m, doy - (153 * mp + 2) / 5 + 1).

Definition two (n : Z) : str := if n <? 10 then lit "0" ++ show_nat n else show_nat n.

(** [put_time(nowTm, "%Y/%m/%d %H:%M:%S")] of a [time_t]. *)
Definition put_time (now : Z) : str :=
  let '(y, m, d) := civil (now / 86400) in
  let s := now mod 86400 in
  show_nat y ++ lit "/" ++ two m ++ lit "/" ++ two d ++ lit " " ++
  two (s / 3600) ++ lit ":" ++ two (s / 60 mod 60) ++ lit ":" ++ two (s mod 60).

(** ** The state of the library *)

(** The global level and prefix, the bytes on standard error and the termination log; [None]: it
    cannot be opened. *)
Record logging := mkLogging {
  g_level : LogLevel;
  g_log_prefix : str;
  cerr : str;
  termination_log : option str
}.

Definition initial : logging := mkLogging INFO [] [] None.

Definition GetLogLevel (l : logging) : LogLevel := g_level l.
Definition SetLogLevel (level : LogLevel) (l : logging) : logging := mkLogging level (g_log_prefix l) (cerr l) (termination_log l).
Definition GetGlobalLogPrefix (l : logging) : str := g_log_prefix l.
Definition SetGlobalLogPrefix (prefix : str) (l : logging) : logging := mkLogging (g_level l) prefix (cerr l) (termination_log l).

Definition print (s : str) (l : logging) : logging := mkLogging (g_level l) (g_log_prefix l) (cerr l ++ s) (termination_log l).

(** Opening the file empties it. *)
Definition WriteTerminationLog (message : str) (l : logging) : logging :=
  match termination_log l with
  | Some _ => mkLogging (g_level l) (g_log_prefix l) (cerr l) (Some message)
  | None => l
  end.

(** ** Headers *)

Definition LevelPaddingWidth : nat := 7.

(** [std::left << std::setw(n)]. *)
Definition pad (n : nat) (s : str) : str := s ++ replicate (n - length s) " "%char.

Record ILogHeader := mkHeader { file_ : str; line_ : Z; level_ : LogLevel }.

Definition ILogHeader_ctor (file : str) (line : Z) (level : LogLevel) : ILogHeader :=
  mkHeader (match filename file with [] => file | f => f end) line level.

(** [now] is the reading of the system clock. *)
Definition PrintPrefix (h : ILogHeader) (now : Z) (l : logging) : logging :=
  print (GetGlobalLogPrefix l ++ lit "[" ++ pad LevelPaddingWidth (GetLogLevelName (level_ h)) ++ lit " " ++ put_time now ++ lit "] ") l.

Definition PrintFile (h : ILogHeader) (l : logging) : logging :=
  if CheckLogLevel (GetLogLevel l) DEBUG then print (lit "(" ++ file_ h ++ lit ":" ++ show_nat (line_ h) ++ lit ") ") l else l.

(** [ThrottledLogHeader]: the time point in nanoseconds, the interval in seconds. *)
Record ThrottledLogHeader := mkThrottled { base : ILogHeader; last_log_ : Z; interval_ : Z; count_ : Z }.

Definition ThrottledLogHeader_ctor (file : str) (line : Z) (level : LogLevel) (interval : Z) : ThrottledLogHeader :=
  mkThrottled (ILogHeader_ctor file line level) 0 (wrap 32 interval) 0.

(** The two classes of headers. *)
Inductive header := Plain (h : ILogHeader) | Throttled (h : ThrottledLogHeader).

Definition header_base (h : header) : ILogHeader := match h with Plain h => h | Throttled h => base h end.

Definition PrintHeader (h : header) (now : Z) (l : logging) : header * logging :=
  match h with
  | Plain b => (Plain b, PrintFile b (PrintPrefix b now l))
  | Throttled t =>
      let l := PrintPrefix (base t) now l in
      let l := print (lit "[Throttled " ++ show_nat (count_ t) ++ lit " messages] ") l in
      let t := mkThrottled (base t) (last_log_ t) (interval_ t) 0 in
      (Throttled t, PrintFile (base t) l)
  end.

(** The clock is read twice. *)
Definition Suppress (now1 now2 : Z) (t : ThrottledLogHeader) : bool * ThrottledLogHeader :=
  let elapsed := now1 - last_log_ t in
  let count := wrap 64 (count_ t + 1) in
  if elapsed <? interval_ t * 10 ^ 9 then (true, mkThrottled (base t) (last_log_ t) (interval_ t) count)
  else (false, mkThrottled (base t) now2 (interval_ t) count).

(** ** Messages *)

Definition LF : ascii := "010"%char.

(** The arguments of [operator<<], as they print: one of them, or a vector of them. *)
Inductive arg := Value (s : str) | Values (args : list str).

Definition append (buf_ : str) (a : arg) : str :=
  match a with
  | Value s => buf_ ++ s
  | Values args => buf_ ++ fold_left (fun out a => out ++ a ++ [LF]) args []
  end.

(** Whether the process goes on, or calls [exit(1)]. *)
Inductive outcome := Continues (l : logging) | Exits (l : logging).

Definition state_of (o : outcome) : logging := match o with Continues l | Exits l => l end.

(** [LogMessage(header) << args...]: the destructor runs at the end of the statement. *)
Definition LogMessage (h : header) (args : list arg) (now : Z) (l : logging) : header * outcome :=
  let buf_ := fold_left append args [] in
  let '(h, l) := PrintHeader h now l in
  let l := print (buf_ ++ [LF]) l in
  (h, match level_ (header_base h) with
      | FATAL => Exits (WriteTerminationLog buf_ l)
      | _ => Continues l
      end).

(** ** Statements *)

(** Where a statement is and at which level it logs. *)
Record site := mkSite { s_file : str; s_line : Z; s_level : LogLevel }.

(** [CLOG_IF]: the static header is the same every time, and has no state of its own. *)
Definition CLOG_IF (s : site) (cond : bool) (args : list arg) (now : Z) (l : logging) : outcome :=
  let h := Plain (ILogHeader_ctor (s_file s) (s_line s) (s_level s)) in
  if CheckLogLevel (GetLogLevel l) (s_level s) && cond then (LogMessage h args now l).2 else Continues l.

Definition CLOG (s : site) := CLOG_IF s true.

(** One execution of a statement: the arguments, the condition and the readings of the clocks, of the steady
    one in nanoseconds and of the system's in seconds. *)
Record execution := mkExecution { x_cond : bool; x_args : list arg; x_steady1 : Z; x_steady2 : Z; x_now : Z }.

(** [CLOG_THROTTLED_IF]: the static header is made by the first execution. *)
Definition CLOG_THROTTLED_IF (s : site) (interval : Z) (x : execution) (static : option ThrottledLogHeader) (l : logging)
  : option ThrottledLogHeader * outcome :=
  let t := match static with Some t => t | None => ThrottledLogHeader_ctor (s_file s) (s_line s) (s_level s) interval end in
  if CheckLogLevel (GetLogLevel l) (s_level s) && x_cond x then
    let '(suppress, t) := Suppress (x_steady1 x) (x_steady2 x) t in
    if suppress then (Some t, Continues l)
    else
      let '(h, o) := LogMessage (Throttled t) (x_args x) (x_now x) l in
      (match h with Throttled t => Some t | Plain _ => None end, o)
  else (Some t, Continues l).

(** The callback of the inspector; its header is a static, made by the first message it prints. *)
Definition InspectorLogCallback (msg : str) (severity : LogLevel) (now : Z) (static : option ILogHeader) (l : logging)
  : option ILogHeader * outcome :=
  let collector_severity :=
    match severity with
    | DEBUG => if starts_with (lit "libbpf:") msg then TRACE else DEBUG
    | _ => severity
    end in
  if negb (CheckLogLevel (GetLogLevel l) collector_severity) then (static, Continues l)
  else
    let h := match static with Some h => h | None => ILogHeader_ctor (lit "Logging.cpp") 118 collector_severity end in
    (Some h, (LogMessage (Plain h) [Value msg] now l).2).

(** ** Helpers that log *)

(** [Str]: the arguments as they print, one after the other. *)
Fixpoint StrAppend (os : str) (args : list str) : str :=
  match args with [] => os | arg1 :: args => StrAppend (os ++ arg1) args end.

Definition Str (args : list str) : str := StrAppend [] args.

(** [TryUnlink]: [unlink] gives the error, if there is one. *)
Definition TryUnlink (unlink : str -> option str) (path : str) (now : Z) (l : logging) : outcome :=
  match unlink path with
  | None => Continues l
  | Some error =>
      CLOG (mkSite (lit "Utility.cpp") 194 WARNING)
        [Value (lit "Failed to unlink '"); Value path; Value (lit "': "); Value error] now l
  end.

(** [LogProtobufMessage]: [json] is what the conversion of the message gives, text or an error. *)
Definition LogProtobufMessage (json : str + str) (now : Z) (l : logging) : outcome :=
  if negb (CheckLogLevel (GetLogLevel l) DEBUG) then Continues l
  else
    match json with
    | inl output => CLOG (mkSite (lit "Utility.cpp") 274 DEBUG) [Value (lit "GRPC: "); Value output] now l
    | inr status => CLOG (mkSite (lit "Utility.cpp") 276 DEBUG) [Value (lit "MessageToJsonString failed: "); Value status] now l
    end.

(** [operator<<] for a thread. *)
Definition tinfo_print (t : option sinsp_threadinfo) : str :=
  match t with
  | Some t =>
      lit "Container: " ++ [chr 34] ++ GetContainerID (ti_cgroups t) ++ [chr 34] ++ lit ", Name: " ++ ti_comm t ++ lit ", PID: "
      ++ show_Z (ti_pid t) ++ lit ", Args: " ++ ti_exe t
  | None => lit "NULL" ++ [LF]
  end.

(** ** The abort handler *)

Module Abort.

Definition message_buffer_size : nat := 256.

(** [snprintf] into the buffer: what is in it afterwards, and the length of the whole text. *)
Definition snprintf (buffer text : str) : str * nat :=
  let kept := take (message_buffer_size - 1) text in
  (kept ++ [NUL] ++ drop (S (length kept)) buffer, length text).

(** The bytes written to standard error. *)
Definition WriteBuffer (buffer : str) (num_bytes buffer_size : nat) : str :=
  if (buffer_size <? num_bytes)%nat then take buffer_size (<[(buffer_size - 1)%nat := LF]> buffer)
  else take num_bytes buffer.

(** What [dladdr] and the demangler say about an address; null strings are [None]. *)
Record Dl_info := mkInfo { dli_fname : option str; dli_sname : option str; demangled : option str; dli_saddr : option Z }.

(** An address, how it prints, and its symbolic information, if there is any. *)
Record frame := mkFrame { fr_addr : Z; fr_text : str; fr_info : option Dl_info }.

Definition c_str (s : option str) : str := default (lit "(null)") s.

Definition frame_text (f : frame) : str :=
  match fr_info f with
  | Some info =>
      let name := match demangled info with Some d => Some d | None => dli_sname info end in
      let shift := match dli_saddr info with Some a => to_signed 64 (fr_addr f - a) | None => 0 end in
      c_str (dli_fname info) ++ lit " " ++ c_str name ++ lit " " ++ fr_text f ++ lit " + " ++ show_Z shift ++ [LF]
  | None => fr_text f ++ [LF]
  end.

(** A line goes through the buffer, which keeps what was in it. *)
Definition write_line (text : str) (st : str * str) : str * str :=
  let '(err, buffer) := st in
  let '(buffer, num_bytes) := snprintf buffer text in
  (err ++ WriteBuffer buffer num_bytes message_buffer_size, buffer).

Definition write_frames (frames : list frame) (st : str * str) : str * str :=
  fold_left (fun st f => write_line (frame_text f) st) frames st.

Definition max_frames : nat := 32.

(** What the handler writes before it raises the signal again; [stack] is what [backtrace] would
    give without a limit, [buffer] what the stack holds when the handler starts. *)
Definition AbortHandler (stack : list frame) (buffer : str) (signum : signal) (number : Z) (strsignal : str) : str :=
  let frames := take max_frames stack in
  let st := write_frames frames (lit "", buffer) in
  let st := if (length frames =? max_frames)%nat then (st.1 ++ lit "[truncated]" ++ [LF; NUL], st.2) else st in
  (write_line (lit "Caught signal " ++ show_Z number ++ lit " (" ++ SignalName signum ++ lit "): " ++ strsignal ++ [LF]) st).1.

(** What arrives of a line. *)
Definition line_written (text : str) : str :=
  if (length text <? message_buffer_size)%nat then text
  else take (message_buffer_size - 1) text ++ (if (length text =? message_buffer_size)%nat then [NUL] else [LF]).

Lemma write_line_spec (text err buffer : str) :
  length buffer = message_buffer_size ->
  (write_line text (err, buffer)).1 = err ++ line_written text /\ length (write_line text (err, buffer)).2 = message_buffer_size.
Proof.
  intros Hb. cbn [write_line snprintf fst snd]. unfold WriteBuffer, line_written.
  assert (message_buffer_size = S (message_buffer_size - 1)) as Hs by done.
  generalize dependent (message_buffer_size - 1)%nat. generalize dependent message_buffer_size. intros n Hb m ->.
  pose proof (length_take text m) as Hk. pose proof (take_ge text m) as Hge. generalize dependent (take m text). intros kept Hk Hge.
  split; [|rewrite !length_app, length_drop; cbn; lia]. f_equal.
  destruct (Nat.ltb_spec (length text) (S m)) as [H2|H2].
  - rewrite (proj2 (Nat.ltb_ge (S m) (length text))) by lia. rewrite Hge by lia. apply take_app_length.
  - rewrite (drop_ge buffer) by lia. assert (length kept = m) as Hm by lia.
    destruct (Nat.ltb_spec (S m) (length text)) as [H1|H1].
    + rewrite (proj2 (Nat.eqb_neq (length text) (S m))) by lia. 
      assert (<[m := LF]> (kept ++ [NUL]) = kept ++ [LF]) as Hi by (rewrite insert_app_r_alt by lia; by rewrite Hm, Nat.sub_diag).
      etrans; [|exact Hi]. apply take_ge. rewrite length_insert, length_app. cbn. lia.
    + rewrite (proj2 (Nat.eqb_eq (length text) (S m))) by lia. apply take_ge. rewrite length_app. cbn. lia.
Qed.

Lemma write_lines_spec texts : forall err buffer : str, length buffer = message_buffer_size ->
  exists buffer', write_frames texts (err, buffer) =
    (err ++ concat (map (fun f => line_written (frame_text f)) texts), buffer') /\ length buffer' = message_buffer_size.
Proof.
  induction texts as [|f texts IH]; intros err buffer Hb; cbn [write_frames fold_left map concat]; [exists buffer; by rewrite app_nil_r|].
  destruct (write_line_spec (frame_text f) err buffer Hb) as [E1 E2].
  destruct (write_line (frame_text f) (err, buffer)) as [err1 buffer1]. cbn [fst snd] in *. subst err1.
  destruct (IH (err ++ line_written (frame_text f)) buffer1 E2) as (b & E & Hl). exists b. split; [|done].
  etrans; [exact E|]. by rewrite <- (assoc_L (++)).
Qed.

(** [AbortHandler] writes one line per frame of the stack, for 32 frames at most, and the signal.
    Of a line that is too long 255 bytes arrive and a line feed; where it is too long by exactly one
    byte the terminator of the string arrives instead, and another one after the mark of a stack that was cut
    off. *)
Theorem AbortHandler_spec (stack : list frame) (buffer : str) (signum : signal) (number : Z) (strsignal : str) :
  length buffer = message_buffer_size ->
  AbortHandler stack buffer signum number strsignal =
    concat (map (fun f => line_written (frame_text f)) (take max_frames stack)) ++
    (if (max_frames <=? length stack)%nat then lit "[truncated]" ++ [LF; NUL] else []) ++
    line_written (lit "Caught signal " ++ show_Z number ++ lit " (" ++ SignalName signum ++ lit "): " ++ strsignal ++ [LF]).
Proof.
  intros Hb. unfold AbortHandler. destruct (write_lines_spec (take max_frames stack) (lit "") buffer Hb) as (b & E & Hl).
  cbv zeta. rewrite E. cbn [fst snd].
  rewrite length_take. destruct (Nat.leb_spec max_frames (length stack)) as [H|H].
  - rewrite Nat.min_l, Nat.eqb_refl by done. rewrite (proj1 (write_line_spec _ _ _ Hl)). by rewrite <- !(assoc_L (++)).
  - rewrite Nat.min_r by lia. rewrite (proj2 (Nat.eqb_neq _ _)) by lia. by rewrite (proj1 (write_line_spec _ _ _ Hl)).
Qed.

End Abort.

(** ** What a line looks like *)

Definition arg_text (a : arg) : str := match a with Value s => s | Values args => concat (map (fun a => a ++ [LF]) args) end.

Definition text (args : list arg) : str := concat (map arg_text args).

(** The parts of a header: prefix, level and time; and where the statement is, from [DEBUG] on. *)
Definition prefix_text (l : logging) (level : LogLevel) (now : Z) : str :=
  g_log_prefix l ++ lit "[" ++ pad LevelPaddingWidth (GetLogLevelName level) ++ lit " " ++ put_time now ++ lit "] ".

Definition file_text (l : logging) (h : ILogHeader) : str :=
  if CheckLogLevel (g_level l) DEBUG then lit "(" ++ file_ h ++ lit ":" ++ show_nat (line_ h) ++ lit ") " else [].

Definition line_text (l : logging) (h : ILogHeader) (throttled : str) (args : list arg) (now : Z) : str :=
  prefix_text l (level_ h) now ++ throttled ++ file_text l h ++ text args ++ [LF].

Definition throttled_text (count : Z) : str := lit "[Throttled " ++ show_nat count ++ lit " messages] ".

(** What a process does after a message: a fatal one is also in the termination log, if there is one. *)
Definition ended (level : LogLevel) (message : str) (l : logging) : outcome :=
  match level with
  | FATAL => Exits (mkLogging (g_level l) (g_log_prefix l) (cerr l) ((fun _ => message) <$> termination_log l))
  | _ => Continues l
  end.

Lemma fold_lines args : forall acc, fold_left (fun out a => out ++ a ++ [LF]) args acc = acc ++ concat (map (fun a => a ++ [LF]) args).
Proof.
  induction args as [|a args IH]; intros acc; cbn [fold_left map concat]; [by rewrite app_nil_r|].
  rewrite IH. by rewrite <- !(assoc_L (++)).
Qed.

Lemma fold_append args : forall buf, fold_left append args buf = buf ++ text args.
Proof.
  unfold text. induction args as [|a args IH]; intros buf; cbn [fold_left map concat]; [by rewrite app_nil_r|].
  rewrite IH. destruct a as [s|vs]; cbn [append arg_text]; [|rewrite fold_lines]; by rewrite <- !(assoc_L (++)).
Qed.

Lemma print_print s s' l : print s' (print s l) = print (s ++ s') l.
Proof. unfold print. cbn. by rewrite (assoc_L (++)). Qed.

Lemma PrintFile_print s h l : PrintFile h (print s l) = print (s ++ file_text l h) l.
Proof.
  unfold PrintFile, file_text, GetLogLevel. cbn [g_level print]. destruct (CheckLogLevel _ _); [apply print_print|by rewrite app_nil_r].
Qed.

Lemma fatal_end level buf l :
  match level with FATAL => Exits (WriteTerminationLog buf l) | _ => Continues l end = ended level buf l.
Proof. destruct level; try done. cbn. unfold WriteTerminationLog. by destruct l as [? ? ? []]. Qed.

Lemma LogMessage_plain h args now l :
  LogMessage (Plain h) args now l = (Plain h, ended (level_ h) (text args) (print (line_text l h [] args now) l)).
Proof.
  unfold LogMessage. rewrite fold_append. cbn [PrintHeader header_base]. unfold PrintPrefix.
  rewrite PrintFile_print, print_print, fatal_end. unfold line_text, prefix_text, GetGlobalLogPrefix. by rewrite <- !(assoc_L (++)).
Qed.

Lemma LogMessage_throttled t args now l :
  LogMessage (Throttled t) args now l =
  (Throttled (mkThrottled (base t) (last_log_ t) (interval_ t) 0),
   ended (level_ (base t)) (text args) (print (line_text l (base t) (throttled_text (count_ t)) args now) l)).
Proof.
  unfold LogMessage. rewrite fold_append. cbn [PrintHeader header_base base]. unfold PrintPrefix.
  rewrite print_print, PrintFile_print, print_print, fatal_end. unfold line_text, prefix_text, throttled_text, GetGlobalLogPrefix.
  by rewrite <- !(assoc_L (++)).
Qed.

(** Messages are logged at the most verbose levels only, and never end the process. *)
Lemma LogProtobufMessage_spec json now l :
  LogProtobufMessage json now l =
  Continues (if CheckLogLevel (g_level l) DEBUG
             then print (line_text l (mkHeader (lit "Utility.cpp") (match json with inl _ => 274 | inr _ => 276 end) DEBUG) []
                           (match json with
                            | inl output => [Value (lit "GRPC: "); Value output]
                            | inr status => [Value (lit "MessageToJsonString failed: "); Value status]
                            end) now) l
             else l).
Proof.
  unfold LogProtobufMessage, CLOG, CLOG_IF, GetLogLevel. cbn [s_level]. destruct (CheckLogLevel (g_level l) DEBUG); [|done]. cbn [negb].
  destruct json; cbn [andb]; by rewrite LogMessage_plain.
Qed.

(** [CLOG]: a statement prints one line if its level is at most the global one, and otherwise does
    nothing; the process ends exactly if the line is fatal, with the message in the termination log. *)
Theorem CLOG_spec (s : site) (cond : bool) (args : list arg) (now : Z) (l : logging) :
  CLOG_IF s cond args now l =
  if (LogLevel_value (s_level s) <=? LogLevel_value (g_level l)) && cond then
    ended (s_level s) (text args) (print (line_text l (ILogHeader_ctor (s_file s) (s_line s) (s_level s)) [] args now) l)
  else Continues l.
Proof.
  unfold CLOG_IF, CheckLogLevel, GetLogLevel. destruct (_ && cond); [|done]. by rewrite LogMessage_plain.
Qed.

(** ** The callback of the inspector *)

(** The header of the first message that is printed is used for all of them: whatever severity the
    inspector gives later, the line is labelled with the first one, and a fatal message
    does not end the process unless the first one was fatal. *)
Theorem inspector_severity_sticks (msg1 msg : str) (severity1 severity : LogLevel) (now1 now : Z) (l1 l : logging) :
  severity1 <> DEBUG -> severity <> DEBUG -> severity1 <> FATAL ->
  CheckLogLevel (g_level l1) severity1 = true -> CheckLogLevel (g_level l) severity = true ->
  let '(static, _) := InspectorLogCallback msg1 severity1 now1 None l1 in
  let h := ILogHeader_ctor (lit "Logging.cpp") 118 severity1 in
  InspectorLogCallback msg severity now static l =
    (static, Continues (print (prefix_text l severity1 now ++ file_text l h ++ msg ++ [LF]) l)).
Proof.
  intros Hd1 Hd Hf H1 H. unfold InspectorLogCallback.
  assert (forall m s, s <> DEBUG -> match s with DEBUG => if starts_with (lit "libbpf:") m then TRACE else DEBUG | _ => s end = s) as Hs
    by (by intros m []).
  unfold GetLogLevel. rewrite (Hs msg1 severity1 Hd1), (Hs msg severity Hd), H1, H. cbn [negb]. rewrite LogMessage_plain. cbn [snd].
  f_equal. unfold ended, line_text, text. cbn [level_ ILogHeader_ctor map concat arg_text app]. rewrite app_nil_r.
  by destruct severity1.
Qed.

Lemma inspector_severity_sticks_witness :
  let static := (InspectorLogCallback (lit "hello") INFO 0 None initial).1 in
  exists l, InspectorLogCallback (lit "bye") FATAL 0 static initial = (static, Continues l)
    /\ cerr l = lit "[INFO    1970/01/01 00:00:00] bye" ++ [LF].
Proof.
  cbv zeta.
  pose proof (inspector_severity_sticks (lit "hello") (lit "bye") INFO FATAL 0 0 initial initial
    ltac:(discriminate) ltac:(discriminate) ltac:(discriminate) eq_refl eq_refl) as H.
  destruct (InspectorLogCallback (lit "hello") INFO 0 None initial) as [static o]. cbn [fst] in *.
  eexists. split; [exact H|]. vm_compute. reflexivity.
Defined.

(** ** Throttled statements *)

(** Executions of one statement, each in the state of the library the program has brought about by then. *)
Fixpoint executions (s : site) (interval : Z) (es : list (execution * logging)) (static : option ThrottledLogHeader)
  : list outcome * option ThrottledLogHeader :=
  match es with
  | [] => ([], static)
  | (x, l) :: es =>
      let '(static, o) := CLOG_THROTTLED_IF s interval x static l in
      let '(os, static) := executions s interval es static in
      (o :: os, static)
  end.

Definition enabled (s : site) (e : execution * logging) : bool := CheckLogLevel (g_level e.2) (s_level s) && x_cond e.1.

(** What an execution does that prints a count, or none. *)
Definition execution_outcome (s : site) (e : execution * logging) (count : option Z) : outcome :=
  match count with
  | None => Continues e.2
  | Some c =>
      let h := ILogHeader_ctor (s_file s) (s_line s) (s_level s) in
      Continues (print (line_text e.2 h (throttled_text c) (x_args e.1) (x_now e.1)) e.2)
  end.

(** The clock at the printed executions, before and after the decision. *)
Definition printed (es : list (execution * logging)) (counts : list (option Z)) : list (Z * Z) :=
  omap (fun '(e, c) => match c with Some _ => Some (x_steady1 e.1, x_steady2 e.1) | None => None end) (zip es counts).

Definition spaced (interval : Z) (a b : Z * Z) : Prop := interval * 10 ^ 9 <= b.1 - a.2.

Definition total (counts : list (option Z)) : Z := fold_right (fun c n => default 0 c + n) 0 counts.

Lemma total_cons c cs : total (c :: cs) = default 0 c + total cs.
Proof. done. Qed.

Definition pending (static : option ThrottledLogHeader) : Z := from_option count_ 0 static.

Lemma executions_some s interval es : forall t,
  s_level s <> FATAL -> base t = ILogHeader_ctor (s_file s) (s_line s) (s_level s) ->
  0 <= count_ t -> count_ t + Z.of_nat (length es) < 2 ^ 64 ->
  exists counts t', executions s interval es (Some t) = (zip_with (execution_outcome s) es counts, Some t') /\
    length counts = length es /\ Forall (fun c => match c with Some c => 0 < c | None => True end) counts /\
    total counts + count_ t' = count_ t + Z.of_nat (length (List.filter (enabled s) es)) /\
    Sorted (spaced (interval_ t)) (printed es counts) /\
    HdRel (spaced (interval_ t)) (0, last_log_ t) (printed es counts).
Proof.
  induction es as [|[x l] es IH]; intros t Hl Hb H0 Hc; cbn [executions length] in *.
  { exists [], t. cbn. split_and!; [done..|lia|constructor|constructor]. }
  unfold CLOG_THROTTLED_IF. cbn [List.filter]. unfold enabled at 1. cbn [fst snd]. unfold GetLogLevel.
  destruct (CheckLogLevel (g_level l) (s_level s) && x_cond x).
  - unfold Suppress. rewrite wrap_id by (unfold word; lia).
    destruct (Z.ltb_spec (x_steady1 x - last_log_ t) (interval_ t * 10 ^ 9)) as [Hlt|Hge].
    + destruct (IH (mkThrottled (base t) (last_log_ t) (interval_ t) (count_ t + 1)) Hl Hb) as (cs & t' & -> & Hn & Hp & Ht & Hs & Hh);
        cbn [count_ interval_ last_log_] in *; [lia|lia|].
      exists (None :: cs), t'. cbn [zip_with execution_outcome length snd]. split_and!; [done|lia|by constructor| |done|done].
      rewrite total_cons. cbn [from_option length id]. lia.
    + rewrite LogMessage_throttled. cbn [base last_log_ interval_ count_]. rewrite Hb. cbn [ILogHeader_ctor level_].
      destruct (IH (mkThrottled (base t) (x_steady2 x) (interval_ t) 0) Hl Hb) as (cs & t' & E & Hn & Hp & Ht & Hs & Hh);
        cbn [count_ interval_ last_log_] in *; [lia|lia|]. rewrite Hb in E. cbn [ILogHeader_ctor] in E. rewrite E.
      exists (Some (count_ t + 1) :: cs), t'. cbn [zip_with execution_outcome length fst snd]. split_and!.
      * f_equal. f_equal. unfold ended. by destruct (s_level s).
      * lia.
      * constructor; [lia|done].
      * rewrite total_cons. cbn [from_option length id]. lia.
      * change (printed _ _) with ((x_steady1 x, x_steady2 x) :: printed es cs). constructor; [exact Hs|].
        destruct Hh as [|b bs Hh]; by constructor.
      * cbn. constructor. unfold spaced. cbn. lia.
  - destruct (IH t Hl Hb H0 ltac:(lia)) as (cs & t' & -> & Hn & Hp & Ht & Hs & Hh).
    exists (None :: cs), t'. cbn [zip_with execution_outcome length snd]. split_and!; [done|lia|by constructor| |done|done].
    rewrite total_cons. cbn [from_option length id]. lia.
Qed.

(** C38. [CLOG_THROTTLED_IF]: in any number of executions, whatever happens to the log in between, every
    execution prints nothing or its line; between two of the lines at least the interval has
    passed; and the counts the lines show, with the one the next line would show, sum up to the
    number of executions that were enabled.  None is counted twice or lost. *)
Theorem throttled_spec (s : site) (interval : Z) (es : list (execution * logging)) :
  s_level s <> FATAL -> 0 <= interval < 2 ^ 32 -> Z.of_nat (length es) < 2 ^ 64 ->
  exists counts,
    (executions s interval es None).1 = zip_with (execution_outcome s) es counts /\ length counts = length es /\
    Forall (fun c => match c with Some c => 0 < c | None => True end) counts /\
    total counts + pending (executions s interval es None).2 = Z.of_nat (length (List.filter (enabled s) es)) /\
    Sorted (spaced interval) (printed es counts).
Proof.
  intros Hl Hi Hn. set (t := ThrottledLogHeader_ctor (s_file s) (s_line s) (s_level s) interval).
  destruct (executions_some s interval es t Hl eq_refl ltac:(done) ltac:(cbn; lia)) as (cs & t' & E & H1 & H2 & H3 & H4 & _).
  destruct es as [|[x l] es]; [exists []; cbn; split_and!; [done..|constructor]|].
  exists cs. assert (executions s interval ((x, l) :: es) None = executions s interval ((x, l) :: es) (Some t)) as -> by done.
  rewrite E. cbn [fst snd pending from_option]. split_and!; [done..|].
  cbn [interval_ t ThrottledLogHeader_ctor] in H4. by rewrite wrap_id in H4.
Qed.

(** A message every two seconds, one every ten seconds is printed. *)
Definition storm : list (execution * logging) :=
  map (fun k => (mkExecution true [Value (lit "oops")] ((100 + 2 * Z.of_nat k) * 10 ^ 9) ((100 + 2 * Z.of_nat k) * 10 ^ 9) 0, initial)) (seq 0 12).

Lemma throttled_spec_witness : exists counts,
  (executions (mkSite (lit "/src/x.cpp") 7 ERROR) 10 storm None).1 = zip_with (execution_outcome (mkSite (lit "/src/x.cpp") 7 ERROR)) storm counts
  /\ total counts + 1 = 12.
Proof.
  destruct (throttled_spec (mkSite (lit "/src/x.cpp") 7 ERROR) 10 storm ltac:(discriminate) ltac:(lia) ltac:(vm_compute; reflexivity))
    as (counts & H & _ & _ & Ht & _).
  exists counts. split; [exact H|]. exact Ht.
Defined.

(** The steady clock starts with the machine and a header remembers time 0: the first occurrences
    are suppressed as long as the machine has been up for less than the interval. *)
Lemma throttled_at_boot s interval x l :
  0 <= interval < 2 ^ 32 -> x_steady1 x < interval * 10 ^ 9 -> (CLOG_THROTTLED_IF s interval x None l).2 = Continues l.
Proof.
  intros Hi Hx. unfold CLOG_THROTTLED_IF, Suppress. cbn [last_log_ interval_ ThrottledLogHeader_ctor]. rewrite wrap_id by done.
  rewrite Z.sub_0_r, (proj2 (Z.ltb_lt _ _) Hx). by destruct (_ && _).
Qed.

(** Leap days, centuries and the last second of a year. *)
Example put_time_dates :
  put_time 951782400 = lit "2000/02/29 00:00:00" /\ put_time 4107542400 = lit "2100/03/01 00:00:00" /\
  put_time 1735689599 = lit "2024/12/31 23:59:59" /\ put_time 1709164800 = lit "2024/02/29 00:00:00".
Proof. vm_compute. split_and!; reflexivity. Qed.
