(* ===== verification/SelfChecks.v ===== *)
(** * The self checks

    The program [self-checks.cpp], whose two processes open a listening socket and connect to it,
    and [start_self_check_process] of [SelfChecks.cpp], which runs it and looks at its status.  The results of
    the system calls are inputs; descriptors, [errno] and wait statuses are as POSIX has
    them. *)

From stdpp Require Import gmap.
From S2P Require Import Prelude Containers Utility Service Config Logging.

Open Scope Z_scope.
Open Scope collector_scope.

(** ** System calls *)

Definition ECONNREFUSED : Z := 111.
Definition EINVAL : Z := 22.
Definition EBADF : Z := 9.

(** The result of a call: a value, or an error. *)
Abbreviation result := (Z + Z)%type.

(** A process: its descriptors and [errno]. *)
Record process := mkProcess { fds : gset Z; errno : Z }.

(** A call that gives a number: -1 and the error where it fails. *)
Definition call (r : result) (p : process) : Z * process :=
  match r with inl v => (v, p) | inr e => (-1, mkProcess (fds p) e) end.

Definition socket (r : result) (p : process) : Z * process :=
  match r with inl v => (v, mkProcess (fds p ∪ {[v]}) (errno p)) | inr e => (-1, mkProcess (fds p) e) end.

Definition close (fd : Z) (p : process) : process :=
  if decide (fd ∈ fds p) then mkProcess (fds p ∖ {[fd]}) (errno p) else mkProcess (fds p) EBADF.

(** [select] for reading: of the descriptors in the set only those below [nfds] are looked at. *)
Definition select (nfds : Z) (sockets : list Z) (readable : Z -> bool) (failure : option Z) (p : process) : Z * process :=
  match failure with
  | Some e => (-1, mkProcess (fds p) e)
  | None => (Z.of_nat (length (List.filter (fun fd => (0 <=? fd) && (fd <? nfds) && readable fd) sockets)), p)
  end.

(** ** [self-checks.cpp] *)

Definition g_connection_retries : Z := 5.
Definition g_timeout_seconds : Z := 10.
Definition g_sleep_seconds : Z := 1.

(** What the system answers to the process that listens: which sockets have a connection waiting
    within the time limit is [l_readable]. *)
Record listen_calls := mkListen {
  l_socket : result;
  l_bind : result;
  l_listen : result;
  l_readable : Z -> bool;
  l_select : option Z;
  l_accept : result
}.

(** The label [err] of [startListeningPort]. *)
Definition listen_err (result : bool) (connection listener : Z) (p : process) : bool * process :=
  (result, close listener (close connection p)).

Definition startListeningPort (port : Z) (c : listen_calls) (p : process) : bool * process :=
  let connection := -1 in
  let '(listener, p) := socket (l_socket c) p in
  if listener <? 0 then listen_err false connection listener p
  else
    let '(r, p) := call (l_bind c) p in
    if r <? 0 then listen_err false connection listener p
    else
      let '(r, p) := call (l_listen c) p in
      if r <? 0 then listen_err false connection listener p
      else
        let '(r, p) := select 1 [listener] (l_readable c) (l_select c) p in
        if r <=? 0 then listen_err false connection listener p
        else
          let '(connection, p) := socket (l_accept c) p in
          if connection <? 0 then listen_err false connection listener p
          else listen_err true connection listener p.

Record connect_calls := mkConnect { c_socket : result; c_connect : Z -> result }.

(** The loop over [i]: whether it was left with [goto err], and the seconds slept. *)
Fixpoint connect_loop (fuel : nat) (i slept : Z) (c : connect_calls) (p : process) : bool * Z * process :=
  match fuel with
  | O => (true, slept, p)
  | S fuel =>
      if i <? g_connection_retries then
        let '(r, p) := call (c_connect c i) p in
        if r <? 0 then
          if negb (errno p =? ECONNREFUSED) then (false, slept, p)
          else connect_loop fuel (i + 1) (slept + g_sleep_seconds) c p
        else (true, slept, p)
      else (true, slept, p)
  end.

Definition connectToPort (port : Z) (c : connect_calls) (p : process) : bool * Z * process :=
  let '(connection, p) := socket (c_socket c) p in
  if connection <? 0 then (false, 0, close connection p)
  else
    let '(result, slept, p) := connect_loop (Z.to_nat g_connection_retries) 0 0 c p in
    (result, slept, close connection p).

(** How a process ends: the value [main] returns, or a signal. *)
Inductive ending := Returns (value : Z) | Killed (signum : Z).

(** The status [waitpid] gives: of the value only the low eight bits are kept. *)
Definition wait_status (e : ending) : Z :=
  match e with Returns v => Z.shiftl (Z.land v 255) 8 | Killed s => s end.

Definition WEXITSTATUS (status : Z) : Z := Z.land (Z.shiftr status 8) 255.

(** What the system does with the two processes: the pid of the child or the error of [fork], and a signal that
    ends a process before it does anything. *)
Record check_calls := mkCheck {
  k_fork : result;
  k_listen : listen_calls;
  k_connect : connect_calls;
  k_child_killed : option Z;
  k_parent_killed : option Z
}.

Definition child (port : Z) (c : check_calls) (p : process) : ending :=
  match k_child_killed c with
  | Some s => Killed s
  | None => let '(ok, p) := startListeningPort (wrap 16 port) (k_listen c) p in Returns (if ok then 0 else errno p)
  end.

(** [main], up to the end of the process; [None] is the exception of [std::stoi]. *)
Definition main (argv : list str) (c : check_calls) (p : process) : option ending :=
  match k_parent_killed c with
  | Some s => Some (Killed s)
  | None =>
      match argv with
      | [_; port] =>
          let! port := stoi port in
          match k_fork c with
          | inr e => Some (Returns e)
          | inl _ =>
              let '(ok, _, p') := connectToPort (wrap 16 port) (k_connect c) p in
              Some (Returns (if ok then wait_status (child port c p) else errno p'))
          end
      | _ => Some (Returns EINVAL)
      end
  end.

(** ** [SelfChecks.cpp] *)

Definition SIGABRT_number : Z := 6.

(** The child of collector: [execve] fails, or the program runs. *)
Definition exec_child (exec : option Z) (c : check_calls) (p : process) : ending :=
  match exec with
  | Some e => Returns e
  | None =>
      match main [kSelfChecksExePath; show_nat kSelfCheckServerPort] c p with
      | Some e => e
      | None => Killed SIGABRT_number
      end
  end.

Definition fork_site : site := mkSite (lit "SelfChecks.cpp") 25 FATAL.
Definition status_site : site := mkSite (lit "SelfChecks.cpp") 40 INFO.
Definition failed_site : site := mkSite (lit "SelfChecks.cpp") 42 FATAL.

(** [start_self_check_process]; [exec] is the error of [execve], if it fails. *)
Definition start_self_check_process (fork : result) (exec : option Z) (c : check_calls) (p : process) (strerror : Z -> str) (now : Z)
    (l : logging) : outcome :=
  match fork with
  | inr _ => CLOG fork_site [Value (lit "Failed to fork self-check process")] now l
  | inl pid =>
      let status := wait_status (exec_child exec c p) in
      let o := CLOG status_site [Value (lit "self-check (pid="); Value (show_nat pid); Value (lit ") exited with status: ");
                                 Value (show_nat (WEXITSTATUS status))] now l in
      match o with
      | Exits l => Exits l
      | Continues l =>
          if negb (status =? 0) then
            CLOG failed_site [Value (lit "self-checks failed to execute: "); Value (strerror (WEXITSTATUS status))] now l
          else Continues l
      end
  end.

(** ** The listening process *)

(** A descriptor that is new: the lowest one that is not open. *)
Definition fresh (r : result) (p : process) : Prop := match r with inl v => 0 <= v /\ v ∉ fds p | inr e => 0 < e end.

Lemma close_invalid p : -1 ∉ fds p -> close (-1) p = mkProcess (fds p) EBADF.
Proof. intros H. unfold close. by rewrite decide_False. Qed.

Lemma close_fresh v s e : v ∉ s -> close v (mkProcess (s ∪ {[v]}) e) = mkProcess s e.
Proof.
  intros H. unfold close. cbn [fds errno]. rewrite decide_True by set_solver. f_equal. set_solver.
Qed.

(** The label [err] with no connection: the socket is closed, and whatever the error was, it is EBADF now. *)
Lemma listen_err_none v s e : v ∉ s -> -1 ∉ s -> v <> -1 -> listen_err false (-1) v (mkProcess (s ∪ {[v]}) e) = (false, mkProcess s EBADF).
Proof.
  intros Hv Hn Hne. unfold listen_err. rewrite close_invalid by (cbn [fds]; set_solver). cbn [fds]. by rewrite close_fresh.
Qed.

(** [startListeningPort] never accepts a connection if descriptor 0 is open: [select] looks at the
    descriptors below its first argument, which is 1.  It fails with EBADF, whatever happened,
    and leaves no descriptor open. *)
Lemma startListeningPort_fails (port : Z) (c : listen_calls) (p : process) :
  0 ∈ fds p -> -1 ∉ fds p -> fresh (l_socket c) p ->
  startListeningPort port c p = (false, mkProcess (fds p) EBADF).
Proof.
  intros H0 Hn Hs. unfold startListeningPort. destruct (l_socket c) as [v|e]; cbn [socket fresh] in *.
  - destruct Hs as [Hv Hin]. assert (v <> 0) as Hv0 by (intros ->; done). rewrite (proj2 (Z.ltb_ge v 0)) by lia.
    assert (forall q, fds q = fds p ∪ {[v]} -> listen_err false (-1) v q = (false, mkProcess (fds p) EBADF)) as Herr.
    { intros [s e] E. cbn in E. subst s. apply listen_err_none; [done|done|lia]. }
    assert (forall r q, fds (call r q).2 = fds q) as Hc by (by intros [] ?).
    destruct (call (l_bind c) _) as [r1 p1] eqn:E1. pose proof (Hc (l_bind c) (mkProcess (fds p ∪ {[v]}) (errno p))) as F1.
    rewrite E1 in F1. cbn [snd fds] in F1. destruct (r1 <? 0); [by apply Herr|].
    destruct (call (l_listen c) p1) as [r2 p2] eqn:E2. pose proof (Hc (l_listen c) p1) as F2. rewrite E2 in F2. cbn [snd] in F2.
    destruct (r2 <? 0); [apply Herr; congruence|]. unfold select. destruct (l_select c) as [e|]; [apply Herr; cbn; congruence|].
    cbn [List.filter]. rewrite (proj2 (Z.ltb_ge v 1)) by lia. rewrite andb_false_r. cbn. apply Herr. congruence.
  - cbn [Z.ltb Z.compare]. unfold listen_err. rewrite (close_invalid (mkProcess _ e) Hn). by rewrite close_invalid by exact Hn.
Qed.

(** ** The connecting process *)

(** What the loop makes of the attempts: the first one that is not refused decides, and if all are
    refused it counts as connected. *)
Fixpoint attempts (l : list result) : bool * Z :=
  match l with
  | [] => (true, 0)
  | inl _ :: _ => (true, 0)
  | inr e :: l => if e =? ECONNREFUSED then let '(ok, slept) := attempts l in (ok, slept + 1) else (false, 0)
  end.

Definition connect_results (c : connect_calls) (i : Z) (n : nat) : list result :=
  map (fun k => c_connect c (i + Z.of_nat k)) (seq 0 n).

Lemma connect_results_S c i n : connect_results c i (S n) = c_connect c i :: connect_results c (i + 1) n.
Proof.
  unfold connect_results. cbn [seq map]. f_equal; [f_equal; lia|]. rewrite <- seq_shift, map_map. apply map_ext. intros k. f_equal. lia.
Qed.

Lemma connect_loop_spec c fuel : forall i slept p,
  (forall k v, c_connect c k = inl v -> 0 <= v) -> i + Z.of_nat fuel = g_connection_retries ->
  exists e, connect_loop fuel i slept c p =
    ((attempts (connect_results c i fuel)).1, slept + (attempts (connect_results c i fuel)).2, mkProcess (fds p) e).
Proof.
  induction fuel as [|fuel IH]; intros i slept p Hc Hi; [exists (errno p); cbn; rewrite Z.add_0_r; by destruct p|].
  cbn [connect_loop]. rewrite (proj2 (Z.ltb_lt i g_connection_retries)) by lia. rewrite connect_results_S. cbn [attempts].
  destruct (c_connect c i) as [v|e] eqn:E; cbn [call errno].
  - rewrite (proj2 (Z.ltb_ge v 0)) by (by eapply Hc). exists (errno p). cbn. rewrite Z.add_0_r. by destruct p.
  - cbn [Z.ltb Z.compare]. destruct (e =? ECONNREFUSED) eqn:Ee; cbn [negb fst snd].
    + destruct (IH (i + 1) (slept + g_sleep_seconds) (mkProcess (fds p) e) Hc ltac:(lia)) as [e' ->]. exists e'.
      destruct (attempts _) as [ok n]. cbn [fst snd fds]. unfold g_sleep_seconds. do 2 f_equal. lia.
    + exists e. by rewrite Z.add_0_r.
Qed.

(** [connectToPort]: it succeeds if one of the five attempts does, and also if all of them are
    refused; it sleeps one second after each refusal and leaves no descriptor open. *)
Lemma connectToPort_spec (port : Z) (c : connect_calls) (p : process) (v : Z) :
  c_socket c = inl v -> 0 <= v -> v ∉ fds p -> (forall k v, c_connect c k = inl v -> 0 <= v) ->
  exists e, connectToPort port c p =
    ((attempts (connect_results c 0 5)).1, (attempts (connect_results c 0 5)).2, mkProcess (fds p) e).
Proof.
  intros Hs Hv Hin Hc. unfold connectToPort. rewrite Hs. cbn [socket]. rewrite (proj2 (Z.ltb_ge v 0)) by lia.
  destruct (connect_loop_spec c (Z.to_nat g_connection_retries) 0 0 (mkProcess (fds p ∪ {[v]}) (errno p)) Hc ltac:(done)) as [e ->].
  exists e. cbn [fds]. rewrite close_fresh by done. done.
Qed.

(** ** The whole check *)

Lemma wait_status_returns v : wait_status (Returns v) mod 256 = 0.
Proof. cbn. rewrite Z.shiftl_mul_pow2 by lia. by rewrite Z.mod_mul. Qed.

(** The value [main] returns is the wait status of the child, of which the system keeps the low
    eight bits, those that a child that returned leaves at zero. *)
Lemma main_hides_child (c : check_calls) (p : process) (exe port : str) (n : Z) :
  stoi port = Some n -> k_parent_killed c = None -> k_child_killed c = None -> (exists pid, k_fork c = inl pid) ->
  (connectToPort (wrap 16 n) (k_connect c) p).1.1 = true ->
  exists e, main [exe; port] c p = Some e /\ wait_status e = 0.
Proof.
  intros Hport Hk Hck [pid Hf] Hc. unfold main. rewrite Hk, Hport, Hf. destruct (connectToPort _ _ _) as [[ok slept] q]. cbn [fst] in Hc. subst ok.
  eexists. split; [reflexivity|]. unfold child. rewrite Hck. destruct (startListeningPort _ _ _) as [ok q'].
  pose proof (wait_status_returns (if ok then 0 else errno q')) as Hm. cbn [wait_status] in *.
  rewrite (Z.land_ones _ 8) by lia. change (2 ^ 8) with 256. by rewrite Hm.
Qed.

Lemma CLOG_continues s args now l : s_level s <> FATAL -> exists l', CLOG s args now l = Continues l'.
Proof.
  intros H. unfold CLOG. rewrite CLOG_spec. destruct (_ && true); [|by eexists]. unfold ended. destruct (s_level s); [done|by eexists..].
Qed.

Lemma CLOG_exits s args now l : s_level s = FATAL -> exists l', CLOG s args now l = Exits l'.
Proof. intros H. unfold CLOG. rewrite CLOG_spec, H. destruct (g_level l); by eexists. Qed.

(** [start_self_check_process] ends collector exactly if the check cannot be started or does not
    end with status 0. *)
Theorem start_self_check_process_spec (fork : result) (exec : option Z) (c : check_calls) (p : process) (strerror : Z -> str) (now : Z) (l : logging) :
  (exists l', start_self_check_process fork exec c p strerror now l = Exits l') <->
  match fork with inr _ => True | inl _ => wait_status (exec_child exec c p) <> 0 end.
Proof.
  unfold start_self_check_process. destruct fork as [pid|e]; [|by split; [done|]; intros _; apply CLOG_exits].
  match goal with |- context [CLOG status_site ?a now l] => destruct (CLOG_continues status_site a now l ltac:(done)) as [l1 ->] end.
  destruct (Z.eqb_spec (wait_status (exec_child exec c p)) 0) as [E|E]; cbn [negb].
  - split; [by intros [? [=]]|done].
  - split; [done|]. intros _. by apply CLOG_exits.
Qed.

(** C40. The check as collector runs it, where both forks, the exec and the connecting socket succeed, no signal kills
    a process, descriptor 0 is open, and every attempt to connect succeeds or is refused: the listening process gives up,
    always, also when a connection is made in time, and collector goes on as after a success, also if no connection was ever
    made. *)
Theorem self_check_unnoticed (pid pid' v : Z) (c : check_calls) (p : process) (strerror : Z -> str) (now : Z) (l : logging) :
  k_parent_killed c = None -> k_child_killed c = None -> k_fork c = inl pid' ->
  0 ∈ fds p -> -1 ∉ fds p -> fresh (l_socket (k_listen c)) p ->
  c_socket (k_connect c) = inl v -> 0 <= v -> v ∉ fds p ->
  (forall k, c_connect (k_connect c) k = inl 0 \/ c_connect (k_connect c) k = inr ECONNREFUSED) ->
  (startListeningPort kSelfCheckServerPort (k_listen c) p).1 = false /\
  exists l', start_self_check_process (inl pid) None c p strerror now l = Continues l'.
Proof.
  intros Hk Hck Hf H0 Hn Hl Hs Hv Hin Hc. split; [by rewrite startListeningPort_fails|].
  destruct (connectToPort_spec (wrap 16 kSelfCheckServerPort) (k_connect c) p v Hs Hv Hin) as [e E].
  { intros k w Hw. destruct (Hc k) as [H|H]; rewrite H in Hw; [injection Hw as <-|]; done. }
  assert ((attempts (connect_results (k_connect c) 0 5)).1 = true) as Ha.
  { unfold connect_results. induction (seq 0 5) as [|k ks IH]; [done|]. cbn [map attempts].
    destruct (Hc (0 + Z.of_nat k)) as [->| ->]; [done|]. rewrite Z.eqb_refl. revert IH. destruct (attempts (map _ ks)). exact id. }
  destruct (start_self_check_process (inl pid) None c p strerror now l) as [l'|l'] eqn:Es; [by exists l'|]. exfalso.
  destruct (proj1 (start_self_check_process_spec (inl pid) None c p strerror now l) (ex_intro _ l' Es)).
  destruct (main_hides_child c p kSelfChecksExePath (show_nat kSelfCheckServerPort) kSelfCheckServerPort eq_refl Hk Hck (ex_intro _ pid' Hf)) as (e1 & E1 & E2).
  { by rewrite E. }
  unfold exec_child. by rewrite E1.
Qed.

(** *** Examples *)

(** Descriptors 0 to 2 are open; nobody listens, so every attempt is refused. *)
Definition nobody : check_calls :=
  mkCheck (inl 100) (mkListen (inl 3) (inr 98) (inl 0) (fun _ => true) None (inl 4)) (mkConnect (inl 3) (fun _ => inr ECONNREFUSED)) None None.

Definition std_process : process := mkProcess {[0; 1; 2]} 0.

Lemma self_check_unnoticed_witness : exists l', start_self_check_process (inl 50) None nobody std_process (fun _ => []) 0 initial = Continues l'.
Proof.
  apply (self_check_unnoticed 50 100 3 nobody std_process (fun _ => []) 0 initial);
    [reflexivity|reflexivity|reflexivity|set_solver|set_solver| |reflexivity|lia|set_solver|intros; right; reflexivity].
  split; [lia|set_solver].
Defined.
