(* ===== verification/Extractor.v ===== *)
(** * Extraction of event fields

    [system-inspector/EventExtractor.h], [EventExtractor.cpp] and [ContainerMetadata.cpp].  The
    filter checks are those of libsinsp, the class [FilterChecks]; what they find in an event is
    bytes, which the extractor turns into the values the signal handlers work with. *)

From S2P Require Import Prelude Containers Utility Process Events Config Logging.

Open Scope Z_scope.
Open Scope collector_scope.

(** ** Fields *)

(** The fields that are declared with a filter check. *)
Inductive field := proc_args | event_rawres | client_port | server_port.

#[export] Instance field_eq_dec : EqDecision field.
Proof. solve_decision. Defined.

Definition event_name (f : field) : str :=
  match f with
  | proc_args => lit "proc.args" | event_rawres => lit "evt.rawres"
  | client_port => lit "fd.cport" | server_port => lit "fd.sport"
  end.

(** What the extractor uses of libsinsp: [extract_single] gives a buffer and the length of the value. *)
Class FilterChecks := {
  check : Type;
  new_filter_check_from_fldname : str -> option check;
  parse_field_name : check -> str -> check;
  extract_single : check -> sinsp_evt -> option (list Z * Z)
}.

(** The bytes of a word in the order of the host, and back. *)
Definition host_bytes `{HostEndian} (n : nat) (x : Z) : list Z :=
  if host_is_big_endian then rev (le_bytes n x) else le_bytes n x.

Definition host_word `{HostEndian} (bs : list Z) : Z := le_word (if host_is_big_endian then rev bs else bs).

Section Extractor.
Context `{HostEndian} `{FilterChecks}.

(** The wrappers that are registered, and the filter check each field has. *)
Record EventExtractor := mkExtractor { wrappers_ : list field; filter_check : field -> option check }.

(** The members register themselves in the order of their declaration. *)
Definition EventExtractor_ctor : EventExtractor :=
  mkExtractor [proc_args; event_rawres; client_port; server_port] (fun _ => None).

Definition reset (f : field) (c : option check) (x : EventExtractor) : EventExtractor :=
  mkExtractor (wrappers_ x) (fun g => if decide (g = f) then c else filter_check x g).

Definition missing_site : site := mkSite (lit "EventExtractor.cpp") 8 FATAL.

(** The loop of [Init]; the log message about a missing check ends the process. *)
Fixpoint Init_loop (wrappers : list field) (now : Z) (l : logging) (x : EventExtractor) : outcome * EventExtractor :=
  match wrappers with
  | [] => (Continues l, x)
  | wrapper :: wrappers =>
      let check := new_filter_check_from_fldname (event_name wrapper) in
      match CLOG_IF missing_site (bool_decide (check = None)) [Value (lit "Filter check not available for field: "); Value (event_name wrapper)] now l with
      | Exits l => (Exits l, x)
      | Continues l =>
          let check := (fun c => parse_field_name c (event_name wrapper)) <$> check in
          Init_loop wrappers now l (reset wrapper check x)
      end
  end.

Definition Init (now : Z) (l : logging) (x : EventExtractor) : outcome * EventExtractor := Init_loop (wrappers_ x) now l x.

Definition ClearWrappers (x : EventExtractor) : EventExtractor :=
  let x := fold_left (fun x w => reset w None x) (wrappers_ x) x in
  mkExtractor [] (filter_check x).

(** [FIELD_RAW_SAFE]: [None] is the use of a filter check that does not exist; the (throttled) log
    message about a value of another size is left out. *)
Definition get_raw_safe (f : field) (size : nat) (x : EventExtractor) (event : sinsp_evt) : option (option Z) :=
  let! check := filter_check x f in
  Some (match extract_single check event with
        | None => None
        | Some (buf, len) => if len =? Z.of_nat size then Some (host_word (take size buf)) else None
        end).

(** [FIELD_CSTR]: the characters before the terminator. *)
Fixpoint until_nul (bs : list Z) : str :=
  match bs with
  | [] => []
  | b :: bs => if b =? 0 then [] else chr b :: until_nul bs
  end.

Definition get_cstr (f : field) (x : EventExtractor) (event : sinsp_evt) : option (option str) :=
  let! check := filter_check x f in
  Some (match extract_single check event with None => None | Some (buf, _) => Some (until_nul buf) end).

Definition get_proc_args := get_cstr proc_args.
Definition get_rawres (x : EventExtractor) (event : sinsp_evt) : option (option Z) :=
  let! v := get_raw_safe event_rawres 8 x event in
  Some (to_signed 64 <$> v).
Definition get_client_port := get_raw_safe client_port 2.
Definition get_server_port := get_raw_safe server_port 2.

End Extractor.

(** [TINFO_FIELD_RAW]: a member of the thread of an event, for every of the fields. *)
Definition tinfo_field {A} (member : sinsp_threadinfo -> A) (event : option sinsp_evt) : option A :=
  let! event := event in
  let! tinfo := get_thread_info event in
  Some (member tinfo).

(** [ContainerMetadata]: labels are not available, which is logged and otherwise an empty string. *)
Definition GetNamespace (event : sinsp_evt) : str := [].
Definition GetContainerLabel (container_id label : str) : str := [].
Definition GetNamespace_of (container_id : str) : str := GetContainerLabel container_id (lit "io.kubernetes.pod.namespace").

(** ** What the filter checks find *)

(** The bytes of a field of an event. *)
Definition field_bytes `{HostEndian} (f : field) (evt : sinsp_evt) : option (list Z * Z) :=
  match f with
  | proc_args => (fun s => (map code s ++ [0], Z.of_nat (length s) + 1)) <$> evt_proc_args evt
  | event_rawres => (fun v => (host_bytes 8 v, 8)) <$> evt_rawres evt
  | client_port => (fun v => (host_bytes 2 v, 2)) <$> evt_client_port evt
  | server_port => (fun v => (host_bytes 2 v, 2)) <$> evt_server_port evt
  end.

(** libsinsp has the four fields, and finds their values in an event. *)
Class FilterLaws `{HostEndian} `{FilterChecks} : Prop := filter_law f : exists c,
  new_filter_check_from_fldname (event_name f) = Some c /\
  forall evt, extract_single (parse_field_name c (event_name f)) evt = field_bytes f evt.

(** Values of their types, and strings as C has them. *)
Record fields_ok (evt : sinsp_evt) : Prop := {
  ok_rawres v : evt_rawres evt = Some v -> - 2 ^ 63 <= v < 2 ^ 63;
  ok_cport v : evt_client_port evt = Some v -> word 16 v;
  ok_sport v : evt_server_port evt = Some v -> word 16 v;
  ok_args s : evt_proc_args evt = Some s -> ~ In NUL s
}.

(** ** Lemmas *)

Section Laws.
Context `{HostEndian} `{FilterChecks} `{!FilterLaws}.

Lemma host_word_bytes n x : host_word (host_bytes n x) = x mod 256 ^ Z.of_nat n.
Proof. unfold host_word, host_bytes. destruct host_is_big_endian; rewrite ?rev_involutive; apply le_word_bytes. Qed.

Lemma to_signed_mod v : - 2 ^ 63 <= v < 2 ^ 63 -> to_signed 64 (v mod 2 ^ 64) = v.
Proof.
  intros Hv. unfold to_signed, wrap. rewrite Z.mod_mod by done. destruct (Z.lt_ge_cases v 0) as [Hneg|Hpos].
  - rewrite <- (Z.mod_unique v (2 ^ 64) (-1) (v + 2 ^ 64)) by lia. rewrite (proj2 (Z.ltb_ge _ _)); lia.
  - rewrite Z.mod_small by lia. rewrite (proj2 (Z.ltb_lt _ _)); lia.
Qed.

Lemma length_host_bytes n x : length (host_bytes n x) = n.
Proof. unfold host_bytes. destruct host_is_big_endian; rewrite ?length_rev; apply length_le_bytes. Qed.

Lemma until_nul_codes s : ~ In NUL s -> until_nul (map code s ++ [0]) = s.
Proof.
  induction s as [|c s IH]; intros Hn; [done|]. cbn [map app until_nul]. simpl in Hn.
  destruct (Z.eqb_spec (code c) 0) as [E|_].
  - destruct Hn. left. rewrite <- (chr_code c), E. done.
  - rewrite chr_code, IH by tauto. done.
Qed.

(** An extractor that is initialized: every field has its filter check. *)
Definition ready (x : EventExtractor) : Prop := forall f evt, exists c, filter_check x f = Some c /\ extract_single c evt = field_bytes f evt.

Lemma Init_loop_spec ws now : forall l x, exists x',
  Init_loop ws now l x = (Continues l, x') /\ wrappers_ x' = wrappers_ x /\
  (forall f, f ∉ ws -> filter_check x' f = filter_check x f) /\
  (forall f evt, f ∈ ws -> exists c, filter_check x' f = Some c /\ extract_single c evt = field_bytes f evt).
Proof.
  induction ws as [|w ws IH]; intros l x; cbn [Init_loop].
  - exists x. split_and!; [done..|]. by intros f evt Hf%elem_of_nil.
  - destruct (filter_law w) as (c & E & Hc). rewrite E. rewrite bool_decide_false by done.
    unfold CLOG_IF. rewrite andb_false_r. cbn [fmap option_fmap option_map].
    destruct (IH l (reset w (Some (parse_field_name c (event_name w))) x)) as (x' & -> & Hw & Hout & Hin). exists x'. split_and!; [done|done| |].
    + intros f [Hne Hf]%not_elem_of_cons. rewrite Hout by done. cbn. by rewrite decide_False.
    + intros f evt Hf. destruct (decide (f ∈ ws)) as [Hi|Hi]; [by apply Hin|]. apply elem_of_cons in Hf as [->|]; [|done].
      rewrite Hout by done. cbn. rewrite decide_True by done. by eexists.
Qed.

Lemma Init_ready now l : exists x, Init now l EventExtractor_ctor = (Continues l, x) /\ ready x /\ wrappers_ x = wrappers_ EventExtractor_ctor.
Proof.
  destruct (Init_loop_spec (wrappers_ EventExtractor_ctor) now l EventExtractor_ctor) as (x & E & Hw & _ & Hin).
  exists x. split_and!; [done| |done]. intros f evt. apply Hin. cbn. destruct f; set_solver.
Qed.

Lemma raw_ready f n x evt v : ready x -> field_bytes f evt = (fun v => (host_bytes n v, Z.of_nat n)) <$> v ->
  get_raw_safe f n x evt = Some ((fun v => v mod 256 ^ Z.of_nat n) <$> v).
Proof.
  intros Hr E. unfold get_raw_safe. destruct (Hr f evt) as (c & -> & ->). rewrite E. destruct v as [v|]; cbn; [|done].
  rewrite Z.eqb_refl, take_ge by (by rewrite length_host_bytes). by rewrite host_word_bytes.
Qed.

Lemma cleared ws : forall x f, f ∈ ws \/ filter_check x f = None -> filter_check (fold_left (fun x w => reset w None x) ws x) f = None.
Proof.
  induction ws as [|w ws IH]; intros x f Hf; cbn [fold_left]; [destruct Hf as [Hf%elem_of_nil|]; done|].
  apply IH. cbn. destruct (decide (f = w)) as [->|Hne]; [by right|]. destruct Hf as [Hf|Hf]; [left|by right]. set_solver.
Qed.

(** [EventExtractor]: once initialized it gives for every event exactly the values of its fields;
    after [ClearWrappers] every use of a filter check is undefined, and initializing it again does not help, because
    no wrapper is registered any more. *)
Theorem Extractor_spec (now : Z) (l : logging) (evt : sinsp_evt) :
  fields_ok evt ->
  exists x, Init now l EventExtractor_ctor = (Continues l, x) /\
    (get_rawres x evt = Some (evt_rawres evt) /\ get_client_port x evt = Some (evt_client_port evt) /\
     get_server_port x evt = Some (evt_server_port evt) /\ get_proc_args x evt = Some (evt_proc_args evt)) /\
    forall l', let x' := (Init now l' (ClearWrappers x)).2 in
      get_rawres x' evt = None /\ get_client_port x' evt = None /\ get_server_port x' evt = None /\ get_proc_args x' evt = None.
Proof.
  intros [Hres Hcp Hsp Hargs]. destruct (Init_ready now l) as (x & E & Hr & Hw). exists x. split; [done|]. split.
  - split_and!.
    + unfold get_rawres. rewrite (raw_ready event_rawres 8 x evt (evt_rawres evt) Hr eq_refl).
      destruct (evt_rawres evt) as [v|]; [|done]. cbn. do 2 f_equal. apply to_signed_mod, Hres, eq_refl.
    + unfold get_client_port. rewrite (raw_ready client_port 2 x evt (evt_client_port evt) Hr eq_refl).
      destruct (evt_client_port evt) as [v|]; [|done]. cbn [fmap option_fmap option_map]. by rewrite Z.mod_small by (by apply Hcp).
    + unfold get_server_port. rewrite (raw_ready server_port 2 x evt (evt_server_port evt) Hr eq_refl).
      destruct (evt_server_port evt) as [v|]; [|done]. cbn [fmap option_fmap option_map]. by rewrite Z.mod_small by (by apply Hsp).
    + unfold get_proc_args, get_cstr. destruct (Hr proc_args evt) as (c & -> & ->). cbn [field_bytes].
      destruct (evt_proc_args evt) as [s|]; [|done]. cbn [fmap option_fmap option_map]. by rewrite until_nul_codes by (by apply Hargs).
  - intros l' x'. assert (forall f, filter_check x' f = None) as Hx'.
    { intros f. apply (cleared (wrappers_ x) x f). left. rewrite Hw. cbn. destruct f; set_solver. }
    unfold get_rawres, get_client_port, get_server_port, get_proc_args, get_raw_safe, get_cstr. by rewrite !Hx'.
Qed.

(** A value of another size is not used. *)
Lemma get_raw_safe_size f n x evt c buf len :
  filter_check x f = Some c -> extract_single c evt = Some (buf, len) -> len <> Z.of_nat n -> get_raw_safe f n x evt = Some None.
Proof. intros Hc He Hl. unfold get_raw_safe. rewrite Hc, He. by rewrite (proj2 (Z.eqb_neq _ _) Hl). Qed.

End Laws.

(** *** Filter checks that look at the record of the event *)

Module ExtractorWitness.

#[local] Instance little : HostEndian := false.

#[local] Instance record_checks : FilterChecks := {|
  check := field;
  new_filter_check_from_fldname n := List.find (fun f => bool_decide (event_name f = n)) [proc_args; event_rawres; client_port; server_port];
  parse_field_name c _ := c;
  extract_single c evt := field_bytes c evt
|}.

#[local] Instance record_laws : FilterLaws.
Proof. intros f. exists f. split; [by destruct f; vm_compute|done]. Qed.

Definition sample : sinsp_evt := mkEvt 0 0 None None (Some (-13)) (Some (lit "ls -l")) (Some 443) (Some 50000) false.

Lemma sample_ok : fields_ok sample.
Proof.
  split; cbn; intros v E; injection E as <-; [lia|unfold word; lia|unfold word; lia|].
  intros Hin. cbn in Hin. destruct_or?; done.
Qed.

Lemma Extractor_spec_witness : exists x, Init 0 initial EventExtractor_ctor = (Continues initial, x) /\ get_rawres x sample = Some (Some (-13)).
Proof. destruct (Extractor_spec 0 initial sample sample_ok) as (x & E & [Hr _] & _). exists x. split; [exact E|exact Hr]. Defined.

End ExtractorWitness.
