(* ===== verification/InspectorSetup.v ===== *)
(** * Setting up the inspector

    The filter that the constructor of [system-inspector/Service.cpp] gives to the inspector, with
    the regular expressions of RE2 it uses, and [Service::Start].  The filter language
    of libsinsp matches a regular expression with the whole value.  RE2 reads the value as UTF-8;
    the expressions here are for values of ASCII characters, of which each is one byte. *)

From S2P Require Import Prelude Containers Utility Process Config Logging.

Open Scope Z_scope.
Open Scope collector_scope.

(** ** Regular expressions *)

Inductive regex :=
| Empty
| Eps
| Char (p : ascii -> bool)
| Seq (a b : regex)
| Alt (a b : regex)
| Star (a : regex).

(** The strings of an expression. *)
Inductive lang : regex -> str -> Prop :=
| lang_eps : lang Eps []
| lang_char p c : p c = true -> lang (Char p) [c]
| lang_seq a b s t : lang a s -> lang b t -> lang (Seq a b) (s ++ t)
| lang_alt_l a b s : lang a s -> lang (Alt a b) s
| lang_alt_r a b s : lang b s -> lang (Alt a b) s
| lang_nil a : lang (Star a) []
| lang_cons a s t : lang a s -> lang (Star a) t -> lang (Star a) (s ++ t).

#[export] Hint Constructors lang : collector.

(** Matching by derivatives: [deriv c r] has the strings of [r] that start with [c], less that character. *)
Fixpoint nullable (r : regex) : bool :=
  match r with
  | Empty | Char _ => false
  | Eps | Star _ => true
  | Seq a b => nullable a && nullable b
  | Alt a b => nullable a || nullable b
  end.

Definition seq_ (a b : regex) : regex := match a with Empty => Empty | Eps => b | _ => Seq a b end.
Definition alt_ (a b : regex) : regex := match a, b with Empty, _ => b | _, Empty => a | _, _ => Alt a b end.

Fixpoint deriv (c : ascii) (r : regex) : regex :=
  match r with
  | Empty | Eps => Empty
  | Char p => if p c then Eps else Empty
  | Seq a b => if nullable a then alt_ (seq_ (deriv c a) b) (deriv c b) else seq_ (deriv c a) b
  | Alt a b => alt_ (deriv c a) (deriv c b)
  | Star a => seq_ (deriv c a) (Star a)
  end.

Fixpoint FullMatch (s : str) (r : regex) : bool :=
  match s with [] => nullable r | c :: s => FullMatch s (deriv c r) end.

(** ** The filter *)

(** [.] is any ASCII character but the end of a line. *)
Definition dot (c : ascii) : bool := (code c <? 128) && negb (bool_decide (c = "010"%char)).
Definition separator (c : ascii) : bool := bool_decide (c = "/"%char) || bool_decide (c = ":"%char) || bool_decide (c = "-"%char).
Definition lower_hex (c : ascii) : bool := isdigit c || in_range "a" "f" c.

Fixpoint repeat_regex (n : nat) (r : regex) : regex := match n with O => Eps | S n => Seq r (repeat_regex n r) end.
Fixpoint literal (s : str) : regex := match s with [] => Eps | c :: s => Seq (Char (fun d => bool_decide (d = c))) (literal s) end.
Definition optional (r : regex) : regex := Alt r Eps.

(** The expression of the filter: anything, a separator, 64 digits, perhaps ".scope", perhaps a
    slash and anything. *)
Definition container_regex : regex :=
  Seq (Star (Char dot)) (Seq (Char separator) (Seq (repeat_regex 64 (Char lower_hex))
    (Seq (optional (literal (lit ".scope"))) (optional (Seq (Char (fun c => bool_decide (c = "/"%char))) (Star (Char dot))))))).

(** The events that pass: [memory] is the path of the memory cgroup of the thread. *)
Definition filter (pid vpid : Z) (memory : str) : bool := negb (pid =? vpid) || FullMatch memory container_regex.

(** ** Starting *)

(** The ways [Service::Start] ends: an exception, a fatal message, or the service runs. *)
Inductive started (S : Type) := Throws | Fails (name : str) (w : S) | Runs (w : S).
Arguments Throws {S}.
Arguments Fails {S} _ _.
Arguments Runs {S} _.

(** The loop over the signal handlers, each a name and its [Start] over what they share. *)
Fixpoint start_handlers {S} (handlers : list (str * (S -> bool * S))) (w : S) : started S :=
  match handlers with
  | [] => Runs w
  | (name, start) :: handlers => let '(ok, w) := start w in if negb ok then Fails name w else start_handlers handlers w
  end.

(** [capture] is [start_capture] and the thread of the self check. *)
Definition Service_Start {S} (inspector : bool) (handlers : list (str * (S -> bool * S))) (capture : S -> S) (w : S) : started S :=
  if negb inspector then Throws
  else match start_handlers handlers w with Runs w => Runs (capture w) | e => e end.

(** ** Matching is right *)

Lemma lang_empty s : ~ lang Empty s.
Proof. intros Hl. inversion Hl. Qed.

Lemma lang_eps_inv s : lang Eps s <-> s = [].
Proof. split; [by inversion 1|intros ->; constructor]. Qed.

Lemma lang_char_inv p s : lang (Char p) s <-> exists c, s = [c] /\ p c = true.
Proof. split; [inversion 1; by eexists|intros (c & -> & Hc); by constructor]. Qed.

Lemma lang_seq_inv a b s : lang (Seq a b) s <-> exists s1 s2, s = s1 ++ s2 /\ lang a s1 /\ lang b s2.
Proof. split; [inversion 1; by eexists _, _|intros (s1 & s2 & -> & Ha & Hb); by constructor]. Qed.

Lemma lang_alt_inv a b s : lang (Alt a b) s <-> lang a s \/ lang b s.
Proof. split; [inversion 1; auto|intros []; auto with collector]. Qed.

Lemma lang_seq_ a b s : lang (seq_ a b) s <-> lang (Seq a b) s.
Proof.
  destruct a; cbn [seq_]; try done; rewrite lang_seq_inv.
  - split; [by intros ?%lang_empty|by intros (? & ? & _ & ?%lang_empty & _)].
  - split; [intros Hb; by exists [], s; auto with collector|]. by intros (s1 & s2 & -> & ->%lang_eps_inv & Hb).
Qed.

Lemma lang_alt_ a b s : lang (alt_ a b) s <-> lang (Alt a b) s.
Proof.
  rewrite lang_alt_inv. pose proof (lang_empty s).
  destruct a; cbn [alt_]; [tauto|..]; (destruct b; [tauto|by rewrite lang_alt_inv..]).
Qed.

Lemma lang_star_cons_inv a c s : lang (Star a) (c :: s) <-> exists s1 s2, s = s1 ++ s2 /\ lang a (c :: s1) /\ lang (Star a) s2.
Proof.
  split.
  - intros H. remember (Star a) as r eqn:Er. remember (c :: s) as t eqn:Et. revert Er Et.
    induction H as [| | | | | |a' s' t' H1 IH1 H2 IH2]; try discriminate. intros [= ->] Et. destruct s' as [|d s'].
    + by apply IH2.
    + injection Et as -> <-. by exists s', t'.
  - intros (s1 & s2 & -> & H1 & H2). apply (lang_cons a (c :: s1) s2 H1 H2).
Qed.

Lemma nullable_spec r : nullable r = true <-> lang r [].
Proof.
  induction r as [| | |a IHa b IHb|a IHa b IHb|a IHa]; cbn [nullable].
  - split; [done|by intros ?%lang_empty].
  - split; auto with collector.
  - split; [done|]. intros (? & [=] & _)%lang_char_inv.
  - rewrite andb_true_iff, IHa, IHb, lang_seq_inv. split; [by exists [], []|].
    intros (s1 & s2 & E & H1 & H2). by destruct s1, s2.
  - rewrite orb_true_iff, IHa, IHb. by rewrite lang_alt_inv.
  - split; auto with collector.
Qed.

Lemma deriv_spec c r : forall s, lang (deriv c r) s <-> lang r (c :: s).
Proof.
  induction r as [| |p|a IHa b IHb|a IHa b IHb|a IHa]; intros s; cbn [deriv].
  - split; by intros ?%lang_empty.
  - split; [by intros ?%lang_empty|by intros [=]%lang_eps_inv].
  - rewrite lang_char_inv. destruct (p c) eqn:E.
    + rewrite lang_eps_inv. split; [intros ->; by exists c|by intros (d & [= <- ->] & _)].
    + split; [by intros ?%lang_empty|]. intros (d & [= <- ->] & Hd). congruence.
  - assert (lang (seq_ (deriv c a) b) s <-> exists s1 s2, s = s1 ++ s2 /\ lang a (c :: s1) /\ lang b s2) as Hs
      by (rewrite lang_seq_, lang_seq_inv; by setoid_rewrite IHa).
    rewrite lang_seq_inv. destruct (nullable a) eqn:En.
    + rewrite lang_alt_, lang_alt_inv, Hs, IHb. apply nullable_spec in En. split.
      * intros [(s1 & s2 & -> & H1 & H2)|Hb]; [by exists (c :: s1), s2|by exists [], (c :: s)].
      * intros ([|d s1] & s2 & E & H1 & H2); [right; by cbn in E; subst|]. injection E as <- ->. left. by exists s1, s2.
    + rewrite Hs. split.
      * intros (s1 & s2 & -> & H1 & H2). by exists (c :: s1), s2.
      * intros ([|d s1] & s2 & E & H1 & H2); [apply nullable_spec in H1; congruence|]. injection E as <- ->. by exists s1, s2.
  - by rewrite lang_alt_, !lang_alt_inv, IHa, IHb.
  - rewrite lang_seq_, lang_seq_inv, lang_star_cons_inv. by setoid_rewrite IHa.
Qed.

(** Matching decides the language of an expression. *)
Lemma FullMatch_spec s : forall r, FullMatch s r = true <-> lang r s.
Proof. induction s as [|c s IH]; intros r; cbn [FullMatch]; [apply nullable_spec|]. by rewrite IH, deriv_spec. Qed.

(** ** The language of the filter *)

Lemma lang_star_char p s : lang (Star (Char p)) s <-> Forall (fun c => p c = true) s.
Proof.
  induction s as [|c s IH]; [split; auto with collector|]. rewrite lang_star_cons_inv, Forall_cons. setoid_rewrite lang_char_inv. split.
  - intros (s1 & s2 & -> & (d & [= <- ->] & Hd) & Hs). by rewrite <- IH.
  - intros [Hc Hs]. exists [], s. split_and!; [done|by exists c|by apply IH].
Qed.

Lemma lang_repeat p n : forall s, lang (repeat_regex n (Char p)) s <-> length s = n /\ Forall (fun c => p c = true) s.
Proof.
  induction n as [|n IH]; intros s; cbn [repeat_regex].
  - rewrite lang_eps_inv. split; [by intros ->|]. intros [Hl _]. by apply length_zero_iff_nil.
  - rewrite lang_seq_inv. setoid_rewrite lang_char_inv. setoid_rewrite IH. split.
    + intros (s1 & s2 & -> & (c & -> & Hc) & Hl & Hs). cbn. by rewrite Hl; split; [|constructor].
    + intros [Hl Hs]. destruct s as [|c s]; [done|]. apply Forall_cons in Hs as [Hc Hs]. exists [c], s. split_and!; [done|by exists c|by injection Hl|done].
Qed.

Lemma lang_literal t : forall s, lang (literal t) s <-> s = t.
Proof.
  induction t as [|c t IH]; intros s; cbn [literal]; [apply lang_eps_inv|]. rewrite lang_seq_inv. setoid_rewrite lang_char_inv. setoid_rewrite IH. split.
  - by intros (s1 & s2 & -> & (d & -> & ->%bool_decide_eq_true_1) & ->).
  - intros ->. exists [c], t. split_and!; [done| |done]. exists c. by rewrite bool_decide_true.
Qed.

Lemma lang_optional r s : lang (optional r) s <-> s = [] \/ lang r s.
Proof. unfold optional. rewrite lang_alt_inv, lang_eps_inv. tauto. Qed.

(** What follows a container's name: nothing, or more components of the path. *)
Definition component (tail : str) : Prop := tail = [] \/ exists t, tail = "/"%char :: t /\ Forall (fun c => dot c = true) t.

Lemma container_regex_lang s :
  lang container_regex s <-> exists pre sep id scope tail,
    s = pre ++ sep :: id ++ scope ++ tail /\ separator sep = true /\ length id = CONTAINER_ID_LENGTH /\
    Forall (fun c => lower_hex c = true) id /\ (scope = [] \/ scope = lit ".scope") /\ component tail /\ Forall (fun c => dot c = true) pre.
Proof.
  unfold container_regex. rewrite lang_seq_inv. setoid_rewrite lang_star_char. setoid_rewrite lang_seq_inv. setoid_rewrite lang_char_inv.
  setoid_rewrite lang_seq_inv. setoid_rewrite lang_repeat. setoid_rewrite lang_seq_inv. setoid_rewrite lang_optional. setoid_rewrite lang_literal.
  assert (forall t, lang (Seq (Char (fun c => bool_decide (c = "/"%char))) (Star (Char dot))) t <-> exists u, t = "/"%char :: u /\ Forall (fun c => dot c = true) u) as Ht.
  { intros t. rewrite lang_seq_inv. setoid_rewrite lang_char_inv. setoid_rewrite lang_star_char. split.
    - intros (s1 & s2 & -> & (c & -> & ->%bool_decide_eq_true_1) & Hs). by exists s2.
    - intros (u & -> & Hu). exists ["/"%char], u. split_and!; [done| |done]. by exists "/"%char. }
  setoid_rewrite Ht. split.
  - intros (pre & s2 & -> & Hp & s3 & s4 & -> & (sep & -> & Hsep) & id & s5 & -> & [Hl Hid] & scope & tail & -> & Hscope & Htail).
    exists pre, sep, id, scope, tail. by split_and!.
  - intros (pre & sep & id & scope & tail & -> & Hsep & Hl & Hid & Hscope & Htail & Hp).
    exists pre, (sep :: id ++ scope ++ tail). split_and!; [done|done|]. exists [sep], (id ++ scope ++ tail).
    split_and!; [done|by exists sep|]. exists id, (scope ++ tail). split_and!; [done|done|done|]. by exists scope, tail.
Qed.

(** [rfind] finds an occurrence. *)
Lemma rfind_occurs needle s i : rfind needle s = Some i -> exists rest, s = take i s ++ needle ++ rest.
Proof.
  revert i. induction s as [|c s IH]; intros i; cbn [rfind].
  - destruct (starts_with needle []) eqn:E; [|done]. intros [= <-]. apply starts_with_spec in E as [rest E]. by exists rest.
  - destruct (rfind needle s) as [j|].
    + intros [= <-]. destruct (IH j eq_refl) as [rest E]. exists rest. cbn [take app]. by rewrite E at 1.
    + destruct (starts_with needle (c :: s)) eqn:E; [|done]. intros [= <-]. apply starts_with_spec in E as [rest E]. by exists rest.
Qed.

(** C36. The filter passes every event of a container process: of one whose PID in its own namespace is not
    the one in the host's, and of one whose memory cgroup names a container, as long as the whole path is of ASCII
    characters without a newline and without the upper-case letters A to F, and what comes after the last ".scope" of the
    path, if it has one, is empty or starts a new component. *)
Theorem filter_passes (pid vpid : Z) (memory id : str) :
  pid <> vpid \/
  ExtractContainerIDFromCgroup memory = Some id /\ Forall (fun c => dot c = true /\ in_range "A" "F" c = false) memory /\
  (forall rest, memory = cgroup_body memory ++ lit ".scope" ++ rest -> component rest) ->
  filter pid vpid memory = true.
Proof.
  unfold filter. intros [Hne|(He & Hall & Htail)]; [by rewrite (proj2 (Z.eqb_neq _ _) Hne)|]. apply orb_true_iff. right.
  apply FullMatch_spec, container_regex_lang. apply ExtractContainerID_spec in He as (pre & sep & cid & (Hb & Hsep & Hl & Hx & _) & _).
  assert (exists scope tail, memory = cgroup_body memory ++ scope ++ tail /\ (scope = [] \/ scope = lit ".scope") /\ component tail)
    as (scope & tail & Hm & Hscope & Hcomp).
  { revert Htail. unfold cgroup_body. destruct (rfind (lit ".scope") memory) as [i|] eqn:Er.
    - apply rfind_occurs in Er as [rest Er]. intros Htail. exists (lit ".scope"), rest. split_and!; [done|by right|by apply Htail].
    - intros _. exists [], []. rewrite !app_nil_r. split_and!; [done|by left|by left]. }
  rewrite Hb in Hm. rewrite Hm in Hall. rewrite <- (assoc_L (++)) in Hm. exists pre, sep, cid, scope, tail.
  rewrite !Forall_app, Forall_cons in Hall. destruct Hall as ((Hpre & _ & Hcid) & _). split_and!; [exact Hm| |exact Hl| |done|done|].
  - unfold id_separator, separator in *. revert Hsep. by destruct (bool_decide _), (bool_decide _), (bool_decide _).
  - rewrite Forall_forall in Hx, Hcid |- *. intros c Hc. specialize (Hx c Hc). destruct (Hcid c Hc) as [_ Hup].
    unfold isxdigit in Hx. unfold lower_hex. by rewrite Hup, orb_false_r in Hx.
  - eapply Forall_impl; [exact Hpre|]. by intros c [? _].
Qed.

(** A container's name, and the paths the two do not agree on: one more component without a scope
    passes the filter but names no container; a name in upper case is a container's but does not pass. *)
Definition id64 : str := concat (replicate 4 (lit "0123456789abcdef")).
Definition ID64 : str := concat (replicate 4 (lit "0123456789ABCDEF")).

Theorem filter_not_extraction :
  (filter 1 1 (lit "/podman/" ++ id64 ++ lit "/container") = true /\ ExtractContainerIDFromCgroup (lit "/podman/" ++ id64 ++ lit "/container") = None) /\
  (filter 1 1 (lit "/docker/" ++ ID64) = false /\ ExtractContainerIDFromCgroup (lit "/docker/" ++ ID64) = Some (lit "0123456789AB")).
Proof. vm_compute. split_and!; reflexivity. Qed.

Lemma filter_passes_witness : filter 7 7 (lit "/kubepods/crio-" ++ id64 ++ lit ".scope/container") = true.
Proof.
  apply (filter_passes 7 7 _ (lit "0123456789ab")). right. split; [vm_compute; reflexivity|]. split.
  - apply (Forall_impl (fun c => dot c && negb (in_range "A" "F" c) = true)).
    + apply List.Forall_forall. apply (proj1 (forallb_forall (fun c => dot c && negb (in_range "A" "F" c)) _)). vm_compute. reflexivity.
    + intros c [H1 H2]%andb_true_iff. split; [exact H1|by apply negb_true_iff].
  - intros rest E. right. exists (lit "container"). split; [|vm_compute; repeat constructor].
    vm_compute in E. injection E as E. rewrite <- E. reflexivity.
Defined.

(** ** Starting the service *)

(** [Service::Start]: the handlers are started in order, each once, up to the first that fails,
    whose name is in the fatal message; the capture starts only after all of them. *)
Lemma Service_Start_spec {S} (handlers : list (str * (S -> bool * S))) capture w :
  match Service_Start true handlers capture w with
  | Throws => False
  | Fails name w' => exists before start after w0, handlers = before ++ (name, start) :: after /\
      start_handlers before w = Runs w0 /\ start w0 = (false, w')
  | Runs w' => exists w0, start_handlers handlers w = Runs w0 /\ w' = capture w0
  end.
Proof.
  unfold Service_Start. cbn [negb]. destruct (start_handlers handlers w) as [|name w'|w'] eqn:E; [|..|by exists w'].
  - revert w E. induction handlers as [|[n f] hs IH]; intros w; cbn [start_handlers]; [done|]. destruct (f w) as [[] w1]; cbn [negb]; [apply IH|done].
  - revert w E. induction handlers as [|[n f] hs IH]; intros w; cbn [start_handlers]; [done|]. destruct (f w) as [ok w1] eqn:Ef. destruct ok; cbn [negb].
    + intros E. destruct (IH w1 E) as (b & st & a & w0 & -> & Hb & Hf). exists ((n, f) :: b), st, a, w0. cbn [start_handlers app]. by rewrite Ef.
    + intros [= <- <-]. by exists [], f, hs, w.
Qed.
