(* ===== verification/Metrics.v ===== *)
(** * The exported metrics

    [system_inspector::Stats] with [Service::GetStats], and the thread of
    [collector/lib/CollectorStatsExporter.cpp] that copies the statistics to the
    gauges of a Prometheus registry every five seconds; [CollectorConnectionStats.h].

    The registry is a parameter, with the documented behaviour of a family of
    gauges as laws: [Add] yields one gauge per set of labels, initially 0, the
    existing one when the labels were added before, and [Set] changes the value of
    that gauge alone.  The values of gauges are [double]s and the lineage averages
    are computed with [float]s: both are the binary formats of the standard
    library's [SpecFloat]. *)

From Stdlib Require Import SpecFloat.
From S2P Require Import Prelude Containers Stats Process Connection ConnTracker Events ProcSignals Service.

(** ** Floating-point numbers *)

(** Formats: bits of the significand and bound of the exponent. *)
Definition of_int (prec emax : Z) (z : Z) : spec_float := binary_normalize prec emax z 0 false.

(** The conversions of an integer to [double] and to [float]. *)
Definition dbl : Z -> spec_float := of_int 53 1024.
Definition flt : Z -> spec_float := of_int 24 128.

(** The conversion of a [float] to [double]. *)
Definition widen (x : spec_float) : spec_float :=
  match x with
  | S754_finite s m e => binary_normalize 53 1024 (cond_Zopp s (Zpos m)) e s
  | _ => x
  end.

Definition fdiv : spec_float -> spec_float -> spec_float := SFdiv 24 128.
Definition fmul : spec_float -> spec_float -> spec_float := SFmul 24 128.
Definition fsub : spec_float -> spec_float -> spec_float := SFsub 24 128.
Definition fsqrt : spec_float -> spec_float := SFsqrt 24 128.

(** ** The statistics of the system inspector *)

(** The counters the kernel driver and the inspector report. *)
Record KernelStats := mkKernelStats {
  nEvents : Z;
  nDrops : Z;
  nDropsBuffer : Z;
  nPreemptions : Z;
  nThreadCacheSize : Z;
  nDropsThreadCache : Z
}.

(** [system_inspector::Stats], with the members that the event loop and the process
    handler update as the records of these components. *)
Record Stats := mkStats {
  kernel_ : KernelStats;
  events_ : EventStats;
  nGRPCSendFailures : Z;
  process_ : ProcessStats
}.

Definition Stats_new `{Driver} : Stats :=
  mkStats (mkKernelStats 0 0 0 0 0 0)
    (mkEventStats (replicate PPM_EVENT_MAX 0) (replicate PPM_EVENT_MAX 0)
       (replicate PPM_EVENT_MAX 0) (replicate PPM_EVENT_MAX 0))
    0 ProcessStats_new.

(** What [GetStats] reads of the inspector. *)
Record Capture := mkCapture {
  n_evts : Z;
  n_drops : Z;
  n_drops_buffer : Z;
  n_preemptions : Z;
  get_thread_count : Z;
  m_n_drops_full_threadtable : option Z
}.

(** [inspector]: the inspector, if there is one. *)
Definition GetStats (running_ : bool) (inspector : option Capture) (userspace_stats_ : Stats) : option Stats :=
  match inspector with
  | Some c =>
      if running_ then
        Some (mkStats (mkKernelStats (n_evts c) (n_drops c) (n_drops_buffer c) (n_preemptions c)
                         (get_thread_count c)
                         (default (nDropsThreadCache (kernel_ userspace_stats_)) (m_n_drops_full_threadtable c)))
                (events_ userspace_stats_) (nGRPCSendFailures userspace_stats_) (process_ userspace_stats_))
      else None
  | None => None
  end.

(** ** The registry *)

Definition labels : Type := list (str * str).

(** A gauge is named by its family and its labels. *)
Definition gauge : Type := str * labels.

#[export] Instance gauge_eq_dec : EqDecision gauge := _.

Class Registry (R : Type) := {
  gauge_add : gauge -> R -> R;
  gauge_set : gauge -> spec_float -> R -> R;
  gauge_value : R -> gauge -> option spec_float
}.

Class RegistryLaws (R : Type) `{!Registry R} : Prop := {
  add_same r g : gauge_value (gauge_add g r) g = Some (default (S754_zero false) (gauge_value r g));
  add_other r g g' : g <> g' -> gauge_value (gauge_add g r) g' = gauge_value r g';
  set_same r g v : is_Some (gauge_value r g) -> gauge_value (gauge_set g v r) g = Some v;
  set_other r g g' v : g <> g' -> gauge_value (gauge_set g v r) g' = gauge_value r g'
}.

(** ** The gauges *)

Definition by_type (family name : string) : gauge := (lit family, [(lit "type", lit name)]).

Definition ev (name : string) : gauge := by_type "rox_collector_events" name.
Definition lineage (name : string) : gauge := by_type "rox_collector_process_lineage_info" name.

(** The names of [TIMER_NAMES] and [COUNTER_NAMES]. *)
Definition timer_type_to_name (t : TimerType) : string :=
  match t with
  | net_scrape_read => "net_scrape_read" | net_scrape_update => "net_scrape_update"
  | net_fetch_state => "net_fetch_state" | net_create_message => "net_create_message"
  | net_write_message => "net_write_message" | process_info_wait => "process_info_wait"
  end.

Definition counter_type_to_name (c : CounterType) : string :=
  match c with
  | net_conn_updates => "net_conn_updates" | net_conn_deltas => "net_conn_deltas"
  | net_conn_inactive => "net_conn_inactive" | net_conn_rate_limited => "net_conn_rate_limited"
  | net_cep_updates => "net_cep_updates" | net_cep_deltas => "net_cep_deltas"
  | net_cep_inactive => "net_cep_inactive" | net_known_ip_networks => "net_known_ip_networks"
  | net_known_public_ips => "net_known_public_ips"
  | process_lineage_counts => "process_lineage_counts" | process_lineage_total => "process_lineage_total"
  | process_lineage_sqr_total => "process_lineage_sqr_total"
  | process_lineage_string_total => "process_lineage_string_total"
  | process_info_hit => "process_info_hit" | process_info_miss => "process_info_miss"
  | rate_limit_flushing_counts => "rate_limit_flushing_counts"
  | procfs_could_not_open_fd_dir => "procfs_could_not_open_fd_dir"
  | procfs_could_not_open_proc_dir => "procfs_could_not_open_proc_dir"
  | procfs_could_not_open_pid_dir => "procfs_could_not_open_pid_dir"
  | procfs_could_not_get_network_namespace => "procfs_could_not_get_network_namespace"
  | procfs_could_not_get_socket_inodes => "procfs_could_not_get_socket_inodes"
  | procfs_could_not_read_exe => "procfs_could_not_read_exe"
  | procfs_could_not_read_cmdline => "procfs_could_not_read_cmdline"
  | procfs_zombie_process => "procfs_zombie_process"
  | event_timestamp_distant_past => "event_timestamp_distant_past"
  | event_timestamp_future => "event_timestamp_future"
  end.

Definition all_timers : list TimerType :=
  [net_scrape_read; net_scrape_update; net_fetch_state; net_create_message; net_write_message; process_info_wait].

Definition all_counters : list CounterType :=
  [ net_conn_updates; net_conn_deltas; net_conn_inactive; net_conn_rate_limited; net_cep_updates; net_cep_deltas;
    net_cep_inactive; net_known_ip_networks; net_known_public_ips; process_lineage_counts; process_lineage_total;
    process_lineage_sqr_total; process_lineage_string_total; process_info_hit; process_info_miss;
    rate_limit_flushing_counts; procfs_could_not_open_fd_dir; procfs_could_not_open_proc_dir;
    procfs_could_not_open_pid_dir; procfs_could_not_get_network_namespace; procfs_could_not_get_socket_inodes;
    procfs_could_not_read_exe; procfs_could_not_read_cmdline; procfs_zombie_process;
    event_timestamp_distant_past; event_timestamp_future ].

(** [CollectorTimerGauge]. *)
Definition timer_events (t : TimerType) : gauge := by_type "rox_collector_timers" (timer_type_to_name t ++ "_events")%string.
Definition timer_total (t : TimerType) : gauge :=
  by_type "rox_collector_timers" (timer_type_to_name t ++ "_times_us_total")%string.
Definition timer_avg (t : TimerType) : gauge :=
  by_type "rox_collector_timers" (timer_type_to_name t ++ "_times_us_avg")%string.

Definition counter_gauge (c : CounterType) : gauge := by_type "rox_collector_counters" (counter_type_to_name c).

(** The gauges of an event type: [key] and [value] are the first label. *)
Definition typed_gauge (family key value : string) (e : str * str) : gauge :=
  (lit family, [(lit key, lit value); (lit "event_type", e.1); (lit "event_dir", e.2)]).

Definition typed_userspace : str * str -> gauge := typed_gauge "rox_collector_events_typed" "quantity" "userspace".
Definition typed_parse_total : str * str -> gauge := typed_gauge "rox_collector_event_times_us_total" "step" "parse".
Definition typed_process_total : str * str -> gauge := typed_gauge "rox_collector_event_times_us_total" "step" "process".
Definition typed_parse_avg : str * str -> gauge := typed_gauge "rox_collector_event_times_us_avg" "step" "parse".
Definition typed_process_avg : str * str -> gauge := typed_gauge "rox_collector_event_times_us_avg" "step" "process".

(** ** The exporter's thread *)

(** A pass reads the atomic counters one by one while other threads add to them, those of
    the lineages twice: the counters at the moment of each read. *)
Record counter_reads := mkReads {
  at_count : TimerType -> CollectorStats;
  at_micros : TimerType -> CollectorStats;
  at_counter : CounterType -> CollectorStats;
  at_lineage : CounterType -> CollectorStats
}.

(** Nothing is counted during the pass. *)
Definition at_once (c : CollectorStats) : counter_reads := mkReads (fun _ => c) (fun _ => c) (fun _ => c) (fun _ => c).

Section Run.
Context `{Driver} {R : Type} `{!Registry R}.
(** The table of event names and the options read. *)
Context (event_names : EventNames) (EnableDetailedMetrics : bool) (active_syscalls : list str).

Definition syscall_set : umap str unit := fold_left (fun s name => (emplace s name tt).1) active_syscalls [].

(** The entry of [typed] for event [i]: the labels of its gauges, if it has any; no
    entry when the name cannot be found, an exception. *)
Definition typed_entry (i : nat) : option (option (str * str)) :=
  match GetEventName event_names i with
  | None => None
  | Some event_name =>
      Some (if Contains syscall_set event_name
            then Some (event_name, if PPME_IS_ENTER i then lit ">" else lit "<") else None)
  end.

Definition typed_table : option (list (option (str * str))) :=
  if EnableDetailedMetrics then mapM typed_entry (seq 0 PPM_EVENT_MAX)
  else Some (replicate PPM_EVENT_MAX None).

Definition typed_gauges (e : option (str * str)) : list gauge :=
  match e with
  | Some e => [typed_userspace e; typed_parse_total e; typed_process_total e; typed_parse_avg e; typed_process_avg e]
  | None => []
  end.

(** The gauges added before the loop, in order. *)
Definition registered (typed : list (option (str * str))) : list gauge :=
  [ ev "kernel"; ev "drops"; ev "threadCacheDrops"; ev "ringbufferDrops"; ev "preemptions"; ev "grpcSendFailures";
    ev "threadCacheSize"; ev "processSent"; ev "processSendFailures"; ev "processResolutionFailuresByEvt";
    ev "processResolutionFailuresByTinfo"; ev "processRateLimitCount" ]
  ++ flat_map (fun t => [timer_events t; timer_total t; timer_avg t]) all_timers
  ++ map counter_gauge all_counters
  ++ [lineage "lineage_count"; lineage "lineage_avg"; lineage "std_dev"; lineage "lineage_avg_string_len"]
  ++ (if EnableDetailedMetrics then ev "userspace" :: flat_map typed_gauges typed else []).

(** [CollectorTimerGauge::Update]; [int64_t] division. *)
Definition Update_timer (t : TimerType) (count total_us : Z) : list (gauge * spec_float) :=
  [ (timer_events t, dbl count); (timer_total t, dbl total_us);
    (timer_avg t, dbl (if count =? 0 then 0 else Z.quot total_us count)) ].

Definition kernel_sets (s : KernelStats) : list (gauge * spec_float) :=
  [ (ev "kernel", dbl (nEvents s)); (ev "drops", dbl (nDrops s));
    (ev "threadCacheDrops", dbl (nDropsThreadCache s)); (ev "ringbufferDrops", dbl (nDropsBuffer s));
    (ev "preemptions", dbl (nPreemptions s)); (ev "threadCacheSize", dbl (nThreadCacheSize s)) ].

(** The body of the loop over event types; the average of the processing time is not set. *)
Definition typed_sets (s : EventStats) (i : nat) (e : option (str * str)) : list (gauge * spec_float) :=
  let userspace := nth i (nUserspaceEvents s) 0 in
  let parse_micros_total := nth i (event_parse_micros s) 0 in
  let process_micros_total := nth i (event_process_micros s) 0 in
  match e with
  | Some e =>
      [ (typed_userspace e, dbl userspace); (typed_parse_total e, dbl parse_micros_total);
        (typed_process_total e, dbl process_micros_total);
        (typed_parse_avg e, dbl (if userspace =? 0 then 0 else parse_micros_total / userspace)) ]
  | None => []
  end.

Fixpoint all_typed_sets (s : EventStats) (i : nat) (typed : list (option (str * str))) : list (gauge * spec_float) :=
  match typed with
  | [] => []
  | e :: typed => typed_sets s i e ++ all_typed_sets s (S i) typed
  end.

Definition nUserspace (s : EventStats) (n : nat) : Z :=
  fold_left (fun acc i => wrap 64 (acc + nth i (nUserspaceEvents s) 0)) (seq 0 n) 0.

Definition detailed_sets (s : EventStats) (typed : list (option (str * str))) : list (gauge * spec_float) :=
  if EnableDetailedMetrics then all_typed_sets s 0 typed ++ [(ev "userspace", dbl (nUserspace s (length typed)))]
  else [].

Definition process_sets (failures : Z) (s : ProcessStats) : list (gauge * spec_float) :=
  [ (ev "grpcSendFailures", dbl failures);
    (ev "processSent", dbl (nProcessSent s)); (ev "processSendFailures", dbl (nProcessSendFailures s));
    (ev "processResolutionFailuresByEvt", dbl (nProcessResolutionFailuresByEvt s));
    (ev "processResolutionFailuresByTinfo", dbl (nProcessResolutionFailuresByTinfo s));
    (ev "processRateLimitCount", dbl (nProcessRateLimitCount s)) ].

Definition timer_sets (c : counter_reads) : list (gauge * spec_float) :=
  flat_map (fun t => Update_timer t (GetTimerCount (at_count c t) t) (GetTimerDurationMicros (at_micros c t) t)) all_timers.

Definition counter_sets (c : counter_reads) : list (gauge * spec_float) :=
  map (fun ct => (counter_gauge ct, dbl (GetCounter (at_counter c ct) ct))) all_counters.

(** The averages, as [float]s; [std_dev] is the root of the mean of the squares less
    the square of the mean. *)
Definition average (total count : Z) : spec_float :=
  if count =? 0 then flt 0 else fdiv (flt total) (flt count).

Definition std_dev (count total sqr_total : Z) : spec_float :=
  let avg := average total count in
  fsqrt (fsub (average sqr_total count) (fmul avg avg)).

Definition lineage_sets (c : counter_reads) : list (gauge * spec_float) :=
  let lineage_count_stat := GetCounter (at_lineage c process_lineage_counts) process_lineage_counts in
  let lineage_count_total := GetCounter (at_lineage c process_lineage_total) process_lineage_total in
  let lineage_count_sqr_total := GetCounter (at_lineage c process_lineage_sqr_total) process_lineage_sqr_total in
  let lineage_count_string_total := GetCounter (at_lineage c process_lineage_string_total) process_lineage_string_total in
  [ (lineage "lineage_count", dbl lineage_count_stat);
    (lineage "lineage_avg", widen (average lineage_count_total lineage_count_stat));
    (lineage "std_dev", widen (std_dev lineage_count_stat lineage_count_total lineage_count_sqr_total));
    (lineage "lineage_avg_string_len", widen (average lineage_count_string_total lineage_count_stat)) ].

(** One pass of the loop: the calls of [Set], in order. *)
Definition pass_sets (typed : list (option (str * str))) (s : Stats) (c : counter_reads) : list (gauge * spec_float) :=
  kernel_sets (kernel_ s) ++ detailed_sets (events_ s) typed ++ process_sets (nGRPCSendFailures s) (process_ s)
  ++ timer_sets c ++ counter_sets c ++ lineage_sets c.

Definition set_gauges (sets : list (gauge * spec_float)) (r : R) : R :=
  fold_left (fun r s => gauge_set s.1 s.2 r) sets r.

Definition export_pass (typed : list (option (str * str))) (p : option Stats * counter_reads) (r : R) : R :=
  match p.1 with
  | None => r
  | Some s => set_gauges (pass_sets typed s p.2) r
  end.

(** [run]: the passes until the thread is stopped, each with the answer of [GetStats]
    and what it reads of the counters. *)
Definition run (passes : list (option Stats * counter_reads)) (r : R) : option R :=
  match typed_table with
  | None => None
  | Some typed =>
      Some (fold_left (fun r p => export_pass typed p r) passes
              (fold_left (fun r g => gauge_add g r) (registered typed) r))
  end.
End Run.

(** ** CollectorConnectionStats *)

(** The four summaries of a family and the observations each receives. *)
Record ConnectionSummaries (T : Type) := mkConnectionSummaries {
  inbound_private_summary_ : list T;
  inbound_public_summary_ : list T;
  outbound_private_summary_ : list T;
  outbound_public_summary_ : list T
}.
Arguments mkConnectionSummaries {T}.
Arguments inbound_private_summary_ {T}.
Arguments inbound_public_summary_ {T}.
Arguments outbound_private_summary_ {T}.
Arguments outbound_public_summary_ {T}.

Definition Observe {T} (inbound_private inbound_public outbound_private outbound_public : T)
    (s : ConnectionSummaries T) : ConnectionSummaries T :=
  mkConnectionSummaries (inbound_private_summary_ s ++ [inbound_private])
    (inbound_public_summary_ s ++ [inbound_public])
    (outbound_private_summary_ s ++ [outbound_private])
    (outbound_public_summary_ s ++ [outbound_public]).

(** ** Lemmas *)

#[local] Instance In_decision {A} `{EqDecision A} (x : A) (l : list A) : Decision (In x l) := in_dec (decide_rel eq) x l.

(** *** Names of events *)

Section EventNamesById.
Context `{Driver}.

Lemma set_syscalls_names table n i n' :
  set_syscalls n i table = Some n' -> names_by_id_ n' = names_by_id_ n.
Proof.
  revert n i. induction table as [|[a b] table IH]; intros n i; cbn [set_syscalls]; [by intros [= ->]|].
  unfold set_syscall. repeat case_match; simplify_eq; try done. intros E. by rewrite (IH _ _ E).
Qed.

Lemma name_events_names l n :
  (forall i, In i l -> (i < length (names_by_id_ n))%nat) ->
  length (names_by_id_ (fold_left name_event l n)) = length (names_by_id_ n)
  /\ forall i, names_by_id_ (fold_left name_event l n) !! i
       = if decide (In i l) then Some (g_event_info i) else names_by_id_ n !! i.
Proof.
  revert n. induction l as [|x l IH]; intros n Hl; cbn [fold_left].
  - split; [done|]. intros i. by rewrite decide_False by auto.
  - destruct (IH (name_event n x)) as [Hlen Hn].
    { intros i Hi. cbn [name_event names_by_id_]. rewrite length_insert. apply Hl. by right. }
    cbn [name_event names_by_id_] in Hlen, Hn. rewrite length_insert in Hlen. split; [done|]. intros i. rewrite Hn.
    destruct (decide (In i l)) as [Hi|Hi]; [by rewrite decide_True by (by right)|].
    destruct (decide (i = x)) as [->|Hne].
    + rewrite decide_True by (by left). apply list_lookup_insert_eq, Hl. by left.
    + rewrite decide_False by (intros [?|?]; [congruence|done]). by apply list_lookup_insert_ne.
Qed.

Lemma GetEventName_info n i :
  EventNames_make = Some n -> (i < PPM_EVENT_MAX)%nat -> GetEventName n i = Some (g_event_info i).
Proof.
  intros E Hi. unfold EventNames_make in E. apply set_syscalls_names in E. unfold GetEventName. rewrite E.
  destruct (name_events_names (seq 0 PPM_EVENT_MAX)
              (mkEventNames [] (replicate PPM_EVENT_MAX []) (replicate PPM_EVENT_MAX 0))) as [_ Hn].
  { intros j Hj%in_seq. cbn [names_by_id_]. rewrite length_replicate. lia. }
  rewrite Hn, decide_True; [done|]. apply in_seq. lia.
Qed.
End EventNamesById.

(** *** Gauges after a sequence of assignments *)

(** The last value a sequence of assignments gives to a gauge. *)
Fixpoint last_set (g : gauge) (sets : list (gauge * spec_float)) : option spec_float :=
  match sets with
  | [] => None
  | s :: sets =>
      match last_set g sets with
      | Some v => Some v
      | None => if decide (s.1 = g) then Some s.2 else None
      end
  end.

Lemma last_set_app g s1 s2 :
  last_set g (s1 ++ s2) = match last_set g s2 with Some v => Some v | None => last_set g s1 end.
Proof.
  induction s1 as [|s s1 IH]; simpl; [by destruct (last_set g s2)|]. rewrite IH. by destruct (last_set g s2).
Qed.

Lemma last_set_None g sets : (forall s, In s sets -> s.1 <> g) -> last_set g sets = None.
Proof.
  induction sets as [|s sets IH]; intros Hs; [done|]. simpl. rewrite IH by (intros x Hx; apply Hs; by right).
  rewrite decide_False; [done|]. apply Hs. by left.
Qed.

Lemma last_set_NoDup g v sets : NoDup (map fst sets) -> In (g, v) sets -> last_set g sets = Some v.
Proof.
  induction sets as [|s sets IH]; intros Hnd Hin; [done|]. inversion Hnd as [|? ? Hx Hnd']; subst. simpl.
  destruct Hin as [->|Hin].
  - rewrite last_set_None; [by rewrite decide_True|]. intros s Hs E. apply Hx. cbn [fst] in *. subst g.
    apply list_elem_of_In, in_map, Hs.
  - by rewrite IH.
Qed.

Lemma last_set_In g v sets : last_set g sets = Some v -> In (g, v) sets.
Proof.
  induction sets as [|s sets IH]; [done|]. simpl. destruct (last_set g sets) as [w|]; [intros [= ->]; right; auto|].
  case_decide; [|done]. intros [= <-]. left. subst g. by destruct s.
Qed.

Section Values.
Context {R : Type} `{HR : !Registry R} `{!RegistryLaws R}.

Lemma add_values gs (r : R) g :
  (forall g', In g' gs -> gauge_value r g' = None) ->
  gauge_value (fold_left (fun r g => gauge_add g r) gs r) g
  = if decide (In g gs) then Some (S754_zero false) else gauge_value r g.
Proof.
  intros Hr.
  enough (forall gs r, (forall g', In g' gs -> gauge_value r g' = None \/ gauge_value r g' = Some (S754_zero false)) ->
    gauge_value (fold_left (fun r g => gauge_add g r) gs r) g
    = if decide (In g gs) then Some (S754_zero false) else gauge_value r g) as He.
  { apply He. auto. }
  clear gs r Hr. induction gs as [|x gs IH]; intros r Hr; cbn [fold_left]; [by rewrite decide_False by auto|].
  rewrite IH.
  - destruct (decide (In g gs)) as [Hi|Hi]; [by rewrite decide_True by (by right)|].
    destruct (decide (x = g)) as [->|Hne].
    + rewrite decide_True by (by left). rewrite add_same. by destruct (Hr g (or_introl eq_refl)) as [-> | ->].
    + rewrite decide_False by (intros [?|?]; done). by apply add_other.
  - intros g' Hg'. destruct (decide (x = g')) as [->|Hne].
    + rewrite add_same. by destruct (Hr g' (or_introl eq_refl)) as [-> | ->]; right.
    + rewrite add_other by done. apply Hr. by right.
Qed.

Lemma set_gauges_value sets (r : R) g :
  (forall s, In s sets -> is_Some (gauge_value r s.1)) ->
  gauge_value (set_gauges sets r) g
  = match last_set g sets with Some v => Some v | None => gauge_value r g end.
Proof.
  revert r. induction sets as [|s sets IH]; intros r Hs; [done|]. cbn [set_gauges fold_left last_set].
  fold (set_gauges (R := R)). change (fold_left _ sets (gauge_set s.1 s.2 r)) with (set_gauges sets (gauge_set s.1 s.2 r)).
  rewrite IH.
  - destruct (last_set g sets); [done|]. case_decide as E.
    + subst g. apply set_same, Hs. by left.
    + by apply set_other.
  - intros x Hx. destruct (decide (s.1 = x.1)) as [E|E].
    + rewrite <- E, set_same; [by eexists|]. apply Hs. by left.
    + rewrite set_other by done. apply Hs. by right.
Qed.
End Values.

(** *** The gauges of a pass *)

Section Passes.
Context `{Driver} (detailed : bool).
Implicit Types (typed : list (option (str * str))) (s : Stats) (c : counter_reads).

(** What a pass assigns to the gauges that exist in every configuration. *)
Definition static_sets (s : Stats) (c : counter_reads) : list (gauge * spec_float) :=
  kernel_sets (kernel_ s) ++ process_sets (nGRPCSendFailures s) (process_ s)
  ++ timer_sets c ++ counter_sets c ++ lineage_sets c.

Definition static_keys : list gauge :=
  map fst (kernel_sets (mkKernelStats 0 0 0 0 0 0) ++ process_sets 0 ProcessStats_new
           ++ timer_sets (at_once CollectorStats_new) ++ counter_sets (at_once CollectorStats_new)
           ++ lineage_sets (at_once CollectorStats_new)).

Lemma static_keys_eq s c : map fst (static_sets s c) = static_keys.
Proof. reflexivity. Qed.

Lemma static_keys_NoDup : NoDup static_keys.
Proof. apply (bool_decide_unpack _). vm_compute. exact I. Qed.

(** The families of the gauges per event type, and the total of these events. *)
Definition is_detailed (g : gauge) : bool :=
  bool_decide (g = ev "userspace")
  || existsb (fun f => bool_decide (g.1 = lit f))
       ["rox_collector_events_typed"; "rox_collector_event_times_us_total"; "rox_collector_event_times_us_avg"]%string.

Lemma static_not_detailed g : In g static_keys -> is_detailed g = false.
Proof.
  intros Hg. assert (forallb (fun g => negb (is_detailed g)) static_keys = true) as Hf by (vm_compute; reflexivity).
  rewrite forallb_forall in Hf. apply Hf in Hg. by destruct (is_detailed g).
Qed.

Lemma typed_gauge_detailed e st i x : In x (typed_sets st i e) -> is_detailed x.1 = true.
Proof.
  unfold typed_sets. destruct e as [e|]; [|done]. intros [<-|[<-|[<-|[<-|[]]]]]; unfold is_detailed; cbn [fst];
    apply orb_true_iff; right; reflexivity.
Qed.

Lemma all_typed_detailed st i typed x : In x (all_typed_sets st i typed) -> is_detailed x.1 = true.
Proof.
  revert i. induction typed as [|e typed IH]; intros i; cbn [all_typed_sets]; [done|].
  intros [Hx|Hx]%in_app_or; [by eapply typed_gauge_detailed|eauto].
Qed.

Lemma detailed_sets_detailed st typed x : In x (detailed_sets detailed st typed) -> is_detailed x.1 = true.
Proof.
  unfold detailed_sets. destruct detailed; [|done].
  intros [Hx|[<-|[]]]%in_app_or; [by eapply all_typed_detailed|reflexivity].
Qed.

Lemma static_value typed s c g v :
  In (g, v) (static_sets s c) -> last_set g (pass_sets detailed typed s c) = Some v.
Proof.
  intros Hin. assert (Hk : In g static_keys) by (rewrite <- (static_keys_eq s c); apply (in_map fst _ _ Hin)).
  rewrite <- (last_set_NoDup g v (static_sets s c)); [|rewrite static_keys_eq; apply static_keys_NoDup|done].
  unfold pass_sets, static_sets. rewrite !(last_set_app g (kernel_sets _)), (last_set_app g (detailed_sets _ _ _)).
  rewrite (last_set_None g (detailed_sets _ _ _)); [by destruct (last_set g (process_sets _ _ ++ _))|].
  intros x Hx E. apply detailed_sets_detailed in Hx. rewrite E, static_not_detailed in Hx by done. done.
Qed.

Lemma detailed_value typed s c g :
  is_detailed g = true -> last_set g (pass_sets detailed typed s c) = last_set g (detailed_sets detailed (events_ s) typed).
Proof.
  intros Hg. assert (Hn : forall l, (forall x, In x l -> In x.1 static_keys) -> last_set g l = None).
  { intros l Hl. apply last_set_None. intros x Hx E. apply Hl, static_not_detailed in Hx. by rewrite E, Hg in Hx. }
  assert (Hs : forall x, In x (static_sets s c) -> In x.1 static_keys)
    by (intros x Hx; rewrite <- (static_keys_eq s c); by apply in_map).
  unfold static_sets in Hs. unfold pass_sets. rewrite (last_set_app g (kernel_sets _)), (last_set_app g (detailed_sets _ _ _)).
  rewrite (Hn (kernel_sets _)) by (intros; apply Hs, in_or_app; auto).
  rewrite (Hn (process_sets _ _ ++ _)) by (intros; apply Hs, in_or_app; auto).
  by destruct (last_set g (detailed_sets _ _ _)).
Qed.

Lemma all_typed_registered st i typed x :
  In x (all_typed_sets st i typed) -> In x.1 (flat_map typed_gauges typed).
Proof.
  revert i. induction typed as [|e typed IH]; intros i; cbn [all_typed_sets flat_map]; [done|].
  intros [Hd|Hd]%in_app_or; apply in_or_app; [left|eauto].
  unfold typed_sets in Hd. destruct e as [e|]; [|done]. unfold typed_gauges.
  destruct Hd as [<-|[<-|[<-|[<-|[]]]]]; cbn [fst In]; tauto.
Qed.

(** Every assignment is to a gauge that was added. *)
Lemma pass_registered typed s c x :
  In x (pass_sets detailed typed s c) -> In x.1 (registered detailed typed).
Proof.
  intros Hx. assert (In x (static_sets s c) \/ In x (detailed_sets detailed (events_ s) typed)) as [Hs|Hd].
  { unfold pass_sets, static_sets in *. rewrite !in_app_iff in *. tauto. }
  - apply (in_map fst) in Hs. rewrite static_keys_eq in Hs.
    assert (forallb (fun g => bool_decide (In g (registered false []))) static_keys = true) as Hf
      by (vm_compute; reflexivity).
    rewrite forallb_forall in Hf. apply Hf, bool_decide_eq_true in Hs.
    unfold registered in *. rewrite !in_app_iff in *. cbn [In] in *. tauto.
  - unfold detailed_sets in Hd. destruct detailed; [|done]. unfold registered. rewrite !in_app_iff. do 4 right.
    apply in_app_iff in Hd as [Hd|[<-|[]]]; [right|by left]. by eapply all_typed_registered.
Qed.
End Passes.

(** *** The gauges of an event type *)

Section Typed.
(** A gauge per event type and the value a pass gives it for the event at an index. *)
Context (mk : str * str -> gauge) (val : EventStats -> nat -> spec_float).

Definition sets_gauge : Prop :=
  forall st i e e', last_set (mk e) (typed_sets st i (Some e')) = if decide (e' = e) then Some (val st i) else None.

Context (Hmk : sets_gauge).

Lemma all_typed_none st e typed k :
  (forall j, typed !! j <> Some (Some e)) -> last_set (mk e) (all_typed_sets st k typed) = None.
Proof.
  revert k. induction typed as [|x typed IH]; intros k Hj; cbn [all_typed_sets]; [done|].
  rewrite last_set_app, IH by (intros j; apply (Hj (S j))). specialize (Hj O). cbn in Hj.
  destruct x as [e'|]; [|done]. rewrite Hmk, decide_False; [done|]. congruence.
Qed.

(** The last event with these labels decides. *)
Lemma all_typed_last st e typed k i :
  typed !! i = Some (Some e) -> (forall j, (i < j)%nat -> typed !! j <> Some (Some e)) ->
  last_set (mk e) (all_typed_sets st k typed) = Some (val st (k + i)).
Proof.
  revert k i. induction typed as [|x typed IH]; intros k i Hi Hj; [done|]. cbn [all_typed_sets].
  rewrite last_set_app. destruct i as [|i]; cbn in Hi.
  - injection Hi as ->. rewrite all_typed_none by (intros j; apply (Hj (S j)); lia).
    rewrite Hmk, decide_True by done. by rewrite Nat.add_0_r.
  - rewrite (IH (S k) i) by (done || (intros j ?; apply (Hj (S j)); lia)). do 2 f_equal. lia.
Qed.
End Typed.

Definition parse_avg (st : EventStats) (i : nat) : Z :=
  let userspace := nth i (nUserspaceEvents st) 0 in
  if userspace =? 0 then 0 else nth i (event_parse_micros st) 0 / userspace.

Ltac typed_case :=
  intros st i [n d] [n' d']; cbn [last_set typed_sets fst snd];
  unfold typed_userspace, typed_parse_total, typed_process_total, typed_parse_avg, typed_process_avg, typed_gauge;
  cbn [fst snd]; repeat case_decide; simplify_eq; try reflexivity; try congruence; try discriminate.

Lemma sets_userspace : sets_gauge typed_userspace (fun st i => dbl (nth i (nUserspaceEvents st) 0)).
Proof. typed_case. Qed.

Lemma sets_parse_total : sets_gauge typed_parse_total (fun st i => dbl (nth i (event_parse_micros st) 0)).
Proof. typed_case. Qed.

Lemma sets_process_total : sets_gauge typed_process_total (fun st i => dbl (nth i (event_process_micros st) 0)).
Proof. typed_case. Qed.

Lemma sets_parse_avg : sets_gauge typed_parse_avg (fun st i => dbl (parse_avg st i)).
Proof. typed_case. Qed.

Lemma process_avg_unset e st i typed : last_set (typed_process_avg e) (all_typed_sets st i typed) = None.
Proof.
  apply last_set_None. revert i. induction typed as [|x typed IH]; intros i s; cbn [all_typed_sets]; [done|].
  intros [Hs|Hs]%in_app_or; [|eauto]. unfold typed_sets in Hs. destruct x as [x|]; [|done].
  destruct Hs as [<-|[<-|[<-|[<-|[]]]]]; cbn [fst];
    unfold typed_userspace, typed_parse_total, typed_process_total, typed_parse_avg, typed_process_avg, typed_gauge;
    intros E; simplify_eq.
Qed.

Lemma detailed_last st g typed :
  g <> ev "userspace" -> last_set g (detailed_sets true st typed) = last_set g (all_typed_sets st 0 typed).
Proof.
  intros Hg. unfold detailed_sets. rewrite last_set_app. cbn [last_set fst]. by rewrite decide_False by done.
Qed.

(** *** All passes *)

Section Runs.
Context `{Driver} {R : Type} `{HR : !Registry R} `{!RegistryLaws R}.
Context (detailed : bool) (typed : list (option (str * str))).

Definition added (r : R) : Prop := forall g, In g (registered detailed typed) -> is_Some (gauge_value r g).

Lemma export_pass_value p (r : R) g :
  added r ->
  gauge_value (export_pass detailed typed p r) g
  = match p.1 with
    | Some s => match last_set g (pass_sets detailed typed s p.2) with Some v => Some v | None => gauge_value r g end
    | None => gauge_value r g
    end.
Proof.
  intros Hr. unfold export_pass. destruct p as [[s|] c]; [|done]. apply set_gauges_value.
  intros x Hx. by eapply Hr, pass_registered.
Qed.

Lemma export_pass_added p (r : R) : added r -> added (export_pass detailed typed p r).
Proof.
  intros Hr g Hg. rewrite export_pass_value by done. destruct p.1 as [s|]; [|by apply Hr].
  case_match; [by eexists|by apply Hr].
Qed.

Lemma passes_added ps (r : R) : added r -> added (fold_left (fun r p => export_pass detailed typed p r) ps r).
Proof. revert r. induction ps as [|p ps IH]; intros r Hr; [done|]. by apply IH, export_pass_added. Qed.

Lemma passes_failed ps (r : R) :
  Forall (fun p => p.1 = None) ps -> fold_left (fun r p => export_pass detailed typed p r) ps r = r.
Proof.
  intros Hps. induction Hps as [|[o c] ps Hp Hps IH]; [done|]. cbn [fold_left]. cbn [fst] in Hp. subst o. apply IH.
Qed.

(** A gauge that no pass assigns keeps its value. *)
Lemma passes_unset ps (r : R) g :
  added r -> (forall s c, last_set g (pass_sets detailed typed s c) = None) ->
  gauge_value (fold_left (fun r p => export_pass detailed typed p r) ps r) g = gauge_value r g.
Proof.
  intros Hr Hg. revert r Hr. induction ps as [|p ps IH]; intros r Hr; [done|]. cbn [fold_left].
  rewrite IH by by apply export_pass_added. rewrite export_pass_value by done.
  destruct p.1; [by rewrite Hg|done].
Qed.

Lemma initially_added (r : R) :
  (forall g, In g (registered detailed typed) -> gauge_value r g = None) ->
  added (fold_left (fun r g => gauge_add g r) (registered detailed typed) r).
Proof. intros Hr g Hg. rewrite add_values by done. by rewrite decide_True. Qed.

(** The last pass that had statistics decides. *)
Lemma last_pass_value before s c after (r : R) g v :
  (forall g, In g (registered detailed typed) -> gauge_value r g = None) ->
  Forall (fun p => p.1 = None) after -> last_set g (pass_sets detailed typed s c) = Some v ->
  gauge_value (fold_left (fun r p => export_pass detailed typed p r) (before ++ (Some s, c) :: after)
                 (fold_left (fun r g => gauge_add g r) (registered detailed typed) r)) g = Some v.
Proof.
  intros Hr Ha Hg. rewrite fold_left_app. cbn [fold_left]. rewrite passes_failed by done.
  rewrite export_pass_value by by apply passes_added, initially_added. cbn [fst snd]. by rewrite Hg.
Qed.
End Runs.

Lemma typed_table_total `{Driver} n detailed active :
  EventNames_make = Some n ->
  exists typed, typed_table n detailed active = Some typed /\ length typed = PPM_EVENT_MAX
    /\ forall i, (i < PPM_EVENT_MAX)%nat ->
         typed !! i = Some (if detailed && Contains (syscall_set active) (g_event_info i)
                            then Some (g_event_info i, if PPME_IS_ENTER i then lit ">" else lit "<") else None).
Proof.
  intros Hn. unfold typed_table. destruct detailed.
  - exists (map (fun i => if Contains (syscall_set active) (g_event_info i)
                          then Some (g_event_info i, if PPME_IS_ENTER i then lit ">" else lit "<") else None)
              (seq 0 PPM_EVENT_MAX)).
    split_and!.
    + apply mapM_Some, Forall2_fmap_r, Forall_Forall2_diag, Forall_forall. intros i Hi%elem_of_seq.
      unfold typed_entry. by rewrite (GetEventName_info n i Hn) by lia.
    + by rewrite length_map, length_seq.
    + intros i Hi. cbn [andb]. rewrite list_lookup_fmap, lookup_seq_lt by done. done.
  - exists (replicate PPM_EVENT_MAX None). split_and!; [done|by rewrite length_replicate|].
    intros i Hi. by apply lookup_replicate_2.
Qed.


Lemma syscall_set_spec active name : Contains (syscall_set active) name = true <-> In name active.
Proof.
  unfold syscall_set.
  enough (forall s, wf_umap (fun _ : str => True) s ->
            Contains (fold_left (fun s name => (emplace s name tt).1) active s) name = true
            <-> Contains s name = true \/ In name active) as He.
  { rewrite He by apply wf_nil. split; [by intros [?|?]|by right]. }
  induction active as [|x active IH]; intros s Hs; cbn [fold_left In]; [tauto|].
  rewrite IH by (by apply (wf_emplace (fun _ => True))). rewrite !Contains_Lookup.
  rewrite (Lookup_emplace (fun _ => True)) by done.
  destruct (Lookup s name) as [u|]; [tauto|]. unfold keqb, KeyEq_str, dec_keqb.
  destruct (bool_decide_reflect (name = x)) as [->|Hne]; [tauto|]. naive_solver.
Qed.

Lemma nUserspace_sum st n :
  nUserspace st n = wrap 64 (foldr Z.add 0 (map (fun i => nth i (nUserspaceEvents st) 0) (seq 0 n))).
Proof.
  unfold nUserspace.
  enough (forall l a, fold_left (fun acc i => wrap 64 (acc + nth i (nUserspaceEvents st) 0)) l (wrap 64 a)
                      = wrap 64 (a + foldr Z.add 0 (map (fun i => nth i (nUserspaceEvents st) 0) l))) as He
    by (specialize (He (seq 0 n) 0); rewrite Z.add_0_l in He; exact He).
  induction l as [|i l IH]; intros a; cbn [fold_left map foldr]; [f_equal; lia|].
  unfold wrap at 2 3. rewrite Zplus_mod_idemp_l. fold (wrap 64 (a + nth i (nUserspaceEvents st) 0)).
  rewrite IH. f_equal. lia.
Qed.

(** The counters after the same lineage was counted [n] times. *)
Lemma CountLineage_iter (l : list LineageInfo) (n : N) :
  Z.of_N n * (Z.of_nat (length l) * Z.of_nat (length l) + 1) < 2 ^ 62 ->
  let c := N.iter n (CountLineage l) CollectorStats_new in
  GetCounter c process_lineage_counts = Z.of_N n
  /\ GetCounter c process_lineage_total = Z.of_N n * Z.of_nat (length l)
  /\ GetCounter c process_lineage_sqr_total = Z.of_N n * (Z.of_nat (length l) * Z.of_nat (length l)).
Proof.
  induction n as [|n IH] using N.peano_ind; intros Hb; [done|]. rewrite N.iter_succ. cbv zeta in IH |- *.
  rewrite N2Z.inj_succ in Hb |- *. assert (Hm : 0 <= Z.of_N n) by lia. revert IH Hb Hm.
  generalize (N.iter n (CountLineage l) CollectorStats_new) as c. intros c. generalize (Z.of_N n) as m.
  unfold CountLineage, CounterInc, CounterAdd, GetCounter. cbn [counter_].
  assert (HL : 0 <= Z.of_nat (length l)) by lia. revert HL. generalize (Z.of_nat (length l)) as L.
  intros L HL m IH Hb Hm. destruct IH as (E1 & E2 & E3); [nia|].
  repeat (rewrite upd_eq || rewrite upd_ne by done). rewrite E1, E2, E3.
  assert (H1 : L <= L * L + 1) by nia. assert (H2 : 0 <= L * L) by nia.
  pose proof (Z.mul_le_mono_nonneg_l _ _ m Hm H1) as H3. pose proof (Z.mul_nonneg_nonneg _ _ Hm HL) as H4.
  pose proof (Z.mul_nonneg_nonneg _ _ Hm H2) as H5. rewrite Z.mul_add_distr_l in H3.
  assert (Hb' : m * (L * L) + m + L * L + 1 < 2 ^ 62) by (revert Hb; rewrite Z.mul_succ_l, Z.mul_add_distr_l; lia).
  rewrite !to_signed_small by (rewrite ?to_signed_small; lia). lia.
Qed.

(** ** Theorems *)

(** The labels of the gauges of event [i]. *)
Definition event_labels `{Driver} (i : nat) : str * str :=
  (g_event_info i, if PPME_IS_ENTER i then lit ">" else lit "<").

Section Theorems.
Context `{Driver} {R : Type} `{HR : !Registry R} `{HL : !RegistryLaws R}.
Implicit Types (typed : list (option (str * str))).

(** The gauges of the last event with its labels. *)
Lemma typed_values active typed s c i :
  length typed = PPM_EVENT_MAX ->
  (forall i, (i < PPM_EVENT_MAX)%nat ->
     typed !! i = Some (if Contains (syscall_set active) (g_event_info i) then Some (event_labels i) else None)) ->
  (i < PPM_EVENT_MAX)%nat -> In (g_event_info i) active ->
  (forall j, (i < j < PPM_EVENT_MAX)%nat -> event_labels j <> event_labels i) ->
  forall mk val, sets_gauge mk val -> is_detailed (mk (event_labels i)) = true ->
    mk (event_labels i) <> ev "userspace" ->
    last_set (mk (event_labels i)) (pass_sets true typed s c) = Some (val (events_ s) i).
Proof.
  intros Hlen Ht Hi Hin Hj mk val Hmk Hd Hu.
  rewrite detailed_value, detailed_last by done.
  rewrite (all_typed_last mk val Hmk (events_ s) (event_labels i) typed 0 i); [done| |].
  - rewrite Ht by done. apply syscall_set_spec in Hin. by rewrite Hin.
  - intros j Hlt E. pose proof (lookup_lt_Some _ _ _ E). rewrite Ht in E by lia.
    case_match; [|done]. apply (Hj j); [lia|congruence].
Qed.

(** C28. The metrics endpoint.  For every run of the exporter's thread, after the
    last pass in which the system inspector had statistics the registry shows these
    statistics, every kernel and process counter; of the atomic counters, each of which
    the pass reads at a moment of its own, the count and total of every timer, the
    truncated quotient of the two, every counter and the number of lineages; and, with
    detailed metrics, the number of events and parsing times of every event type among
    the active system calls; where several event codes have the same name and direction,
    their gauge is shared and shows the code with the highest number.  The average
    processing time of an event type is 0 whatever was measured, although the
    documentation promises it. *)
Theorem exporter_spec (n : EventNames) (Hn : EventNames_make = Some n) (detailed : bool) (active : list str)
    (r0 : R) (Hr0 : forall g, gauge_value r0 g = None)
    (before after : list (option Stats * counter_reads)) (s : Stats) (c : counter_reads)
    (Hafter : Forall (fun p => p.1 = None) after) :
  exists r, run n detailed active (before ++ (Some s, c) :: after) r0 = Some r
  /\ Forall (fun '(name, v) => gauge_value r (ev name) = Some (dbl v))
       [ ("kernel", nEvents (kernel_ s)); ("drops", nDrops (kernel_ s));
         ("threadCacheDrops", nDropsThreadCache (kernel_ s)); ("ringbufferDrops", nDropsBuffer (kernel_ s));
         ("preemptions", nPreemptions (kernel_ s)); ("threadCacheSize", nThreadCacheSize (kernel_ s));
         ("grpcSendFailures", nGRPCSendFailures s); ("processSent", nProcessSent (process_ s));
         ("processSendFailures", nProcessSendFailures (process_ s));
         ("processResolutionFailuresByEvt", nProcessResolutionFailuresByEvt (process_ s));
         ("processResolutionFailuresByTinfo", nProcessResolutionFailuresByTinfo (process_ s));
         ("processRateLimitCount", nProcessRateLimitCount (process_ s)) ]%string
  /\ (forall t, let count := GetTimerCount (at_count c t) t in
                let micros := GetTimerDurationMicros (at_micros c t) t in
                gauge_value r (timer_events t) = Some (dbl count)
                /\ gauge_value r (timer_total t) = Some (dbl micros)
                /\ gauge_value r (timer_avg t) = Some (dbl (if count =? 0 then 0 else Z.quot micros count)))
  /\ (forall ct, gauge_value r (counter_gauge ct) = Some (dbl (GetCounter (at_counter c ct) ct)))
  /\ gauge_value r (lineage "lineage_count")
     = Some (dbl (GetCounter (at_lineage c process_lineage_counts) process_lineage_counts))
  /\ (detailed = true ->
      gauge_value r (ev "userspace")
        = Some (dbl (wrap 64 (foldr Z.add 0 (map (fun i => nth i (nUserspaceEvents (events_ s)) 0) (seq 0 PPM_EVENT_MAX)))))
      /\ forall i, (i < PPM_EVENT_MAX)%nat -> In (g_event_info i) active ->
           gauge_value r (typed_process_avg (event_labels i)) = Some (S754_zero false)
           /\ ((forall j, (i < j < PPM_EVENT_MAX)%nat -> event_labels j <> event_labels i) ->
               gauge_value r (typed_userspace (event_labels i)) = Some (dbl (nth i (nUserspaceEvents (events_ s)) 0))
               /\ gauge_value r (typed_parse_total (event_labels i)) = Some (dbl (nth i (event_parse_micros (events_ s)) 0))
               /\ gauge_value r (typed_process_total (event_labels i)) = Some (dbl (nth i (event_process_micros (events_ s)) 0))
               /\ gauge_value r (typed_parse_avg (event_labels i)) = Some (dbl (parse_avg (events_ s) i)))).
Proof.
  destruct (typed_table_total n detailed active Hn) as (typed & Et & Hlen & Ht). unfold run. rewrite Et.
  eexists; split; [reflexivity|].
  pose proof (last_pass_value detailed typed before s c after r0) as Hv.
  assert (Hs : forall g v, In (g, v) (static_sets s c) ->
    gauge_value (fold_left (fun r p => export_pass detailed typed p r) (before ++ (Some s, c) :: after)
                   (fold_left (fun r g => gauge_add g r) (registered detailed typed) r0)) g = Some v).
  { intros g v Hin. apply Hv; [by intros|done|by apply static_value]. }
  split_and!.
  - repeat constructor; apply Hs; unfold static_sets, kernel_sets, process_sets; cbn [app In]; tauto.
  - intros t. cbv zeta. split_and!; apply Hs; unfold static_sets; rewrite !in_app_iff; do 2 right; left;
      apply in_flat_map; exists t; (split; [by destruct t; cbn [all_timers In]; tauto|cbn [Update_timer In]; tauto]).
  - intros ct. apply Hs. unfold static_sets. rewrite !in_app_iff. do 3 right. left.
    apply (in_map (fun ct => (counter_gauge ct, dbl (GetCounter (at_counter c ct) ct)))).
    by destruct ct; cbn [all_counters In]; tauto.
  - apply Hs. unfold static_sets. rewrite !in_app_iff. do 4 right. by left.
  - intros ->. cbn [andb] in Ht. split.
    + apply Hv; [by intros|done|]. rewrite detailed_value by reflexivity. unfold detailed_sets.
      rewrite last_set_app. cbn [last_set fst snd]. by rewrite decide_True, nUserspace_sum, Hlen.
    + intros i Hi Hin. split.
      * rewrite passes_unset.
        -- rewrite add_values by (by intros). rewrite decide_True; [done|].
           unfold registered. rewrite !in_app_iff. do 4 right. right. apply in_flat_map.
           exists (Some (event_labels i)). split; [|cbn [typed_gauges In]; tauto].
           apply list_elem_of_In, (list_elem_of_lookup_2 _ i). rewrite Ht by done.
           apply syscall_set_spec in Hin. by rewrite Hin.
        -- by apply initially_added.
        -- intros s' c'. rewrite detailed_value by (apply orb_true_iff; right; reflexivity).
           rewrite detailed_last by discriminate. apply process_avg_unset.
      * intros Hj. pose proof (typed_values active typed s c i Hlen Ht Hi Hin Hj) as Hmk.
        split_and!; apply Hv; try done;
          [apply (Hmk _ _ sets_userspace)|apply (Hmk _ _ sets_parse_total)
          |apply (Hmk _ _ sets_process_total)|apply (Hmk _ _ sets_parse_avg)];
          first [apply orb_true_iff; right; reflexivity|discriminate].
Qed.

(** The standard deviation of the lineage lengths.  It is computed with [float]s
    as the root of a difference of two averages, which rounding can make negative:
    after 1373412 processes that all have a lineage of seven entries, whose standard
    deviation is 0, the gauge shows a NaN. *)
Theorem std_dev_nan (n : EventNames) (Hn : EventNames_make = Some n) (detailed : bool) (active : list str)
    (r0 : R) (Hr0 : forall g, gauge_value r0 g = None) (s : Stats) (l : list LineageInfo) (Hl : length l = 7%nat) :
  exists r, run n detailed active [(Some s, at_once (N.iter 1373412 (CountLineage l) CollectorStats_new))] r0 = Some r
    /\ gauge_value r (lineage "std_dev") = Some S754_nan
    /\ gauge_value r (lineage "lineage_count") = Some (dbl 1373412).
Proof.
  destruct (typed_table_total n detailed active Hn) as (typed & Et & Hlen & Ht). unfold run. rewrite Et.
  eexists; split; [reflexivity|].
  destruct (CountLineage_iter l 1373412) as (E1 & E2 & E3); [rewrite Hl; vm_compute; reflexivity|].
  rewrite Hl in E2, E3.
  split; (apply (last_pass_value detailed typed [] s _ []); [by intros|constructor|apply static_value]);
    unfold static_sets; rewrite !in_app_iff; do 4 right; unfold lineage_sets, at_once; cbn [at_lineage]; rewrite E1, ?E2, ?E3;
    [do 2 right; left|left]; vm_compute; reflexivity.
Qed.
End Theorems.

Module Witnesses.
(** A registry: the value of every gauge that was added. *)
Definition values : Type := gauge -> option spec_float.

#[local] Instance values_registry : Registry values := {
  gauge_add g r := fun g' => if decide (g = g') then Some (default (S754_zero false) (r g)) else r g';
  gauge_set g v r := fun g' => if decide (g = g') then (match r g with Some _ => Some v | None => None end) else r g';
  gauge_value r g := r g
}.

Lemma values_laws : RegistryLaws values.
Proof.
  split; unfold gauge_value, gauge_add, gauge_set; cbn.
  - intros r g. by rewrite decide_True.
  - intros r g g' Hg. by rewrite decide_False.
  - intros r g v [w ->]. by rewrite decide_True.
  - intros r g g' v Hg. by rewrite decide_False.
Qed.

#[local] Existing Instance sample_driver.
#[local] Existing Instance values_laws.

Definition no_gauges : values := fun _ => None.

(** Two events [connect], of which the inspector processed 3 in 12 microseconds. *)
Definition sample_stats : Stats :=
  mkStats (mkKernelStats 1000 5 2 1 40 0)
    (mkEventStats (replicate 30 0) (<[6%nat := 3]> (replicate 30 0)) (<[6%nat := 12]> (replicate 30 0))
       (<[6%nat := 30]> (replicate 30 0)))
    0 ProcessStats_new.

Lemma exporter_witness :
  exists r : values,
    run sample_event_names true [lit "connect"] [(None, at_once CollectorStats_new); (Some sample_stats, at_once CollectorStats_new)]
      no_gauges = Some r
    /\ r (ev "kernel") = Some (dbl 1000)
    /\ r (typed_parse_avg (lit "connect", lit ">")) = Some (dbl 4)
    /\ r (typed_process_total (lit "connect", lit ">")) = Some (dbl 30)
    /\ r (typed_process_avg (lit "connect", lit ">")) = Some (S754_zero false).
Proof.
  destruct (exporter_spec (HR := values_registry) sample_event_names sample_event_names_eq true [lit "connect"] no_gauges
              (fun _ => eq_refl) [(None, at_once CollectorStats_new)] [] sample_stats (at_once CollectorStats_new)
              (List.Forall_nil _)) as (r & Er & Hev & _ & _ & _ & Hd).
  exists r. destruct (Hd eq_refl) as [_ Hi]. destruct (Hi 6%nat) as [Hp Hj].
  - vm_compute. lia.
  - left. reflexivity.
  - destruct Hj as (_ & _ & Ht & Ha).
    { intros j Hj. do 30 (destruct j as [|j]; [first [exfalso; vm_compute in Hj; lia|discriminate]|]).
      exfalso. vm_compute in Hj. lia. }
    inversion Hev; subst. split_and!; [exact Er|assumption|exact Ha|exact Ht|exact Hp].
Defined.

Definition lineage7 : list LineageInfo := replicate 7 (mkLineageInfo 0 (lit "/bin/sh")).

Lemma std_dev_nan_witness :
  exists r : values,
    run sample_event_names false [] [(Some sample_stats, at_once (N.iter 1373412 (CountLineage lineage7) CollectorStats_new))]
      no_gauges = Some r
    /\ r (lineage "std_dev") = Some S754_nan.
Proof.
  destruct (std_dev_nan (HR := values_registry) sample_event_names sample_event_names_eq false [] no_gauges
              (fun _ => eq_refl) sample_stats lineage7 eq_refl) as (r & Er & Hr & _).
  exists r. split; assumption.
Defined.
End Witnesses.
