(* ===== verification/Introspection.v ===== *)
(** * The introspection endpoints

    The HTTP handlers of [collector/lib]: [CivetWrapper] (query strings and
    errors), [NetworkStatusInspector] (the connections and endpoints the tracker
    holds, as JSON), [ContainerInfoInspector], [CollectorConfigInspector],
    [GetStatus], [LogLevelHandler] and [ProfilerHandler] over [Profiler.h].

    What a handler sends through civetweb is the list of the calls it makes
    ([part]); the results of these calls, the JSON writers, the printing of an
    address by [inet_ntop], the protobuf printer and the profiler library are
    parameters. *)

From S2P Require Import Prelude Containers Utility Stats Address IPNet Process Connection ConnDelta ConnTracker Config Metrics.

(** ** Requests, replies and JSON documents *)

(** The members of [mg_request_info] the handlers read. *)
Record mg_request_info := mkRequest {
  local_uri : str;
  query_string : option str
}.

(** The JSON document a [Json::Value] denotes. *)
Inductive json : Type :=
| JNull
| JBool (b : bool)
| JUInt (n : Z)
| JString (s : str)
| JArray (l : list json)
| JObject (m : list (str * json)).

(** The calls that send something to the client. *)
Inductive part : Type :=
| mg_send_http_error (status : Z) (message : str)
| mg_send_http_ok (mime_type : str) (content_length : Z)
| mg_write (buf : str)
| mg_printf (text : str)
| mg_send_mime_file (path mime_type : str).

Definition Reply : Type := bool * list part.

(** [Json::Value::operator[]] and assignment, on the entries of an object. *)
Definition json_set (k : string) (v : json) (m : list (str * json)) : list (str * json) :=
  insert_or_assign m (lit k) v.

(** The head of a reply that a handler prints itself. *)
Definition crlf : str := [chr 13; chr 10].
Definition status_line (status : string) : str := lit "HTTP/1.1 " ++ lit status ++ crlf.
Definition json_headers : str := lit "Content-Type: application/json" ++ crlf ++ lit "Connection: close" ++ crlf ++ crlf.

(** ** CivetWrapper *)

Definition QueryParams : Type := umap str str.

(** One [std::getline] on [&]: the statement and, if the delimiter was found, what
    is left of the stream, which then stays good. *)
Definition getline (delim : ascii) (s : str) : str * option str :=
  match find_char delim s with
  | Some i => (take i s, Some (drop (S i) s))
  | None => (s, None)
  end.

Definition parse_statement (statement : str) (params : QueryParams) : QueryParams :=
  match find_char "="%char statement with
  | Some equal => insert_or_assign params (take equal statement) (drop (equal + 1) statement)
  | None => params
  end.

(** The loop, with the length of the stream as fuel. *)
Fixpoint parse_loop (fuel : nat) (stream : str) (params : QueryParams) : QueryParams :=
  match fuel with
  | O => params
  | S fuel =>
      let '(statement, rest) := getline "&"%char stream in
      let params := parse_statement statement params in
      match rest with
      | Some stream => parse_loop fuel stream params
      | None => params
      end
  end.

Definition ParseParameters (queryString : option str) : QueryParams :=
  match queryString with
  | None => []
  | Some q => parse_loop (S (length q)) q []
  end.

Definition GetParameter (params : QueryParams) (paramName : str) : option str :=
  if Contains params paramName then Lookup params paramName else None.

(** The results of the calls that write to the client's connection. *)
Class Transport := sent : part -> Z.

Section Civet.
Context `{Transport}.

(** A reply whose last call decides the result. *)
Definition ends_with (p : part) : Reply := (0 <=? sent p, [p]).

Definition ServerError (err : string) : Reply := ends_with (mg_send_http_error 500 (lit err)).
Definition ClientError (err : string) : Reply := ends_with (mg_send_http_error 400 (lit err)).
End Civet.

(** ** NetworkStatusInspector *)

Module NetworkStatusInspector.

Definition kBaseRoute : str := lit "/state/network".
Definition kEndpointRoute : str := kBaseRoute ++ lit "/endpoint".
Definition kConnectionRoute : str := kBaseRoute ++ lit "/connection".
Definition kQueryParam_container : str := lit "container".
Definition kQueryParam_normalize : str := lit "normalize".

Definition shouldNormalize (query_params : QueryParams) : bool :=
  match GetParameter query_params kQueryParam_normalize with
  | None => true
  | Some flag => bool_decide (flag = lit "true")
  end.

Definition Proto2str (proto : L4Proto.t) : str :=
  if proto =? L4Proto.TCP then lit "TCP"
  else if proto =? L4Proto.UDP then lit "UDP"
  else if proto =? L4Proto.ICMP then lit "ICMP"
  else lit "UNKNOWN".

(** The maps from containers to lists that both handlers build, with
    [push_front]; [container] gives the container of a key. *)
Section Group.
Context {T : Type} (container : T -> str).

Definition push_front (by_container : umap str (list (T * ConnStatus))) (e : T * ConnStatus)
  : umap str (list (T * ConnStatus)) :=
  let l := default [] (Lookup by_container (container e.1)) in
  insert_or_assign by_container (container e.1) (e :: l).

Definition group (container_filter : option str) (states : list (T * ConnStatus))
  : umap str (list (T * ConnStatus)) :=
  fold_left
    (fun by_container e =>
       if match container_filter with
          | None => true
          | Some c => bool_decide (c = container e.1)
          end
       then push_front by_container e else by_container)
    states [].

(** The object with one array per container, [node] giving the element of an entry. *)
Definition body_root (node : T * ConnStatus -> json) (by_container : umap str (list (T * ConnStatus)))
  : list (str * json) :=
  fold_left (fun root c => insert_or_assign root c.1 (JArray (map node c.2))) by_container [].
End Group.

Section Operations.
Context `{HostEndian} `{Transport}.
(** [inet_ntop], which fills a buffer of the size of the family, and
    [Json::FastWriter::write]. *)
Context (inet_ntop : Z -> list Z -> str) (write : json -> str).

Definition IP2str (addr : Address) : str :=
  match family addr with
  | Family.IPV4 => inet_ntop AF_INET (data_bytes addr)
  | Family.IPV6 => inet_ntop AF_INET6 (data_bytes addr)
  | Family.UNKNOWN => lit "unk"
  end.

Definition IPNet2str (net : IPNet) : str :=
  IP2str (address_ net) ++ (if bits net =? 0 then [] else lit "/" ++ show_nat (bits net)).

Definition SerializeEndpoint (ep : Endpoint) (node : list (str * json)) : list (str * json) :=
  json_set "port" (JUInt (port_ ep)) (json_set "address" (JString (IPNet2str (network_ ep))) node).

Definition endpoint_node (e : ContainerEndpoint * ConnStatus) : json :=
  let node := json_set "active" (JBool (IsActive e.2)) [] in
  let node := json_set "l4proto" (JString (Proto2str (cep_l4proto e.1))) node in
  JObject (json_set "endpoint" (JObject (SerializeEndpoint (cep_endpoint e.1) [])) node).

Definition connection_node (e : Connection * ConnStatus) : json :=
  let connection := e.1 in
  let node := json_set "active" (JBool (IsActive e.2)) [] in
  let node := json_set "l4proto" (JString (Proto2str (l4proto connection))) node in
  JObject
    (if is_server connection then
       json_set "port" (JUInt (port_ (local_ connection)))
         (json_set "from" (JString (IPNet2str (network_ (remote_ connection)))) node)
     else
       json_set "port" (JUInt (port_ (remote_ connection)))
         (json_set "to" (JString (IPNet2str (network_ (remote_ connection)))) node)).

Definition send_json (root : list (str * json)) : Reply :=
  let buffer := write (JObject root) in
  (true, [mg_send_http_ok (lit "application/json") (Z.of_nat (length buffer)); mg_write buffer]).

Definition handleGetEndpoints (query_params : QueryParams) (conntracker_ : ConnectionTracker)
  : Reply * ConnectionTracker :=
  let '(endpoint_states, conntracker_) := FetchEndpointState conntracker_ (shouldNormalize query_params) false in
  let container_filter := GetParameter query_params kQueryParam_container in
  let by_container := group cep_container container_filter endpoint_states in
  (send_json (body_root endpoint_node by_container), conntracker_).

Definition handleGetConnections (query_params : QueryParams) (conntracker_ : ConnectionTracker)
  : Reply * ConnectionTracker :=
  let '(connection_states, conntracker_) := FetchConnState conntracker_ (shouldNormalize query_params) false in
  let container_filter := GetParameter query_params kQueryParam_container in
  let by_container := group container_ container_filter connection_states in
  (send_json (body_root connection_node by_container), conntracker_).

(** The tracker is missing when network flows are disabled. *)
Definition handleGet (req_info : option mg_request_info) (conntracker_ : option ConnectionTracker)
  : Reply * option ConnectionTracker :=
  match req_info, conntracker_ with
  | None, _ => (ServerError "unable to read request", conntracker_)
  | Some _, None => (ServerError "not tracking network connections", conntracker_)
  | Some req_info, Some tracker =>
      let uri := local_uri req_info in
      let parameters := ParseParameters (query_string req_info) in
      if bool_decide (uri = kEndpointRoute) then
        let '(reply, tracker) := handleGetEndpoints parameters tracker in (reply, Some tracker)
      else if bool_decide (uri = kConnectionRoute) then
        let '(reply, tracker) := handleGetConnections parameters tracker in (reply, Some tracker)
      else (ClientError "unknown route", conntracker_)
  end.
End Operations.
End NetworkStatusInspector.

(** ** ContainerInfoInspector *)

Module ContainerInfoInspector.
Definition kBaseRoute : str := lit "/state/containers/".

(** The text after the last slash; the whole text when there is none, since
    [npos + 1] is 0. *)
Definition last_segment (url : str) : str :=
  match rfind (lit "/") url with
  | Some i => drop (i + 1) url
  | None => url
  end.

Definition handleGet `{Transport} (write : json -> str) (req_info : option mg_request_info) : Reply :=
  match req_info with
  | None => ServerError "unable to read request"
  | Some req_info =>
      let container_id := last_segment (local_uri req_info) in
      if negb (length container_id =? 12)%nat then ClientError "invalid container ID"
      else
        let root := json_set "container_id" (JString container_id) [] in
        let root := json_set "namespace" (JString []) root in
        (true, [mg_printf (status_line "200 OK" ++ json_headers); mg_printf (write (JObject root) ++ crlf)])
  end.
End ContainerInfoInspector.

(** ** CollectorConfigInspector *)

Module CollectorConfigInspector.
Section Operations.
(** The runtime configuration message and [MessageToJsonString]. *)
Context `{Transport} {RuntimeConfig : Type} (MessageToJsonString : RuntimeConfig -> option str).

Definition kBaseRoute : str := lit "/state/runtime-config".

(** The text and whether it is an error. *)
Definition configToJson (runtime_config : option RuntimeConfig) : str * bool :=
  match runtime_config with
  | None => (lit "{}", false)
  | Some config =>
      match MessageToJsonString config with
      | Some jsonString => (jsonString, false)
      | None =>
          (lit "{" ++ quoted (lit "error") ++ lit ": "
             ++ quoted (lit "Failed to convert protobuf object to JSON") ++ lit "}", true)
      end
  end.

Definition handleGet (req_info : option mg_request_info) (runtime_config : option RuntimeConfig) : Reply :=
  match req_info with
  | None => ServerError "unable to read request"
  | Some _ =>
      let '(jsonString, isError) := configToJson runtime_config in
      (true, [mg_printf (status_line (if isError then "500 Internal Server Error" else "200 OK") ++ json_headers);
              mg_printf (jsonString ++ crlf)])
  end.
End Operations.
End CollectorConfigInspector.

(** ** GetStatus *)

Module GetStatus.
Definition kBaseRoute : str := lit "/ready".

(** [toStyledString] and the host's name are parameters; [stats]: the answer of
    [SystemInspector::GetStats]. *)
Definition handleGet (toStyledString : json -> str) (hostname : str) (stats : option Stats) : Reply :=
  match stats with
  | Some stats =>
      let k := kernel_ stats in
      let drops := json_set "total" (JUInt (nDrops k)) [] in
      let drops := json_set "ringbuffer" (JUInt (nDropsBuffer k)) drops in
      let drops := json_set "threadcache" (JUInt (nDropsThreadCache k)) drops in
      let collector := json_set "node" (JString hostname) [] in
      let collector := json_set "events" (JUInt (nEvents k)) collector in
      let collector := json_set "drops" (JObject drops) collector in
      let collector := json_set "preemptions" (JUInt (nPreemptions k)) collector in
      let status := json_set "status" (JString (lit "ok")) [] in
      let status := json_set "collector" (JObject collector) status in
      (true, [mg_printf (status_line "200 OK" ++ json_headers); mg_printf (toStyledString (JObject status) ++ [chr 10])])
  | None =>
      (true, [mg_printf (status_line "503 Service Unavailable" ++ json_headers); mg_printf (lit "{}" ++ [chr 10])])
  end.
End GetStatus.

(** ** LogLevelHandler *)

Module LogLevelHandler.
Definition kBaseRoute : str := lit "/loglevel".

(** [body]: the bytes [mg_read] can return, of which a buffer of 4096 is filled. *)
Definition handlePost (toStyledString : json -> str) (body : option str) (level : LogLevel) : Reply * LogLevel :=
  let request := take 4096 (default [] body) in
  let '(response, level, ok) :=
    match request with
    | [] => (json_set "level" (JString (GetLogLevelName level)) (json_set "status" (JString (lit "Ok")) []), level, true)
    | _ =>
        match ParseLogLevelName request with
        | Some level => (json_set "status" (JString (lit "Ok")) [], level, true)
        | None =>
            (json_set "error" (JString (lit "Invalid log level '" ++ request ++ lit "'"))
               (json_set "status" (JString (lit "Error")) []), level, false)
        end
    end in
  ((true, [mg_printf (status_line (if ok then "200 OK" else "400 Bad Request"));
           mg_printf json_headers; mg_printf (toStyledString (JObject response) ++ [chr 10])]), level).
End LogLevelHandler.

(** ** Profiler *)

(** [Profiler.h] as an interface: [G] is the state of the process and of the files
    the profilers act on. *)
Class Profiler (G : Type) := {
  IsCPUProfilerSupported : bool;
  IsHeapProfilerSupported : bool;
  IsCPUProfilerEnabled : G -> bool;
  IsHeapProfilerEnabled : G -> bool;
  StartCPUProfiler : str -> G -> bool * G;
  StopCPUProfiler : G -> G;
  StartHeapProfiler : G -> G;
  StopHeapProfiler : G -> G;
  AllocAndGetHeapProfile : G -> option str * G
}.

(** The functions of gperftools. *)
Class Gperftools (G : Type) := {
  ProfilingIsEnabledForAllThreads : G -> bool;
  ProfilerStart : str -> G -> bool * G;
  ProfilerFlush : G -> G;
  ProfilerStop : G -> G;
  IsHeapProfilerRunning : G -> bool;
  HeapProfilerStart : str -> G -> G;
  HeapProfilerStop : G -> G;
  GetHeapProfile : G -> option str * G
}.

(** The class when [COLLECTOR_PROFILING] is defined. *)
Definition profiling_build {G} `{Gperftools G} : Profiler G := {|
  IsCPUProfilerSupported := true;
  IsHeapProfilerSupported := true;
  IsCPUProfilerEnabled := ProfilingIsEnabledForAllThreads;
  IsHeapProfilerEnabled := IsHeapProfilerRunning;
  StartCPUProfiler output_dir g := ProfilerStart output_dir g;
  StopCPUProfiler g := ProfilerStop (ProfilerFlush g);
  StartHeapProfiler g := HeapProfilerStart [] g;
  StopHeapProfiler g := if negb (IsHeapProfilerRunning g) then g else HeapProfilerStop g;
  AllocAndGetHeapProfile g := if negb (IsHeapProfilerRunning g) then (None, g) else GetHeapProfile g
|}.

(** The class otherwise. *)
Definition default_build {G} : Profiler G := {|
  IsCPUProfilerSupported := false;
  IsHeapProfilerSupported := false;
  IsCPUProfilerEnabled _ := false;
  IsHeapProfilerEnabled _ := false;
  StartCPUProfiler _ g := (false, g);
  StopCPUProfiler g := g;
  StartHeapProfiler g := g;
  StopHeapProfiler g := g;
  AllocAndGetHeapProfile g := (None, g)
|}.

(** ** ProfilerHandler *)

Module ProfilerHandler.
Definition kCPUProfileFilename : str := lit "/var/profiles/cpu_profile".
Definition kBaseRoute : str := lit "/profile".
Definition kCPURoute : str := kBaseRoute ++ lit "/cpu".
Definition kHeapRoute : str := kBaseRoute ++ lit "/heap".

Record t := mk {
  heap_profile_ : option str;
  heap_profile_length_ : Z;
  cpu_profile_length_ : Z
}.

(** The handler is value-initialized: the lengths are zero. *)
Definition new : t := mk None 0 0.

Section Operations.
Context `{Transport} {G : Type} `{Profiler G}.
(** [stat] of a path, giving [st_size], and [std::remove]. *)
Context (stat : str -> G -> option Z) (remove : str -> G -> bool * G).
Context (toStyledString : json -> str).

Definition SendCPUProfile (h : t) : Reply :=
  if cpu_profile_length_ h =? 0 then ends_with (mg_send_http_ok (lit "text/plain") 0)
  else (true, [mg_send_mime_file kCPUProfileFilename (lit "application/octet-stream")]).

(** [None] when the bytes to be written are not there: the pointer is null or the
    buffer shorter than the length. *)
Definition SendHeapProfile (h : t) : option Reply :=
  let len := heap_profile_length_ h in
  if len =? 0 then Some (ends_with (mg_send_http_ok (lit "text/plain") 0))
  else
    let head := mg_send_http_ok (lit "application/octet-stream") len in
    if sent head <? 0 then Some (false, [head])
    else
      match heap_profile_ h with
      | None => None
      | Some profile =>
          if Z.of_nat (length profile) <? len then None
          else
            let body := mg_write (take (Z.to_nat len) profile) in
            Some (sent body =? to_signed 32 len, [head; body])
      end.

Definition profile_state (enabled : bool) (len : Z) : json :=
  JString (if enabled then lit "on" else if 0 <? len then lit "off" else lit "empty").

Definition SendStatus (h : t) (g : G) : Reply :=
  let resp := json_set "supports_cpu" (JBool IsCPUProfilerSupported) [] in
  let resp := json_set "supports_heap" (JBool IsHeapProfilerSupported) resp in
  let resp := json_set "cpu" (profile_state (IsCPUProfilerEnabled g) (cpu_profile_length_ h)) resp in
  let resp := json_set "heap" (profile_state (IsHeapProfilerEnabled g) (heap_profile_length_ h)) resp in
  let json_body := toStyledString (JObject resp) in
  let head := mg_send_http_ok (lit "application/json") (Z.of_nat (length json_body)) in
  if sent head <? 0 then (false, [head])
  else (0 <=? sent (mg_write json_body), [head; mg_write json_body]).

Definition HandleCPURoute (post_data : str) (h : t) (g : G) : Reply * (t * G) :=
  let ok := ends_with (mg_send_http_ok (lit "text/plain") 0) in
  if bool_decide (post_data = lit "on") then
    if negb (IsCPUProfilerEnabled g) then
      let '(started, g) := StartCPUProfiler kCPUProfileFilename g in
      if negb started then (ServerError "failed starting cpu profiler", (h, g))
      else (ok, (h, g))
    else (ok, (h, g))
  else if bool_decide (post_data = lit "off") then
    if IsCPUProfilerEnabled g then
      let g := StopCPUProfiler g in
      match stat kCPUProfileFilename g with
      | Some st_size => (ok, (mk (heap_profile_ h) (heap_profile_length_ h) st_size, g))
      | None => (ok, (h, g))
      end
    else (ok, (h, g))
  else if bool_decide (post_data = lit "empty") then
    if negb (cpu_profile_length_ h =? 0) then
      let h := mk (heap_profile_ h) (heap_profile_length_ h) 0 in
      let '(removed, g) := remove kCPUProfileFilename g in
      if negb removed then (ServerError "failure while deleting cpu profile", (h, g))
      else (ok, (h, g))
    else (ok, (h, g))
  else (ClientError "invalid post data", (h, g)).

Definition HandleHeapRoute (post_data : str) (h : t) (g : G) : Reply * (t * G) :=
  let ok := ends_with (mg_send_http_ok (lit "text/plain") 0) in
  if bool_decide (post_data = lit "on") then
    if negb (IsHeapProfilerEnabled g) then (ok, (h, StartHeapProfiler g)) else (ok, (h, g))
  else if bool_decide (post_data = lit "off") then
    if IsHeapProfilerEnabled g then
      let '(profile, g) := AllocAndGetHeapProfile g in
      match profile with
      | None =>
          (ServerError "failed get heap profile", (mk None (heap_profile_length_ h) (cpu_profile_length_ h), g))
      | Some p =>
          (ok, (mk (Some p) (Z.of_nat (length p)) (cpu_profile_length_ h), StopHeapProfiler g))
      end
    else (ok, (h, g))
  else if bool_decide (post_data = lit "empty") then
    if negb (heap_profile_length_ h =? 0) then (ok, (mk None 0 (cpu_profile_length_ h), g))
    else (ok, (h, g))
  else (ClientError "invalid post data", (h, g)).

Definition handlePost (req_info : option mg_request_info) (post_data : str) (h : t) (g : G) : Reply * (t * G) :=
  if negb IsCPUProfilerSupported then (ServerError "not supported", (h, g))
  else
    match req_info with
    | None => (ServerError "unable to read request", (h, g))
    | Some req_info =>
        let uri := local_uri req_info in
        if bool_decide (uri = kCPURoute) then HandleCPURoute post_data h g
        else if bool_decide (uri = kHeapRoute) then HandleHeapRoute post_data h g
        else (ClientError "unknown route", (h, g))
    end.

Definition handleGet (req_info : option mg_request_info) (h : t) (g : G) : option Reply :=
  match req_info with
  | None => Some (ServerError "unable to read request")
  | Some req_info =>
      let uri := local_uri req_info in
      if bool_decide (uri = kBaseRoute) then Some (SendStatus h g)
      else if bool_decide (uri = kHeapRoute) then SendHeapProfile h
      else if bool_decide (uri = kCPURoute) then Some (SendCPUProfile h)
      else Some (ClientError "unknown route")
  end.
End Operations.
End ProfilerHandler.

(** ** Lemmas *)

(** *** Query strings *)

Abbreviation any_str := (fun _ : str => True).

Lemma keqb_str a b : keqb (K := str) a b = bool_decide (a = b).
Proof. reflexivity. Qed.

Lemma GetParameter_Lookup params k : GetParameter params k = Lookup params k.
Proof. unfold GetParameter. rewrite Contains_Lookup. by destruct (Lookup params k). Qed.

(** The loop reads the statements between the ampersands, in order. *)
Lemma parse_loop_join fuel ps params :
  Forall (fun p => ~ In "&"%char p) ps -> (length (join "&" ps) < fuel)%nat ->
  parse_loop fuel (join "&" ps) params = fold_left (fun m p => parse_statement p m) ps params.
Proof.
  revert ps params. induction fuel as [|fuel IH]; intros ps params Hps Hf; [lia|]. cbn [parse_loop].
  destruct ps as [|p ps]; [done|]. inversion Hps as [|? ? Hp Hps']; subst. destruct ps as [|q ps].
  - cbn [join fold_left]. unfold getline. apply find_char_None in Hp. by rewrite Hp.
  - rewrite join_cons by done. rewrite join_cons in Hf by done. rewrite length_app in Hf. cbn [length] in Hf.
    unfold getline. rewrite find_char_app by done. rewrite take_app_length, drop_app_ge by lia.
    replace (S (length p) - length p)%nat with 1%nat by lia. cbn [drop]. rewrite ?drop_0.
    rewrite IH by (done || lia). done.
Qed.

(** A parameter as it is written in a query string. *)
Definition print_param (kv : str * str) : str := kv.1 ++ "="%char :: kv.2.

Definition param_ok (kv : str * str) : Prop :=
  ~ In "="%char kv.1 /\ ~ In "&"%char kv.1 /\ ~ In "&"%char kv.2.

(** The last value given to a name. *)
Fixpoint last_value (k : str) (kvs : list (str * str)) : option str :=
  match kvs with
  | [] => None
  | kv :: kvs =>
      match last_value k kvs with
      | Some v => Some v
      | None => if decide (kv.1 = k) then Some kv.2 else None
      end
  end.

Lemma parse_print (kv : str * str) (params : QueryParams) :
  ~ In "="%char kv.1 -> parse_statement (print_param kv) params = insert_or_assign params kv.1 kv.2.
Proof.
  intros Hk. unfold parse_statement, print_param. rewrite find_char_app by done.
  rewrite take_app_length, drop_app_ge by lia. rewrite Nat.add_comm, Nat.add_sub.
  cbn [drop]. by rewrite ?drop_0.
Qed.

Lemma parse_params kvs params k :
  Forall param_ok kvs -> wf_umap any_str params ->
  Lookup (fold_left (fun m p => parse_statement p m) (map print_param kvs) params) k
  = match last_value k kvs with Some v => Some v | None => Lookup params k end.
Proof.
  intros Hkvs. revert params. induction Hkvs as [|kv kvs [Hk _] Hkvs IH]; intros params Hw; [done|].
  cbn [map fold_left last_value]. rewrite parse_print by done.
  rewrite IH by (by apply (wf_insert_or_assign any_str)). destruct (last_value k kvs); [done|].
  rewrite (Lookup_insert_or_assign any_str) by done. rewrite keqb_str.
  repeat case_decide; repeat case_bool_decide; congruence.
Qed.

Lemma print_param_amp kv : param_ok kv -> ~ In "&"%char (print_param kv).
Proof. intros (_ & Hk & Hv). unfold print_param. intros [?|[?|?]]%in_app_or; done. Qed.

(** *** Grouping by container *)

Section GroupLemmas.
Import NetworkStatusInspector.
Context {T : Type} (container : T -> str).
Implicit Types (states : list (T * ConnStatus)) (f : option str).

(** The entries of container [c] that a filter admits. *)
Definition admits (f : option str) (c : str) : bool :=
  match f with None => true | Some x => bool_decide (x = c) end.

Definition of_container (f : option str) (c : str) (states : list (T * ConnStatus)) : list (T * ConnStatus) :=
  if admits f c then List.filter (fun e => bool_decide (container e.1 = c)) states else [].

Lemma push_front_lookup m e c :
  wf_umap any_str m ->
  Lookup (push_front container m e) c
  = if decide (container e.1 = c) then Some (e :: default [] (Lookup m c)) else Lookup m c.
Proof.
  intros Hw. unfold push_front. rewrite (Lookup_insert_or_assign any_str) by done. rewrite keqb_str.
  repeat case_decide; repeat case_bool_decide; congruence.
Qed.

Lemma push_front_wf m e : wf_umap any_str m -> wf_umap any_str (push_front container m e).
Proof. intros Hw. by apply (wf_insert_or_assign any_str). Qed.

Definition nonempty {A} (l : list A) : option (list A) := match l with [] => None | _ => Some l end.

Definition group_step (f : option str) (m : umap str (list (T * ConnStatus))) (e : T * ConnStatus) :=
  if match f with None => true | Some c => bool_decide (c = container e.1) end then push_front container m e else m.

Lemma group_wf_from f states m : wf_umap any_str m -> wf_umap any_str (fold_left (group_step f) states m).
Proof.
  revert m. induction states as [|e states IH]; intros m Hw; [done|]. cbn [fold_left]. apply IH.
  unfold group_step. case_match; [by apply push_front_wf|done].
Qed.

Lemma group_from f states m c :
  wf_umap any_str m ->
  Lookup (fold_left (group_step f) states m) c
  = match of_container f c states with
    | [] => Lookup m c
    | l => Some (rev l ++ default [] (Lookup m c))
    end.
Proof.
  revert m. induction states as [|e states IH]; intros m Hw.
  { cbn [fold_left]. unfold of_container. by destruct (admits f c). }
  cbn [fold_left]. rewrite IH by (apply (group_wf_from f [e]); done).
  unfold of_container, group_step. fold (admits f (container e.1)). cbn [List.filter].
  destruct (decide (container e.1 = c)) as [<-|Hne].
  - rewrite bool_decide_eq_true_2 by done. destruct (admits f (container e.1)); [|done].
    rewrite push_front_lookup, decide_True by done. cbn [default rev].
    destruct (List.filter _ states) as [|x l]; [done|]. cbn [rev]. by rewrite <- !app_assoc.
  - rewrite bool_decide_eq_false_2 by done. destruct (admits f c) eqn:Ec, (admits f (container e.1)); try done;
      by rewrite push_front_lookup, decide_False by done.
Qed.

Lemma group_lookup f states c :
  Lookup (group container f states) c = nonempty (rev (of_container f c states)).
Proof.
  unfold group. fold (group_step f). rewrite group_from by apply wf_nil. cbn [Lookup Find List.find fmap option_fmap].
  destruct (of_container f c states) as [|x l]; [done|]. cbn [rev default]. rewrite app_nil_r.
  by destruct (rev l).
Qed.

Lemma group_wf f states : wf_umap any_str (group container f states).
Proof. apply group_wf_from, wf_nil. Qed.

Lemma body_root_from node (m : umap str (list (T * ConnStatus))) (root : umap str json) c :
  wf_umap any_str m -> wf_umap any_str root ->
  Lookup (fold_left (fun root c => insert_or_assign root c.1 (JArray (map node c.2))) m root) c
  = match Lookup m c with Some l => Some (JArray (map node l)) | None => Lookup root c end.
Proof.
  intros Hm. revert root. induction m as [|e m IH]; intros root Hr; [done|].
  apply wf_cons_inv in Hm as (_ & Hne & Hm). cbn [fold_left].
  rewrite IH by (done || by apply (wf_insert_or_assign any_str)).
  rewrite Lookup_cons, (Lookup_insert_or_assign any_str) by done.
  destruct (keqb c e.1) eqn:E; [|done]. rewrite keqb_str in E. apply bool_decide_eq_true in E. subst c.
  unfold Lookup. apply Find_None in Hne. by rewrite Hne.
Qed.

Lemma body_root_lookup node f states c :
  Lookup (body_root node (group container f states)) c
  = (fun l => JArray (map node l)) <$> nonempty (rev (of_container f c states)).
Proof.
  unfold body_root. rewrite body_root_from by (apply group_wf || apply wf_nil). rewrite group_lookup.
  by destruct (nonempty _).
Qed.
End GroupLemmas.

(** *** Profiles *)

Section ProfilerLemmas.
Import ProfilerHandler.
Context `{Transport} {G : Type} `{Gperftools G}.
Context (stat : str -> G -> option Z) (remove : str -> G -> bool * G) (toStyledString : json -> str).
#[local] Existing Instance profiling_build.

(** A stored length is the length of a stored profile. *)
Definition handler_ok (h : t) : Prop :=
  heap_profile_length_ h = 0 \/ exists p, heap_profile_ h = Some p /\ heap_profile_length_ h = Z.of_nat (length p).

(** What is relied on of gperftools: a profile of a running heap profiler can be
    obtained, and starting and stopping a profiler does just that. *)
Record gperftools_laws : Prop := {
  heap_profile_some g : IsHeapProfilerRunning g = true -> exists p, (GetHeapProfile g).1 = Some p;
  heap_get_running g : IsHeapProfilerRunning (GetHeapProfile g).2 = IsHeapProfilerRunning g;
  heap_start_running g : IsHeapProfilerRunning (HeapProfilerStart [] g) = true;
  heap_stop_running g : IsHeapProfilerRunning (HeapProfilerStop g) = false;
  cpu_start_enabled f g : (ProfilerStart f g).1 = true -> ProfilingIsEnabledForAllThreads (ProfilerStart f g).2 = true;
  cpu_stop_enabled g : ProfilingIsEnabledForAllThreads (ProfilerStop g) = false
}.

Lemma HandleCPURoute_heap d h g :
  heap_profile_ (HandleCPURoute stat remove d h g).2.1 = heap_profile_ h
  /\ heap_profile_length_ (HandleCPURoute stat remove d h g).2.1 = heap_profile_length_ h.
Proof. unfold HandleCPURoute. repeat case_match; by simplify_eq/=. Qed.

Lemma HandleHeapRoute_ok d h g : gperftools_laws -> handler_ok h -> handler_ok (HandleHeapRoute d h g).2.1.
Proof.
  intros Hl Hh. unfold HandleHeapRoute. repeat case_match; simplify_eq/=; try done; [by right; eexists| |by left].
  match goal with
  | E : IsHeapProfilerRunning g = true |- _ => destruct (heap_profile_some Hl g E) as [p Hp]; rewrite E in *
  end. simplify_eq/=. destruct (GetHeapProfile g); simplify_eq/=.
Qed.

Lemma handlePost_ok req d h g :
  gperftools_laws -> handler_ok h -> handler_ok (handlePost stat remove req d h g).2.1.
Proof.
  intros Hl Hh. unfold handlePost. cbn [IsCPUProfilerSupported profiling_build negb].
  destruct req as [r|]; [|done]. case_bool_decide; [|case_bool_decide; [by apply HandleHeapRoute_ok|done]].
  destruct (HandleCPURoute_heap d h g) as [E1 E2]. unfold handler_ok. by rewrite E1, E2.
Qed.

Lemma SendHeapProfile_defined h : handler_ok h -> is_Some (SendHeapProfile h).
Proof.
  intros [E|(p & Ep & E)]; unfold SendHeapProfile; [rewrite E; by eexists|].
  destruct (Z.eqb_spec (heap_profile_length_ h) 0); [by eexists|]. case_match; [by eexists|].
  rewrite Ep, E. rewrite Z.ltb_irrefl. by eexists.
Qed.

(** The requests of a client, and the handler after a sequence of posts. *)
Definition post_all (h : t) (g : G) (posts : list (option mg_request_info * str)) : t * G :=
  fold_left (fun hg p => (handlePost stat remove p.1 p.2 hg.1 hg.2).2) posts (h, g).

Lemma post_all_ok h g posts : gperftools_laws -> handler_ok h -> handler_ok (post_all h g posts).1.
Proof.
  intros Hl. revert h g. induction posts as [|p posts IH]; intros h g Hh; [done|]. cbn [post_all fold_left fst snd].
  destruct (handlePost stat remove p.1 p.2 h g).2 as [h' g'] eqn:E. apply IH.
  change h' with (h', g').1. rewrite <- E. by apply handlePost_ok.
Qed.
End ProfilerLemmas.

(** ** Theorems *)

(** Query strings.  What a client writes as [name=value] pairs joined with
    ampersands, names without [=] and neither part with [&], is read back: a name has
    the last value given to it, and names that were not given have none. *)
Theorem query_roundtrip (kvs : list (str * str)) (Hkvs : Forall param_ok kvs) (k : str) :
  GetParameter (ParseParameters (Some (join "&" (map print_param kvs)))) k = last_value k kvs
  /\ GetParameter (ParseParameters None) k = None.
Proof.
  split; [|done]. rewrite GetParameter_Lookup. unfold ParseParameters. rewrite parse_loop_join.
  - rewrite parse_params by (done || apply wf_nil). by destruct (last_value k kvs).
  - apply List.Forall_forall. intros p Hp. apply in_map_iff in Hp as (kv & <- & Hkv).
    apply print_param_amp. by eapply List.Forall_forall in Hkvs.
  - lia.
Qed.

Section NetworkTheorems.
Import NetworkStatusInspector.
Context `{HostEndian} `{Transport} (inet_ntop : Z -> list Z -> str) (write : json -> str).

(** The networks a client is shown.  [IPNet::parse] reads the text of every
    network in the replies back as the network: the prefix is left out exactly when
    it is empty, which is how a text without a prefix is read. *)
Theorem IPNet2str_roundtrip (getaddrinfo : str -> option sockaddr_storage)
    (Hinet : inet_laws (fun af bs => Some (inet_ntop af bs)) getaddrinfo)
    (n : IPNet) (Hn : wf_net n) (Hc : canonical (address_ n)) (Hf : family_ (address_ n) <> Family.UNKNOWN) :
  IPNet_parse getaddrinfo (IPNet2str inet_ntop n)
  = Some (mkIPNet (address_ n) (mask_ n) (bits_ n) (negb (bits_ n =? 0))).
Proof.
  destruct (IPNet_parse_print (fun af bs => Some (inet_ntop af bs)) getaddrinfo Hinet n Hn Hc Hf) as (Hp & Ha & _).
  assert (E : IP2str inet_ntop (address_ n) = addr_print (fun af bs => Some (inet_ntop af bs)) (address_ n)).
  { unfold IP2str, addr_print, family. by destruct (family_ (address_ n)). }
  unfold IPNet2str, bits. rewrite E. destruct (Z.eqb_spec (bits_ n) 0) as [E0|E0].
  - rewrite app_nil_r, Ha. pose proof (wf_net_mask n Hn) as Em. rewrite Em, E0. reflexivity.
  - exact Hp.
Qed.

(** C29. The state of the network.  A request for the connections or for the endpoints
    is answered with one JSON array per container that has some, or for the container
    asked for alone; the array has every entry of a snapshot of the tracker, each exactly once
    and in the opposite order.  The snapshot leaves out the entries of ignored ports and
    networks.  Unless the parameter says otherwise it is normalized: a key is a normalized connection
    or endpoint, with the merge of the statuses of all those that normalize to it; if
    not, every entry stands for itself, of endpoints that are advertised alike
    the first.  This holds where the keys are legitimate for a hash container: for the endpoints
    and for connections that are not normalized, always in a consistent tracker.  The
    tracked connections and endpoints stay as they were.  Requests that cannot be read or
    served are answered with an error. *)
Theorem handleGet_spec (t : ConnectionTracker) (req : mg_request_info) (tracker : option ConnectionTracker) :
  let params := ParseParameters (query_string req) in
  let asked := GetParameter params kQueryParam_container in
  let normalize := match GetParameter params kQueryParam_normalize with
                   | None => true | Some v => bool_decide (v = lit "true") end in
  (local_uri req = lit "/state/network/connection" ->
   exists root t' snapshot,
     handleGet inet_ntop write (Some req) (Some t) = (send_json write root, Some t')
     /\ conn_state_ t' = conn_state_ t /\ endpoint_state_ t' = endpoint_state_ t /\ same_config t t'
     /\ (forall c, Lookup root c
            = (fun l => JArray (map (connection_node inet_ntop) l))
                <$> nonempty (rev (of_container container_ asked c snapshot)))
     /\ forall Q hash_string, HashKeys Connection (conn_hash hash_string) Q ->
          Forall (fun e => Q (if normalize then NormalizeConnectionNoLock t e.1 else e.1)) (conn_state_ t) ->
          wf_umap Q snapshot /\ forall k, Q k -> Lookup snapshot k = conn_status_of t normalize k)
  /\ (local_uri req = lit "/state/network/endpoint" ->
      exists root t' snapshot,
        handleGet inet_ntop write (Some req) (Some t) = (send_json write root, Some t')
        /\ conn_state_ t' = conn_state_ t /\ endpoint_state_ t' = endpoint_state_ t /\ same_config t t'
        /\ (forall c, Lookup root c
               = (fun l => JArray (map (endpoint_node inet_ntop) l))
                   <$> nonempty (rev (of_container cep_container asked c snapshot)))
        /\ (tracker_ok t ->
            @wf_umap _ _ KeyEq_Advertised (cep_class addr_net) snapshot
            /\ forall k, cep_class addr_net k -> @Lookup _ _ KeyEq_Advertised snapshot k = cep_status_of t normalize k))
  /\ (local_uri req <> lit "/state/network/connection" -> local_uri req <> lit "/state/network/endpoint" ->
      handleGet inet_ntop write (Some req) (Some t) = (ClientError "unknown route", Some t))
  /\ handleGet inet_ntop write (Some req) None = (ServerError "not tracking network connections", None)
  /\ handleGet inet_ntop write None tracker = (ServerError "unable to read request", tracker).
Proof.
  cbv zeta. unfold handleGet. split_and!; [..|done|done].
  - intros ->. rewrite bool_decide_eq_false_2 by discriminate. rewrite bool_decide_eq_true_2 by done.
    unfold handleGetConnections, shouldNormalize.
    match goal with |- context [FetchConnState t ?n false] => destruct (FetchConnState_members t n false) as (E1 & E2 & E3);
      pose proof (FetchConnState_content t n false) as Hc; destruct (FetchConnState t n false) as [states t'] end.
    do 2 eexists. exists states. split_and!; [reflexivity|done..| |]; [intros c; apply body_root_lookup|].
    intros Q hash HQ Hkeys. apply (Hc Q (hash_laws (P := Q)) Hkeys).
  - intros ->. rewrite bool_decide_eq_true_2 by done. unfold handleGetEndpoints, shouldNormalize.
    match goal with |- context [FetchEndpointState t ?n false] =>
      destruct (FetchEndpointState_members t n false) as (E1 & E2 & E3);
      pose proof (FetchEndpointState_content t n false) as Hc; destruct (FetchEndpointState t n false) as [states t'] end.
    do 2 eexists. exists states. split_and!; [reflexivity|done..| |]; [intros c; apply body_root_lookup|].
    intros Ht. apply Hc, (wf_keys _ _ (ok_ceps t Ht)).
  - intros Hc He. rewrite !bool_decide_eq_false_2 by done. done.
Qed.
End NetworkTheorems.

Section ProfilerTheorems.
Import ProfilerHandler.
Context `{Transport} {G : Type} `{Gperftools G}.
Context (stat : str -> G -> option Z) (remove : str -> G -> bool * G) (toStyledString : json -> str).
#[local] Existing Instance profiling_build.

Definition heap_request : mg_request_info := mkRequest (lit "/profile/heap") None.
Definition cpu_request : mg_request_info := mkRequest (lit "/profile/cpu") None.

(** The profiling endpoints.  After any sequence of posts, valid or not, every
    request for a profile or the status has a defined reply; [on] starts and [off]
    stops the heap profiler, and after [off] the profile is sent as it was taken;
    [off] stops the CPU profiler.  In a build without profiling every post is refused
    and changes nothing. *)
Theorem Profiler_spec (Hlaws : gperftools_laws (G := G)) (g0 : G) (posts : list (option mg_request_info * str)) :
  (let '(h, g) := post_all stat remove new g0 posts in
   (forall req, is_Some (handleGet toStyledString req h g))
   /\ IsHeapProfilerRunning (handlePost stat remove (Some heap_request) (lit "on") h g).2.2 = true
   /\ (IsHeapProfilerRunning g = true ->
       exists p h' g', (GetHeapProfile g).1 = Some p
         /\ (handlePost stat remove (Some heap_request) (lit "off") h g).2 = (h', g')
         /\ IsHeapProfilerRunning g' = false
         /\ forall reply, handleGet toStyledString (Some heap_request) h' g' = Some reply -> reply.1 = true -> p <> [] ->
              reply.2 = [mg_send_http_ok (lit "application/octet-stream") (Z.of_nat (length p)); mg_write p])
   /\ (ProfilingIsEnabledForAllThreads g = true ->
       ProfilingIsEnabledForAllThreads (handlePost stat remove (Some cpu_request) (lit "off") h g).2.2 = false))
  /\ (forall req d h (g : G),
        @handlePost _ G default_build stat remove req d h g = (ServerError "not supported", (h, g))).
Proof.
  split; [|done]. pose proof (post_all_ok stat remove new g0 posts Hlaws (or_introl eq_refl)) as Hh.
  destruct (post_all stat remove new g0 posts) as [h g]. cbn [fst] in Hh. split_and!.
  - intros [req|]; [|by eexists]. unfold handleGet. repeat case_bool_decide; try (by eexists).
    by apply SendHeapProfile_defined.
  - change (handlePost stat remove (Some heap_request) (lit "on") h g) with (HandleHeapRoute (lit "on") h g).
    unfold HandleHeapRoute. rewrite bool_decide_eq_true_2 by done. cbn [IsHeapProfilerEnabled profiling_build].
    destruct (IsHeapProfilerRunning g) eqn:E; cbn [negb snd]; [done|]. apply (heap_start_running Hlaws).
  - intros E. destruct (heap_profile_some Hlaws g E) as [p Ep]. exists p.
    change (handlePost stat remove (Some heap_request) (lit "off") h g) with (HandleHeapRoute (lit "off") h g).
    unfold HandleHeapRoute. rewrite bool_decide_eq_false_2 by discriminate. rewrite bool_decide_eq_true_2 by done.
    cbn [IsHeapProfilerEnabled AllocAndGetHeapProfile StopHeapProfiler profiling_build]. rewrite E. cbn [negb].
    pose proof (heap_get_running Hlaws g) as E'. destruct (GetHeapProfile g) as [o g1]. cbn [fst snd] in *. subst o.
    do 2 eexists. split_and!; [done|reflexivity|rewrite E', E; apply (heap_stop_running Hlaws)|].
    intros reply Hr Hok Hne. change (handleGet _ _ _ _) with (SendHeapProfile (mk (Some p) (Z.of_nat (length p)) (cpu_profile_length_ h))) in Hr.
    unfold SendHeapProfile in Hr. cbn [heap_profile_length_ heap_profile_] in Hr.
    rewrite Z.ltb_irrefl, Nat2Z.id, take_ge in Hr by lia.
    destruct (Z.eqb_spec (Z.of_nat (length p)) 0); [destruct p; [done|simpl in *; lia]|].
    case_match; simplify_eq/=; done.
  - intros E. change (handlePost stat remove (Some cpu_request) (lit "off") h g) with (HandleCPURoute stat remove (lit "off") h g).
    unfold HandleCPURoute. rewrite bool_decide_eq_false_2 by discriminate. rewrite bool_decide_eq_true_2 by done.
    cbn [IsCPUProfilerEnabled StopCPUProfiler profiling_build]. rewrite E.
    case_match; cbn [snd]; apply (cpu_stop_enabled Hlaws).
Qed.

(** A heap profile that cannot be taken.  When a profile is stored and stopping
    the profiler finds no new one, the stored profile is released and its length kept,
    so that the next request for the profile reads through a null pointer. *)
Theorem heap_profile_null (h : t) (g : G) (Hlen : 0 < heap_profile_length_ h)
    (Hrun : IsHeapProfilerRunning g = true) (Hnull : (GetHeapProfile g).1 = None)
    (Hsent : 0 <= sent (mg_send_http_ok (lit "application/octet-stream") (heap_profile_length_ h))) :
  let '(reply, (h', g')) := handlePost stat remove (Some heap_request) (lit "off") h g in
  reply.2 = [mg_send_http_error 500 (lit "failed get heap profile")]
  /\ handleGet toStyledString (Some heap_request) h' g' = None.
Proof.
  change (handlePost stat remove (Some heap_request) (lit "off") h g) with (HandleHeapRoute (lit "off") h g).
  unfold HandleHeapRoute. rewrite bool_decide_eq_false_2 by discriminate. rewrite bool_decide_eq_true_2 by done.
  cbn [IsHeapProfilerEnabled AllocAndGetHeapProfile profiling_build]. rewrite Hrun. cbn [negb].
  destruct (GetHeapProfile g) as [o g1]. cbn [fst] in Hnull. subst o. split; [done|].
  change (handleGet _ _ _ _) with (SendHeapProfile (mk None (heap_profile_length_ h) (cpu_profile_length_ h))).
  unfold SendHeapProfile. cbn [heap_profile_length_ heap_profile_].
  rewrite (proj2 (Z.eqb_neq _ _)), (proj2 (Z.ltb_ge _ _)) by lia. done.
Qed.
End ProfilerTheorems.

(** *** The log level *)

(** Posting the name of a level selects it, an empty post reports it, and a text that
    names no level is refused. *)
Lemma LogLevel_post toStyledString old :
  (forall l, In l all_levels -> (LogLevelHandler.handlePost toStyledString (Some (GetLogLevelName l)) old).2 = l)
  /\ (LogLevelHandler.handlePost toStyledString None old).2 = old
  /\ (forall body, body <> [] -> ParseLogLevelName (take 4096 body) = None ->
      let '(reply, level) := LogLevelHandler.handlePost toStyledString (Some body) old in
      level = old /\ exists rest, reply.2 = mg_printf (status_line "400 Bad Request") :: rest).
Proof.
  split_and!; [|done|].
  - intros l Hl. by destruct Hl as [<-|[<-|[<-|[<-|[<-|[<-|[]]]]]]].
  - intros body Hb Hp. unfold LogLevelHandler.handlePost.
    change (default [] (Some body)) with body. assert (take 4096 body <> []) as Ht by (by destruct body).
    destruct (take 4096 body); [done|]. rewrite Hp. split; [done|]. by eexists.
Qed.

(** *** Container IDs *)

Lemma ContainerInfo_id `{Transport} write pre id :
  ~ In "/"%char id -> length id = 12%nat ->
  ContainerInfoInspector.handleGet write (Some (mkRequest (pre ++ "/"%char :: id) None))
  = (true, [mg_printf (status_line "200 OK" ++ json_headers);
            mg_printf (write (JObject [(lit "container_id", JString id); (lit "namespace", JString [])]) ++ crlf)]).
Proof.
  intros Hs Hl. unfold ContainerInfoInspector.handleGet. cbn [local_uri].
  assert (E : ContainerInfoInspector.last_segment (pre ++ "/"%char :: id) = id).
  { unfold ContainerInfoInspector.last_segment.
    change (lit "/") with ["/"%char]. rewrite (rfind_char "/" pre id Hs), drop_app_ge by lia. rewrite Nat.add_comm, Nat.add_sub. done. }
  rewrite E, Hl. reflexivity.
Qed.

Module Witnesses.
#[local] Existing Instance little_endian.

(** A client that reads everything. *)
#[local] Instance reads_all : Transport := fun p =>
  match p with mg_write buf => Z.of_nat (length buf) | _ => 1 end.

Definition sample_params : list (str * str) := [(lit "container", lit "abc"); (lit "normalize", lit "true=1"); (lit "container", lit "c")].

Lemma query_witness :
  GetParameter (ParseParameters (Some (lit "container=abc&normalize=true=1&container=c"))) (lit "container") = Some (lit "c")
  /\ GetParameter (ParseParameters (Some (lit "container=abc&normalize=true=1&container=c"))) (lit "normalize")
     = Some (lit "true=1").
Proof.
  assert (Hok : Forall param_ok sample_params).
  { repeat constructor; cbn; intuition discriminate. }
  split; [exact (proj1 (query_roundtrip sample_params Hok (lit "container")))
         |exact (proj1 (query_roundtrip sample_params Hok (lit "normalize")))].
Defined.

Definition ntop_text (af : Z) (bs : list Z) : str := default [] (Connection.Witnesses.ntop af bs).

Lemma IPNet2str_witness :
  IPNet_parse Connection.Witnesses.gai
    (NetworkStatusInspector.IPNet2str ntop_text (IPNet_make (Address_octets 10 1 0 0) 16 false))
  = Some (IPNet_make (Address_octets 10 1 0 0) 16 true).
Proof.
  apply (IPNet2str_roundtrip ntop_text Connection.Witnesses.gai Connection.Witnesses.inet_laws_letters
           (IPNet_make (Address_octets 10 1 0 0) 16 false)).
  - apply wf_IPNet_make; [apply wf_Address_octets|lia].
  - vm_compute. reflexivity.
  - discriminate.
Defined.

(** The connections of container [c] of a tracker with one connection. *)
Lemma handleGet_witness :
  let write := fun _ : json => lit "..." in
  exists root t' snapshot,
    NetworkStatusInspector.handleGet ntop_text write
      (Some (mkRequest (lit "/state/network/connection") (Some (lit "container=c")))) (Some ConnTracker.Witnesses.tracker1)
    = (NetworkStatusInspector.send_json write root, Some t')
    /\ (exists l, Lookup root (lit "c") = (fun l => JArray (map (NetworkStatusInspector.connection_node ntop_text) l)) <$> nonempty l)
    /\ Lookup snapshot ConnTracker.Witnesses.norm1 = conn_status_of ConnTracker.Witnesses.tracker1 true ConnTracker.Witnesses.norm1.
Proof.
  intros write. destruct (proj1 (handleGet_spec ntop_text write ConnTracker.Witnesses.tracker1
                     (mkRequest (lit "/state/network/connection") (Some (lit "container=c"))) None) eq_refl)
    as (root & t' & snapshot & E & _ & _ & _ & Hroot & Hsnap).
  exists root, t', snapshot. split; [exact E|]. split; [rewrite Hroot; eexists; reflexivity|].
  destruct (Hsnap (ConnTracker.Witnesses.only ConnTracker.Witnesses.norm1) (fun _ => 0)) as [_ Hl].
  - apply ConnTracker.Witnesses.only_keys. vm_compute. reflexivity.
  - apply Forall_cons_2; [reflexivity|constructor].
  - apply Hl. reflexivity.
Defined.

(** Profilers that are running or not, with a profile of three bytes. *)
#[local] Instance sample_gperftools : Gperftools (bool * bool) := {
  ProfilingIsEnabledForAllThreads g := g.1;
  ProfilerStart _ g := (true, (true, g.2));
  ProfilerFlush g := g;
  ProfilerStop g := (false, g.2);
  IsHeapProfilerRunning g := g.2;
  HeapProfilerStart _ g := (g.1, true);
  HeapProfilerStop g := (g.1, false);
  GetHeapProfile g := (Some (lit "abc"), g)
}.

Lemma sample_laws : gperftools_laws (G := bool * bool).
Proof. split; try done. intros. by eexists. Qed.

Lemma Profiler_witness :
  exists p h' g',
    (@ProfilerHandler.handlePost _ _ profiling_build (fun _ _ => Some 5) (fun _ g => (true, g)) (Some heap_request)
       (lit "off") ProfilerHandler.new (false, true)).2 = (h', g')
    /\ p = lit "abc" /\ g' = (false, false).
Proof.
  destruct (Profiler_spec (fun _ _ => Some 5) (fun _ g => (true, g)) (fun _ => []) sample_laws (false, false)
              [(Some heap_request, lit "on")]) as [(_ & _ & Hoff & _) _].
  destruct (Hoff eq_refl) as (p & h' & g' & Ep & E & Hg & _).
  exists p, h', g'. injection Ep as <-. split; [exact E|]. split; [reflexivity|].
  injection E as _ <-. reflexivity.
Defined.

(** An allocation that fails. *)
Definition failing_gperftools : Gperftools bool := {|
  ProfilingIsEnabledForAllThreads _ := false;
  ProfilerStart _ g := (false, g);
  ProfilerFlush g := g;
  ProfilerStop g := g;
  IsHeapProfilerRunning g := g;
  HeapProfilerStart _ _ := true;
  HeapProfilerStop _ := false;
  GetHeapProfile g := (None, g)
|}.

Lemma heap_profile_null_witness :
  let P := @profiling_build bool failing_gperftools in
  let h' := (ProfilerHandler.handlePost (fun _ _ => None) (fun _ g => (true, g)) (Some heap_request) (lit "off")
               (ProfilerHandler.mk (Some (lit "abc")) 3 0) true).2 in
  ProfilerHandler.handleGet (fun _ => []) (Some heap_request) h'.1 h'.2 = None.
Proof.
  pose proof (@heap_profile_null _ bool failing_gperftools (fun _ _ => None) (fun _ g => (true, g)) (fun _ => [])
                (ProfilerHandler.mk (Some (lit "abc")) 3 0) true eq_refl eq_refl eq_refl) as Hn.
  destruct (ProfilerHandler.handlePost _ _ _ _ _ _) as [reply [h g]] eqn:E. cbv zeta. rewrite E.
  apply Hn. discriminate.
Defined.
End Witnesses.
