(* ===== verification/Lifecycle.v ===== *)
(** * Threads, start-up and shutdown

    [collector/lib/StoppableThread.h] and [StoppableThread.cpp], the threads of
    [CollectorService] (configuration loader, network status notifier, stats exporter)
    with the order in which they are started and stopped, the connection attempts of
    [GRPCUtil.cpp] and [collector.cpp], [NetworkConnectionInfoServiceComm.cpp] with
    [NetworkStatusNotifier::Run] and [Stop], [KernelDriver.h], [ProtoAllocator.h] and
    [Diagnostics.h].

    Results of system calls, the sensor's channel and the kernel driver are inputs, and
    so is whether a thread returns once it has been told to stop.  [None] stands for the
    end of the process: an invalid pointer or a fatal error; where an operation may also
    wait without end, its result is an [stop_outcome].
    The thread that runs the notifier and the one that stops it are interleaved as a
    step relation. *)

From S2P Require Import Prelude Containers Utility Stats IPNet Connection Events ConnTracker Duplex Metrics Introspection.

(** ** StoppableThread *)

(** The members, [thread_] being whether there is a thread, and the descriptors the
    process has open. *)
Record StoppableThread := mkStoppableThread {
  thread_ : bool;
  should_stop_ : bool;
  stop_pipe_ : Z * Z
}.

Abbreviation fds := (list Z).

Definition running (t : StoppableThread) : bool := thread_ t.

(** [pipe_result]: the two descriptors [pipe] opens, if it succeeds. *)
Definition prepareStart (pipe_result : option (Z * Z)) (t : StoppableThread) (open : fds)
  : bool * StoppableThread * fds :=
  if running t then (false, t, open)
  else
    let t := mkStoppableThread (thread_ t) false (stop_pipe_ t) in
    match pipe_result with
    | None => (false, t, open)
    | Some (r, w) => (true, mkStoppableThread (thread_ t) (should_stop_ t) (r, w), r :: w :: open)
    end.

Definition doStart (t : StoppableThread) : bool * StoppableThread :=
  (true, mkStoppableThread true (should_stop_ t) (stop_pipe_ t)).

Definition Start (pipe_result : option (Z * Z)) (t : StoppableThread) (open : fds) : bool * StoppableThread * fds :=
  let '(ok, t, open) := prepareStart pipe_result t open in
  if negb ok then (false, t, open)
  else let '(ok, t) := doStart t in (ok, t, open).

(** What a call of [close] on an open descriptor reports; an interrupted call may or
    may not have released the descriptor. *)
Inductive close_result : Set := Closed | Interrupted (released : bool) | CloseFailed (released : bool).

Definition released (r : close_result) : bool :=
  match r with Closed => true | Interrupted b | CloseFailed b => b end.

(** [close]: whether it was interrupted, and the open descriptors. *)
Definition close_fd (r : close_result) (fd : Z) (open : fds) : bool * fds :=
  if bool_decide (fd ∈ open) then
    (match r with Interrupted _ => true | _ => false end,
     if released r then List.filter (fun x => negb (x =? fd)) open else open)
  else (false, open).

(** The loop that closes the writing end, again after an interruption; [None] while
    it has not ended. *)
Fixpoint close_loop (rs : list close_result) (fd : Z) (open : fds) : option fds :=
  match rs with
  | [] => None
  | r :: rs =>
      let '(interrupted, open) := close_fd r fd open in
      if interrupted then close_loop rs fd open else Some open
  end.

(** How an operation that joins threads ends: it returns, it waits for a thread that
    does not return (or tries without end to close a descriptor), or the process ends. *)
Inductive stop_outcome (A : Type) : Type := Finishes (a : A) | Hangs | Dies.
Arguments Finishes {A} _.
Arguments Hangs {A}.
Arguments Dies {A}.

Definition and_then {A B} (o : stop_outcome A) (f : A -> stop_outcome B) : stop_outcome B :=
  match o with Finishes a => f a | Hangs => Hangs | Dies => Dies end.

(** What [Stop] meets: the results of the calls that close the writing end, whether
    the thread returns, and the result of closing the reading end. *)
Record stop_input := mkStopInput { writing_end : list close_result; thread_returns : bool; reading_end : close_result }.

(** [Stop]; without a thread, [join] is called on a null pointer. *)
Definition Stop (i : stop_input) (t : StoppableThread) (open : fds) : stop_outcome (StoppableThread * fds) :=
  let t := mkStoppableThread (thread_ t) true (stop_pipe_ t) in
  match close_loop (writing_end i) (stop_pipe_ t).2 open with
  | None => Hangs
  | Some open =>
      if negb (thread_ t) then Dies
      else if negb (thread_returns i) then Hangs
      else
        let '(_, open) := close_fd (reading_end i) (stop_pipe_ t).1 open in
        Finishes (mkStoppableThread false (should_stop_ t) (stop_pipe_ t), open)
  end.

(** ** The threads of the service *)

(** The configuration loader, the notifier if network flows are reported, and the exporter. *)
Record Threads := mkThreads {
  config_loader_ : StoppableThread;
  net_status_notifier_ : option StoppableThread;
  exporter_ : StoppableThread
}.

Definition thread_new (garbage : Z * Z) : StoppableThread := mkStoppableThread false false garbage.

(** The notifier exists without a channel, or when flows are not disabled. *)
Definition CollectorService_threads (grpc_channel DisableNetworkFlows : bool) (garbage : Z * Z) : Threads :=
  mkThreads (thread_new garbage)
    (if negb grpc_channel || negb DisableNetworkFlows then Some (thread_new garbage) else None)
    (thread_new garbage).

(** The tracker the constructor sets up, when there is a notifier. *)
Definition CollectorService_tracker `{HostEndian} (grpc_channel DisableNetworkFlows : bool)
    (IgnoredL4ProtoPortPairs : umap L4ProtoPortPair unit) (IgnoredNetworks NonAggregatedNetworks : list IPNet)
  : option (option ConnectionTracker) :=
  if negb grpc_channel || negb DisableNetworkFlows then
    let t := UpdateIgnoredL4ProtoPortPairs ConnectionTracker_new IgnoredL4ProtoPortPairs in
    match UpdateIgnoredNetworks t IgnoredNetworks with
    | None => None
    | Some t =>
        match UpdateNonAggregatedNetworks t NonAggregatedNetworks with
        | None => None
        | Some t => Some (Some t)
        end
    end
  else Some None.

(** The routes of the HTTP handlers, in the order in which they are added. *)
Definition civet_routes (IsIntrospectionEnabled : bool) : list str :=
  [GetStatus.kBaseRoute; LogLevelHandler.kBaseRoute; ProfilerHandler.kBaseRoute]
  ++ (if IsIntrospectionEnabled
      then [ContainerInfoInspector.kBaseRoute; NetworkStatusInspector.kBaseRoute; CollectorConfigInspector.kBaseRoute]
      else []).

(** The results of the calls of [pipe], in the order of the threads. *)
Record pipes := mkPipes { p_loader : option (Z * Z); p_notifier : option (Z * Z); p_exporter : option (Z * Z) }.

(** The start of [RunForever]: the results of starting the loader and the notifier
    are not looked at; that of the exporter is. *)
Definition start_threads (p : pipes) (s : Threads) (open : fds) : option (Threads * fds) :=
  let '(_, loader, open) := Start (p_loader p) (config_loader_ s) open in
  let '(notifier, open) :=
    match net_status_notifier_ s with
    | Some n => let '(_, n, open) := Start (p_notifier p) n open in (Some n, open)
    | None => (None, open)
    end in
  let '(ok, exporter, open) := Start (p_exporter p) (exporter_ s) open in
  if negb ok then None else Some (mkThreads loader notifier exporter, open).

(** What stopping each of the threads meets. *)
Record stop_inputs := mkStopInputs { stop_loader : stop_input; stop_notifier : stop_input; stop_exporter : stop_input }.

(** The destructor of the service, up to [CleanUp] of the inspector; [close] of the HTTP server, which is
    civetweb's, is left out. *)
Definition stop_threads (i : stop_inputs) (s : Threads) (open : fds) : stop_outcome (Threads * fds) :=
  and_then (Stop (stop_loader i) (config_loader_ s) open) (fun '(loader, open) =>
  and_then (match net_status_notifier_ s with
            | Some n => and_then (Stop (stop_notifier i) n open) (fun '(n, open) => Finishes (Some n, open))
            | None => Finishes (None, open)
            end) (fun '(notifier, open) =>
  and_then (Stop (stop_exporter i) (exporter_ s) open) (fun '(exporter, open) =>
  Finishes (mkThreads loader notifier exporter, open)))).

(** ** Waiting for the channel *)

Inductive channel_state : Set := CONNECTING | SHUTDOWN.

#[export] Instance channel_state_eq_dec : EqDecision channel_state.
Proof. solve_decision. Defined.

(** What a poll of the channel gives: connected in time, or the state after it. *)
Abbreviation poll := (option channel_state).

Inductive wait_result : Set := Ready | NotReady | Fatal | StillWaiting.

(** The loop: [check] is called before every poll and may keep state; [polls] are
    the answers of the channel. *)
Fixpoint WaitForChannelReady {St : Type} (check : St -> bool * St) (s : St) (polls : list poll) : wait_result * nat :=
  let '(interrupted, s) := check s in
  if interrupted then (NotReady, O)
  else
    match polls with
    | [] => (StillWaiting, O)
    | None :: _ => (Ready, 1%nat)
    | Some SHUTDOWN :: _ => (Fatal, 1%nat)
    | Some CONNECTING :: polls => let '(r, n) := WaitForChannelReady check s polls in (r, S n)
    end.

Definition MAX_GRPC_CONNECTION_POLLS : Z := 30.

(** [polls-- == 0] on an [int]. *)
Definition poll_check (polls : Z) : bool * Z := (polls =? 0, polls - 1).

Definition attemptGRPCConnection (polls : list poll) : wait_result * nat :=
  WaitForChannelReady poll_check MAX_GRPC_CONNECTION_POLLS polls.

(** ** The writer to the standard output *)

(** [StdoutDuplexClientWriter], which takes the place of the stream without a channel:
    it logs messages and succeeds at everything, at once; [logged]: the messages so far. *)
Section StdoutDuplexClientWriter.
Context {W : Type}.

Definition stdout_Write (obj : W) (logged : list W) : Status * list W := (S_OK, logged ++ [obj]).
Definition stdout_WaitUntilStarted : Status := S_OK.
Definition stdout_Sleep (deadline : Z) : bool := true.
Definition stdout_Finish : Status := S_OK.

(** The loop of [RunSingle] over the messages of its iterations, [None] when there is
    nothing to report: whether it returned before the iterations were over. *)
Fixpoint stdout_reports (msgs : list (option W)) (logged : list W) : bool * list W :=
  match msgs with
  | [] => (false, logged)
  | msg :: msgs =>
      if negb (stdout_Sleep 0) then (true, logged)
      else
        match msg with
        | None => stdout_reports msgs logged
        | Some m =>
            let '(r, logged) := stdout_Write m logged in
            if negb (result_ok r) then (true, logged) else stdout_reports msgs logged
        end
  end.
End StdoutDuplexClientWriter.

(** ** The notifier's thread and its shutdown *)

Module NotifierThread.

(** Where the thread is: in [PauseUntil] (about to look at [should_stop_], about to
    wait having seen it false, waiting on the condition variable), before
    [ResetClientContext], in [WaitForConnectionReady], before opening the stream, in
    [RunSingle], after it, and at its end. *)
Inductive wpc : Set :=
| PauseCheck | PauseBlock | PauseWait | Reset | Connect | OpenStream | RunSingle | AfterRun | Returned.

#[export] Instance wpc_eq_dec : EqDecision wpc.
Proof. solve_decision. Defined.

(** Where the thread that calls [Stop] is: before it, after [TryCancel], after
    [should_stop_] was set, after the notification (joining), and after [join]. *)
Inductive spc : Set := NotStopping | CancelTried | StopStored | Joining | Joined.

(** [channel_]: whether there is a channel, or the messages go to the standard output;
    [context_]: whether the current context, if any, was cancelled. *)
Record state := mkState {
  channel_ : bool;
  context_ : option bool;
  should_stop : bool;
  worker : wpc;
  stopper : spc
}.

Definition at_worker (w : wpc) (s : state) : state :=
  mkState (channel_ s) (context_ s) (should_stop s) w (stopper s).

Definition TryCancel (c : option bool) : option bool :=
  match c with Some _ => Some true | None => None end.

Definition init (channel : bool) : state := mkState channel None false PauseCheck NotStopping.

(** The steps of the notifier's thread.  [ended] is the server ending the stream or a
    failing write; the writer to the standard output never ends ([stdout_reports_never]). *)
Inductive work : bool -> state -> state -> Prop :=
| work_check_stop s : worker s = PauseCheck -> should_stop s = true -> work false s (at_worker Returned s)
| work_check_go s : worker s = PauseCheck -> should_stop s = false -> work false s (at_worker PauseBlock s)
| work_block s : worker s = PauseBlock -> work false s (at_worker PauseWait s)
| work_spurious s : worker s = PauseWait -> work false s (at_worker PauseCheck s)
| work_timeout s :
    worker s = PauseWait -> work false s (at_worker (if should_stop s then Returned else Reset) s)
| work_reset s :
    worker s = Reset ->
    work false s (mkState (channel_ s) (Some false) (should_stop s) Connect (stopper s))
| work_no_channel s : worker s = Connect -> channel_ s = false -> work false s (at_worker OpenStream s)
| work_interrupted s :
    worker s = Connect -> channel_ s = true -> should_stop s = true -> work false s (at_worker Returned s)
| work_connected s :
    worker s = Connect -> channel_ s = true -> should_stop s = false -> work false s (at_worker OpenStream s)
| work_open s : worker s = OpenStream -> work false s (at_worker RunSingle s)
| work_cancelled s :
    worker s = RunSingle -> channel_ s = true -> context_ s = Some true -> work false s (at_worker AfterRun s)
| work_ended s : worker s = RunSingle -> channel_ s = true -> work true s (at_worker AfterRun s)
| work_after_stop s : worker s = AfterRun -> should_stop s = true -> work false s (at_worker Returned s)
| work_after s : worker s = AfterRun -> should_stop s = false -> work false s (at_worker PauseCheck s).

(** The steps of [NetworkStatusNotifier::Stop] with [StoppableThread::Stop]. *)
Inductive stop_work : state -> state -> Prop :=
| stop_cancel s :
    stopper s = NotStopping ->
    stop_work s (mkState (channel_ s) (TryCancel (context_ s)) (should_stop s) (worker s) CancelTried)
| stop_store s :
    stopper s = CancelTried ->
    stop_work s (mkState (channel_ s) (context_ s) true (worker s) StopStored)
| stop_notify s :
    stopper s = StopStored ->
    stop_work s (mkState (channel_ s) (context_ s) (should_stop s)
                   (match worker s with PauseWait => PauseCheck | w => w end) Joining)
| stop_join s :
    stopper s = Joining -> worker s = Returned ->
    stop_work s (mkState (channel_ s) (context_ s) (should_stop s) (worker s) Joined).

(** [ended = false]: the stream is not ended from outside. *)
Inductive step (ended : bool) : state -> state -> Prop :=
| step_work s s' : work false s s' -> step ended s s'
| step_ended s s' : ended = true -> work true s s' -> step ended s s'
| step_stop s s' : stop_work s s' -> step ended s s'.

Definition reachable (channel : bool) : state -> Prop := rtc (step true) (init channel).

(** The thread will be in a stream that nothing but the server ends: with a channel, one
    whose context was made after [TryCancel]; without one, any. *)
Definition stuck (s : state) : Prop :=
  should_stop s = true
  /\ (if channel_ s then (worker s = OpenStream \/ worker s = RunSingle) /\ context_ s = Some false
      else worker s = Reset \/ worker s = Connect \/ worker s = OpenStream \/ worker s = RunSingle).

End NotifierThread.

(** ** The kernel driver *)

Section KernelDriver.
Context `{Driver}.
(** The driver's name for a system call of [g_syscall_table], and its two tracepoints. *)
Context (ppm_sc : Z -> Z) (PPM_SC_SCHED_PROCESS_EXIT PPM_SC_SCHED_SWITCH : Z).

Definition add_sc (sc : umap Z unit) (code : Z) : umap Z unit := (emplace sc code tt).1.

(** The loop over the events of a name. *)
Fixpoint add_events (n : EventNames) (ids : list nat) (sc : umap Z unit) : option (umap Z unit) :=
  match ids with
  | [] => Some sc
  | id :: ids =>
      match GetEventSyscallID n id with
      | None => None
      | Some syscall_id => add_events n ids (if syscall_id =? 0 then sc else add_sc sc (ppm_sc syscall_id))
      end
  end.

Fixpoint add_syscalls (n : EventNames) (names : list str) (sc : umap Z unit) : option (umap Z unit) :=
  match names with
  | [] => Some sc
  | name :: names =>
      match GetEventIDs n name with
      | None => None
      | Some ids =>
          match add_events n ids sc with
          | None => None
          | Some sc => add_syscalls n names sc
          end
      end
  end.

(** [GetSyscallList], [None] for the exception on an unknown name. *)
Definition GetSyscallList (n : EventNames) (Syscalls : list str) : option (umap Z unit) :=
  match add_syscalls n Syscalls [] with
  | None => None
  | Some sc => Some (add_sc (add_sc sc PPM_SC_SCHED_PROCESS_EXIT) PPM_SC_SCHED_SWITCH)
  end.

(** [Setup] and [InitKernel]: the exception of the inspector is thrown again, so that
    [false] is never returned. *)
Definition Setup (open_modern_bpf : umap Z unit -> bool) (n : EventNames) (Syscalls : list str) : option bool :=
  match GetSyscallList n Syscalls with
  | None => None
  | Some sc => if open_modern_bpf sc then Some true else None
  end.

Definition InitKernel (open_modern_bpf : umap Z unit -> bool) (n : EventNames) (Syscalls : list str) : option bool :=
  match Setup open_modern_bpf n Syscalls with
  | None => None
  | Some ok => if negb ok then Some false else Some true
  end.
End KernelDriver.

(** ** ArenaProtoAllocator *)

Definition kDefaultPoolSize : Z := 524288.

(** [Reset]: the size of the pool, given the bytes [Arena::Reset] reports; [size_t] arithmetic. *)
Definition Reset_pool (bytes_used pool_size_ : Z) : Z :=
  if pool_size_ <? bytes_used then wrap 64 ((bytes_used / kDefaultPoolSize + 1) * kDefaultPoolSize) else pool_size_.

(** ** StartupDiagnostics *)

Record StartupDiagnostics := mkStartupDiagnostics {
  connectedToSensor_ : bool;
  driverDiagnostics_ : list str
}.

Definition StartupDiagnostics_new : StartupDiagnostics := mkStartupDiagnostics false [].

Definition ConnectedToSensor (d : StartupDiagnostics) : StartupDiagnostics :=
  mkStartupDiagnostics true (driverDiagnostics_ d).

Definition push_line (line : str) (d : StartupDiagnostics) : StartupDiagnostics :=
  mkStartupDiagnostics (connectedToSensor_ d) (driverDiagnostics_ d ++ [line]).

Definition DriverUnavailable (candidate : str) : StartupDiagnostics -> StartupDiagnostics :=
  push_line (lit "   " ++ candidate ++ lit " (unavailable)").
Definition DriverAvailable (candidate : str) : StartupDiagnostics -> StartupDiagnostics :=
  push_line (lit "   " ++ candidate ++ lit " (available)").
Definition DriverSuccess (candidate : str) : StartupDiagnostics -> StartupDiagnostics :=
  push_line (lit " Driver loaded into kernel: " ++ candidate).

(** [Log]: the lines written; the driver's lines are then forgotten. *)
Definition Log (d : StartupDiagnostics) : list str * StartupDiagnostics :=
  ([[]; lit "== Collector Startup Diagnostics: ==";
    lit " Connected to Sensor?       " ++ (if connectedToSensor_ d then lit "true" else lit "false");
    lit " Kernel driver candidates:"]
   ++ driverDiagnostics_ d ++ [lit "===================================="; []],
   mkStartupDiagnostics (connectedToSensor_ d) []).

(** [CollectorService::InitKernel] and the part of [RunService] up to [RunForever]:
    the lines logged, and [None] when the process ends. *)
Definition service_InitKernel (init : option bool) (cm_name : str) (d : StartupDiagnostics)
  : option (bool * StartupDiagnostics) :=
  let d := DriverAvailable cm_name d in
  match init with
  | None => None
  | Some true => Some (true, DriverSuccess cm_name d)
  | Some false => Some (false, d)
  end.

Definition RunService_start (init : option bool) (cm_name : str) (d : StartupDiagnostics) : list str * option StartupDiagnostics :=
  match service_InitKernel init cm_name d with
  | None => ([], None)
  | Some (false, d) => ((Log d).1, None)
  | Some (true, d) => let '(lines, d) := Log d in (lines, Some d)
  end.

(** The start of [main] after the configuration is read: the connection to Sensor. *)
Definition connect_to_sensor (useGRPC : bool) (polls : list poll) (d : StartupDiagnostics)
  : list str * option StartupDiagnostics :=
  if useGRPC then
    match (attemptGRPCConnection polls).1 with
    | Ready => ([], Some (ConnectedToSensor d))
    | NotReady => ((Log d).1, None)
    | Fatal | StillWaiting => ([], None)
    end
  else ([], Some d).

(** ** Connection statistics of the notifier *)

(** The members of the notifier: the reporters, if configured, with the observations
    they received, the counters of the previous report and its time in nanoseconds. *)
Record ConnReporters := mkConnReporters {
  connections_total_reporter_ : option (ConnectionSummaries Z);
  connections_rate_reporter_ : option (ConnectionSummaries SpecFloat.spec_float);
  connections_rate_counter_last_ : option ConnStats;
  connections_last_report_time_ : Z
}.

(** [((float)current - last) / delta_t], in [float]s. *)
Definition rate (current last delta_t : Z) : SpecFloat.spec_float := fdiv (fsub (flt current) (flt last)) (flt delta_t).

Definition ReportConnectionStats (stats_total stats_new_counter : ConnStats) (now : Z) (r : ConnReporters) : ConnReporters :=
  let total :=
    (fun s => Observe (private_ (inbound stats_total)) (public_ (inbound stats_total))
                (private_ (outbound stats_total)) (public_ (outbound stats_total)) s) <$> connections_total_reporter_ r in
  match connections_rate_reporter_ r with
  | None => mkConnReporters total None (connections_rate_counter_last_ r) (connections_last_report_time_ r)
  | Some s =>
      let delta_t := Z.quot (now - connections_last_report_time_ r) 1000000000 in
      let s :=
        match connections_rate_counter_last_ r with
        | Some last =>
            if 0 <? delta_t then
              Observe (rate (private_ (inbound stats_new_counter)) (private_ (inbound last)) delta_t)
                      (rate (public_ (inbound stats_new_counter)) (public_ (inbound last)) delta_t)
                      (rate (private_ (outbound stats_new_counter)) (private_ (outbound last)) delta_t)
                      (rate (public_ (outbound stats_new_counter)) (public_ (outbound last)) delta_t) s
            else s
        | None => s
        end in
      mkConnReporters total (Some s) (Some stats_new_counter) now
  end.

(** ** Lemmas *)

(** *** The standard output *)

(** Reports to the standard output go on without end and without pause. *)
Lemma stdout_reports_never {W} (msgs : list (option W)) logged :
  stdout_reports msgs logged = (false, logged ++ omap id msgs).
Proof.
  revert logged. induction msgs as [|[m|] msgs IH]; intros logged; cbn [stdout_reports]; [by rewrite app_nil_r| |apply IH].
  cbn. rewrite IH. by rewrite <- app_assoc.
Qed.

(** *** Descriptors *)

Lemma filter_absent (open : fds) fd : fd ∉ open -> List.filter (fun x => negb (x =? fd)) open = open.
Proof.
  intros Hfd. induction open as [|x open IH]; [done|]. apply not_elem_of_cons in Hfd as [Hne Hfd]. cbn [List.filter].
  rewrite (proj2 (Z.eqb_neq x fd)) by congruence. cbn [negb]. by rewrite IH.
Qed.

(** Whatever the interruptions, the loop ends with the descriptor closed, as soon as a
    call is not interrupted or finds the descriptor released. *)
Lemma close_loop_closed rs fd (open : fds) open' :
  close_loop rs fd open = Some open' -> Forall (fun r => r <> CloseFailed false) rs ->
  open' = List.filter (fun x => negb (x =? fd)) open.
Proof.
  revert open. induction rs as [|r rs IH]; intros open; [done|]. cbn [close_loop].
  intros E Hrs. inversion Hrs as [|? ? Hr Hrs']; subst. unfold close_fd in E.
  case_bool_decide as Hin; [|injection E as <-; by rewrite filter_absent].
  destruct r as [|[]|[]]; cbn [released] in E; try (by injection E as <-); try done.
  - rewrite (IH _ E Hrs'). apply filter_absent. rewrite list_elem_of_In, filter_In. intros [_ Hx].
    by rewrite Z.eqb_refl in Hx.
  - by apply IH.
Qed.

Definition completes (r : close_result) : Prop := match r with Interrupted _ => False | _ => True end.

Lemma close_loop_ends rs fd (open : fds) :
  Exists completes rs -> is_Some (close_loop rs fd open).
Proof.
  intros Hrs. revert open. induction Hrs as [r rs Hr|r rs Hrs IH]; intros open; cbn [close_loop]; unfold close_fd.
  - case_bool_decide; [|by eexists]. destruct r; try done; by eexists.
  - case_bool_decide; [|by eexists]. case_match; [apply IH|by eexists].
Qed.

Definition fresh_pipe (p : Z * Z) (open : fds) : Prop := p.1 <> p.2 /\ p.1 ∉ open /\ p.2 ∉ open.

Lemma Start_fresh p t (open : fds) :
  thread_ t = false ->
  Start (Some p) t open = (true, mkStoppableThread true false p, p.1 :: p.2 :: open).
Proof. intros Ht. unfold Start, prepareStart, running. rewrite Ht. by destruct p. Qed.

Lemma Start_no_pipe t (open : fds) :
  thread_ t = false -> Start None t open = (false, mkStoppableThread false false (stop_pipe_ t), open).
Proof. intros Ht. unfold Start, prepareStart, running. by rewrite Ht. Qed.

(** Every descriptor is closed in the end, however often the calls are interrupted. *)
Definition closes_ok (i : stop_input) : Prop :=
  Exists completes (writing_end i) /\ Forall (fun r => r <> CloseFailed false) (writing_end i)
  /\ released (reading_end i) = true.

Lemma Stop_restores i t (open0 open1 : fds) :
  thread_ t = true -> fresh_pipe (stop_pipe_ t) (open0 ++ open1) -> closes_ok i ->
  Stop i t (open0 ++ (stop_pipe_ t).1 :: (stop_pipe_ t).2 :: open1)
  = if thread_returns i then Finishes (mkStoppableThread false true (stop_pipe_ t), open0 ++ open1) else Hangs.
Proof.
  intros Ht (Hne & H1 & H2) (Hend & Hrs & Hr). rewrite not_elem_of_app in H1, H2.
  destruct t as [th st [a b]], i as [rs ends r]. cbn in *. subst th.
  unfold Stop. cbn [thread_ should_stop_ stop_pipe_ writing_end reading_end thread_returns fst snd negb].
  destruct (close_loop_ends rs b (open0 ++ a :: b :: open1) Hend) as [o E]. rewrite E. destruct ends; cbn [negb]; [|done].
  rewrite (close_loop_closed _ _ _ _ E Hrs), List.filter_app. cbn [List.filter].
  rewrite Z.eqb_refl, (proj2 (Z.eqb_neq a b)) by done. cbn [negb]. rewrite !filter_absent by tauto.
  unfold close_fd. rewrite bool_decide_eq_true_2 by set_solver. rewrite Hr, List.filter_app. cbn [List.filter].
  rewrite Z.eqb_refl. cbn [negb]. by rewrite !filter_absent by tauto.
Qed.

Lemma Stop_no_thread i t (open : fds) : thread_ t = false -> Exists completes (writing_end i) -> Stop i t open = Dies.
Proof.
  intros Ht Hend. unfold Stop. cbn [thread_ stop_pipe_]. rewrite Ht.
  by destruct (close_loop_ends (writing_end i) (stop_pipe_ t).2 open Hend) as [o ->].
Qed.

(** *** Polls *)

Lemma attempt_polls k polls :
  (k <= length polls)%nat -> Forall (fun p => p = Some CONNECTING) (take k polls) ->
  forall n, Z.of_nat k <= n ->
  WaitForChannelReady poll_check n polls
  = let '(r, m) := WaitForChannelReady poll_check (n - Z.of_nat k) (drop k polls) in (r, (k + m)%nat).
Proof.
  revert polls. induction k as [|k IH]; intros polls Hk Hp n Hn.
  { rewrite drop_0, Z.sub_0_r. by destruct (WaitForChannelReady _ _ _). }
  destruct polls as [|p polls]; [simpl in Hk; lia|]. cbn [take drop length] in *. inversion Hp as [|? ? -> Hp']; subst.
  cbn [WaitForChannelReady poll_check]. unfold poll_check at 1. rewrite (proj2 (Z.eqb_neq n 0)) by lia.
  rewrite (IH polls) by (done || lia). replace (n - 1 - Z.of_nat k) with (n - Z.of_nat (S k)) by lia.
  by destruct (WaitForChannelReady _ _ _).
Qed.

(** *** The shutdown of the notifier *)

Section Shutdown.
Import NotifierThread.

(** What holds of every reachable state: [should_stop] is set exactly from [StopStored]
    on, and where the thread has a context. *)
Definition stop_requested (p : spc) : bool :=
  match p with NotStopping | CancelTried => false | StopStored | Joining | Joined => true end.

Definition needs_context (w : wpc) : bool :=
  match w with Connect | OpenStream | RunSingle => true | _ => false end.

Record thread_inv (s : state) : Prop := {
  inv_stop : should_stop s = stop_requested (stopper s);
  inv_context : needs_context (worker s) = true -> is_Some (context_ s);
  inv_joined : stopper s = Joined -> worker s = Returned
}.

Ltac thread_step :=
  repeat match goal with
  | Hs : work _ _ _ |- _ => inversion Hs; clear Hs; subst
  | Hs : stop_work _ _ |- _ => inversion Hs; clear Hs; subst
  | Hs : step _ _ _ |- _ => inversion Hs; clear Hs; subst
  end.

Lemma thread_inv_step s s' : step true s s' -> thread_inv s -> thread_inv s'.
Proof.
  intros Hs [H1 H2 H3]. destruct s as [ch ctx st w sp]. thread_step; cbn in *; subst;
    split; unfold at_worker; cbn; try done; try (intros; exfalso; by destruct sp);
    try (by intros ->); try (intros _; by eexists); try (by intros _; apply H2);
    try (intros E; by specialize (H3 E)); try (by destruct st); try (by destruct w).
  intros Hw. destruct (H2 Hw) as [b ->]. by eexists.
Qed.

Lemma thread_inv_reachable ch s : reachable ch s -> thread_inv s.
Proof.
  intros Hr. unfold reachable in Hr. apply (rtc_ind_r (fun s => thread_inv s) (init ch)) in Hr; [done| |].
  - by split.
  - intros x y _ Hxy Hx. by eapply thread_inv_step.
Qed.

Lemma channel_step e s s' : step e s s' -> channel_ s' = channel_ s.
Proof. intros Hs. thread_step; done. Qed.

(** The steps left to a thread that was told to stop. *)
Definition distance (w : wpc) : nat :=
  match w with
  | Returned => 0 | PauseCheck | AfterRun | Connect => 1 | PauseWait | RunSingle | Reset => 2
  | PauseBlock | OpenStream => 3
  end.

Lemma stuck_step s s' :
  step false s s' -> stop_requested (stopper s) = true -> stuck s ->
  stop_requested (stopper s') = true /\ stuck s'.
Proof.
  intros Hs Hr [Hst Hw]. destruct s as [ch ctx st w sp]. cbn in *. subst st.
  thread_step; try discriminate; cbn in *; subst; unfold stuck, at_worker in *; cbn in *; try discriminate;
    split_and!; try done; try destruct ch; cbn in *; naive_solver.
Qed.

Lemma stuck_worker s : stuck s -> worker s <> Returned.
Proof. intros [_ Hw]. destruct (channel_ s); intuition congruence. Qed.

(** A thread that was told to stop and is not stuck gets closer to its end with each of
    its steps and is not stuck after it. *)
Lemma work_progress s s' :
  work false s s' -> should_stop s = true -> ~ stuck s ->
  (needs_context (worker s) = true -> is_Some (context_ s)) ->
  (distance (worker s') < distance (worker s))%nat /\ should_stop s' = true /\ ~ stuck s'
  /\ (needs_context (worker s') = true -> is_Some (context_ s')).
Proof.
  intros Hs Hst Hns Hc. destruct s as [ch ctx st w sp]. cbn in *. subst st.
  thread_step; cbn in *; subst; try discriminate; unfold stuck, at_worker in *; cbn in *;
    split_and!; try done; try lia; try (intros [_ Hw]; try destruct ch; naive_solver); try naive_solver.
Qed.

Lemma work_enabled s :
  worker s <> Returned -> should_stop s = true -> ~ stuck s ->
  (needs_context (worker s) = true -> is_Some (context_ s)) -> exists s', work false s s'.
Proof.
  intros Hw Hst Hns Hc. destruct s as [ch ctx st w sp]. cbn in *. subst st.
  destruct w; try done; try (by eexists; constructor).
  - destruct ch; [by eexists; apply work_interrupted|]. by eexists; apply work_no_channel.
  - destruct ch; [|by destruct Hns; split; naive_solver].
    destruct ctx as [[|]|]; [by eexists; apply work_cancelled| |destruct (Hc eq_refl); done].
    exfalso. apply Hns. by split; [|split; [right|]].
Qed.
End Shutdown.

(** *** Syscalls *)

Abbreviation any_code := (fun _ : Z => True).

Lemma add_sc_spec sc code x :
  wf_umap any_code sc -> wf_umap any_code (add_sc sc code)
  /\ (Contains (add_sc sc code) x = true <-> x = code \/ Contains sc x = true).
Proof.
  intros Hw. split; [by apply (wf_emplace any_code)|]. unfold add_sc. rewrite !Contains_Lookup.
  rewrite (Lookup_emplace any_code) by done. destruct (Lookup sc x); [tauto|]. unfold keqb, KeyEq_Z.
  destruct (Z.eqb_spec x code); naive_solver.
Qed.

Section SyscallLemmas.
Context `{Driver} (ppm_sc : Z -> Z).

(** The codes that the events [ids] contribute. *)
Definition event_code (n : EventNames) (ids : list nat) (x : Z) : Prop :=
  exists id syscall_id, In id ids /\ GetEventSyscallID n id = Some syscall_id /\ syscall_id <> 0 /\ x = ppm_sc syscall_id.

Lemma event_code_cons n id ids x syscall_id :
  GetEventSyscallID n id = Some syscall_id ->
  event_code n (id :: ids) x <-> (syscall_id <> 0 /\ x = ppm_sc syscall_id) \/ event_code n ids x.
Proof.
  intros E. split.
  - intros (i & sid & [<-|Hi] & Es & Hne & ->); [left; split; congruence|right]. by exists i, sid.
  - intros [[Hne ->]|(i & sid & Hi & Hs)]; [exists id, syscall_id|exists i, sid]; cbn [In]; tauto.
Qed.

Lemma add_events_spec n ids sc sc' x :
  wf_umap any_code sc -> add_events ppm_sc n ids sc = Some sc' ->
  wf_umap any_code sc' /\ (Contains sc' x = true <-> event_code n ids x \/ Contains sc x = true).
Proof.
  revert sc. induction ids as [|id ids IH]; intros sc Hw; cbn [add_events].
  - intros [= <-]. split; [done|]. split; [by right|]. intros [(i & s & [] & _)|?]; done.
  - destruct (GetEventSyscallID n id) as [sid|] eqn:E; [|done]. intros Ea.
    rewrite (event_code_cons n id ids x sid E). destruct (Z.eqb_spec sid 0) as [->|Hne].
    + destruct (IH sc Hw Ea) as [Hw' Hx]. split; [done|]. rewrite Hx. tauto.
    + destruct (add_sc_spec sc (ppm_sc sid) x Hw) as [Hw1 Hx1]. destruct (IH _ Hw1 Ea) as [Hw' Hx].
      split; [done|]. rewrite Hx, Hx1. tauto.
Qed.

Definition named_code (n : EventNames) (names : list str) (x : Z) : Prop :=
  exists name ids, In name names /\ GetEventIDs n name = Some ids /\ event_code n ids x.

Lemma add_syscalls_spec n names sc sc' x :
  wf_umap any_code sc -> add_syscalls ppm_sc n names sc = Some sc' ->
  wf_umap any_code sc' /\ (Contains sc' x = true <-> named_code n names x \/ Contains sc x = true).
Proof.
  revert sc. induction names as [|name names IH]; intros sc Hw; cbn [add_syscalls].
  - intros [= <-]. split; [done|]. split; [by right|]. intros [(i & s & [] & _)|?]; done.
  - destruct (GetEventIDs n name) as [ids|] eqn:E; [|done].
    destruct (add_events ppm_sc n ids sc) as [sc1|] eqn:E1; [|done]. intros Ea.
    destruct (add_events_spec n ids sc sc1 x Hw E1) as [Hw1 Hx1]. destruct (IH _ Hw1 Ea) as [Hw' Hx].
    split; [done|]. rewrite Hx, Hx1. unfold named_code. split.
    + intros [(nm & l & Hin & Hr)|[Hc|Hc]]; [left; exists nm, l; cbn [In]; tauto| |by right].
      left. exists name, ids. cbn [In]. tauto.
    + intros [(nm & l & [<-|Hin] & Ei & Hc)|Hc]; [|left; by exists nm, l|tauto].
      right. left. congruence.
Qed.
End SyscallLemmas.

(** ** Theorems *)

(** A stoppable thread.  Starting an idle thread opens a pipe and clears the stop
    flag; starting it again is refused and changes nothing; stopping it, however often
    closing the writing end is interrupted, waits for the thread, and once that returns
    leaves the stop flag set and the process with exactly the descriptors it had before
    the start, and the thread can be started again.  A start whose pipe fails leaves the
    thread idle. *)
Theorem StoppableThread_cycle (t : StoppableThread) (open : fds) (p q : Z * Z) (i : stop_input)
    (Hidle : running t = false) (Hp : fresh_pipe p open) (Hi : closes_ok i) :
  exists t1 t2,
    Start (Some p) t open = (true, t1, p.1 :: p.2 :: open)
    /\ running t1 = true /\ should_stop_ t1 = false
    /\ Start (Some q) t1 (p.1 :: p.2 :: open) = (false, t1, p.1 :: p.2 :: open)
    /\ Stop i t1 (p.1 :: p.2 :: open) = (if thread_returns i then Finishes (t2, open) else Hangs)
    /\ running t2 = false /\ should_stop_ t2 = true
    /\ (exists t3, Start (Some p) t2 open = (true, t3, p.1 :: p.2 :: open) /\ should_stop_ t3 = false)
    /\ (exists t', Start None t open = (false, t', open) /\ running t' = false).
Proof.
  exists (mkStoppableThread true false p), (mkStoppableThread false true p).
  split_and!; [by apply Start_fresh|done..| | | | |].
  - apply (Stop_restores i (mkStoppableThread true false p) [] open); done.
  - done.
  - done.
  - exists (mkStoppableThread true false p). split; [by apply Start_fresh|done].
  - eexists. split; [by apply Start_no_pipe|done].
Qed.

Definition all_close (i : stop_inputs) : Prop :=
  closes_ok (stop_loader i) /\ closes_ok (stop_notifier i) /\ closes_ok (stop_exporter i).

(** Every thread of the service returns once it is told to stop. *)
Definition all_return (i : stop_inputs) (s : Threads) : bool :=
  thread_returns (stop_loader i)
  && (match net_status_notifier_ s with Some _ => thread_returns (stop_notifier i) | None => true end)
  && thread_returns (stop_exporter i).

(** The next thread is stopped: it returns, or the destructor waits for it. *)
Ltac restored Hi p o0 o1 :=
  let E := fresh "E" in
  assert (E : fresh_pipe p (o0 ++ o1)) by
    (unfold fresh_pipe; cbn [app]; rewrite ?not_elem_of_cons; split_and!; first [assumption|congruence]);
  apply (fun H => Stop_restores _ (mkStoppableThread true false p) o0 o1 eq_refl H Hi) in E; cbn [app stop_pipe_] in E;
  rewrite E; clear E; destruct (thread_returns _) at 1 2; cbn [and_then andb]; [|by rewrite ?andb_false_r].

(** With all pipes the threads start; stopping them waits for them and gives the
    descriptors back. *)
Lemma service_threads_cycle (grpc_channel flows_disabled : bool) (garbage a b c : Z * Z) (open : fds) :
  fresh_pipe a open -> fresh_pipe b (a.1 :: a.2 :: open) -> fresh_pipe c (b.1 :: b.2 :: a.1 :: a.2 :: open) ->
  exists s1 open1 s2,
    start_threads (mkPipes (Some a) (Some b) (Some c)) (CollectorService_threads grpc_channel flows_disabled garbage) open = Some (s1, open1)
    /\ running (config_loader_ s1) = true /\ running (exporter_ s1) = true
    /\ (net_status_notifier_ s1 = None <-> grpc_channel = true /\ flows_disabled = true)
    /\ forall i, all_close i -> stop_threads i s1 open1 = if all_return i s1 then Finishes (s2, open) else Hangs.
Proof.
  intros (Ha1 & Ha2 & Ha3) (Hb1 & Hb2 & Hb3) (Hc1 & Hc2 & Hc3).
  repeat rewrite not_elem_of_cons in *. destruct_and?.
  unfold CollectorService_threads, start_threads, stop_threads, all_return.
  cbn [config_loader_ net_status_notifier_ exporter_ p_loader p_notifier p_exporter].
  rewrite !Start_fresh by done.
  destruct (negb grpc_channel || negb flows_disabled) eqn:E; rewrite ?Start_fresh by done; cbn [negb];
    (do 3 eexists; split_and!; [reflexivity|done|done|destruct grpc_channel, flows_disabled; cbn in E; naive_solver|]);
    intros i (Hl & Hn & He); cbn [config_loader_ net_status_notifier_ exporter_].
  - restored Hl a [c.1; c.2; b.1; b.2] open. restored Hn b [c.1; c.2] open. by restored He c (@nil Z) open.
  - restored Hl a [c.1; c.2] open. by restored He c (@nil Z) open.
Qed.

(** C30. The threads of the service.  When every pipe could be opened all threads are started,
    and, provided that its calls of close release the descriptors (interrupted or not), the
    destructor waits for all of them: if each returns once it is told to stop, it ends with all
    stopped and the process has the descriptors it had before; if one does not, it never ends.
    The results of starting the configuration loader and the notifier are ignored: when one of
    their pipes could not be opened the service runs, and its destructor then joins a thread
    that is not there.  A failing pipe of the exporter is fatal. *)
Theorem service_threads_spec (grpc_channel flows_disabled : bool) (garbage a b c : Z * Z) (open : fds)
    (Ha : fresh_pipe a open) (Hb : fresh_pipe b (a.1 :: a.2 :: open))
    (Hc : fresh_pipe c (b.1 :: b.2 :: a.1 :: a.2 :: open)) :
  let s := CollectorService_threads grpc_channel flows_disabled garbage in
  (exists s1 open1 s2,
     start_threads (mkPipes (Some a) (Some b) (Some c)) s open = Some (s1, open1)
     /\ running (config_loader_ s1) = true /\ running (exporter_ s1) = true
     /\ (net_status_notifier_ s1 = None <-> grpc_channel = true /\ flows_disabled = true)
     /\ forall i, all_close i -> stop_threads i s1 open1 = if all_return i s1 then Finishes (s2, open) else Hangs)
  /\ (exists s1 open1, start_threads (mkPipes None (Some b) (Some c)) s open = Some (s1, open1)
                       /\ forall i, all_close i -> stop_threads i s1 open1 = Dies)
  /\ (grpc_channel && flows_disabled = false ->
      exists s1 open1, start_threads (mkPipes (Some a) None (Some c)) s open = Some (s1, open1)
                       /\ forall i, all_close i -> thread_returns (stop_loader i) = true -> stop_threads i s1 open1 = Dies)
  /\ start_threads (mkPipes (Some a) (Some b) None) s open = None.
Proof.
  intros s. split_and!; [by apply service_threads_cycle|..]; unfold s, CollectorService_threads, start_threads, stop_threads;
    cbn [config_loader_ net_status_notifier_ exporter_ p_loader p_notifier p_exporter]; rewrite ?Start_fresh, ?Start_no_pipe by done.
  - destruct (_ || _); rewrite ?Start_fresh by done; cbn [negb]; (do 2 eexists; split; [reflexivity|]);
      intros i ([Hl _] & _); cbn [config_loader_]; by rewrite Stop_no_thread.
  - intros Hg. replace (negb grpc_channel || negb flows_disabled) with true by (by destruct grpc_channel, flows_disabled).
    rewrite Start_no_pipe, Start_fresh by done. cbn [negb]. do 2 eexists. split; [reflexivity|]. intros i (Hl & [Hn _] & _) Hr.
    cbn [config_loader_ net_status_notifier_ exporter_]. destruct Ha as (? & ? & ?), Hb as (? & ? & ?), Hc as (? & ? & ?).
    repeat rewrite not_elem_of_cons in *. destruct_and?.
    pose proof (Stop_restores (stop_loader i) (mkStoppableThread true false a) [c.1; c.2] open eq_refl) as E.
    cbn [app stop_pipe_] in E. rewrite E, Hr; [cbn [and_then]; by rewrite Stop_no_thread| |done].
    unfold fresh_pipe. rewrite ?not_elem_of_cons. split_and!; first [assumption|congruence].
  - destruct (_ || _); rewrite ?Start_fresh by done; by rewrite Start_no_pipe.
Qed.

Section ShutdownTheorems.
Import NotifierThread.


(** A notifier that cannot be stopped.  [RunSingle] does not look at the stop flag:
    it ends with its stream.  A context made between [TryCancel] and the store of the
    flag is not cancelled, and the messages on the standard output have no stream to
    end; both states can be reached, the second whenever the notifier without a channel
    has begun its first report, and from them [Stop] does not return as long as the
    server does not end the stream. *)
Theorem Stop_hangs (channel : bool) :
  (exists s, reachable channel s /\ stopper s = Joining /\ stuck s /\ worker s = RunSingle)
  /\ (forall s s', reachable channel s -> stop_requested (stopper s) = true -> stuck s -> rtc (step false) s s' ->
        stopper s <> Joined -> stopper s' <> Joined /\ worker s' <> Returned)
  /\ (channel = false ->
      forall s s', reachable false s -> worker s = RunSingle -> rtc (step false) s s' -> stopper s' <> Joined).
Proof.
  assert (Hstuck : forall s s', stop_requested (stopper s) = true -> stuck s -> rtc (step false) s s' ->
    stopper s <> Joined -> stopper s' <> Joined /\ worker s' <> Returned).
  { intros s s' Hr Hst Hs. induction Hs as [s|s x s' Hx Hs IH]; intros Hj; [split; [done|by apply stuck_worker]|].
    destruct (stuck_step s x Hx Hr Hst) as [Hr' Hst']. apply IH; [done|done|].
    intros E. inversion Hx as [a c Hw|a c Hf Hw|a c Hw]; subst; [inversion Hw; subst; by cbn in E|done|].
    inversion Hw; subst; cbn in E; try discriminate. by apply (stuck_worker _ Hst). }
  split_and!.
  - exists (mkState channel (Some false) true RunSingle Joining). split_and!; [|done| |done].
    + unfold reachable, init.
      eapply rtc_l; [apply step_work, work_check_go; reflexivity|].
      eapply rtc_l; [apply step_work, work_block; reflexivity|].
      eapply rtc_l; [apply step_work, work_timeout; reflexivity|].
      eapply rtc_l; [apply step_stop, stop_cancel; reflexivity|].
      eapply rtc_l; [apply step_work, work_reset; reflexivity|].
      eapply rtc_l; [apply step_work; destruct channel; [apply work_connected|apply work_no_channel]; reflexivity|].
      eapply rtc_l; [apply step_stop, stop_store; destruct channel; reflexivity|].
      eapply rtc_l; [apply step_stop, stop_notify; destruct channel; reflexivity|].
      apply rtc_once, step_work. destruct channel; apply (work_open (mkState _ _ _ _ _)); reflexivity.
    + split; [done|]. destruct channel; cbn; tauto.
  - intros s s' _. apply Hstuck.
  - intros _ s s' Hr Hw Hs.
    assert (Hch : channel_ s = false).
    { clear -Hr. unfold reachable in Hr. apply (rtc_ind_r (fun s => channel_ s = false) (init false)) in Hr; [done|done|].
      intros x y _ Hxy Hx. by rewrite (channel_step _ _ _ Hxy). }
    destruct (thread_inv_reachable false s Hr) as [_ _ Hj].
    assert (Hj' : stopper s <> Joined) by (intros E; specialize (Hj E); congruence).
    clear Hr Hj. induction Hs as [s|s x s' Hx Hs IH]; [done|]. apply IH.
    + inversion Hx as [a c Hk|a c Hf Hk|a c Hk]; subst; [inversion Hk; subst; try congruence|done|].
      inversion Hk; subst; cbn; rewrite Hw; done.
    + by rewrite (channel_step _ _ _ Hx).
    + inversion Hx as [a c Hk|a c Hf Hk|a c Hk]; subst; [inversion Hk; subst; try congruence|done|].
      inversion Hk; subst; cbn; try done. congruence.
Qed.
End ShutdownTheorems.

(** The attempt to connect to Sensor.  It makes at most 30 polls and then gives
    up: it succeeds exactly when one of the first 30 polls finds the channel
    connected before one finds it shut down, and never waits without end. *)
Theorem attemptGRPCConnection_spec (polls : list poll) (Hpolls : (30 <= length polls)%nat) :
  let '(r, n) := attemptGRPCConnection polls in
  (n <= 30)%nat
  /\ match r with
     | Ready => exists k, (k < 30)%nat /\ n = S k /\ polls !! k = Some None /\ Forall (fun p => p = Some CONNECTING) (take k polls)
     | Fatal => exists k, (k < 30)%nat /\ n = S k /\ polls !! k = Some (Some SHUTDOWN)
                          /\ Forall (fun p => p = Some CONNECTING) (take k polls)
     | NotReady => n = 30%nat /\ Forall (fun p => p = Some CONNECTING) (take 30 polls)
     | StillWaiting => False
     end.
Proof.
  assert (Hfirst : forall m, (m <= 30)%nat ->
    Forall (fun p => p = Some CONNECTING) (take m polls)
    \/ exists k p, (k < m)%nat /\ polls !! k = Some p /\ p <> Some CONNECTING
                   /\ Forall (fun p => p = Some CONNECTING) (take k polls)).
  { induction m as [|m IH]; intros Hm; [left; constructor|].
    destruct (IH ltac:(lia)) as [Hall|(k & p & Hk & Hr)]; [|right; exists k, p; split; [lia|done]].
    destruct (lookup_lt_is_Some_2 polls m) as [p Hp]; [lia|].
    destruct (decide (p = Some CONNECTING)) as [->|Hne]; [left|right; exists m, p; auto].
    rewrite (take_S_r _ _ _ Hp). apply Forall_app. split; [done|]. by constructor. }
  unfold attemptGRPCConnection, MAX_GRPC_CONNECTION_POLLS.
  destruct (Hfirst 30%nat) as [Hall|(k & p & Hk & Hp & Hne & Hall)]; [lia| |].
  - rewrite (attempt_polls 30 polls) by (done || lia).
    replace (30 - Z.of_nat 30) with 0 by lia. destruct (drop 30 polls); cbn; split; try lia; done.
  - rewrite (attempt_polls k polls) by (done || (apply lookup_lt_Some in Hp; lia)).
    rewrite (drop_S _ _ _ Hp). cbn [WaitForChannelReady]. unfold poll_check at 1.
    rewrite (proj2 (Z.eqb_neq _ 0)) by lia.
    destruct p as [[|]|]; try done; cbn; (split; [lia|]); exists k; split_and!; try done; lia.
Qed.

(** The system calls asked of the driver.  The set has the exit and scheduling
    tracepoints and exactly the codes of the system calls behind the events of the
    configured names, except that a system call with number 0 is taken for an event
    without one and left out; a name that is no event's ends the start-up. *)
Theorem GetSyscallList_spec `{Driver} (ppm_sc : Z -> Z) (exit_code switch_code : Z) (n : EventNames) (names : list str) :
  match GetSyscallList ppm_sc exit_code switch_code n names with
  | Some sc => forall x, Contains sc x = true <-> x = exit_code \/ x = switch_code \/ named_code ppm_sc n names x
  | None => add_syscalls ppm_sc n names [] = None
  end
  /\ (forall name, In name names -> GetEventIDs n name = None -> GetSyscallList ppm_sc exit_code switch_code n names = None)
  /\ (forall name id, GetEventIDs n name = Some [id] -> GetEventSyscallID n id = Some 0 ->
        GetSyscallList ppm_sc exit_code switch_code n [name]
        = GetSyscallList ppm_sc exit_code switch_code n []).
Proof.
  unfold GetSyscallList. split_and!.
  - destruct (add_syscalls ppm_sc n names []) as [sc|] eqn:E; [|done]. intros x.
    destruct (add_syscalls_spec ppm_sc n names [] sc x (wf_nil _) E) as [Hw Hx].
    destruct (add_sc_spec sc exit_code x Hw) as [Hw1 Hx1]. destruct (add_sc_spec _ switch_code x Hw1) as [_ Hx2].
    rewrite Hx2, Hx1, Hx. assert (Contains (K := Z) (V := unit) [] x = false) as -> by done. naive_solver.
  - intros name Hin Hno. assert (Hadd : forall sc, add_syscalls ppm_sc n names sc = None); [|by rewrite Hadd].
    induction names as [|x names IH]; [done|]. intros sc. cbn [add_syscalls].
    destruct Hin as [->|Hin]; [by rewrite Hno|]. repeat case_match; auto.
  - intros name id Hi Hs. cbn [add_syscalls]. rewrite Hi. cbn [add_events]. by rewrite Hs.
Qed.

(** The pool of the arena allocator grows to a multiple of the default size that holds
    what was used. *)
Lemma Reset_pool_spec used size :
  0 <= used < 2 ^ 63 -> 0 <= size ->
  used <= Reset_pool used size /\ size <= Reset_pool used size
  /\ (Reset_pool used size = size \/ exists k, Reset_pool used size = k * kDefaultPoolSize).
Proof.
  intros Hu Hs. unfold Reset_pool, kDefaultPoolSize. destruct (Z.ltb_spec size used) as [Hlt|Hge]; [|lia].
  pose proof (Z.div_mod used 524288 ltac:(lia)). pose proof (Z.mod_pos_bound used 524288 ltac:(lia)).
  unfold wrap. rewrite Z.mod_small by lia. split_and!; [lia|lia|]. right. by eexists.
Qed.

(** A report less than a second after the last one gives no rate, and the connections
    it counted are in no later rate either. *)
Lemma rate_skipped total current now r s last :
  connections_rate_reporter_ r = Some s -> connections_rate_counter_last_ r = Some last ->
  connections_last_report_time_ r <= now < connections_last_report_time_ r + 1000000000 ->
  connections_rate_reporter_ (ReportConnectionStats total current now r) = Some s
  /\ connections_rate_counter_last_ (ReportConnectionStats total current now r) = Some current.
Proof.
  intros Es El Ht. unfold ReportConnectionStats. rewrite Es, El, Z.quot_small by lia. done.
Qed.

(** Every handler has a route of its own, and without introspection the state of the
    collector has none. *)
Lemma civet_routes_distinct b : NoDup (civet_routes b).
Proof. apply (bool_decide_unpack _). destruct b; vm_compute; exact I. Qed.

(** The tracker can be set up with any networks, and its tables satisfy the tracker's invariant. *)
Lemma CollectorService_tracker_ok `{HostEndian} channel disabled pairs ignored nonagg :
  Forall wf_net ignored -> Forall wf_net nonagg ->
  exists o, CollectorService_tracker channel disabled pairs ignored nonagg = Some o
    /\ (o = None <-> channel = true /\ disabled = true) /\ forall t, o = Some t -> tracker_ok t.
Proof.
  intros Hi Hn. unfold CollectorService_tracker.
  destruct (negb channel || negb disabled) eqn:E.
  - destruct (exec_all_ok ConnectionTracker_new
                [OpUpdateIgnoredL4ProtoPortPairs pairs; OpUpdateIgnoredNetworks ignored; OpUpdateNonAggregatedNetworks nonagg])
      as (t & Et & Hok); [apply tracker_ok_new|by repeat constructor|].
    cbn [exec_all exec] in Et.
    destruct (UpdateIgnoredNetworks _ _) as [t1|]; [|done]. destruct (UpdateNonAggregatedNetworks t1 _) as [t2|]; [|done].
    injection Et as <-. eexists. split_and!; [done| |by intros ? [= <-]].
    split; [done|]. intros [-> ->]. done.
  - eexists. split_and!; [done| |done]. destruct channel, disabled; naive_solver.
Qed.

Module Witnesses.
Import NotifierThread.

Lemma fresh_pipe_3_4 : fresh_pipe (3, 4) [0; 1; 2].
Proof. unfold fresh_pipe. cbn. split_and!; [done|set_solver by lia..]. Qed.

Definition quick : stop_input := mkStopInput [Interrupted true; Closed] true Closed.

Lemma quick_closes : closes_ok quick.
Proof. split; [right; left; exact I|]. split; [repeat constructor; discriminate|reflexivity]. Qed.

Lemma StoppableThread_cycle_witness :
  exists t1 t2,
    Start (Some (3, 4)) (thread_new (0, 0)) [0; 1; 2] = (true, t1, [3; 4; 0; 1; 2])
    /\ Stop quick t1 [3; 4; 0; 1; 2] = Finishes (t2, [0; 1; 2])
    /\ running t2 = false.
Proof.
  destruct (StoppableThread_cycle (thread_new (0, 0)) [0; 1; 2] (3, 4) (5, 6) quick
              eq_refl fresh_pipe_3_4 quick_closes) as (t1 & t2 & E1 & _ & _ & _ & E2 & E3 & _).
  exists t1, t2. split_and!; [exact E1|exact E2|exact E3].
Defined.

(** All threads return; the notifier does not. *)
Definition all_quick : stop_inputs := mkStopInputs quick quick quick.
Definition notifier_stuck : stop_inputs := mkStopInputs quick (mkStopInput [Closed] false Closed) quick.

Lemma all_quick_closes : all_close all_quick.
Proof. split_and!; exact quick_closes. Qed.

Lemma notifier_stuck_closes : all_close notifier_stuck.
Proof.
  split_and!; [exact quick_closes| |exact quick_closes]. split; [left; exact I|]. split; [repeat constructor; discriminate|reflexivity].
Qed.

Lemma service_threads_witness :
  exists s1 open1 s2,
    start_threads (mkPipes (Some (3, 4)) (Some (5, 6)) (Some (7, 8)))
      (CollectorService_threads true false (0, 0)) [0; 1; 2] = Some (s1, open1)
    /\ stop_threads all_quick s1 open1 = Finishes (s2, [0; 1; 2])
    /\ stop_threads notifier_stuck s1 open1 = Hangs.
Proof.
  destruct (service_threads_spec true false (0, 0) (3, 4) (5, 6) (7, 8) [0; 1; 2] fresh_pipe_3_4)
    as ((s1 & open1 & s2 & E1 & _ & _ & Hn & E2) & _).
  - unfold fresh_pipe. cbn. split_and!; [done|set_solver by lia..].
  - unfold fresh_pipe. cbn. split_and!; [done|set_solver by lia..].
  - exists s1, open1, s2. split; [exact E1|]. rewrite (E2 all_quick all_quick_closes), (E2 notifier_stuck notifier_stuck_closes).
    unfold all_return. destruct (net_status_notifier_ s1) as [n|]; [split; reflexivity|].
    destruct (proj1 Hn eq_refl) as [_ E]. discriminate E.
Defined.

(** The thread waits for its next attempt when it is told to stop. *)
Definition paused : state := mkState true None true PauseWait Joining.

Lemma paused_reachable : reachable true paused.
Proof.
  unfold reachable, init.
  eapply rtc_l; [apply step_work, work_check_go; reflexivity|].
  eapply rtc_l; [apply step_stop, stop_cancel; reflexivity|].
  eapply rtc_l; [apply step_stop, stop_store; reflexivity|].
  eapply rtc_l; [apply step_stop, stop_notify; reflexivity|].
  apply rtc_once, step_work, (work_block (mkState _ _ _ _ _)). reflexivity.
Qed.


(** The sixth poll succeeds. *)
Definition sample_polls : list poll := replicate 5 (Some CONNECTING) ++ replicate 25 None.

Lemma attempt_witness :
  attemptGRPCConnection sample_polls = (Ready, 6%nat)
  /\ exists k, (k < 30)%nat /\ 6%nat = S k /\ sample_polls !! k = Some None.
Proof.
  assert (E : attemptGRPCConnection sample_polls = (Ready, 6%nat)) by reflexivity. split; [exact E|].
  assert (Hl : (30 <= length sample_polls)%nat) by (cbn; lia).
  pose proof (attemptGRPCConnection_spec sample_polls Hl) as Ha. rewrite E in Ha.
  destruct Ha as (_ & k & Hk & En & Hp & _). exists k. split_and!; assumption.
Defined.
End Witnesses.
