(* ===== verification/Main.v ===== *)
(** * The program

    [collector.cpp] from [main] to its return, with the channel to Sensor that [GRPC.cpp] builds,
    [NetworkConnectionInfoServiceComm.cpp], the loop of [CollectorService::RunForever] interleaved with the
    handler of shutdown signals, and the test program [connscrape.cpp].

    The service is written against the interface of [SystemInspector.h], a type class;
    [Service_inspector] gives the class for the service of [Service.v].  Objects of gRPC are
    the calls that make them. *)

From S2P Require Import Prelude Containers Utility Stats IPNet Process Connection ConnTracker Events NetSignals ProcSignals Service ConfigParser Inotify ConfigLoader OptionParser Host Config Args Logging InspectorSetup Metrics Introspection Lifecycle.

Open Scope Z_scope.
Open Scope collector_scope.

(** ** The channel *)

Record FileWatcherCertificateProvider := mkProvider {
  private_key_path : str;
  identity_certificate_path : str;
  root_cert_path : str;
  refresh_interval_sec : Z
}.

(** [TlsChannelCredentialsOptions]: what the two setters stored. *)
Record TlsChannelCredentialsOptions := mkOptions {
  root_certificate_provider : option FileWatcherCertificateProvider;
  identity_certificate_provider : option FileWatcherCertificateProvider
}.

Inductive ChannelCredentials := InsecureChannelCredentials | TlsCredentials (options : TlsChannelCredentialsOptions).

Definition TLSCredentialsFromConfig (config : TlsConfig) : ChannelCredentials :=
  let provider := mkProvider (clientKey_ config) (clientCert_ config) (ca_ config) 60 in
  let options := mkOptions None None in
  let options := mkOptions (Some provider) (identity_certificate_provider options) in
  let options := mkOptions (root_certificate_provider options) (Some provider) in
  TlsCredentials options.

(** A call on the [ChannelArguments]. *)
Inductive channel_arg := SetInt (key : str) (value : Z) | SetSslTargetNameOverride (name : str).

Record Channel := mkChannel { target : str; creds : ChannelCredentials; chan_args : list channel_arg }.

Definition CreateChannel (server_address hostname_override : str) (creds : ChannelCredentials) : Channel :=
  let chan_args :=
    [ SetInt (lit "GRPC_ARG_KEEPALIVE_TIME_MS") 10000;
      SetInt (lit "GRPC_ARG_KEEPALIVE_TIMEOUT_MS") 10000;
      SetInt (lit "GRPC_ARG_KEEPALIVE_PERMIT_WITHOUT_CALLS") 1;
      SetInt (lit "GRPC_ARG_HTTP2_BDP_PROBE") 1;
      SetInt (lit "GRPC_ARG_HTTP2_MIN_RECV_PING_INTERVAL_WITHOUT_DATA_MS") 5000;
      SetInt (lit "GRPC_ARG_HTTP2_MIN_SENT_PING_INTERVAL_WITHOUT_DATA_MS") 10000;
      SetInt (lit "GRPC_ARG_HTTP2_MAX_PINGS_WITHOUT_DATA") 0 ] in
  let chan_args :=
    if negb (empty hostname_override) then chan_args ++ [SetSslTargetNameOverride hostname_override] else chan_args in
  mkChannel server_address creds chan_args.

(** [createChannel]: the channel and the lines logged; without an address the optional is used
    although it is empty. *)
Definition createChannel `{Host} (u : UserConfig) : option (Channel * list str) :=
  let! grpc_server := grpc_server_ u in
  let lines := [lit "Sensor configured at address: " ++ grpc_server] in
  let '(creds, lines) :=
    match tls_config_ u with
    | Some t =>
        if TlsConfig_IsValid t then (TLSCredentialsFromConfig t, lines)
        else (InsecureChannelCredentials,
              lines ++ [lit "Partial TLS config: CACertPath=" ++ quoted (ca_ t) ++ lit ", ClientCertPath=" ++ quoted (clientCert_ t)
                        ++ lit ", ClientKeyPath=" ++ quoted (clientKey_ t) ++ lit "; will not use TLS"])
    | None => (InsecureChannelCredentials, lines)
    end in
  Some (CreateChannel grpc_server (GetSNIHostname (getenv (lit "SNI_HOSTNAME"))) creds, lines).

(** ** Communication with Sensor *)

Definition kHostnameMetadataKey : str := lit "rox-collector-hostname".
Definition kCapsMetadataKey : str := lit "rox-collector-capabilities".
Definition kSupportedCaps : str := lit "public-ips,network-graph-external-srcs".

(** A [ClientContext]: the metadata added to it, and whether it was cancelled. *)
Record ClientContext := mkContext { metadata : list (str * str); cancelled : bool }.

Definition AddMetadata (key value : str) (ctx : ClientContext) : ClientContext :=
  mkContext (metadata ctx ++ [(key, value)]) (cancelled ctx).

Definition CreateClientContext (hostname : str) : ClientContext :=
  let ctx := mkContext [] false in
  let ctx := AddMetadata kHostnameMetadataKey hostname ctx in
  AddMetadata kCapsMetadataKey kSupportedCaps ctx.

(** The members; [stub_]: the channel the stub was made for. *)
Record NetworkConnectionInfoServiceComm := mkComm {
  comm_channel : option Channel;
  stub_ : option Channel;
  comm_context : option ClientContext
}.

Definition Comm_ctor (channel : option Channel) : NetworkConnectionInfoServiceComm :=
  mkComm channel (match channel with Some c => Some c | None => None end) None.

Definition ResetClientContext (hostname : str) (c : NetworkConnectionInfoServiceComm) : NetworkConnectionInfoServiceComm :=
  mkComm (comm_channel c) (stub_ c) (Some (CreateClientContext hostname)).

(** Without a channel there is nothing to wait for. *)
Definition WaitForConnectionReady {St} (check : St -> bool * St) (s : St) (polls : list poll) (c : NetworkConnectionInfoServiceComm)
    : wait_result :=
  match comm_channel c with
  | None => Ready
  | Some _ => (WaitForChannelReady check s polls).1
  end.

Definition TryCancel (c : NetworkConnectionInfoServiceComm) : NetworkConnectionInfoServiceComm :=
  mkComm (comm_channel c) (stub_ c)
    (match comm_context c with Some ctx => Some (mkContext (metadata ctx) true) | None => None end).

(** The writer of a stream: a call on the channel under a context, or the standard output. *)
Inductive writer := DuplexClientWriter (channel : Channel) (context : option ClientContext) | StdoutDuplexClientWriter.

Definition PushNetworkConnectionInfoOpenStream (hostname : str) (c : NetworkConnectionInfoServiceComm)
    : NetworkConnectionInfoServiceComm * writer :=
  let c := match comm_context c with None => ResetClientContext hostname c | Some _ => c end in
  (c, match comm_channel c with Some channel => DuplexClientWriter channel (comm_context c) | None => StdoutDuplexClientWriter end).

(** ** Core dumps *)

Inductive rlim : Set := Limit (bytes : Z) | RLIM_INFINITY.

(** [setCoreDumpLimit]: the limits asked for and the lines logged; [result] is that of [setrlimit]. *)
Definition setCoreDumpLimit (enableCoreDump : bool) (result : option str) : (rlim * rlim) * list str :=
  let limit := (Limit 0, Limit 0) in
  let '(limit, lines) :=
    if enableCoreDump then ((RLIM_INFINITY, RLIM_INFINITY), [lit "Attempting to enable core dumps"])
    else (limit, [lit "Core dumps not enabled"]) in
  (limit, lines ++ match result with Some error => [lit "Failed to enable core dumps: " ++ error] | None => [] end).

(** ** The interface of the system inspector *)

(** [si_pass]: what a pass of the loop of [Run] obtains from outside; [si_initialized]: [Run] throws
    without it; [si_AddNetworkHandler]: [AddSignalHandler] with the handler of network events.
    [None] is the end of the process. *)
Class SystemInspector (S : Type) := {
  si_pass : Type;
  si_initialized : S -> bool;
  si_AddNetworkHandler : ConnectionTracker -> NetworkSignalHandler -> S -> option S;
  si_InitKernel : CollectorConfig -> S -> option (bool * S);
  si_Start : S -> option S;
  si_Run_pass : si_pass -> S -> option S;
  si_CleanUp : S -> option S
}.

(** The passes of calls of [Run]. *)
Definition si_Run {S} `{SystemInspector S} (passes : list si_pass) (s : S) : option S :=
  fold_left (fun s p => match s with Some s => si_Run_pass p s | None => None end) passes (Some s).

(** [StdoutSignalServiceClient], the client without a channel: messages are logged; starting and stopping it do
    nothing.  [json] is the conversion of the message. *)
Definition Stdout_PushSignals (json : str + str) (now : Z) (l : logging) : outcome * SignalHandler.Result :=
  (LogProtobufMessage json now l, SignalHandler.PROCESSED).

(** *** Construction of the service *)

(** The calls that set up the inspector; the filter is [InspectorSetup.filter]. *)
Inductive sinsp_setting :=
| set_snaplen (len : Z)
| set_min_log_severity (severity : Z)
| disable_log_timestamps
| set_log_callback
| set_import_users (import_users : bool)
| set_thread_timeout_s (seconds : Z)
| set_auto_threads_purging_interval_s (seconds : Z)
| set_max_thread_table_size (size : Z)
| set_track_connection_status (enabled : bool)
| set_filter.

Definition inspector_settings (level : LogLevel) (c : CollectorConfig) : list sinsp_setting :=
  [ set_snaplen 0; set_min_log_severity (LogLevel_value level); disable_log_timestamps; set_log_callback;
    set_import_users (import_users_ (flags c)); set_thread_timeout_s 30; set_auto_threads_purging_interval_s 60;
    set_max_thread_table_size (sinsp_thread_cache_size_ (sinsp c)) ]
  ++ (if Config.collect_connection_status_ (flags c) then [set_track_connection_status true] else [])
  ++ [set_filter].

Section Constructor.
Context `{HostEndian} `{Driver} `{Inspector} `{Environment} (n : EventNames) (m : EventMap ProcessSignalType).

(** The constructor with a channel: the settings and the service with its three handlers; [now] is the time the self
    checks start to count from.  The tracker is set when the handler of network events is added. *)
Definition Service_ctor (level : LogLevel) (now : Z) (c : CollectorConfig) : option (list sinsp_setting * Service World) :=
  let settings := inspector_settings level c in
  let none := replicate PPM_EVENT_MAX false in
  let zeros := replicate PPM_EVENT_MAX 0 in
  let! (handlers, global) := AddSignalHandler n SelfCheckProcess_GetRelevantEvents (self_check_process_entry (SelfCheckHandler_new now)) [] none in
  let! (handlers, global) := AddSignalHandler n SelfCheckNetwork_GetRelevantEvents (self_check_network_entry (SelfCheckHandler_new now)) handlers global in
  let! (handlers, global) := AddSignalHandler n GetRelevantEvents (process_entry m) handlers global in
  if (length handlers =? 2)%nat then None
  else Some (settings, mkService true handlers global (mkEventStats zeros zeros zeros zeros) [] [] (mkWorld ProcessSignalHandler_new ConnectionTracker_new now)).

(** Every event a handler wants is in the filter that is applied before the handlers. *)
Definition filters_ok (handlers : list (SignalHandlerEntry World)) (global : list bool) : Prop :=
  length global = PPM_EVENT_MAX /\
  Forall (fun e => length (event_filter e) = PPM_EVENT_MAX /\ forall i, nth i (event_filter e) false = true -> nth i global false = true) handlers.

Lemma nth_insert_true (f : list bool) id i : nth i (<[id := true]> f) false = (if decide (i = id /\ (id < length f)%nat) then true else nth i f false).
Proof.
  rewrite !nth_lookup. destruct (decide (i = id)) as [->|Hi].
  - destruct (decide (id < length f)%nat) as [Hl|Hl].
    + rewrite list_lookup_insert_eq by done. by rewrite decide_True.
    + rewrite list_insert_ge by lia. rewrite decide_False by tauto. done.
  - rewrite list_lookup_insert_ne by done. rewrite decide_False by tauto. done.
Qed.

Lemma set_ids_ok ids : forall f g : list bool, length f = length g -> (forall i, nth i f false = true -> nth i g false = true) ->
  let f' := fold_left (fun f id => <[id := true]> f) ids f in
  let g' := fold_left (fun f id => <[id := true]> f) ids g in
  length f' = length f /\ length g' = length g /\ (forall i, nth i f' false = true -> nth i g' false = true)
  /\ (forall i, nth i g false = true -> nth i g' false = true).
Proof.
  induction ids as [|id ids IH]; intros f g Hl Hfg; [done|]. cbn [fold_left].
  destruct (IH (<[id := true]> f) (<[id := true]> g)) as (Hf & Hg & Hi & Hm).
  - by rewrite !length_insert.
  - intros i. rewrite !nth_insert_true, Hl. destruct (decide _); auto.
  - rewrite length_insert in Hf, Hg. split_and!; [done..|]. intros i Hgi. apply Hm. rewrite nth_insert_true. by destruct (decide _).
Qed.

Lemma set_events_ok names : forall f g f' g', length f = length g -> (forall i, nth i f false = true -> nth i g false = true) ->
  set_events n names (f, g) = Some (f', g') ->
  length f' = length f /\ length g' = length g /\ (forall i, nth i f' false = true -> nth i g' false = true)
  /\ (forall i, nth i g false = true -> nth i g' false = true).
Proof.
  induction names as [|name names IH]; intros f g f' g' Hl Hfg E; cbn [set_events] in E; [by injection E as <- <-|].
  destruct (GetEventIDs n name) as [ids|]; [|done]. destruct (set_ids_ok ids f g Hl Hfg) as (Hf1 & Hg1 & Hi1 & Hm1). cbn [fst snd] in E.
  destruct (IH _ _ _ _ ltac:(by rewrite Hf1, Hg1) Hi1 E) as (Hf2 & Hg2 & Hi2 & Hm2). split_and!; [by rewrite Hf2|by rewrite Hg2|done|auto].
Qed.

Lemma AddSignalHandler_ok names h handlers global handlers' global' :
  names <> [] -> (forall f, event_filter (h f) = f) -> filters_ok handlers global ->
  AddSignalHandler n names h handlers global = Some (handlers', global') ->
  filters_ok handlers' global' /\ exists f, handlers' = handlers ++ [h f].
Proof.
  intros Hn Hh [Hl Hf] E. unfold AddSignalHandler in E. destruct names as [|name names]; [done|].
  destruct (set_events _ _ _) as [[f g]|] eqn:Es; [|done]. injection E as <- <-.
  apply set_events_ok in Es as (Hfl & Hgl & Hi & Hm); [|by rewrite length_replicate|].
  2: { intros i. rewrite nth_lookup. destruct (replicate _ _ !! i) as [b|] eqn:Eb; [|done]. apply lookup_replicate in Eb as [-> _]. done. }
  split; [|by exists f]. split; [by rewrite Hgl|]. apply Forall_app. split; [|constructor; [|constructor]].
  - eapply Forall_impl; [exact Hf|]. intros e [? He]. split; [done|]. auto.
  - rewrite Hh. split; [by rewrite Hfl, length_replicate|done].
Qed.

End Constructor.

(** The service of [Service.cpp] behind the interface; [start] gives the start function of a handler,
    [capture] starts the capture and the self check. *)
Section Implementation.
Context `{HostEndian} `{Driver} `{ThreadTable}.
Context (open_modern_bpf : umap Z unit -> bool) (ppm_sc : Z -> Z) (exit_code switch_code : Z) (n : EventNames) (m : EventMap Modifier.t).
Context (start : SignalHandlerEntry World -> World -> bool * World) (capture : World -> World).
Context (is_rhel76 : bool) (get_thread : Z -> option sinsp_threadinfo).

Definition with_shared (s : Service World) (w : World) : Service World :=
  mkService (inspector_ s) (signal_handlers_ s) (global_event_filter_ s) (userspace_stats_ s) (pending_process_requests_ s) (answers s) w.

Definition add_network_handler (t : ConnectionTracker) (h : NetworkSignalHandler) (s : Service World) : option (Service World) :=
  let! (handlers, global) :=
    AddSignalHandler n (net_GetRelevantEvents h) (network_entry m h) (signal_handlers_ s) (global_event_filter_ s) in
  Some (mkService (inspector_ s) handlers global (userspace_stats_ s) (pending_process_requests_ s) (answers s)
          (mkWorld (w_process (shared s)) t (w_steady (shared s)))).

Definition start_service (s : Service World) : option (Service World) :=
  match Service_Start (inspector_ s) (map (fun e => (GetName e, start e)) (signal_handlers_ s)) capture (shared s) with
  | Runs w => Some (with_shared s w)
  | Throws | Fails _ _ => None
  end.

#[export] Instance Service_inspector : SystemInspector (Service World) := {
  si_pass := pass;
  si_initialized := inspector_;
  si_AddNetworkHandler := add_network_handler;
  si_InitKernel c s := let! ok := InitKernel ppm_sc exit_code switch_code open_modern_bpf n (syscalls_ c) in Some (ok, s);
  si_Start := start_service;
  si_Run_pass := Run_pass log_counters is_rhel76 get_thread;
  si_CleanUp := CleanUp
}.
End Implementation.

(** ** The loop of [RunForever] and the shutdown signals *)

Inductive ControlValue : Set := RUN | STOP_COLLECTOR.

#[export] Instance ControlValue_eq_dec : EqDecision ControlValue.
Proof. solve_decision. Defined.

(** Where the main thread is: before the test of the outer loop, before that of the loop in
    [Run], before the load of the signal, and behind it with what it read. *)
Inductive position : Set := OuterTest | InnerTest | LoadSignal | Finished (caught : option signal).

#[export] Instance signal_eq_dec : EqDecision signal.
Proof. solve_decision. Defined.
#[export] Instance position_eq_dec : EqDecision position.
Proof. solve_decision. Defined.

(** The signal handlers [main] registers. *)
Inductive sighandler : Set := OnAbort | OnShutdown.

Definition signal_handlers : list (signal * sighandler) :=
  [(SIGABRT, OnAbort); (SIGSEGV, OnAbort); (SIGTERM, OnShutdown); (SIGINT, OnShutdown)].

Section Loop.
Context {S : Type} `{SystemInspector S}.

(** The two atomic variables, [None] being the signal number 0; the handlers that have stored the
    signal and not yet the control value; the main thread and the inspector. *)
Record loop := mkLoop {
  g_control : ControlValue;
  g_signum : option signal;
  in_handler : list signal;
  at_ : position;
  inspector : S
}.

Definition at_position (p : position) (l : loop) : loop := mkLoop (g_control l) (g_signum l) (in_handler l) p (inspector l).

(** The main thread.  A pass or a call of [Run] that ends the process has no step. *)
Inductive main_step : loop -> loop -> Prop :=
| outer_run l : at_ l = OuterTest -> g_control l <> STOP_COLLECTOR -> si_initialized (inspector l) = true -> main_step l (at_position InnerTest l)
| outer_stop l : at_ l = OuterTest -> g_control l = STOP_COLLECTOR -> main_step l (at_position LoadSignal l)
| inner_pass l p s : at_ l = InnerTest -> g_control l = RUN -> si_Run_pass p (inspector l) = Some s ->
    main_step l (mkLoop (g_control l) (g_signum l) (in_handler l) InnerTest s)
| inner_stop l : at_ l = InnerTest -> g_control l <> RUN -> main_step l (at_position OuterTest l)
| load_signal l : at_ l = LoadSignal -> main_step l (at_position (Finished (g_signum l)) l).

(** The two stores of [ShutdownHandler], which can be called for a further signal between them. *)
Inductive ShutdownHandler : loop -> loop -> Prop :=
| store_signum l n : (n, OnShutdown) ∈ signal_handlers ->
    ShutdownHandler l (mkLoop (g_control l) (Some n) (n :: in_handler l) (at_ l) (inspector l))
| store_control l n before after : in_handler l = before ++ n :: after ->
    ShutdownHandler l (mkLoop STOP_COLLECTOR (g_signum l) (before ++ after) (at_ l) (inspector l)).

Inductive loop_step (l l' : loop) : Prop :=
| step_main : main_step l l' -> loop_step l l'
| step_signal : ShutdownHandler l l' -> loop_step l l'.

(** The handlers are registered before the service is made, so a signal may have come before. *)
Definition RunForever_start (control : ControlValue) (signum : option signal) (handlers : list signal) (s : S) : loop :=
  mkLoop control signum handlers OuterTest s.

Definition shutdown_signal (n : option signal) : Prop := n = Some SIGTERM \/ n = Some SIGINT.

(** The invariant: a stop, or a handler on its way to it, comes with a signal, and what was loaded is one;
    the inspector has made the passes of [Run]. *)
Record loop_inv (s0 : S) (l : loop) : Prop := {
  li_signal : g_signum l = None \/ shutdown_signal (g_signum l);
  li_handlers : in_handler l <> [] -> shutdown_signal (g_signum l);
  li_stop : g_control l = STOP_COLLECTOR -> shutdown_signal (g_signum l);
  li_load : at_ l = LoadSignal -> g_control l = STOP_COLLECTOR;
  li_caught n : at_ l = Finished n -> shutdown_signal n /\ g_control l = STOP_COLLECTOR;
  li_passes : exists passes, si_Run passes s0 = Some (inspector l)
}.

Lemma si_Run_snoc passes p s : si_Run (passes ++ [p]) s = match si_Run passes s with Some s => si_Run_pass p s | None => None end.
Proof. unfold si_Run. by rewrite fold_left_app. Qed.

Lemma registered_shutdown n : (n, OnShutdown) ∈ signal_handlers -> shutdown_signal (Some n).
Proof.
  intros Hn. apply list_elem_of_In in Hn. cbn in Hn. destruct_or?; simplify_eq; [by left|by right].
Qed.

Lemma loop_inv_start s : loop_inv s (RunForever_start RUN None [] s).
Proof. split; cbn; [by left|done..|]. by exists []. Qed.

Lemma loop_inv_step s0 l l' : loop_step l l' -> loop_inv s0 l -> loop_inv s0 l'.
Proof.
  intros [Hm|Hs] [Hg Hh Hc Hl Hf [passes Hp]].
  - destruct Hm as [l Ea E Ei|l Ea E|l p s Ea E Es|l Ea E|l Ea]; split; cbn; try done; try (by exists passes); try congruence.
    + exists (passes ++ [p]). by rewrite si_Run_snoc, Hp.
    + intros n [= <-]. auto.
  - destruct Hs as [l n Hn|l n before after Eh].
    + apply registered_shutdown in Hn as Hs.
      split; cbn; [by right|done..|]. by exists passes.
    + assert (shutdown_signal (g_signum l)) as Hs by (apply Hh; rewrite Eh; by destruct before).
      split; cbn; [by right|done..| |by exists passes]. intros k Ek. by destruct (Hf k Ek).
Qed.

Lemma loop_inv_reachable s0 l l' : rtc loop_step l l' -> loop_inv s0 l -> loop_inv s0 l'.
Proof. induction 1; [done|]. eauto using loop_inv_step. Qed.

(** The steps the main thread has left once it is told to stop. *)
Definition left_over (p : position) : nat :=
  match p with InnerTest => 3 | OuterTest => 2 | LoadSignal => 1 | Finished _ => 0 end.

Lemma stopping_step l l' : main_step l l' -> g_control l = STOP_COLLECTOR ->
  left_over (at_ l) = Datatypes.S (left_over (at_ l')) /\ g_control l' = STOP_COLLECTOR /\ inspector l' = inspector l.
Proof. intros [k Ea E|k Ea|k p s Ea E|k Ea|k Ea] Hc; rewrite ?Ea; cbn; try done; congruence. Qed.

Lemma stopping_ends n l l' : nsteps main_step n l l' -> g_control l = STOP_COLLECTOR -> (n + left_over (at_ l') = left_over (at_ l))%nat.
Proof.
  induction 1 as [|n x y z Hxy _ IH]; intros Hc; [done|]. apply stopping_step in Hxy as (E & Hc' & _); [|done]. rewrite E, <- IH by done. lia.
Qed.

Lemma stopping_goes l : g_control l = STOP_COLLECTOR -> exists n, rtc main_step l (at_position (Finished n) l) /\
  (g_signum l = n \/ at_ l = Finished n).
Proof.
  intros Hc. destruct l as [c g h p s]; cbn in Hc; subst c. set (at_p p := mkLoop STOP_COLLECTOR g h p s).
  assert (rtc main_step (at_p LoadSignal) (at_p (Finished g))) as Hload by (apply rtc_once; by apply (load_signal (at_p LoadSignal))).
  assert (rtc main_step (at_p OuterTest) (at_p (Finished g))) as Houter by (eapply rtc_l; [by apply (outer_stop (at_p OuterTest))|done]).
  destruct p as [| | |n]; [exists g; split; [|by left]..|by exists n; split; [|right]]; [exact Houter| |exact Hload].
  eapply rtc_l; [by apply (inner_stop (at_p InnerTest))|exact Houter].
Qed.

End Loop.
Arguments loop : clear implicits.

(** ** The service *)

Section CollectorService.
Context `{HostEndian} {S : Type} `{SystemInspector S}.

Record CollectorService := mkCollectorService {
  config_ : CollectorConfig;
  system_inspector_ : S;
  conn_tracker_ : option ConnectionTracker;
  threads : Threads;
  civet_endpoints_ : list str
}.

(** The handler of network events as the constructor sets it up. *)
Definition network_handler (c : CollectorConfig) : NetworkSignalHandler :=
  SetTrackSendRecv (Config.track_send_recv_ (flags c))
    (SetCollectConnectionStatus (Config.collect_connection_status_ (flags c)) NetworkSignalHandler_new).

Definition CollectorService_ctor (c : CollectorConfig) (channel : option Channel) (s : S) (garbage : Z * Z) : option CollectorService :=
  let grpc_channel := bool_decide (is_Some channel) in
  let disabled := disable_network_flows_ (networks c) in
  let! tracker := CollectorService_tracker grpc_channel disabled (map (fun p => (p, tt)) (ignored_l4proto_port_pairs_ (networks c)))
                    (Config.ignored_networks_ (networks c)) (Config.non_aggregated_networks_ (networks c)) in
  let! s := match tracker with Some t => si_AddNetworkHandler t (network_handler c) s | None => Some s end in
  Some (mkCollectorService c s tracker (CollectorService_threads grpc_channel disabled garbage)
          (civet_routes (enable_introspection_ (flags c)))).

Definition gplNotice : list str :=
  [ []; lit "This product uses ebpf subcomponents licensed under the GNU";
    lit "GENERAL PURPOSE LICENSE Version 2 outlined in the /kernel-modules/LICENSE file.";
    lit "Source code for the ebpf subcomponents is available at";
    lit "https://github.com/stackrox/falcosecurity-libs/"; [] ].

Definition set_inspector (c : CollectorService) (s : S) : CollectorService :=
  mkCollectorService (config_ c) s (conn_tracker_ c) (threads c) (civet_endpoints_ c).

(** [CollectorService::InitKernel] on the service. *)
Definition collector_InitKernel (c : CollectorService) (d : StartupDiagnostics) : option (bool * CollectorService * StartupDiagnostics) :=
  let! (ok, s) := si_InitKernel (config_ c) (system_inspector_ c) in
  let! (ok, d) := service_InitKernel (Some ok) (CollectionMethodName (collection_method_ (user (config_ c)))) d in
  Some (ok, set_inspector c s, d).

(** [RunForever] up to its loop. *)
Definition RunForever_threads (p : pipes) (c : CollectorService) (open : fds) : option (CollectorService * fds) :=
  let! (ts, open) := start_threads p (threads c) open in
  let! s := si_Start (system_inspector_ c) in
  Some (mkCollectorService (config_ c) s (conn_tracker_ c) ts (civet_endpoints_ c), open).

(** [RunService] up to the loop of [RunForever], with the lines logged. *)
Definition RunService (c : CollectorConfig) (channel : option Channel) (s : S) (garbage : Z * Z) (p : pipes)
    (d : StartupDiagnostics) (open : fds) : option (CollectorService * fds * list str) :=
  let! service := CollectorService_ctor c channel s garbage in
  let! (ok, service, d) := collector_InitKernel service d in
  let lines := if ok : bool then gplNotice else [] in
  let lines := lines ++ (Log d).1 in
  if negb ok then None
  else
    let! (service, open) := RunForever_threads p service open in
    Some (service, open, lines).

(** The destructor: the threads are stopped, then the inspector. *)
Definition CollectorService_dtor (i : stop_inputs) (c : CollectorService) (open : fds) : stop_outcome (S * fds) :=
  and_then (stop_threads i (threads c) open) (fun '(_, open) =>
  match si_CleanUp (system_inspector_ c) with Some s => Finishes (s, open) | None => Dies end).

End CollectorService.
Arguments CollectorService : clear implicits.

(** ** main *)

Section Program.
Context `{HostEndian} `{Host} `{Platform} `{Json} {W : Type} `{Kernel W} `{FileSystem W} `{Yaml} (config_fields : list field).

(** What [main] has when it registers the signal handlers. *)
Record prepared := mkPrepared {
  pr_config : CollectorConfig;
  pr_channel : option Channel;
  pr_limit : rlim * rlim;
  pr_diagnostics : StartupDiagnostics
}.

(** Lines 140-193.  [lock_free]: whether the control variable is; [polls]: the answers of the
    channel. *)
Definition main_start (lock_free : bool) (O B argc : Z) (argv : list (option cptr)) (k : W) (host : HostInfo)
    (garbage inotify_fd : Z) (rlimit : option str) (polls : list poll) : option prepared :=
  let! (_, host) := GetDistro host in
  let! (_, host) := GetKernelVersion host in
  let! (_, host) := GetKernelVersion host in
  if negb lock_free then None
  else
    let! (c, host, k) := main_config config_fields O B argc argv k host garbage inotify_fd in
    let '(limit, _) := setCoreDumpLimit (enable_core_dump_ (networks c)) rlimit in
    let useGRPC := bool_decide (is_Some (grpc_server_ (user c))) in
    let! sensor_connection :=
      if useGRPC then (let! (channel, _) := createChannel (user c) in Some (Some channel)) else Some None in
    let! d := (connect_to_sensor useGRPC polls StartupDiagnostics_new).2 in
    Some (mkPrepared c sensor_connection limit d).

(** The end of [main], when [RunForever] has returned with the inspector [s]: the service is
    destroyed, and [main] returns 0. *)
Definition main_end {S} `{SystemInspector S} (i : stop_inputs) (service : CollectorService S) (s : S) (open : fds) : stop_outcome (Z * fds) :=
  and_then (CollectorService_dtor i (set_inspector service s) open) (fun '(_, open) => Finishes (0, open)).

End Program.

(** ** connscrape *)

(** The test program: [Scrape] is the scraper, of a directory and with or without the vector for the
    endpoints; the lines on the standard output and the standard error, and the exit code. *)
Definition connscrape_main `{HostEndian} (inet_ntop : Z -> list Z -> option str) (scrape_endpoints : bool)
    (Scrape : str -> bool -> option (list Connection * list ContainerEndpoint)) (argv : list str) : list str * list str * Z :=
  let proc_dir := match argv with _ :: dir :: _ => dir | _ => lit "/proc" end in
  match Scrape proc_dir scrape_endpoints with
  | None => ([], [lit "Failed to scrape :("], 1)
  | Some (conns, endpoints) =>
      ((if scrape_endpoints then [lit "Connections:"] else [])
       ++ map (fun conn => lit " " ++ conn_print inet_ntop conn) conns
       ++ (if scrape_endpoints then [[]; lit "Endpoints:"] ++ map (fun ep => lit " " ++ cep_print inet_ntop ep) endpoints else []),
       [], 0)
  end.

(** ** Lemmas *)

(** *** Communication with Sensor *)

(** The operations on the object, in any order. *)
Inductive comm_op := Reset (hostname : str) | Cancel | OpenStream (hostname : str).

Definition comm_exec (c : NetworkConnectionInfoServiceComm) (o : comm_op) : NetworkConnectionInfoServiceComm * option writer :=
  match o with
  | Reset hostname => (ResetClientContext hostname c, None)
  | Cancel => (TryCancel c, None)
  | OpenStream hostname => let '(c, w) := PushNetworkConnectionInfoOpenStream hostname c in (c, Some w)
  end.

Fixpoint comm_run (c : NetworkConnectionInfoServiceComm) (os : list comm_op) : NetworkConnectionInfoServiceComm * list writer :=
  match os with
  | [] => (c, [])
  | o :: os => let '(c, w) := comm_exec c o in let '(c, ws) := comm_run c os in (c, match w with Some w => w :: ws | None => ws end)
  end.

(** What the thread of the notifier keeps of the context. *)
Definition context_flag (c : NetworkConnectionInfoServiceComm) : option bool := cancelled <$> comm_context c.

Definition op_hostname (o : comm_op) : option str :=
  match o with Reset n | OpenStream n => Some n | Cancel => None end.

(** A context has the two entries, with a host name that was given. *)
Definition context_ok (hostname : str) (ctx : ClientContext) : Prop :=
  metadata ctx = [(kHostnameMetadataKey, hostname); (kCapsMetadataKey, kSupportedCaps)].

Record comm_inv (channel : option Channel) (hostname : str) (c : NetworkConnectionInfoServiceComm) : Prop := {
  ci_channel : comm_channel c = channel;
  ci_stub : stub_ c = channel;
  ci_context ctx : comm_context c = Some ctx -> context_ok hostname ctx
}.

Lemma comm_inv_exec channel hostname c o c' w :
  comm_inv channel hostname c -> (op_hostname o = None \/ op_hostname o = Some hostname) -> comm_exec c o = (c', w) ->
  comm_inv channel hostname c' /\
  (forall x, w = Some x -> match channel with
                           | Some ch => exists ctx, x = DuplexClientWriter ch (Some ctx) /\ context_ok hostname ctx
                           | None => x = StdoutDuplexClientWriter
                           end).
Proof.
  intros [Hc Hs Hx] Ho E. destruct o as [n| |n]; cbn [comm_exec op_hostname] in E, Ho.
  - injection E as <- <-. split; [|done]. split; cbn; [done..|]. intros ctx [= <-]. by destruct Ho as [|[= ->]].
  - injection E as <- <-. split; [|done]. split; cbn; [done..|]. intros ctx. destruct (comm_context c) as [x|]; [|done]. intros [= <-].
    exact (Hx x eq_refl).
  - destruct Ho as [|[= ->]]; [done|]. unfold PushNetworkConnectionInfoOpenStream in E.
    destruct (comm_context c) as [ctx|] eqn:Ec; injection E as <- <-.
    + split; [split; [done..|by rewrite Ec]|]. rewrite Hc. intros x [= <-]. destruct channel as [ch|]; [|done]. rewrite Ec. eauto.
    + split; [split; cbn; [done..|by intros ctx [= <-]]|]. cbn. rewrite Hc. intros x [= <-]. destruct channel as [ch|]; [|done]. by eexists.
Qed.

(** ** Theorems *)

(** The handlers of the service.  The constructor adds the handlers of the self checks first, so that they see the
    events of the self check before they could be reported, then that of processes; the service
    adds that of network events.  Every event that one of them wants passes the filter on event
    types that is applied before them on old kernels. *)
Theorem Service_handlers `{HostEndian} `{Driver} `{Inspector} `{Environment} (n : EventNames) (pm : EventMap ProcessSignalType)
    (nm : EventMap Modifier.t) (level : LogLevel) (now : Z) (c : CollectorConfig) (settings : list sinsp_setting) (s s' : Service World)
    (t : ConnectionTracker) :
  Service_ctor n pm level now c = Some (settings, s) -> add_network_handler n nm t (network_handler c) s = Some s' ->
  map GetName (signal_handlers_ s')
    = [lit "SelfCheckProcessHandler"; lit "SelfCheckNetworkHandler"; lit "ProcessSignalHandler"; lit "NetworkSignalHandler"] /\
  (forall e evt, e ∈ signal_handlers_ s' -> ShouldHandle e evt = true -> nth (get_type evt) (global_event_filter_ s') false = true) /\
  w_tracker (shared s') = t /\ client_reachable (client_ (w_process (shared s'))).
Proof.
  intros Ec Ea. unfold Service_ctor in Ec.
  assert (filters_ok [] (replicate PPM_EVENT_MAX false)) as H0' by (split; [apply length_replicate|constructor]).
  destruct (AddSignalHandler n SelfCheckProcess_GetRelevantEvents _ _ _) as [[h1 g1]|] eqn:E1; [|done].
  apply AddSignalHandler_ok in E1 as [H1' [f1 ->]]; [|done..].
  destruct (AddSignalHandler n SelfCheckNetwork_GetRelevantEvents _ _ _) as [[h2 g2]|] eqn:E2; [|done].
  apply AddSignalHandler_ok in E2 as [H2' [f2 ->]]; [|done..].
  destruct (AddSignalHandler n GetRelevantEvents _ _ _) as [[h3 g3]|] eqn:E3; [|done].
  apply AddSignalHandler_ok in E3 as [H3' [f3 ->]]; [|done..].
  cbn [app length Nat.eqb] in Ec. injection Ec as _ <-. unfold add_network_handler in Ea. cbn [signal_handlers_ global_event_filter_ shared] in Ea.
  destruct (AddSignalHandler n (net_GetRelevantEvents _) _ _ _) as [[h4 g4]|] eqn:E4; [|done].
  apply AddSignalHandler_ok in E4 as [[_ Hf] [f4 ->]]; [|unfold net_GetRelevantEvents; by destruct (NetSignals.track_send_recv_ _)|done..].
  injection Ea as <-. split_and!; [done| |done|constructor].
  intros e evt He Hs. rewrite Forall_forall in Hf. by apply (proj2 (Hf e He)).
Qed.

(** The channel to Sensor.  For a configured address the channel goes to that address; it uses TLS exactly if
    the certificate authority, the certificate and the key are all given, with the files in their
    roles, and it logs an error exactly if only some of them are; a name to verify the server
    against is always set.  No other argument has an effect: gRPC's own arguments begin with "grpc.", and none of the keys the code passes does. *)
Theorem createChannel_spec `{Host} (u : UserConfig) (address : str) :
  grpc_server_ u = Some address ->
  exists channel lines name, createChannel u = Some (channel, lines) /\ target channel = address /\
    (creds channel =
       match tls_config_ u with
       | Some t => if TlsConfig_IsValid t
                   then let p := mkProvider (clientKey_ t) (clientCert_ t) (ca_ t) 60 in TlsCredentials (mkOptions (Some p) (Some p))
                   else InsecureChannelCredentials
       | None => InsecureChannelCredentials
       end) /\
    (creds channel <> InsecureChannelCredentials <-> uses_tls u = true) /\
    (length lines = 2%nat <-> is_Some (tls_config_ u) /\ uses_tls u = false) /\
    name <> [] /\ SetSslTargetNameOverride name ∈ chan_args channel /\
    (forall key value, SetInt key value ∈ chan_args channel -> starts_with (lit "grpc.") key = false).
Proof.
  intros E. unfold createChannel, uses_tls. rewrite E. set (name := GetSNIHostname _).
  assert (empty name = false /\ name <> []) as [He Hn] by (unfold name, GetSNIHostname; by destruct (getenv _) as [[]|]).
  assert (forall a cr, SetSslTargetNameOverride name ∈ chan_args (CreateChannel a name cr) /\
    forall key value, SetInt key value ∈ chan_args (CreateChannel a name cr) -> starts_with (lit "grpc.") key = false) as Hargs.
  { intros a cr. unfold CreateChannel. rewrite He. cbn [chan_args negb]. split; [set_solver|].
    intros key value Hin. apply list_elem_of_In in Hin. cbn [In app] in Hin. destruct_or?; try done; by injection Hin as <- <-. }
  destruct (tls_config_ u) as [t|]; [destruct (TlsConfig_IsValid t)|]; (eexists _, _, name; split; [reflexivity|]);
    (split_and!; [done|done|cbn [creds CreateChannel]; split; done| |done|apply Hargs..]); clear; cbn [length app]; split; naive_solver.
Qed.

(** The calls to Sensor.  Whatever the notifier does with the object that keeps its context, in any order, the
    stub belongs to the channel, every stream without a channel writes to the standard output,
    and every stream with one has a context whose metadata are exactly the host's name and the supported
    capabilities.  What resetting and cancelling do to the context is what the
    model of the notifier's thread has of it, and opening a stream behind a reset keeps it. *)
Theorem Comm_refines (channel : option Channel) (hostname : str) (os : list comm_op) :
  Forall (fun o => op_hostname o = None \/ op_hostname o = Some hostname) os ->
  let '(c, ws) := comm_run (Comm_ctor channel) os in
  comm_inv channel hostname c /\
  Forall (fun w => match channel with
                   | Some ch => exists ctx, w = DuplexClientWriter ch (Some ctx) /\ context_ok hostname ctx
                   | None => w = StdoutDuplexClientWriter
                   end) ws /\
  context_flag (ResetClientContext hostname c) = Some false /\
  context_flag (TryCancel c) = NotifierThread.TryCancel (context_flag c) /\
  (is_Some (context_flag c) -> context_flag (PushNetworkConnectionInfoOpenStream hostname c).1 = context_flag c).
Proof.
  intros Hos. assert (forall c, comm_inv channel hostname c -> forall c' ws, comm_run c os = (c', ws) -> comm_inv channel hostname c' /\
    Forall (fun w => match channel with
                     | Some ch => exists ctx, w = DuplexClientWriter ch (Some ctx) /\ context_ok hostname ctx
                     | None => w = StdoutDuplexClientWriter
                     end) ws) as Hrun.
  { induction Hos as [|o os Ho Hos IH]; intros c Hc c' ws E; cbn [comm_run] in E; [by injection E as <- <-|].
    destruct (comm_exec c o) as [c1 w] eqn:E1. destruct (comm_run c1 os) as [c2 ws2] eqn:E2. injection E as <- <-.
    destruct (comm_inv_exec _ _ _ _ _ _ Hc Ho E1) as [Hc1 Hw]. destruct (IH c1 Hc1 _ _ E2) as [Hc2 Hws]. split; [done|].
    destruct w; [|done]. constructor; [by apply Hw|done]. }
  destruct (comm_run (Comm_ctor channel) os) as [c ws] eqn:E. destruct (Hrun (Comm_ctor channel)) with (c' := c) (ws := ws) as [Hc Hws]; [|done|].
  { split; cbn; [done|by destruct channel|done]. }
  split_and!; [done|done|done| |].
  - unfold context_flag. cbn. by destruct (comm_context c).
  - unfold context_flag, PushNetworkConnectionInfoOpenStream. destruct (comm_context c) eqn:Ec; cbn; [by rewrite Ec|by intros []].
Qed.

Section Exit.
Context `{HostEndian} `{Host} `{Platform} `{Json} {W : Type} `{Kernel W} `{FileSystem W} `{Yaml} (fs : list field).
Context {S : Type} `{SystemInspector S}.

Lemma createChannel_target u address : grpc_server_ u = Some address -> exists channel lines, createChannel u = Some (channel, lines) /\ target channel = address.
Proof. intros E. unfold createChannel. rewrite E. destruct (tls_config_ u) as [t|]; [destruct (TlsConfig_IsValid t)|]; by eexists _, _. Qed.

Lemma main_start_sensor lock_free O B argc argv (k : W) host garbage fd rlimit polls p :
  main_start fs lock_free O B argc argv k host garbage fd rlimit polls = Some p ->
  match grpc_server_ (user (pr_config p)) with
  | Some address => (attemptGRPCConnection polls).1 = Ready /\ target <$> pr_channel p = Some address /\ connectedToSensor_ (pr_diagnostics p) = true
  | None => pr_channel p = None /\ connectedToSensor_ (pr_diagnostics p) = false
  end.
Proof.
  unfold main_start. destruct (GetDistro host) as [[? h1]|]; [|done]. destruct (GetKernelVersion h1) as [[? h2]|]; [|done].
  destruct (GetKernelVersion h2) as [[? h3]|]; [|done]. destruct (negb lock_free); [done|].
  destruct (main_config _ _ _ _ _ _ _ _ _) as [[[c h4] k']|]; [|done]. destruct (setCoreDumpLimit _ _) as [limit ?].
  destruct (grpc_server_ (user c)) as [address|] eqn:Eg.
  - rewrite bool_decide_true by done. destruct (createChannel_target _ _ Eg) as (channel & ls & -> & Et). cbn [connect_to_sensor snd].
    destruct (attemptGRPCConnection polls).1; try done. intros [= <-]. cbn. by rewrite Eg, Et.
  - rewrite bool_decide_false by (by intros []). intros [= <-]. cbn. by rewrite Eg.
Qed.

Lemma RunService_threads c channel s garbage a b e d open service open1 lines :
  fresh_pipe a open -> fresh_pipe b (a.1 :: a.2 :: open) -> fresh_pipe e (b.1 :: b.2 :: a.1 :: a.2 :: open) ->
  RunService c channel s garbage (mkPipes (Some a) (Some b) (Some e)) d open = Some (service, open1, lines) ->
  (net_status_notifier_ (threads service) = None <-> is_Some channel /\ disable_network_flows_ (networks c) = true) /\
  exists ts, forall i, all_close i ->
    stop_threads i (threads service) open1 = if all_return i (threads service) then Finishes (ts, open) else Hangs.
Proof.
  intros Ha Hb He. unfold RunService, CollectorService_ctor. set (grpc := bool_decide (is_Some channel)). set (off := disable_network_flows_ _).
  destruct (CollectorService_tracker _ _ _ _ _) as [t|]; [|done].
  destruct (match t with Some _ => _ | None => _ end) as [s1|]; [|done]. unfold collector_InitKernel. cbn [config_ system_inspector_].
  destruct (si_InitKernel c s1) as [[ok s2]|]; [|done]. destruct (service_InitKernel _ _ _) as [[[] d2]|]; cbn [negb]; [|done..].
  unfold RunForever_threads, set_inspector. cbn [threads system_inspector_ config_ conn_tracker_ civet_endpoints_].
  destruct (service_threads_cycle grpc off garbage a b e open Ha Hb He) as (t1 & o1 & t2 & E & _ & _ & Hn & Es). rewrite E.
  destruct (si_Start s2) as [s3|]; [|done]. intros [= <- <- _]. cbn [threads]. split; [|by exists t2].
  rewrite Hn. unfold grpc, off. by rewrite bool_decide_eq_true.
Qed.

(** C27. From start to exit.  When [main] has got to its loop with all pipes opened, Sensor was reached if an
    address is configured, and there is a channel, to that address, exactly then.  In every interleaving of the loop
    with shutdown signals the inspector has made passes of its loop and nothing else; the loop ends only
    for a signal, which it names although the handler stores two variables; once the control value is stored, the main
    thread makes at most three more steps, without handling another event, and reaches the end of the loop.  Then, if the
    calls of close release the descriptors, [main] waits for the threads of the service, among them the notifier's unless
    there is a channel and network flows are disabled: when all of them return it returns 0 with every
    descriptor closed that the service had opened, unless stopping the inspector ends the process; when one does not, it
    never returns ([Stop_hangs]: the notifier without a channel). *)
Theorem main_exit (lock_free : bool) (O B argc : Z) (argv : list (option cptr)) (k : W) (host : HostInfo) (garbage fd : Z)
    (rlimit : option str) (polls : list poll) (p : prepared) (s : S) (garbage_pipe a b e : Z * Z) (open open1 : fds)
    (service : CollectorService S) (lines : list str) (l : loop S) :
  main_start fs lock_free O B argc argv k host garbage fd rlimit polls = Some p ->
  fresh_pipe a open -> fresh_pipe b (a.1 :: a.2 :: open) -> fresh_pipe e (b.1 :: b.2 :: a.1 :: a.2 :: open) ->
  RunService (pr_config p) (pr_channel p) s garbage_pipe (mkPipes (Some a) (Some b) (Some e)) (pr_diagnostics p) open
    = Some (service, open1, lines) ->
  rtc loop_step (RunForever_start RUN None [] (system_inspector_ service)) l ->
  match grpc_server_ (user (pr_config p)) with
  | Some address => (attemptGRPCConnection polls).1 = Ready /\ target <$> pr_channel p = Some address
  | None => pr_channel p = None
  end /\
  (exists passes, si_Run passes (system_inspector_ service) = Some (inspector l)) /\
  (forall n, at_ l = Finished n -> shutdown_signal n) /\
  (g_control l = STOP_COLLECTOR ->
   (exists n, rtc main_step l (at_position (Finished n) l) /\ shutdown_signal n) /\
   (forall j l', nsteps main_step j l l' -> (j <= 3)%nat) /\
   (net_status_notifier_ (threads service) = None
      <-> is_Some (pr_channel p) /\ disable_network_flows_ (networks (pr_config p)) = true) /\
   forall i, all_close i ->
     main_end i service (inspector l) open1
     = if all_return i (threads service)
       then match si_CleanUp (inspector l) with Some _ => Finishes (0, open) | None => Dies end
       else Hangs).
Proof.
  intros Hmain Ha Hb He Hrun Hl. pose proof (main_start_sensor _ _ _ _ _ _ _ _ _ _ _ _ Hmain) as Hsensor.
  destruct (RunService_threads _ _ _ _ _ _ _ _ _ _ _ _ Ha Hb He Hrun) as [Hnotifier [ts Hts]].
  pose proof (loop_inv_reachable _ _ _ Hl (loop_inv_start _)) as Hinv. split_and!.
  - destruct (grpc_server_ _); naive_solver.
  - apply (li_passes _ _ Hinv).
  - intros n En. by apply (li_caught _ _ Hinv).
  - intros Hc. split_and!.
    + destruct (stopping_goes l Hc) as (n & Hgo & [<-|En]); eexists; (split; [exact Hgo|]); [by apply (li_stop _ _ Hinv)|by apply (li_caught _ _ Hinv)].
    + intros j l' Hj. apply stopping_ends in Hj; [|done]. pose proof (eq_refl (left_over (at_ l))). destruct (at_ l); cbn in Hj; lia.
    + exact Hnotifier.
    + intros i Hi. unfold main_end, CollectorService_dtor. cbn [threads set_inspector system_inspector_]. rewrite Hts by done.
      destruct (all_return _ _); [|done]. cbn [and_then]. by destruct (si_CleanUp _).
Qed.

End Exit.

(** ** Witnesses *)

Module MainWitness.
Import ConfigWitnesses ArgsWitnesses.
#[local] Existing Instance Host.Witnesses.rhel86.
#[local] Existing Instance little_endian.
#[local] Existing Instance Service.Witnesses.sample_table.
#[local] Existing Instance sample_inspector.
#[local] Existing Instance Service.Witnesses.environment.

Definition tls_user : UserConfig :=
  mkUserConfig (log_level_ default_user) 30 false CORE_BPF (Some (mkTlsConfig (lit "/ca.pem") (lit "/cert.pem") (lit "/key.pem")))
    (Some (lit "sensor.stackrox:443")).

Lemma createChannel_spec_witness :
  exists channel lines, createChannel tls_user = Some (channel, lines) /\ creds channel <> InsecureChannelCredentials.
Proof.
  destruct (createChannel_spec tls_user (lit "sensor.stackrox:443") eq_refl) as (channel & lines & name & E & _ & _ & Htls & _).
  exists channel, lines. split; [exact E|]. apply Htls. reflexivity.
Defined.

Definition sample_channel : Channel := CreateChannel (lit "sensor:443") (lit "sensor") InsecureChannelCredentials.
Definition sample_ops : list comm_op := [OpenStream (lit "node"); Cancel; Reset (lit "node"); OpenStream (lit "node")].

Lemma Comm_refines_witness :
  comm_inv (Some sample_channel) (lit "node") (comm_run (Comm_ctor (Some sample_channel)) sample_ops).1
  /\ length (comm_run (Comm_ctor (Some sample_channel)) sample_ops).2 = 2%nat.
Proof.
  split; [|reflexivity].
  pose proof (Comm_refines (Some sample_channel) (lit "node") sample_ops ltac:(repeat constructor; (left; reflexivity) || (right; reflexivity))) as Hr.
  destruct (comm_run (Comm_ctor (Some sample_channel)) sample_ops) as [c ws]. exact (proj1 Hr).
Defined.

(** A driver that knows all system calls collector asks for. *)
Definition names : list str := sample_names ++ List.filter (fun s => negb (bool_decide (s ∈ sample_names))) kSyscalls.

#[local] Instance driver : Driver := {|
  PPM_EVENT_MAX := 2 * length names;
  g_event_info i := nth (i / 2) names [];
  PPME_IS_ENTER := Nat.even;
  g_syscall_table := [(0, 1); (2, 3); (6, 7)];
  PPME_SOCKET_SENDTO_E := 14; PPME_SOCKET_SENDTO_X := 15;
  PPME_SOCKET_RECV_E := 28; PPME_SOCKET_RECV_X := 29;
  PPME_SOCKET_RECVFROM_E := 20; PPME_SOCKET_RECVFROM_X := 21;
  PPME_SOCKET_SENDMSG_E := 16; PPME_SOCKET_SENDMSG_X := 17;
  PPME_SOCKET_SENDMMSG_E := 18; PPME_SOCKET_SENDMMSG_X := 19;
  PPME_SOCKET_RECVMSG_E := 22; PPME_SOCKET_RECVMSG_X := 23;
  PPME_SOCKET_RECVMMSG_E := 24; PPME_SOCKET_RECVMMSG_X := 25
|}.

Definition event_names : EventNames := Eval vm_compute in default (mkEventNames [] [] []) EventNames_make.
Definition event_map : EventMap Modifier.t := Eval vm_compute in default [] (modifiers event_names).

#[local] Instance the_inspector : SystemInspector (Service World) :=
  Service_inspector (fun _ => true) id 900 901 event_names event_map (fun _ w => (true, w)) id false (fun _ => None).

Definition started : option prepared :=
  @main_start false Host.Witnesses.rhel86 platform objects LoaderWitnesses.world LoaderWitnesses.world_fs
    ConfigParser.Witnesses.yaml ConfigParser.Witnesses.config_fields true 0x1000 0x10000 2
    (Some prog :: map Some server_args ++ [None]) (LoaderWitnesses.mkWorld 1 None []) HostInfo_instance 77 3 None [Some CONNECTING; None].

Definition process_map : EventMap ProcessSignalType := Eval vm_compute in default [] (process_signals event_names).

Definition constructed : option (list str) :=
  match started with
  | Some p =>
      match Service_ctor event_names process_map (log_level_ (user (pr_config p))) 0 (pr_config p) with
      | Some (_, s) =>
          match add_network_handler event_names event_map ConnectionTracker_new (network_handler (pr_config p)) s with
          | Some s' => Some (map GetName (signal_handlers_ s'))
          | None => None
          end
      | None => None
      end
  | None => None
  end.

Lemma constructed_names : is_Some constructed.
Proof. vm_compute. by eexists. Qed.

Lemma Service_handlers_witness :
  exists p settings s s', started = Some p
    /\ Service_ctor event_names process_map (log_level_ (user (pr_config p))) 0 (pr_config p) = Some (settings, s)
    /\ add_network_handler event_names event_map ConnectionTracker_new (network_handler (pr_config p)) s = Some s'
    /\ length (signal_handlers_ s') = 4%nat.
Proof.
  pose proof constructed_names as Hc. unfold constructed in Hc. destruct started as [p|] eqn:Ep; [|by destruct Hc].
  destruct (Service_ctor _ _ _ _ _) as [[settings s]|] eqn:Es; [|by destruct Hc].
  destruct (add_network_handler _ _ _ _ s) as [s'|] eqn:En; [|by destruct Hc].
  exists p, settings, s, s'. split_and!; [reflexivity|exact Es|exact En|].
  destruct (Service_handlers event_names process_map event_map _ _ _ _ _ _ _ Es En) as [Hn _].
  rewrite <- (length_map GetName), Hn. reflexivity.
Defined.

(** The service with the two handlers of the self checks. *)
Definition counters : list Z := replicate PPM_EVENT_MAX 0.
Definition empty_service : Service World :=
  mkService true [self_check_process_entry (SelfCheckHandler_new 0) (replicate PPM_EVENT_MAX true);
                  self_check_network_entry (SelfCheckHandler_new 0) (replicate PPM_EVENT_MAX true)]
    (replicate PPM_EVENT_MAX true) (mkEventStats counters counters counters counters) [] [] Service.Witnesses.fresh.

Definition run_service (p : prepared) : option (CollectorService (Service World) * fds * list str) :=
  RunService (pr_config p) (pr_channel p) empty_service (0, 0) (mkPipes (Some (3, 4)) (Some (5, 6)) (Some (7, 8)))
    (pr_diagnostics p) [0; 1; 2].

(** A connection is opened, then SIGTERM comes. *)
Definition opened : @si_pass (Service World) the_inspector := mkPass (Some (NetSignals.Witnesses.event 7 5000)) 1 5 1.

Definition run_checks : bool :=
  match started with
  | Some p =>
      bool_decide (grpc_server_ (user (pr_config p)) = Some (lit "sensor.stackrox:443")
                   /\ disable_network_flows_ (networks (pr_config p)) = false) &&
      match run_service p with
      | Some (service, _, _) =>
          inspector_ (system_inspector_ service) &&
          match si_Run_pass opened (system_inspector_ service) with Some s => match si_CleanUp s with Some _ => true | None => false end | None => false end
      | None => false
      end
  | None => false
  end.

Lemma run_checks_hold : run_checks = true.
Proof. vm_compute. reflexivity. Qed.

Lemma main_exit_witness :
  exists p service open1 lines, started = Some p /\ run_service p = Some (service, open1, lines) /\
    target <$> pr_channel p = Some (lit "sensor.stackrox:443") /\
    exists l, g_control l = STOP_COLLECTOR /\ rtc loop_step (RunForever_start RUN None [] (system_inspector_ service)) l
      /\ main_end Lifecycle.Witnesses.all_quick service (inspector l) open1 = Finishes (0, [0; 1; 2])
      /\ main_end Lifecycle.Witnesses.notifier_stuck service (inspector l) open1 = Hangs.
Proof.
  pose proof run_checks_hold as Hrun. unfold run_checks in Hrun.
  destruct started as [p|] eqn:Ep; [|discriminate]. apply andb_true_iff in Hrun as [Hg Hrun]. apply bool_decide_eq_true_1 in Hg as [Hg Hflows].
  destruct (run_service p) as [[[service open1] lines]|] eqn:Es; [|discriminate]. apply andb_true_iff in Hrun as [Hi Hrun].
  destruct (si_Run_pass opened (system_inspector_ service)) as [s|] eqn:Er; [|discriminate].
  destruct (si_CleanUp s) as [s'|] eqn:Ec; [|discriminate].
  exists p, service, open1, lines. split; [reflexivity|]. split; [exact Es|].
  set (l := mkLoop STOP_COLLECTOR (Some SIGTERM) [] InnerTest s).
  assert (rtc loop_step (RunForever_start RUN None [] (system_inspector_ service)) l) as Hl.
  { eapply rtc_l; [apply step_main, (outer_run (RunForever_start RUN None [] (system_inspector_ service))); [reflexivity|discriminate|exact Hi]|].
    eapply rtc_l; [apply step_main, (inner_pass (at_position InnerTest (RunForever_start RUN None [] (system_inspector_ service))) opened s); [reflexivity|reflexivity|exact Er]|].
    eapply rtc_l; [apply step_signal, (store_signum _ SIGTERM); apply list_elem_of_In; right; right; left; reflexivity|].
    apply rtc_once, step_signal. apply (store_control (mkLoop RUN (Some SIGTERM) [SIGTERM] InnerTest s) SIGTERM [] []). reflexivity. }
  destruct (main_exit ConfigParser.Witnesses.config_fields true 0x1000 0x10000 2 (Some prog :: map Some server_args ++ [None])
    (LoaderWitnesses.mkWorld 1 None []) HostInfo_instance 77 3 None [Some CONNECTING; None] p empty_service (0, 0) (3, 4) (5, 6) (7, 8)
    [0; 1; 2] open1 service lines l Ep) as (Hsensor & _ & _ & Hstop).
  - unfold fresh_pipe. apply (bool_decide_unpack _). vm_compute. exact I.
  - unfold fresh_pipe. apply (bool_decide_unpack _). vm_compute. exact I.
  - unfold fresh_pipe. apply (bool_decide_unpack _). vm_compute. exact I.
  - exact Es.
  - exact Hl.
  - rewrite Hg in Hsensor. split; [exact (proj2 Hsensor)|]. exists l. split; [reflexivity|]. split; [exact Hl|].
    destruct (Hstop eq_refl) as (_ & _ & Hn & E).
    rewrite (E _ Lifecycle.Witnesses.all_quick_closes), (E _ Lifecycle.Witnesses.notifier_stuck_closes). cbn [l inspector]. rewrite Ec.
    unfold all_return. destruct (net_status_notifier_ (threads service)) as [n|]; [split; reflexivity|].
    destruct (proj1 Hn eq_refl) as [_ E']. rewrite Hflows in E'. discriminate E'.
Defined.

End MainWitness.
