(* ===== verification/UdpMemory.v ===== *)
(** * Memory and system calls of the UDP programs

    What [integration-tests/container/udp/udp-client.c] and [udp-server.c] use of C and of the
    operating system: a heap of blocks with [calloc], [malloc] and [free], where an access outside
    a live block, a second [free] and the use of indeterminate bytes are undefined ([None]),
    [for] loops with an [int] counter, and the calls of the network interface.  What the system
    decides (whether memory is there, the results of the calls, the arrival of a signal) is an
    instance of [Posix]. *)

From stdpp Require Import gmap.
From S2P Require Import Prelude Containers Utility.

Open Scope Z_scope.
Open Scope collector_scope.

(** ** Data *)

(** A pointer: null, the text of the client, the local variable [from] of the server, the
    start of a block, or the address in the first entry of a list of [addrinfo]. *)
Inductive ptr := NULL | LOREM | FROM | AT (b : positive) | AI_ADDR (b : positive).

Record iovec := mkIovec { iov_base : ptr; iov_len : Z }.
Record msghdr := mkMsghdr { msg_name : ptr; msg_namelen : Z; msg_iov : ptr; msg_iovlen : Z }.
Record mmsghdr := mkMmsghdr { msg_hdr : msghdr; msg_len : Z }.
Record addrinfo := mkAddrinfo { ai_family : Z; ai_socktype : Z; ai_protocol : Z; ai_addr : list ascii }.

(** What [calloc] leaves. *)
Definition zero_iovec : iovec := mkIovec NULL 0.
Definition zero_mmsghdr : mmsghdr := mkMmsghdr (mkMsghdr NULL 0 NULL 0) 0.

(** A block: an array of structures, bytes some of which are indeterminate, the array of
    targets, or a list that [getaddrinfo] made. *)
Inductive block :=
| IOV (l : list iovec)
| MMSG (l : list mmsghdr)
| BYTES (l : list (option ascii))
| TARGETS (l : list ptr)
| ADDRINFO (l : list addrinfo).

Abbreviation memory := (gmap positive block).

(** What the programs do that can be seen from outside. *)
Inductive event :=
| Out (line : str)
| Err (line : str)
| Sent (fd : Z) (dest : list ascii) (payload : str)
| Opened (fd : Z)
| Bound (fd : Z) (addr : list ascii)
| Closed (fd : Z)
| Slept (seconds : Z).

(** The state: the heap, the next block, how often memory was asked for, how many system
    calls were made, how often [running] was tested and its value, and what was done. *)
Record world := mkWorld {
  mem : memory; brk : positive; allocs : nat; calls : nat; looks : nat; running : bool; trace : list event }.

(** A datagram as it is received: the address of the sender and the data. *)
Record datagram := mkDatagram { dg_from : list ascii; dg_data : str }.

Definition AF_INET : Z := 2.
Definition AF_INET6 : Z := 10.
Definition SOCK_DGRAM : Z := 2.
Definition AI_PASSIVE : Z := 1.
Definition EINTR : Z := 4.
Definition EAGAIN : Z := 11.
Definition ENOMEM : Z := 12.

Record hints := mkHints { hint_family : Z; hint_socktype : Z; hint_flags : Z }.

(** The choices of the system, by the number of the call: an error number, or what the call does. *)
Class Posix := {
  alloc_ok : nat -> bool;
  signal_arrives : nat -> bool;
  getaddrinfo : nat -> option str -> str -> hints -> Z + list addrinfo;
  socket_result : nat -> Z + Z;
  bind_result : nat -> Z + unit;
  send_result : nat -> Z + unit;
  sendmmsg_result : nat -> Z + nat;
  recv_result : nat -> Z + list datagram;
  inet_ntop : Z -> list ascii -> str
}.

(** What the manual says: error numbers are positive, a call that receives returns at least
    one datagram, and a successful [getaddrinfo] at least one address. *)
Class PosixLaws `{Posix} := {
  send_errno k e : send_result k = inl e -> 0 < e;
  sendmmsg_errno k e : sendmmsg_result k = inl e -> 0 < e;
  recv_errno k e : recv_result k = inl e -> 0 < e;
  recv_some k l : recv_result k = inr l -> l <> [];
  getaddrinfo_some k host port h l : getaddrinfo k host port h = inr l -> l <> []
}.

Section operations.
Context `{Posix}.

Definition set_mem (f : memory -> memory) (w : world) : world :=
  mkWorld (f (mem w)) (brk w) (allocs w) (calls w) (looks w) (running w) (trace w).

Definition emit (e : event) (w : world) : world :=
  mkWorld (mem w) (brk w) (allocs w) (calls w) (looks w) (running w) (trace w ++ [e]).

Definition called (w : world) : world :=
  mkWorld (mem w) (brk w) (allocs w) (S (calls w)) (looks w) (running w) (trace w).

(** ** Memory *)

(** A new block, which is not one of an allocation that fails. *)
Definition alloc (b : block) (w : world) : ptr * world :=
  if alloc_ok (allocs w)
  then (AT (brk w), mkWorld (<[brk w := b]> (mem w)) (Pos.succ (brk w)) (S (allocs w)) (calls w) (looks w) (running w) (trace w))
  else (NULL, mkWorld (mem w) (brk w) (S (allocs w)) (calls w) (looks w) (running w) (trace w)).

Definition malloc (n : Z) (w : world) : ptr * world := alloc (BYTES (replicate (Z.to_nat n) None)) w.

Definition free (p : ptr) (w : world) : option world :=
  match p with
  | NULL => Some w
  | AT b =>
      match mem w !! b with
      | None | Some (ADDRINFO _) => None
      | Some _ => Some (set_mem (delete b) w)
      end
  | _ => None
  end.

Definition freeaddrinfo (p : ptr) (w : world) : option world :=
  match p with
  | AT b => match mem w !! b with Some (ADDRINFO _) => Some (set_mem (delete b) w) | _ => None end
  | _ => None
  end.

(** Reading and writing an element of an array of structures. *)
Definition load_iov (p : ptr) (i : Z) (w : world) : option iovec :=
  match p with AT b => match mem w !! b with Some (IOV l) => l !! Z.to_nat i | _ => None end | _ => None end.

Definition store_iov (p : ptr) (i : Z) (v : iovec) (w : world) : option world :=
  match p with
  | AT b =>
      match mem w !! b with
      | Some (IOV l) => if Z.to_nat i <? length l then Some (set_mem <[b := IOV (<[Z.to_nat i := v]> l)]> w) else None
      | _ => None
      end
  | _ => None
  end%nat.

Definition load_mmsg (p : ptr) (i : Z) (w : world) : option mmsghdr :=
  match p with AT b => match mem w !! b with Some (MMSG l) => l !! Z.to_nat i | _ => None end | _ => None end.

Definition store_mmsg (p : ptr) (i : Z) (v : mmsghdr) (w : world) : option world :=
  match p with
  | AT b =>
      match mem w !! b with
      | Some (MMSG l) => if Z.to_nat i <? length l then Some (set_mem <[b := MMSG (<[Z.to_nat i := v]> l)]> w) else None
      | _ => None
      end
  | _ => None
  end%nat.

Definition load_target (p : ptr) (i : Z) (w : world) : option ptr :=
  match p with AT b => match mem w !! b with Some (TARGETS l) => l !! Z.to_nat i | _ => None end | _ => None end.

Definition store_target (p : ptr) (i : Z) (v : ptr) (w : world) : option world :=
  match p with
  | AT b =>
      match mem w !! b with
      | Some (TARGETS l) => if Z.to_nat i <? length l then Some (set_mem <[b := TARGETS (<[Z.to_nat i := v]> l)]> w) else None
      | _ => None
      end
  | _ => None
  end%nat.

(** [addr->ai_addr]: the address in the first entry, and where it is. *)
Definition first_addr (p : ptr) (w : world) : option (ptr * list ascii) :=
  match p with
  | AT b => match mem w !! b with Some (ADDRINFO (a :: _)) => Some (AI_ADDR b, ai_addr a) | _ => None end
  | _ => None
  end.

(** The bytes of a socket address that is handed to the system. *)
Definition read_addr (p : ptr) (len : Z) (w : world) : option (list ascii) :=
  match p with
  | AI_ADDR b =>
      match mem w !! b with
      | Some (ADDRINFO (a :: _)) => if Z.to_nat len <=? length (ai_addr a) then Some (take (Z.to_nat len) (ai_addr a)) else None
      | _ => None
      end
  | _ => None
  end%nat.

(** ** Loops *)

(** [for (int i = i0; ...; i++)] with [n] passes to go; the body may leave the loop with a value. *)
Fixpoint for_int {E} (n : nat) (i : Z) (body : Z -> world -> option (option E * world)) (w : world)
    : option (option E * world) :=
  match n with
  | O => Some (None, w)
  | S n =>
      if 2 ^ 31 <=? i then None else
      let! (r, w) := body i w in
      match r with
      | Some e => Some (Some e, w)
      | None => for_int n (i + 1) body w
      end
  end.

(** ** Signals *)

(** The handler of [SIGTERM] and [SIGINT]. *)
Definition handle_stop (w : world) : world :=
  mkWorld (mem w) (brk w) (allocs w) (calls w) (looks w) false (trace w).

(** A test of [running], before which a signal may arrive. *)
Definition test_running (w : world) : bool * world :=
  let w := if signal_arrives (looks w) then handle_stop w else w in
  (running w, mkWorld (mem w) (brk w) (allocs w) (calls w) (S (looks w)) (running w) (trace w)).

End operations.

(** ** C strings in memory that is written to *)

(** The string at position [i] of an array of characters that a null character follows. *)
Definition c_string (buf : str) (i : nat) : str :=
  let s := drop i buf in match find_char NUL s with Some n => take n s | None => s end.

(** [strrchr]: the position of the last occurrence. *)
Definition strrchr (buf : str) (c : ascii) : option nat := rfind [c] (c_string buf 0).

(** ** Lemmas on loops *)

(** The rule for [for_int]: [P k] holds after [k] passes, and [Q e] where the loop is left with [e]. *)
Lemma for_int_inv {E} (P : nat -> world -> Prop) (Q : E -> world -> Prop) n i body w :
  (forall k w, (k < n)%nat -> P k w ->
     exists r w', body (i + Z.of_nat k) w = Some (r, w') /\ match r with None => P (S k) w' | Some e => Q e w' end) ->
  i + Z.of_nat n <= 2 ^ 31 -> P O w ->
  exists r w', for_int n i body w = Some (r, w') /\ match r with None => P n w' | Some e => Q e w' end.
Proof.
  revert P i w. induction n as [|n IH]; intros P i w Hb Hi HP; [by exists None, w|]. cbn [for_int].
  replace (2 ^ 31 <=? i) with false by (symmetry; apply Z.leb_gt; lia).
  destruct (Hb O w ltac:(lia) HP) as (r & w' & E1 & Hr). rewrite Z.add_0_r in E1. rewrite E1. destruct r as [e|]; [by exists (Some e), w'|].
  apply (IH (fun k => P (S k))); [|lia|done]. intros k w1 Hk HP1. replace (i + 1 + Z.of_nat k) with (i + Z.of_nat (S k)) by lia.
  apply Hb; [lia|done].
Qed.

(** ** Lemmas on memory *)

(** No block is where the next ones will be. *)
Definition fresh (w : world) : Prop := forall b, (brk w <= b)%positive -> mem w !! b = None.

Lemma fresh_same w w' : mem w' = mem w -> brk w' = brk w -> fresh w -> fresh w'.
Proof. intros Em Eb Hf b Hb. rewrite Em. apply Hf. by rewrite <- Eb. Qed.

Lemma fresh_live w b : fresh w -> is_Some (mem w !! b) -> (b < brk w)%positive.
Proof. intros Hf [x Hx]. destruct (decide (b < brk w)%positive) as [|Hge]; [done|]. rewrite Hf in Hx by lia. done. Qed.

(** What a step of memory management leaves alone. *)
Definition quiet (w w' : world) : Prop :=
  calls w' = calls w /\ looks w' = looks w /\ running w' = running w /\ trace w' = trace w.

#[export] Instance quiet_preorder : PreOrder quiet.
Proof.
  split; [done|]. intros w1 w2 w3 (? & ? & ? & ?) (? & ? & ? & ?). unfold quiet. split_and!; congruence.
Qed.

(** A memory with some blocks on top of another. *)
Definition put (l : list (positive * block)) (m : memory) : memory := foldr (fun e m => <[e.1 := e.2]> m) m l.

Lemma put_app l l' m : put (l ++ l') m = put l (put l' m).
Proof. apply foldr_app. Qed.

Lemma put_ne l m b : b ∉ l.*1 -> put l m !! b = m !! b.
Proof.
  induction l as [|[c x] l IH]; [done|]. cbn. intros [Hne Hb]%not_elem_of_cons. rewrite lookup_insert_ne by congruence. by apply IH.
Qed.

Lemma put_in l m b x : NoDup l.*1 -> (b, x) ∈ l -> put l m !! b = Some x.
Proof.
  induction l as [|[c y] l IH]; [set_solver|]. cbn. intros [Hc Hd]%NoDup_cons [[= -> ->]|Hin]%elem_of_cons; [by rewrite lookup_insert_eq|].
  rewrite lookup_insert_ne; [by apply IH|]. intros ->. apply Hc. apply list_elem_of_fmap. by exists (b, x).
Qed.

Lemma put_insert l m b x : b ∉ l.*1 -> <[b := x]> (put l m) = put l (<[b := x]> m).
Proof.
  induction l as [|[c y] l IH]; [done|]. cbn. intros [Hne Hb]%not_elem_of_cons. rewrite insert_insert_ne by done. f_equal. by apply IH.
Qed.

Lemma put_snoc l m b x : b ∉ l.*1 -> put (l ++ [(b, x)]) m = <[b := x]> (put l m).
Proof. intros Hb. by rewrite put_app, put_insert. Qed.

Lemma delete_put b x l m : b ∉ l.*1 -> m !! b = None -> delete b (put ((b, x) :: l) m) = put l m.
Proof. intros Hb Hm. cbn. apply delete_insert_id. by rewrite put_ne. Qed.

Lemma put_sub l m b : (forall c, c ∈ l.*1 -> m !! c = None) -> is_Some (m !! b) -> put l m !! b = m !! b.
Proof. intros Hl [x Hx]. apply put_ne. intros Hb. apply Hl in Hb. congruence. Qed.

Section lemmas.
Context `{Posix}.

Lemma alloc_spec x w : fresh w ->
  let b := brk w in let r := alloc x w in
  quiet w r.2 /\ fresh r.2 /\
  ((r.1 = NULL /\ mem r.2 = mem w /\ brk r.2 = brk w) \/
   (r.1 = AT b /\ mem r.2 = <[b := x]> (mem w) /\ mem w !! b = None /\ brk r.2 = Pos.succ b)).
Proof.
  intros Hf b r. unfold r, alloc. destruct (alloc_ok (allocs w)); cbn.
  - split_and!; [done| |right; split_and!; [done..|apply Hf; lia|done]]. intros c Hc. cbn in *. rewrite lookup_insert_ne by lia. apply Hf. lia.
  - split_and!; [done|exact Hf|]. by left.
Qed.

Lemma free_at b x m w : mem w = <[b := x]> m -> m !! b = None -> (forall l, x <> ADDRINFO l) ->
  free (AT b) w = Some (set_mem (fun _ => m) w).
Proof.
  intros E Hm Hx. unfold free. rewrite E, lookup_insert_eq.
  assert (set_mem (delete b) w = set_mem (fun _ => m) w) as <- by (unfold set_mem; rewrite E, delete_insert_id; done).
  destruct x; try done. by destruct (Hx l).
Qed.

Lemma fresh_put l m w : fresh w -> mem w = put l m -> (forall c, c ∈ l.*1 -> (c < brk w)%positive) ->
  forall w', (brk w <= brk w')%positive -> mem w' = m -> fresh w'.
Proof.
  intros Hf E Hl w' Hb E' b Hle. rewrite E'. specialize (Hf b ltac:(lia)). rewrite E in Hf.
  rewrite put_ne in Hf; [done|]. intros Hin. apply Hl in Hin. lia.
Qed.

End lemmas.

(** ** Ownership

    The memory of [w] is [m] with the blocks [l] on top, all of them new. *)
Record owned (m : memory) (l : list (positive * block)) (w : world) : Prop := {
  ow_mem : mem w = put l m;
  ow_dup : NoDup l.*1;
  ow_new : forall b, b ∈ l.*1 -> m !! b = None;
  ow_fresh : fresh w
}.

Lemma put_cons b x l m : put ((b, x) :: l) m = <[b := x]> (put l m).
Proof. done. Qed.

Lemma put_perm l l' m : l ≡ₚ l' -> NoDup l.*1 -> put l m = put l' m.
Proof.
  induction 1 as [|[b x] l l' Hp IH|[b x] [c y] l|l1 l2 l3 H1 IH1 H2 IH2]; intros Hd; rewrite ?put_cons; [done| | |].
  - apply NoDup_cons in Hd as [_ Hd]. by rewrite IH.
  - apply NoDup_cons in Hd as [Hb _]. apply insert_insert_ne. intros ->. apply Hb. left.
  - rewrite IH1 by done. apply IH2. by rewrite <- H1.
Qed.

Lemma owned_perm m l l' w : l ≡ₚ l' -> owned m l w -> owned m l' w.
Proof.
  intros Hp [Hm Hd Hn Hf]. split; [by rewrite Hm; apply put_perm|by rewrite <- Hp| |done]. intros b Hb. apply Hn. by rewrite Hp.
Qed.

Lemma owned_start w : fresh w -> owned (mem w) [] w.
Proof. intros Hf. split; [done|apply NoDup_nil_2| |done]. intros b Hb. by apply elem_of_nil in Hb. Qed.

Lemma owned_lookup m l w b x : owned m l w -> (b, x) ∈ l -> mem w !! b = Some x.
Proof. intros [Hm Hd _ _] Hin. rewrite Hm. by apply put_in. Qed.

(** Nothing changes but what is not memory. *)
Lemma owned_same m l w w' : owned m l w -> mem w' = mem w -> brk w' = brk w -> owned m l w'.
Proof. intros [Hm Hd Hn Hf] Em Eb. split; [congruence|done|done|by eapply fresh_same]. Qed.

Lemma owned_set m b x y l w : owned m ((b, x) :: l) w -> owned m ((b, y) :: l) (set_mem <[b := y]> w).
Proof.
  intros Ho. pose proof (owned_lookup _ _ _ b x Ho ltac:(left)) as Hb. destruct Ho as [Hm Hd Hn Hf]. split; [|done|done|].
  - cbn [mem set_mem]. rewrite Hm. cbn. by rewrite insert_insert_eq.
  - intros c Hc. cbn [mem set_mem brk] in *. rewrite lookup_insert_ne; [by apply Hf|]. intros ->. rewrite Hf in Hb by done. done.
Qed.

Lemma owned_free m b x l w : owned m ((b, x) :: l) w -> (forall l, x <> ADDRINFO l) ->
  free (AT b) w = Some (set_mem (delete b) w) /\ owned m l (set_mem (delete b) w).
Proof.
  intros Ho Hx. pose proof (owned_lookup _ _ _ b x Ho ltac:(left)) as Hb. destruct Ho as [Hm Hd Hn Hf]. split.
  - unfold free. rewrite Hb. destruct x; try done. by destruct (Hx l0).
  - apply NoDup_cons in Hd as [Hnb Hd]. split; [|done| |].
    + cbn [mem set_mem]. rewrite Hm. apply delete_put; [done|]. apply Hn. left.
    + intros c Hc. apply Hn. by right.
    + intros c Hc. cbn [mem set_mem brk] in *. rewrite lookup_delete_None. right. by apply Hf.
Qed.

Lemma quiet_set f w : quiet w (set_mem f w).
Proof. done. Qed.

Section ownership.
Context `{Posix}.

Lemma owned_alloc m l x w : owned m l w ->
  exists p w', alloc x w = (p, w') /\ quiet w w' /\
    ((p = NULL /\ owned m l w') \/ (p = AT (brk w) /\ owned m ((brk w, x) :: l) w')).
Proof.
  intros Ho. pose proof Ho as [Hm Hd Hn Hf]. pose proof (alloc_spec x w Hf) as (Hq & Hf' & Hc).
  destruct (alloc x w) as [p w'] eqn:E. cbn [fst snd] in *. exists p, w'. split_and!; [done..|].
  destruct Hc as [(-> & Hm' & Hb)|(-> & Hm' & Hnb & Hb)]; [left|right]; (split; [done|]).
  - by eapply owned_same.
  - assert (brk w ∉ l.*1) as Hfr.
    { intros Hin. apply list_elem_of_fmap in Hin as ([c y] & Ec & Hc). cbn in Ec. rewrite Ec, (owned_lookup _ _ _ _ _ Ho Hc) in Hnb. done. }
    split; [cbn; by rewrite Hm', Hm|by apply NoDup_cons| |done].
    intros b [->|Hb']%elem_of_cons; [|by apply Hn]. cbn. rewrite Hm, put_ne in Hnb by done. done.
Qed.

End ownership.
