(* ===== verification/UdpClient.v ===== *)
(** * The UDP client

    [integration-tests/container/udp/udp-client.c]: the program that sends the text to its
    targets once per period with the system call of its choice.  The words of the command line
    are arrays of characters that [get_targets] writes to; the options are those that
    [getopt_long] finds, with [argv] as it leaves it. *)

From stdpp Require Import gmap.
From S2P Require Import Prelude Containers Utility UdpMemory.

Open Scope Z_scope.
Open Scope collector_scope.

(** ** Data *)

Definition LOREM_IPSUM : str :=
  lit "Lorem ipsum dolor sit amet, consectetur adipiscing elit. " ++
  lit "Sed do eiusmod tempor incididunt ut labore et dolore magna aliqua. " ++
  lit "Ut enim ad minim veniam, quis nostrud exercitation ullamco laboris nisi ut aliquip ex ea commodo consequat. " ++
  lit "Duis aute irure dolor in reprehenderit in voluptate velit esse cillum dolore eu fugiat nulla pariatur. " ++
  lit "Excepteur sint occaecat cupidatat non proident, sunt in culpa qui officia deserunt mollit anim id est laborum." ++
  ["010"%char; NUL].

Definition LOREM_IPSUM_LEN : Z := Z.of_nat (length LOREM_IPSUM).
Definition IOVEC_N : nat := 16.
Definition MMSGHDR_N : Z := 32.

Inductive send_method := SENDTO | SENDMSG | SENDMMSG.

Record target_array := mkTargets { t_ptr : ptr; t_len : Z }.
Record config := mkConfig { c_family : Z; c_period : Z; c_syscall : send_method; c_msgs : Z }.
Record run_data := mkRunData {
  rd_syscall : send_method; rd_targets : target_array; rd_fd : Z; rd_period : Z; rd_msgs : Z }.

Section client.
Context `{Posix}.

(** ** Messages *)

Definition iovec_free (iov : ptr) (w : world) : option world := free iov w.

Definition iovec_new (w : world) : option (ptr * world) :=
  let '(iov, w) := alloc (IOV (replicate IOVEC_N zero_iovec)) w in
  match iov with
  | NULL => Some (NULL, w)
  | _ =>
      let! (_, w) := for_int (E := unit) IOVEC_N 0
        (fun i w => let! w := store_iov iov i (mkIovec LOREM LOREM_IPSUM_LEN) w in Some (None, w)) w in
      Some (iov, w)
  end.

(** The number of messages is an [unsigned int]. *)
Definition mmsghdr_free (mmh : ptr) (len msgs_per_target : Z) (w : world) : option world :=
  match mmh with
  | NULL => Some w
  | _ =>
      let! (_, w) := for_int (E := unit) (Z.to_nat (wrap 32 (len * msgs_per_target))) 0
        (fun i w => let! m := load_mmsg mmh i w in let! w := iovec_free (msg_iov (msg_hdr m)) w in Some (None, w)) w in
      free mmh w
  end.

(** Lines 110-119 with [mh] at [idx]; the loop is left when there is no memory. *)
Definition fill_message (mmh server : ptr) (idx : Z) (w : world) : option (option unit * world) :=
  let! (iov, w) := iovec_new w in
  let! m := load_mmsg mmh idx w in
  let mh := msg_hdr m in
  let! w := store_mmsg mmh idx (mkMmsghdr (mkMsghdr (msg_name mh) (msg_namelen mh) iov (msg_iovlen mh)) (msg_len m)) w in
  match iov with
  | NULL => Some (Some tt, w)
  | _ =>
      let! (name, addr) := first_addr server w in
      let! w := store_mmsg mmh idx
        (mkMmsghdr (mkMsghdr name (Z.of_nat (length addr)) iov (Z.of_nat IOVEC_N)) (msg_len m)) w in
      Some (None, w)
  end.

Definition mmsghdr_new (targets : target_array) (msgs_per_target : Z) (w : world) : option (ptr * world) :=
  let '(mmh, w) := alloc (MMSG (replicate (Z.to_nat (wrap 32 (t_len targets * msgs_per_target))) zero_mmsghdr)) w in
  match mmh with
  | NULL => Some (NULL, w)
  | _ =>
      let! (failed, w) := for_int (Z.to_nat (t_len targets)) 0
        (fun i w =>
           let! server := load_target (t_ptr targets) i w in
           for_int (Z.to_nat msgs_per_target) 0
             (fun j w => fill_message mmh server (wrap 32 (j + wrap 32 (i * msgs_per_target))) w) w) w in
      match failed with
      | Some _ => let! w := mmsghdr_free mmh (t_len targets) msgs_per_target w in Some (NULL, w)
      | None => Some (mmh, w)
      end
  end.

(** ** What the system sends *)

Definition read_base (p : ptr) (len : Z) : option str :=
  match p with
  | LOREM => if len <=? LOREM_IPSUM_LEN then Some (take (Z.to_nat len) LOREM_IPSUM) else None
  | _ => None
  end.

Fixpoint gather (l : list iovec) : option str :=
  match l with
  | [] => Some []
  | v :: l => let! s := read_base (iov_base v) (iov_len v) in let! t := gather l in Some (s ++ t)
  end.

(** The destination and the data of a message. *)
Definition message (mh : msghdr) (w : world) : option (list ascii * str) :=
  let! dest := read_addr (msg_name mh) (msg_namelen mh) w in
  match msg_iov mh with
  | AT b =>
      match mem w !! b with
      | Some (IOV l) =>
          if Z.to_nat (msg_iovlen mh) <=? length l then
            let! s := gather (take (Z.to_nat (msg_iovlen mh)) l) in Some (dest, s)
          else None
      | _ => None
      end
  | _ => None
  end%nat.

(** [sendto] and [sendmsg]: 0, or the error number. *)
Definition send (fd : Z) (dest : list ascii) (s : str) (w : world) : Z * world :=
  match send_result (calls w) with
  | inl e => (e, called w)
  | inr _ => (0, emit (Sent fd dest s) (called w))
  end.

(** [sendmmsg]: an error, or the messages up to the one the system did not take. *)
Definition sendmmsg (fd : Z) (mmh : ptr) (vlen : Z) (w : world) : option (Z * world) :=
  match sendmmsg_result (calls w) with
  | inl e => Some (e, called w)
  | inr k =>
      let! (_, w) := for_int (E := unit) (Nat.min k (Z.to_nat vlen)) 0
        (fun i w =>
           let! m := load_mmsg mmh i w in
           let! (dest, s) := message (msg_hdr m) w in Some (None, emit (Sent fd dest s) w)) (called w) in
      Some (0, w)
  end.

(** ** Sending *)

(** The loops return an error number. *)
Definition returned (r : option Z) : Z := match r with Some e => e | None => 0 end.

Definition send_sendto (d : run_data) (w : world) : option (Z * world) :=
  let! (r, w) := for_int (Z.to_nat (t_len (rd_targets d))) 0
    (fun i w =>
       let! addr := load_target (t_ptr (rd_targets d)) i w in
       let! (p, a) := first_addr addr w in
       let! dest := read_addr p (Z.of_nat (length a)) w in
       let! s := read_base LOREM LOREM_IPSUM_LEN in
       let '(e, w) := send (rd_fd d) dest s w in
       Some (if e =? 0 then None else Some e, w)) w in
  Some (returned r, w).

Definition send_sendmsg (d : run_data) (w : world) : option (Z * world) :=
  let! (r, w) := for_int (Z.to_nat (t_len (rd_targets d))) 0
    (fun i w =>
       let! addr := load_target (t_ptr (rd_targets d)) i w in
       let! (iov, w) := iovec_new w in
       match iov with
       | NULL => Some (Some ENOMEM, w)
       | _ =>
           let! (p, a) := first_addr addr w in
           let! (dest, s) := message (mkMsghdr p (Z.of_nat (length a)) iov (Z.of_nat IOVEC_N)) w in
           let '(err, w) := send (rd_fd d) dest s w in
           let! w := iovec_free iov w in
           Some (if err =? 0 then None else Some err, w)
       end) w in
  Some (returned r, w).

Definition send_sendmmsg (d : run_data) (w : world) : option (Z * world) :=
  let vlen := wrap 32 (t_len (rd_targets d) * rd_msgs d) in
  let! (mmh, w) := mmsghdr_new (rd_targets d) (rd_msgs d) w in
  match mmh with
  | NULL => Some (ENOMEM, w)
  | _ =>
      let! (err, w) := sendmmsg (rd_fd d) mmh vlen w in
      let! w := mmsghdr_free mmh (t_len (rd_targets d)) (rd_msgs d) w in
      Some (err, w)
  end.

Definition m_send (d : run_data) (w : world) : option (Z * world) :=
  let w := emit (Out (lit "Sending data...")) w in
  match rd_syscall d with
  | SENDTO => send_sendto d w
  | SENDMSG => send_sendmsg d w
  | SENDMMSG => send_sendmmsg d w
  end.

(** ** The targets *)

(** The character at a position of a string, the terminating one included. *)
Definition char_at (buf : str) (i : nat) : ascii := default NUL (buf !! i).

(** Lines 221-243 on a word of the command line: the word as it is left, the host and the port. *)
Definition parse_target (family : Z) (arg : str) : option (str * str * str) :=
  if family =? AF_INET6 then
    match strrchr arg "]" with
    | None => Some (arg, c_string arg 0, lit "9090")
    | Some port =>
        if negb (bool_decide (char_at arg 0 = "["%char)) || negb (bool_decide (char_at arg (port + 1) = ":"%char)) then None
        else
          let arg := <[port := NUL]> arg in
          Some (arg, c_string arg 1, c_string arg (port + 2))
    end
  else
    match strrchr arg ":" with
    | Some port =>
        let arg := <[port := NUL]> arg in
        Some (arg, c_string arg 0, c_string arg (port + 1))
    | None => Some (arg, c_string arg 0, lit "9090")
    end.

(** The list that a successful [getaddrinfo] allocates. *)
Definition new_addrinfo (l : list addrinfo) (w : world) : ptr * world :=
  (AT (brk w), mkWorld (<[brk w := ADDRINFO l]> (mem w)) (Pos.succ (brk w)) (allocs w) (calls w) (looks w) (running w) (trace w)).

(** The loop over the servers; [args] are the words from [optind + i] on. *)
Fixpoint resolve (targets : ptr) (i : Z) (family : Z) (args : list str) (w : world) : option (bool * world) :=
  match args with
  | [] => Some (true, w)
  | ip :: args =>
      match parse_target family ip with
      | None => Some (false, emit (Err (lit "Invalid IPv6 address")) w)
      | Some (_, host, port) =>
          match getaddrinfo (calls w) (Some host) port (mkHints family SOCK_DGRAM 0) with
          | inl _ => Some (false, emit (Err (lit "getaddrinfo failed")) (called w))
          | inr l =>
              let '(servinfo, w) := new_addrinfo l (called w) in
              let! w := store_target targets i servinfo w in
              resolve targets (i + 1) family args w
          end
      end
  end.

Definition get_targets (args : list str) (family : Z) (w : world) : option (ptr * world) :=
  let '(targets, w) := alloc (TARGETS (replicate (length args) NULL)) w in
  match targets with
  | NULL => Some (NULL, emit (Err (lit "Failed to reserve memory for target servers")) w)
  | _ =>
      let! (ok, w) := resolve targets 0 family args w in
      if ok : bool then Some (targets, w) else let! w := free targets w in Some (NULL, w)
  end.

(** ** The program *)

(** [None] when it has not returned after [fuel] tests of [running]. *)
Fixpoint run (fuel : nat) (d : run_data) (w : world) : option (option Z * world) :=
  match fuel with
  | O => Some (None, w)
  | S fuel =>
      let '(go, w) := test_running w in
      if negb go then Some (Some 0, w) else
      let! (ret, w) := m_send d w in
      if negb (ret =? 0) then Some (Some (-1), emit (Err (lit "send failed")) w)
      else run fuel d (emit (Slept (rd_period d)) w)
  end.

Definition usage (prog : str) (w : world) : world :=
  fold_left (fun w line => emit (Out line) w)
    [prog ++ lit " [FLAGS] <IP> [... IP]"; []; lit "<IP>:"; lit "	The IP of the server to send messages to.";
     lit "	Can specify multiple destinations."; lit "[FLAGS]:";
     lit "  -6, --ipv6"; lit "	Use IPv6 instead of IPv4, the provided IP must be in the correct format"; [];
     lit "  -h, --help"; lit "	Show this help message"; [];
     lit "  -p, --period=2"; lit "	Period used to send data"; [];
     lit "  -s, --syscall=" ++ ["034"%char] ++ lit "sendto" ++ ["034"%char];
     lit "	Syscall to be used for sending messages"; lit "	One of: sendto, sendmsg, sendmmsg"; [];
     lit "  -m, --messages=32"; lit "	Messages to send to each target when using sendmmsg"; []] w.

(** [atoi], which is undefined when the value is not one of an [int]. *)
Definition atoi (s : str) : option Z :=
  let '(sign, s) := read_sign (skip_spaces s) in
  let '(v, _, _) := read_digits s 0 0 in
  if (- 2 ^ 31 <=? sign * v) && (sign * v <? 2 ^ 31) then Some (sign * v) else None.

Definition parse_method (name : str) : option send_method :=
  if bool_decide (name = lit "sendto") then Some SENDTO
  else if bool_decide (name = lit "sendmsg") then Some SENDMSG
  else if bool_decide (name = lit "sendmmsg") then Some SENDMMSG
  else None.

(** The loop over the options: the configuration, or the value that [main] returns. *)
Fixpoint options_loop (prog : str) (opts : list (ascii * str)) (c : config) (w : world) : option ((config + Z) * world) :=
  match opts with
  | [] => Some (inl c, w)
  | (opt, optarg) :: opts =>
      if bool_decide (opt = "6"%char) then options_loop prog opts (mkConfig AF_INET6 (c_period c) (c_syscall c) (c_msgs c)) w
      else if bool_decide (opt = "h"%char) then Some (inr 0, usage prog w)
      else if bool_decide (opt = "p"%char) then
        let! n := atoi optarg in options_loop prog opts (mkConfig (c_family c) n (c_syscall c) (c_msgs c)) w
      else if bool_decide (opt = "s"%char) then
        match parse_method optarg with
        | Some m => options_loop prog opts (mkConfig (c_family c) (c_period c) m (c_msgs c)) w
        | None => Some (inr (-1), usage prog (emit (Err (lit "Unknown send method: " ++ optarg)) w))
        end
      else if bool_decide (opt = "m"%char) then
        let! n := atoi optarg in options_loop prog opts (mkConfig (c_family c) (c_period c) (c_syscall c) (wrap 32 n)) w
      else Some (inr (-1), usage prog (emit (Err (lit "Unknown option")) w))
  end.

Definition default_config : config := mkConfig AF_INET 2 SENDTO MMSGHDR_N.

(** Lines 364-369. *)
Definition cleanup (d : run_data) (w : world) : option world :=
  let! (_, w) := for_int (E := unit) (Z.to_nat (t_len (rd_targets d))) 0
    (fun i w =>
       let! addr := load_target (t_ptr (rd_targets d)) i w in
       let! w := freeaddrinfo addr w in
       Some (None, emit (Closed (rd_fd d)) w)) w in
  free (t_ptr (rd_targets d)) w.

(** [opts] and [args] are the options and the other words that [getopt_long] finds. *)
Definition main (fuel : nat) (prog : str) (opts : list (ascii * str)) (args : list str) (w : world) : option (option Z * world) :=
  let! (r, w) := options_loop prog opts default_config w in
  match r with
  | inr ret => Some (Some ret, w)
  | inl config =>
      match args with
      | [] => Some (Some (-1), usage prog (emit (Err (lit "Missing required argument")) w))
      | _ =>
          let! (targets, w) := get_targets args (c_family config) w in
          match targets with
          | NULL => Some (Some (-1), w)
          | _ =>
              match socket_result (calls w) with
              | inl _ => Some (Some (-1), emit (Err (lit "Failed to create socket")) (called w))
              | inr fd =>
                  let d := mkRunData (c_syscall config) (mkTargets targets (Z.of_nat (length args))) fd (c_period config) (c_msgs config) in
                  let! (ret, w) := run fuel d (emit (Opened fd) (called w)) in
                  match ret with
                  | None => Some (None, w)
                  | Some ret => let! w := cleanup d w in Some (Some ret, w)
                  end
              end
          end
      end
  end.

End client.

(** ** Lemmas on messages *)

Definition full_iov : list iovec := replicate IOVEC_N (mkIovec LOREM LOREM_IPSUM_LEN).

(** The data of a message of [IOVEC_N] copies of the text. *)
Definition copies : str := concat (replicate IOVEC_N LOREM_IPSUM).

Lemma LOREM_IPSUM_LEN_nat : Z.to_nat LOREM_IPSUM_LEN = length LOREM_IPSUM.
Proof. unfold LOREM_IPSUM_LEN. lia. Qed.

Lemma read_base_all : read_base LOREM LOREM_IPSUM_LEN = Some LOREM_IPSUM.
Proof. unfold read_base. rewrite Z.leb_refl, LOREM_IPSUM_LEN_nat. by rewrite firstn_all. Qed.

Lemma gather_full : gather full_iov = Some copies.
Proof.
  unfold full_iov, copies. induction IOVEC_N as [|n IH]; [done|]. cbn [replicate gather concat iov_base iov_len].
  by rewrite read_base_all, IH.
Qed.

Section proofs.
Context `{Posix}.

Lemma store_text_at b k v z n m w : mem w = <[b := IOV (replicate k v ++ replicate (S n) z)]> m ->
  store_iov (AT b) (Z.of_nat k) v w = Some (set_mem (fun _ => <[b := IOV (replicate (S k) v ++ replicate n z)]> m) w).
Proof.
  intros E. unfold store_iov. rewrite E, lookup_insert_eq, Nat2Z.id.
  replace (Nat.ltb k _) with true by (symmetry; apply Nat.ltb_lt; rewrite length_app, !length_replicate; lia).
  f_equal. unfold set_mem. f_equal. rewrite E, insert_insert_eq. do 2 f_equal.
  rewrite insert_app_r_alt by (rewrite length_replicate; lia). rewrite length_replicate, Nat.sub_diag.
  rewrite (replicate_S_end k), <- app_assoc. done.
Qed.

(** A new array of vectors, or none and nothing else. *)
Lemma send_iovec_spec w : fresh w ->
  exists p w', iovec_new w = Some (p, w') /\ quiet w w' /\ fresh w' /\
    ((p = NULL /\ mem w' = mem w /\ brk w' = brk w) \/
     (p = AT (brk w) /\ mem w' = <[brk w := IOV full_iov]> (mem w) /\ mem w !! brk w = None /\ brk w' = Pos.succ (brk w))).
Proof.
  intros Hf. unfold iovec_new. pose proof (alloc_spec (IOV (replicate IOVEC_N zero_iovec)) w Hf) as (Hq & Hf' & Hc).
  destruct (alloc _ w) as [p w1]. cbn [fst snd] in *. destruct Hc as [(-> & Hm & Hb)|(-> & Hm & Hn & Hb)].
  { exists NULL, w1. split_and!; [done..|]. by left. }
  set (v := mkIovec LOREM LOREM_IPSUM_LEN).
  destruct (for_int_inv (E := unit)
    (fun k w2 => quiet w w2 /\ brk w2 = brk w1 /\
       mem w2 = <[brk w := IOV (replicate k v ++ replicate (IOVEC_N - k) zero_iovec)]> (mem w))
    (fun _ _ => False) IOVEC_N 0 (fun i w' => let! w' := store_iov (AT (brk w)) i v w' in Some (None, w')) w1)
    as (r & w2 & E & Hr); [| |split; [exact Hq|split; [done|exact Hm]]|].
  - intros k w2 Hk (Hq2 & Hb2 & Hm2). replace (IOVEC_N - k)%nat with (S (IOVEC_N - S k)) in Hm2 by lia.
    rewrite Z.add_0_l, (store_text_at _ _ _ _ _ _ _ Hm2). by eexists None, _.
  - by vm_compute.
  - rewrite E. destruct r as [[]|]; [done|]. destruct Hr as (Hq2 & Hb2 & Hm2). exists (AT (brk w)), w2.
    rewrite Nat.sub_diag, app_nil_r in Hm2. split_and!; [done..| |].
    + intros c Hc. rewrite Hm2, lookup_insert_ne by lia. apply Hf. lia.
    + right. split_and!; try done. congruence.
Qed.

(** ** Lemmas on sending *)

(** The array [tb] of targets holds the lists [bs] of addresses, the first of which are [addrs]. *)
Record targets_at (m : memory) (t : target_array) (tb : positive) (bs : list positive) (addrs : list (list ascii)) : Prop := {
  ta_ptr : t_ptr t = AT tb;
  ta_array : m !! tb = Some (TARGETS (AT <$> bs));
  ta_len : t_len t = Z.of_nat (length bs);
  ta_int : Z.of_nat (length bs) < 2 ^ 31;
  ta_addrs : Forall2 (fun b a => exists x rest, m !! b = Some (ADDRINFO (x :: rest)) /\ ai_addr x = a) bs addrs
}.

Lemma targets_lookup m t tb bs addrs k a w :
  targets_at m t tb bs addrs -> m ⊆ mem w -> addrs !! k = Some a ->
  exists b, bs !! k = Some b /\ load_target (t_ptr t) (Z.of_nat k) w = Some (AT b) /\
    first_addr (AT b) w = Some (AI_ADDR b, a) /\ read_addr (AI_ADDR b) (Z.of_nat (length a)) w = Some a.
Proof.
  intros [Hp Ha _ _ Hf] Hs Hk. destruct (Forall2_lookup_r _ _ _ _ _ Hf Hk) as (b & Hb & x & rest & Hx & <-). exists b.
  pose proof (lookup_weaken _ _ _ _ Ha Hs) as Ha'. pose proof (lookup_weaken _ _ _ _ Hx Hs) as Hx'. split_and!; [done|..].
  - unfold load_target. rewrite Hp, Ha', Nat2Z.id, list_lookup_fmap, Hb. done.
  - unfold first_addr. by rewrite Hx'.
  - unfold read_addr. rewrite Hx', Nat2Z.id, Nat.leb_refl. by rewrite firstn_all.
Qed.

(** From [w] to [w'] the first [k] datagrams of a plan are sent; memory is as it was. *)
Record sends (fd : Z) (plan : list (list ascii * str)) (w w' : world) (k : nat) : Prop := {
  sd_mem : mem w' = mem w;
  sd_fresh : fresh w';
  sd_looks : looks w' = looks w;
  sd_running : running w' = running w;
  sd_trace : trace w' = trace w ++ map (fun p => Sent fd p.1 p.2) (take k plan)
}.

Lemma sends_none fd plan w : fresh w -> sends fd plan w w 0.
Proof. by split; try done; rewrite take_0, app_nil_r. Qed.

(** One more datagram, or none. *)
Lemma sends_more fd plan w w1 w2 k dest s :
  sends fd plan w w1 k -> plan !! k = Some (dest, s) ->
  mem w2 = mem w -> fresh w2 -> looks w2 = looks w1 -> running w2 = running w1 -> trace w2 = trace w1 ++ [Sent fd dest s] ->
  sends fd plan w w2 (S k).
Proof.
  intros [Hm Hf Hl Hr Ht] Hk ? ? ? ? E. split; [done|done|congruence|congruence|]. rewrite E, Ht, <- app_assoc, (take_S_r _ _ _ Hk), map_app. done.
Qed.

Lemma sends_same fd plan w w1 w2 k :
  sends fd plan w w1 k -> mem w2 = mem w -> fresh w2 -> looks w2 = looks w1 -> running w2 = running w1 -> trace w2 = trace w1 ->
  sends fd plan w w2 k.
Proof. intros [Hm Hf Hl Hr Ht] ? ? ? ? E. split; [done|done|congruence..]. Qed.

Lemma send_effect `{!PosixLaws} fd dest s w :
  let r := send fd dest s w in
  mem r.2 = mem w /\ brk r.2 = brk w /\ looks r.2 = looks w /\ running r.2 = running w /\
  ((r.1 = 0 /\ trace r.2 = trace w ++ [Sent fd dest s]) \/ (0 < r.1 /\ trace r.2 = trace w)).
Proof.
  unfold send. destruct (send_result (calls w)) as [e|] eqn:E; cbn; split_and!; try done; [right|by left].
  split; [by eapply send_errno|done].
Qed.

(** What the methods mean to send. *)
Definition planned (m : send_method) (msgs : Z) (addrs : list (list ascii)) : list (list ascii * str) :=
  match m with
  | SENDTO => map (fun a => (a, LOREM_IPSUM)) addrs
  | SENDMSG => map (fun a => (a, copies)) addrs
  | SENDMMSG => flat_map (fun a => replicate (Z.to_nat msgs) (a, copies)) addrs
  end.

(** How a call to send ends: all is sent, or there is an error and it is not. *)
Definition ended (fd : Z) (plan : list (list ascii * str)) (w : world) (r : Z) (w' : world) : Prop :=
  exists k, sends fd plan w w' k /\ ((r = 0 /\ k = length plan) \/ (0 < r /\ (k < length plan)%nat)).

(** The loop over the targets: each pass sends the datagram of its target or fails. *)
Lemma send_loop fd plan n body w :
  length plan = n -> Z.of_nat n < 2 ^ 31 -> fresh w ->
  (forall k w1, (k < n)%nat -> sends fd plan w w1 k ->
     exists r w2, body (Z.of_nat k) w1 = Some (r, w2) /\
       match r with None => sends fd plan w w2 (S k) | Some e => 0 < e /\ sends fd plan w w2 k end) ->
  exists r w', (let! (r, w) := for_int n 0 body w in Some (returned r, w)) = Some (r, w') /\ ended fd plan w r w'.
Proof.
  intros Hpl Hint Hf Hb.
  destruct (for_int_inv (fun k w' => sends fd plan w w' k)
    (fun e w' => exists k, (k < length plan)%nat /\ 0 < e /\ sends fd plan w w' k) n 0 body w) as (r & w' & E & Hr).
  - intros k w1 Hk Hs. rewrite Z.add_0_l. destruct (Hb k w1 Hk Hs) as (r & w2 & E & Hr). exists r, w2. split; [done|].
    destruct r as [e|]; [|done]. exists k. split; [by rewrite Hpl|done].
  - lia.
  - by apply sends_none.
  - rewrite E. eexists _, _. split; [reflexivity|]. destruct r as [e|]; cbn [returned].
    + destruct Hr as (k & Hk & He & Hs). exists k. split; [done|]. by right.
    + exists n. split; [done|]. by left.
Qed.

Lemma send_sendto_spec `{!PosixLaws} d w tb bs addrs :
  fresh w -> targets_at (mem w) (rd_targets d) tb bs addrs ->
  exists r w', send_sendto d w = Some (r, w') /\ ended (rd_fd d) (planned SENDTO 0 addrs) w r w'.
Proof.
  intros Hf Ht. pose proof Ht as [_ _ Hlen Hint Hall]. apply Forall2_length in Hall. unfold send_sendto. rewrite Hlen, Nat2Z.id.
  apply send_loop; [cbn; by rewrite length_map|done..|]. intros k w1 Hk Hs.
  destruct (lookup_lt_is_Some_2 addrs k ltac:(lia)) as [a Ha].
  destruct (targets_lookup _ _ _ _ _ k a w1 Ht) as (b & Hb & E1 & E2 & E3); [by rewrite (sd_mem _ _ _ _ _ Hs)|done|].
  rewrite E1, E2, E3, read_base_all. pose proof (send_effect (rd_fd d) a LOREM_IPSUM w1) as (M & B & L & R & T).
  destruct (send _ _ _ w1) as [e w2]. cbn [fst snd] in *. eexists _, _. split; [reflexivity|].
  assert (mem w2 = mem w) as Hm by (by rewrite M, (sd_mem _ _ _ _ _ Hs)).
  assert (fresh w2) as Hf2 by (eapply fresh_same; [exact M|exact B|apply Hs]).
  destruct T as [(-> & T)|(He & T)]; cbn [Z.eqb].
  - eapply sends_more; try done. cbn. by rewrite list_lookup_fmap, Ha.
  - rewrite (proj2 (Z.eqb_neq e 0)) by lia. split; [done|]. by eapply sends_same.
Qed.

Lemma message_full w b a ib :
  read_addr (AI_ADDR b) (Z.of_nat (length a)) w = Some a -> mem w !! ib = Some (IOV full_iov) ->
  message (mkMsghdr (AI_ADDR b) (Z.of_nat (length a)) (AT ib) (Z.of_nat IOVEC_N)) w = Some (a, copies).
Proof.
  intros Ea Ei. unfold message. cbn [msg_name msg_namelen msg_iov msg_iovlen]. rewrite Ea, Ei, Nat2Z.id.
  unfold full_iov. rewrite length_replicate, Nat.leb_refl. fold full_iov.
  rewrite firstn_all2 by (unfold full_iov; by rewrite length_replicate). by rewrite gather_full.
Qed.

Lemma send_sendmsg_spec `{!PosixLaws} d w tb bs addrs :
  fresh w -> targets_at (mem w) (rd_targets d) tb bs addrs ->
  exists r w', send_sendmsg d w = Some (r, w') /\ ended (rd_fd d) (planned SENDMSG 0 addrs) w r w'.
Proof.
  intros Hf Ht. pose proof Ht as [_ _ Hlen Hint Hall]. apply Forall2_length in Hall. unfold send_sendmsg. rewrite Hlen, Nat2Z.id.
  apply send_loop; [cbn; by rewrite length_map|done..|]. intros k w1 Hk Hs.
  destruct (lookup_lt_is_Some_2 addrs k ltac:(lia)) as [a Ha].
  destruct (targets_lookup _ _ _ _ _ k a w1 Ht) as (b & Hb & E1 & E2 & E3); [by rewrite (sd_mem _ _ _ _ _ Hs)|done|].
  rewrite E1. destruct (send_iovec_spec w1 ltac:(apply Hs)) as (p & w2 & Ep & (Qc & Ql & Qr & Qt) & Hf2 & [(-> & Hm & Hbk)|(-> & Hm & Hn & Hbk)]).
  { rewrite Ep. eexists _, _. split; [reflexivity|]. split; [done|]. eapply sends_same; try done. by rewrite Hm, (sd_mem _ _ _ _ _ Hs). }
  rewrite Ep. assert (mem w ⊆ mem w2) as Hsub by (rewrite Hm, <- (sd_mem _ _ _ _ _ Hs); by apply insert_subseteq).
  destruct (targets_lookup _ _ _ _ _ k a w2 Ht Hsub Ha) as (b' & Hb' & _ & E2' & E3').
  assert (b' = b) as -> by congruence. rewrite E2', (message_full w2 b a (brk w1) E3') by (rewrite Hm; apply lookup_insert_eq).
  pose proof (send_effect (rd_fd d) a copies w2) as (M & B & L & R & T).
  destruct (send _ _ _ w2) as [e w3]. cbn [fst snd] in *. unfold iovec_free.
  rewrite (free_at (brk w1) _ (mem w1) w3) by (rewrite ?M; done). eexists _, _. split; [reflexivity|].
  assert (fresh (set_mem (fun _ => mem w1) w3)) as Hf3.
  { intros c Hc. cbn in *. apply (sd_fresh _ _ _ _ _ Hs). rewrite B, Hbk in Hc. lia. }
  destruct T as [(-> & T)|(He & T)]; cbn [Z.eqb].
  - apply (sends_more _ _ _ _ _ _ a copies Hs); [cbn; by rewrite list_lookup_fmap, Ha|apply Hs|done|cbn [looks running trace set_mem]; congruence..].
  - rewrite (proj2 (Z.eqb_neq e 0)) by lia. split; [done|]. apply (sends_same _ _ _ _ _ _ Hs); [apply Hs|done|cbn [looks running trace set_mem]; congruence..].
Qed.

(** ** Lemmas on arrays of messages *)

Lemma mmsg_at mb l h m w : mem w = put l (<[mb := MMSG h]> m) -> mb ∉ l.*1 ->
  (forall k, load_mmsg (AT mb) (Z.of_nat k) w = h !! k) /\
  (forall k v, (k < length h)%nat ->
     store_mmsg (AT mb) (Z.of_nat k) v w = Some (set_mem (fun _ => put l (<[mb := MMSG (<[k := v]> h)]> m)) w)).
Proof.
  intros E Hb. assert (mem w !! mb = Some (MMSG h)) as El by (by rewrite E, put_ne, lookup_insert_eq).
  split; intros k; [|intros v Hk]; unfold load_mmsg, store_mmsg; rewrite El, Nat2Z.id; [done|].
  rewrite (proj2 (Nat.ltb_lt _ _)) by done. f_equal. unfold set_mem. f_equal. by rewrite E, put_insert, insert_insert_eq.
Qed.

Lemma flat_replicate_lookup {X} n (l : list X) i j x : l !! i = Some x -> (j < n)%nat ->
  flat_map (fun x => replicate n x) l !! (i * n + j)%nat = Some x.
Proof.
  revert i. induction l as [|y l IH]; intros i Hi Hj; [done|]. cbn [flat_map]. destruct i as [|i].
  - injection Hi as ->. rewrite lookup_app_l by (rewrite length_replicate; lia). apply lookup_replicate. split; [done|lia].
  - rewrite lookup_app_r by (rewrite length_replicate; lia). rewrite length_replicate.
    replace (S i * n + j - n)%nat with (i * n + j)%nat by lia. by apply IH.
Qed.

Lemma flat_replicate_length {X} n (l : list X) : length (flat_map (fun x => replicate n x) l) = (length l * n)%nat.
Proof. induction l as [|x l IH]; [done|]. cbn. rewrite length_app, length_replicate, IH. lia. Qed.

Section messages.
(** The memory before, the array, and for each message the list with its address. *)
Context (m : memory) (mb : positive) (servers : list (positive * list ascii)).

Definition hdr (s : positive * list ascii) (id : positive) : mmsghdr :=
  mkMmsghdr (mkMsghdr (AI_ADDR s.1) (Z.of_nat (length s.2)) (AT id) (Z.of_nat IOVEC_N)) 0.

Definition vectors (ids : list positive) : list (positive * block) := map (fun id => (id, IOV full_iov)) ids.

Definition headers (ids : list positive) : list mmsghdr :=
  zip_with hdr servers ids ++ replicate (length servers - length ids) zero_mmsghdr.

(** The first messages are filled in, with vectors in the blocks [ids]. *)
Record filled (ids : list positive) (w : world) : Prop := {
  fl_mem : mem w = put (vectors ids) (<[mb := MMSG (headers ids)]> m);
  fl_dup : NoDup ids;
  fl_new : Forall (fun id => m !! id = None /\ id <> mb /\ (id < brk w)%positive) ids;
  fl_len : (length ids <= length servers)%nat;
  fl_mb : m !! mb = None /\ (mb < brk w)%positive;
  fl_fresh : fresh w
}.

Lemma vectors_keys ids : (vectors ids).*1 = ids.
Proof. induction ids as [|i ids IH]; [done|]. change (i :: (vectors ids).*1 = i :: ids). by rewrite IH. Qed.

Lemma vectors_app l l' : vectors (l ++ l') = vectors l ++ vectors l'.
Proof. apply map_app. Qed.

Lemma headers_length ids : (length ids <= length servers)%nat -> length (headers ids) = length servers.
Proof. intros Hl. unfold headers. rewrite length_app, length_zip_with, length_replicate. lia. Qed.

Lemma headers_at ids k s id : servers !! k = Some s -> ids !! k = Some id -> headers ids !! k = Some (hdr s id).
Proof.
  intros Hs Hi. unfold headers. apply lookup_app_l_Some. apply lookup_zip_with_Some. by exists s, id.
Qed.

Lemma headers_after ids k : (length ids <= k < length servers)%nat -> headers ids !! k = Some zero_mmsghdr.
Proof.
  intros Hk. unfold headers. rewrite lookup_app_r by (rewrite length_zip_with; lia). rewrite length_zip_with.
  apply lookup_replicate. split; [done|lia].
Qed.

Lemma headers_snoc ids s id : servers !! length ids = Some s ->
  <[length ids := hdr s id]> (headers ids) = headers (ids ++ [id]).
Proof.
  intros Hs. pose proof (lookup_lt_Some _ _ _ Hs) as Hl. apply list_eq. intros k.
  destruct (decide (k = length ids)) as [->|Hne].
  - rewrite list_lookup_insert_eq by (rewrite headers_length; lia). symmetry. apply headers_at; [done|].
    by rewrite lookup_app_r, Nat.sub_diag by lia.
  - rewrite list_lookup_insert_ne by done. destruct (decide (k < length ids)%nat) as [Hk|Hk].
    + destruct (lookup_lt_is_Some_2 ids k Hk) as [j Hj]. destruct (lookup_lt_is_Some_2 servers k ltac:(lia)) as [t Ht].
      rewrite (headers_at ids k t j) by done. symmetry. apply headers_at; [done|]. by rewrite lookup_app_l by lia.
    + destruct (decide (k < length servers)%nat) as [Hk'|Hk'].
      * by rewrite !headers_after by (rewrite ?length_app; cbn; lia).
      * by rewrite !lookup_ge_None_2 by (rewrite headers_length, ?length_app; rewrite ?length_app; cbn; lia).
Qed.

Lemma filled_mb ids w : filled ids w -> mb ∉ (vectors ids).*1.
Proof. intros Hfl Hin. rewrite vectors_keys in Hin. destruct Hfl as [_ _ Hn _ _ _]. rewrite Forall_forall in Hn. by apply Hn in Hin as (_ & ? & _). Qed.

Lemma filled_sub ids w : filled ids w -> m ⊆ mem w.
Proof.
  intros Hfl. apply map_subseteq_spec. intros b x Hb. rewrite (fl_mem _ _ Hfl). rewrite put_ne.
  - rewrite lookup_insert_ne; [done|]. intros <-. destruct (fl_mb _ _ Hfl). congruence.
  - rewrite vectors_keys. intros Hin. destruct Hfl as [_ _ Hn _ _ _]. rewrite Forall_forall in Hn. apply Hn in Hin as (? & _). congruence.
Qed.

Lemma filled_base ids w c : filled ids w -> (brk w <= c)%positive -> m !! c = None.
Proof.
  intros [Hm _ Hn _ [_ Hlt] Hf] Hc. specialize (Hf c Hc). rewrite Hm, put_ne, lookup_insert_ne in Hf; [done|lia|].
  rewrite vectors_keys. intros Hin. rewrite Forall_forall in Hn. apply Hn in Hin as (_ & _ & ?). lia.
Qed.

(** One more message, or no memory for it. *)
Lemma fill_send_message_spec ids w b a :
  filled ids w -> servers !! length ids = Some (b, a) -> (exists x rest, m !! b = Some (ADDRINFO (x :: rest)) /\ ai_addr x = a) ->
  exists r w', fill_message (AT mb) (AT b) (Z.of_nat (length ids)) w = Some (r, w') /\ quiet w w' /\
    match r with None => exists id, filled (ids ++ [id]) w' | Some _ => filled ids w' end.
Proof.
  intros Hfl Hs (x & rest & Hx & Ha). pose proof (lookup_lt_Some _ _ _ Hs) as Hl. pose proof (filled_mb _ _ Hfl) as Hnb.
  pose proof Hfl as [Hm Hd Hn Hle [Hmb Hlt] Hf]. unfold fill_message.
  destruct (send_iovec_spec w Hf) as (p & w1 & E & Hq & Hf1 & [(-> & Hm1 & Hb1)|(-> & Hm1 & Hn1 & Hb1)]); rewrite E.
  - rewrite Hm in Hm1. destruct (mmsg_at _ _ _ _ _ Hm1 Hnb) as [El Es].
    rewrite El, headers_after by lia. cbn [zero_mmsghdr msg_hdr msg_len msg_name msg_namelen msg_iov msg_iovlen].
    rewrite Es by (rewrite headers_length; lia). eexists _, _. split; [reflexivity|]. split; [exact Hq|].
    assert (<[length ids:=mkMmsghdr (mkMsghdr NULL 0 NULL 0) 0]> (headers ids) = headers ids) as ->
      by (apply list_insert_id, headers_after; lia).
    split; [done..| |done|split; [done|cbn; by rewrite Hb1]|].
    + cbn. rewrite Hb1. done.
    + eapply fresh_same; [|exact Hb1|exact Hf]. by rewrite Hm.
  - set (id := brk w) in *. assert (id ∉ ids) as Hid.
    { intros Hin. rewrite Forall_forall in Hn. apply Hn in Hin as (_ & _ & Hin). unfold id in *. lia. }
    assert (forall c, c ∈ ids -> (c < id)%positive) as Hold by (intros c Hc; rewrite Forall_forall in Hn; by apply Hn).
    assert (forall c, (id <= c)%positive -> m !! c = None) as Hmc.
    { intros c Hc. by eapply filled_base. }
    assert (mem w1 = put ((id, IOV full_iov) :: vectors ids) (<[mb := MMSG (headers ids)]> m)) as Hm1' by (rewrite Hm1, Hm; done).
    assert (mb ∉ ((id, IOV full_iov) :: vectors ids).*1) as Hnb1.
    { cbn. intros [->|Hin]%elem_of_cons; [lia|done]. }
    destruct (mmsg_at _ _ _ _ _ Hm1' Hnb1) as [El Es]. rewrite El, headers_after by lia.
    cbn [zero_mmsghdr msg_hdr msg_len msg_name msg_namelen msg_iov msg_iovlen]. rewrite Es by (rewrite headers_length; lia).
    assert (forall h, put ((id, IOV full_iov) :: vectors ids) (<[mb := MMSG h]> m) !! b = Some (ADDRINFO (x :: rest))) as Hx1.
    { intros h. rewrite put_ne, lookup_insert_ne; [done|intros <-; congruence|]. cbn. rewrite vectors_keys. intros [->|Hin]%elem_of_cons.
      - rewrite Hmc in Hx by lia. done.
      - rewrite Forall_forall in Hn. apply Hn in Hin as (? & _). congruence. }
    unfold first_addr. cbn [mem set_mem]. rewrite Hx1, Ha. cbn [fst snd].
    match goal with |- context [store_mmsg _ _ _ ?w2] =>
      destruct (mmsg_at mb ((id, IOV full_iov) :: vectors ids) _ m w2 eq_refl Hnb1) as [_ Es2] end.
    rewrite Es2 by (rewrite length_insert, headers_length; lia). eexists _, _. split; [reflexivity|]. split; [exact Hq|].
    exists id. rewrite list_insert_insert_eq. pose proof (headers_snoc ids (b, a) id Hs) as Hh. unfold hdr in Hh. cbn [fst snd] in Hh. rewrite Hh.
    match goal with |- filled _ (set_mem ?f (set_mem _ ?w)) => change (filled (ids ++ [id]) (set_mem f w)) end. split.
    + cbn [mem set_mem]. rewrite vectors_app. cbn [vectors map]. rewrite put_snoc; [done|by rewrite vectors_keys].
    + apply NoDup_app. split_and!; [done|by intros c Hc ->%list_elem_of_singleton|apply NoDup_singleton].
    + cbn. rewrite Hb1. apply Forall_app. split.
      * eapply Forall_impl; [exact Hn|]. intros i (? & ? & ?). split_and!; [done..|]. fold id in H2. lia.
      * apply Forall_singleton. split_and!; [apply Hmc; lia|lia|lia].
    + rewrite length_app. cbn. lia.
    + split; [done|]. cbn. rewrite Hb1. fold id in Hlt. lia.
    + intros c Hc. cbn [mem set_mem brk] in *. rewrite Hb1 in Hc. rewrite put_ne, lookup_insert_ne; [apply Hmc; lia|lia|].
      change (c ∉ id :: (vectors ids).*1). rewrite vectors_keys. intros [->|Hin]%elem_of_cons; [lia|]. apply Hold in Hin. lia.
Qed.

(** Freeing an array of messages, however far it is filled in, gives back the memory before. *)
Lemma send_mmsghdr_free_spec ids w len msgs :
  filled ids w -> wrap 32 (len * msgs) = Z.of_nat (length servers) -> Z.of_nat (length servers) < 2 ^ 31 ->
  exists w', mmsghdr_free (AT mb) len msgs w = Some w' /\ quiet w w' /\ brk w' = brk w /\ mem w' = m.
Proof.
  intros Hfl Hlen Hint. pose proof Hfl as [Hm Hd Hn Hle [Hmb _] _]. unfold mmsghdr_free. rewrite Hlen, Nat2Z.id.
  assert (forall t, mb ∉ (vectors (drop t ids)).*1) as Hnb.
  { intros t Hin. rewrite vectors_keys in Hin. apply (filled_mb _ _ Hfl). rewrite vectors_keys. by eapply subseteq_drop. }
  match goal with |- context [for_int _ _ ?f _] => set (body := f) end.
  destruct (for_int_inv (fun t w' => quiet w w' /\ brk w' = brk w /\ mem w' = put (vectors (drop t ids)) (<[mb := MMSG (headers ids)]> m))
    (fun _ _ => False) (length servers) 0 body w) as (r & w' & E & Hr).
  - intros t w1 Ht (Hq & Hb & Hm1). destruct (mmsg_at _ _ _ _ _ Hm1 (Hnb t)) as [El _]. unfold body. rewrite Z.add_0_l, El.
    destruct (decide (t < length ids)%nat) as [Hlt|Hge].
    + destruct (lookup_lt_is_Some_2 ids t Hlt) as [id Hid]. destruct (lookup_lt_is_Some_2 servers t Ht) as [s Hs].
      rewrite (headers_at _ _ _ _ Hs Hid). cbn [hdr msg_hdr msg_iov]. unfold iovec_free. rewrite (drop_S _ _ _ Hid) in Hm1.
      rewrite (free_at id (IOV full_iov) (put (vectors (drop (S t) ids)) (<[mb:=MMSG (headers ids)]> m)) w1 Hm1); [by eexists None, _| |done].
      rewrite put_ne.
      * rewrite Forall_forall in Hn. destruct (Hn id) as (? & ? & _); [by eapply list_elem_of_lookup_2|]. by rewrite lookup_insert_ne.
      * rewrite vectors_keys. intros (j & Hj)%list_elem_of_lookup_1. rewrite lookup_drop in Hj.
        pose proof (NoDup_lookup _ _ _ _ Hd Hid Hj). lia.
    + rewrite headers_after by lia. cbn [zero_mmsghdr msg_hdr msg_iov]. unfold iovec_free. cbn [free]. eexists None, _. split; [done|].
      split_and!; [done..|]. rewrite Hm1, !drop_ge by lia. done.
  - lia.
  - rewrite drop_0. done.
  - rewrite E. destruct r as [[]|]; [done|]. destruct Hr as (Hq & Hb & Hm1). rewrite drop_ge in Hm1 by lia.
    rewrite (free_at mb _ _ _ Hm1) by done. eexists. split; [reflexivity|]. done.
Qed.

End messages.

(** The list with the address of each message. *)
Definition servers_of (bs : list positive) (addrs : list (list ascii)) (msgs : Z) : list (positive * list ascii) :=
  flat_map (fun s => replicate (Z.to_nat msgs) s) (zip bs addrs).

Lemma planned_servers bs addrs msgs : length bs = length addrs ->
  planned SENDMMSG msgs addrs = map (fun s => (s.2, copies)) (servers_of bs addrs msgs).
Proof.
  unfold servers_of, planned. revert addrs. induction bs as [|b bs IH]; intros [|a addrs] Hl; try done. cbn [zip zip_with flat_map].
  rewrite map_app, <- IH by (cbn in Hl; lia). f_equal. symmetry. etrans; [apply (fmap_replicate (fun s : positive * list ascii => (s.2, copies)))|done].
Qed.

Lemma filled_nothing w mb x servers : fresh w -> let w' := (alloc x w).2 in
  x = MMSG (replicate (length servers) zero_mmsghdr) -> (alloc x w).1 = AT mb -> filled (mem w) mb servers [] w'.
Proof.
  intros Hf w' -> E. pose proof (alloc_spec (MMSG (replicate (length servers) zero_mmsghdr)) w Hf) as (_ & Hf' & [(E' & _)|(E' & Hm & Hn & Hb)]); [congruence|].
  rewrite E' in E. injection E as <-. split.
  - fold w' in Hm. rewrite Hm. cbn [vectors map put foldr]. unfold headers. by rewrite zip_with_nil_r, Nat.sub_0_r.
  - apply NoDup_nil_2.
  - apply Forall_nil_2.
  - cbn. lia.
  - split; [done|]. fold w' in Hb. rewrite Hb. lia.
  - done.
Qed.

(** The messages of one target. *)
Lemma fill_target_spec w w2 mb t tb bs addrs msgs i ids :
  targets_at (mem w) t tb bs addrs -> 0 <= msgs -> Z.of_nat (length bs) * msgs < 2 ^ 31 -> (i < length bs)%nat ->
  let S := servers_of bs addrs msgs in
  quiet w w2 -> length ids = (i * Z.to_nat msgs)%nat -> filled (mem w) mb S ids w2 ->
  exists r w', (let! server := load_target (t_ptr t) (Z.of_nat i) w2 in
                for_int (Z.to_nat msgs) 0
                  (fun j w => fill_message (AT mb) server (wrap 32 (j + wrap 32 (Z.of_nat i * msgs))) w) w2) = Some (r, w') /\
    quiet w w' /\
    match r with
    | None => exists ids, length ids = ((i + 1) * Z.to_nat msgs)%nat /\ filled (mem w) mb S ids w'
    | Some _ => exists ids, filled (mem w) mb S ids w'
    end.
Proof.
  intros Ht Hm0 Hmax Hi S Hq2 Hl2 Hfl2. pose proof Ht as [_ _ _ _ Hall]. pose proof (Forall2_length _ _ _ Hall) as Hl.
  destruct (lookup_lt_is_Some_2 addrs i ltac:(lia)) as [a Ha].
  destruct (targets_lookup _ _ _ _ _ i a w2 Ht (filled_sub _ _ _ _ _ Hfl2) Ha) as (b & Hb & E1 & _). rewrite E1.
  destruct (Forall2_lookup_lr _ _ _ _ _ _ Hall Hb Ha) as (x & rest & Hx).
  match goal with |- context [for_int _ 0 ?f w2] => set (body := f) end.
  destruct (for_int_inv (fun j w' => quiet w w' /\ exists ids, length ids = (i * Z.to_nat msgs + j)%nat /\ filled (mem w) mb S ids w')
    (fun _ w' => quiet w w' /\ exists ids, filled (mem w) mb S ids w') (Z.to_nat msgs) 0 body w2) as (r & w' & E & Hr).
  - intros j w1 Hj (Hq1 & ids1 & Hl1 & Hfl1). unfold body. rewrite Z.add_0_l.
    assert (S !! length ids1 = Some (b, a)) as HS.
    { rewrite Hl1. apply flat_replicate_lookup; [|done]. apply lookup_zip_with_Some. by exists b, a. }
    assert (wrap 32 (Z.of_nat j + wrap 32 (Z.of_nat i * msgs)) = Z.of_nat (length ids1)) as ->.
    { assert (Z.of_nat (length ids1) = Z.of_nat i * msgs + Z.of_nat j) as -> by (rewrite Hl1, Nat2Z.inj_add, Nat2Z.inj_mul, Z2Nat.id; lia).
      assert ((Z.of_nat i + 1) * msgs <= Z.of_nat (length bs) * msgs) by (apply Z.mul_le_mono_nonneg_r; lia).
      assert (0 <= Z.of_nat i * msgs) by (apply Z.mul_nonneg_nonneg; lia).
      rewrite (wrap_id 32 (Z.of_nat i * msgs)), wrap_id by (unfold word; lia). lia. }
    destruct (fill_send_message_spec _ _ _ ids1 w1 b a Hfl1 HS) as (r & w' & E & Hq & Hr); [by exists x, rest|].
    exists r, w'. split; [done|]. pose proof (transitivity Hq1 Hq) as Hq'. destruct r as [[]|]; [by split; [|exists ids1]|].
    destruct Hr as [id Hr]. split; [done|]. exists (ids1 ++ [id]). split; [|done]. rewrite length_app. cbn. lia.
  - nia.
  - split; [done|]. exists ids. split; [lia|done].
  - exists r, w'. split; [done|]. destruct r as [[]|]; [done|]. destruct Hr as (Hq & ids' & Hl' & Hfl'). split; [done|]. exists ids'.
    split; [lia|done].
Qed.

(** The array of messages for all targets, or none and the memory as it was. *)
Lemma send_mmsghdr_new_spec w t tb bs addrs msgs :
  fresh w -> targets_at (mem w) t tb bs addrs -> 0 <= msgs -> Z.of_nat (length bs) * msgs < 2 ^ 31 ->
  let S := servers_of bs addrs msgs in
  exists p w', mmsghdr_new t msgs w = Some (p, w') /\ quiet w w' /\
    ((p = NULL /\ mem w' = mem w /\ fresh w') \/
     exists mb ids, p = AT mb /\ length ids = length S /\ filled (mem w) mb S ids w').
Proof.
  intros Hf Ht Hm0 Hmax S. pose proof Ht as [_ _ Hlen Hint Hall]. pose proof (Forall2_length _ _ _ Hall) as Hl.
  assert (length S = length bs * Z.to_nat msgs)%nat as HS.
  { unfold S, servers_of. rewrite flat_replicate_length, length_zip_with. lia. }
  assert (wrap 32 (Z.of_nat (length bs) * msgs) = Z.of_nat (length S)) as Hw by (rewrite wrap_id; unfold word; lia).
  unfold mmsghdr_new. rewrite Hlen, Hw, !Nat2Z.id.
  pose proof (alloc_spec (MMSG (replicate (length S) zero_mmsghdr)) w Hf) as (Hq & Hf' & Hc).
  pose proof (fun mb => filled_nothing w mb _ S Hf eq_refl) as Hfl.
  destruct (alloc _ w) as [p w1]. cbn [fst snd] in *. destruct Hc as [(-> & Hm & _)|(-> & _)].
  { exists NULL, w1. split_and!; [done..|]. by left. }
  set (mb := brk w) in *. specialize (Hfl mb eq_refl).
  match goal with |- context [for_int _ 0 ?f w1] => set (body := f) end.
  destruct (for_int_inv (fun i w' => quiet w w' /\ exists ids, length ids = (i * Z.to_nat msgs)%nat /\ filled (mem w) mb S ids w')
    (fun _ w' => quiet w w' /\ exists ids, filled (mem w) mb S ids w') (length bs) 0 body w1) as (r & w2 & E & Hr).
  - intros i w2 Hi (Hq2 & ids2 & Hl2 & Hfl2). rewrite Z.add_0_l. unfold body.
    destruct (fill_target_spec w w2 mb t tb bs addrs msgs i ids2) as (r & w' & E & Hq' & Hr); [done..|].
    exists r, w'. split; [done|]. rewrite Nat.add_1_r in Hr. by destruct r.
  - lia.
  - split; [done|]. by exists [].
  - rewrite E. destruct r as [[]|].
    + destruct Hr as (Hq2 & ids & Hfl2).
      destruct (send_mmsghdr_free_spec _ _ _ ids w2 (Z.of_nat (length bs)) msgs Hfl2 Hw ltac:(lia)) as (w3 & E3 & Hq3 & Hb3 & Hm3).
      rewrite E3. exists NULL, w3. split; [done|]. split; [by etrans|]. left. split_and!; [done..|].
      intros c Hc. rewrite Hm3. rewrite Hb3 in Hc. by eapply filled_base.
    + destruct Hr as (Hq2 & ids & Hl2 & Hfl2). exists (AT mb), w2. split_and!; [done..|]. right. exists mb, ids. split_and!; [done|lia|done].
Qed.

(** The system reads the messages and sends the first of them. *)
Lemma sendmmsg_spec `{!PosixLaws} fd w m mb bs addrs msgs ids tb t :
  targets_at m t tb bs addrs -> let S := servers_of bs addrs msgs in
  filled m mb S ids w -> length ids = length S -> Z.of_nat (length S) < 2 ^ 31 ->
  exists r w' k, sendmmsg fd (AT mb) (Z.of_nat (length S)) w = Some (r, w') /\ brk w' = brk w /\
    sends fd (planned SENDMMSG msgs addrs) w w' k /\
    ((r = 0 /\ exists j, sendmmsg_result (calls w) = inr j /\ k = Nat.min j (length S)) \/ (0 < r /\ k = O)).
Proof.
  intros Ht S Hfl Hids Hint. pose proof Ht as [_ _ _ _ Hall]. pose proof (Forall2_length _ _ _ Hall) as Hl.
  unfold sendmmsg. destruct (sendmmsg_result (calls w)) as [e|j] eqn:Ej.
  { exists e, (called w), O. split_and!; [done..| |].
    - split; try done; [apply Hfl|]. by rewrite take_0, app_nil_r.
    - right. split; [by eapply sendmmsg_errno|done]. }
  rewrite Nat2Z.id. set (n := Nat.min j (length S)).
  match goal with |- context [for_int _ 0 ?f _] => set (body := f) end.
  destruct (for_int_inv (fun k w' => brk w' = brk w /\ sends fd (planned SENDMMSG msgs addrs) w w' k) (fun _ _ => False) n 0 body (called w))
    as (r & w' & E & Hr).
  - intros k w1 Hk (Hb & Hs). unfold body. rewrite Z.add_0_l. pose proof (fl_mem _ _ _ _ _ Hfl) as Hm.
    rewrite <- (sd_mem _ _ _ _ _ Hs) in Hm. destruct (mmsg_at _ _ _ _ _ Hm (filled_mb _ _ _ _ _ Hfl)) as [El _]. rewrite El.
    destruct (lookup_lt_is_Some_2 S k ltac:(lia)) as [[b a] HSk]. destruct (lookup_lt_is_Some_2 ids k ltac:(lia)) as [id Hid].
    rewrite (headers_at _ _ _ _ _ HSk Hid). cbn [hdr msg_hdr fst snd].
    assert (read_addr (AI_ADDR b) (Z.of_nat (length a)) w1 = Some a) as Er.
    { assert ((b, a) ∈ zip bs addrs) as (i & Hi)%list_elem_of_lookup_1.
      { apply list_elem_of_lookup_2 in HSk. apply list_elem_of_In, in_flat_map in HSk as (s & Hs1 & Hs2%list_elem_of_In).
        apply elem_of_replicate in Hs2 as [-> _]. by apply list_elem_of_In. }
      apply lookup_zip_with_Some in Hi as (b' & a' & [= <- <-] & Hi1 & Hi2).
      destruct (targets_lookup m t tb bs addrs i a w1 Ht) as (b2 & Hb2 & _ & _ & E); [|done|congruence].
      rewrite (sd_mem _ _ _ _ _ Hs). by eapply filled_sub. }
    rewrite (message_full w1 b a id Er).
    + eexists None, _. split; [reflexivity|]. split; [done|]. apply (sends_more _ _ _ _ _ _ a copies Hs); try done; [|apply Hs|apply Hs].
      rewrite (planned_servers bs) by done. rewrite list_lookup_fmap. fold S. by rewrite HSk.
    + rewrite Hm. apply put_in; [rewrite vectors_keys; apply Hfl|]. apply list_elem_of_fmap. exists id. split; [done|].
      by eapply list_elem_of_lookup_2.
  - lia.
  - split; [done|]. split; try done; [apply Hfl|]. by rewrite take_0, app_nil_r.
  - rewrite E. destruct r as [[]|]; [done|]. destruct Hr as [Hb Hs]. exists 0, w', n. split_and!; [done..|]. left. split; [done|]. by exists j.
Qed.

Lemma send_sendmmsg_spec `{!PosixLaws} d w tb bs addrs :
  fresh w -> targets_at (mem w) (rd_targets d) tb bs addrs -> 0 <= rd_msgs d -> Z.of_nat (length bs) * rd_msgs d < 2 ^ 31 ->
  let plan := planned SENDMMSG (rd_msgs d) addrs in
  exists r w' k, send_sendmmsg d w = Some (r, w') /\ sends (rd_fd d) plan w w' k /\
    ((r = 0 /\ exists j, sendmmsg_result (calls w) = inr j /\ k = Nat.min j (length plan)) \/ (0 < r /\ k = O)).
Proof.
  intros Hf Ht Hm0 Hmax plan. pose proof Ht as [_ _ Hlen Hint Hall]. pose proof (Forall2_length _ _ _ Hall) as Hl.
  unfold send_sendmmsg. rewrite Hlen. set (S := servers_of bs addrs (rd_msgs d)).
  assert (length plan = length S) as Hpl by (unfold plan; rewrite (planned_servers bs) by done; apply length_map).
  assert (Z.of_nat (length S) = Z.of_nat (length bs) * rd_msgs d) as HS.
  { unfold S, servers_of. rewrite flat_replicate_length, length_zip_with. lia. }
  assert (wrap 32 (Z.of_nat (length bs) * rd_msgs d) = Z.of_nat (length S)) as Hw by (rewrite wrap_id; unfold word; lia).
  destruct (send_mmsghdr_new_spec w _ tb bs addrs _ Hf Ht Hm0 Hmax) as (p & w1 & E & (Qc & Ql & Qr & Qt) & [(-> & Hm & Hf1)|(mb & ids & -> & Hids & Hfl)]); rewrite E.
  { exists ENOMEM, w1, O. split; [done|]. split; [|by right]. split; try done. by rewrite take_0, app_nil_r. }
  rewrite Hw. destruct (sendmmsg_spec (rd_fd d) w1 (mem w) mb bs addrs (rd_msgs d) ids tb _ Ht Hfl Hids ltac:(fold S; lia))
    as (r & w2 & k & E2 & Hb2 & Hs & Hr). fold S in E2, Hr. rewrite E2.
  assert (filled (mem w) mb S ids w2) as Hfl2.
  { destruct Hfl as [F1 F2 F3 F4 F5 F6]. split; [by rewrite (sd_mem _ _ _ _ _ Hs)|done|by rewrite Hb2|done|by rewrite Hb2|apply Hs]. }
  destruct (send_mmsghdr_free_spec _ _ _ ids w2 (Z.of_nat (length bs)) (rd_msgs d) Hfl2 Hw ltac:(lia)) as (w3 & E3 & (Q3 & Q4 & Q5 & Q6) & Hb3 & Hm3).
  rewrite E3. exists r, w3, k. split; [done|]. split.
  - destruct Hs as [_ _ S3 S4 S5]. split; [done| |congruence|congruence|by rewrite Q6, S5, Qt].
    intros c Hc. rewrite Hm3. rewrite Hb3 in Hc. by eapply filled_base.
  - rewrite Hpl, <- Qc. done.
Qed.

(** The number of datagrams that a call of [m_send] that reports success has sent. *)
Definition all_sent (method : send_method) (plan : list (list ascii * str)) (n k : nat) : Prop :=
  match method with
  | SENDMMSG => exists j, sendmmsg_result n = inr j /\ k = Nat.min j (length plan)
  | _ => k = length plan
  end.

Lemma m_send_sends `{!PosixLaws} d w tb bs addrs :
  fresh w -> targets_at (mem w) (rd_targets d) tb bs addrs -> 0 <= rd_msgs d ->
  (rd_syscall d = SENDMMSG -> Z.of_nat (length bs) * rd_msgs d < 2 ^ 31) ->
  let plan := planned (rd_syscall d) (rd_msgs d) addrs in
  exists r w' k, m_send d w = Some (r, w') /\ sends (rd_fd d) plan (emit (Out (lit "Sending data...")) w) w' k /\
    ((r = 0 /\ all_sent (rd_syscall d) plan (calls w) k) \/ (0 < r /\ (rd_syscall d <> SENDMMSG -> (k < length plan)%nat))).
Proof.
  intros Hf Ht Hm0 Hmax plan. unfold m_send. set (w1 := emit _ w). assert (fresh w1) as Hf1 by exact Hf.
  destruct (rd_syscall d) eqn:Em.
  - destruct (send_sendto_spec d w1 tb bs addrs Hf1 Ht) as (r & w' & E & k & Hs & Hr). exists r, w', k. split_and!; [done..|].
    destruct Hr as [[-> ->]|[? ?]]; [by left|by right].
  - destruct (send_sendmsg_spec d w1 tb bs addrs Hf1 Ht) as (r & w' & E & k & Hs & Hr). exists r, w', k. split_and!; [done..|].
    destruct Hr as [[-> ->]|[? ?]]; [by left|by right].
  - destruct (send_sendmmsg_spec d w1 tb bs addrs Hf1 Ht Hm0 (Hmax eq_refl)) as (r & w' & k & E & Hs & Hr). exists r, w', k. split_and!; [done..|].
    destruct Hr as [(-> & j & Hj)|[? ?]]; [left; split; [done|by exists j]|by right].
Qed.

(** ** Lemmas on the targets *)

(** What the words of the command line name, from call [n] on, and whether all could be resolved. *)
Fixpoint resolved (n : nat) (family : Z) (args : list str) : list (list addrinfo) * bool :=
  match args with
  | [] => ([], true)
  | ip :: args =>
      match parse_target family ip with
      | None => ([], false)
      | Some (_, host, port) =>
          match getaddrinfo n (Some host) port (mkHints family SOCK_DGRAM 0) with
          | inl _ => ([], false)
          | inr l => let r := resolved (S n) family args in (l :: r.1, r.2)
          end
      end
  end.

Definition infos (bs : list positive) (ls : list (list addrinfo)) : list (positive * block) := zip_with (fun b l => (b, ADDRINFO l)) bs ls.

(** The array [tb] of [n] targets with the first of them resolved; [m] is the memory before. *)
Record resolving (m : memory) (tb : positive) (n : nat) (bs : list positive) (ls : list (list addrinfo)) (w : world) : Prop := {
  rs_mem : mem w = put (infos bs ls) (<[tb := TARGETS ((AT <$> bs) ++ replicate (n - length bs) NULL)]> m);
  rs_dup : NoDup bs;
  rs_new : Forall (fun b => m !! b = None /\ b <> tb /\ (b < brk w)%positive) bs;
  rs_len : length bs = length ls /\ (length bs <= n)%nat;
  rs_tb : m !! tb = None /\ (tb < brk w)%positive;
  rs_fresh : fresh w
}.

Lemma infos_keys bs ls : length bs = length ls -> (infos bs ls).*1 = bs.
Proof. intros Hl. unfold infos. revert ls Hl. induction bs as [|b bs IH]; intros [|l ls] Hl; try done. cbn. f_equal. apply IH. by injection Hl. Qed.

Lemma infos_snoc bs ls b l : length bs = length ls -> infos (bs ++ [b]) (ls ++ [l]) = infos bs ls ++ [(b, ADDRINFO l)].
Proof. intros Hl. unfold infos. by rewrite zip_with_app. Qed.

Lemma resolving_tb m tb n bs ls w : resolving m tb n bs ls w -> tb ∉ (infos bs ls).*1.
Proof.
  intros [_ _ Hn [Hl _] _ _] Hin. rewrite infos_keys in Hin by done. rewrite Forall_forall in Hn. by apply Hn in Hin as (_ & ? & _).
Qed.

Lemma resolving_base m tb n bs ls w c : resolving m tb n bs ls w -> (brk w <= c)%positive -> m !! c = None.
Proof.
  intros [Hm _ Hn [Hl _] [_ Hlt] Hf] Hc. specialize (Hf c Hc). rewrite Hm, put_ne, lookup_insert_ne in Hf; [done|lia|].
  rewrite infos_keys by done. intros Hin. rewrite Forall_forall in Hn. apply Hn in Hin as (_ & _ & ?). lia.
Qed.

Lemma resolving_array m tb n bs ls w : resolving m tb n bs ls w ->
  mem w !! tb = Some (TARGETS ((AT <$> bs) ++ replicate (n - length bs) NULL)).
Proof. intros Hr. by rewrite (rs_mem _ _ _ _ _ _ Hr), put_ne, lookup_insert_eq by (by eapply resolving_tb). Qed.

(** One more target. *)
Lemma resolving_step m tb n bs ls w l :
  resolving m tb n bs ls w -> (length bs < n)%nat ->
  exists w', (let '(servinfo, w) := new_addrinfo l w in store_target (AT tb) (Z.of_nat (length bs)) servinfo w) = Some w' /\
    quiet w w' /\ resolving m tb n (bs ++ [brk w]) (ls ++ [l]) w'.
Proof.
  intros Hr Hlt. pose proof (resolving_tb _ _ _ _ _ _ Hr) as Htb. pose proof (resolving_array _ _ _ _ _ _ Hr) as Ha.
  pose proof (fun c => resolving_base _ _ _ _ _ _ c Hr) as Hbase. destruct Hr as [Hm Hd Hn [Hl Hle] [Htn Htl] Hf].
  assert (brk w ∉ bs) as Hb. { intros Hin. rewrite Forall_forall in Hn. apply Hn in Hin as (_ & _ & ?). lia. }
  unfold new_addrinfo, store_target. cbn [mem]. rewrite lookup_insert_ne, Ha, Nat2Z.id by lia.
  rewrite (proj2 (Nat.ltb_lt _ _)) by (rewrite length_app, length_fmap, length_replicate; lia). eexists. split; [reflexivity|].
  split; [done|]. split.
  - cbn [mem set_mem]. rewrite infos_snoc, put_snoc by (rewrite ?infos_keys; done). rewrite insert_insert_ne by lia. f_equal.
    rewrite Hm, put_insert, insert_insert_eq by done. do 3 f_equal. rewrite fmap_app, <- app_assoc.
    rewrite insert_app_r_alt by (rewrite length_fmap; lia). rewrite length_fmap, Nat.sub_diag, length_app. f_equal.
    replace (n - length bs)%nat with (S (n - (length bs + 1))) by lia. done.
  - apply NoDup_app. split_and!; [done|by intros c Hc ->%list_elem_of_singleton|apply NoDup_singleton].
  - cbn [brk set_mem]. apply Forall_app. split.
    + eapply Forall_impl; [exact Hn|]. intros b (? & ? & ?). split_and!; [done..|lia].
    + apply Forall_singleton. split_and!; [apply Hbase; lia|lia|lia].
  - rewrite !length_app. cbn. lia.
  - split; [done|]. cbn. lia.
  - intros c Hc. cbn [mem set_mem brk] in *. rewrite !lookup_insert_ne by lia. apply Hf. lia.
Qed.

Lemma resolve_spec m tb n family args bs ls w :
  resolving m tb n bs ls w -> (length bs + length args <= n)%nat ->
  let r := resolved (calls w) family args in
  exists bs' w', resolve (AT tb) (Z.of_nat (length bs)) family args w = Some (r.2, w') /\
    looks w' = looks w /\ running w' = running w /\ resolving m tb n (bs ++ bs') (ls ++ r.1) w' /\
    (if r.2 then trace w' = trace w /\ length bs' = length args else exists l, trace w' = trace w ++ [Err l]).
Proof.
  revert bs ls w. induction args as [|ip args IH]; intros bs ls w Hr Hn; cbn [resolve resolved].
  { exists [], w. rewrite !app_nil_r. done. }
  destruct (parse_target family ip) as [[[buf host] port]|].
  2: { exists [], (emit (Err (lit "Invalid IPv6 address")) w). rewrite !app_nil_r. split_and!; [done..| |by eexists].
       by destruct Hr; split. }
  destruct (getaddrinfo (calls w) (Some host) port (mkHints family SOCK_DGRAM 0)) as [e|l].
  { exists [], (emit (Err (lit "getaddrinfo failed")) (called w)). rewrite !app_nil_r. split_and!; [done..| |by eexists].
    by destruct Hr; split. }
  assert (resolving m tb n bs ls (called w)) as Hc by (by destruct Hr; split). cbn [length] in Hn.
  destruct (resolving_step _ _ _ _ _ _ l Hc ltac:(lia)) as (w1 & E & (Q1 & Q2 & Q3 & Q4) & Hr1).
  destruct (new_addrinfo l (called w)) as [si w0] eqn:En. rewrite E.
  destruct (IH _ _ w1 Hr1) as (bs' & w' & E' & L & R & Hr' & T); [rewrite length_app; cbn; lia|].
  rewrite length_app in E'. cbn [length] in E'. rewrite Nat2Z.inj_add in E'. change (Z.of_nat 1) with 1 in E'. rewrite Q1 in *. cbn [calls called] in *.
  exists ([brk (called w)] ++ bs'), w'. cbn [fst snd]. rewrite E', L, R, Q2, Q3. rewrite <- !app_assoc in Hr'. split_and!; [done..|].
  destruct (resolved _ family args).2; rewrite Q4 in T; [|done]. destruct T as [T1 T2]. split; [done|]. by rewrite length_app, T2.
Qed.

(** The targets, or no array and the lists that were resolved until then left over. *)
Lemma get_targets_spec args family w : fresh w ->
  let r := resolved (calls w) family args in
  exists p w', get_targets args family w = Some (p, w') /\ looks w' = looks w /\ running w' = running w /\
    ((p = NULL /\ exists bs ls l, length bs = length ls /\ mem w' = put (infos bs ls) (mem w) /\ trace w' = trace w ++ [Err l] /\
        (ls = [] \/ (ls = r.1 /\ r.2 = false))) \/
     (exists tb bs, p = AT tb /\ r.2 = true /\ resolving (mem w) tb (length args) bs r.1 w' /\ length bs = length args /\ trace w' = trace w)).
Proof.
  intros Hf r. unfold get_targets. pose proof (alloc_spec (TARGETS (replicate (length args) NULL)) w Hf) as ((Q1 & Q2 & Q3 & Q4) & Hf1 & Hc).
  destruct (alloc _ w) as [p w1]. cbn [fst snd] in *. destruct Hc as [(-> & Hm & Hb)|(-> & Hm & Hn & Hb)].
  { eexists NULL, _. split; [reflexivity|]. split_and!; [done..|]. left. split; [done|]. exists [], [], (lit "Failed to reserve memory for target servers").
    split_and!; [done|done|by cbn [trace emit]; rewrite Q4|by left]. }
  assert (resolving (mem w) (brk w) (length args) [] [] w1) as Hr.
  { split; [by rewrite Hm, Nat.sub_0_r|apply NoDup_nil_2|apply Forall_nil_2|cbn; lia|split; [done|rewrite Hb; lia]|done]. }
  destruct (resolve_spec _ _ _ family args _ _ _ Hr ltac:(cbn; lia)) as (bs & w2 & E & L & R & Hr2 & T). cbn [length app] in *.
  change (Z.of_nat 0) with 0 in E. rewrite E. rewrite Q1 in *. fold r in Hr2, T |- *. destruct r.2 eqn:Er.
  - eexists _, w2. split; [reflexivity|]. split; [congruence|]. split; [congruence|]. right. exists (brk w), bs. destruct T as [T1 T2].
    split_and!; [done..|congruence].
  - destruct T as [l T]. unfold free. rewrite (resolving_array _ _ _ _ _ _ Hr2). eexists NULL, _. split; [reflexivity|].
    split; [cbn; congruence|]. split; [cbn; congruence|]. left. split; [done|]. exists bs, r.1, l. split; [apply Hr2|]. split.
    + cbn [mem set_mem]. pose proof (resolving_tb _ _ _ _ _ _ Hr2) as Htb. rewrite (rs_mem _ _ _ _ _ _ Hr2), <- put_insert by done.
      apply delete_insert_id. by rewrite put_ne.
    + split; [cbn; by rewrite T, Q4|by right].
Qed.

Definition first_addrs (ls : list (list addrinfo)) : list (list ascii) :=
  map (fun l => match l with a :: _ => ai_addr a | [] => [] end) ls.

Lemma resolved_nonempty `{!PosixLaws} n family args : Forall (fun l => l <> []) (resolved n family args).1.
Proof.
  revert n. induction args as [|ip args IH]; intros n; cbn [resolved]; [constructor|].
  destruct (parse_target family ip) as [[[buf host] port]|]; [|constructor].
  destruct (getaddrinfo n _ _ _) as [|l] eqn:E; [constructor|]. constructor; [by eapply getaddrinfo_some|apply IH].
Qed.

Lemma resolving_targets m tb bs ls w :
  resolving m tb (length bs) bs ls w -> Forall (fun l => l <> []) ls -> Z.of_nat (length bs) < 2 ^ 31 ->
  targets_at (mem w) (mkTargets (AT tb) (Z.of_nat (length bs))) tb bs (first_addrs ls).
Proof.
  intros Hr Hls Hint. split; [done| |done|done|].
  - by rewrite (resolving_array _ _ _ _ _ _ Hr), Nat.sub_diag, app_nil_r.
  - destruct (rs_len _ _ _ _ _ _ Hr) as [Hl _]. apply Forall2_same_length_lookup_2; [unfold first_addrs; by rewrite length_map|].
    intros i b a Hb Ha. unfold first_addrs in Ha. rewrite list_lookup_fmap in Ha. destruct (ls !! i) as [l|] eqn:El; [|done]. injection Ha as <-.
    rewrite Forall_lookup in Hls. specialize (Hls _ _ El). destruct l as [|x rest]; [done|]. exists x, rest. split; [|done].
    rewrite (rs_mem _ _ _ _ _ _ Hr). apply put_in; [rewrite infos_keys by done; apply Hr|].
    apply (list_elem_of_lookup_2 _ i). apply lookup_zip_with_Some. by exists b, (x :: rest).
Qed.

Lemma infos_in bs ls m b : NoDup bs -> length bs = length ls -> b ∈ bs -> is_Some (put (infos bs ls) m !! b).
Proof.
  intros Hd Hl (i & Hi)%list_elem_of_lookup_1. destruct (lookup_lt_is_Some_2 ls i) as [l El]; [rewrite <- Hl; by eapply lookup_lt_Some|].
  exists (ADDRINFO l). apply put_in; [by rewrite infos_keys|]. apply (list_elem_of_lookup_2 _ i). apply lookup_zip_with_Some. by exists b, l.
Qed.

Lemma resolving_same m tb n bs ls w w' : resolving m tb n bs ls w -> mem w' = mem w -> fresh w' -> resolving m tb n bs ls w'.
Proof.
  intros Hr Em Hf. pose proof (resolving_array _ _ _ _ _ _ Hr) as Ha. destruct Hr as [Hm Hd Hn [Hl Hle] [Htn Htl] _].
  assert (forall b, is_Some (mem w !! b) -> (b < brk w')%positive) as Hlive by (intros b Hb; apply fresh_live; [done|by rewrite Em]).
  split; [congruence|done| |done| |done].
  - rewrite Forall_forall in *. intros b Hb. destruct (Hn b Hb) as (? & ? & _). split_and!; [done..|]. apply Hlive.
    rewrite Hm. by apply infos_in.
  - split; [done|]. apply Hlive. by rewrite Ha.
Qed.

(** All lists and the array are freed, and the socket is closed for each of them. *)
Lemma cleanup_spec m tb bs ls w d :
  resolving m tb (length bs) bs ls w -> Z.of_nat (length bs) < 2 ^ 31 -> rd_targets d = mkTargets (AT tb) (Z.of_nat (length bs)) ->
  exists w', cleanup d w = Some w' /\ mem w' = m /\ trace w' = trace w ++ replicate (length bs) (Closed (rd_fd d)).
Proof.
  intros Hr Hint Hd. pose proof Hr as [Hm Hdup Hn [Hl _] [Htn _] _]. unfold cleanup. rewrite Hd. cbn [t_ptr t_len]. rewrite Nat2Z.id.
  assert (forall t, length (drop t bs) = length (drop t ls)) as Hld by (intros t; rewrite !length_drop; lia).
  assert (forall t, tb ∉ (infos (drop t bs) (drop t ls)).*1) as Htb.
  { intros t Hin. rewrite infos_keys in Hin by done. apply (resolving_tb _ _ _ _ _ _ Hr). rewrite infos_keys by done. by eapply subseteq_drop. }
  match goal with |- context [for_int _ _ ?f _] => set (body := f) end.
  destruct (for_int_inv (fun t w' => trace w' = trace w ++ replicate t (Closed (rd_fd d)) /\
      mem w' = put (infos (drop t bs) (drop t ls)) (<[tb := TARGETS (AT <$> bs)]> m))
    (fun _ _ => False) (length bs) 0 body w) as (r & w' & E & H').
  - intros t w1 Ht (T & Hm1). unfold body, load_target. rewrite Hm1, put_ne, lookup_insert_eq, Z.add_0_l, Nat2Z.id, list_lookup_fmap by done.
    destruct (lookup_lt_is_Some_2 bs t Ht) as [b Hb]. destruct (lookup_lt_is_Some_2 ls t ltac:(lia)) as [l Hlk]. rewrite Hb. cbn [fmap option_fmap option_map].
    rewrite (drop_S bs b t Hb), (drop_S ls l t Hlk) in Hm1. unfold freeaddrinfo.
    assert (mem w1 !! b = Some (ADDRINFO l)) as -> by (rewrite Hm1; apply lookup_insert_eq).
    eexists None, _. split; [reflexivity|]. split.
    + cbn [trace emit set_mem]. rewrite T, <- app_assoc. f_equal. by rewrite <- replicate_S_end.
    + cbn [mem emit set_mem]. rewrite Hm1. apply delete_put.
      * rewrite infos_keys by done. intros (j & Hj)%list_elem_of_lookup_1. rewrite lookup_drop in Hj.
        pose proof (NoDup_lookup _ _ _ _ Hdup Hb Hj). lia.
      * rewrite Forall_forall in Hn. destruct (Hn b) as (? & ? & _); [by eapply list_elem_of_lookup_2|]. by rewrite lookup_insert_ne.
  - lia.
  - split; [by rewrite app_nil_r|]. rewrite !drop_0, Hm, Nat.sub_diag, app_nil_r. done.
  - rewrite E. destruct r as [[]|]; [done|]. destruct H' as [T Hm']. rewrite drop_ge in Hm' by lia. cbn [infos zip_with put foldr] in Hm'.
    rewrite (free_at tb _ _ _ Hm') by done. by eexists.
Qed.

(** ** Lemmas on the program *)

(** What the client does between opening and closing its socket. *)
Definition client_event (fd period : Z) (addrs : list (list ascii)) (e : event) : Prop :=
  match e with
  | Out l => l = lit "Sending data..."
  | Sent fd' a s => fd' = fd /\ a ∈ addrs /\ (s = LOREM_IPSUM \/ s = copies)
  | Slept p => p = period
  | Err l => l = lit "send failed"
  | _ => False
  end.

Lemma planned_elem m msgs addrs a s : (a, s) ∈ planned m msgs addrs -> a ∈ addrs /\ (s = LOREM_IPSUM \/ s = copies).
Proof.
  intros Hin. apply list_elem_of_In in Hin. destruct m; cbn [planned] in Hin.
  - apply in_map_iff in Hin as (x & [= <- <-] & Hx%list_elem_of_In). split; [done|by left].
  - apply in_map_iff in Hin as (x & [= <- <-] & Hx%list_elem_of_In). split; [done|by right].
  - apply in_flat_map in Hin as (x & Hx%list_elem_of_In & Hr%list_elem_of_In). apply elem_of_replicate in Hr as [[= -> ->] _].
    split; [done|by right].
Qed.

Lemma sent_events fd period m msgs addrs k :
  Forall (client_event fd period addrs) (map (fun p => Sent fd p.1 p.2) (take k (planned m msgs addrs))).
Proof.
  apply Forall_forall. intros e (p & -> & Hp)%list_elem_of_fmap. destruct p as [a s]. cbn [fst snd client_event]. split; [done|].
  eapply planned_elem. by eapply subseteq_take.
Qed.

(** The loop ends when a signal has arrived or a call fails, with the memory as it was. *)
Lemma client_run_spec `{!PosixLaws} fuel d w tb bs addrs :
  fresh w -> targets_at (mem w) (rd_targets d) tb bs addrs -> 0 <= rd_msgs d ->
  (rd_syscall d = SENDMMSG -> Z.of_nat (length bs) * rd_msgs d < 2 ^ 31) ->
  (fuel <> O /\ running w = false) \/ (exists n, (looks w <= n < looks w + fuel)%nat /\ signal_arrives n = true) ->
  exists ret w' evs, run fuel d w = Some (Some ret, w') /\ mem w' = mem w /\ fresh w' /\
    trace w' = trace w ++ evs /\ Forall (client_event (rd_fd d) (rd_period d) addrs) evs /\
    ((ret = 0 /\ running w' = false) \/ ret = -1).
Proof.
  revert w. induction fuel as [|fuel IH]; intros w Hf Ht Hm0 Hmax Hstop; [destruct Hstop as [[? _]|(n & ? & _)]; [done|lia]|].
  cbn [run]. destruct (test_running w) as [go w1] eqn:E1. unfold test_running in E1.
  assert (mem w1 = mem w /\ brk w1 = brk w /\ trace w1 = trace w /\ looks w1 = S (looks w) /\ running w1 = go) as (M & B & T & L & R)
    by (by destruct (signal_arrives (looks w)); injection E1 as <- <-).
  assert (fresh w1) as Hf1 by (by eapply fresh_same).
  destruct go; cbn [negb]; [|exists 0, w1, []; rewrite T, app_nil_r; split_and!; [done..|by left]].
  rewrite <- M in Ht. destruct (m_send_sends d w1 tb bs addrs Hf1 Ht Hm0 Hmax) as (r & w2 & k & E2 & [S1 S2 S3 S4 S5] & Hr). rewrite E2.
  cbn [mem looks running trace emit] in *. rewrite T in S5.
  destruct (Z.eqb_spec r 0) as [->|Hne]; cbn [negb].
  - destruct (IH (emit (Slept (rd_period d)) w2)) as (ret & w' & evs & E & Hm & Hf' & Htr & Hev & Hret);
      [done|by cbn [mem emit]; rewrite S1|done|done| |].
    + destruct Hstop as [[_ Hs]|(n & Hn & Hs)].
      * destruct (signal_arrives (looks w)); cbn in E1; congruence.
      * right. exists n. split; [|done]. cbn [looks emit]. rewrite S3, L. destruct (decide (n = looks w)) as [->|]; [|lia].
        rewrite Hs in E1. cbn in E1. congruence.
    + exists ret, w', ((Out (lit "Sending data...") :: map (fun p => Sent (rd_fd d) p.1 p.2) (take k (planned (rd_syscall d) (rd_msgs d) addrs))) ++ Slept (rd_period d) :: evs).
      split_and!; [done| |done| | |done].
      * rewrite Hm. cbn [mem emit]. congruence.
      * rewrite Htr. cbn [trace emit]. rewrite S5, <- !app_assoc. done.
      * apply Forall_app. split; [constructor; [done|apply sent_events]|by constructor].
  - exists (-1), (emit (Err (lit "send failed")) w2), ((Out (lit "Sending data...") :: map (fun p => Sent (rd_fd d) p.1 p.2) (take k (planned (rd_syscall d) (rd_msgs d) addrs))) ++ [Err (lit "send failed")]).
    split_and!; [done|cbn [mem emit]; congruence|done| | |by right].
    + cbn [trace emit]. rewrite S5, <- !app_assoc. done.
    + apply Forall_app. split; [constructor; [done|apply sent_events]|by repeat constructor].
Qed.

End proofs.

(** ** Lemmas on the words of the command line *)

Lemma c_string_all s : ~ In NUL s -> c_string s 0 = s.
Proof. intros Hn. unfold c_string. by rewrite drop_0, (proj2 (find_char_None _ _) Hn). Qed.

Lemma c_string_cut l r i : (i <= length l)%nat -> ~ In NUL l -> c_string (l ++ NUL :: r) i = drop i l.
Proof.
  intros Hi Hn. unfold c_string. rewrite drop_app_le by done. rewrite find_char_app; [by rewrite take_app_length|].
  intros Hin. apply Hn. apply list_elem_of_In. eapply subseteq_drop. by apply list_elem_of_In.
Qed.

Lemma c_string_tail l r : ~ In NUL r -> c_string (l ++ r) (length l) = r.
Proof. intros Hn. unfold c_string. by rewrite drop_app_length, (proj2 (find_char_None _ _) Hn). Qed.

Lemma write_at l (c c' : ascii) r : <[length l := c']> (l ++ c :: r) = l ++ c' :: r.
Proof. by rewrite insert_app_r_alt, Nat.sub_diag by done. Qed.

Lemma not_in_app {X} (c : X) l r : ~ In c l -> ~ In c r -> ~ In c (l ++ r).
Proof. intros Hl Hr [?|?]%in_app_iff; auto. Qed.

Lemma not_in_cons {X} (c x : X) l : x <> c -> ~ In c l -> ~ In c (x :: l).
Proof. intros Hx Hl [?|?]; auto. Qed.

Lemma char_at_app (l r : str) i : char_at (l ++ r) (length l + i) = char_at r i.
Proof. unfold char_at. f_equal. etrans; [apply lookup_app_r; lia|]. f_equal. lia. Qed.

Section main.
Context `{Posix}.

Lemma options_msgs prog opts c w c' w' :
  0 <= c_msgs c -> options_loop prog opts c w = Some (inl c', w') -> 0 <= c_msgs c'.
Proof.
  revert c w. induction opts as [|[opt optarg] opts IH]; intros c w Hc E; cbn [options_loop] in E; [by injection E as <- _|].
  repeat (case_bool_decide; [try done; try (by eapply IH, E)|]); [|..|done].
  - destruct (atoi optarg); [|done]. by eapply IH, E.
  - destruct (parse_method optarg); [|done]. by eapply IH, E.
  - destruct (atoi optarg) as [n|]; [|done]. eapply IH, E. cbn [c_msgs]. apply Z.mod_pos_bound. lia.
Qed.

End main.

(** ** Theorems *)

(** Sending.  For live targets, every method and whatever memory and the network do,
    [m_send] returns without an invalid access, a double free or a leak: all blocks are as they
    were.  It has sent the first datagrams of its plan, in order: the text to each target, its
    copies to each target, or [msgs_per_target] times the copies to each target; all of them if
    it reports success with [sendto] or [sendmsg], as many as the system took with [sendmmsg]. *)
Theorem m_send_spec `{PosixLaws} d w tb bs addrs :
  fresh w -> targets_at (mem w) (rd_targets d) tb bs addrs -> 0 <= rd_msgs d ->
  (rd_syscall d = SENDMMSG -> Z.of_nat (length bs) * rd_msgs d < 2 ^ 31) ->
  let plan := planned (rd_syscall d) (rd_msgs d) addrs in
  exists r w' k, m_send d w = Some (r, w') /\ sends (rd_fd d) plan (emit (Out (lit "Sending data...")) w) w' k /\
    ((r = 0 /\ all_sent (rd_syscall d) plan (calls w) k) \/ (0 < r /\ (rd_syscall d <> SENDMMSG -> (k < length plan)%nat))).
Proof. apply m_send_sends. Qed.

(** The words that name a target.  A word of the form [host:port], or [[host]:port] for
    IPv6, is taken apart into the two, and a word without the separator is the host with port
    9090; for IPv6 a word with a bracket and no port after it is refused. *)
Theorem parse_target_spec (host port : str) :
  ~ In NUL host -> ~ In NUL port ->
  let pick := option_map (fun r : str * str * str => (r.1.2, r.2)) in
  (~ In ":"%char port -> pick (parse_target AF_INET (host ++ lit ":" ++ port)) = Some (host, port)) /\
  (~ In ":"%char host -> pick (parse_target AF_INET host) = Some (host, lit "9090")) /\
  (~ In "]"%char port -> pick (parse_target AF_INET6 (lit "[" ++ host ++ lit "]:" ++ port)) = Some (host, port)) /\
  (~ In "]"%char host -> pick (parse_target AF_INET6 host) = Some (host, lit "9090")) /\
  parse_target AF_INET6 (lit "[" ++ host ++ lit "]") = None.
Proof.
  intros Hh Hp pick. unfold parse_target, strrchr. cbn [Z.eqb AF_INET AF_INET6 Pos.eqb].
  assert (~ In NUL (host ++ ":"%char :: port)) as Hhp by (apply not_in_app; [done|by apply not_in_cons]).
  assert (~ In NUL ("["%char :: host)) as Hb by (by apply not_in_cons).
  assert (~ In NUL (("["%char :: host) ++ "]"%char :: ":"%char :: port)) as Hbp by (apply not_in_app; [done|by repeat apply not_in_cons]).
  assert (~ In NUL (("["%char :: host) ++ ["]"%char])) as Hbe by (apply not_in_app; [done|apply not_in_cons; [done|intros []]]).
  split_and!; [intros Hc|intros Hc|intros Hc|intros Hc|].
  - change (host ++ lit ":" ++ port) with (host ++ ":"%char :: port). rewrite c_string_all, rfind_char by done. unfold pick. cbn [option_map fst snd].
    rewrite write_at, c_string_cut, drop_0, (cons_middle NUL), app_assoc by (done || lia).
    replace (length host + 1)%nat with (length (host ++ [NUL])) by (rewrite length_app; done). by rewrite c_string_tail.
  - by rewrite c_string_all, rfind_char_none.
  - change (lit "[" ++ host ++ lit "]:" ++ port) with (("["%char :: host) ++ "]"%char :: ":"%char :: port).
    rewrite c_string_all, rfind_char, (char_at_app ("["%char :: host)) by (done || (apply not_in_cons; done)).
    change (char_at (("["%char :: host) ++ _) 0) with "["%char. change (char_at _ 1) with ":"%char. rewrite !bool_decide_eq_true_2 by done. cbn [negb orb]. unfold pick. cbn [option_map fst snd].
    rewrite write_at, c_string_cut by (cbn; done || lia). cbn [drop]. f_equal. f_equal.
    change (("["%char :: host) ++ NUL :: ":"%char :: port) with (("["%char :: host) ++ [NUL; ":"%char] ++ port). rewrite app_assoc.
    replace (length ("["%char :: host) + 2)%nat with (length (("["%char :: host) ++ [NUL; ":"%char])) by (rewrite length_app; done).
    by rewrite c_string_tail.
  - by rewrite c_string_all, rfind_char_none.
  - change (lit "[" ++ host ++ lit "]") with (("["%char :: host) ++ ["]"%char]). rewrite c_string_all, rfind_char, (char_at_app ("["%char :: host)) by (done || intros []).
    by rewrite orb_true_r.
Qed.

(** The whole client.  With options it accepts and at least one target, the client returns
    once a signal has arrived or a call has failed.  Either nothing was sent, because memory, a
    name or the socket could not be had; or between opening and closing the socket it has
    printed, slept and sent its messages to the targets of the command line only, and has given
    back all memory.  The socket is closed once for every target instead of once. *)
Theorem main_spec `{PosixLaws} fuel prog opts args w c :
  fresh w -> options_loop prog opts default_config w = Some (inl c, w) -> args <> [] -> Z.of_nat (length args) < 2 ^ 31 ->
  (c_syscall c = SENDMMSG -> Z.of_nat (length args) * c_msgs c < 2 ^ 31) ->
  (exists n, (looks w <= n < looks w + fuel)%nat /\ signal_arrives n = true) ->
  exists ret w', main fuel prog opts args w = Some (Some ret, w') /\ (ret = 0 \/ ret = -1) /\
    ((ret = -1 /\ exists l leaked, trace w' = trace w ++ [Err l] /\ mem w' = put leaked (mem w)) \/
     (exists fd evs, let addrs := first_addrs (resolved (calls w) (c_family c) args).1 in
        trace w' = trace w ++ Opened fd :: evs ++ replicate (length args) (Closed fd) /\
        Forall (client_event fd (c_period c) addrs) evs /\ mem w' = mem w)).
Proof.
  intros Hf Eo Ha Hlen Hmax Hsig. unfold main. rewrite Eo. destruct args as [|a0 args0] eqn:Eargs; [done|]. rewrite <- Eargs in *.
  destruct (get_targets_spec args (c_family c) w Hf) as (p & w1 & E & L & R & [(-> & bs & ls & l & _ & Hm & T & _)|(tb & bs & -> & Hok & Hr & Hbs & T)]).
  { rewrite E. exists (-1), w1. split_and!; [done|by right|]. left. split; [done|]. by exists l, (infos bs ls). }
  rewrite E. destruct (socket_result (calls w1)) as [e|fd].
  { eexists (-1), _. split; [reflexivity|]. split; [by right|]. left. split; [done|].
    exists (lit "Failed to create socket"), (infos bs (resolved (calls w) (c_family c) args).1 ++ [(tb, TARGETS ((AT <$> bs) ++ replicate (length args - length bs) NULL))]).
    split; [cbn [trace emit called]; by rewrite T|]. cbn [mem emit called]. by rewrite (rs_mem _ _ _ _ _ _ Hr), put_app. }
  set (d := mkRunData _ _ _ _ _). set (w2 := emit (Opened fd) (called w1)).
  assert (resolving (mem w) tb (length bs) bs (resolved (calls w) (c_family c) args).1 w2) as Hr2 by (rewrite Hbs; by destruct Hr; split).
  pose proof (resolving_targets _ _ _ _ _ Hr2 (resolved_nonempty _ _ _) ltac:(lia)) as Ht. rewrite Hbs in Ht.
  destruct (client_run_spec fuel d w2 tb bs _ (rs_fresh _ _ _ _ _ _ Hr2) Ht) as (ret & w3 & evs & E3 & Hm3 & Hf3 & T3 & Hev & Hret).
  { eapply options_msgs; [|exact Eo]. done. }
  { intros Es. rewrite Hbs. by apply Hmax. }
  { right. destruct Hsig as (n & Hn & Hs). exists n. split; [|done]. cbn [w2 emit called looks]. by rewrite L. }
  rewrite E3. assert (resolving (mem w) tb (length bs) bs (resolved (calls w) (c_family c) args).1 w3) as Hr3 by (by eapply resolving_same).
  destruct (cleanup_spec _ _ _ _ _ d Hr3 ltac:(lia)) as (w4 & E4 & Hm4 & T4); [by rewrite Hbs|]. rewrite E4.
  exists ret, w4. split; [done|]. split; [destruct Hret as [[? _]|?]; [by left|by right]|]. right. exists fd, evs. cbn zeta. split_and!; [|done|done].
  rewrite T4, T3, Hbs, <- app_assoc. cbn [w2 trace emit called]. rewrite T, <- app_assoc. done.
Qed.

(** The number of messages wraps around.  With two targets and 2147483648 messages per
    target, which [-m -2147483648] asks for, their product is 0 in an [unsigned int]: the array
    gets no element, and the first message is written past its end. *)
Theorem mmsghdr_overflow `{Posix} d w tb b1 b2 addrs :
  targets_at (mem w) (rd_targets d) tb [b1; b2] addrs -> fresh w -> alloc_ok (allocs w) = true ->
  rd_syscall d = SENDMMSG -> rd_msgs d = 2 ^ 31 -> atoi (lit "-2147483648") = Some (- 2 ^ 31) /\ wrap 32 (- 2 ^ 31) = rd_msgs d /\ m_send d w = None.
Proof.
  intros Ht Hf Hok Em En. rewrite En. split; [by vm_compute|]. split; [by vm_compute|]. unfold m_send. rewrite Em.
  set (w0 := emit _ w). assert (fresh w0) as Hf0 by exact Hf. assert (targets_at (mem w0) (rd_targets d) tb [b1; b2] addrs) as Ht0 by exact Ht.
  unfold send_sendmmsg, mmsghdr_new. rewrite En, (ta_len _ _ _ _ _ Ht). change (wrap 32 (Z.of_nat (length [b1; b2]) * 2 ^ 31)) with 0.
  cbn [Z.to_nat replicate]. unfold alloc. change (allocs w0) with (allocs w). rewrite Hok.
  set (w1 := mkWorld _ _ _ _ _ _ _). change (Z.to_nat (Z.of_nat (length [b1; b2]))) with 2%nat. cbn [for_int].
  destruct (targets_lookup (mem w0) (rd_targets d) tb [b1; b2] addrs 0 (default [] (addrs !! 0%nat)) w1 Ht0) as (b & _ & E & _).
  - cbn [w1 mem]. apply insert_subseteq. apply Hf0. lia.
  - destruct addrs as [|a addrs]; [|done]. destruct Ht as [_ _ _ _ Ha]. by inversion Ha.
  - change (Z.of_nat 0) with 0 in E. change (2 ^ 31 <=? 0) with false. cbv iota. rewrite E.
    assert (exists n, Z.to_nat (2 ^ 31) = S n) as [n ->] by (exists (Z.to_nat (2 ^ 31 - 1)); lia). cbn [for_int].
    change (2 ^ 31 <=? 0) with false. cbv iota. unfold fill_message. change (wrap 32 (0 + wrap 32 (0 * 2 ^ 31))) with 0.
    assert (fresh w1) as Hf1. { intros c Hc. cbn [w1 mem brk] in *. rewrite lookup_insert_ne by lia. apply Hf0. lia. }
    destruct (send_iovec_spec w1 Hf1) as (p & w2 & Ei & _ & _ & Hc). rewrite Ei.
    assert (load_mmsg (AT (brk w0)) 0 w2 = None) as ->; [|done]. unfold load_mmsg.
    assert (mem w2 !! brk w0 = Some (MMSG [])) as ->; [|done].
    destruct Hc as [(_ & -> & _)|(_ & -> & _)]; cbn [w1 mem brk]; [|rewrite lookup_insert_ne by lia]; apply lookup_insert_eq.
Qed.

(** ** Witnesses *)

Module ClientWitnesses.

Definition address : list ascii := ["002"%char; NUL; "035"%char; "130"%char; "127"%char; NUL; NUL; "001"%char].

#[local] Instance system : Posix := {|
  alloc_ok _ := true;
  signal_arrives n := (2 <=? n)%nat;
  getaddrinfo _ _ _ _ := inr [mkAddrinfo AF_INET SOCK_DGRAM 17 address];
  socket_result _ := inr 3;
  bind_result _ := inr tt;
  send_result _ := inr tt;
  sendmmsg_result _ := inr 3%nat;
  recv_result _ := inl EAGAIN;
  inet_ntop _ _ := lit "127.0.0.1"
|}.

#[local] Instance system_laws : PosixLaws.
Proof. split; cbn; intros; simplify_eq; done. Qed.

Definition start : world := mkWorld ∅ 1 0 0 0 true [].

Lemma client_start_fresh : fresh start.
Proof. intros b _. apply lookup_empty. Qed.

(** Two targets in memory. *)
Definition ready : world :=
  mkWorld (<[1%positive := TARGETS [AT 2; AT 3]]> (<[2%positive := ADDRINFO [mkAddrinfo AF_INET SOCK_DGRAM 17 address]]>
    (<[3%positive := ADDRINFO [mkAddrinfo AF_INET SOCK_DGRAM 17 address]]> ∅))) 4 0 0 0 true [].

Definition job (m : send_method) (msgs : Z) : run_data := mkRunData m (mkTargets (AT 1) 2) 3 2 msgs.

Lemma ready_targets m msgs : targets_at (mem ready) (rd_targets (job m msgs)) 1 [2%positive; 3%positive] [address; address].
Proof. split; try done. constructor; [by eexists _, _|]. constructor; [by eexists _, _|constructor]. Qed.

Lemma ready_fresh : fresh ready.
Proof. intros b Hb. cbn in *. rewrite !lookup_insert_ne by lia. apply lookup_empty. Qed.

Lemma m_send_spec_witness :
  exists r w' k, m_send (job SENDMMSG 2) ready = Some (r, w') /\ mem w' = mem ready /\ r = 0 /\ k = 3%nat /\
    trace w' = [Out (lit "Sending data..."); Sent 3 address copies; Sent 3 address copies; Sent 3 address copies].
Proof.
  destruct (m_send_spec (job SENDMMSG 2) ready 1 _ _ ready_fresh (ready_targets _ _) ltac:(done) ltac:(done)) as (r & w' & k & E & Hs & Hr).
  exists r, w', k. split; [done|]. split; [apply Hs|].
  assert (option_map fst (m_send (job SENDMMSG 2) ready) = Some 0) as E0 by (vm_compute; reflexivity).
  rewrite E in E0. injection E0 as ->. destruct Hr as [(_ & j & [= <-] & ->)|[? _]]; [|lia].
  split; [done|]. split; [done|]. rewrite (sd_trace _ _ _ _ _ Hs). reflexivity.
Defined.

Lemma parse_target_spec_witness :
  option_map (fun r : str * str * str => (r.1.2, r.2)) (parse_target AF_INET6 (lit "[" ++ lit "fd00::1" ++ lit "]:" ++ lit "53")) =
  Some (lit "fd00::1", lit "53").
Proof. apply (parse_target_spec (lit "fd00::1") (lit "53")); vm_compute; intuition discriminate. Defined.

Lemma main_spec_witness :
  exists ret w', main 10 (lit "udp-client") [("m"%char, lit "3")] [lit "server-a:9090"; lit "server-b"] start = Some (Some ret, w') /\
    mem w' = ∅ /\ exists evs, trace w' = Opened 3 :: evs ++ [Closed 3; Closed 3].
Proof.
  destruct (main_spec 10 (lit "udp-client") [("m"%char, lit "3")] [lit "server-a:9090"; lit "server-b"] start
    (mkConfig AF_INET 2 SENDTO 3) client_start_fresh eq_refl ltac:(done) ltac:(done) ltac:(done)) as (ret & w' & E & _ & Hc).
  { exists 2%nat. split; [cbn; lia|done]. }
  exists ret, w'. split; [exact E|]. destruct Hc as [(-> & _)|(fd & evs & T & _ & Hm)].
  - assert (option_map fst (main 10 (lit "udp-client") [("m"%char, lit "3")] [lit "server-a:9090"; lit "server-b"] start) = Some (Some 0)) as E0
      by (vm_compute; reflexivity). rewrite E in E0. discriminate E0.
  - split; [done|]. assert (fd = 3) as ->; [|by exists evs].
    assert (option_map (fun r => List.hd_error (trace r.2)) (main 10 (lit "udp-client") [("m"%char, lit "3")] [lit "server-a:9090"; lit "server-b"] start) = Some (Some (Opened 3))) as E0
      by (vm_compute; reflexivity). rewrite E in E0. cbn [option_map snd] in E0. rewrite T in E0. by injection E0.
Defined.

Lemma mmsghdr_overflow_witness : m_send (job SENDMMSG (2 ^ 31)) ready = None.
Proof. apply (mmsghdr_overflow _ _ _ _ _ _ (ready_targets _ _) ready_fresh); reflexivity. Defined.

End ClientWitnesses.
