(* ===== verification/UdpServer.v ===== *)
(** * The UDP server

    [integration-tests/container/udp/udp-server.c]: the program that prints the datagrams it
    receives with the system call of its choice.  The address of a sender is stored in a
    [struct sockaddr] of 16 bytes, as the program does; the receive buffers are blocks
    of [BUF_SIZE + 1] bytes that are indeterminate until the system writes to them. *)

From stdpp Require Import gmap.
From S2P Require Import Prelude Containers Utility UdpMemory.

Open Scope Z_scope.
Open Scope collector_scope.

(** ** Data *)

Definition BUF_SIZE : Z := 4096.
Definition IOVEC_N : nat := 16.
Definition MMSGHDR_N : nat := 32.

(** [sizeof(struct sockaddr)]. *)
Definition sizeof_sockaddr : Z := 16.

Inductive recv_method := RECVFROM | RECVMSG | RECVMMSG.

(** Bytes, some of which are indeterminate. *)
Abbreviation bytes := (list (option ascii)).

Definition uninit (n : Z) : bytes := replicate (Z.to_nat n) None.

(** Writing at the start of an object. *)
Definition overwrite (s : str) (l : bytes) : bytes := (Some <$> s) ++ drop (length s) l.

(** The C string in an object: its end must be inside, and no byte before it indeterminate. *)
Fixpoint read_string (l : bytes) : option str :=
  match l with
  | Some c :: l => if is_nul c then Some [] else let! s := read_string l in Some (c :: s)
  | _ => None
  end.

(** Bytes of an object that the program reads as a whole. *)
Definition read_bytes (off n : nat) (l : bytes) : option str :=
  if (off + n <=? length l)%nat then mapM id (take n (drop off l)) else None.

Section server.
Context `{HostEndian} `{Posix}.

(** ** The address of the sender *)

Definition sa_family (sa : bytes) : option Z :=
  let! s := read_bytes 0 2 sa in
  match s with
  | [a; b] => Some (if host_is_big_endian then 256 * code a + code b else code a + 256 * code b)
  | _ => None
  end.

(** The offset of the address in a [sockaddr_in] or a [sockaddr_in6]. *)
Definition get_in_addr (family : Z) : nat := if family =? AF_INET then 4%nat else 8%nat.

(** [inet_ntop] reads 4 or 16 bytes; it has no text for another family. *)
Definition show_from (sa : bytes) : option str :=
  let! family := sa_family sa in
  let! n := if family =? AF_INET then Some 4%nat else if family =? AF_INET6 then Some 16%nat else None in
  let! addr := read_bytes (get_in_addr family) n sa in
  Some (inet_ntop family addr).

(** ** Messages *)

Definition iovec_free (iov : ptr) (w : world) : option world :=
  match iov with
  | NULL => Some w
  | _ =>
      let! (_, w) := for_int (E := unit) IOVEC_N 0
        (fun i w => let! v := load_iov iov i w in let! w := free (iov_base v) w in Some (None, w)) w in
      free iov w
  end.

Definition iovec_new (w : world) : option (ptr * world) :=
  let '(ret, w) := alloc (IOV (replicate IOVEC_N zero_iovec)) w in
  match ret with
  | NULL => Some (NULL, w)
  | _ =>
      let! (failed, w) := for_int IOVEC_N 0
        (fun i w =>
           let '(base, w) := malloc (BUF_SIZE + 1) w in
           let! v := load_iov ret i w in
           let! w := store_iov ret i (mkIovec base (iov_len v)) w in
           match base with
           | NULL => Some (Some tt, w)
           | _ => let! w := store_iov ret i (mkIovec base BUF_SIZE) w in Some (None, w)
           end) w in
      match failed with
      | Some _ => let! w := iovec_free ret w in Some (NULL, w)
      | None => Some (ret, w)
      end
  end.

Definition mmsghdr_free (mmh : ptr) (w : world) : option world :=
  match mmh with
  | NULL => Some w
  | _ =>
      let! (_, w) := for_int (E := unit) MMSGHDR_N 0
        (fun i w =>
           let! m := load_mmsg mmh i w in
           let! w := free (msg_name (msg_hdr m)) w in
           let! w := iovec_free (msg_iov (msg_hdr m)) w in Some (None, w)) w in
      free mmh w
  end.

(** Lines 102-113; the loop is left when there is no memory. *)
Definition fill_message (mmh : ptr) (i : Z) (w : world) : option (option unit * world) :=
  let! m := load_mmsg mmh i w in
  let '(name, w) := malloc sizeof_sockaddr w in
  let mh := mkMsghdr name sizeof_sockaddr (msg_iov (msg_hdr m)) (msg_iovlen (msg_hdr m)) in
  let! w := store_mmsg mmh i (mkMmsghdr mh (msg_len m)) w in
  match name with
  | NULL => Some (Some tt, w)
  | _ =>
      let! (iov, w) := iovec_new w in
      let! w := store_mmsg mmh i (mkMmsghdr (mkMsghdr name sizeof_sockaddr iov (msg_iovlen mh)) (msg_len m)) w in
      match iov with
      | NULL => Some (Some tt, w)
      | _ =>
          let! w := store_mmsg mmh i (mkMmsghdr (mkMsghdr name sizeof_sockaddr iov (Z.of_nat IOVEC_N)) (msg_len m)) w in
          Some (None, w)
      end
  end.

Definition mmsghdr_new (w : world) : option (ptr * world) :=
  let '(mmh, w) := alloc (MMSG (replicate MMSGHDR_N zero_mmsghdr)) w in
  match mmh with
  | NULL => Some (NULL, w)
  | _ =>
      let! (failed, w) := for_int MMSGHDR_N 0 (fill_message mmh) w in
      match failed with
      | Some _ => let! w := mmsghdr_free mmh w in Some (NULL, w)
      | None => Some (mmh, w)
      end
  end.

(** ** What the system stores *)

Definition load_bytes (p : ptr) (w : world) : option bytes :=
  match p with AT b => match mem w !! b with Some (BYTES l) => Some l | _ => None end | _ => None end.

Definition store_bytes (p : ptr) (l : bytes) (w : world) : option world :=
  match p with
  | AT b => match mem w !! b with Some (BYTES _) => Some (set_mem <[b := BYTES l]> w) | _ => None end
  | _ => None
  end.

(** Writing to a buffer that is large enough. *)
Definition write_bytes (p : ptr) (s : str) (w : world) : option world :=
  let! l := load_bytes p w in
  if (length s <=? length l)%nat then store_bytes p (overwrite s l) w else None.

(** The data go to the first buffers, as much as they hold; the result is what was stored. *)
Fixpoint scatter (n : nat) (iov : ptr) (i : Z) (data : str) (w : world) : option (Z * world) :=
  match n with
  | O => Some (0, w)
  | S n =>
      let! v := load_iov iov i w in
      let chunk := take (Z.to_nat (iov_len v)) data in
      let! w := write_bytes (iov_base v) chunk w in
      let! (size, w) := scatter n iov (i + 1) (drop (Z.to_nat (iov_len v)) data) w in
      Some (Z.of_nat (length chunk) + size, w)
  end.

(** ** Printing *)

(** The loop of [print_msg], with [n] vectors to go; [sa] is the address of the sender. *)
Fixpoint print_loop (n : nat) (sa : bytes) (iov : ptr) (i remaining : Z) (w : world) : option world :=
  match n with
  | O => Some w
  | S n =>
      if remaining <? 0 then Some w else
      let! v := load_iov iov i w in
      let terminator_index := if wrap 64 remaining <? iov_len v then remaining else iov_len v in
      let! l := load_bytes (iov_base v) w in
      let! w := (if (Z.to_nat terminator_index <? length l)%nat
                 then store_bytes (iov_base v) (<[Z.to_nat terminator_index := Some NUL]> l) w else None) in
      let! from := show_from sa in
      let! l := load_bytes (iov_base v) w in
      let! buf := read_string l in
      print_loop n sa iov (i + 1) (to_signed 64 (remaining - iov_len v)) (emit (Out (from ++ lit ": " ++ buf)) w)
  end.

(** [local] is the variable [from], where [msg_name] may point. *)
Definition print_msg (local : bytes) (mh : msghdr) (remaining : Z) (w : world) : option world :=
  let! sa := match msg_name mh with FROM => Some local | p => load_bytes p w end in
  print_loop (Z.to_nat (msg_iovlen mh)) sa (msg_iov mh) 0 remaining w.

(** ** Receiving *)

(** The datagram of a call that succeeds. *)
Definition one_of (l : list datagram) : datagram := match l with d :: _ => d | [] => mkDatagram [] [] end.

(** An error that only says that there is nothing to receive. *)
Definition transient (e : Z) : bool := (e =? EINTR) || (e =? EAGAIN).

Definition receive_recvfrom (fd : Z) (w : world) : option (Z * world) :=
  match recv_result (calls w) with
  | inl e => Some (if transient e then 0 else e, called w)
  | inr l =>
      let d := one_of l in
      let w := called w in
      let data := take (Z.to_nat BUF_SIZE) (dg_data d) in
      let from := overwrite (take (Z.to_nat sizeof_sockaddr) (dg_from d)) (uninit sizeof_sockaddr) in
      let buf := <[length data := Some NUL]> (overwrite data (uninit (BUF_SIZE + 1))) in
      let! name := show_from from in
      let! text := read_string buf in
      Some (0, emit (Out (name ++ lit ": " ++ text)) w)
  end.

Definition receive_recvmsg (fd : Z) (w : world) : option (Z * world) :=
  let! (iov, w) := iovec_new w in
  match iov with
  | NULL => Some (ENOMEM, w)
  | _ =>
      let mh := mkMsghdr FROM sizeof_sockaddr iov (Z.of_nat IOVEC_N) in
      let! (err, w) :=
        match recv_result (calls w) with
        | inl e => Some (if transient e then 0 else e, called w)
        | inr l =>
            let d := one_of l in
            let w := called w in
            let from := overwrite (take (Z.to_nat (msg_namelen mh)) (dg_from d)) (uninit sizeof_sockaddr) in
            let! (res, w) := scatter (Z.to_nat (msg_iovlen mh)) iov 0 (dg_data d) w in
            let! w := print_msg from mh res w in
            Some (0, w)
        end in
      let! w := iovec_free iov w in
      Some (err, w)
  end.

(** The system fills in a message: the address, the data, and their lengths. *)
Definition recv_message (mmh : ptr) (i : Z) (d : datagram) (w : world) : option world :=
  let! m := load_mmsg mmh i w in
  let mh := msg_hdr m in
  let! w := write_bytes (msg_name mh) (take (Z.to_nat (msg_namelen mh)) (dg_from d)) w in
  let! (size, w) := scatter (Z.to_nat (msg_iovlen mh)) (msg_iov mh) 0 (dg_data d) w in
  store_mmsg mmh i (mkMmsghdr (mkMsghdr (msg_name mh) (Z.of_nat (length (dg_from d))) (msg_iov mh) (msg_iovlen mh)) size) w.

Fixpoint recv_messages (mmh : ptr) (i : Z) (l : list datagram) (w : world) : option world :=
  match l with
  | [] => Some w
  | d :: l => let! w := recv_message mmh i d w in recv_messages mmh (i + 1) l w
  end.

Definition receive_recvmmsg (fd : Z) (w : world) : option (Z * world) :=
  let! (mmh, w) := mmsghdr_new w in
  match mmh with
  | NULL => Some (ENOMEM, w)
  | _ =>
      let! (err, w) :=
        match recv_result (calls w) with
        | inl e => Some (if transient e then 0 else e, called w)
        | inr l =>
            let ds := take MMSGHDR_N l in
            let! w := recv_messages mmh 0 ds (called w) in
            let! (_, w) := for_int (E := unit) (length ds) 0
              (fun i w => let! m := load_mmsg mmh i w in let! w := print_msg [] (msg_hdr m) (msg_len m) w in Some (None, w)) w in
            Some (0, w)
        end in
      let! w := mmsghdr_free mmh w in
      Some (err, w)
  end.

Definition receive (fd : Z) (syscall : recv_method) (w : world) : option (Z * world) :=
  match syscall with
  | RECVFROM => receive_recvfrom fd w
  | RECVMSG => receive_recvmsg fd w
  | RECVMMSG => receive_recvmmsg fd w
  end.

(** ** The program *)

(** The loop over the addresses [ps] of the list [res]; [fd] is the last result of [socket]. *)
Fixpoint open_loop (res ps : list addrinfo) (w : world) : option (option Z * world) :=
  match ps with
  | [] => Some (None, w)
  | p :: ps =>
      match socket_result (calls w) with
      | inl _ => open_loop res ps (emit (Err (lit "Failed to create socket")) (called w))
      | inr fd =>
          let w := emit (Opened fd) (called w) in
          match res with
          | [] => None
          | r :: _ =>
              match bind_result (calls w) with
              | inl _ => open_loop res ps (emit (Err (lit "bind failed")) (called w))
              | inr _ => Some (Some fd, emit (Bound fd (ai_addr r)) (called w))
              end
          end
      end
  end.

(** [while (running)]; [None] when it has not ended after [fuel] tests. *)
Fixpoint serve (fuel : nat) (fd : Z) (syscall : recv_method) (w : world) : option (option unit * world) :=
  match fuel with
  | O => Some (None, w)
  | S fuel =>
      let '(go, w) := test_running w in
      if negb go then Some (Some tt, w) else
      let! (ret, w) := receive fd syscall w in
      if ret <? 0 then serve fuel fd syscall (emit (Err (lit "receive failed")) w) else serve fuel fd syscall w
  end.

Definition run (fuel : nat) (family : Z) (port : str) (syscall : recv_method) (w : world) : option (option Z * world) :=
  match getaddrinfo (calls w) None port (mkHints family SOCK_DGRAM AI_PASSIVE) with
  | inl _ => Some (Some (-1), emit (Err (lit "getaddrinfo failed")) (called w))
  | inr l =>
      let b := brk w in
      let w := called w in
      let w := mkWorld (<[b := ADDRINFO l]> (mem w)) (Pos.succ b) (allocs w) (calls w) (looks w) (running w) (trace w) in
      let! (p, w) := open_loop l l w in
      match p with
      | None => Some (Some (-1), emit (Err (lit "failed to create socket")) w)
      | Some fd =>
          let! w := freeaddrinfo (AT b) w in
          let! (ended, w) := serve fuel fd syscall w in
          match ended with
          | None => Some (None, w)
          | Some _ => Some (Some 0, emit (Closed fd) w)
          end
      end
  end.

Definition usage (prog : str) (w : world) : world :=
  fold_left (fun w line => emit (Out line) w)
    [prog ++ lit " [FLAGS]"; []; lit "FLAGS:";
     lit "  -6, --ipv6:"; lit "	Use IPv6 instead of IPv4"; [];
     lit "  -h, --help:"; lit "	Show this help message"; [];
     lit "  -p, --port=" ++ ["034"%char] ++ lit "9090" ++ ["034"%char] ++ lit ":"; lit "	Use the specified port"; [];
     lit "  -s, --syscall=" ++ ["034"%char] ++ lit "recvfrom" ++ ["034"%char] ++ lit ":";
     lit "	Syscall to be used for receiving messages"; lit "	One of: recvfrom, recvmsg, recvmmsg"; []] w.

Definition parse_method (name : str) : option recv_method :=
  if bool_decide (name = lit "recvfrom") then Some RECVFROM
  else if bool_decide (name = lit "recvmsg") then Some RECVMSG
  else if bool_decide (name = lit "recvmmsg") then Some RECVMMSG
  else None.

(** The loop over the options that [getopt_long] finds: the settings, or the value that [main] returns. *)
Fixpoint options_loop (prog : str) (opts : list (ascii * str)) (family : Z) (port : str) (syscall : recv_method) (w : world)
    : (Z * str * recv_method + Z) * world :=
  match opts with
  | [] => (inl (family, port, syscall), w)
  | (opt, optarg) :: opts =>
      if bool_decide (opt = "6"%char) then options_loop prog opts AF_INET6 port syscall w
      else if bool_decide (opt = "h"%char) then (inr 0, usage prog w)
      else if bool_decide (opt = "p"%char) then
        options_loop prog opts family optarg syscall (emit (Out (lit "Using port " ++ optarg)) w)
      else if bool_decide (opt = "s"%char) then
        match parse_method optarg with
        | Some m => options_loop prog opts family port m w
        | None => (inr (-1), usage prog (emit (Err (lit "Unknown receive method: " ++ optarg)) w))
        end
      else (inr (-1), usage prog (emit (Err (lit "Unknown option")) w))
  end.

Definition main (fuel : nat) (prog : str) (opts : list (ascii * str)) (w : world) : option (option Z * world) :=
  let '(r, w) := options_loop prog opts AF_INET (lit "9090") RECVFROM w in
  match r with
  | inr ret => Some (Some ret, w)
  | inl (family, port, syscall) => run fuel family port syscall w
  end.

End server.

(** ** Lemmas on arrays of vectors *)

(** A buffer with its contents, as a block and as a vector. *)
Definition part (p : positive * bytes) : positive * block := (p.1, BYTES p.2).
Definition vec (p : positive * bytes) : iovec := mkIovec (AT p.1) BUF_SIZE.

(** An array of which the first vectors have buffers. *)
Definition vecs (bufs : list (positive * bytes)) : list iovec :=
  map vec bufs ++ replicate (IOVEC_N - length bufs) zero_iovec.

Lemma vecs_at bufs i p : bufs !! i = Some p -> vecs bufs !! i = Some (vec p).
Proof. intros Hp. unfold vecs. apply lookup_app_l_Some. by rewrite list_lookup_fmap, Hp. Qed.

Lemma vecs_after bufs i : (length bufs <= i < IOVEC_N)%nat -> vecs bufs !! i = Some zero_iovec.
Proof.
  intros Hi. unfold vecs. rewrite lookup_app_r by (rewrite length_map; lia). rewrite length_map. apply lookup_replicate. split; [done|lia].
Qed.

Lemma vecs_length bufs : (length bufs <= IOVEC_N)%nat -> length (vecs bufs) = IOVEC_N.
Proof. intros Hl. unfold vecs. rewrite length_app, length_map, length_replicate. lia. Qed.

Lemma vecs_snoc bufs p : (length bufs < IOVEC_N)%nat -> <[length bufs := vec p]> (vecs bufs) = vecs (bufs ++ [p]).
Proof.
  intros Hl. unfold vecs. rewrite insert_app_r_alt by (rewrite length_map; lia). rewrite length_map, Nat.sub_diag, map_app, <- app_assoc, length_app.
  f_equal. replace (IOVEC_N - length bufs)%nat with (S (IOVEC_N - (length bufs + 1))) by lia. done.
Qed.

Lemma load_iov_at m b v l w i : owned m ((b, IOV v) :: l) w -> load_iov (AT b) (Z.of_nat i) w = v !! i.
Proof. intros Ho. unfold load_iov. by rewrite (owned_lookup _ _ _ b (IOV v) Ho ltac:(left)), Nat2Z.id. Qed.

Lemma store_iov_at m b v l w i x : owned m ((b, IOV v) :: l) w -> (i < length v)%nat ->
  exists w', store_iov (AT b) (Z.of_nat i) x w = Some w' /\ quiet w w' /\ owned m ((b, IOV (<[i := x]> v)) :: l) w'.
Proof.
  intros Ho Hi. unfold store_iov. rewrite (owned_lookup _ _ _ b (IOV v) Ho ltac:(left)), Nat2Z.id, (proj2 (Nat.ltb_lt _ _) Hi).
  eexists. split; [reflexivity|]. split; [done|]. by eapply owned_set.
Qed.

Lemma load_mmsg_at m b v l w i : owned m ((b, MMSG v) :: l) w -> load_mmsg (AT b) (Z.of_nat i) w = v !! i.
Proof. intros Ho. unfold load_mmsg. by rewrite (owned_lookup _ _ _ b (MMSG v) Ho ltac:(left)), Nat2Z.id. Qed.

Lemma store_mmsg_at m b v l w i x : owned m ((b, MMSG v) :: l) w -> (i < length v)%nat ->
  exists w', store_mmsg (AT b) (Z.of_nat i) x w = Some w' /\ quiet w w' /\ owned m ((b, MMSG (<[i := x]> v)) :: l) w'.
Proof.
  intros Ho Hi. unfold store_mmsg. rewrite (owned_lookup _ _ _ b (MMSG v) Ho ltac:(left)), Nat2Z.id, (proj2 (Nat.ltb_lt _ _) Hi).
  eexists. split; [reflexivity|]. split; [done|]. by eapply owned_set.
Qed.

(** Freeing an array, however many buffers it has. *)
Lemma iovec_free_spec m ib bufs l w :
  (length bufs <= IOVEC_N)%nat -> owned m ((ib, IOV (vecs bufs)) :: map part bufs ++ l) w ->
  exists w', iovec_free (AT ib) w = Some w' /\ quiet w w' /\ owned m l w'.
Proof.
  intros Hle Ho. unfold iovec_free.
  match goal with |- context [for_int _ _ ?f _] => set (body := f) end.
  destruct (for_int_inv (fun t w' => quiet w w' /\ owned m ((ib, IOV (vecs bufs)) :: map part (drop t bufs) ++ l) w')
    (fun _ _ => False) IOVEC_N 0 body w) as (r & w1 & E & Hr).
  - intros t w1 Ht (Hq & Ho1). unfold body. rewrite Z.add_0_l, (load_iov_at _ _ _ _ _ _ Ho1).
    destruct (decide (t < length bufs)%nat) as [Hlt|Hge].
    + destruct (lookup_lt_is_Some_2 bufs t Hlt) as [[b x] Hp]. rewrite (vecs_at _ _ _ Hp), (drop_S _ _ _ Hp) in *. cbn [vec iov_base fst].
      apply (owned_perm _ _ ((b, BYTES x) :: (ib, IOV (vecs bufs)) :: map part (drop (S t) bufs) ++ l)) in Ho1; [|apply perm_swap].
      destruct (owned_free _ _ _ _ _ Ho1) as [-> Ho2]; [done|]. by eexists None, _.
    + rewrite vecs_after by lia. cbn [zero_iovec iov_base free]. eexists None, _. split; [done|]. split; [done|].
      rewrite drop_ge in * by lia. done.
  - by vm_compute.
  - by rewrite drop_0.
  - rewrite E. destruct r as [[]|]; [done|]. destruct Hr as (Hq & Ho1).
    rewrite drop_ge in Ho1 by done. destruct (owned_free _ _ _ _ _ Ho1) as [-> Ho2]; [done|]. by eexists.
Qed.

(** All vectors have buffers of [BUF_SIZE + 1] bytes. *)
Definition buffers (bufs : list (positive * bytes)) : Prop :=
  length bufs = IOVEC_N /\ Forall (fun p => Z.of_nat (length p.2) = BUF_SIZE + 1) bufs.

Section memory.
Context `{Posix}.

(** One more buffer, or no memory for it. *)
Lemma iovec_step m ib bufs l w :
  (length bufs < IOVEC_N)%nat -> owned m ((ib, IOV (vecs bufs)) :: map part bufs ++ l) w ->
  exists r w', (let '(base, w) := malloc (BUF_SIZE + 1) w in
                let! v := load_iov (AT ib) (Z.of_nat (length bufs)) w in
                let! w := store_iov (AT ib) (Z.of_nat (length bufs)) (mkIovec base (iov_len v)) w in
                match base with
                | NULL => Some (Some tt, w)
                | _ => let! w := store_iov (AT ib) (Z.of_nat (length bufs)) (mkIovec base BUF_SIZE) w in Some (None, w)
                end) = Some (r, w') /\ quiet w w' /\
    match r with
    | Some _ => owned m ((ib, IOV (vecs bufs)) :: map part bufs ++ l) w'
    | None => exists b, owned m ((ib, IOV (vecs (bufs ++ [(b, uninit (BUF_SIZE + 1))]))) :: map part (bufs ++ [(b, uninit (BUF_SIZE + 1))]) ++ l) w'
    end.
Proof.
  intros Hl Ho. unfold malloc. destruct (owned_alloc _ _ (BYTES (replicate (Z.to_nat (BUF_SIZE + 1)) None)) _ Ho) as (p & w1 & -> & Hq & [(-> & Ho1)|(-> & Ho1)]).
  - rewrite (load_iov_at _ _ _ _ _ _ Ho1), vecs_after by lia. cbn [zero_iovec iov_len].
    destruct (store_iov_at _ _ _ _ _ (length bufs) zero_iovec Ho1) as (w2 & E2 & Hq2 & Ho2); [rewrite vecs_length; lia|].
    unfold zero_iovec in E2. rewrite E2. eexists _, w2. split; [reflexivity|]. split; [by etrans|].
    rewrite list_insert_id in Ho2 by (by apply vecs_after). done.
  - set (b := brk w) in *. apply (owned_perm _ _ _ _ (perm_swap _ _ _)) in Ho1.
    rewrite (load_iov_at _ _ _ _ _ _ Ho1), vecs_after by lia. cbn [zero_iovec iov_len].
    destruct (store_iov_at _ _ _ _ _ (length bufs) (mkIovec (AT b) 0) Ho1) as (w2 & E2 & Hq2 & Ho2); [rewrite vecs_length; lia|]. rewrite E2.
    destruct (store_iov_at _ _ _ _ _ (length bufs) (mkIovec (AT b) BUF_SIZE) Ho2) as (w3 & E3 & Hq3 & Ho3); [rewrite length_insert, vecs_length; lia|]. rewrite E3.
    eexists _, w3. split; [reflexivity|]. split; [by do 2 (etrans; [done|])|]. exists b.
    rewrite list_insert_insert_eq in Ho3. change (mkIovec (AT b) BUF_SIZE) with (vec (b, uninit (BUF_SIZE + 1))) in Ho3. rewrite vecs_snoc in Ho3 by done.
    eapply owned_perm; [|exact Ho3]. apply perm_skip. rewrite map_app, <- app_assoc. apply Permutation_middle.
Qed.

Lemma iovec_new_spec m l w : owned m l w ->
  exists p w', iovec_new w = Some (p, w') /\ quiet w w' /\
    ((p = NULL /\ owned m l w') \/
     exists ib bufs, p = AT ib /\ buffers bufs /\ owned m ((ib, IOV (vecs bufs)) :: map part bufs ++ l) w').
Proof.
  intros Ho. unfold iovec_new. destruct (owned_alloc _ _ (IOV (replicate IOVEC_N zero_iovec)) _ Ho) as (p & w1 & -> & Hq & [(-> & Ho1)|(-> & Ho1)]).
  { exists NULL, w1. split_and!; [done..|]. by left. }
  set (ib := brk w) in *. match goal with |- context [for_int _ _ ?f _] => set (body := f) end.
  destruct (for_int_inv (fun k w' => quiet w w' /\ exists bufs, length bufs = k /\ Forall (fun p => Z.of_nat (length p.2) = BUF_SIZE + 1) bufs /\
        owned m ((ib, IOV (vecs bufs)) :: map part bufs ++ l) w')
    (fun _ w' => quiet w w' /\ exists bufs, (length bufs <= IOVEC_N)%nat /\ owned m ((ib, IOV (vecs bufs)) :: map part bufs ++ l) w')
    IOVEC_N 0 body w1) as (r & w2 & E & Hr).
  - intros k w2 Hk (Hq2 & bufs & <- & Hb & Ho2). unfold body. rewrite Z.add_0_l.
    destruct (iovec_step _ _ _ _ _ Hk Ho2) as (r & w3 & E & Hq3 & Hr). exists r, w3. split; [done|]. destruct r as [[]|].
    + split; [by etrans|]. exists bufs. split; [lia|done].
    + destruct Hr as [b Hr]. split; [by etrans|]. eexists. split; [|split; [|exact Hr]].
      * rewrite length_app. cbn. lia.
      * apply Forall_app. split; [done|]. by repeat constructor.
  - by vm_compute.
  - split; [done|]. exists []. split_and!; [done|constructor|done].
  - rewrite E. destruct r as [[]|]; destruct Hr as (Hq2 & bufs & Hl & Hr).
    + destruct (iovec_free_spec _ _ _ _ _ Hl Hr) as (w3 & E3 & Hq3 & Ho3). rewrite E3. exists NULL, w3. split; [done|]. split; [by etrans|]. by left.
    + exists (AT ib), w2. split_and!; [done..|]. right. exists ib, bufs. destruct Hr as [Hb Ho2]. done.
Qed.

(** ** Lemmas on arrays of messages *)

(** An element of the array: complete, with a name only, or without memory. *)
Inductive cell :=
| Full (nb : positive) (name : bytes) (ib : positive) (bufs : list (positive * bytes)) (namelen len : Z)
| Named (nb : positive) (name : bytes)
| Bare (namelen : Z).

Definition header_of (c : cell) : mmsghdr :=
  match c with
  | Full nb _ ib _ namelen len => mkMmsghdr (mkMsghdr (AT nb) namelen (AT ib) (Z.of_nat IOVEC_N)) len
  | Named nb _ => mkMmsghdr (mkMsghdr (AT nb) sizeof_sockaddr NULL 0) 0
  | Bare namelen => mkMmsghdr (mkMsghdr NULL namelen NULL 0) 0
  end.

Definition blocks_of (c : cell) : list (positive * block) :=
  match c with
  | Full nb name ib bufs _ _ => (nb, BYTES name) :: (ib, IOV (vecs bufs)) :: map part bufs
  | Named nb name => [(nb, BYTES name)]
  | Bare _ => []
  end.

Definition cell_ok (c : cell) : Prop :=
  match c with Full _ name _ bufs _ _ => Z.of_nat (length name) = sizeof_sockaddr /\ buffers bufs | _ => True end.

(** The array [mb] with its elements. *)
Definition array (mb : positive) (cells : list cell) : list (positive * block) :=
  (mb, MMSG (map header_of cells)) :: flat_map blocks_of cells.

(** Freeing one element. *)
Lemma cell_free m c l w : cell_ok c -> owned m (blocks_of c ++ l) w ->
  exists w', (let! w := free (msg_name (msg_hdr (header_of c))) w in iovec_free (msg_iov (msg_hdr (header_of c))) w) = Some w' /\
    quiet w w' /\ owned m l w'.
Proof.
  intros Hc Ho. destruct c as [nb name ib bufs namelen len|nb name|namelen]; cbn [header_of blocks_of msg_hdr msg_name msg_iov app] in *.
  - destruct (owned_free _ _ _ _ _ Ho) as [-> Ho1]; [done|]. destruct Hc as [_ [Hb _]].
    destruct (iovec_free_spec m ib bufs l _ ltac:(lia) Ho1) as (w' & E & Hq & Ho2). exists w'. done.
  - destruct (owned_free _ _ _ _ _ Ho) as [-> Ho1]; [done|]. by eexists.
  - by eexists.
Qed.

Lemma mmsghdr_free_spec m mb cells l w :
  length cells = MMSGHDR_N -> Forall cell_ok cells -> owned m (array mb cells ++ l) w ->
  exists w', mmsghdr_free (AT mb) w = Some w' /\ quiet w w' /\ owned m l w'.
Proof.
  intros Hl Hok Ho. unfold mmsghdr_free. match goal with |- context [for_int _ _ ?f _] => set (body := f) end.
  set (arr := (mb, MMSG (map header_of cells))).
  destruct (for_int_inv (fun t w' => quiet w w' /\ owned m (arr :: flat_map blocks_of (drop t cells) ++ l) w')
    (fun _ _ => False) MMSGHDR_N 0 body w) as (r & w1 & E & Hr).
  - intros t w1 Ht (Hq & Ho1). unfold body. rewrite Z.add_0_l, (load_mmsg_at _ _ _ _ _ _ Ho1), list_lookup_fmap.
    destruct (lookup_lt_is_Some_2 cells t ltac:(lia)) as [c Hc]. rewrite Hc. cbn [fmap option_fmap option_map].
    rewrite (drop_S _ _ _ Hc) in Ho1. cbn [flat_map] in Ho1. rewrite <- app_assoc in Ho1.
    apply (owned_perm _ _ (blocks_of c ++ arr :: flat_map blocks_of (drop (S t) cells) ++ l)) in Ho1; [|apply Permutation_middle].
    rewrite Forall_lookup in Hok. destruct (cell_free _ _ _ _ (Hok _ _ Hc) Ho1) as (w2 & E2 & Hq2 & Ho2).
    destruct (free _ w1) as [w'|]; [|done]. rewrite E2. eexists None, w2. split; [done|]. split; [by etrans|done].
  - by vm_compute.
  - by rewrite drop_0.
  - rewrite E. destruct r as [[]|]; [done|]. destruct Hr as (Hq & Ho1). rewrite drop_ge in Ho1 by lia.
    destruct (owned_free _ _ _ _ _ Ho1) as [-> Ho2]; [done|]. by eexists.
Qed.

Lemma headers_set pre c c' post :
  <[length pre := header_of c']> (map header_of (pre ++ c :: post)) = map header_of (pre ++ c' :: post).
Proof. rewrite !map_app. cbn [map]. rewrite insert_app_r_alt by (rewrite length_map; lia). by rewrite length_map, Nat.sub_diag. Qed.

Lemma array_perm mb pre c post l :
  array mb (pre ++ c :: post) ++ l ≡ₚ (mb, MMSG (map header_of (pre ++ c :: post))) :: blocks_of c ++ flat_map blocks_of (pre ++ post) ++ l.
Proof.
  unfold array. cbn [app]. apply perm_skip. rewrite !flat_map_app. cbn [flat_map]. rewrite <- !app_assoc.
  rewrite (app_assoc (flat_map blocks_of pre)), (Permutation_app_comm (flat_map blocks_of pre) (blocks_of c)), <- app_assoc. done.
Qed.

Lemma array_set m mb pre c c' post l w :
  owned m ((mb, MMSG (<[length pre := header_of c']> (map header_of (pre ++ c :: post)))) :: blocks_of c' ++ flat_map blocks_of (pre ++ post) ++ l) w ->
  owned m (array mb (pre ++ c' :: post) ++ l) w.
Proof. intros Hw. rewrite headers_set in Hw. eapply owned_perm; [symmetry; apply array_perm|exact Hw]. Qed.

(** A complete element whose message has not been received yet. *)
Definition ready_cell (c : cell) : Prop := cell_ok c /\ exists nb name ib bufs, c = Full nb name ib bufs sizeof_sockaddr 0.

Lemma fill_message_spec m mb pre post l w :
  owned m (array mb (pre ++ Bare 0 :: post) ++ l) w ->
  exists r w', fill_message (AT mb) (Z.of_nat (length pre)) w = Some (r, w') /\ quiet w w' /\
    match r with
    | None => exists c, ready_cell c /\ owned m (array mb (pre ++ c :: post) ++ l) w'
    | Some _ => exists c, cell_ok c /\ owned m (array mb (pre ++ c :: post) ++ l) w'
    end.
Proof.
  intros Ho. set (hs := map header_of (pre ++ Bare 0 :: post)). set (R := flat_map blocks_of (pre ++ post) ++ l).
  assert (length pre < length hs)%nat as Hk by (unfold hs; rewrite length_map, length_app; cbn; lia).
  assert (forall v, (length pre < length (<[length pre := v]> hs))%nat) as Hk' by (intros v; by rewrite length_insert).
  apply (owned_perm _ _ _ _ (array_perm _ _ _ _ _)) in Ho. cbn [blocks_of app] in Ho. fold hs R in Ho. unfold fill_message.
  rewrite (load_mmsg_at _ _ _ _ _ _ Ho). unfold hs at 1. rewrite list_lookup_fmap, lookup_app_r, Nat.sub_diag by lia.
  cbn [lookup list_lookup fmap option_fmap option_map header_of msg_hdr msg_iov msg_iovlen msg_len]. unfold malloc.
  assert (forall c w', owned m ((mb, MMSG (<[length pre := header_of c]> hs)) :: blocks_of c ++ R) w' ->
     owned m (array mb (pre ++ c :: post) ++ l) w') as Hset.
  { intros c w' Hw. by eapply array_set. }
  destruct (owned_alloc _ _ (BYTES (replicate (Z.to_nat sizeof_sockaddr) None)) _ Ho) as (p & w1 & -> & Hq & [(-> & Ho1)|(-> & Ho1)]).
  { destruct (store_mmsg_at _ _ _ _ _ (length pre) (header_of (Bare sizeof_sockaddr)) Ho1 Hk) as (w2 & E2 & Hq2 & Ho2). cbn [header_of] in E2.
    rewrite E2. eexists _, w2. split; [reflexivity|]. split; [by etrans|]. exists (Bare sizeof_sockaddr). split; [done|]. by apply Hset. }
  set (nb := brk w) in *. set (name := replicate (Z.to_nat sizeof_sockaddr) None) in *.
  apply (owned_perm _ _ _ _ (perm_swap _ _ _)) in Ho1.
  destruct (store_mmsg_at _ _ _ _ _ (length pre) (header_of (Named nb name)) Ho1 Hk) as (w2 & E2 & Hq2 & Ho2). cbn [header_of] in E2. rewrite E2.
  destruct (iovec_new_spec _ _ _ Ho2) as (iov & w3 & E3 & Hq3 & [(-> & Ho3)|(ib & bufs & -> & Hb & Ho3)]); rewrite E3.
  - destruct (store_mmsg_at _ _ _ _ _ (length pre) (header_of (Named nb name)) Ho3 (Hk' _)) as (w4 & E4 & Hq4 & Ho4). cbn [header_of] in E4.
    rewrite E4. eexists _, w4. split; [reflexivity|]. split; [by do 3 (etrans; [done|])|]. exists (Named nb name). split; [done|].
    rewrite list_insert_insert_eq in Ho4. by apply Hset.
  - apply (owned_perm _ _ ((mb, MMSG (<[length pre := header_of (Named nb name)]> hs)) :: blocks_of (Full nb name ib bufs sizeof_sockaddr 0) ++ R)) in Ho3.
    2: { cbn [blocks_of app]. etrans; [symmetry; apply (Permutation_middle ((ib, IOV (vecs bufs)) :: map part bufs))|]. apply perm_skip.
         symmetry. apply (Permutation_middle ((ib, IOV (vecs bufs)) :: map part bufs)). }
    destruct (store_mmsg_at _ _ _ _ _ (length pre) (mkMmsghdr (mkMsghdr (AT nb) sizeof_sockaddr (AT ib) 0) 0) Ho3 (Hk' _)) as (w4 & E4 & Hq4 & Ho4). rewrite E4.
    rewrite list_insert_insert_eq in Ho4.
    destruct (store_mmsg_at _ _ _ _ _ (length pre) (header_of (Full nb name ib bufs sizeof_sockaddr 0)) Ho4 (Hk' _)) as (w5 & E5 & Hq5 & Ho5).
    cbn [header_of] in E5. rewrite E5. rewrite list_insert_insert_eq in Ho5.
    eexists _, w5. split; [reflexivity|]. split; [by do 4 (etrans; [done|])|]. exists (Full nb name ib bufs sizeof_sockaddr 0).
    split; [|by apply Hset]. split; [|by eexists _, _, _, _]. split; [done|done].
Qed.

Lemma mmsghdr_new_spec m l w : owned m l w ->
  exists p w', mmsghdr_new w = Some (p, w') /\ quiet w w' /\
    ((p = NULL /\ owned m l w') \/
     exists mb cells, p = AT mb /\ length cells = MMSGHDR_N /\ Forall ready_cell cells /\ owned m (array mb cells ++ l) w').
Proof.
  intros Ho. unfold mmsghdr_new. destruct (owned_alloc _ _ (MMSG (replicate MMSGHDR_N zero_mmsghdr)) _ Ho) as (p & w1 & -> & Hq & [(-> & Ho1)|(-> & Ho1)]).
  { exists NULL, w1. split_and!; [done..|]. by left. }
  set (mb := brk w) in *.
  assert (forall n, flat_map blocks_of (replicate n (Bare 0)) = []) as Hnone by (intros n; induction n; [done|]; cbn; done).
  assert (forall n, Forall cell_ok (replicate n (Bare 0))) as Hbare by (intros n; by apply Forall_replicate).
  destruct (for_int_inv (fun k w' => quiet w w' /\ exists pre, length pre = k /\ Forall ready_cell pre /\
        owned m (array mb (pre ++ replicate (MMSGHDR_N - k) (Bare 0)) ++ l) w')
    (fun _ w' => quiet w w' /\ exists cells, length cells = MMSGHDR_N /\ Forall cell_ok cells /\ owned m (array mb cells ++ l) w')
    MMSGHDR_N 0 (fill_message (AT mb)) w1) as (r & w2 & E & Hr).
  - intros k w2 Hk (Hq2 & pre & <- & Hp & Ho2). rewrite Z.add_0_l.
    replace (MMSGHDR_N - length pre)%nat with (S (MMSGHDR_N - S (length pre))) in Ho2 by lia. cbn [replicate] in Ho2.
    destruct (fill_message_spec _ _ _ _ _ _ Ho2) as (r & w3 & E & Hq3 & Hr). exists r, w3. split; [done|].
    pose proof (transitivity Hq2 Hq3) as Hq'. destruct r as [[]|]; destruct Hr as (c & Hc & Ho3); (split; [done|]).
    + eexists. split; [|split; [|exact Ho3]].
      * rewrite length_app. cbn [length]. rewrite length_replicate. lia.
      * apply Forall_app. split; [by eapply Forall_impl; [exact Hp|intros x []]|]. by constructor.
    + exists (pre ++ [c]). rewrite length_app. cbn [length]. split; [lia|]. split; [apply Forall_app; split; [done|by repeat constructor; destruct Hc]|].
      rewrite <- app_assoc. done.
  - by vm_compute.
  - split; [done|]. exists []. split_and!; [done|constructor|]. unfold array. cbn [app]. rewrite Hnone, Nat.sub_0_r. cbn [app].
    by rewrite fmap_replicate.
  - rewrite E. destruct r as [[]|].
    + destruct Hr as (Hq2 & cells & Hl & Hc & Ho2). destruct (mmsghdr_free_spec _ _ _ _ _ Hl Hc Ho2) as (w3 & E3 & Hq3 & Ho3). rewrite E3.
      exists NULL, w3. split; [done|]. split; [by etrans|]. by left.
    + destruct Hr as (Hq2 & pre & Hl & Hp & Ho2). rewrite Nat.sub_diag, app_nil_r in Ho2. exists (AT mb), w2. split_and!; [done..|].
      right. by exists mb, pre.
Qed.

End memory.

(** ** Lemmas on bytes *)

Lemma overwrite_length s l : (length s <= length l)%nat -> length (overwrite s l) = length l.
Proof. intros Hs. unfold overwrite. rewrite length_app, length_fmap, length_drop. lia. Qed.

Lemma read_string_end s rest : read_string ((Some <$> s) ++ Some NUL :: rest) = Some (c_string s 0).
Proof.
  induction s as [|c s IH]; [done|]. cbn [fmap list_fmap app read_string]. unfold is_nul. unfold c_string in *. rewrite drop_0 in *.
  cbn [find_char]. destruct (bool_decide (c = NUL)); [done|]. rewrite IH. by destruct (find_char NUL s).
Qed.

(** The text in a buffer that is terminated behind the data. *)
Lemma read_string_terminated s l : (length s < length l)%nat ->
  read_string (<[length s := Some NUL]> (overwrite s l)) = Some (c_string s 0).
Proof.
  intros Hs. unfold overwrite. rewrite insert_app_r_alt by (rewrite length_fmap; lia). rewrite length_fmap, Nat.sub_diag.
  destruct (drop (length s) l) as [|x rest] eqn:E; [|apply read_string_end].
  apply (f_equal length) in E. rewrite length_drop in E. cbn in E. lia.
Qed.

(** ** Lemmas on receiving *)

(** What the data leave in the buffers. *)
Fixpoint received (data : str) (bufs : list (positive * bytes)) : list (positive * bytes) :=
  match bufs with
  | [] => []
  | (b, x) :: bufs => (b, overwrite (take (Z.to_nat BUF_SIZE) data) x) :: received (drop (Z.to_nat BUF_SIZE) data) bufs
  end.

(** The lines that are printed for data in [n] buffers. *)
Fixpoint lines (n : nat) (name : str) (data : str) : list str :=
  match n with
  | O => []
  | S n =>
      (name ++ lit ": " ++ c_string (take (Z.to_nat BUF_SIZE) data) 0) ::
      (if Z.of_nat (length data) <? BUF_SIZE then [] else lines n name (drop (Z.to_nat BUF_SIZE) data))
  end.

Definition good_buffers (bufs : list (positive * bytes)) : Prop := Forall (fun p => Z.of_nat (length p.2) = BUF_SIZE + 1) bufs.

(** The state while a message is received or printed: the array [ib] of vectors [v] and the buffers. *)
Definition holding (m : memory) (ib : positive) (v : list iovec) (bufs : list (positive * bytes)) (l : list (positive * block)) (w : world) : Prop :=
  owned m ((ib, IOV v) :: map part bufs ++ l) w /\ (forall i p, bufs !! i = Some p -> v !! i = Some (vec p)) /\ good_buffers bufs.

Lemma received_length data bufs : length (received data bufs) = length bufs.
Proof. revert data. induction bufs as [|[b x] bufs IH]; intros data; [done|]. cbn. by rewrite IH. Qed.

Lemma received_good data bufs : good_buffers bufs -> good_buffers (received data bufs).
Proof.
  revert data. unfold good_buffers. induction bufs as [|[b x] bufs IH]; intros data Hb; [done|]. apply Forall_cons in Hb as [Hx Hb]. cbn [snd] in Hx.
  constructor; [|by apply IH]. cbn [snd]. rewrite overwrite_length; [done|]. rewrite length_take. unfold BUF_SIZE in *. lia.
Qed.

(** One buffer of the state. *)
Lemma holding_at m ib v pre b x post l w : holding m ib v (pre ++ (b, x) :: post) l w ->
  load_iov (AT ib) (Z.of_nat (length pre)) w = Some (mkIovec (AT b) BUF_SIZE) /\ load_bytes (AT b) w = Some x /\
  Z.of_nat (length x) = BUF_SIZE + 1 /\
  forall y, length y = length x -> exists w', store_bytes (AT b) y w = Some w' /\ quiet w w' /\ holding m ib v (pre ++ (b, y) :: post) l w'.
Proof.
  intros (Ho & Hv & Hg). assert ((pre ++ (b, x) :: post) !! length pre = Some (b, x)) as Hat by (by rewrite lookup_app_r, Nat.sub_diag by lia).
  assert (mem w !! b = Some (BYTES x)) as Hb.
  { eapply owned_lookup; [exact Ho|]. right. apply elem_of_app. left. apply list_elem_of_fmap. exists (b, x). split; [done|].
    by eapply list_elem_of_lookup_2. }
  assert (Z.of_nat (length x) = BUF_SIZE + 1) as Hx by (apply (proj1 (Forall_lookup _ _) Hg _ _ Hat)).
  split_and!; [by rewrite (load_iov_at _ _ _ _ _ _ Ho), (Hv _ _ Hat)|unfold load_bytes; by rewrite Hb|done|].
  intros y Hy. unfold store_bytes. rewrite Hb. eexists. split; [reflexivity|]. split; [done|]. split_and!.
  - assert (forall z, (ib, IOV v) :: map part (pre ++ (b, z) :: post) ++ l ≡ₚ (b, BYTES z) :: (ib, IOV v) :: map part (pre ++ post) ++ l) as Hp.
    { intros z. rewrite !map_app. cbn [map]. rewrite <- !app_assoc. cbn [app].
      etrans; [apply perm_skip; symmetry; apply Permutation_middle|]. apply perm_swap. }
    eapply owned_perm; [symmetry; apply Hp|]. eapply owned_set. eapply owned_perm; [apply Hp|exact Ho].
  - intros i p Hi. destruct (decide (i = length pre)) as [->|Hne].
    + rewrite lookup_app_r, Nat.sub_diag in Hi by lia. injection Hi as <-. apply (Hv _ _ Hat).
    + apply Hv. rewrite <- Hi. destruct (decide (i < length pre)%nat) as [Hlt|Hge]; [by rewrite !lookup_app_l by lia|].
      rewrite !lookup_app_r by lia. by destruct (i - length pre)%nat eqn:E; [lia|].
  - unfold good_buffers in *. apply Forall_app in Hg as [Hg1 Hg2]. apply Forall_cons in Hg2 as [_ Hg2]. apply Forall_app. split; [done|].
    constructor; [|done]. cbn [snd]. by rewrite Hy.
Qed.

Lemma scatter_spec m ib v pre bufs l data w : holding m ib v (pre ++ bufs) l w ->
  exists w', scatter (length bufs) (AT ib) (Z.of_nat (length pre)) data w =
      Some (Z.min (Z.of_nat (length data)) (BUF_SIZE * Z.of_nat (length bufs)), w') /\
    quiet w w' /\ holding m ib v (pre ++ received data bufs) l w'.
Proof.
  revert pre data w. induction bufs as [|[b x] bufs IH]; intros pre data w Hh; cbn [scatter length received].
  { exists w. split_and!; [|done|done]. f_equal. f_equal. lia. }
  destruct (holding_at _ _ _ _ _ _ _ _ _ Hh) as (E1 & E2 & Hx & Hst). rewrite E1. cbn [iov_base iov_len]. set (n := Z.to_nat BUF_SIZE).
  assert (length (take n data) <= length x)%nat as Hle by (rewrite length_take; unfold n, BUF_SIZE in *; lia).
  unfold write_bytes. rewrite E2, (proj2 (Nat.leb_le _ _) Hle).
  destruct (Hst (overwrite (take n data) x)) as (w1 & E3 & Hq & Hh1); [by apply overwrite_length|]. rewrite E3.
  change (pre ++ (b, overwrite (take n data) x) :: bufs) with (pre ++ [(b, overwrite (take n data) x)] ++ bufs) in Hh1. rewrite app_assoc in Hh1.
  destruct (IH _ (drop n data) w1 Hh1) as (w2 & E4 & Hq2 & Hh2). rewrite length_app in E4. cbn [length] in E4.
  replace (Z.of_nat (length pre + 1)) with (Z.of_nat (length pre) + 1) in E4 by lia. rewrite E4.
  exists w2. split_and!; [|by etrans|by rewrite <- app_assoc in Hh2]. f_equal. f_equal. rewrite length_take, length_drop. unfold n, BUF_SIZE in *. lia.
Qed.

Section receiving.
Context `{HostEndian} `{Posix}.

(** The indices and counts of the loop do not wrap around. *)
Lemma terminator_spec (data : str) : Z.of_nat (length data) < 2 ^ 63 ->
  Z.to_nat (if wrap 64 (Z.of_nat (length data)) <? BUF_SIZE then Z.of_nat (length data) else BUF_SIZE) =
  length (take (Z.to_nat BUF_SIZE) data).
Proof.
  intros Hd. rewrite wrap_id by (unfold word; lia). rewrite length_take. unfold BUF_SIZE.
  destruct (Z.ltb_spec (Z.of_nat (length data)) 4096); lia.
Qed.

Lemma remaining_spec n : 0 <= n < 2 ^ 63 -> to_signed 64 (n - BUF_SIZE) = n - BUF_SIZE.
Proof.
  intros Hn. unfold to_signed, wrap, BUF_SIZE. destruct (Z.ltb_spec n 4096).
  - rewrite <- (Z.mod_add _ 1) by done. rewrite Z.mod_small by lia. destruct (Z.ltb_spec (n - 4096 + 1 * 2 ^ 64) (2 ^ (64 - 1))); lia.
  - rewrite Z.mod_small by lia. destruct (Z.ltb_spec (n - 4096) (2 ^ (64 - 1))); lia.
Qed.

Lemma overwrite_full s l : (length s <= Z.to_nat BUF_SIZE)%nat -> Z.of_nat (length (overwrite s l)) = BUF_SIZE + 1 ->
  length l = S (Z.to_nat BUF_SIZE).
Proof.
  intros Hs. unfold overwrite. rewrite length_app, length_fmap, length_drop. unfold BUF_SIZE in *. lia.
Qed.

(** The message is printed buffer by buffer; the terminators stay inside the buffers. *)
Lemma print_loop_spec m ib v pre bufs l sa name data w :
  show_from sa = Some name -> Z.of_nat (length data) <= BUF_SIZE * Z.of_nat (length bufs) -> Z.of_nat (length bufs) <= 2 ^ 16 ->
  holding m ib v (pre ++ received data bufs) l w ->
  exists w' bufs', print_loop (length bufs) sa (AT ib) (Z.of_nat (length pre)) (Z.of_nat (length data)) w = Some w' /\
    holding m ib v (pre ++ bufs') l w' /\ length bufs' = length bufs /\
    calls w' = calls w /\ looks w' = looks w /\ running w' = running w /\ trace w' = trace w ++ map Out (lines (length bufs) name data).
Proof.
  intros Hn. revert pre data w. induction bufs as [|[b x] bufs IH]; intros pre data w Hd Hmax Hh; cbn [print_loop length received lines] in *.
  { exists w, []. split_and!; try done. by rewrite app_nil_r. }
  replace (Z.of_nat (length data) <? 0) with false by (symmetry; apply Z.ltb_ge; lia). set (n := Z.to_nat BUF_SIZE) in *.
  set (y := overwrite (take n data) x) in *. destruct (holding_at _ _ _ _ _ _ _ _ _ Hh) as (E1 & E2 & Hx & Hst).
  assert (length x = S n) as Hxl by (eapply overwrite_full; [|exact Hx]; rewrite length_take; lia).
  rewrite E1. cbn [iov_base iov_len]. rewrite E2.
  rewrite terminator_spec by (unfold BUF_SIZE in *; lia). fold n.
  assert (length (take n data) < length x)%nat as Hlt by (rewrite length_take; lia).
  rewrite (proj2 (Nat.ltb_lt _ _)) by (unfold y; rewrite overwrite_length; lia).
  destruct (Hst (<[length (take n data) := Some NUL]> y)) as (w1 & E3 & (Q1 & Q2 & Q3 & Q4) & Hh1); [by rewrite length_insert|]. rewrite E3, Hn.
  destruct (holding_at _ _ _ _ _ _ _ _ _ Hh1) as (_ & E4 & _ & _). rewrite E4. unfold y. rewrite read_string_terminated by done.
  change (pre ++ (b, <[length (take n data) := Some NUL]> y) :: received (drop n data) bufs)
    with (pre ++ [(b, <[length (take n data) := Some NUL]> y)] ++ received (drop n data) bufs) in Hh1. rewrite app_assoc in Hh1.
  set (line := name ++ lit ": " ++ c_string (take n data) 0). set (w2 := emit (Out line) w1).
  set (pre' := pre ++ [(b, <[length (take n data) := Some NUL]> y)]) in *.
  assert (holding m ib v (pre' ++ received (drop n data) bufs) l w2) as Hh2.
  { destruct Hh1 as (Ho & ?). split; [|done]. by eapply owned_same. }
  rewrite remaining_spec by (unfold BUF_SIZE in *; lia).
  destruct (Z.ltb_spec (Z.of_nat (length data)) BUF_SIZE) as [Hshort|Hlong].
  - exists w2, ((b, <[length (take n data) := Some NUL]> y) :: received (drop n data) bufs). split_and!.
    + destruct (length bufs); [done|]. cbn [print_loop]. by rewrite (proj2 (Z.ltb_lt _ _)) by lia.
    + unfold pre' in Hh2. by rewrite <- app_assoc in Hh2.
    + cbn [length]. by rewrite received_length.
    + exact Q1.
    + exact Q2.
    + exact Q3.
    + cbn [w2 emit trace map]. by rewrite Q4.
  - destruct (IH pre' (drop n data) w2) as (w' & bufs' & E & Hh' & Hl' & C & L & R & T); [rewrite length_drop; unfold n, BUF_SIZE in *; lia|lia|done|].
    rewrite length_drop in E. replace (Z.of_nat (length data - n)) with (Z.of_nat (length data) - BUF_SIZE) in E by (unfold n, BUF_SIZE in *; lia).
    unfold pre' in E. rewrite length_app in E. cbn [length] in E. replace (Z.of_nat (length pre + 1)) with (Z.of_nat (length pre) + 1) in E by lia.
    exists w', ((b, <[length (take n data) := Some NUL]> y) :: bufs'). split_and!; [done| | | | | |].
    + unfold pre' in Hh'. by rewrite <- app_assoc in Hh'.
    + cbn [length]. by rewrite Hl'.
    + by rewrite C.
    + by rewrite L.
    + by rewrite R.
    + rewrite T. cbn [w2 emit trace map]. by rewrite Q4, <- app_assoc.
Qed.

(** ** Lemmas on the calls *)

(** A datagram from an IPv4 address. *)
Definition ipv4 (d : datagram) : Prop := length (dg_from d) = 16%nat /\ sa_family (Some <$> dg_from d) = Some AF_INET.

Definition sender (d : datagram) : str := inet_ntop AF_INET (take 4 (drop 4 (dg_from d))).

(** What the buffers hold of the data, and the lines printed for it. *)
Definition kept (data : str) : str := take (Z.to_nat BUF_SIZE * IOVEC_N) data.
Definition message_lines (d : datagram) : list str := lines IOVEC_N (sender d) (kept (dg_data d)).

Lemma mapM_some (s : str) : mapM id (Some <$> s) = Some s.
Proof. induction s as [|c s IH]; [done|]. cbn in *. by rewrite IH. Qed.

Lemma show_from_ipv4 d : ipv4 d -> show_from (Some <$> dg_from d) = Some (sender d).
Proof.
  intros [Hl Hf]. unfold show_from. rewrite Hf. cbn [Z.eqb AF_INET Pos.eqb get_in_addr]. unfold read_bytes. rewrite length_fmap, Hl.
  cbn [Nat.add Nat.leb]. by rewrite skipn_map, <- fmap_take, mapM_some.
Qed.

(** The address fills the variable or block for it. *)
Lemma overwrite_from d l : ipv4 d -> Z.of_nat (length l) = sizeof_sockaddr ->
  overwrite (take (Z.to_nat sizeof_sockaddr) (dg_from d)) l = Some <$> dg_from d.
Proof.
  intros [Hl _] Hn. unfold overwrite, sizeof_sockaddr in *. rewrite firstn_all2 by (rewrite Hl; done). rewrite drop_ge by lia. apply app_nil_r.
Qed.

Lemma received_kept data bufs : received data bufs = received (take (Z.to_nat BUF_SIZE * length bufs) data) bufs.
Proof.
  revert data. induction bufs as [|[b x] bufs IH]; intros data; [done|]. cbn [received length]. set (n := Z.to_nat BUF_SIZE).
  rewrite take_take, Nat.min_l by (rewrite Nat.mul_succ_r; lia). f_equal. rewrite skipn_firstn_comm.
  replace (n * S (length bufs) - n)%nat with (n * length bufs)%nat by lia. apply IH.
Qed.

Lemma holding_vecs m ib v bufs l w : holding m ib v bufs l w -> length bufs = IOVEC_N -> length v = IOVEC_N -> v = vecs bufs.
Proof.
  intros (_ & Hv & _) Hb Hl. apply list_eq_same_length with (n := IOVEC_N); [rewrite vecs_length; lia|done|].
  intros i x y Hi Hx Hy. destruct (lookup_lt_is_Some_2 bufs i ltac:(lia)) as [p Hp]. rewrite (Hv _ _ Hp) in Hx. rewrite (vecs_at _ _ _ Hp) in Hy. congruence.
Qed.

Lemma owned_holding m ib bufs l w : buffers bufs -> owned m ((ib, IOV (vecs bufs)) :: map part bufs ++ l) w ->
  holding m ib (vecs bufs) bufs l w.
Proof. intros [_ Hg] Ho. split_and!; [done| |done]. intros i p Hp. by apply vecs_at. Qed.

Lemma kept_length data : Z.of_nat (length (kept data)) = Z.min (Z.of_nat (length data)) (BUF_SIZE * Z.of_nat IOVEC_N).
Proof. unfold kept. rewrite length_take. unfold BUF_SIZE, IOVEC_N. lia. Qed.

(** Data received into the buffers and printed from them. *)
Lemma scatter_print m ib bufs l d w name :
  buffers bufs -> owned m ((ib, IOV (vecs bufs)) :: map part bufs ++ l) w ->
  exists w1, scatter IOVEC_N (AT ib) 0 (dg_data d) w = Some (Z.of_nat (length (kept (dg_data d))), w1) /\ quiet w w1 /\
    holding m ib (vecs bufs) (received (kept (dg_data d)) bufs) l w1 /\
    forall sa w2 l2, show_from sa = Some name -> holding m ib (vecs bufs) (received (kept (dg_data d)) bufs) l2 w2 ->
    exists w3 bufs3, print_loop IOVEC_N sa (AT ib) 0 (Z.of_nat (length (kept (dg_data d)))) w2 = Some w3 /\
      buffers bufs3 /\ vecs bufs = vecs bufs3 /\ owned m ((ib, IOV (vecs bufs3)) :: map part bufs3 ++ l2) w3 /\
      calls w3 = calls w2 /\ looks w3 = looks w2 /\ running w3 = running w2 /\
      trace w3 = trace w2 ++ map Out (lines IOVEC_N name (kept (dg_data d))).
Proof.
  intros Hb Ho. pose proof Hb as [Hl Hg]. pose proof (owned_holding _ _ _ _ _ Hb Ho) as Hh.
  destruct (scatter_spec m ib (vecs bufs) [] bufs l (dg_data d) w Hh) as (w1 & E & Hq & Hh1). cbn [app length] in *. rewrite Hl in E.
  rewrite <- kept_length in E. rewrite received_kept, Hl in Hh1. fold (kept (dg_data d)) in Hh1. exists w1. split_and!; [done..|].
  intros sa w2 l2 Hn Hh2. destruct (print_loop_spec m ib (vecs bufs) [] bufs l2 sa name (kept (dg_data d)) w2 Hn) as (w3 & bufs3 & E3 & Hh3 & Hl3 & C & L & R & T).
  - rewrite kept_length, Hl. lia.
  - rewrite Hl. done.
  - done.
  - cbn [app length] in *. rewrite Hl in E3, T, Hl3. exists w3, bufs3.
    pose proof (holding_vecs _ _ _ _ _ _ Hh3 Hl3 ltac:(apply vecs_length; lia)) as Hv. destruct Hh3 as (Ho3 & _ & Hg3).
    split_and!; [done|done|done|by rewrite <- Hv|done..].
Qed.

(** How a call ends: what it returns and the lines it prints. *)
Definition reception (syscall : recv_method) (res : Z + list datagram) : Z * list str :=
  match res with
  | inl e => (if transient e then 0 else e, [])
  | inr l =>
      (0, match syscall with
          | RECVFROM => [sender (one_of l) ++ lit ": " ++ c_string (take (Z.to_nat BUF_SIZE) (dg_data (one_of l))) 0]
          | RECVMSG => message_lines (one_of l)
          | RECVMMSG => flat_map message_lines (take MMSGHDR_N l)
          end)
  end.

(** From [w] to [w'] only the output changes. *)
Record prints (w w' : world) (out : list str) : Prop := {
  pr_mem : mem w' = mem w;
  pr_fresh : fresh w';
  pr_looks : looks w' = looks w;
  pr_running : running w' = running w;
  pr_trace : trace w' = trace w ++ map Out out
}.

Definition received_ok (syscall : recv_method) (w : world) (r : Z) (w' : world) : Prop :=
  (syscall <> RECVFROM /\ r = ENOMEM /\ prints w w' []) \/
  (let x := reception syscall (recv_result (calls w)) in r = x.1 /\ prints w w' x.2).

Lemma owned_prints w w' out : owned (mem w) [] w' -> looks w' = looks w -> running w' = running w -> trace w' = trace w ++ map Out out -> prints w w' out.
Proof. intros [Hm _ _ Hf] ? ? ?. by split. Qed.

Lemma receive_recvfrom_spec fd w :
  fresh w -> (forall l, recv_result (calls w) = inr l -> ipv4 (one_of l)) ->
  exists r w', receive_recvfrom fd w = Some (r, w') /\ received_ok RECVFROM w r w'.
Proof.
  intros Hf Hv. unfold receive_recvfrom, received_ok. destruct (recv_result (calls w)) as [e|l].
  { eexists _, _. split; [reflexivity|]. right. split; [done|]. split; try done. cbn. by rewrite app_nil_r. }
  specialize (Hv l eq_refl). rewrite overwrite_from by done. rewrite (show_from_ipv4 _ Hv), read_string_terminated.
  2: { unfold uninit. rewrite length_take, length_replicate. unfold BUF_SIZE. lia. }
  eexists _, _. split; [reflexivity|]. right. split; [done|]. by split.
Qed.

Lemma receive_recvmsg_spec fd w :
  fresh w -> (forall l, recv_result (calls w) = inr l -> ipv4 (one_of l)) ->
  exists r w', receive_recvmsg fd w = Some (r, w') /\ received_ok RECVMSG w r w'.
Proof.
  intros Hf Hv. unfold receive_recvmsg, received_ok.
  destruct (iovec_new_spec (mem w) [] w (owned_start w Hf)) as (p & w1 & E1 & (C1 & L1 & R1 & T1) & [(-> & Ho)|(ib & bufs & -> & Hb & Ho)]); rewrite E1.
  { eexists _, w1. split; [reflexivity|]. left. split_and!; [done..|]. apply owned_prints; try done. by rewrite T1, app_nil_r. }
  rewrite C1. destruct (recv_result (calls w)) as [e|l].
  - assert (owned (mem w) ((ib, IOV (vecs bufs)) :: map part bufs ++ []) (called w1)) as Ho' by (by eapply owned_same).
    destruct (iovec_free_spec _ _ bufs _ _ ltac:(destruct Hb; lia) Ho') as (w2 & E2 & (C2 & L2 & R2 & T2) & Ho2). rewrite E2.
    eexists _, w2. split; [reflexivity|]. right. split; [done|]. apply owned_prints; [done|cbn in *; congruence..|]. cbn in *. by rewrite T2, T1, app_nil_r.
  - specialize (Hv l eq_refl). rewrite overwrite_from by done. cbn [msg_iovlen]. rewrite Nat2Z.id.
    assert (owned (mem w) ((ib, IOV (vecs bufs)) :: map part bufs ++ []) (called w1)) as Ho' by (by eapply owned_same).
    destruct (scatter_print _ _ _ _ (one_of l) _ (sender (one_of l)) Hb Ho') as (w2 & E2 & (C2 & L2 & R2 & T2) & Hh & Hp). rewrite E2.
    destruct (Hp _ w2 [] (show_from_ipv4 _ Hv) Hh) as (w3 & bufs3 & E3 & [Hl3 Hg3] & _ & Ho3 & C3 & L3 & R3 & T3).
    unfold print_msg. cbn [msg_name msg_iov msg_iovlen]. rewrite Nat2Z.id, E3.
    destruct (iovec_free_spec _ _ bufs3 _ _ ltac:(lia) Ho3) as (w4 & E4 & (C4 & L4 & R4 & T4) & Ho4). rewrite E4.
    eexists _, w4. split; [reflexivity|]. right. split; [done|].
    apply owned_prints; [done|cbn [called looks running] in *; congruence..|]. rewrite T4, T3, T2. cbn [called trace]. by rewrite T1.
Qed.

(** An element after its message is received. *)
Definition got (c : cell) (d : datagram) : cell :=
  match c with
  | Full nb _ ib bufs _ _ =>
      Full nb (Some <$> dg_from d) ib (received (kept (dg_data d)) bufs) (Z.of_nat (length (dg_from d))) (Z.of_nat (length (kept (dg_data d))))
  | _ => c
  end.

Lemma vecs_received data bufs : vecs (received data bufs) = vecs bufs.
Proof.
  unfold vecs. rewrite received_length. f_equal. revert data. induction bufs as [|[b x] bufs IH]; intros data; [done|]. cbn. by rewrite IH.
Qed.

Lemma got_ok c d : ready_cell c -> ipv4 d -> cell_ok (got c d).
Proof.
  intros (Hok & nb & name & ib & bufs & ->) [Hd _]. destruct Hok as [_ [Hl Hg]]. cbn [got cell_ok]. rewrite length_fmap, Hd. split; [done|].
  split; [by rewrite received_length|by apply received_good].
Qed.

Lemma bytes_at m b x l w : owned m ((b, BYTES x) :: l) w ->
  load_bytes (AT b) w = Some x /\ forall y, exists w', store_bytes (AT b) y w = Some w' /\ quiet w w' /\ owned m ((b, BYTES y) :: l) w'.
Proof.
  intros Ho. unfold load_bytes, store_bytes. rewrite (owned_lookup _ _ _ b (BYTES x) Ho ltac:(left)). split; [done|].
  intros y. eexists. split; [reflexivity|]. split; [done|]. by eapply owned_set.
Qed.

(** The blocks of an element with its vectors in front. *)
Lemma full_perm mb h nb name ib bufs namelen len R :
  (mb, h) :: blocks_of (Full nb name ib bufs namelen len) ++ R ≡ₚ (ib, IOV (vecs bufs)) :: map part bufs ++ (nb, BYTES name) :: (mb, h) :: R.
Proof.
  cbn [blocks_of app]. etrans; [apply perm_swap|].
  etrans; [apply perm_skip; apply (Permutation_middle ((ib, IOV (vecs bufs)) :: map part bufs))|].
  apply (Permutation_middle ((ib, IOV (vecs bufs)) :: map part bufs)).
Qed.

Lemma recv_message_spec m mb pre c post l d w :
  ready_cell c -> ipv4 d -> owned m (array mb (pre ++ c :: post) ++ l) w ->
  exists w', recv_message (AT mb) (Z.of_nat (length pre)) d w = Some w' /\ quiet w w' /\ owned m (array mb (pre ++ got c d :: post) ++ l) w'.
Proof.
  intros (Hok & nb & name & ib & bufs & ->) Hd Ho. destruct Hok as [Hn Hb]. set (c := Full nb name ib bufs sizeof_sockaddr 0) in *.
  apply (owned_perm _ _ _ _ (array_perm _ _ _ _ _)) in Ho. set (hs := map header_of (pre ++ c :: post)) in *. set (R := flat_map blocks_of (pre ++ post) ++ l) in *.
  unfold recv_message. rewrite (load_mmsg_at _ _ _ _ _ _ Ho). unfold hs at 1. rewrite list_lookup_fmap, lookup_app_r, Nat.sub_diag by lia.
  cbn [lookup list_lookup fmap option_fmap option_map header_of c msg_hdr msg_name msg_namelen msg_iov msg_iovlen msg_len].
  apply (owned_perm _ _ _ _ (perm_swap _ _ _)) in Ho. destruct (bytes_at _ _ _ _ _ Ho) as [E1 Hst]. unfold write_bytes. rewrite E1.
  rewrite (proj2 (Nat.leb_le _ _)) by (rewrite length_take; unfold sizeof_sockaddr in *; lia). rewrite overwrite_from by done.
  destruct (Hst (Some <$> dg_from d)) as (w1 & E2 & Hq1 & Ho1). rewrite E2. rewrite Nat2Z.id.
  apply (owned_perm _ _ _ _ (perm_swap _ _ _)) in Ho1.
  apply (owned_perm _ _ _ _ (full_perm mb (MMSG hs) nb (Some <$> dg_from d) ib bufs sizeof_sockaddr 0 R)) in Ho1.
  destruct (scatter_print _ _ _ _ d _ (sender d) Hb Ho1) as (w2 & E3 & Hq2 & (Ho2 & _) & _). rewrite E3.
  rewrite <- (vecs_received (kept (dg_data d))) in Ho2. set (bufs' := received (kept (dg_data d)) bufs) in *.
  apply (owned_perm _ _ _ _ (symmetry (full_perm mb (MMSG hs) nb (Some <$> dg_from d) ib bufs' (Z.of_nat (length (dg_from d))) (Z.of_nat (length (kept (dg_data d)))) R))) in Ho2.
  destruct (store_mmsg_at _ _ _ _ _ (length pre) (header_of (got c d)) Ho2) as (w3 & E4 & Hq3 & Ho3).
  { unfold hs. rewrite length_map, length_app. cbn. lia. }
  cbn [got c header_of] in E4. rewrite E4. exists w3. split; [done|]. split; [by do 2 (etrans; [done|])|]. by eapply array_set.
Qed.

Lemma recv_messages_spec m mb pre cs ds l w :
  Forall ready_cell cs -> Forall ipv4 ds -> (length ds <= length cs)%nat -> owned m (array mb (pre ++ cs) ++ l) w ->
  exists w', recv_messages (AT mb) (Z.of_nat (length pre)) ds w = Some w' /\ quiet w w' /\
    owned m (array mb (pre ++ zip_with got cs ds ++ drop (length ds) cs) ++ l) w'.
Proof.
  revert pre cs w. induction ds as [|d ds IH]; intros pre cs w Hc Hd Hl Ho; cbn [recv_messages length].
  { exists w. split; [done|]. split; [done|]. by rewrite zip_with_nil_r, drop_0. }
  destruct cs as [|c cs]; [cbn in Hl; lia|]. apply Forall_cons in Hc as [Hc Hcs]. apply Forall_cons in Hd as [Hd Hds].
  destruct (recv_message_spec _ _ _ _ _ _ _ _ Hc Hd Ho) as (w1 & E1 & Hq1 & Ho1). rewrite E1.
  change (pre ++ got c d :: cs) with (pre ++ [got c d] ++ cs) in Ho1. rewrite app_assoc in Ho1.
  destruct (IH _ _ w1 Hcs Hds ltac:(cbn in Hl; lia) Ho1) as (w2 & E2 & Hq2 & Ho2). rewrite length_app in E2. cbn [length] in E2.
  replace (Z.of_nat (length pre + 1)) with (Z.of_nat (length pre) + 1) in E2 by lia. rewrite E2. exists w2. split; [done|]. split; [by etrans|].
  rewrite <- app_assoc in Ho2. done.
Qed.

(** Printing a message that was received. *)
Lemma print_cell m mb pre c d post l w :
  ready_cell c -> ipv4 d -> owned m (array mb (pre ++ got c d :: post) ++ l) w ->
  exists c' w', (let! x := load_mmsg (AT mb) (Z.of_nat (length pre)) w in print_msg [] (msg_hdr x) (msg_len x) w) = Some w' /\
    cell_ok c' /\ owned m (array mb (pre ++ c' :: post) ++ l) w' /\
    looks w' = looks w /\ running w' = running w /\ trace w' = trace w ++ map Out (message_lines d).
Proof.
  intros (Hok & nb & name & ib & bufs & ->) Hd Ho. destruct Hok as [Hn Hb]. apply (owned_perm _ _ _ _ (array_perm _ _ _ _ _)) in Ho.
  cbn [got] in *. set (bufs' := received (kept (dg_data d)) bufs) in *. set (nl := Z.of_nat (length (dg_from d))) in *. set (len := Z.of_nat (length (kept (dg_data d)))) in *.
  set (hs := map header_of _) in *. set (R := flat_map blocks_of (pre ++ post) ++ l) in *.
  rewrite (load_mmsg_at _ _ _ _ _ _ Ho). unfold hs at 1. rewrite list_lookup_fmap, lookup_app_r, Nat.sub_diag by lia.
  cbn [lookup list_lookup fmap option_fmap option_map header_of msg_hdr msg_len]. unfold print_msg. cbn [msg_name msg_iov msg_iovlen]. rewrite Nat2Z.id.
  pose proof (owned_perm _ _ _ _ (perm_swap _ _ _) Ho) as Hn1. destruct (bytes_at _ _ _ _ _ Hn1) as [-> _].
  apply (owned_perm _ _ _ _ (full_perm mb (MMSG hs) nb (Some <$> dg_from d) ib bufs' nl len R)) in Ho.
  destruct Hb as [Hl Hg]. assert (buffers bufs') as Hb' by (split; [unfold bufs'; by rewrite received_length|by apply received_good]).
  pose proof (owned_holding _ _ _ _ _ Hb' Ho) as Hh. unfold bufs' in Hh at 1. rewrite vecs_received in Hh.
  destruct (print_loop_spec m ib (vecs bufs) [] bufs ((nb, BYTES (Some <$> dg_from d)) :: (mb, MMSG hs) :: R) _ (sender d) (kept (dg_data d)) w (show_from_ipv4 _ Hd)) as (w3 & bufs3 & E3 & Hh3 & Hl3 & C & L & Rn & T).
  { rewrite kept_length, Hl. lia. }
  { by rewrite Hl. }
  { exact Hh. }
  cbn [app length] in *. rewrite Hl in E3, T, Hl3. unfold len. change (Z.of_nat 0) with 0 in E3. rewrite E3.
  pose proof (holding_vecs _ _ _ _ _ _ Hh3 Hl3 ltac:(apply vecs_length; lia)) as Hv. destruct Hh3 as (Ho3 & _ & Hg3).
  exists (Full nb (Some <$> dg_from d) ib bufs3 nl len), w3. split; [done|]. split; [|split; [|done]].
  - destruct Hd as [Hd _]. cbn [cell_ok]. rewrite length_fmap, Hd. done.
  - rewrite Hv in Ho3. apply (owned_perm _ _ _ _ (symmetry (full_perm mb (MMSG hs) nb (Some <$> dg_from d) ib bufs3 nl len R))) in Ho3.
    eapply owned_perm; [symmetry; apply array_perm|]. unfold hs in Ho3. rewrite map_app in *. done.
Qed.

Lemma receive_recvmmsg_spec fd w :
  fresh w -> (forall l, recv_result (calls w) = inr l -> Forall ipv4 l) ->
  exists r w', receive_recvmmsg fd w = Some (r, w') /\ received_ok RECVMMSG w r w'.
Proof.
  intros Hf Hv. unfold receive_recvmmsg, received_ok.
  destruct (mmsghdr_new_spec (mem w) [] w (owned_start w Hf)) as (p & w1 & E1 & (C1 & L1 & R1 & T1) & [(-> & Ho)|(mb & cells & -> & Hl & Hr & Ho)]); rewrite E1.
  { eexists _, w1. split; [reflexivity|]. left. split_and!; [done..|]. apply owned_prints; try done. by rewrite T1, app_nil_r. }
  assert (Forall cell_ok cells) as Hok by (eapply Forall_impl; [exact Hr|by intros x []]).
  assert (owned (mem w) (array mb cells ++ []) (called w1)) as Ho' by (by eapply owned_same).
  rewrite C1. destruct (recv_result (calls w)) as [e|ds0].
  { destruct (mmsghdr_free_spec _ _ _ _ _ Hl Hok Ho') as (w2 & E2 & (C2 & L2 & R2 & T2) & Ho2). rewrite E2.
    eexists _, w2. split; [reflexivity|]. right. split; [done|]. apply owned_prints; [done|cbn in *; congruence..|]. cbn in *. by rewrite T2, T1, app_nil_r. }
  specialize (Hv ds0 eq_refl). cbn [reception fst snd]. set (ds := take MMSGHDR_N ds0). assert (Forall ipv4 ds) as Hds by (by apply Forall_take).
  assert (length ds <= length cells)%nat as Hdl by (unfold ds; rewrite length_take; lia).
  destruct (recv_messages_spec _ _ [] cells ds _ _ Hr Hds Hdl Ho') as (w2 & E2 & (C2 & L2 & R2 & T2) & Ho2). cbn [app length] in *.
  change (Z.of_nat 0) with 0 in E2. rewrite E2. set (gs := zip_with got cells ds ++ drop (length ds) cells) in *.
  match goal with |- context [for_int _ _ ?f _] => set (body := f) end.
  destruct (for_int_inv (fun k w' => exists pre, length pre = k /\ Forall cell_ok pre /\ owned (mem w) (array mb (pre ++ drop k gs) ++ []) w' /\
        looks w' = looks w /\ running w' = running w /\ trace w' = trace w ++ map Out (flat_map message_lines (take k ds)))
    (fun _ _ => False) (length ds) 0 body w2) as (r & w3 & E3 & H3).
  - intros k w3 Hk (pre & <- & Hp & Ho3 & L3 & R3 & T3). destruct (lookup_lt_is_Some_2 ds _ Hk) as [d Hd].
    destruct (lookup_lt_is_Some_2 cells (length pre) ltac:(lia)) as [c Hc].
    assert (gs !! length pre = Some (got c d)) as Hg by (unfold gs; apply lookup_app_l_Some, lookup_zip_with_Some; by exists c, d).
    rewrite (drop_S _ _ _ Hg) in Ho3.
    destruct (print_cell _ _ _ c d _ _ _ (proj1 (Forall_lookup _ _) Hr _ _ Hc) (proj1 (Forall_lookup _ _) Hds _ _ Hd) Ho3) as (c' & w4 & E4 & Hc' & Ho4 & L4 & R4 & T4).
    unfold body. rewrite Z.add_0_l. destruct (load_mmsg (AT mb) _ w3) as [x|]; [|done]. rewrite E4. eexists None, w4. split; [done|].
    exists (pre ++ [c']). split; [rewrite length_app; cbn; lia|]. split; [apply Forall_app; split; [done|by repeat constructor]|]. split; [by rewrite <- app_assoc|].
    split; [by rewrite L4|]. split; [by rewrite R4|].
    rewrite T4, T3, (take_S_r _ _ _ Hd), flat_map_app, map_app. cbn [flat_map]. by rewrite app_nil_r, app_assoc.
  - unfold MMSGHDR_N in *. lia.
  - exists []. cbn [called looks running trace] in *. rewrite drop_0. split; [done|]. split; [constructor|]. split; [exact Ho2|].
    split; [congruence|]. split; [congruence|]. cbn [take flat_map map]. by rewrite T2, T1, app_nil_r.
  - rewrite E3. destruct r as [[]|]; [done|]. destruct H3 as (pre & Hpl & Hp & Ho3 & L3 & R3 & T3).
    assert (length (zip_with got cells ds) = length ds) as Hz by (rewrite length_zip_with; lia).
    assert (drop (length ds) gs = drop (length ds) cells) as Hgd by (unfold gs; by rewrite drop_app_length').
    rewrite Hgd in Ho3. assert (length (pre ++ drop (length ds) cells) = MMSGHDR_N) as Hl3 by (rewrite length_app, length_drop; lia).
    assert (Forall cell_ok (pre ++ drop (length ds) cells)) as Hok3 by (apply Forall_app; split; [done|by apply Forall_drop]).
    destruct (mmsghdr_free_spec _ _ _ _ _ Hl3 Hok3 Ho3) as (w4 & E4 & (C4 & L4 & R4 & T4) & Ho4).
    rewrite E4. eexists _, w4. split; [reflexivity|]. right. split; [done|]. apply owned_prints; [done|congruence..|].
    rewrite T4, T3. by rewrite firstn_all.
Qed.

(** ** Lemmas on the program *)

Lemma receive_returns fd syscall w :
  fresh w -> (forall l, recv_result (calls w) = inr l -> l <> [] /\ Forall ipv4 l) ->
  exists r w', receive fd syscall w = Some (r, w') /\ received_ok syscall w r w'.
Proof.
  intros Hf Hv. assert (forall l, recv_result (calls w) = inr l -> ipv4 (one_of l)) as H1.
  { intros l E. destruct (Hv l E) as [Hne Ha]. destruct l as [|d l]; [done|]. by apply Forall_cons in Ha as [? _]. }
  destruct syscall; cbn [receive]; [by apply receive_recvfrom_spec|by apply receive_recvmsg_spec|].
  apply receive_recvmmsg_spec; [done|]. intros l E. by apply Hv.
Qed.

Lemma received_positive `{!PosixLaws} syscall w r w' : received_ok syscall w r w' -> 0 <= r.
Proof.
  intros [(_ & -> & _)|[-> _]]; [done|]. unfold reception. destruct (recv_result (calls w)) as [e|l] eqn:E; cbn [fst]; [|done].
  apply recv_errno in E. destruct (transient e); lia.
Qed.

Lemma received_prints syscall w r w' : received_ok syscall w r w' -> exists out, prints w w' out.
Proof. intros [(_ & _ & Hp)|[_ Hp]]; by eexists. Qed.

(** The loop only prints what it receives, and no error. *)
Lemma serve_spec `{!PosixLaws} fuel fd syscall w :
  fresh w -> (forall k l, recv_result k = inr l -> Forall ipv4 l) ->
  (fuel <> O /\ running w = false) \/ (exists n, (looks w <= n < looks w + fuel)%nat /\ signal_arrives n = true) ->
  exists w' out, serve fuel fd syscall w = Some (Some tt, w') /\ mem w' = mem w /\ fresh w' /\ trace w' = trace w ++ map Out out.
Proof.
  intros Hf Hv. revert w Hf. induction fuel as [|fuel IH]; intros w Hf Hstop; [destruct Hstop as [[? _]|(n & ? & _)]; [done|lia]|].
  cbn [serve]. destruct (test_running w) as [go w1] eqn:E1. unfold test_running in E1.
  assert (mem w1 = mem w /\ brk w1 = brk w /\ trace w1 = trace w /\ looks w1 = S (looks w) /\ running w1 = go) as (M & B & T & L & R)
    by (by destruct (signal_arrives (looks w)); injection E1 as <- <-).
  assert (fresh w1) as Hf1 by (by eapply fresh_same).
  destruct go; cbn [negb]; [|exists w1, []; split_and!; [done..|by rewrite T, app_nil_r]].
  destruct (receive_returns fd syscall w1 Hf1) as (r & w2 & E2 & Hr); [intros l El; split; [by eapply recv_some|by eapply Hv]|].
  rewrite E2. pose proof (received_positive _ _ _ _ Hr). replace (r <? 0) with false by (symmetry; apply Z.ltb_ge; lia).
  destruct (received_prints _ _ _ _ Hr) as (out & [M2 F2 L2 R2 T2]).
  destruct (IH w2 F2) as (w' & out' & E & M' & F' & T').
  - destruct Hstop as [[_ Hs]|(n & Hn & Hs)].
    + destruct (signal_arrives (looks w)); cbn in E1; congruence.
    + right. exists n. split; [|done]. rewrite L2, L. destruct (decide (n = looks w)) as [->|]; [|lia]. rewrite Hs in E1. cbn in E1. congruence.
  - exists w', (out ++ out'). split_and!; [done|congruence|done|]. by rewrite T', T2, T, map_app, app_assoc.
Qed.

(** What is tried before a socket is bound. *)
Definition attempt (e : event) : Prop := match e with Opened _ | Err _ => True | _ => False end.

Lemma open_loop_spec r res ps w : fresh w -> exists p w', open_loop (r :: res) ps w = Some (p, w') /\
  mem w' = mem w /\ brk w' = brk w /\ looks w' = looks w /\ running w' = running w /\
  exists evs, Forall attempt evs /\
    match p with
    | None => trace w' = trace w ++ evs
    | Some fd => Opened fd ∈ evs /\ trace w' = trace w ++ evs ++ [Bound fd (ai_addr r)]
    end.
Proof.
  revert w. induction ps as [|p ps IH]; intros w Hf; cbn [open_loop].
  { exists None, w. split_and!; [done..|]. exists []. split; [constructor|]. by rewrite app_nil_r. }
  destruct (socket_result (calls w)) as [e|fd].
  { destruct (IH (emit (Err (lit "Failed to create socket")) (called w)) Hf) as (q & w' & E & M & B & L & R & evs & He & T). exists q, w'. split_and!; [done..|].
    exists (Err (lit "Failed to create socket") :: evs). split; [by constructor|]. cbn [trace emit called] in T.
    destruct q; [destruct T as [Hin T]; split; [by right|]|]; rewrite T, <- app_assoc; done. }
  destruct (bind_result _).
  - destruct (IH (emit (Err (lit "bind failed")) (called (emit (Opened fd) (called w)))) Hf) as (q & w' & E & M & B & L & R & evs & He & T). exists q, w'. split_and!; [done..|].
    exists (Opened fd :: Err (lit "bind failed") :: evs). split; [by repeat constructor|]. cbn [trace emit called] in T.
    destruct q; [destruct T as [Hin T]; split; [by right; right|]|]; rewrite T, <- !app_assoc; done.
  - eexists (Some fd), _. split; [reflexivity|]. split_and!; [done..|]. exists [Opened fd]. split; [by repeat constructor|]. split; [left|].
    cbn [trace emit called]. by rewrite <- app_assoc.
Qed.

End receiving.

(** ** Theorems *)

(** Receiving from IPv4 senders.  For every method, whatever memory and the network do,
    [receive] returns without an access outside a buffer, the use of an indeterminate byte, a
    double free or a leak.  Without memory it returns [ENOMEM]; on an error it returns the error
    number, or 0 if nothing was there; otherwise it prints the sender and the text of each
    datagram, cut into pieces of the size of a buffer. *)
Theorem receive_spec `{HostEndian} `{Posix} fd syscall w :
  fresh w -> (forall l, recv_result (calls w) = inr l -> l <> [] /\ Forall ipv4 l) ->
  exists r w', receive fd syscall w = Some (r, w') /\ received_ok syscall w r w'.
Proof. apply receive_returns. Qed.

(** An IPv6 sender.  Its address does not fit the [struct sockaddr] that the server has for
    it, and printing it reads past the end. *)
Theorem receive_ipv6_overread `{HostEndian} `{Posix} fd w d l :
  recv_result (calls w) = inr (d :: l) -> length (dg_from d) = 28%nat ->
  sa_family (Some <$> take 16 (dg_from d)) = Some AF_INET6 -> receive fd RECVFROM w = None.
Proof.
  intros E Hl Hf. cbn [receive]. unfold receive_recvfrom. rewrite E. cbn [one_of].
  assert (overwrite (take (Z.to_nat sizeof_sockaddr) (dg_from d)) (uninit sizeof_sockaddr) = Some <$> take 16 (dg_from d)) as ->.
  { unfold overwrite, uninit, sizeof_sockaddr. rewrite drop_ge by (rewrite length_replicate, length_take, Hl; done). apply app_nil_r. }
  unfold show_from. rewrite Hf. cbn [Z.eqb AF_INET AF_INET6 Pos.eqb get_in_addr]. unfold read_bytes. by rewrite length_fmap, length_take, Hl.
Qed.

(** The whole server.  With IPv4 senders the server returns once a signal has arrived, or
    at once if no address can be bound.  It binds the first address of the list, whichever entry
    the socket was made for; from then on it prints datagrams only: no error of [receive] is ever
    reported.  All memory is given back when a socket was bound; otherwise the list of
    addresses is left over, and with it the sockets that could not be bound. *)
Theorem run_spec `{HostEndian} `{PosixLaws} fuel family port syscall w :
  fresh w -> (forall k l, recv_result k = inr l -> Forall ipv4 l) ->
  (exists n, (looks w <= n < looks w + fuel)%nat /\ signal_arrives n = true) ->
  exists ret w', run fuel family port syscall w = Some (Some ret, w') /\
    match getaddrinfo (calls w) None port (mkHints family SOCK_DGRAM AI_PASSIVE) with
    | inl _ => ret = -1 /\ mem w' = mem w
    | inr addrs =>
        exists evs, Forall attempt evs /\
        ((ret = -1 /\ mem w' = <[brk w := ADDRINFO addrs]> (mem w) /\ trace w' = trace w ++ evs) \/
         (ret = 0 /\ mem w' = mem w /\ exists fd a out, Opened fd ∈ evs /\ head addrs = Some a /\
            trace w' = trace w ++ evs ++ Bound fd (ai_addr a) :: map Out out ++ [Closed fd]))
    end.
Proof.
  intros Hf Hv Hsig. unfold run. destruct (getaddrinfo _ _ _ _) as [e|addrs] eqn:Eg; [by eexists _, _|].
  apply getaddrinfo_some in Eg. destruct addrs as [|a addrs]; [done|]. set (w1 := mkWorld _ _ _ _ _ _ _).
  assert (fresh w1) as Hf1. { intros c Hc. cbn in *. rewrite lookup_insert_ne by lia. apply Hf. lia. }
  destruct (open_loop_spec a addrs (a :: addrs) w1 Hf1) as (p & w2 & E2 & M2 & B2 & L2 & R2 & evs & He & T2). rewrite E2.
  destruct p as [fd|].
  - destruct T2 as [Hin T2]. unfold freeaddrinfo. rewrite M2. cbn [w1 mem]. rewrite lookup_insert_eq. set (w3 := set_mem _ w2).
    assert (mem w3 = mem w) as M3 by (cbn [w3 mem set_mem]; rewrite M2; cbn [w1 mem called]; apply delete_insert_id; apply Hf; lia).
    assert (fresh w3) as F3. { intros c Hc. rewrite M3. apply Hf. cbn [w3 brk set_mem] in Hc. rewrite B2 in Hc. cbn in Hc. lia. }
    destruct (serve_spec fuel fd syscall w3 F3 Hv) as (w4 & out & E4 & M4 & F4 & T4).
    { right. destruct Hsig as (n & Hn & Hs). exists n. split; [|done]. cbn [w3 looks set_mem]. by rewrite L2. }
    rewrite E4. eexists 0, _. split; [reflexivity|]. exists evs. split; [done|]. right. split; [done|]. split; [cbn [mem emit]; congruence|].
    exists fd, a, out. split_and!; [done..|]. cbn [trace emit]. rewrite T4. cbn [w3 trace set_mem]. rewrite T2. cbn [w1 trace called].
    by rewrite <- !app_assoc.
  - eexists (-1), _. split; [reflexivity|]. exists (evs ++ [Err (lit "failed to create socket")]). split; [apply Forall_app; split; [done|by repeat constructor]|].
    left. split_and!; [done|done|]. cbn [trace emit]. rewrite T2, <- app_assoc. done.
Qed.

(** ** Witnesses *)

Module ServerWitnesses.

#[local] Instance little : HostEndian := false.

(** 127.0.0.1 and ::1. *)
Definition v4 : list ascii := map chr [2; 0; 35; 130; 127; 0; 0; 1; 0; 0; 0; 0; 0; 0; 0; 0].
Definition v6 : list ascii := map chr ([10; 0; 35; 130] ++ repeat 0 19 ++ [1; 0; 0; 0; 0]).

#[local] Instance system (from : list ascii) : Posix := {|
  alloc_ok _ := true;
  signal_arrives n := (3 <=? n)%nat;
  getaddrinfo _ _ _ _ := inr [mkAddrinfo AF_INET SOCK_DGRAM 17 v4];
  socket_result _ := inr 3;
  bind_result _ := inr tt;
  send_result _ := inr tt;
  sendmmsg_result _ := inr O;
  recv_result _ := inr [mkDatagram from (lit "hello")];
  inet_ntop _ _ := lit "127.0.0.1"
|}.

#[local] Instance system_laws from : @PosixLaws (system from).
Proof. split; cbn; intros; simplify_eq; done. Qed.

Definition start : world := mkWorld ∅ 1 0 0 0 true [].

Lemma start_fresh : fresh start.
Proof. intros b _. apply lookup_empty. Qed.

Lemma received_v4 (n : nat) (l : list datagram) : @recv_result (system v4) n = inr l -> l <> [] /\ Forall ipv4 l.
Proof. intros [= <-]. split; [done|]. by repeat constructor. Qed.

Lemma receive_spec_witness :
  exists r w', @receive _ (system v4) 3 RECVMMSG start = Some (r, w') /\ mem w' = ∅ /\ trace w' = [Out (lit "127.0.0.1: hello")].
Proof.
  destruct (@receive_spec _ (system v4) 3 RECVMMSG start start_fresh (received_v4 _)) as (r & w' & E & Hr).
  exists r, w'. split; [exact E|]. destruct Hr as [(_ & -> & _)|[_ [M _ _ _ T]]].
  - assert (option_map fst (@receive _ (system v4) 3 RECVMMSG start) = Some 0) as E0 by (vm_compute; reflexivity). rewrite E in E0. discriminate E0.
  - split; [exact M|]. rewrite T. reflexivity.
Defined.

Lemma receive_ipv6_overread_witness : @receive _ (system v6) 3 RECVFROM start = None.
Proof. eapply (@receive_ipv6_overread _ (system v6)); reflexivity. Defined.

Lemma run_spec_witness :
  exists w' fd evs out, @run _ (system v4) 10 AF_INET (lit "9090") RECVFROM start = Some (Some 0, w') /\ mem w' = ∅ /\
    trace w' = evs ++ Bound fd v4 :: map Out out ++ [Closed fd].
Proof.
  destruct (@run_spec _ (system v4) (system_laws v4) 10 AF_INET (lit "9090") RECVFROM start start_fresh) as (ret & w' & E & evs & _ & Hc).
  - intros k l El. by apply (received_v4 k).
  - exists 3%nat. split; [cbn; lia|done].
  - destruct Hc as [(-> & _)|(-> & M & fd & a & out & _ & [= <-] & T)].
    + assert (option_map fst (@run _ (system v4) 10 AF_INET (lit "9090") RECVFROM start) = Some (Some 0)) as E0 by (vm_compute; reflexivity).
      rewrite E in E0. discriminate E0.
    + exists w', fd, evs, out. split; [exact E|]. split; [exact M|exact T].
Defined.

End ServerWitnesses.
