(* ===== verification/UdpSession.v ===== *)
(** * A session of the UDP programs

    What the server of [UdpServer] prints of what the client of [UdpClient] sends. *)

From stdpp Require Import gmap.
From S2P Require Import Prelude Containers Utility UdpMemory UdpClient UdpServer.

Open Scope Z_scope.
Open Scope collector_scope.

(** The text without the null character that is sent with it. *)
Definition text : str := c_string UdpClient.LOREM_IPSUM 0.

(** ** Lemmas *)

(** One copy fits a buffer. *)
Lemma text_lines name : lines UdpServer.IOVEC_N name (kept UdpClient.LOREM_IPSUM) = [name ++ lit ": " ++ text].
Proof. vm_compute. reflexivity. Qed.

(** The second buffer starts with the end of the tenth copy. *)
Lemma copies_lines name :
  lines UdpServer.IOVEC_N name (kept UdpClient.copies) = [name ++ lit ": " ++ text; name ++ lit ": " ++ drop 73 text].
Proof. vm_compute. reflexivity. Qed.

Lemma first_buffer :
  c_string (take (Z.to_nat BUF_SIZE) UdpClient.LOREM_IPSUM) 0 = text /\ c_string (take (Z.to_nat BUF_SIZE) UdpClient.copies) 0 = text.
Proof. split; vm_compute; reflexivity. Qed.

(** The first line that is printed of a datagram of the client. *)
Lemma reception_text `{HostEndian} `{Posix} syscall d :
  dg_data d = UdpClient.LOREM_IPSUM \/ dg_data d = UdpClient.copies ->
  exists rest, reception syscall (inr [d]) = (0, (sender d ++ lit ": " ++ text) :: rest).
Proof.
  intros Hd. unfold reception, message_lines. cbn [one_of take UdpServer.MMSGHDR_N flat_map]. rewrite ?app_nil_r. unfold message_lines.
  destruct syscall, Hd as [->| ->]; rewrite ?text_lines, ?copies_lines, ?(proj1 first_buffer), ?(proj2 first_buffer); by eexists.
Qed.

(** ** Theorem *)

(** C39. From the client to the server.  The client has targets in its memory and, for [sendmmsg], targets
    times messages is below 2^31.  Its sending then returns, and every datagram it sends, with any of its
    methods, is printed by a server whose call of a receiving function gets exactly this datagram, from an IPv4
    address, with any of its methods, as a line with the address of the sender and the whole text first; unless there is
    no memory to receive it. *)
Theorem session `{HostEndian} (C S : Posix) (L : @PosixLaws C) d w tb bs addrs fd a s evs from fd' syscall v :
  fresh w -> targets_at (mem w) (rd_targets d) tb bs addrs -> 0 <= rd_msgs d ->
  (rd_syscall d = UdpClient.SENDMMSG -> Z.of_nat (length bs) * rd_msgs d < 2 ^ 31) ->
  fresh v -> @recv_result S (calls v) = inr [mkDatagram from s] -> ipv4 (mkDatagram from s) ->
  exists r w', @UdpClient.m_send C d w = Some (r, w') /\
    (trace w' = trace w ++ evs -> Sent fd a s ∈ evs ->
     exists r' v', @receive _ S fd' syscall v = Some (r', v') /\ mem v' = mem v /\
       (r' = ENOMEM \/ exists rest, trace v' = trace v ++ Out (sender (mkDatagram from s) ++ lit ": " ++ text) :: rest)).
Proof.
  intros Hf Ht Hm Hmax Hfv Er Hv.
  destruct (@m_send_sends C L d w tb bs addrs Hf Ht Hm Hmax) as (r & w' & k & E & Hs & _). exists r, w'. split; [exact E|]. intros T Hin.
  rewrite (sd_trace _ _ _ _ _ Hs) in T. cbn [trace emit] in T. rewrite <- app_assoc in T. apply app_inv_head in T. subst evs.
  apply elem_of_cons in Hin as [|Hin]; [done|]. apply list_elem_of_fmap in Hin as ([a' s'] & [= -> <- <-] & Hin).
  apply subseteq_take in Hin as Hin'. apply planned_elem in Hin' as [_ Hs'].
  destruct (@receive_returns _ S fd' syscall v Hfv) as (r' & v' & E' & Hr).
  { intros l El. rewrite Er in El. injection El as <-. split; [done|]. by apply Forall_singleton. }
  exists r', v'. split; [exact E'|]. destruct Hr as [(_ & -> & [M _ _ _ _])|[_ [M _ _ _ T]]]; (split; [exact M|]); [by left|right].
  rewrite Er in T. destruct (@reception_text _ S syscall (mkDatagram from s) Hs') as [rest Et]. rewrite Et in T. by exists (map Out rest).
Qed.

(** ** Witness *)

Module SessionWitness.
Import ServerWitnesses ClientWitnesses.

#[local] Instance receiver (s : str) : Posix := {|
  alloc_ok _ := true;
  signal_arrives _ := false;
  getaddrinfo _ _ _ _ := inl 2;
  socket_result _ := inl 1;
  bind_result _ := inl 1;
  send_result _ := inl 1;
  sendmmsg_result _ := inl 1;
  recv_result _ := inr [mkDatagram v4 s];
  inet_ntop _ _ := lit "127.0.0.1"
|}.

Lemma session_witness :
  exists w', @UdpClient.m_send ClientWitnesses.system (job UdpClient.SENDMSG 1) ready = Some (0, w') /\
    Sent 3 address UdpClient.copies ∈ trace w' /\
    exists r v', @receive false (receiver UdpClient.copies) 5 RECVMSG ServerWitnesses.start = Some (r, v') /\ mem v' = ∅.
Proof.
  destruct (@session false ClientWitnesses.system (receiver UdpClient.copies) ClientWitnesses.system_laws (job UdpClient.SENDMSG 1) ready 1 _ _ 3 address
    UdpClient.copies [Out (lit "Sending data..."); Sent 3 address UdpClient.copies; Sent 3 address UdpClient.copies] v4 5 RECVMSG ServerWitnesses.start
    ready_fresh (ready_targets _ _) ltac:(done) ltac:(done) ServerWitnesses.start_fresh eq_refl ltac:(done)) as (r & w' & E & Hs).
  assert (option_map (fun x => (x.1, trace x.2)) (@UdpClient.m_send ClientWitnesses.system (job UdpClient.SENDMSG 1) ready) =
    Some (0, [Out (lit "Sending data..."); Sent 3 address UdpClient.copies; Sent 3 address UdpClient.copies])) as E0 by (vm_compute; reflexivity).
  rewrite E in E0. injection E0 as -> Et. exists w'. split; [exact E|]. rewrite Et. split; [by right; left|].
  destruct (Hs Et ltac:(by right; left)) as (r' & v' & E' & M & _). exists r', v'. split; [exact E'|exact M].
Defined.

End SessionWitness.
