(* ===== verification/TestPrograms.v ===== *)
(** * Programs of the integration tests

    [perf/tools/bpf/do_syscall_64_latency.bpf.c], the two probes that measure the latency of system
    calls, with their hash maps as finite maps; [perf_event_open/sched_process_exit.c], which counts the events of
    a tracepoint, with the results of the system calls as inputs. *)

From S2P Require Import Prelude Utility UdpClient.
From stdpp Require Import gmap.

Open Scope Z_scope.
Open Scope collector_scope.

(** ** Latency of system calls *)

Module Latency.

Record latency_event := mkLatencyEvent { id : Z; delta : Z }.

(** The two hash maps, by thread. *)
Record maps := mkMaps { ids : gmap Z Z; start : gmap Z Z }.

Definition enter_probe (pid_tgid ktime arg0 : Z) (m : maps) : maps :=
  let pid := wrap 32 pid_tgid in
  let ts := ktime in
  let id := arg0 in
  let m := mkMaps (ids m) (<[pid := ts]> (start m)) in
  mkMaps (<[pid := id]> (ids m)) (start m).

(** The ID is read through the pointer into the map after the entry was deleted: [reused] is what another
    processor has stored in the element by then, if it has. *)
Definition exit_probe (pid_tgid ktime : Z) (reused : option Z) (m : maps) : maps * option latency_event :=
  let pid := wrap 32 pid_tgid in
  match start m !! pid, ids m !! pid with
  | Some ts, Some id =>
      let delta := wrap 32 (ktime - ts) in
      let m := mkMaps (ids m) (delete pid (start m)) in
      let m := mkMaps (delete pid (ids m)) (start m) in
      (m, Some (mkLatencyEvent (default id reused) delta))
  | _, _ => (m, None)
  end.

(** A call of a probe. *)
Inductive call :=
| Enter (pid_tgid ktime arg0 : Z)
| Exit (pid_tgid ktime : Z) (reused : option Z).

Fixpoint probes (cs : list call) (m : maps) : maps * list latency_event :=
  match cs with
  | [] => (m, [])
  | Enter pid t arg0 :: cs => probes cs (enter_probe pid t arg0 m)
  | Exit pid t reused :: cs =>
      let '(m, e) := exit_probe pid t reused m in
      let '(m, es) := probes cs m in
      (m, match e with Some e => e :: es | None => es end)
  end.

Definition thread_of (c : call) : Z := match c with Enter pid _ _ | Exit pid _ _ => wrap 32 pid end.

(** The call a thread is in after [past], the latest call first: its last probe was the entry. *)
Fixpoint current (past : list call) (pid : Z) : option (Z * Z) :=
  match past with
  | [] => None
  | c :: past =>
      if thread_of c =? pid then match c with Enter _ t arg0 => Some (arg0, t) | Exit _ _ _ => None end
      else current past pid
  end.

(** The events there should be. *)
Fixpoint latencies (past cs : list call) : list latency_event :=
  match cs with
  | [] => []
  | c :: cs =>
      match c, current past (thread_of c) with
      | Exit _ t _, Some (id, ts) => mkLatencyEvent id (wrap 32 (t - ts)) :: latencies (c :: past) cs
      | _, _ => latencies (c :: past) cs
      end
  end.

(** The maps hold the calls the threads are in. *)
Definition holds (past : list call) (m : maps) : Prop :=
  forall pid, match current past pid with
              | Some (id, ts) => ids m !! pid = Some id /\ start m !! pid = Some ts
              | None => ids m !! pid = None /\ start m !! pid = None
              end.

Definition undisturbed (c : call) : Prop := match c with Exit _ _ reused => reused = None | _ => True end.

Lemma holds_enter past m pid t arg0 : holds past m -> holds (Enter pid t arg0 :: past) (enter_probe pid t arg0 m).
Proof.
  intros Hm k. cbn [current thread_of]. destruct (Z.eqb_spec (wrap 32 pid) k) as [<-|Hk]; cbn; [by rewrite !lookup_insert_eq|].
  rewrite !lookup_insert_ne by done. apply Hm.
Qed.

Lemma holds_exit past m pid t reused :
  holds past m -> holds (Exit pid t reused :: past) (exit_probe pid t reused m).1 /\
  (exit_probe pid t reused m).2 = (fun c => mkLatencyEvent (default c.1 reused) (wrap 32 (t - c.2))) <$> current past (wrap 32 pid).
Proof.
  intros Hm. pose proof (Hm (wrap 32 pid)) as Hp. unfold exit_probe. destruct (current past (wrap 32 pid)) as [[i ts]|].
  - destruct Hp as [-> ->]. split; [|done]. intros k. cbn [current thread_of fst ids start].
    destruct (Z.eqb_spec (wrap 32 pid) k) as [<-|Hk]; [by rewrite !lookup_delete_eq|]. rewrite !lookup_delete_ne by done. apply Hm.
  - destruct Hp as [Hi Hs]. rewrite Hi, Hs. split; [|done]. intros k. cbn [current thread_of fst].
    destruct (Z.eqb_spec (wrap 32 pid) k) as [<-|Hk]; [done|]. apply Hm.
Qed.

(** Latencies.  Over every sequence of calls of the two probes, in which a return probe may be missing, exactly one event is
    submitted for every return of a thread whose last probe was an entry, with the system call and
    the time of that entry, the difference being taken modulo 2^32 nanoseconds; provided no other processor
    reuses the deleted entry of a map before it is read. *)
Theorem probes_spec (cs : list call) :
  Forall undisturbed cs -> (probes cs (mkMaps ∅ ∅)).2 = latencies [] cs /\ holds (rev cs) (probes cs (mkMaps ∅ ∅)).1.
Proof.
  intros Hcs. assert (holds [] (mkMaps ∅ ∅)) as H0 by done. rewrite <- (app_nil_r (rev cs)). generalize (mkMaps ∅ ∅), (@nil call), H0. clear H0.
  induction Hcs as [|c cs Hc Hcs IH]; intros m past Hm; [done|]. cbn [rev]. rewrite <- (assoc_L (++)). cbn [app].
  destruct c as [pid t arg0|pid t reused]; cbn [probes latencies].
  - apply IH. by apply holds_enter.
  - cbn in Hc. subst reused. destruct (holds_exit past m pid t None Hm) as [Hm' E]. cbn [thread_of].
    destruct (exit_probe pid t None m) as [m' e]. cbn [fst snd] in Hm', E. subst e. destruct (IH m' _ Hm') as [E' Hr].
    destruct (probes cs m') as [m2 es]. cbn [fst snd] in *. subst es. by destruct (current past (wrap 32 pid)) as [[]|].
Qed.

(** A long call is reported as a short one, and an entry that is reused gives its ID to the event. *)
Lemma probes_wrong :
  (probes [Enter 7 0 202; Exit 7 (2 ^ 32 + 5) None] (mkMaps ∅ ∅)).2 = [mkLatencyEvent 202 5] /\
  (probes [Enter 7 0 202; Exit 7 5 (Some 0)] (mkMaps ∅ ∅)).2 = [mkLatencyEvent 0 5].
Proof. split; vm_compute; reflexivity. Qed.

Definition sample : list call := [Exit 7 3 None; Enter 7 10 0; Enter 8 11 1; Enter 7 12 2; Exit 7 20 None; Exit 8 31 None].

Lemma probes_spec_witness : (probes sample (mkMaps ∅ ∅)).2 = [mkLatencyEvent 2 8; mkLatencyEvent 1 20].
Proof. rewrite (proj1 (probes_spec sample ltac:(repeat constructor))). reflexivity. Defined.

End Latency.

(** ** Counting the events of a tracepoint *)

Module ProcessExit.

Inductive effect :=
| Stderr_arguments (given : Z)
| Stderr_open (config : Z)
| PerfEventOpen (config : Z)
| Ioctl_reset
| Ioctl_enable
| Sleep (seconds : Z)
| Ioctl_disable
| Read
| Printed (count : Z)
| Closed (fd : Z).

(** [fd]: the result of [perf_event_open]; [read]: the value read, if the read was complete; [garbage]: what
    [count] holds before.  The effects and the exit code; [None] where [atoi] is undefined. *)
Definition main (argc : Z) (argv : list str) (fd : Z) (read : option Z) (garbage : Z) : option (list effect * Z) :=
  if negb (argc =? 3) then Some ([Stderr_arguments (argc - 1)], 1)
  else
    let! wait_interval := argv !! 1%nat ≫= atoi in
    let! tracepoint_code := argv !! 2%nat ≫= atoi in
    let config := wrap 64 tracepoint_code in
    if fd =? -1 then Some ([PerfEventOpen config; Stderr_open config], 1)
    else
      let count := default garbage read in
      Some ([PerfEventOpen config; Ioctl_reset; Ioctl_enable; Sleep (wrap 32 wait_interval); Ioctl_disable; Read; Printed count; Closed fd], 0).

(** A read that fails goes unnoticed: the program prints what was on its stack and succeeds. *)
Lemma read_unchecked prog wait code w c fd garbage :
  atoi wait = Some w -> atoi code = Some c -> fd <> -1 ->
  exists es, main 3 [prog; wait; code] fd None garbage = Some (es, 0) /\ Printed garbage ∈ es.
Proof.
  intros Hw Hc Hfd. unfold main. cbn. rewrite Hw, Hc. apply Z.eqb_neq in Hfd. rewrite Hfd. eexists. split; [reflexivity|]. set_solver.
Qed.

End ProcessExit.
